(* ===== verification/_CoqProject ===== *)
-Q . S2P
Prelude.v
PyFloat.v
Buckets.v
Block.v
FreeQueue.v
PrefixKeys.v
Request.v
Acceptance.v
World.v
BlockPool.v
KVCacheManager.v
BlockManager.v
BlockInv.v
Allocator.v
ManagerSpec.v
ManagerSteps.v
ManagerTheorems.v
SchedulerState.v
Scheduler.v
SchedulerSpec.v
UniformScheduler.v
SchedulerLife.v
SchedulerWitness.v
Parallel.v
Routing.v
RoutingSpec.v
OffloadTier.v
OffloadSpec.v
MooncakeStore.v
StoreSpec.v
StoreBatch.v
PoolKeys.v
StoreTheorems.v
StoreHistory.v
HybridLayout.v
HybridState.v
HybridManager.v
HybridInv.v
HybridTables.v
HybridGrow.v
HybridEnsure.v
HybridPlans.v
HybridAdmit.v
HybridStart.v
HybridPublish.v
HybridExternal.v
NativeStore.v
OffloadConnector.v
OffloadSystem.v
OffloadLoads.v
OffloadProbe.v
OffloadAdmit.v
OffloadRun.v
OffloadTheorems.v
OffloadWitness.v
HybridFindings.v
AfNodes.v
AfDag.v
AfGraph.v
AfTraffic.v
AfRun.v
AfCoalesce.v
AfMerge.v
AfTheorems.v
AfPlan.v
AfResident.v
DpCoordinator.v
DpLockstep.v
DpIdle.v
DpTheorems.v
