(* ===== verification/Prelude.v ===== *)
(** * TokenSim: verified serving core

    TokenSim ([src/TokenSim]) is a deterministic discrete-event simulator of LLM
    serving.  A request enters an engine, the scheduler gives it tokens of each
    step and blocks of the paged KV cache, finished prefixes are published for
    reuse, KV blocks may be offloaded to or loaded from a pooled store or a rank's own
    host memory, and routers place requests on data-parallel ranks.  This library models that core and
    proves what makes it correct.

    ** How the program is modelled

    A method that mutates an object and may raise is a function in the
    state-and-exception monad [M] below: the exception carries the state reached,
    because Python undoes nothing.  Objects that the program shares (blocks,
    requests, stored objects) live in maps of the state and are mutated there; a
    reference is a key.  Python integers are [Z], floats are IEEE binary64
    ([PyFloat]), strings are lists of code points where their contents matter.
    Specifications are weakest preconditions [wp], which demand that a computation
    returns or raises as stated.

    ** Components

    - KV blocks.  [Block] (block/block.py), [FreeQueue] (block/free_queue.py),
      [PrefixKeys] (block/prefix_cache.py), [World] (the state of a block manager:
      heap of blocks, two pools, block table, cache index, key memos), [BlockPool]
      (block/block_pool.py and BlockAllocator), [KVCacheManager]
      (block/kv_cache_manager.py), [BlockManager] (block/block_table.py,
      block/block_manager.py).  [BlockInv] states the invariant (reference count =
      number of holders, free queue = unreferenced blocks, requests agree with
      the table); [Allocator], [ManagerSpec] and [ManagerSteps] show that each
      operation keeps it; [ManagerTheorems] has the theorems over every history.
    - Requests.  [Request] (llm/llm_request.py, llm/request_time.py), [Acceptance]
      (llm/speculative_acceptance.py and its configuration checks).
    - Scheduling.  [SchedulerState], [Scheduler] (llm/llm_scheduler.py,
      llm/paged_scheduling.py, llm/paged_tokens.py) are written against two type
      classes, the operations of a block manager and those of a KV connector, as
      the source is.  [SchedulerSpec] proves the step against their laws;
      [UniformScheduler] discharges the laws with the block manager and the no-op
      connector; [SchedulerLife] is the life cycle; [SchedulerWitness] runs it.
    - Layout.  [Parallel] (config/parallel_config.py, moe/config.py,
      moe/placement.py): rank arithmetic, expert and layer placement.
    - Routing.  [Routing], [RoutingSpec] (placement/consistent_hash.py,
      placement/policies.py): MurmurHash64A, FurcHash, the hash ring, session
      routers, worker pools.
    - Pooled store.  [OffloadTier], [OffloadSpec] (mooncake/ssd.py, the storage package):
      the bounded second tier; [MooncakeStore] (mooncake/store.py, pool_key.py,
      service.py); [StoreSpec] its invariant, key by key, and the protection of
      objects in use; [StoreBatch] the bulk write path; [PoolKeys] the key
      strings; [StoreTheorems] and [StoreHistory] the theorems over histories of
      engines that share a store.

    - Grouped KV cache (block/hybrid).  Models with compressed attention keep several
      kinds of cache pages in one pool of slots.  [HybridLayout] (kv_layout.py)
      registers the pages of every layer and packs them into groups; [HybridState]
      (manager.py) is the manager's state; [HybridManager] (allocator.py,
      prefix_cache.py, external_cache.py) has its operations.  The invariant is
      [HybridAdmit.Good]: slot references, free queue and prefix map ([HybridInv]),
      page tables ([HybridTables]), remembered plans ([HybridPlans]).  [HybridGrow] and
      [HybridEnsure] are window growth, [HybridAdmit] admission and release,
      [HybridStart] a new manager and its self-check, [HybridPublish] the publication
      of computed pages, [HybridExternal] imports and transfer references.
    - Offload to host memory.  [NativeStore] (kv_transfer/native_storage.py) is the
      bounded LRU of pinned pages; [OffloadConnector]
      (kv_transfer/connectors/simple_cpu.py, with the admission of llm/llm_scheduler.py
      and llm/paged_scheduling.py that drives it) the asynchronous connector.  The
      connector is the callback of the manager and calls it back, so both are one
      state, [hybrid Connector], with the invariant [OffloadSystem.SysInv].  A
      coroutine that waits for a link is a record of what is left of it, and its
      resumption is a step of its own, so every interleaving of transfers with
      scheduling and cancellation is a run ([OffloadRun.reachable]).  [OffloadLoads],
      [OffloadProbe] and [OffloadAdmit] treat loads, lookups and admissions,
      [OffloadTheorems] has the theorems and [OffloadWitness] a concrete run.
    - Attention-FFN disaggregation (af).  [AfNodes] (planning/nodes.py,
      providers/queries.py) has the nodes of the graph one layer executes, [AfDag]
      (planning/dag.py, reuse_validation.py) every check that accepts a graph and
      [AfGraph] what those checks establish; [AfCoalesce] (planning/coalesce.py) merges
      transfers that are ready together and [AfMerge] shows the result to be a
      contraction of the graph; [AfTraffic] (comm/traffic.py, comm/traffic_types.py,
      providers/traffic.py) plans ring collectives as phases; [AfRun]
      (execution/iteration.py, execution/transport.py) is the set of processes that run
      a graph, as a step relation: on a physical topology a collective bound to the
      producers of its inputs starts without them and waits phase by phase;
      [AfTheorems] has their theorems and concrete
      graphs.  [AfPlan] (runtime/plan.py, records.py, config/cache_config.py) computes
      the KV bytes of a rank from the compiled plan and [AfResident]
      (runtime/admission.py) is the ledger that reserves them.
    - Data-parallel lockstep.  [DpCoordinator] (llm/dp_coordinator.py,
      llm/engine/worker.py) runs the schedulers of all ranks in passes.  Its coroutine is
      a function per resumption, its state the point it is suspended at, and what may
      happen next, a resumption, a message or a change of a request, is a step relation.
      [DpLockstep] proves the invariant over the scheduler of [UniformScheduler],
      [DpIdle] follows passes without work, [DpTheorems] has the theorems and a
      concrete run.
    - [Buckets] has what the components share: grouping by a key, dictionaries built
      from items and sums under keys.

    ** What the theorems show

    - Block accounting is exact after every sequence of operations, also when one
      raises; a yes of [can_allocate] or [can_append_slot] is kept; failed
      allocation rolls back; swap, release and reuse after commit do what they
      promise; the free queue refines an abstract queue; prefix keys identify
      contents and their memo tables are invisible.
    - A scheduling step never raises, never exceeds its token budget or
      max_num_seqs, keeps arrival order, and leaves the accounting exact over
      the whole life of a scheduler.
    - A request's context accounting is exact in every reachable state, also once its
      bulky state is dropped, and from each of them it completes within a stated number
      of steps, chunked, length-capped and preempted as it may be.
    - The packed layout of a grouped cache holds exactly the pages the layers
      registered.  In every run of the grouped manager with its connector the
      manager's and the store's own checks succeed, reference counts are the tables
      and the transfers that name a slot, the targets of a load are private, the end
      of a load whose request was cancelled publishes nothing, a yes of
      [can_ensure_slots] or [can_allocate_external] is kept, and once the links
      deliver every transfer ends and holds nothing.
    - An accepted execution graph can be run to its end in any order of its processes
      and of the phases of its collectives;
      in a mixture of experts every assignment is processed exactly once on every rank
      of its expert's group; merging transfers keeps a graph well formed and every byte.
      The reservations of resident KV are exact, fit into the devices while contexts grow
      to their maximum, and an admission is undone by its release.
    - However passes, messages and cancellations interleave, the data-parallel ranks run
      the same passes, a batch under way keeps its requests, and a wave without work
      ends within the interval of its check, by dummy passes only.
    - Rank coordinates are a bijection, expert groups tile the ranks, experts and
      layers are partitioned.
    - The optimised FurcHash equals its definition, removing a worker from the
      ring moves only its keys, sessions stick, round robin is fair.
    - The pooled store's books balance over every history, an object being read
      is never dropped, the bulk path equals writing keys one by one, a lookup is
      exactly the ready prefix, written keys are found, keys do not collide.
    - Defects of the source are theorems as well:
      [Parallel.moe_layer_indices_short], [RoutingSpec.affinity_unbounded] and those of
      [HybridFindings].

    ** Parameters, bounds and fuel

    SHA-256, BLAKE2b and storage plugins are parameters, with collision freedom of
    SHA-256 and the price of a block's I/O as hypotheses where a theorem needs
    them; witnesses instantiate them.  That a plan names no slot twice, which
    [external_admission_fits] assumes, fails only when prefix hashes collide.  The session router's validation of a
    mapping file and the load of a worker are inputs.  Loops that do not recurse on
    data carry fuel with the source's own bound: the preemption loop the length
    of the queue, the eviction loops of the stores the length of the LRU order, the
    binary search the length of the list, FurcHash its 32 tries, the search for the
    ancestors of a node the number of predecessor entries of the graph; the specifications
    are proved of the fuelled functions as total computations, so running out of
    fuel is excluded or, as in the eviction loops, coincides with the source's
    result.

    ** Not modelled

    Replica managers and the sizing of persistent buffers (block/hybrid beside the
    files named above), the engine and the loop of a worker outside lockstep, the
    simulation clock (the order of events is arbitrary instead), the links, notifications
    and statistics of the SimpleCPU connector and the other connectors between scheduler and store, network
    models and the plans of all-to-all and point-to-point transfers, latency models and operator tables (floating-point cost
    formulas over measured data), the planners, providers and coroutine executor of the
    attention-FFN mode, workload loaders, traces,
    configuration parsing, the command line and reports.  The admission of a request
    with stored pages is modelled from its plan to [_admit]; its gates on the token
    budget of the step are those of [Scheduler].  Within the modelled files,
    dictionaries built only for reports are left out. *)

From stdpp Require Import gmap list list_numbers strings.
From Stdlib Require Import ZArith Lia.

(** ** Notations of the development *)

Declare Scope tokensim_scope.
Delimit Scope tokensim_scope with tokensim.
Open Scope tokensim_scope.

#[global] Arguments Nat.ltb _ _ : simpl never.

(** Lemmas that close the routine goals of the components. *)
Create HintDb tokensim.

(** ** Exceptions: [TokenSim/errors.py] and the builtin exceptions raised *)

Inductive error :=
  | ConfigurationError
  | WorkloadValidationError
  | SimulationStateError
  | OutOfBlocksError
  | TransferError
  | IndexError
  | KeyError
  | ZeroDivisionError
  | TypeError
  | ValueError
  | AttributeError
  | StopIteration.

#[global] Instance error_eq_dec : EqDecision error.
Proof. solve_decision. Defined.

Inductive outcome (A : Type) :=
  | Ok (a : A)
  | Raise (e : error).
Arguments Ok {A} a.
Arguments Raise {A} e.

(** ** The state-and-exception monad

    A Python method that mutates an object of state [S] and may raise is a
    function [S -> outcome A * S]: an exception carries the state reached when
    it was raised, because Python does not undo mutations. *)

Definition M (S A : Type) : Type := S → outcome A * S.

#[global] Instance M_ret {S} : MRet (M S) := λ A a s, (Ok a, s).

#[global] Instance M_bind {S} : MBind (M S) := λ A B k m s,
  match m s with
  | (Ok a, s') => k a s'
  | (Raise e, s') => (Raise e, s')
  end.

Section Monad.
Context {S : Type}.

(** [raise e] *)
Definition raise {A} (e : error) : M S A := λ s, (Raise e, s).

(** [try: m except Exception as e: h(e)]; the handler re-raises itself. *)
Definition catch {A} (m : M S A) (h : error → M S A) : M S A := λ s,
  match m s with
  | (Ok a, s') => (Ok a, s')
  | (Raise e, s') => h e s'
  end.

(** Read and write the object's fields. *)
Definition gets {A} (f : S → A) : M S A := λ s, (Ok (f s), s).

Definition modify (f : S → S) : M S unit := λ s, (Ok tt, f s).

(** [for x in l: body(x)] *)
Fixpoint for_ {A} (l : list A) (body : A → M S unit) : M S unit :=
  match l with
  | [] => mret tt
  | x :: l => body x ;; for_ l body
  end.

(** [for _ in range(n): body()], nothing when [n] is negative *)
Definition for_range (n : Z) (body : M S unit) : M S unit :=
  for_ (replicate (Z.to_nat n) tt) (λ _, body).

(** [acc = []; try: for m in ms: acc.append(m()) except Exception: undo(acc); raise]
    followed by the use of [acc]. *)
Fixpoint collect {A} (ms : list (M S A)) (undo : list A → M S unit) (acc : list A) :
    M S (list A) :=
  match ms with
  | [] => mret acc
  | m :: ms => λ s,
      match m s with
      | (Ok a, s') => collect ms undo (acc ++ [a]) s'
      | (Raise e, s') => (undo acc ;; raise e) s'
      end
  end.

(** [if c: body] *)
Definition when (c : bool) (body : M S unit) : M S unit :=
  if c then body else mret tt.
End Monad.

(** ** Weakest preconditions

    [wp m Q E s]: running [m] in [s] either returns [a] in a state with
    [Q a s'] or raises [e] in a state with [E e s'].  It is a match on a
    computation, so it is both executable and a total-correctness statement. *)

Definition wp {S A} (m : M S A) (Q : A → S → Prop) (E : error → S → Prop)
    (s : S) : Prop :=
  match m s with
  | (Ok a, s') => Q a s'
  | (Raise e, s') => E e s'
  end.

#[global] Arguments wp : simpl never.

(** The exceptional postcondition of code that must not raise. *)
Definition no_raise {S} : error → S → Prop := λ _ _, False.

Section WpRules.
Context {S : Type}.
Implicit Types (s : S) (E : error → S → Prop).

Lemma wp_ret {A} (a : A) Q E s : wp (mret a) Q E s ↔ Q a s.
Proof. done. Qed.

Lemma wp_raise {A} e (Q : A → S → Prop) E s : wp (raise e) Q E s ↔ E e s.
Proof. done. Qed.

Lemma wp_bind {A B} (m : M S A) (k : A → M S B) Q E s :
  wp (m ≫= k) Q E s ↔ wp m (λ a s', wp (k a) Q E s') E s.
Proof. unfold wp, mbind, M_bind. by destruct (m s) as [[a|e] s']. Qed.

Lemma wp_catch {A} (m : M S A) h Q E s :
  wp (catch m h) Q E s ↔ wp m Q (λ e s', wp (h e) Q E s') s.
Proof. unfold wp, catch. by destruct (m s) as [[a|e] s']. Qed.

Lemma wp_gets {A} (f : S → A) Q E s : wp (gets f) Q E s ↔ Q (f s) s.
Proof. done. Qed.

Lemma wp_modify (f : S → S) Q E s : wp (modify f) Q E s ↔ Q tt (f s).
Proof. done. Qed.

Lemma wp_mono {A} (m : M S A) (Q Q' : A → S → Prop) E E' s :
  wp m Q E s →
  (∀ a s', Q a s' → Q' a s') →
  (∀ e s', E e s' → E' e s') →
  wp m Q' E' s.
Proof. unfold wp. destruct (m s) as [[a|e] s']; auto. Qed.

Lemma wp_and {A} (m : M S A) (Q Q' : A → S → Prop) E E' s :
  wp m Q E s → wp m Q' E' s →
  wp m (λ a s', Q a s' ∧ Q' a s') (λ e s', E e s' ∧ E' e s') s.
Proof. unfold wp. destruct (m s) as [[a|e] s']; auto. Qed.

(** The outcome is the one of the run. *)
Lemma wp_outcome {A} (m : M S A) Q E s :
  wp m Q E s → wp m (λ a s', (m s).1 = Ok a ∧ Q a s') (λ e s', (m s).1 = Raise e ∧ E e s') s.
Proof. unfold wp. by destruct (m s) as [[a|e] s']. Qed.

Lemma wp_ok_inv {A} (m : M S A) Q s :
  wp m Q no_raise s → ∃ a s', m s = (Ok a, s') ∧ Q a s'.
Proof. unfold wp. destruct (m s) as [[a|e] s'] eqn:?; [eauto|done]. Qed.

(** Loop rule: an invariant indexed by the elements already processed. *)
Lemma wp_for {A} (I : list A → S → Prop) (l : list A) (body : A → M S unit) E s :
  I [] s →
  (∀ done_ x todo s', l = done_ ++ x :: todo → I done_ s' →
     wp (body x) (λ _ s'', I (done_ ++ [x]) s'') E s') →
  wp (for_ l body) (λ _ s', I l s') E s.
Proof.
  intros H0 Hstep.
  assert (∀ todo done_ s', l = done_ ++ todo → I done_ s' →
    wp (for_ todo body) (λ _ s'', I l s'') E s') as Hgen.
  { induction todo as [|x todo IH]; intros done_ s' -> HI; simpl.
    - rewrite app_nil_r. by apply wp_ret.
    - apply wp_bind. eapply wp_mono; [by eapply Hstep| |done].
      intros u s'' HI'. apply (IH (done_ ++ [x])); [by rewrite <- app_assoc|done]. }
  by apply (Hgen l []).
Qed.

(** The rule of [collect] over the images of a list: [I todo acc s] holds when
    [acc] was collected and the images of [todo] are still to run. *)
Lemma wp_collect {X A} (I : list X → list A → S → Prop) (f : X → M S A) xs undo acc Q E s :
  I xs acc s →
  (∀ x todo acc s, I (x :: todo) acc s →
     wp (f x) (λ a s', I todo (acc ++ [a]) s')
       (λ e s', wp (undo acc) (λ _ s'', E e s'') E s') s) →
  (∀ acc s, I [] acc s → Q acc s) →
  wp (collect (f <$> xs) undo acc) Q E s.
Proof.
  intros HI Hstep Hend. revert acc s HI. induction xs as [|x xs IH]; intros acc s HI.
  { by apply wp_ret, Hend. }
  pose proof (Hstep x xs acc s HI) as Hx. unfold wp in *. cbn [collect fmap list_fmap].
  destruct (f x s) as [[a|e] s']; [by apply IH|].
  unfold mbind, M_bind. by destruct (undo acc s') as [[?|?] ?].
Qed.

Lemma wp_collect_app {A} (ms ms' : list (M S A)) undo acc Q E s :
  wp (collect ms undo acc) (λ acc s, wp (collect ms' undo acc) Q E s) E s →
  wp (collect (ms ++ ms') undo acc) Q E s.
Proof.
  revert acc s. induction ms as [|m ms IH]; intros acc s; [done|].
  unfold wp in *. cbn [collect app]. destruct (m s) as [[a|e] s']; [apply IH|].
  unfold mbind, M_bind. by destruct (undo acc s') as [[?|?] ?].
Qed.
End WpRules.

(** ** Attribute assignment on records

    [r <| f := v |>] is the Python statement [r.f = v] on a record value.  The
    record declares its eta expansion as an [Eta] instance; the setter of a
    field replaces that projection in it. *)

Class Eta (R : Type) := eta : R → R.

Class Setter {R T : Type} (p : R → T) := update_field : (T → T) → R → R.
Arguments update_field {R T} p {_} f r /.

Ltac solve_setter :=
  match goal with
  | |- @Setter ?R ?T ?p =>
      let inst := constr:(_ : Eta R) in
      let e := eval red in inst in
      let t := constr:(λ (f : T → T) (r : R), ltac:(
        let body := eval cbv beta in (e r) in
        match eval pattern (p r) in body with
        | ?g _ => let res := eval cbv beta in (g (f (p r))) in exact res
        end)) in
      exact t
  end.

#[export] Hint Extern 0 (Setter _) => solve_setter : typeclass_instances.

Notation "r <| p := v |>" := (update_field p (λ _, v) r)
  (at level 12, left associativity, p at level 11, format "r  <| p  :=  v |>")
  : tokensim_scope.
Notation "r <| p ::= f |>" := (update_field p f r)
  (at level 12, left associativity, p at level 11, format "r  <| p  ::=  f |>")
  : tokensim_scope.

(** ** Lists *)

(** Python's [l[:n]]: a negative bound counts from the end. *)
Definition slice_to {A} (n : Z) (l : list A) : list A :=
  take (Z.to_nat (if (n <? 0)%Z then Z.of_nat (length l) + n else n)) l.

Lemma slice_to_take {A} (n : Z) (l : list A) :
  (0 ≤ n)%Z → slice_to n l = take (Z.to_nat n) l.
Proof. intros Hn. unfold slice_to. by rewrite (proj2 (Z.ltb_ge _ _) Hn). Qed.

Lemma filter_all {A} (P : A → Prop) `{∀ x, Decision (P x)} (l : list A) :
  Forall P l → filter P l = l.
Proof. induction 1; [done|]. rewrite filter_cons_True by done. by f_equal. Qed.

Lemma omap_ext_in {A B} (f g : A → option B) (l : list A) :
  (∀ x, x ∈ l → f x = g x) → omap f l = omap g l.
Proof.
  induction l as [|x l IH]; intros Hf; [done|]. csimpl.
  rewrite Hf by set_solver. by rewrite IH by set_solver.
Qed.

Lemma omap_filter {A B} (f f' : A → option B) (P : B → Prop)
    `{∀ x, Decision (P x)} (l : list A) :
  (∀ x, x ∈ l → f' x = (y ← f x; if decide (P y) then Some y else None)) →
  omap f' l = filter P (omap f l).
Proof.
  induction l as [|x l IH]; intros Hf; [done|]. csimpl.
  rewrite (Hf x) by set_solver. rewrite IH by set_solver.
  destruct (f x) as [y|]; csimpl; [|done].
  rewrite filter_cons. by case_decide.
Qed.

Lemma NoDup_omap {A B} (f : A → option B) (l : list A) :
  NoDup l →
  (∀ x y z, x ∈ l → y ∈ l → f x = Some z → f y = Some z → x = y) →
  NoDup (omap f l).
Proof.
  induction 1 as [|x l Hx Hl IH]; intros Hinj; [constructor|]. csimpl.
  destruct (f x) as [z|] eqn:Hz; [|apply IH; set_solver].
  constructor; [|apply IH; set_solver].
  rewrite list_elem_of_omap. intros (y & Hy & Hf).
  assert (x = y) by (eapply Hinj; set_solver). by subst.
Qed.

Lemma elem_of_sublist {A} (x : A) (l k : list A) : sublist l k → x ∈ l → x ∈ k.
Proof. intros Hs Hx. eapply elem_of_submseteq; [done|]. by apply sublist_submseteq. Qed.

(** Occurrences in a list of references *)
Section Occurrences.
Local Open Scope Z_scope.

Definition occ (b : nat) (l : list nat) : Z := Z.of_nat (length (filter (b =.) l)).

Lemma occ_nil b : occ b [] = 0.
Proof. done. Qed.

Lemma occ_cons b x l : occ b (x :: l) = (if decide (b = x) then 1 else 0) + occ b l.
Proof. unfold occ. rewrite filter_cons. case_decide; cbn; lia. Qed.

Lemma occ_app b l k : occ b (l ++ k) = occ b l + occ b k.
Proof. unfold occ. rewrite filter_app, length_app. lia. Qed.

#[global] Instance occ_proper b : Proper ((≡ₚ) ==> (=)) (occ b).
Proof. intros l k Hlk. unfold occ. by rewrite Hlk. Qed.

Lemma occ_nonneg b l : 0 <= occ b l.
Proof. unfold occ. lia. Qed.

Lemma occ_pos b l : 0 < occ b l ↔ b ∈ l.
Proof.
  induction l as [|x l IH]; [rewrite occ_nil, elem_of_nil; lia|].
  rewrite occ_cons, elem_of_cons. pose proof (occ_nonneg b l). case_decide.
  - split; [by left|lia].
  - rewrite <- IH. split; [right; lia|]. intros [?|?]; [done|lia].
Qed.

Lemma occ_zero b l : occ b l = 0 ↔ b ∉ l.
Proof. rewrite <- occ_pos. pose proof (occ_nonneg b l). lia. Qed.
End Occurrences.

(** [range(lo, hi)] *)
Definition zrange (lo hi : Z) : list Z := seqZ lo (hi - lo).

Lemma elem_of_zrange lo hi x : x ∈ zrange lo hi ↔ (lo ≤ x < hi)%Z.
Proof. unfold zrange. rewrite elem_of_seqZ. lia. Qed.

Lemma NoDup_zrange lo hi : NoDup (zrange lo hi).
Proof. apply NoDup_seqZ. Qed.

Lemma length_zrange lo hi : length (zrange lo hi) = Z.to_nat (hi - lo).
Proof. apply length_seqZ. Qed.

Lemma zrange_nil lo hi : (hi ≤ lo)%Z → zrange lo hi = [].
Proof. intros. unfold zrange. by rewrite seqZ_nil by lia. Qed.

Lemma zrange_cons lo hi : (lo < hi)%Z → zrange lo hi = lo :: zrange (lo + 1) hi.
Proof.
  intros. unfold zrange. rewrite seqZ_cons by lia. do 2 f_equal; lia.
Qed.

Lemma zrange_snoc lo n : (0 ≤ n)%Z → zrange lo (lo + n + 1) = zrange lo (lo + n) ++ [lo + n]%Z.
Proof.
  intros Hn. unfold zrange. replace (lo + n + 1 - lo)%Z with (n + 1)%Z by lia.
  replace (lo + n - lo)%Z with n by lia. rewrite seqZ_app by lia. f_equal.
Qed.

Lemma zrange_app lo mid hi : (lo ≤ mid ≤ hi)%Z → zrange lo hi = zrange lo mid ++ zrange mid hi.
Proof.
  intros. unfold zrange. replace (hi - lo)%Z with ((mid - lo) + (hi - mid))%Z by lia.
  rewrite seqZ_app by lia. do 2 f_equal; lia.
Qed.

(** Errors as values. *)
#[global] Instance outcome_ret : MRet outcome := @Ok.
#[global] Instance outcome_bind : MBind outcome := λ A B k m,
  match m with Ok a => k a | Raise e => Raise e end.

(** ** Finite maps *)

Lemma size_map_img `{Countable K, Countable A} (m : gmap K A) :
  (∀ i j x, m !! i = Some x → m !! j = Some x → i = j) →
  size (map_img (SA := gset A) m) = size m.
Proof.
  induction m as [|i x m Hi IH] using map_ind; intros Hinj.
  { rewrite map_img_empty, size_empty. by rewrite map_size_empty. }
  rewrite map_img_insert_notin, map_size_insert_None by done.
  rewrite size_union, size_singleton, IH; [done|..].
  - intros i' j' y Hi' Hj'. apply (Hinj i' j' y); rewrite lookup_insert_ne; congruence.
  - rewrite disjoint_singleton_l, elem_of_map_img. intros [j Hj].
    assert (i = j); [|congruence]. apply (Hinj i j x); [by rewrite lookup_insert_eq|].
    rewrite lookup_insert_ne; congruence.
Qed.

Lemma size_list_to_set_le `{Countable A} (l : list A) :
  size (list_to_set (C := gset A) l) ≤ length l.
Proof.
  induction l as [|x l IH]; [done|]. cbn. rewrite size_union_alt, size_singleton.
  assert (size (list_to_set (C := gset A) l ∖ {[x]}) ≤ size (list_to_set (C := gset A) l))
    by (apply subseteq_size; set_solver). lia.
Qed.

(** ** Tactics *)

(** One step of weakest-precondition calculation. *)
Ltac wp_step :=
  lazymatch goal with
  | |- wp (mret _) _ _ _ => apply wp_ret
  | |- wp (raise _) _ _ _ => apply wp_raise
  | |- wp (mbind _ _) _ _ _ => apply wp_bind
  | |- wp (catch _ _) _ _ _ => apply wp_catch
  | |- wp (gets _) _ _ _ => apply wp_gets
  | |- wp (modify _) _ _ _ => apply wp_modify
  | |- wp (when ?c _) _ _ _ => unfold when
  end.

Ltac wp_steps := repeat (wp_step; cbv beta).

(** The state read by [gets id]. *)
Ltac unid := repeat match goal with |- context [@id ?T ?x] => change (@id T x) with x end.
