(* ===== verification/PyFloat.v ===== *)
(** * Python floats

    A Python [float] is an IEEE 754 binary64 number.  The model computes with
    the Standard Library's executable specification of floating point
    ([SpecFloat], round to nearest, ties to even), so the accumulation order of
    the source's sums is kept. *)

From Stdlib Require Import ZArith SpecFloat Lia.

Definition pyfloat := spec_float.

Definition prec : Z := 53.
Definition emax : Z := 1024.

(** [0.0] *)
Definition f0 : pyfloat := S754_zero false.

(** [float(n)] *)
Definition fof (n : Z) : pyfloat := binary_normalize prec emax n 0 false.

Definition fadd : pyfloat -> pyfloat -> pyfloat := SFadd prec emax.
Definition fsub : pyfloat -> pyfloat -> pyfloat := SFsub prec emax.
Definition fmul : pyfloat -> pyfloat -> pyfloat := SFmul prec emax.
Definition fdiv : pyfloat -> pyfloat -> pyfloat := SFdiv prec emax.
Definition fltb : pyfloat -> pyfloat -> bool := SFltb.
Definition fleb : pyfloat -> pyfloat -> bool := SFleb.

(** [int(x)]: truncation towards zero; [None] for infinities and NaN, on which
    Python raises. *)
Definition ftrunc (x : pyfloat) : option Z :=
  match x with
  | S754_zero _ => Some 0%Z
  | S754_finite s m e =>
      let v := if (0 <=? e)%Z then (Zpos m * 2 ^ e)%Z else (Zpos m / 2 ^ (- e))%Z in
      Some (if s then (- v)%Z else v)
  | _ => None
  end.

(** [math.floor(x)] *)
Definition ffloor (x : pyfloat) : option Z :=
  match x with
  | S754_zero _ => Some 0%Z
  | S754_finite s m e =>
      let v := if s then Zneg m else Zpos m in
      Some (if (0 <=? e)%Z then (v * 2 ^ e)%Z else (v / 2 ^ (- e))%Z)
  | _ => None
  end.

(** [x % 1] of a finite non-negative [x]: the fraction, which is exact. *)
Definition ffrac (x : pyfloat) : pyfloat :=
  match ffloor x with Some n => fsub x (fof n) | None => S754_nan end.

(** [math.isfinite(x)] *)
Definition fisfinite (x : pyfloat) : bool :=
  match x with S754_zero _ | S754_finite _ _ _ => true | _ => false end.

(** A finite number in units of [2 ^ -1074], the least binary64 number. *)
Definition funits (x : pyfloat) : Z :=
  match x with
  | S754_finite s m e => ((if s then Zneg m else Zpos m) * 2 ^ (e + 1074))%Z
  | _ => 0%Z
  end.

(** [math.fsum] of finite numbers: the exact sum, rounded once. *)
Definition math_fsum (l : list pyfloat) : pyfloat :=
  binary_normalize prec emax (List.fold_left (fun n x => n + funits x)%Z l 0%Z) (-1074) false.

(** [math.isclose(x, y, rel_tol=0, abs_tol=tol)] of finite numbers *)
Definition fisclose (x y tol : pyfloat) : bool :=
  SFeqb x y || fleb (SFabs (fsub x y)) tol.

(** [1e-12] *)
Definition f_1e_12 : pyfloat := fdiv (fof 1) (fof (10 ^ 12)).

(** [0.01], the default watermark fraction: the nearest binary64 number. *)
Definition f_0_01 : pyfloat := fdiv (fof 1) (fof 100).

(** The watermark of a 1000-block pool is 10 blocks. *)
Example watermark_1000 : ftrunc (fmul f_0_01 (fof 1000)) = Some 10%Z.
Proof. reflexivity. Qed.

(** Ten times [0.1] sums to one under [fsum], and not under [+]. *)
Example fsum_tenths :
  math_fsum (List.repeat (fdiv (fof 1) (fof 10)) 10) = fof 1 /\
  List.fold_left fadd (List.repeat (fdiv (fof 1) (fof 10)) 10) f0 <> fof 1.
Proof. vm_compute. split; [reflexivity|discriminate]. Qed.

(** ** Order

    Comparison is lexicographic on class, exponent and mantissa, so [<=] is a
    total preorder on the numbers that are not NaN. *)

Definition fkey (x : pyfloat) : Z * Z * Z :=
  match x with
  | S754_infinity true => (-2, 0, 0)
  | S754_finite true m e => (-1, - e, Zneg m)
  | S754_zero _ | S754_nan => (0, 0, 0)
  | S754_finite false m e => (1, e, Zpos m)
  | S754_infinity false => (2, 0, 0)
  end%Z.

Definition lex_le (p q : Z * Z * Z) : Prop :=
  let '(a, b, c) := p in
  let '(a', b', c') := q in
  (a < a' \/ (a = a' /\ (b < b' \/ (b = b' /\ c <= c'))))%Z.

Ltac close_compare :=
  try solve [split; [intros ?|intros (? & ? & ?)];
    first [discriminate | congruence | reflexivity | split; [congruence|split; [congruence|lia]] | lia]].

Lemma fleb_spec x y :
  fleb x y = true <-> x <> S754_nan /\ y <> S754_nan /\ lex_le (fkey x) (fkey y).
Proof.
  unfold fleb, SFleb, SFcompare, lex_le.
  destruct x as [sx|[]| |[] mx ex], y as [sy|[]| |[] my ey]; cbn; close_compare.
  all: destruct (Z.compare_spec ex ey); cbn; close_compare.
  all: change (Pos.compare_cont Eq mx my) with (Pos.compare mx my);
    destruct (Pos.compare_spec mx my); cbn; close_compare.
Qed.

Lemma fltb_spec x y : fltb x y = true <-> x <> S754_nan /\ y <> S754_nan /\ fleb y x = false.
Proof.
  unfold fltb, fleb, SFltb, SFleb, SFcompare.
  destruct x as [sx|[]| |[] mx ex], y as [sy|[]| |[] my ey]; cbn; close_compare.
  all: rewrite (Z.compare_antisym ex ey); destruct (ex ?= ey)%Z; cbn; close_compare.
  all: change (Pos.compare_cont Eq) with Pos.compare;
    rewrite (Pos.compare_antisym mx my); destruct (mx ?= my)%positive; cbn; close_compare.
Qed.

Lemma fleb_refl x : x <> S754_nan -> fleb x x = true.
Proof.
  intros Hx. apply fleb_spec. split; [exact Hx|]. split; [exact Hx|].
  unfold lex_le. destruct (fkey x) as [[a b] c]. lia.
Qed.

Lemma fleb_trans x y z : fleb x y = true -> fleb y z = true -> fleb x z = true.
Proof.
  rewrite !fleb_spec. intros (Hx & _ & H) (_ & Hz & H'). split; [exact Hx|]. split; [exact Hz|].
  unfold lex_le in *. destruct (fkey x) as [[? ?] ?], (fkey y) as [[? ?] ?], (fkey z) as [[? ?] ?]. lia.
Qed.

Lemma fltb_fleb x y : fltb x y = true -> fleb x y = true.
Proof.
  rewrite fltb_spec. intros (Hx & Hy & H). apply fleb_spec. split; [exact Hx|]. split; [exact Hy|].
  destruct (fleb y x) eqn:E; [discriminate|]. unfold lex_le.
  assert (~ lex_le (fkey y) (fkey x)) as Hn by (intros Hl; assert (fleb y x = true) by (apply fleb_spec; auto); congruence).
  unfold lex_le in Hn. destruct (fkey x) as [[? ?] ?], (fkey y) as [[? ?] ?]. lia.
Qed.

Lemma fltb_false_fleb x y : x <> S754_nan -> y <> S754_nan -> fltb x y = false -> fleb y x = true.
Proof.
  intros Hx Hy H. destruct (fleb y x) eqn:E; [reflexivity|].
  assert (fltb x y = true) by (apply fltb_spec; auto). congruence.
Qed.

Lemma fleb_fltb_trans x y z : fleb x y = true -> fltb y z = true -> fltb x z = true.
Proof.
  intros Hxy Hyz. apply fltb_spec in Hyz as (Hy & Hz & Hzy). pose proof Hxy as Hx. apply fleb_spec in Hx as (Hx & _).
  apply fltb_spec. split; [exact Hx|]. split; [exact Hz|]. destruct (fleb z x) eqn:E; [|reflexivity].
  rewrite (fleb_trans z x y E Hxy) in Hzy. discriminate.
Qed.

(** Python's [max(x, y)]: the first argument unless the second is greater. *)
Definition fmax (x y : pyfloat) : pyfloat := if fltb x y then y else x.

Lemma fmax_not_nan x y : x <> S754_nan -> fmax x y <> S754_nan.
Proof. unfold fmax. destruct (fltb x y) eqn:E; [|tauto]. now apply fltb_spec in E. Qed.

Lemma fmax_left x y : x <> S754_nan -> fleb x (fmax x y) = true.
Proof. intros Hx. unfold fmax. destruct (fltb x y) eqn:E; [now apply fltb_fleb|now apply fleb_refl]. Qed.

Lemma fmax_right x y : x <> S754_nan -> y <> S754_nan -> fleb y (fmax x y) = true.
Proof.
  intros Hx Hy. unfold fmax. destruct (fltb x y) eqn:E; [now apply fleb_refl|now apply fltb_false_fleb].
Qed.

(** A bound on a maximum bounds both arguments. *)
Lemma fmax_le_left x y z : fleb (fmax x y) z = true -> fleb x z = true.
Proof.
  unfold fmax. destruct (fltb x y) eqn:E; [|tauto]. intros H. apply fltb_fleb in E. exact (fleb_trans _ _ _ E H).
Qed.

Lemma fmax_le_right x y z : y <> S754_nan -> fleb (fmax x y) z = true -> fleb y z = true.
Proof.
  intros Hy. unfold fmax. destruct (fltb x y) eqn:E; [tauto|]. intros H. pose proof H as Hx.
  apply fleb_spec in Hx as (Hx & _). exact (fleb_trans _ _ _ (fltb_false_fleb x y Hx Hy E) H).
Qed.

(** Adding [0.0] changes only the negative zero. *)
Lemma fadd_f0_r x : x <> S754_zero true -> fadd x f0 = x.
Proof. intros Hx. destruct x as [[]| | |]; [congruence|reflexivity..]. Qed.
