(* ===== verification/Buckets.v ===== *)
(** * Grouping by a key

    [defaultdict(list)] filled with [buckets[key(x)].append(x)], which the layout of
    grouped caches (block/hybrid/kv_layout.py) and the merging of transfers
    (af/planning/coalesce.py) use: the buckets in the order of their first element, and
    that they hold every element once; [dict.fromkeys], the elements of a list without
    repetitions; sums of lists. *)

From stdpp Require Import gmap list list_numbers.
From Stdlib Require Import ZArith Lia.
From S2P Require Import Prelude.

Open Scope Z_scope.

(** Sums of integers. *)
Definition zsum (l : list Z) : Z := foldr Z.add 0 l.

Lemma zsum_app l k : zsum (l ++ k) = zsum l + zsum k.
Proof. unfold zsum. induction l; cbn in *; lia. Qed.

Lemma zsum_perm l l' : l ≡ₚ l' → zsum l = zsum l'.
Proof. unfold zsum. induction 1; cbn in *; lia. Qed.

Lemma zsum_partition {A} (f : A → Z) (P Q : A → Prop) `{∀ x, Decision (P x)} `{∀ x, Decision (Q x)} l :
  (∀ x, P x ↔ ¬ Q x) → zsum (f <$> l) = zsum (f <$> filter P l) + zsum (f <$> filter Q l).
Proof.
  intros HPQ. induction l as [|x l IH]; [done|]. rewrite !filter_cons. specialize (HPQ x).
  unfold zsum in *. destruct (decide (P x)), (decide (Q x)); try tauto; csimpl; lia.
Qed.

(** ** Grouping *)

Section GroupBy.
Context {K A : Type} `{EqDecision K}.
Variable key : A → K.

(** [buckets[key(x)].append(x)] on a [defaultdict(list)], keys in insertion order *)
Fixpoint bucket_add (x : A) (buckets : list (K * list A)) : list (K * list A) :=
  match buckets with
  | [] => [(key x, [x])]
  | (k, l) :: buckets =>
      if bool_decide (k = key x) then (k, l ++ [x]) :: buckets
      else (k, l) :: bucket_add x buckets
  end.

Definition group_by (l : list A) : list (K * list A) := foldl (λ b x, bucket_add x b) [] l.
End GroupBy.

(** ** Grouping keeps every element *)

Section GroupByFacts.
Context {K A : Type} `{EqDecision K}.
Variable key : A → K.
Implicit Types (x : A) (k : K) (l b : list A) (bs : list (K * list A)).

Lemma bucket_add_perm x bs : concat (bucket_add key x bs).*2 ≡ₚ x :: concat bs.*2.
Proof.
  induction bs as [|[k b] bs IH]; [done|]. cbn [bucket_add].
  case_bool_decide; csimpl.
  - rewrite <- app_assoc. cbn. by rewrite Permutation_middle.
  - rewrite IH. by rewrite Permutation_middle.
Qed.

Lemma group_by_perm l : concat (group_by key l).*2 ≡ₚ l.
Proof.
  unfold group_by. transitivity (concat (@nil (K * list A)).*2 ++ l); [|done].
  generalize (@nil (K * list A)) as bs.
  induction l as [|x l IH]; intros bs; cbn [foldl]; [by rewrite app_nil_r|].
  rewrite IH, bucket_add_perm. cbn. by rewrite Permutation_middle.
Qed.

(** What a table of buckets says of the list it was filled from. *)
Record buckets_of l bs : Prop := {
  bo_nodup : NoDup bs.*1;
  bo_bucket k b : (k, b) ∈ bs → b = filter (λ x, key x = k) l;
  bo_nonempty k b : (k, b) ∈ bs → b ≠ [];
  bo_key x : x ∈ l → key x ∈ bs.*1;
}.

Lemma bucket_add_keys x bs :
  (bucket_add key x bs).*1 = if decide (key x ∈ bs.*1) then bs.*1 else bs.*1 ++ [key x].
Proof.
  induction bs as [|[k b] bs IH]; [done|]. cbn [bucket_add].
  case_bool_decide as Hk; csimpl.
  - rewrite decide_True; [done|]. set_solver.
  - rewrite IH. destruct (decide (key x ∈ bs.*1)).
    + by rewrite decide_True by set_solver.
    + by rewrite decide_False by set_solver.
Qed.

Lemma elem_of_bucket_add x bs k b :
  NoDup bs.*1 → (k, b) ∈ bucket_add key x bs →
  (k ≠ key x ∧ (k, b) ∈ bs) ∨
  (k = key x ∧ ((∃ b', (k, b') ∈ bs ∧ b = b' ++ [x]) ∨ ((k ∉ bs.*1) ∧ b = [x]))).
Proof.
  induction bs as [|[k' b'] bs IH]; cbn [bucket_add].
  { intros _ [= -> ->]%list_elem_of_singleton. right. split; [done|]. right. set_solver. }
  rewrite fmap_cons. intros [Hk Hnd]%NoDup_cons. case_bool_decide as Heq.
  - rewrite elem_of_cons. intros [[= -> ->]|Hin].
    + right. split; [done|]. left. exists b'. set_solver.
    + left. split; [|set_solver]. intros ->. apply Hk. cbn. rewrite Heq.
      apply list_elem_of_fmap. by exists (key x, b).
  - rewrite elem_of_cons. intros [[= -> ->]|Hin]; [left; set_solver|].
    destruct (IH Hnd Hin) as [[? ?]|[-> [(b'' & ? & ->)|[? ->]]]].
    + left. set_solver.
    + right. split; [done|]. left. exists b''. set_solver.
    + right. split; [done|]. right. split; [|done]. set_solver.
Qed.

Lemma group_by_spec l : buckets_of l (group_by key l).
Proof.
  assert (∀ todo l0 bs, buckets_of l0 bs →
    buckets_of (l0 ++ todo) (foldl (λ acc x, bucket_add key x acc) bs todo)) as Hgen.
  { induction todo as [|x todo IH]; intros l0 bs Hbs; cbn [foldl]; [by rewrite app_nil_r|].
    rewrite cons_middle, app_assoc. apply IH. destruct Hbs as [Hnd Hb Hne Hkey]. split.
    - rewrite bucket_add_keys. case_decide; [done|]. apply NoDup_app. split; [done|].
      split; [set_solver|apply NoDup_singleton].
    - intros k b Hin. rewrite filter_app.
      destruct (elem_of_bucket_add _ _ _ _ Hnd Hin) as [[? ?]|[-> [(b'' & ? & ->)|[? ->]]]].
      + rewrite filter_cons_False by congruence. rewrite filter_nil, app_nil_r. by apply Hb.
      + rewrite filter_cons_True by done. rewrite filter_nil. f_equal. by apply Hb.
      + rewrite filter_cons_True by done. rewrite filter_nil.
        destruct (filter _ l0) as [|y ys] eqn:Hf; [done|]. exfalso.
        assert (y ∈ filter (λ z, key z = key x) l0) as [Hy Hyl]%list_elem_of_filter by (rewrite Hf; left).
        apply Hkey in Hyl. by rewrite Hy in Hyl.
    - intros k b Hin.
      destruct (elem_of_bucket_add _ _ _ _ Hnd Hin) as [[? ?]|[-> [(b'' & ? & ->)|[? ->]]]];
        [by eapply Hne| |done]. by destruct b''.
    - intros y [Hy|Hy%list_elem_of_singleton]%elem_of_app; rewrite bucket_add_keys.
      + apply Hkey in Hy. case_decide; [done|]. apply elem_of_app. by left.
      + subst y. case_decide; [done|]. apply elem_of_app. right. by apply list_elem_of_singleton. }
  apply (Hgen l [] []). split; [constructor|..]; intros *; rewrite elem_of_nil; done.
Qed.
End GroupByFacts.

Lemma concat_perm {A} (ls ks : list (list A)) : ls ≡ₚ ks → concat ls ≡ₚ concat ks.
Proof.
  induction 1; csimpl; [done|by f_equiv| |by etransitivity].
  rewrite !app_assoc. by rewrite (Permutation_app_comm y).
Qed.

Lemma elem_of_concat {A} (x : A) (ls : list (list A)) l : x ∈ l → l ∈ ls → x ∈ concat ls.
Proof.
  intros Hx. induction 1 as [l ls|l k ls _ IH]; csimpl; apply elem_of_app; [by left|right; by apply IH].
Qed.

(** ** Lists without repetitions *)

Section FromKeys.
Context {A : Type} `{EqDecision A}.

(** [list(dict.fromkeys(l))] *)
Definition from_keys (l : list A) : list A :=
  foldl (λ acc k, if bool_decide (k ∈ acc) then acc else acc ++ [k]) [] l.

Lemma from_keys_app (acc l : list A) :
  NoDup (acc ++ l) → foldl (λ acc k, if bool_decide (k ∈ acc) then acc else acc ++ [k]) acc l = acc ++ l.
Proof.
  revert acc. induction l as [|k l IH]; intros acc Hnd; cbn [foldl]; [by rewrite app_nil_r|].
  assert (k ∉ acc) as Hk by (apply NoDup_app in Hnd as (_ & Hd & _); intros Hin; apply (Hd k Hin); set_solver).
  rewrite bool_decide_eq_false_2 by done. rewrite IH; rewrite <- app_assoc; done.
Qed.

Lemma from_keys_nodup l : NoDup l → from_keys l = l.
Proof. intros Hnd. unfold from_keys. by rewrite from_keys_app. Qed.

Lemma from_keys_spec (l acc : list A) :
  NoDup acc →
  let out := foldl (λ acc k, if bool_decide (k ∈ acc) then acc else acc ++ [k]) acc l in
  NoDup out ∧ ∀ k, k ∈ out ↔ k ∈ acc ∨ k ∈ l.
Proof.
  revert acc. induction l as [|k l IH]; intros acc Hnd; cbn [foldl]; [set_solver|].
  destruct (IH (if bool_decide (k ∈ acc) then acc else acc ++ [k])) as [Hout Hin].
  { case_bool_decide; [done|]. apply NoDup_app. split; [done|]. split; [|apply NoDup_singleton].
    by intros x Hx ->%list_elem_of_singleton. }
  split; [done|]. intros x. rewrite Hin. case_bool_decide; set_solver.
Qed.

Lemma NoDup_from_keys l : NoDup (from_keys l).
Proof. apply (from_keys_spec l []). constructor. Qed.

Lemma elem_of_from_keys l k : k ∈ from_keys l ↔ k ∈ l.
Proof. unfold from_keys. rewrite (proj2 (from_keys_spec l [] (NoDup_nil_2)) k). set_solver. Qed.
End FromKeys.

(** The items of [dict(l)]: a key keeps its first place and takes its last value. *)
Definition dict_items {K V} `{Countable K} (l : list (K * V)) : list (K * V) :=
  omap (λ k, pair k <$> (list_to_map (reverse l) : gmap K V) !! k) (from_keys l.*1).

Lemma dict_items_nodup {K V} `{Countable K} (l : list (K * V)) : NoDup l.*1 → dict_items l = l.
Proof.
  intros Hnd. unfold dict_items. rewrite from_keys_nodup by done.
  assert (∀ x, x ∈ l → (list_to_map (reverse l) : gmap K V) !! x.1 = Some x.2) as Hl.
  { intros [k v] Hx. apply elem_of_list_to_map_1; [|by rewrite elem_of_reverse].
    by rewrite fmap_reverse, reverse_Permutation. }
  revert Hl. generalize (list_to_map (reverse l) : gmap K V) as m. intros m Hl. clear Hnd.
  induction l as [|[k v] l IH]; [done|]. csimpl.
  pose proof (Hl (k, v) (list_elem_of_here _ _)) as Hkv. cbn in Hkv. rewrite Hkv. cbn. f_equal.
  apply IH. intros x Hx. apply Hl. by right.
Qed.

(** ** Sums under keys *)

(** [m[k] = m.get(k, 0) + v] *)
Definition add_to {K} `{Countable K} (m : gmap K Z) (x : K * Z) : gmap K Z :=
  <[x.1 := default 0 (m !! x.1) + x.2]> m.

Section Totals.
Context {K : Type} `{Countable K}.
Implicit Types (m : gmap K Z) (l : list (K * Z)) (k : K).

Definition total m k : Z := default 0 (m !! k).

Definition sum_at k l : Z := zsum ((λ x, if decide (x.1 = k) then x.2 else 0) <$> l).

Lemma total_add_all l m k : total (foldl add_to m l) k = total m k + sum_at k l.
Proof.
  revert m. induction l as [|x l IH]; intros m; cbn [foldl].
  { unfold sum_at. cbn. lia. }
  rewrite IH. unfold sum_at, zsum. csimpl. unfold total, add_to.
  destruct (decide (x.1 = k)) as [<-|Hne].
  - rewrite lookup_insert_eq. cbn. lia.
  - rewrite lookup_insert_ne by done. lia.
Qed.

Lemma dom_add_all l m k : is_Some (foldl add_to m l !! k) ↔ is_Some (m !! k) ∨ k ∈ l.*1.
Proof.
  revert m. induction l as [|x l IH]; intros m; cbn [foldl]; [set_solver|].
  rewrite IH. unfold add_to. rewrite fmap_cons, elem_of_cons, lookup_insert_is_Some.
  destruct (decide (x.1 = k)); naive_solver.
Qed.

Lemma sum_at_map_to_list m k : sum_at k (map_to_list m) = total m k.
Proof.
  unfold sum_at, total. induction m as [|i v m Hi IH] using map_ind; [by rewrite map_to_list_empty, lookup_empty|].
  rewrite (zsum_perm _ ((λ x : K * Z, if decide (x.1 = k) then x.2 else 0) <$> (i, v) :: map_to_list m))
    by by rewrite map_to_list_insert. csimpl.
  change (zsum (?x :: ?l)) with (x + zsum l). rewrite IH.
  destruct (decide (i = k)) as [->|Hne].
  - rewrite lookup_insert_eq, Hi. cbn. lia.
  - rewrite lookup_insert_ne by done. lia.
Qed.

(** Item by item larger lists have larger sums. *)
Lemma sum_at_mono k l l' :
  Forall2 (λ x y, x.1 = y.1 ∧ 0 <= x.2 <= y.2) l l' → 0 <= sum_at k l <= sum_at k l'.
Proof.
  unfold sum_at, zsum. induction 1 as [|x y l l' [Hk Hv] _ IH]; [done|]. csimpl. rewrite Hk.
  destruct (decide (y.1 = k)); lia.
Qed.

Lemma sum_at_opp k l : sum_at k ((λ x, (x.1, - x.2)) <$> l) = - sum_at k l.
Proof.
  unfold sum_at, zsum. induction l as [|x l IH]; [done|]. csimpl. destruct (decide (x.1 = k)); lia.
Qed.

Lemma sum_at_absent k l : k ∉ l.*1 → sum_at k l = 0.
Proof.
  unfold sum_at, zsum. induction l as [|x l IH]; [done|]. csimpl. intros [Hne Hl]%not_elem_of_cons.
  rewrite decide_False by congruence. rewrite IH by done. done.
Qed.

Lemma sum_at_unique k v l : NoDup l.*1 → (k, v) ∈ l → sum_at k l = v.
Proof.
  induction l as [|x l IH]; [by intros _ ?%not_elem_of_nil|]. csimpl. intros [Hx Hnd]%NoDup_cons Hin.
  unfold sum_at in *. csimpl. change (zsum (?a :: ?b)) with (a + zsum b). apply elem_of_cons in Hin as [<-|Hin].
  - cbn in *. rewrite decide_True by done. pose proof (sum_at_absent k l Hx) as H0. unfold sum_at in H0. lia.
  - rewrite decide_False; [rewrite IH by done; lia|]. intros Heq. apply Hx. rewrite Heq. apply list_elem_of_fmap. by exists (k, v).
Qed.
End Totals.

(** ** Fibers *)

(** A list is the elements of [reps], each replaced by those it represents. *)
Lemma concat_fibers {A} `{EqDecision A} (rep : A → A) (reps l : list A) :
  NoDup reps → (∀ x, x ∈ l → rep x ∈ reps) → (reps ≫= λ n, filter (λ x, rep x = n) l) ≡ₚ l.
Proof.
  intros Hnd. induction l as [|x l IH]; intros Hin.
  { clear Hnd Hin. by induction reps as [|n reps IHr]. }
  assert (∃ l1 l2, reps = l1 ++ rep x :: l2) as (l1 & l2 & ->) by (apply list_elem_of_split, Hin; left).
  etransitivity; [|apply perm_skip, IH; set_solver].
  apply NoDup_app in Hnd as (_ & Hd & [Hx Hnd]%NoDup_cons).
  assert (∀ k, rep x ∉ k → (k ≫= λ n, filter (λ y, rep y = n) (x :: l)) = k ≫= λ n, filter (λ y, rep y = n) l) as Hk.
  { intros k. induction k as [|n k IHk]; [done|]. intros [Hn Hnk]%not_elem_of_cons.
    rewrite !bind_cons, filter_cons_False by done. by rewrite IHk. }
  rewrite !bind_app, !bind_cons, filter_cons_True by done. rewrite !Hk.
  - rewrite <- app_comm_cons. by rewrite <- Permutation_middle.
  - done.
  - intros Hl1. apply (Hd _ Hl1). left.
Qed.
