(* ===== verification/Block.v ===== *)
(** * Token blocks ([TokenSim/block/block.py])

    A [PhysicalTokenBlock] is a mutable Python object that the free queue, the
    block tables, the reserved list and the prefix cache share by reference.
    The model keeps the objects in a store [gmap bref PhysicalTokenBlock]; a
    [bref] is an object identity, so Python's [is] is equality of [bref]s. *)

From stdpp Require Import gmap list.
From Stdlib Require Import ZArith Lia.
From S2P Require Import Prelude.

Inductive Device := GPU | CPU.

#[global] Instance Device_eq_dec : EqDecision Device.
Proof. solve_decision. Defined.

(** Identity of a block object. *)
Abbreviation bref := nat.

Section Block.
(** The hashes stored in blocks: prefix-cache keys. *)
Context {K : Type}.

Record PhysicalTokenBlock := mkBlock {
  device : Device;
  block_number : Z;
  blk_block_size : Z;
  ref_count : Z;
  block_hash : option K;
  is_full : bool;
  cached : bool;
  last_accessed : Z;
}.

#[global] Instance eta_block : Eta PhysicalTokenBlock := λ b,
  mkBlock (device b) (block_number b) (blk_block_size b) (ref_count b)
    (block_hash b) (is_full b) (cached b) (last_accessed b).

(** [PhysicalTokenBlock.__init__] *)
Definition new_block (d : Device) (block_id block_size : Z) : PhysicalTokenBlock :=
  mkBlock d block_id block_size 0 None false false 0.

Definition clear_cache_metadata (b : PhysicalTokenBlock) : PhysicalTokenBlock :=
  b <| block_hash := None |> <| is_full := false |> <| cached := false |>
    <| last_accessed := 0%Z |>.
End Block.
Arguments PhysicalTokenBlock : clear implicits.
