(* ===== verification/FreeQueue.v ===== *)
(** * The free-block queue ([TokenSim/block/free_queue.py])

    [FreeBlockQueue] removes blocks lazily: every queued block has an [_Entry]
    object shared by the FIFO deque (or the LRU heap) and the [_entries] index,
    and removing a block only clears the entry's [valid] flag; [popleft] skips
    dead entries.  The model keeps the entry objects in a store.  The abstract
    specification [aqueue] has no dead entries: a FIFO list of uncached blocks
    followed by the cached blocks in order of (stamp, insertion).  The theorems
    are a forward simulation: each operation on a well-formed queue preserves
    well-formedness and commutes with [abs]. *)

From stdpp Require Import gmap list sorting.
From Stdlib Require Import ZArith Lia.
From S2P Require Import Prelude.
From S2P Require Import Block.

(** ** The implementation *)

(** [_Entry]: [e_number] is [entry.block.block_number], which no code assigns
    after the block is built. *)
Record Entry := mkEntry { e_block : bref; e_number : Z; e_valid : bool }.

#[global] Instance eta_entry : Eta Entry := λ e,
  mkEntry (e_block e) (e_number e) (e_valid e).

(** Elements of [_heap]: [(last_accessed, seq, entry)]. *)
Definition heap_item : Type := Z * Z * nat.

Record FreeBlockQueue := mkQueue {
  q_store : gmap nat Entry;     (* the entry objects *)
  q_next : nat;                 (* next fresh entry identity *)
  q_fifo : list nat;            (* [_fifo] *)
  q_heap : list heap_item;      (* [_heap], smallest item first *)
  q_entries : gmap Z nat;       (* [_entries] *)
  q_seq : Z;                    (* [_seq] *)
}.

#[global] Instance eta_queue : Eta FreeBlockQueue := λ q,
  mkQueue (q_store q) (q_next q) (q_fifo q) (q_heap q) (q_entries q) (q_seq q).

(** [FreeBlockQueue()] *)
Definition empty_queue : FreeBlockQueue := mkQueue ∅ 0 [] [] ∅ 0.

(** [len(queue)] *)
Definition queue_len (q : FreeBlockQueue) : Z := Z.of_nat (size (q_entries q)).

(** [block in queue] *)
Definition queue_contains (num : Z) (q : FreeBlockQueue) : bool :=
  bool_decide (is_Some (q_entries q !! num)).

(** Tuples compare by [(last_accessed, seq)]; [seq] is never repeated, so the
    comparison never reaches the entry. *)
Definition item_le (x y : heap_item) : bool :=
  let '(t1, s1, _) := x in
  let '(t2, s2, _) := y in
  (t1 <? t2)%Z || ((t1 =? t2)%Z && (s1 <=? s2)%Z).

Arguments item_le : simpl never.

(** [heapq.heappush]: the heap is the list of its items in increasing order,
    which is what [heapq.heappop] makes observable. *)
Fixpoint heappush (x : heap_item) (h : list heap_item) : list heap_item :=
  match h with
  | [] => [x]
  | y :: h => if item_le x y then x :: y :: h else y :: heappush x h
  end.

(** [_invalidate] *)
Definition invalidate (num : Z) (q : FreeBlockQueue) : FreeBlockQueue :=
  match q_entries q !! num with
  | None => q
  | Some e =>
      q <| q_entries ::= delete num |>
        <| q_store ::= alter (λ ent, ent <| e_valid := false |>) e |>
  end.

(** [entry = _Entry(block); self._entries[block.block_number] = entry] *)
Definition new_entry (b : bref) (num : Z) (q : FreeBlockQueue) : FreeBlockQueue :=
  q <| q_store ::= <[q_next q := mkEntry b num true]> |>
    <| q_entries ::= <[num := q_next q]> |>
    <| q_next ::= S |>.

(** [append] *)
Definition append (b : bref) (num : Z) (q : FreeBlockQueue) : FreeBlockQueue :=
  let q := invalidate num q in
  new_entry b num q <| q_fifo ::= λ f, f ++ [q_next q] |>.

(** [append_unique] *)
Definition append_unique (b : bref) (num : Z) (q : FreeBlockQueue) : FreeBlockQueue :=
  if queue_contains num q then q else append b num q.

(** [append_lru]: [stamp] is [block.last_accessed]. *)
Definition append_lru (b : bref) (num stamp : Z) (q : FreeBlockQueue) : FreeBlockQueue :=
  let q := invalidate num q in
  let q' := new_entry b num q <| q_seq ::= Z.succ |> in
  q' <| q_heap ::= heappush (stamp, q_seq q', q_next q) |>.

(** [remove] *)
Definition remove (num : Z) (q : FreeBlockQueue) : FreeBlockQueue := invalidate num q.

(** [_finalize_pop] *)
Definition finalize_pop (e : nat) (ent : Entry) (q : FreeBlockQueue) : bref * FreeBlockQueue :=
  (e_block ent,
   q <| q_store ::= alter (λ ent, ent <| e_valid := false |>) e |>
     <| q_entries ::= delete (e_number ent) |>).

(** [while self._fifo: ...] of [popleft] *)
Fixpoint pop_fifo (fifo : list nat) (q : FreeBlockQueue) : option bref * FreeBlockQueue :=
  match fifo with
  | [] => (None, q <| q_fifo := [] |>)
  | e :: fifo =>
      match q_store q !! e with
      | Some ent =>
          if e_valid ent then
            let '(b, q) := finalize_pop e ent (q <| q_fifo := fifo |>) in (Some b, q)
          else pop_fifo fifo q
      | None => pop_fifo fifo q
      end
  end.

(** [while self._heap: ...] of [popleft] *)
Fixpoint pop_heap (heap : list heap_item) (q : FreeBlockQueue) : option bref * FreeBlockQueue :=
  match heap with
  | [] => (None, q <| q_heap := [] |>)
  | (_, _, e) :: heap =>
      match q_store q !! e with
      | Some ent =>
          if e_valid ent then
            let '(b, q) := finalize_pop e ent (q <| q_heap := heap |>) in (Some b, q)
          else pop_heap heap q
      | None => pop_heap heap q
      end
  end.

(** [popleft] *)
Definition popleft : M FreeBlockQueue bref := λ q,
  match pop_fifo (q_fifo q) q with
  | (Some b, q) => (Ok b, q)
  | (None, q) =>
      match pop_heap (q_heap q) q with
      | (Some b, q) => (Ok b, q)
      | (None, q) => (Raise IndexError, q)
      end
  end.

(** ** The specification: a queue without dead entries *)

Record aqueue := mkA {
  aq_fifo : list (Z * bref);             (* uncached blocks, oldest first *)
  aq_lru : list (Z * Z * (Z * bref));    (* cached blocks by (stamp, seq) *)
}.

Definition a_size (a : aqueue) : nat := length (aq_fifo a) + length (aq_lru a).

Definition a_numbers (a : aqueue) : list Z := (aq_fifo a).*1 ++ (aq_lru a).*2.*1.

Definition a_remove (num : Z) (a : aqueue) : aqueue :=
  mkA (filter (λ x, x.1 ≠ num) (aq_fifo a)) (filter (λ x, x.2.1 ≠ num) (aq_lru a)).

Definition a_append (b : bref) (num : Z) (a : aqueue) : aqueue :=
  let a := a_remove num a in mkA (aq_fifo a ++ [(num, b)]) (aq_lru a).

Fixpoint a_insert (x : Z * Z * (Z * bref)) (l : list (Z * Z * (Z * bref))) :=
  match l with
  | [] => [x]
  | y :: l => if item_le (x.1, 0%nat) (y.1, 0%nat) then x :: y :: l else y :: a_insert x l
  end.

Definition a_append_lru (b : bref) (num stamp seq : Z) (a : aqueue) : aqueue :=
  let a := a_remove num a in mkA (aq_fifo a) (a_insert (stamp, seq, (num, b)) (aq_lru a)).

Definition a_pop (a : aqueue) : option (bref * aqueue) :=
  match aq_fifo a, aq_lru a with
  | x :: fifo, lru => Some (x.2, mkA fifo lru)
  | [], x :: lru => Some (x.2.2, mkA [] lru)
  | [], [] => None
  end.

(** The abstraction function drops dead entries. *)
Definition live (st : gmap nat Entry) (e : nat) : option (Z * bref) :=
  ent ← st !! e; if e_valid ent then Some (e_number ent, e_block ent) else None.

Arguments live : simpl never.

Definition live_item (st : gmap nat Entry) (it : heap_item) : option (Z * Z * (Z * bref)) :=
  x ← live st it.2; Some (it.1, x).

Lemma live_item_eq st t e : live_item st (t, e) = pair t <$> live st e.
Proof. done. Qed.

Definition abs (q : FreeBlockQueue) : aqueue :=
  mkA (omap (live (q_store q)) (q_fifo q)) (omap (live_item (q_store q)) (q_heap q)).

(** ** Well-formed queues *)

Definition ids (q : FreeBlockQueue) : list nat := q_fifo q ++ (q_heap q).*2.

Record wf (q : FreeBlockQueue) : Prop := {
  wf_fresh e : is_Some (q_store q !! e) → e < q_next q;
  wf_known e : e ∈ ids q → is_Some (q_store q !! e);
  wf_nodup : NoDup (ids q);
  wf_index num e :
    q_entries q !! num = Some e ↔ e ∈ ids q ∧ ∃ b, live (q_store q) e = Some (num, b);
  wf_sorted : StronglySorted (λ x y, item_le x y) (q_heap q);
  wf_seq : Forall (λ it, it.1.2 ≤ q_seq q)%Z (q_heap q);
}.

Lemma empty_queue_wf : wf empty_queue.
Proof.
  split; unfold ids; cbn; [|set_solver|constructor| |constructor|constructor].
  - intros e [? He]. by rewrite lookup_empty in He.
  - intros num e. rewrite lookup_empty. set_solver.
Qed.

Lemma live_alter_dead st e e' :
  live (alter (λ ent, ent <| e_valid := false |>) e st) e' =
  if decide (e = e') then None else live st e'.
Proof.
  unfold live. rewrite lookup_alter. case_decide as He; [subst|done].
  by destruct (st !! e').
Qed.

Lemma wf_live_unique q e e' num b b' :
  wf q → e ∈ ids q → e' ∈ ids q →
  live (q_store q) e = Some (num, b) → live (q_store q) e' = Some (num, b') → e = e'.
Proof.
  intros Hwf He He' Hl Hl'.
  assert (q_entries q !! num = Some e) as H1 by (apply wf_index; eauto).
  assert (q_entries q !! num = Some e') as H2 by (apply wf_index; eauto).
  congruence.
Qed.

Lemma invalidate_live q num e :
  wf q → e ∈ ids q →
  live (q_store (invalidate num q)) e =
  (y ← live (q_store q) e; if decide (y.1 ≠ num) then Some y else None).
Proof.
  intros Hwf He. unfold invalidate.
  destruct (q_entries q !! num) as [e0|] eqn:Hnum; cbn.
  - rewrite live_alter_dead. apply wf_index in Hnum as [He0 [b Hb]]; [|done].
    case_decide as Heq; [subst e0; rewrite Hb; cbn; by case_decide|].
    destruct (live (q_store q) e) as [[n' b']|] eqn:Hl; cbn; [|done].
    case_decide as Hne; [done|]. exfalso. apply Heq.
    simpl in Hne. subst. eauto using wf_live_unique.
  - destruct (live (q_store q) e) as [[n' b']|] eqn:Hl; cbn; [|done].
    case_decide as Hne; [done|]. simpl in Hne. subst n'.
    assert (q_entries q !! num = Some e) by (apply wf_index; eauto). congruence.
Qed.

Lemma invalidate_fifo q num : q_fifo (invalidate num q) = q_fifo q.
Proof. unfold invalidate. by destruct (q_entries q !! num). Qed.

Lemma invalidate_heap q num : q_heap (invalidate num q) = q_heap q.
Proof. unfold invalidate. by destruct (q_entries q !! num). Qed.

Lemma invalidate_abs q num : wf q → abs (invalidate num q) = a_remove num (abs q).
Proof.
  intros Hwf. unfold abs, a_remove. cbn.
  rewrite invalidate_fifo, invalidate_heap.
  f_equal; apply omap_filter; intros e He.
  - rewrite invalidate_live by (done || (unfold ids; set_solver)). done.
  - unfold live_item. rewrite invalidate_live; [|done|].
    + destruct (live _ _) as [y|]; cbn; [|done]. by case_decide.
    + unfold ids. apply elem_of_app; right. by apply list_elem_of_fmap_2.
Qed.

Lemma invalidate_ids q num : ids (invalidate num q) = ids q.
Proof. unfold ids, invalidate. by destruct (_ !! _). Qed.

Lemma invalidate_next q num : q_next (invalidate num q) = q_next q.
Proof. unfold invalidate. by destruct (_ !! _). Qed.

Lemma invalidate_store_known q num e :
  is_Some (q_store (invalidate num q) !! e) ↔ is_Some (q_store q !! e).
Proof.
  unfold invalidate. destruct (q_entries q !! num); cbn; [|done].
  rewrite lookup_alter. case_decide; subst; [|done]. by rewrite fmap_is_Some.
Qed.

Lemma invalidate_entries q num : q_entries (invalidate num q) = delete num (q_entries q).
Proof.
  unfold invalidate. destruct (q_entries q !! num) eqn:H; cbn; [done|].
  by rewrite delete_id.
Qed.

Lemma invalidate_wf q num : wf q → wf (invalidate num q).
Proof.
  intros Hwf. split.
  - intros e. rewrite invalidate_store_known, invalidate_next. apply Hwf.
  - intros e. rewrite invalidate_store_known, invalidate_ids. apply Hwf.
  - rewrite invalidate_ids. apply Hwf.
  - intros n e. rewrite invalidate_entries, invalidate_ids, lookup_delete_Some, wf_index by done.
    split.
    + intros (Hne & He & b & Hb). split; [done|]. exists b.
      rewrite invalidate_live, Hb by done. cbn. by rewrite decide_True.
    + intros (He & b & Hb). rewrite invalidate_live in Hb by done.
      destruct (live (q_store q) e) as [[n' b']|] eqn:Hl; cbn in Hb; [|done].
      case_decide; simplify_eq/=. eauto.
  - unfold invalidate. destruct (_ !! _); apply Hwf.
  - unfold invalidate. destruct (_ !! _); apply Hwf.
Qed.

(** A queue with no entry for [num] can take a new one. *)
Lemma live_insert_fresh st e ent e' :
  live (<[e:=ent]> st) e' =
  if decide (e = e') then
    if e_valid ent then Some (e_number ent, e_block ent) else None
  else live st e'.
Proof. unfold live. rewrite lookup_insert. by case_decide. Qed.

Lemma next_not_in_ids q : wf q → q_next q ∉ ids q.
Proof. intros Hwf Hin. apply wf_known, wf_fresh in Hin; [lia|done|done]. Qed.

Lemma live_new_entry q b num e :
  wf q → e ∈ ids q →
  live (q_store (new_entry b num q)) e = live (q_store q) e.
Proof.
  intros Hwf He. cbn. rewrite live_insert_fresh. case_decide; [|done].
  subst. by apply next_not_in_ids in He.
Qed.

Lemma elem_of_heap_ids q t s e : (t, s, e) ∈ q_heap q → e ∈ ids q.
Proof.
  intros H. unfold ids. apply elem_of_app; right.
  apply list_elem_of_fmap. by exists (t, s, e).
Qed.

(** The shared part of [append] and [append_lru]: a new entry is registered
    under a number that has none, and placed once in the FIFO or the heap. *)
Lemma new_entry_wf q q' b num :
  wf q → q_entries q !! num = None →
  q_store q' = q_store (new_entry b num q) →
  q_next q' = S (q_next q) →
  q_entries q' = <[num := q_next q]> (q_entries q) →
  ids q' ≡ₚ q_next q :: ids q →
  StronglySorted (λ x y, item_le x y) (q_heap q') →
  Forall (λ it, it.1.2 ≤ q_seq q')%Z (q_heap q') →
  wf q'.
Proof.
  intros Hwf Hnum Hst Hnx Hent Hids Hsorted Hseq.
  assert (∀ e, is_Some (q_store q' !! e) ↔ e = q_next q ∨ is_Some (q_store q !! e)) as Hk.
  { intros e. rewrite Hst. cbn. rewrite lookup_insert. case_decide; subst; [|naive_solver].
    split; eauto. }
  split; [..|done|done].
  - intros e [->|He]%Hk; rewrite Hnx; [lia|]. apply wf_fresh in He; [lia|done].
  - intros e. rewrite Hk, Hids, elem_of_cons. intros [->|He]; [by left|right].
    by apply wf_known.
  - rewrite Hids. constructor; [by apply next_not_in_ids|apply Hwf].
  - intros n e. rewrite Hent, Hids, Hst, elem_of_cons. cbn.
    rewrite lookup_insert, live_insert_fresh. case_decide as Hn; subst.
    + split.
      * intros [= <-]. rewrite decide_True by done. eauto.
      * intros [[->|He] [b' Hb]]; [done|]. case_decide; [by subst|].
        assert (q_entries q !! n = Some e) by (apply wf_index; eauto). congruence.
    + rewrite wf_index by done. case_decide as He; [subst e|].
      * split.
        -- by intros [Hin%next_not_in_ids].
        -- intros [_ [b' Hb]]. simplify_eq/=.
      * split; [naive_solver|]. intros [[|]]; naive_solver.
Qed.

Lemma heappush_perm x h : heappush x h ≡ₚ x :: h.
Proof.
  induction h as [|y h IH]; cbn; [done|]. destruct (item_le x y); [done|].
  rewrite IH. apply Permutation_swap.
Qed.

Lemma item_le_trans x y z : item_le x y → item_le y z → item_le x z.
Proof.
  destruct x as [[??]?], y as [[??]?], z as [[??]?]. rewrite !Is_true_true.
  unfold item_le. lia.
Qed.

Lemma item_le_total x y : ¬ item_le x y → item_le y x.
Proof.
  destruct x as [[??]?], y as [[??]?]. rewrite !Is_true_true. unfold item_le. lia.
Qed.

Lemma heappush_sorted x h :
  StronglySorted (λ x y, item_le x y) h → StronglySorted (λ x y, item_le x y) (heappush x h).
Proof.
  induction 1 as [|y h Hs IH Hall]; cbn; [repeat constructor|].
  destruct (item_le x y) eqn:Hxy.
  - constructor; [by constructor|]. constructor; [by rewrite Hxy|].
    eapply Forall_impl; [done|]. intros z. apply item_le_trans. by rewrite Hxy.
  - constructor; [done|]. rewrite heappush_perm. constructor; [|done].
    apply item_le_total. rewrite Hxy. by intros [].
Qed.

Lemma append_wf q b num : wf q → wf (append b num q).
Proof.
  intros Hwf. unfold append. apply (invalidate_wf _ num) in Hwf as Hwf'.
  eapply (new_entry_wf (invalidate num q) _ b num); try done.
  - rewrite invalidate_entries. apply lookup_delete_eq.
  - unfold ids at 1. cbn. rewrite <- Permutation_middle. by rewrite app_nil_r.
  - apply Hwf'.
  - apply Hwf'.
Qed.

Lemma append_lru_wf q b num t : wf q → wf (append_lru b num t q).
Proof.
  intros Hwf. unfold append_lru. apply (invalidate_wf _ num) in Hwf as Hwf'.
  eapply (new_entry_wf (invalidate num q) _ b num); try done.
  - rewrite invalidate_entries. apply lookup_delete_eq.
  - unfold ids. cbn. rewrite heappush_perm. cbn. by rewrite <- Permutation_middle.
  - cbn. apply heappush_sorted, Hwf'.
  - cbn. rewrite heappush_perm. constructor; cbn; [lia|].
    eapply Forall_impl; [apply Hwf'|]. cbn. intros; lia.
Qed.

Lemma append_abs q b num : wf q → abs (append b num q) = a_append b num (abs q).
Proof.
  intros Hwf. unfold a_append. rewrite <- (invalidate_abs q num) by done.
  apply (invalidate_wf _ num) in Hwf. unfold append.
  set (q1 := invalidate num q) in *. unfold abs. cbn. f_equal.
  - rewrite omap_app. f_equal.
    + apply omap_ext_in. intros e He. apply (live_new_entry q1 b num); [done|].
      unfold ids. set_solver.
    + csimpl. by rewrite live_insert_fresh, decide_True by done.
  - apply omap_ext_in. intros [[t s] e] He. unfold live_item.
    by rewrite (live_new_entry q1 b num) by eauto using elem_of_heap_ids.
Qed.

Lemma a_insert_head x l :
  Forall (λ y, item_le (x.1, 0%nat) (y.1, 0%nat)) l → a_insert x l = x :: l.
Proof. destruct 1 as [|y l Hy _]; cbn; [done|]. apply Is_true_true in Hy. by rewrite Hy. Qed.

Lemma item_le_key t1 s1 e1 t2 s2 e2 e1' e2' :
  item_le (t1, s1, e1) (t2, s2, e2) = item_le (t1, s1, e1') (t2, s2, e2').
Proof. done. Qed.

Lemma omap_heappush st t s e x h :
  StronglySorted (λ x y, item_le x y) h → live st e = Some x →
  omap (live_item st) (heappush (t, s, e) h) =
  a_insert (t, s, x) (omap (live_item st) h).
Proof.
  intros Hs Hx. induction Hs as [|[[t' s'] e'] h Hs IH Hall]; cbn.
  { unfold live_item at 1. cbn. by rewrite Hx. }
  destruct (item_le (t, s, e) (t', s', e')) eqn:Hle.
  - cbn. unfold live_item at 1. cbn. rewrite Hx. cbn.
    symmetry. apply a_insert_head. apply Forall_forall. intros [[t1 s1] x1].
    change (match live_item st (t', s', e') with
            | Some y => y :: omap (live_item st) h | None => omap (live_item st) h end)
      with (omap (live_item st) ((t', s', e') :: h)).
    rewrite list_elem_of_omap. intros ([[t2 s2] e2] & Hin & Hl).
    unfold live_item in Hl. cbn in Hl. destruct (live st e2); simplify_eq/=.
    rewrite (item_le_key _ _ _ _ _ _ e e2).
    apply elem_of_cons in Hin as [[= -> -> ->]|Hin]; [by rewrite Hle|].
    eapply item_le_trans; [by rewrite Hle|]. rewrite Forall_forall in Hall. by apply Hall.
  - csimpl. rewrite IH. unfold live_item at 1 4. cbn [snd fst].
    destruct (live st e') as [y|]; csimpl; [|done].
    by rewrite (item_le_key _ _ _ _ _ _ e e'), Hle.
Qed.

Lemma append_lru_abs q b num t :
  wf q →
  abs (append_lru b num t q) = a_append_lru b num t (Z.succ (q_seq q)) (abs q).
Proof.
  intros Hwf. unfold a_append_lru. rewrite <- (invalidate_abs q num) by done.
  assert (q_seq (invalidate num q) = q_seq q) as Hseq
    by (unfold invalidate; by destruct (_ !! _)).
  apply (invalidate_wf _ num) in Hwf. unfold append_lru.
  set (q1 := invalidate num q) in *. unfold abs. cbn. rewrite Hseq. f_equal.
  - apply omap_ext_in. intros e He. apply (live_new_entry q1 b num); [done|].
    unfold ids. set_solver.
  - erewrite omap_heappush; [|apply Hwf|by rewrite live_insert_fresh, decide_True by done].
    cbn. f_equal. apply omap_ext_in. intros [[t' s] e] He. unfold live_item.
    by rewrite (live_new_entry q1 b num) by eauto using elem_of_heap_ids.
Qed.

(** ** Members of the queue *)

Definition a_members (a : aqueue) : list (Z * bref) := aq_fifo a ++ (aq_lru a).*2.

(** The queued blocks by number: what the clients of the queue reason about. *)
Definition queued (q : FreeBlockQueue) : gmap Z bref :=
  omap (λ e, snd <$> live (q_store q) e) (q_entries q).

Lemma elem_of_members q n b :
  (n, b) ∈ a_members (abs q) ↔ ∃ e, e ∈ ids q ∧ live (q_store q) e = Some (n, b).
Proof.
  unfold a_members, abs, ids. cbn.
  rewrite elem_of_app, list_elem_of_omap, list_elem_of_fmap.
  setoid_rewrite elem_of_app. setoid_rewrite list_elem_of_omap.
  split.
  - intros [(e & He & Hl)|([[t s] x] & -> & [[t' s'] e] & He & Hl)]; [by eauto|].
    unfold live_item in Hl. cbn in Hl. destruct (live _ e) eqn:?; simplify_eq/=.
    exists e. split; [right|done]. apply list_elem_of_fmap. by exists (t, s, e).
  - intros (e & [He|He] & Hl); [by eauto|right].
    apply list_elem_of_fmap in He as ([[t s] e'] & -> & He).
    exists (t, s, (n, b)). split; [done|]. exists (t, s, e'). split; [done|].
    unfold live_item. cbn in *. by rewrite Hl.
Qed.

Lemma queued_spec q n b : wf q → queued q !! n = Some b ↔ (n, b) ∈ a_members (abs q).
Proof.
  intros Hwf. rewrite elem_of_members. unfold queued.
  rewrite lookup_omap, bind_Some. setoid_rewrite fmap_Some. split.
  - intros (e & He & [n' b'] & Hl & ->). apply wf_index in He as [He [b Hb]]; [|done].
    simplify_eq. eauto.
  - intros (e & He & Hl). exists e. split; [|by eauto]. apply wf_index; eauto.
Qed.

Lemma queued_dom q : wf q → dom (queued q) = dom (q_entries q).
Proof.
  intros Hwf. apply set_eq. intros n. rewrite !elem_of_dom. unfold queued.
  rewrite lookup_omap. split; [intros [b (e & He & _)%bind_Some]; eauto|].
  intros [e He]. rewrite He. cbn. apply wf_index in He as [_ [b Hb]]; [|done].
  rewrite Hb. cbn. eauto.
Qed.

Lemma queue_len_queued q : wf q → queue_len q = Z.of_nat (size (queued q)).
Proof. intros Hwf. unfold queue_len. by rewrite <- !size_dom, queued_dom. Qed.

Lemma queued_contains q n :
  wf q → queue_contains n q = bool_decide (is_Some (queued q !! n)).
Proof.
  intros Hwf. unfold queue_contains. apply bool_decide_ext.
  by rewrite <- !elem_of_dom, queued_dom.
Qed.

Lemma a_numbers_ids q :
  a_numbers (abs q) = omap (λ e, fst <$> live (q_store q) e) (ids q).
Proof.
  unfold a_numbers, abs, ids. cbn. rewrite omap_app. f_equal.
  - by rewrite list_fmap_omap.
  - rewrite !list_fmap_omap. induction (q_heap q) as [|[[t s] e] h IH]; [done|].
    csimpl. rewrite IH. unfold live_item. cbn. by destruct (live _ e).
Qed.

Lemma abs_numbers_nodup q : wf q → NoDup (a_numbers (abs q)).
Proof.
  intros Hwf. rewrite a_numbers_ids. apply NoDup_omap; [apply Hwf|].
  intros e e' n He He' (x & Hx & Hxn)%fmap_Some (y & Hy & Hyn)%fmap_Some.
  destruct x as [nx bx], y as [ny by_]. simplify_eq/=. eauto using wf_live_unique.
Qed.

(** Removing dead entries at the front changes nothing. *)
Lemma drop_dead_wf q q' :
  wf q → q_store q' = q_store q → q_next q' = q_next q → q_entries q' = q_entries q →
  q_seq q' = q_seq q → sublist (q_heap q') (q_heap q) → sublist (ids q') (ids q) →
  (∀ e, e ∈ ids q → e ∉ ids q' → live (q_store q) e = None) →
  wf q'.
Proof.
  intros Hwf Hst Hnx Hent Hseq Hheap Hids Hdead.
  assert (∀ e, e ∈ ids q' → e ∈ ids q) as Hsub.
  { intros e. by apply elem_of_sublist. }
  split; rewrite ?Hst, ?Hnx, ?Hent, ?Hseq.
  - apply Hwf.
  - intros e He. apply Hwf, Hsub, He.
  - eapply sublist_NoDup; [apply Hwf|done].
  - intros n e. rewrite wf_index by done. split; [|naive_solver].
    intros [He [b Hb]]. split; [|by eauto]. destruct (decide (e ∈ ids q')); [done|].
    by rewrite Hdead in Hb.
  - destruct Hwf as [_ _ _ _ Hs _]. revert Hs. clear -Hheap.
    induction Hheap as [|x l k Hl IH|x l k Hl IH]; intros Hs; [done|..];
      apply StronglySorted_inv in Hs as [Hs Hall]; [|by apply IH].
    constructor; [by apply IH|]. rewrite Forall_forall in *. intros y Hy. apply Hall.
    by eapply elem_of_sublist.
  - rewrite Forall_forall. intros it Hit. pose proof (wf_seq _ Hwf) as H.
    rewrite Forall_forall in H. apply H. by eapply elem_of_sublist.
Qed.

Lemma pop_fifo_irrel l q f : pop_fifo l (q <| q_fifo := f |>) = pop_fifo l q.
Proof.
  induction l as [|e l IH]; cbn; [done|]. destruct (q_store q !! e) as [ent|]; [|done].
  destruct (e_valid ent); [done|]. apply IH.
Qed.

Lemma pop_heap_irrel l q f : pop_heap l (q <| q_heap := f |>) = pop_heap l q.
Proof.
  induction l as [|[[t s] e] l IH]; cbn; [done|]. destruct (q_store q !! e) as [ent|]; [|done].
  destruct (e_valid ent); [done|]. apply IH.
Qed.

Lemma pop_fifo_seq l q : q_seq (pop_fifo l q).2 = q_seq q.
Proof.
  induction l as [|e l IH]; cbn; [done|]. destruct (q_store q !! e) as [ent|]; [|done].
  by destruct (e_valid ent).
Qed.

Lemma pop_heap_seq l q : q_seq (pop_heap l q).2 = q_seq q.
Proof.
  induction l as [|[[t s] e] l IH]; cbn; [done|]. destruct (q_store q !! e) as [ent|]; [|done].
  by destruct (e_valid ent).
Qed.

Lemma popleft_seq q : q_seq (popleft q).2 = q_seq q.
Proof.
  unfold popleft. pose proof (pop_fifo_seq (q_fifo q) q) as Hf.
  destruct (pop_fifo (q_fifo q) q) as [[b|] q1]; [done|].
  pose proof (pop_heap_seq (q_heap q1) q1) as Hh.
  destruct (pop_heap (q_heap q1) q1) as [[b|] q2]; cbn in *; congruence.
Qed.

(** Popping a live head is removing its number, then the dead head. *)
Lemma finalize_pop_invalidate q q0 e ent :
  wf q → e ∈ ids q → q_store q !! e = Some ent → e_valid ent →
  q_store q0 = q_store q → q_entries q0 = q_entries q →
  finalize_pop e ent q0 = (e_block ent, invalidate (e_number ent) q0).
Proof.
  intros Hwf He Hst Hv Hst0 Hent0. unfold finalize_pop, invalidate. rewrite Hent0.
  assert (q_entries q !! e_number ent = Some e) as ->; [|done].
  apply wf_index; [done|]. split; [done|]. exists (e_block ent).
  unfold live. rewrite Hst. cbn. by destruct (e_valid ent).
Qed.

Lemma a_remove_head_fifo a n b rest :
  aq_fifo a = (n, b) :: rest → NoDup (a_numbers a) →
  a_remove n a = mkA rest (aq_lru a).
Proof.
  intros Hf Hnd. unfold a_remove, a_numbers in *. rewrite Hf in *. cbn in Hnd.
  apply NoDup_cons in Hnd as [Hn Hnd]. rewrite filter_cons_False by (cbn; naive_solver).
  f_equal; apply filter_all, Forall_forall; intros x Hx ?; simplify_eq; apply Hn.
  - apply elem_of_app; left. by apply list_elem_of_fmap_2.
  - apply elem_of_app; right. apply list_elem_of_fmap_2. by apply list_elem_of_fmap_2.
Qed.

Lemma a_remove_head_lru a t n b rest :
  aq_fifo a = [] → aq_lru a = (t, (n, b)) :: rest → NoDup (a_numbers a) →
  a_remove n a = mkA [] rest.
Proof.
  intros Hf Hl Hnd. unfold a_remove, a_numbers in *. rewrite Hf, Hl in *. cbn in Hnd.
  apply NoDup_cons in Hnd as [Hn Hnd]. rewrite (filter_cons_False _ _ rest) by (cbn; naive_solver).
  f_equal; apply filter_all, Forall_forall; intros x Hx ?; simplify_eq; apply Hn.
  apply list_elem_of_fmap_2. by apply list_elem_of_fmap_2.
Qed.

Lemma drop_head_fifo q e l :
  wf q → q_fifo q = e :: l → live (q_store q) e = None →
  wf (q <| q_fifo := l |>) ∧ abs (q <| q_fifo := l |>) = abs q.
Proof.
  intros Hwf Hl Hd. split.
  - eapply drop_dead_wf; try done; unfold ids; cbn; rewrite Hl.
    + by apply sublist_cons.
    + intros e' [->|He]%elem_of_cons Hn; [done|]. by set_solver.
  - unfold abs. cbn. rewrite Hl. csimpl. by rewrite Hd.
Qed.

Lemma drop_head_heap q t e l :
  wf q → q_heap q = (t, e) :: l → live (q_store q) e = None →
  wf (q <| q_heap := l |>) ∧ abs (q <| q_heap := l |>) = abs q.
Proof.
  intros Hwf Hl Hd. split.
  - eapply drop_dead_wf; try done; unfold ids; cbn; rewrite Hl.
    + by apply sublist_cons.
    + apply sublist_app; [done|]. cbn. by apply sublist_cons.
    + intros e'. cbn. rewrite !elem_of_app, elem_of_cons.
      intros [?|[->|?]] Hn; [naive_solver|done|naive_solver].
  - unfold abs. cbn. rewrite Hl. csimpl. by rewrite live_item_eq, Hd.
Qed.

Lemma live_head_cases q e :
  wf q → e ∈ ids q → ∃ ent, q_store q !! e = Some ent ∧
    live (q_store q) e = if e_valid ent then Some (e_number ent, e_block ent) else None.
Proof.
  intros Hwf He. apply wf_known in He as [ent Hent]; [|done]. exists ent.
  split; [done|]. unfold live. by rewrite Hent.
Qed.

(** Removing the number of a live head kills that head. *)
Lemma invalidate_kills q e ent :
  wf q → e ∈ ids q → q_store q !! e = Some ent → e_valid ent →
  live (q_store (invalidate (e_number ent) q)) e = None.
Proof.
  intros Hwf He Hst Hv. rewrite invalidate_live by done. unfold live. rewrite Hst. cbn.
  destruct (e_valid ent); [|done]. cbn. by case_decide.
Qed.

Lemma pop_fifo_spec q :
  wf q →
  match aq_fifo (abs q) with
  | [] => pop_fifo (q_fifo q) q = (None, q <| q_fifo := [] |>) ∧
          wf (q <| q_fifo := [] |>) ∧ abs (q <| q_fifo := [] |>) = abs q
  | x :: rest => ∃ q', pop_fifo (q_fifo q) q = (Some x.2, q') ∧
          wf q' ∧ abs q' = mkA rest (aq_lru (abs q))
  end.
Proof.
  remember (q_fifo q) as l eqn:Hl. revert q Hl.
  induction l as [|e l IH]; intros q Hl Hwf.
  { unfold abs at 1. rewrite <- Hl. cbn. destruct q; cbn in *. subst. done. }
  assert (e ∈ ids q) as He by (unfold ids; rewrite <- Hl; set_solver).
  destruct (live_head_cases q e) as (ent & Hst & Hlive); [done..|].
  cbn [pop_fifo]. rewrite Hst. destruct (e_valid ent) eqn:Hv.
  - assert (aq_fifo (abs q) = (e_number ent, e_block ent) :: omap (live (q_store q)) l) as Ha.
    { unfold abs. cbn. rewrite <- Hl. csimpl. by rewrite Hlive. }
    assert (Is_true (e_valid ent)) as Hv' by (by rewrite Hv).
    rewrite Ha, (finalize_pop_invalidate q _ e ent Hwf He Hst Hv') by reflexivity.
    exists (invalidate (e_number ent) q <| q_fifo := l |>). split; [|].
    { f_equal. unfold invalidate. cbn. by destruct (q_entries q !! _). }
    destruct (drop_head_fifo (invalidate (e_number ent) q) e l) as [? ->].
    + by apply invalidate_wf.
    + by rewrite invalidate_fifo.
    + by apply invalidate_kills.
    + split; [done|]. rewrite invalidate_abs by done.
      eapply a_remove_head_fifo; [done|by apply abs_numbers_nodup].
  - destruct (drop_head_fifo q e l) as [Hwf' Habs]; [done..|].
    specialize (IH (q <| q_fifo := l |>) eq_refl Hwf').
    rewrite Habs, pop_fifo_irrel in IH. done.
Qed.

Lemma pop_heap_spec q :
  wf q → aq_fifo (abs q) = [] →
  match aq_lru (abs q) with
  | [] => pop_heap (q_heap q) q = (None, q <| q_heap := [] |>) ∧
          wf (q <| q_heap := [] |>) ∧ abs (q <| q_heap := [] |>) = abs q
  | x :: rest => ∃ q', pop_heap (q_heap q) q = (Some x.2.2, q') ∧
          wf q' ∧ abs q' = mkA [] rest
  end.
Proof.
  remember (q_heap q) as l eqn:Hl. revert q Hl.
  induction l as [|[[t s] e] l IH]; intros q Hl Hwf Hfifo.
  { unfold abs at 1. rewrite <- Hl. cbn. destruct q; cbn in *. subst. done. }
  assert (e ∈ ids q) as He by (eapply (elem_of_heap_ids _ t s); rewrite <- Hl; set_solver).
  destruct (live_head_cases q e) as (ent & Hst & Hlive); [done..|].
  cbn [pop_heap]. rewrite Hst. destruct (e_valid ent) eqn:Hv.
  - assert (aq_lru (abs q) =
      (t, s, (e_number ent, e_block ent)) :: omap (live_item (q_store q)) l) as Ha.
    { unfold abs. cbn. rewrite <- Hl. csimpl. by rewrite live_item_eq, Hlive. }
    assert (Is_true (e_valid ent)) as Hv' by (by rewrite Hv).
    rewrite Ha, (finalize_pop_invalidate q _ e ent Hwf He Hst Hv') by reflexivity.
    exists (invalidate (e_number ent) q <| q_heap := l |>). split; [|].
    { f_equal. unfold invalidate. cbn. by destruct (q_entries q !! _). }
    destruct (drop_head_heap (invalidate (e_number ent) q) (t, s) e l) as [? ->].
    + by apply invalidate_wf.
    + by rewrite invalidate_heap.
    + by apply invalidate_kills.
    + split; [done|]. rewrite invalidate_abs by done.
      eapply a_remove_head_lru; [done..|by apply abs_numbers_nodup].
  - destruct (drop_head_heap q (t, s) e l) as [Hwf' Habs]; [done..|].
    specialize (IH (q <| q_heap := l |>) eq_refl Hwf').
    rewrite Habs, pop_heap_irrel in IH. by apply IH.
Qed.

(** [popleft] on a well-formed queue is the specification's pop. *)
Lemma popleft_spec q :
  wf q →
  match a_pop (abs q) with
  | Some (b, a') => ∃ q', popleft q = (Ok b, q') ∧ wf q' ∧ abs q' = a'
  | None => ∃ q', popleft q = (Raise IndexError, q') ∧ wf q' ∧ abs q' = abs q
  end.
Proof.
  intros Hwf. pose proof (pop_fifo_spec q Hwf) as Hf. unfold a_pop, popleft.
  destruct (aq_fifo (abs q)) as [|x rest] eqn:Hfifo.
  - destruct Hf as (-> & Hwf' & Habs).
    pose proof (pop_heap_spec _ Hwf') as Hh. rewrite Habs in Hh. specialize (Hh Hfifo).
    destruct (aq_lru (abs q)) as [|y lru].
    + destruct Hh as (Hp & Hw & Ha). rewrite Hp. eauto.
    + destruct Hh as (q' & Hp & Hw & Ha). rewrite Hp. eauto.
  - destruct Hf as (q' & -> & Hwf' & Habs). eauto.
Qed.

(** ** What the clients of the queue use *)

Lemma a_remove_members n n' b a :
  (n', b) ∈ a_members (a_remove n a) ↔ n' ≠ n ∧ (n', b) ∈ a_members a.
Proof.
  unfold a_members, a_remove. cbn.
  rewrite !elem_of_app, list_elem_of_filter, !list_elem_of_fmap.
  setoid_rewrite list_elem_of_filter. cbn. split.
  - intros [[??]|([t [m c]] & ? & ? & ?)]; simplify_eq/=; [by auto|].
    split; [done|right]. by exists (t, (m, c)).
  - intros [Hne [?|([t [m c]] & ? & ?)]]; simplify_eq/=; [by left|right].
    by exists (t, (m, c)).
Qed.

Lemma a_insert_perm x l : a_insert x l ≡ₚ x :: l.
Proof.
  induction l as [|y l IH]; cbn; [done|]. destruct (item_le _ _); [done|].
  rewrite IH. apply Permutation_swap.
Qed.

Lemma queued_invalidate q num : wf q → queued (invalidate num q) = delete num (queued q).
Proof.
  intros Hwf. apply map_eq. intros n. apply option_eq. intros b.
  rewrite queued_spec, invalidate_abs, a_remove_members by auto using invalidate_wf.
  rewrite lookup_delete_Some, queued_spec by done. naive_solver.
Qed.

Lemma queued_append q b num : wf q → queued (append b num q) = <[num := b]> (queued q).
Proof.
  intros Hwf. apply map_eq. intros n. apply option_eq. intros b'.
  rewrite queued_spec, append_abs, lookup_insert_Some, queued_spec by auto using append_wf.
  transitivity ((n, b') ∈ (num, b) :: a_members (a_remove num (abs q))).
  - unfold a_append, a_members. cbn. by rewrite <- Permutation_middle, app_nil_r.
  - rewrite elem_of_cons, a_remove_members. naive_solver.
Qed.

Lemma queued_append_lru q b num t :
  wf q → queued (append_lru b num t q) = <[num := b]> (queued q).
Proof.
  intros Hwf. apply map_eq. intros n. apply option_eq. intros b'.
  rewrite queued_spec, append_lru_abs, lookup_insert_Some, queued_spec by auto using append_lru_wf.
  transitivity ((n, b') ∈ (num, b) :: a_members (a_remove num (abs q))).
  - unfold a_append_lru, a_members. cbn.
    rewrite a_insert_perm. cbn. by rewrite <- Permutation_middle.
  - rewrite elem_of_cons, a_remove_members. naive_solver.
Qed.

Lemma append_unique_wf q b num : wf q → wf (append_unique b num q).
Proof. intros. unfold append_unique. case_match; auto using append_wf. Qed.

Lemma queued_append_unique q b num :
  wf q → queued q !! num = None →
  queued (append_unique b num q) = <[num := b]> (queued q).
Proof.
  intros Hwf Hn. unfold append_unique. rewrite queued_contains, Hn by done.
  rewrite bool_decide_false by (by intros [? ?]). by apply queued_append.
Qed.

(** [popleft] hands out a queued block, and raises only on an empty queue. *)
Lemma popleft_queued q :
  wf q → queued q ≠ ∅ →
  ∃ num b q', popleft q = (Ok b, q') ∧ wf q' ∧
    queued q !! num = Some b ∧ queued q' = delete num (queued q).
Proof.
  intros Hwf Hne. pose proof (popleft_spec q Hwf) as Hp.
  pose proof (abs_numbers_nodup q Hwf) as Hnd. unfold a_pop in Hp.
  destruct (aq_fifo (abs q)) as [|[n b] fifo] eqn:Hf;
    [destruct (aq_lru (abs q)) as [|[t [n b]] lru] eqn:Hl|].
  - exfalso. apply Hne. apply map_empty. intros n. apply eq_None_not_Some. intros [b Hb].
    apply queued_spec in Hb; [|done]. unfold a_members in Hb. rewrite Hf, Hl in Hb. set_solver.
  - destruct Hp as (q' & Hpop & Hwf' & Habs). exists n, b, q'. split_and!; [done..| |].
    + apply queued_spec; [done|]. unfold a_members. rewrite Hf, Hl. cbn. set_solver.
    + rewrite <- queued_invalidate by done. apply map_eq. intros m. apply option_eq. intros c.
      rewrite !queued_spec, invalidate_abs, Habs by auto using invalidate_wf.
      by erewrite a_remove_head_lru.
  - destruct Hp as (q' & Hpop & Hwf' & Habs). exists n, b, q'. split_and!; [done..| |].
    + apply queued_spec; [done|]. unfold a_members. rewrite Hf. set_solver.
    + rewrite <- queued_invalidate by done. apply map_eq. intros m. apply option_eq. intros c.
      rewrite !queued_spec, invalidate_abs, Habs by auto using invalidate_wf.
      by erewrite a_remove_head_fifo.
Qed.

#[export] Hint Resolve empty_queue_wf invalidate_wf append_wf append_lru_wf
  append_unique_wf : tokensim.

(** ** Sequences of operations *)

Inductive queue_op :=
  | OpAppend (b : bref) (num : Z)
  | OpAppendUnique (b : bref) (num : Z)
  | OpAppendLru (b : bref) (num stamp : Z)
  | OpRemove (num : Z)
  | OpPop.

(** Run an operation; a pop returns the block, or [None] when it raised. *)
Definition run_op (op : queue_op) (q : FreeBlockQueue) : option bref * FreeBlockQueue :=
  match op with
  | OpAppend b num => (None, append b num q)
  | OpAppendUnique b num => (None, append_unique b num q)
  | OpAppendLru b num stamp => (None, append_lru b num stamp q)
  | OpRemove num => (None, remove num q)
  | OpPop =>
      match popleft q with
      | (Ok b, q) => (Some b, q)
      | (Raise _, q) => (None, q)
      end
  end.

(** The same on the specification; [clock] numbers the LRU insertions. *)
Definition a_run_op (op : queue_op) (clock : Z) (a : aqueue) : option bref * Z * aqueue :=
  match op with
  | OpAppend b num => (None, clock, a_append b num a)
  | OpAppendUnique b num =>
      (None, clock, if bool_decide (num ∈ a_numbers a) then a else a_append b num a)
  | OpAppendLru b num stamp =>
      (None, Z.succ clock, a_append_lru b num stamp (Z.succ clock) a)
  | OpRemove num => (None, clock, a_remove num a)
  | OpPop =>
      match a_pop a with
      | Some (b, a) => (Some b, clock, a)
      | None => (None, clock, a)
      end
  end.

Fixpoint run_ops (ops : list queue_op) (q : FreeBlockQueue) : list (option bref) * FreeBlockQueue :=
  match ops with
  | [] => ([], q)
  | op :: ops =>
      let '(r, q) := run_op op q in
      let '(rs, q) := run_ops ops q in (r :: rs, q)
  end.

Fixpoint a_run_ops (ops : list queue_op) (clock : Z) (a : aqueue) : list (option bref) :=
  match ops with
  | [] => []
  | op :: ops =>
      let '(r, clock, a) := a_run_op op clock a in r :: a_run_ops ops clock a
  end.

Lemma contains_numbers q num :
  wf q → queue_contains num q = bool_decide (num ∈ a_numbers (abs q)).
Proof.
  intros Hwf. rewrite queued_contains by done. apply bool_decide_ext.
  unfold is_Some. setoid_rewrite queued_spec; [|done].
  assert (a_numbers (abs q) = (a_members (abs q)).*1) as ->.
  { unfold a_numbers, a_members. by rewrite fmap_app. }
  rewrite list_elem_of_fmap. split; [intros [b Hb]; by exists (num, b)|].
  intros ([n b] & -> & Hb). by exists b.
Qed.

Lemma run_op_simulation op q :
  wf q →
  let '(r, q') := run_op op q in
  let '(r', clock, a) := a_run_op op (q_seq q) (abs q) in
  r = r' ∧ wf q' ∧ abs q' = a ∧ q_seq q' = clock.
Proof.
  intros Hwf.
  assert (∀ num, q_seq (invalidate num q) = q_seq q) as Hinv
    by (intros num; unfold invalidate; by destruct (q_entries q !! num)).
  destruct op as [b num|b num|b num t|num|]; cbn [run_op a_run_op].
  - split_and!; auto using append_wf, append_abs; apply Hinv.
  - unfold append_unique. rewrite contains_numbers by done.
    case_bool_decide; split_and!; auto using append_wf, append_abs; apply Hinv.
  - split_and!; auto using append_lru_wf, append_lru_abs. cbn. by rewrite Hinv.
  - split_and!; auto using invalidate_wf, invalidate_abs.
  - pose proof (popleft_spec q Hwf) as Hp. pose proof (popleft_seq q) as Hs.
    destruct (a_pop (abs q)) as [[b a]|].
    + destruct Hp as (q' & Hp & ? & ?). rewrite Hp in *. done.
    + destruct Hp as (q' & Hp & ? & ?). rewrite Hp in *. done.
Qed.

(** The results of any sequence of operations are those of the queue that
    removes blocks eagerly. *)
Lemma run_ops_simulation ops q :
  wf q → (run_ops ops q).1 = a_run_ops ops (q_seq q) (abs q).
Proof.
  revert q. induction ops as [|op ops IH]; intros q Hwf; [done|]. cbn.
  pose proof (run_op_simulation op q Hwf) as Hsim.
  destruct (run_op op q) as [r q'], (a_run_op op (q_seq q) (abs q)) as [[r' clock] a].
  destruct Hsim as (-> & Hwf' & <- & <-).
  pose proof (IH q' Hwf') as IH'. destruct (run_ops ops q') as [rs q'']. cbn in *.
  by rewrite IH'.
Qed.

(** C27 (refinement).  Whatever sequence of [append], [append_unique],
    [append_lru], [remove] and [popleft] calls is made on a new
    [FreeBlockQueue], the blocks it hands out are those of the queue that
    removes blocks eagerly: lazy invalidation is not observable. *)
Theorem queue_refines_spec (ops : list queue_op) :
  (run_ops ops empty_queue).1 = a_run_ops ops 0 (mkA [] []).
Proof. apply (run_ops_simulation ops empty_queue), empty_queue_wf. Qed.

Lemma abs_lru_sorted q :
  wf q → StronglySorted (λ x y, item_le (x.1, 0%nat) (y.1, 0%nat)) (aq_lru (abs q)).
Proof.
  intros Hwf. pose proof (wf_sorted _ Hwf) as Hs. unfold abs. cbn.
  induction Hs as [|[ts e] h Hs IH Hall]; [constructor|]. csimpl.
  rewrite live_item_eq. destruct (live (q_store q) e) as [x|]; [|done].
  constructor; [done|]. apply Forall_forall. intros [ts' y].
  rewrite list_elem_of_omap. intros ([ts2 e2] & Hin & Hl).
  rewrite live_item_eq in Hl. destruct (live _ e2); simplify_eq/=.
  rewrite Forall_forall in Hall. specialize (Hall _ Hin). destruct ts, ts'. exact Hall.
Qed.

(** [popleft] hands out uncached blocks first, in the order
    they were queued, and then the cached block with the smallest
    [last_accessed] stamp, ties broken by insertion order; on a well-formed
    queue it raises [IndexError] exactly when no block is queued. *)
Theorem popleft_order q :
  wf q →
  match popleft q with
  | (Ok b, q') =>
      (∃ n fifo, aq_fifo (abs q) = (n, b) :: fifo) ∨
      (aq_fifo (abs q) = [] ∧
       ∃ t s n lru, aq_lru (abs q) = (t, s, (n, b)) :: lru ∧
         ∀ t' s' x, (t', s', x) ∈ lru → (t < t' ∨ t = t' ∧ s ≤ s')%Z)
  | (Raise e, _) => e = IndexError ∧ queue_len q = 0%Z
  end.
Proof.
  intros Hwf. pose proof (popleft_spec q Hwf) as Hp. unfold a_pop in Hp.
  pose proof (abs_lru_sorted q Hwf) as Hs.
  destruct (aq_fifo (abs q)) as [|[n b] fifo] eqn:Hf;
    [destruct (aq_lru (abs q)) as [|[[t s] [n b]] lru] eqn:Hl|].
  - destruct Hp as (q' & -> & _). split; [done|].
    rewrite queue_len_queued by done. replace (queued q) with (∅ : gmap Z bref); [done|].
    symmetry. apply map_empty. intros n. apply eq_None_not_Some. intros [b Hb].
    apply queued_spec in Hb; [|done]. unfold a_members in Hb. rewrite Hf, Hl in Hb. set_solver.
  - destruct Hp as (q' & -> & _). right. split; [done|]. exists t, s, n, lru.
    split; [done|]. intros t' s' x Hin. apply StronglySorted_inv in Hs as [_ Hall].
    rewrite Forall_forall in Hall. specialize (Hall _ Hin). cbn in Hall.
    apply Is_true_true in Hall. unfold item_le in Hall. lia.
  - destruct Hp as (q' & -> & _). left. eauto.
Qed.

(** Block 7 is freed twice with different stamps; the dead heap entry of the
    first insertion is skipped and the uncached block 9 goes first. *)
Lemma popleft_order_witness :
  let q := append 90 9 (append_lru 70 7 5 (append_lru 80 8 3 (append_lru 70 7 1 empty_queue))) in
  wf q ∧ popleft q = (Ok 90, (popleft q).2) ∧
  match popleft q with
  | (Ok b, q') =>
      (∃ n fifo, aq_fifo (abs q) = (n, b) :: fifo) ∨
      (aq_fifo (abs q) = [] ∧
       ∃ t s n lru, aq_lru (abs q) = (t, s, (n, b)) :: lru ∧
         ∀ t' s' x, (t', s', x) ∈ lru → (t < t' ∨ t = t' ∧ s ≤ s')%Z)
  | (Raise e, _) => e = IndexError ∧ queue_len q = 0%Z
  end.
Proof.
  intros q. assert (wf q) as Hwf by (unfold q; auto 10 with tokensim).
  split; [exact Hwf|]. split; [vm_compute; reflexivity|].
  exact (popleft_order q Hwf).
Defined.

(** Clients reason with [queued] and the lemmas above, not with the entries. *)
#[global] Arguments queued : simpl never.
#[global] Arguments queue_len : simpl never.
#[global] Arguments queue_contains : simpl never.
#[global] Arguments append : simpl never.
#[global] Arguments append_unique : simpl never.
#[global] Arguments append_lru : simpl never.
#[global] Arguments remove : simpl never.
#[global] Arguments popleft : simpl never.
#[global] Arguments empty_queue : simpl never.
