(* ===== verification/PrefixKeys.v ===== *)
(** * Prefix-cache keys ([TokenSim/block/prefix_cache.py])

    The key of a full block is a hash chain: the digest of everything before
    the block, the block's own signature and a digest of model, salt and reuse
    group.  [build_prefix_keys] reuses the keys of a cached chain that shares
    the longest prefix, found by binary search over slices.  The theorems show
    that the cache and the search are invisible: the result is always the chain
    a full rebuild computes.

    Python strings are lists of code points.  The SHA-256 digest is a parameter
    of the model ([Digest]). *)

From stdpp Require Import gmap list strings pretty.
From Stdlib Require Import ZArith Lia.
From S2P Require Import Prelude.

(** ** Strings *)

Definition pystr := list N.

(** Literals of the source. *)
Definition lit (s : string) : pystr :=
  (λ a, Ascii.N_of_ascii a) <$> String.list_ascii_of_string s.

(** [hashlib.sha256(payload.encode("utf-8")).hexdigest()] *)
Class Digest := sha256_hexdigest : pystr → pystr.

(** Lower-case hexadecimal digit, and [format(n, "04x")] of a 16-bit number. *)
Definition hex_digit (n : N) : N := if (n <? 10)%N then (48 + n)%N else (87 + n)%N.

Definition hex4 (n : N) : pystr :=
  [hex_digit (n / 4096 mod 16); hex_digit (n / 256 mod 16);
   hex_digit (n / 16 mod 16); hex_digit (n mod 16)]%N.

Definition unicode_escape (n : N) : pystr := lit "\u" ++ hex4 n.

(** [json.encoder.encode_basestring_ascii] on one code point. *)
Definition quote_char (c : N) : pystr :=
  if (c =? 34)%N then lit "\" ++ [34%N]
  else if (c =? 92)%N then lit "\\"
  else if (c =? 10)%N then lit "\n"
  else if (c =? 13)%N then lit "\r"
  else if (c =? 9)%N then lit "\t"
  else if (c =? 12)%N then lit "\f"
  else if (c =? 8)%N then lit "\b"
  else if ((32 <=? c) && (c <=? 126))%N then [c]
  else if (c <? 65536)%N then unicode_escape c
  else
    let v := (c - 65536)%N in
    unicode_escape (55296 + v / 1024)%N ++ unicode_escape (56320 + v mod 1024)%N.

(** [_quote] *)
Definition quote (s : pystr) : pystr := [34%N] ++ (s ≫= quote_char) ++ [34%N].

(** [json.dumps] of a string or [None] *)
Definition dump_opt (s : option pystr) : pystr :=
  match s with Some s => quote s | None => lit "null" end.

(** ["key":value] *)
Definition field (name : string) (value : pystr) : pystr :=
  quote (lit name) ++ lit ":" ++ value.

(** ** Keys *)

Record PrefixCacheKey := mkKey {
  parent_hash : pystr;
  block_signature : pystr;
  extra_hash : pystr;
}.

#[global] Instance PrefixCacheKey_eq_dec : EqDecision PrefixCacheKey.
Proof. solve_decision. Defined.

#[global] Instance PrefixCacheKey_countable : Countable PrefixCacheKey.
Proof.
  refine (inj_countable' (λ k, (parent_hash k, block_signature k, extra_hash k))
    (λ '(p, b, e), mkKey p b e) _). by intros [].
Defined.

(** The key of content only one request knows.  [request_identity] is the identity
    of an opaque object created with the request. *)
Record RequestLocalPrefixKey := mkLocalKey {
  request_identity : Z;
  lk_block_tokens : Z;
  lk_block_index : Z;
  prompt_parent : option PrefixCacheKey;
  lk_extra_hash : pystr;
}.

#[global] Instance RequestLocalPrefixKey_eq_dec : EqDecision RequestLocalPrefixKey.
Proof. solve_decision. Defined.

#[global] Instance RequestLocalPrefixKey_countable : Countable RequestLocalPrefixKey.
Proof.
  refine (inj_countable' (λ k, (request_identity k, lk_block_tokens k, lk_block_index k,
      prompt_parent k, lk_extra_hash k))
    (λ '(i, t, n, p, e), mkLocalKey i t n p e) _). by intros [].
Defined.

(** A key in a request's list of keys: the two tuple types have different
    lengths, so they are never equal. *)
Inductive cache_key :=
  | SharedKey (k : PrefixCacheKey)
  | LocalKey (k : RequestLocalPrefixKey).

#[global] Instance cache_key_eq_dec : EqDecision cache_key.
Proof. solve_decision. Defined.

#[global] Instance cache_key_countable : Countable cache_key.
Proof.
  refine (inj_countable'
    (λ k, match k with SharedKey k => inl k | LocalKey k => inr k end)
    (λ k, match k with inl k => SharedKey k | inr k => LocalKey k end) _). by intros [].
Defined.

#[global] Instance SharedKey_inj : Inj (=) (=) SharedKey.
Proof. by intros ?? [=]. Qed.

(** [not isinstance(key, RequestLocalPrefixKey)] *)
Definition as_shared (key : cache_key) : option PrefixCacheKey :=
  match key with SharedKey k => Some k | LocalKey _ => None end.

Definition shared_keys (keys : list cache_key) : list PrefixCacheKey := omap as_shared keys.

Lemma shared_keys_fmap (keys : list PrefixCacheKey) : shared_keys (SharedKey <$> keys) = keys.
Proof. unfold shared_keys. induction keys as [|k keys IH]; csimpl; [done|]. by rewrite IH. Qed.

(** Workload block hashes are strings or integers; [str] renders them. *)
Inductive hash_id := HStr (s : pystr) | HInt (z : Z).

Definition signature (h : hash_id) : pystr :=
  match h with HStr s => s | HInt z => lit (pretty z) end.

Section Keys.
Context `{Digest}.

(** [make_extra_hash] with [_stable_hash] (keys sorted, no spaces) *)
Definition make_extra_hash (model : pystr) (cache_salt reuse_group : option pystr) : pystr :=
  sha256_hexdigest
    (lit "{" ++ field "cache_salt" (dump_opt cache_salt) ++
     lit "," ++ field "model" (quote model) ++
     lit "," ++ field "reuse_group" (dump_opt reuse_group) ++ lit "}").

Definition make_root_parent_hash (extra : pystr) : pystr :=
  sha256_hexdigest
    (lit "{" ++ field "extra_hash" (quote extra) ++
     lit "," ++ field "root" (quote (lit "tokensim-prefix-cache")) ++ lit "}").

Definition make_prefix_key (parent : pystr) (block_hash : hash_id) (extra : pystr) :
    PrefixCacheKey :=
  mkKey parent (signature block_hash) extra.

(** [_chain_hash] *)
Definition chain_hash (parent sig quoted_extra : pystr) : pystr :=
  sha256_hexdigest
    (lit "{" ++ field "block_signature" (quote sig) ++
     lit "," ++ field "extra_hash" quoted_extra ++
     lit "," ++ field "parent_hash" (quote parent) ++ lit "}").

Definition next_parent_hash (key : PrefixCacheKey) : pystr :=
  chain_hash (parent_hash key) (block_signature key) (quote (extra_hash key)).
End Keys.

(** ** [_common_prefix]: binary search over slices *)

Section CommonPrefix.
Context {A : Type} `{EqDecision A}.
Implicit Types ls rs : list A.

(** [left[:n] == right[:n]] *)
Definition slices_equal ls rs (n : nat) : bool := bool_decide (take n ls = take n rs).

(** [while high - low > 1], with fuel *)
Fixpoint search_prefix (fuel : nat) ls rs (low high : nat) : nat :=
  match fuel with
  | O => low
  | S fuel =>
      if (1 <? high - low)%nat then
        let middle := (low + high) / 2 in
        if slices_equal ls rs middle
        then search_prefix fuel ls rs middle high
        else search_prefix fuel ls rs low middle
      else low
  end.

Definition common_prefix ls rs : nat :=
  let size := length ls `min` length rs in
  match ls, rs with
  | x :: _, y :: _ =>
      if bool_decide (x ≠ y) then 0
      else if slices_equal ls rs size then size
      else search_prefix size ls rs 1 size
  | _, _ => 0
  end.

(** Specification: the length of the longest common prefix. *)
Fixpoint lcp ls rs : nat :=
  match ls, rs with
  | x :: ls, y :: rs => if bool_decide (x = y) then S (lcp ls rs) else 0
  | _, _ => 0
  end.

Lemma take_eq_lcp ls rs n :
  n ≤ length ls `min` length rs →
  take n ls = take n rs ↔ n ≤ lcp ls rs.
Proof.
  revert rs n. induction ls as [|x ls IH]; intros [|y rs] [|n]; cbn; intros Hn;
    try lia; try (split; [intros; lia|done]).
  case_bool_decide as Hxy.
  - subst. rewrite <- Nat.succ_le_mono, <- IH by lia. split; [by intros [= ->]|congruence].
  - split; [by intros [= ? _]|lia].
Qed.

Lemma lcp_bound ls rs : lcp ls rs ≤ length ls `min` length rs.
Proof.
  revert rs. induction ls as [|x ls IH]; intros [|y rs]; cbn; try lia.
  case_bool_decide; [|lia]. specialize (IH rs). lia.
Qed.

Lemma search_prefix_correct fuel ls rs low high :
  high - low ≤ S fuel → low ≤ lcp ls rs < high →
  high ≤ length ls `min` length rs →
  search_prefix fuel ls rs low high = lcp ls rs.
Proof.
  revert low high. induction fuel as [|fuel IH]; intros low high Hf Hl Hh; cbn [search_prefix]; [lia|].
  destruct (Nat.ltb_spec 1 (high - low)) as [Hlt|Hge]; [|lia].
  assert (low < (low + high) / 2 < high) as Hm.
  { split; [apply Nat.div_le_lower_bound; lia|apply Nat.Div0.div_lt_upper_bound; lia]. }
  unfold slices_equal. case_bool_decide as Ht; apply IH; try lia.
  - apply take_eq_lcp in Ht; lia.
  - rewrite take_eq_lcp in Ht by lia. lia.
Qed.

Lemma common_prefix_correct ls rs : common_prefix ls rs = lcp ls rs.
Proof.
  unfold common_prefix. pose proof (lcp_bound ls rs) as Hb.
  destruct ls as [|x ls], rs as [|y rs]; try done.
  case_bool_decide as Hxy.
  { cbn. by rewrite bool_decide_false. }
  subst y.
  unfold slices_equal. case_bool_decide as Ht.
  - apply take_eq_lcp in Ht; lia.
  - rewrite take_eq_lcp in Ht by lia.
    assert (1 ≤ lcp (x :: ls) (x :: rs)) by (cbn; rewrite bool_decide_true by done; lia).
    apply search_prefix_correct; lia.
Qed.
End CommonPrefix.

(** ** [_ChainCache] *)

(** A cached chain: [(signatures, keys, parent hash after the last key)] *)
Record chain := mkChain {
  c_signatures : list pystr;
  c_keys : list PrefixCacheKey;
  c_parent : pystr;
}.

(** [scopes] is an [OrderedDict]: an association list, oldest first. *)
Record ChainCache := mkCache {
  scope_limit : nat;
  chain_limit : nat;
  scopes : list (pystr * list chain);
}.

#[global] Instance eta_cache : Eta ChainCache := λ c,
  mkCache (scope_limit c) (chain_limit c) (scopes c).

(** [_chains = _ChainCache()] *)
Definition new_chain_cache : ChainCache := mkCache 1024 4 [].

Section Assoc.
Context {V : Type}.
Implicit Types l : list (pystr * V).

(** [d.get(k)] *)
Fixpoint assoc_get (k : pystr) l : option V :=
  match l with
  | [] => None
  | (k', v) :: l => if bool_decide (k = k') then Some v else assoc_get k l
  end.

Definition assoc_remove (k : pystr) l : list (pystr * V) := filter (λ x, x.1 ≠ k) l.

(** [d.move_to_end(k)], with the value [v] of [k] *)
Definition move_to_end (k : pystr) (v : V) l : list (pystr * V) :=
  assoc_remove k l ++ [(k, v)].
End Assoc.

(** The loop of [longest] over the chains of a scope *)
Fixpoint longest_loop (chains : list chain) (sigs : list pystr) (best : nat)
    (best_chain : option chain) : nat * option chain :=
  match chains with
  | [] => (best, best_chain)
  | c :: chains =>
      let shared := common_prefix (c_signatures c) sigs in
      if (best <? shared)%nat then
        if (shared =? length sigs)%nat then (shared, Some c)
        else longest_loop chains sigs shared (Some c)
      else longest_loop chains sigs best best_chain
  end.

(** [_ChainCache.longest] *)
Definition longest (extra : pystr) (sigs : list pystr) (cc : ChainCache) :
    nat * option chain * ChainCache :=
  match assoc_get extra (scopes cc) with
  | None | Some [] => (0, None, cc)
  | Some chains =>
      (longest_loop chains sigs 0 None,
       cc <| scopes ::= move_to_end extra chains |>)
  end.

(** [_ChainCache.store] *)
Definition store (extra : pystr) (sigs : list pystr) (keys : list PrefixCacheKey)
    (parent : pystr) (cc : ChainCache) : ChainCache :=
  let '(chains, kept) :=
    match assoc_get extra (scopes cc) with
    | None =>
        let grown := scopes cc ++ [(extra, [])] in
        ([], if (scope_limit cc <? length grown)%nat then tail grown else grown)
    | Some chains => (chains, move_to_end extra chains (scopes cc))
    end in
  let chains :=
    filter (λ c, common_prefix (c_signatures c) sigs < length (c_signatures c)) chains
    ++ [mkChain sigs keys parent] in
  let chains := if (chain_limit cc <? length chains)%nat then tail chains else chains in
  cc <| scopes := (λ x, if bool_decide (x.1 = extra) then (extra, chains) else x) <$> kept |>.

Section Build.
Context `{Digest}.

(** The loop [for signature in signatures[shared:]]: the keys appended and
    the parent hash after the last one. *)
Fixpoint extend_chain (parent extra : pystr) (sigs : list pystr) :
    list PrefixCacheKey * pystr :=
  match sigs with
  | [] => ([], parent)
  | sig :: sigs =>
      let '(keys, last) := extend_chain (chain_hash parent sig (quote extra)) extra sigs in
      (mkKey parent sig extra :: keys, last)
  end.

(** [build_prefix_keys] *)
Definition build_prefix_keys (block_hashes : list hash_id) (model : pystr)
    (cache_salt reuse_group : option pystr) (cc : ChainCache) :
    list PrefixCacheKey * ChainCache :=
  let extra := make_extra_hash model cache_salt reuse_group in
  let sigs := signature <$> block_hashes in
  match sigs with
  | [] => ([], cc)
  | _ =>
      let '(shared, best, cc) := longest extra sigs cc in
      let '(keys, parent) :=
        match best with
        | None => ([], make_root_parent_hash extra)
        | Some c =>
            (take shared (c_keys c),
             match c_keys c !! shared with
             | Some key => parent_hash key
             | None => c_parent c
             end)
        end in
      if (shared <? length sigs)%nat then
        let '(more, last) := extend_chain parent extra (drop shared sigs) in
        (keys ++ more, store extra sigs (keys ++ more) last cc)
      else (keys, cc)
  end.
End Build.

(** ** The cache is invisible *)

Section Correct.
Context `{Digest}.

(** Reference: the keys of a full rebuild, and the digest after them. *)
Definition ref_keys (extra : pystr) (sigs : list pystr) : list PrefixCacheKey :=
  (extend_chain (make_root_parent_hash extra) extra sigs).1.

Definition ref_parent (extra : pystr) (sigs : list pystr) : pystr :=
  (extend_chain (make_root_parent_hash extra) extra sigs).2.

Lemma extend_chain_app parent extra s1 s2 :
  extend_chain parent extra (s1 ++ s2) =
  let '(k1, p1) := extend_chain parent extra s1 in
  let '(k2, p2) := extend_chain p1 extra s2 in (k1 ++ k2, p2).
Proof.
  revert parent. induction s1 as [|s s1 IH]; intros parent; cbn.
  - by destruct (extend_chain parent extra s2).
  - rewrite IH. destruct (extend_chain _ extra s1) as [k1 p1].
    by destruct (extend_chain p1 extra s2).
Qed.

Lemma extend_chain_length parent extra sigs :
  length (extend_chain parent extra sigs).1 = length sigs.
Proof.
  revert parent. induction sigs as [|s sigs IH]; intros parent; cbn; [done|].
  specialize (IH (chain_hash parent s (quote extra))).
  destruct (extend_chain _ extra sigs). cbn in *. lia.
Qed.

Lemma ref_keys_app extra s1 s2 :
  ref_keys extra (s1 ++ s2) = ref_keys extra s1 ++ (extend_chain (ref_parent extra s1) extra s2).1.
Proof.
  unfold ref_keys, ref_parent. rewrite extend_chain_app.
  destruct (extend_chain _ extra s1) as [k1 p1]. cbn. by destruct (extend_chain p1 extra s2).
Qed.

Lemma ref_parent_app extra s1 s2 :
  ref_parent extra (s1 ++ s2) = (extend_chain (ref_parent extra s1) extra s2).2.
Proof.
  unfold ref_parent. rewrite extend_chain_app.
  destruct (extend_chain _ extra s1) as [k1 p1]. cbn. by destruct (extend_chain p1 extra s2).
Qed.

Lemma length_ref_keys extra sigs : length (ref_keys extra sigs) = length sigs.
Proof. apply extend_chain_length. Qed.

Lemma take_ref_keys extra sigs n :
  take n (ref_keys extra sigs) = ref_keys extra (take n sigs).
Proof.
  destruct (decide (n ≤ length sigs)) as [Hn|Hn].
  - rewrite <- (take_drop n sigs) at 1. rewrite ref_keys_app, take_app_le.
    + rewrite take_ge; [done|]. rewrite length_ref_keys, length_take. lia.
    + rewrite length_ref_keys, length_take. lia.
  - rewrite !take_ge; [done|lia|]. rewrite length_ref_keys. lia.
Qed.

(** The parent hash stored in the [n]-th key is the digest of what precedes. *)
Lemma lookup_ref_keys extra sigs n sig :
  sigs !! n = Some sig →
  ref_keys extra sigs !! n = Some (mkKey (ref_parent extra (take n sigs)) sig extra).
Proof.
  intros Hn. rewrite <- (take_drop_middle sigs n sig) at 1 by done.
  pose proof (lookup_lt_Some _ _ _ Hn).
  assert (length (ref_keys extra (take n sigs)) = n) as Hlen
    by (rewrite length_ref_keys, length_take; lia).
  rewrite ref_keys_app, lookup_app_r by lia. rewrite Hlen, Nat.sub_diag. cbn.
  by destruct (extend_chain _ extra (drop (S n) sigs)).
Qed.

Lemma lcp_take (l r : list pystr) : take (lcp l r) l = take (lcp l r) r.
Proof. apply take_eq_lcp; [apply lcp_bound|done]. Qed.

(** Every cached chain is the chain of a full rebuild. *)
Definition chain_ok (extra : pystr) (c : chain) : Prop :=
  c_keys c = ref_keys extra (c_signatures c) ∧ c_parent c = ref_parent extra (c_signatures c).

Definition cache_ok (cc : ChainCache) : Prop :=
  Forall (λ '(extra, chains), Forall (chain_ok extra) chains) (scopes cc).

Lemma assoc_get_elem {V} k (l : list (pystr * V)) v : assoc_get k l = Some v → (k, v) ∈ l.
Proof.
  induction l as [|[k' v'] l IH]; cbn; [done|]. case_bool_decide; [|set_solver].
  intros [= ->]. subst. set_solver.
Qed.

Lemma assoc_remove_ok (P : pystr * list chain → Prop) k l :
  Forall P l → Forall P (assoc_remove k l).
Proof. rewrite !Forall_forall. intros Hl x [_ Hx]%list_elem_of_filter. auto. Qed.

Lemma move_to_end_ok (P : pystr * list chain → Prop) k v l :
  Forall P l → P (k, v) → Forall P (move_to_end k v l).
Proof.
  intros Hl Hv. unfold move_to_end. apply Forall_app; split; [by apply assoc_remove_ok|].
  by constructor.
Qed.

Lemma cache_ok_get cc extra chains :
  cache_ok cc → assoc_get extra (scopes cc) = Some chains → Forall (chain_ok extra) chains.
Proof.
  intros Hok Hget. apply assoc_get_elem in Hget.
  unfold cache_ok in Hok. rewrite Forall_forall in Hok. by apply (Hok _ Hget).
Qed.

Lemma longest_loop_spec extra chains sigs best bc n c :
  Forall (chain_ok extra) chains →
  (match bc with
   | None => best = 0
   | Some c => chain_ok extra c ∧ best = lcp (c_signatures c) sigs
   end) →
  longest_loop chains sigs best bc = (n, c) →
  match c with
  | None => n = 0
  | Some c => chain_ok extra c ∧ n = lcp (c_signatures c) sigs
  end.
Proof.
  intros Hok. revert best bc.
  induction Hok as [|c' chains Hc Hok IH]; cbn [longest_loop]; intros best bc Hb.
  { by intros [= <- <-]. }
  rewrite common_prefix_correct.
  destruct (best <? _)%nat; [destruct (_ =? _)%nat|]; [|by apply IH..].
  by intros [= <- <-].
Qed.

Lemma longest_spec extra sigs cc n c cc' :
  cache_ok cc → longest extra sigs cc = (n, c, cc') →
  cache_ok cc' ∧
  match c with
  | None => n = 0
  | Some c => chain_ok extra c ∧ n = lcp (c_signatures c) sigs
  end.
Proof.
  intros Hok. unfold longest. destruct (assoc_get extra (scopes cc)) as [chains|] eqn:Hget;
    [|by intros [= <- <- <-]].
  pose proof (cache_ok_get _ _ _ Hok Hget) as Hchains.
  destruct chains as [|c0 chains]; [by intros [= <- <- <-]|].
  destruct (longest_loop _ sigs 0 None) as [n' c'] eqn:Hl. intros [= <- <- <-]. split.
  - unfold cache_ok. cbn. by apply move_to_end_ok.
  - exact (longest_loop_spec extra _ sigs 0 None n' c' Hchains eq_refl Hl).
Qed.

Lemma Forall_tail {A} (P : A → Prop) (l : list A) : Forall P l → Forall P (tail l).
Proof. by destruct 1. Qed.

Lemma store_ok extra sigs cc :
  cache_ok cc → cache_ok (store extra sigs (ref_keys extra sigs) (ref_parent extra sigs) cc).
Proof.
  intros Hok. unfold store.
  match goal with |- context [let '(_, _) := ?t in _] =>
    destruct t as [chains kept] eqn:Hm end.
  assert (Forall (chain_ok extra) chains ∧
          Forall (λ '(extra, chains), Forall (chain_ok extra) chains) kept) as [Hc Hk].
  { destruct (assoc_get extra (scopes cc)) as [chains'|] eqn:Hget; simplify_eq/=.
    - pose proof (cache_ok_get _ _ _ Hok Hget). split; [done|]. by apply move_to_end_ok.
    - split; [done|].
      assert (Forall (λ '(extra, chains), Forall (chain_ok extra) chains)
                (scopes cc ++ [(extra, [])])) by (apply Forall_app; by repeat constructor).
      destruct (scope_limit cc <? _)%nat; [by apply Forall_tail|done]. }
  unfold cache_ok. cbn. apply Forall_fmap. eapply Forall_impl; [done|].
  intros [e cs] Hcs. cbn. case_bool_decide; [subst|done].
  assert (Forall (chain_ok extra)
    (filter (λ c, common_prefix (c_signatures c) sigs < length (c_signatures c)) chains
     ++ [mkChain sigs (ref_keys extra sigs) (ref_parent extra sigs)])).
  { apply Forall_app; split; [|by repeat constructor].
    rewrite Forall_forall in *. intros c [_ Hin]%list_elem_of_filter. auto. }
  destruct (chain_limit cc <? _)%nat; [by apply Forall_tail|done].
Qed.

Lemma build_prefix_keys_spec hashes model salt group cc :
  cache_ok cc →
  let '(keys, cc') := build_prefix_keys hashes model salt group cc in
  keys = ref_keys (make_extra_hash model salt group) (signature <$> hashes) ∧ cache_ok cc'.
Proof.
  intros Hok. unfold build_prefix_keys. set (extra := make_extra_hash _ _ _).
  destruct (signature <$> hashes) as [|s0 sigs0] eqn:Hs; [done|]. rewrite <- Hs. clear Hs s0 sigs0.
  set (sigs := signature <$> hashes).
  destruct (longest extra sigs cc) as [[shared best] cc1] eqn:Hl.
  apply longest_spec in Hl as [Hok1 Hbest]; [|done].
  match goal with |- context [match best with None => ?x | Some c => @?y c end] =>
    destruct (match best with None => x | Some c => y c end) as [keys parent] eqn:Hkp end.
  assert (keys = ref_keys extra (take shared sigs) ∧
          (shared < length sigs → parent = ref_parent extra (take shared sigs))) as [-> Hparent].
  { destruct best as [c|]; [|by simplify_eq].
    destruct Hbest as [[Hck Hcp] Hsh]. injection Hkp as <- <-.
    assert (take shared (c_signatures c) = take shared sigs) as Heq by (subst; apply lcp_take).
    rewrite Hck, take_ref_keys, Heq. split; [done|]. intros _.
    destruct (c_signatures c !! shared) as [sig|] eqn:Hsig.
    - rewrite (lookup_ref_keys _ _ _ _ Hsig). cbn. by rewrite Heq.
    - apply lookup_ge_None in Hsig. rewrite lookup_ge_None_2 by (rewrite length_ref_keys; lia).
      rewrite Hcp, <- Heq. by rewrite take_ge. }
  destruct (Nat.ltb_spec shared (length sigs)) as [Hlt|Hge].
  - rewrite Hparent by done.
    destruct (extend_chain (ref_parent extra (take shared sigs)) extra (drop shared sigs))
      as [more last] eqn:He.
    assert (ref_keys extra sigs = ref_keys extra (take shared sigs) ++ more) as <-.
    { rewrite <- (take_drop shared sigs) at 1. by rewrite ref_keys_app, He. }
    assert (ref_parent extra sigs = last) as <-.
    { rewrite <- (take_drop shared sigs) at 1. by rewrite ref_parent_app, He. }
    split; [done|]. by apply store_ok.
  - by rewrite take_ge.
Qed.
End Correct.

(** ** Sessions: sequences of calls sharing the module-level cache *)

Record key_call := mkCall {
  k_hashes : list hash_id;
  k_model : pystr;
  k_salt : option pystr;
  k_group : option pystr;
}.

Section Sessions.
Context `{Digest}.

Fixpoint run_calls (calls : list key_call) (cc : ChainCache) :
    list (list PrefixCacheKey) * ChainCache :=
  match calls with
  | [] => ([], cc)
  | c :: calls =>
      let '(keys, cc) := build_prefix_keys (k_hashes c) (k_model c) (k_salt c) (k_group c) cc in
      let '(rest, cc) := run_calls calls cc in (keys :: rest, cc)
  end.

Definition ref_call (c : key_call) : list PrefixCacheKey :=
  ref_keys (make_extra_hash (k_model c) (k_salt c) (k_group c)) (signature <$> k_hashes c).

Lemma run_calls_ok calls cc : cache_ok cc → (run_calls calls cc).1 = ref_call <$> calls.
Proof.
  revert cc. induction calls as [|c calls IH]; intros cc Hok; cbn; [done|].
  pose proof (build_prefix_keys_spec (k_hashes c) (k_model c) (k_salt c) (k_group c) cc Hok) as Hb.
  destruct (build_prefix_keys _ _ _ _ cc) as [keys cc']. destruct Hb as [-> Hok'].
  specialize (IH cc' Hok'). destruct (run_calls calls cc'). cbn in *. by f_equal.
Qed.

(** C28 (equivalence).  Over any sequence of [build_prefix_keys] calls that
    share the module's chain cache, every call returns exactly the keys that
    rebuilding its whole hash chain from the root would give; cached chains,
    their eviction and the binary search are invisible. *)
Theorem build_prefix_keys_rebuild (calls : list key_call) :
  (run_calls calls new_chain_cache).1 = ref_call <$> calls.
Proof. apply run_calls_ok. by constructor. Qed.

(** The cache never exceeds its limits. *)
Record cache_bounded (cc : ChainCache) : Prop := {
  cb_nodup : NoDup (scopes cc).*1;
  cb_scopes : length (scopes cc) ≤ scope_limit cc;
  cb_chains : Forall (λ x, length x.2 ≤ chain_limit cc) (scopes cc);
}.

Lemma assoc_remove_absent {V} k (l : list (pystr * V)) : k ∉ l.*1 → assoc_remove k l = l.
Proof.
  intros Hk. apply filter_all, Forall_forall. intros x Hx <-. apply Hk.
  by apply list_elem_of_fmap_2.
Qed.

Lemma move_to_end_perm {V} k v (l : list (pystr * V)) :
  NoDup l.*1 → assoc_get k l = Some v → move_to_end k v l ≡ₚ l.
Proof.
  induction l as [|[k' v'] l IH]; [done|]. rewrite fmap_cons. cbn [fst assoc_get].
  intros [Hk Hnd]%NoDup_cons. unfold move_to_end, assoc_remove in *. case_bool_decide as Heq.
  - intros [= ->]. subst. rewrite filter_cons_False by (cbn; naive_solver).
    pose proof (assoc_remove_absent k' l Hk) as Hrm. unfold assoc_remove in Hrm. rewrite Hrm.
    by rewrite <- Permutation_cons_append.
  - intros Hget. rewrite filter_cons_True by (cbn; naive_solver).
    rewrite <- app_comm_cons. by rewrite IH.
Qed.

Lemma assoc_get_None {V} k (l : list (pystr * V)) : assoc_get k l = None → k ∉ l.*1.
Proof.
  induction l as [|[k' v'] l IH]; cbn; [set_solver|]. case_bool_decide; [done|]. set_solver.
Qed.

Lemma length_tail_app {A} (l : list A) (x : A) : length (tail (l ++ [x])) = length l.
Proof. destruct l; [done|]. cbn. rewrite length_app. cbn. lia. Qed.

Lemma longest_bounded extra sigs cc : cache_bounded cc → cache_bounded (longest extra sigs cc).2.
Proof.
  intros Hb. unfold longest. destruct (assoc_get extra (scopes cc)) as [[|c chains]|] eqn:Hget;
    [done| |done]. destruct Hb as [Hnd Hs Hc].
  pose proof (move_to_end_perm _ _ _ Hnd Hget) as Hp. split; cbn; by rewrite Hp.
Qed.

Lemma store_bounded extra sigs keys parent cc :
  cache_bounded cc → cache_bounded (store extra sigs keys parent cc).
Proof.
  intros [Hnd Hs Hc]. unfold store.
  match goal with |- context [let '(_, _) := ?t in _] =>
    destruct t as [chains kept] eqn:Hm end.
  assert (NoDup kept.*1 ∧ length kept ≤ scope_limit cc ∧ length chains ≤ chain_limit cc ∧
          Forall (λ x, length x.2 ≤ chain_limit cc) kept) as (Hnd' & Hs' & Hl & Hc').
  { destruct (assoc_get extra (scopes cc)) as [cs|] eqn:Hget; injection Hm as <- <-.
    - pose proof (move_to_end_perm _ _ _ Hnd Hget) as Hp. rewrite Hp. split_and!; try done.
      rewrite Forall_forall in Hc. apply assoc_get_elem in Hget. by apply (Hc _ Hget).
    - apply assoc_get_None in Hget.
      assert (NoDup (scopes cc ++ [(extra, [] : list chain)]).*1).
      { rewrite fmap_app. apply NoDup_app. split_and!; [done| |apply NoDup_singleton].
        intros x Hx. cbn. set_solver. }
      assert (Forall (λ x : pystr * list chain, length x.2 ≤ chain_limit cc)
                (scopes cc ++ [(extra, [])])).
      { apply Forall_app; split; [done|]. repeat constructor. cbn. lia. }
      destruct (Nat.ltb_spec (scope_limit cc) (length (scopes cc ++ [(extra, [] : list chain)]))).
      + rewrite length_tail_app. split_and!; [|lia|cbn; lia|by apply Forall_tail].
        destruct (scopes cc ++ _); cbn in *; [constructor|by eapply NoDup_cons_1_2].
      + split_and!; try done. cbn; lia. }
  set (new := if (chain_limit cc <? _)%nat then _ else _).
  assert (length new ≤ chain_limit cc) as Hnew.
  { unfold new. set (fl := filter _ chains).
    assert (length fl ≤ length chains) by apply length_filter.
    destruct (Nat.ltb_spec (chain_limit cc) (length (fl ++ [mkChain sigs keys parent])));
      [rewrite length_tail_app; lia|done]. }
  split; cbn.
  - rewrite <- list_fmap_compose. erewrite list_fmap_ext; [exact Hnd'|].
    intros i [e cs] _. cbn. by case_bool_decide; subst.
  - by rewrite length_fmap.
  - apply Forall_fmap. eapply Forall_impl; [exact Hc'|]. intros [e cs]. cbn.
    by case_bool_decide.
Qed.

Lemma build_bounded hashes model salt group cc :
  cache_bounded cc → cache_bounded (build_prefix_keys hashes model salt group cc).2.
Proof.
  intros Hb. unfold build_prefix_keys. destruct (signature <$> hashes) as [|s sigs]; [done|].
  pose proof (longest_bounded (make_extra_hash model salt group) (s :: sigs) cc Hb) as Hl.
  destruct (longest _ _ cc) as [[n c] cc']. cbn in Hl.
  repeat case_match; simplify_eq/=; try done; by apply store_bounded.
Qed.

Lemma build_limits hashes model salt group cc :
  scope_limit (build_prefix_keys hashes model salt group cc).2 = scope_limit cc ∧
  chain_limit (build_prefix_keys hashes model salt group cc).2 = chain_limit cc.
Proof.
  unfold build_prefix_keys. destruct (signature <$> hashes) as [|s sigs]; [done|].
  assert (∀ e l, scope_limit (longest e l cc).2 = scope_limit cc ∧
                 chain_limit (longest e l cc).2 = chain_limit cc) as Hl.
  { intros e l. unfold longest. by destruct (assoc_get e (scopes cc)) as [[|??]|]. }
  specialize (Hl (make_extra_hash model salt group) (s :: sigs)).
  destruct (longest _ _ cc) as [[n c] cc']. cbn in Hl.
  assert (∀ e l k p, scope_limit (store e l k p cc') = scope_limit cc' ∧
                     chain_limit (store e l k p cc') = chain_limit cc') as Hs.
  { intros. unfold store. by destruct (assoc_get e (scopes cc')). }
  repeat case_match; simplify_eq/=; rewrite ?(proj1 (Hs _ _ _ _)), ?(proj2 (Hs _ _ _ _)); done.
Qed.

(** However many calls are made, the chain cache holds at most
    1024 scopes and at most 4 chains per scope. *)
Theorem chain_cache_bounded (calls : list key_call) :
  let cc := (run_calls calls new_chain_cache).2 in
  length (scopes cc) ≤ 1024 ∧ Forall (λ x, length x.2 ≤ 4) (scopes cc).
Proof.
  assert (∀ cc, cache_bounded cc → scope_limit cc = 1024 → chain_limit cc = 4 →
    let cc' := (run_calls calls cc).2 in
    cache_bounded cc' ∧ scope_limit cc' = 1024 ∧ chain_limit cc' = 4) as Hgen.
  { induction calls as [|c calls IH]; intros cc Hb H1 H2; [done|]. cbn.
    pose proof (build_bounded (k_hashes c) (k_model c) (k_salt c) (k_group c) cc Hb) as Hb'.
    pose proof (build_limits (k_hashes c) (k_model c) (k_salt c) (k_group c) cc) as [Hl1 Hl2].
    destruct (build_prefix_keys _ _ _ _ cc) as [keys cc']. cbn in *.
    specialize (IH cc' Hb'). destruct (run_calls calls cc'). cbn in *. apply IH; congruence. }
  destruct (Hgen new_chain_cache) as ([_ H1 H2] & Hs & Hc); [|done|done|].
  - split; cbn; [constructor|lia|constructor].
  - cbn. rewrite Hs in H1. rewrite Hc in H2. done.
Qed.
End Sessions.

(** ** Equal keys mean equal content

    JSON quoting is injective on strings without surrogate code points, so with
    a collision-free digest a prefix-cache key determines the whole sequence of
    signatures before it. *)

Definition valid_char (c : N) : Prop := (c < 1114112 ∧ ¬ (55296 ≤ c ≤ 57343))%N.
Definition valid_str (s : pystr) : Prop := Forall valid_char s.

(** The two-character escapes. *)
Definition escape (c : N) : option N :=
  if (c =? 34)%N then Some 34%N else if (c =? 92)%N then Some 92%N
  else if (c =? 10)%N then Some 110%N else if (c =? 13)%N then Some 114%N
  else if (c =? 9)%N then Some 116%N else if (c =? 12)%N then Some 102%N
  else if (c =? 8)%N then Some 98%N else None.

Lemma quote_char_view c :
  quote_char c =
  match escape c with
  | Some x => [92%N; x]
  | None =>
      if ((32 <=? c) && (c <=? 126))%N then [c]
      else if (c <? 65536)%N then 92%N :: 117%N :: hex4 c
      else 92%N :: 117%N :: hex4 (55296 + (c - 65536) / 1024)%N ++
           92%N :: 117%N :: hex4 (56320 + (c - 65536) mod 1024)%N
  end.
Proof. unfold quote_char, escape. by repeat case_match. Qed.

Lemma escape_inj c c' x : escape c = Some x → escape c' = Some x → c = c'.
Proof.
  unfold escape. repeat case_match; intros; simplify_eq; try done;
    repeat match goal with H : (_ =? _)%N = true |- _ => apply N.eqb_eq in H end; congruence.
Qed.

Lemma escape_not_u c : escape c ≠ Some 117%N.
Proof. unfold escape. by repeat case_match. Qed.

Lemma escape_None c : escape c = None → c ≠ 34%N ∧ c ≠ 92%N.
Proof.
  unfold escape. repeat case_match; intros; simplify_eq.
  repeat match goal with H : (_ =? _)%N = false |- _ => apply N.eqb_neq in H end. done.
Qed.

Lemma hex_digit_inj a b : (a < 16)%N → (b < 16)%N → hex_digit a = hex_digit b → a = b.
Proof.
  unfold hex_digit. destruct (N.ltb_spec a 10), (N.ltb_spec b 10); lia.
Qed.

Lemma hex4_value n :
  (n < 65536)%N →
  n = (4096 * (n / 4096 mod 16) + 256 * (n / 256 mod 16) + 16 * (n / 16 mod 16) + n mod 16)%N.
Proof.
  intros Hn.
  assert (n = 16 * (n / 16) + n mod 16)%N as H0 by (by apply N.div_mod).
  assert (n / 16 = 16 * (n / 16 / 16) + (n / 16) mod 16)%N as H1 by (by apply N.div_mod).
  assert (n / 256 = 16 * (n / 256 / 16) + (n / 256) mod 16)%N as H2 by (by apply N.div_mod).
  rewrite N.Div0.div_div in H1, H2. change (16 * 16)%N with 256%N in H1.
  change (256 * 16)%N with 4096%N in H2.
  rewrite (N.mod_small (n / 4096)); [lia|]. by apply N.Div0.div_lt_upper_bound.
Qed.

Lemma hex4_prefix a b r r' :
  (a < 65536)%N → (b < 65536)%N → hex4 a ++ r = hex4 b ++ r' → a = b ∧ r = r'.
Proof.
  intros Ha Hb. unfold hex4. cbn. intros [= H1 H2 H3 H4 ->].
  apply hex_digit_inj in H1; [|apply N.mod_lt; lia..].
  apply hex_digit_inj in H2; [|apply N.mod_lt; lia..].
  apply hex_digit_inj in H3; [|apply N.mod_lt; lia..].
  apply hex_digit_inj in H4; [|apply N.mod_lt; lia..].
  split; [|done]. rewrite (hex4_value a), (hex4_value b) by done. congruence.
Qed.

Lemma quote_char_head c : ∃ h t, quote_char c = h :: t ∧ h ≠ 34%N.
Proof.
  rewrite quote_char_view. destruct (escape c) eqn:He; [by repeat eexists|].
  apply escape_None in He as [??]. repeat case_match; by repeat eexists.
Qed.

(** The surrogate halves of a supplementary code point. *)
Lemma surrogate_bounds c :
  (65536 <= c < 1114112)%N →
  (55296 <= 55296 + (c - 65536) / 1024 <= 56319 ∧
   56320 <= 56320 + (c - 65536) mod 1024 <= 57343)%N.
Proof.
  intros Hc. assert ((c - 65536) mod 1024 < 1024)%N as Hm by (by apply N.mod_lt).
  assert ((c - 65536) / 1024 < 1024)%N as Hd by (apply N.Div0.div_lt_upper_bound; lia).
  revert Hm Hd. generalize ((c - 65536) mod 1024)%N, ((c - 65536) / 1024)%N. lia.
Qed.

Lemma surrogate_inj c c' :
  (65536 <= c)%N → (65536 <= c')%N →
  (55296 + (c - 65536) / 1024 = 55296 + (c' - 65536) / 1024)%N →
  (56320 + (c - 65536) mod 1024 = 56320 + (c' - 65536) mod 1024)%N → c = c'.
Proof.
  intros ?? H1 H2. apply (f_equal (λ n, n - 55296)%N) in H1. apply (f_equal (λ n, n - 56320)%N) in H2.
  rewrite !(N.add_comm 55296), !N.add_sub in H1. rewrite !(N.add_comm 56320), !N.add_sub in H2.
  assert (c - 65536 = c' - 65536)%N; [|lia].
  rewrite (N.div_mod (c - 65536) 1024), (N.div_mod (c' - 65536) 1024) by done. congruence.
Qed.

Lemma quote_char_prefix c c' r r' :
  valid_char c → valid_char c' → quote_char c ++ r = quote_char c' ++ r' → c = c' ∧ r = r'.
Proof.
  intros [Hc Hs] [Hc' Hs']. rewrite !quote_char_view.
  destruct (escape c) as [x|] eqn:He, (escape c') as [x'|] eqn:He'.
  - cbn. intros [= -> ->]. split; [by eapply escape_inj|done].
  - pose proof (escape_not_u c). apply escape_None in He' as [??].
    repeat case_match; cbn; intros; simplify_eq; congruence.
  - pose proof (escape_not_u c'). apply escape_None in He as [??].
    repeat case_match; cbn; intros; simplify_eq; congruence.
  - apply escape_None in He as [??], He' as [??].
    destruct ((32 <=? c) && (c <=? 126))%N eqn:Hp, ((32 <=? c') && (c' <=? 126))%N eqn:Hp'.
    + cbn. by intros [= -> ->].
    + destruct (c' <? 65536)%N; cbn; intros; simplify_eq; congruence.
    + destruct (c <? 65536)%N; cbn; intros; simplify_eq; congruence.
    + destruct (N.ltb_spec c 65536), (N.ltb_spec c' 65536);
        intros Heq%(f_equal (drop 2)); cbn [app drop] in Heq.
      * by apply hex4_prefix in Heq.
      * rewrite <- app_assoc in Heq. pose proof (surrogate_bounds c').
        apply hex4_prefix in Heq as [Heq _]; [|lia..]. exfalso. lia.
      * rewrite <- app_assoc in Heq. pose proof (surrogate_bounds c).
        apply hex4_prefix in Heq as [Heq _]; [|lia..]. exfalso. lia.
      * rewrite <- !app_assoc in Heq.
        pose proof (surrogate_bounds c). pose proof (surrogate_bounds c').
        apply hex4_prefix in Heq as [H1' Heq]; [|lia..].
        apply (f_equal (drop 2)) in Heq. cbn [app drop] in Heq. apply hex4_prefix in Heq as [H2' Heq]; [|lia..].
        split; [by apply surrogate_inj|done].
Qed.

Lemma quote_prefix s s' r r' :
  valid_str s → valid_str s' → quote s ++ r = quote s' ++ r' → s = s' ∧ r = r'.
Proof.
  unfold quote. intros Hs Hs'. cbn [app]. rewrite <- !app_assoc. cbn [app]. intros [= Heq].
  revert s' Hs' Heq. induction Hs as [|c s Hc Hs IH]; intros s' Hs'.
  - destruct Hs' as [|c' s' Hc' Hs']; [by intros [= ->]|].
    destruct (quote_char_head c') as (h & t & Hq & Hh). cbn. rewrite Hq. cbn. congruence.
  - destruct Hs' as [|c' s' Hc' Hs'].
    + destruct (quote_char_head c) as (h & t & Hq & Hh). cbn. rewrite Hq. cbn. congruence.
    + rewrite !bind_cons, <- !app_assoc. intros [-> Heq]%quote_char_prefix; [|done..].
      by destruct (IH s' Hs' Heq) as [-> ->].
Qed.

Definition valid_opt (s : option pystr) : Prop := from_option valid_str True s.

Record valid_call (c : key_call) : Prop := {
  vc_hashes : Forall valid_str (signature <$> k_hashes c);
  vc_model : valid_str (k_model c);
  vc_salt : valid_opt (k_salt c);
  vc_group : valid_opt (k_group c);
}.

Lemma dump_opt_prefix s s' r r' :
  valid_opt s → valid_opt s' → dump_opt s ++ r = dump_opt s' ++ r' → s = s' ∧ r = r'.
Proof.
  destruct s as [s|], s' as [s'|]; cbn [dump_opt valid_opt from_option]; intros Hs Hs' Heq.
  - by apply quote_prefix in Heq as [-> ->].
  - by apply (f_equal head) in Heq.
  - by apply (f_equal head) in Heq.
  - split; [done|]. by apply app_inv_head in Heq.
Qed.

Section KeyInjectivity.
Context `{Digest}.
(** SHA-256 is collision free, and a hex digest is a valid string. *)
Hypothesis digest_inj : ∀ s s', sha256_hexdigest s = sha256_hexdigest s' → s = s'.
Hypothesis digest_valid : ∀ s, valid_str (sha256_hexdigest s).

Lemma chain_hash_inj p s e p' s' e' :
  valid_str p → valid_str s → valid_str e → valid_str p' → valid_str s' → valid_str e' →
  chain_hash p s (quote e) = chain_hash p' s' (quote e') → p = p' ∧ s = s' ∧ e = e'.
Proof.
  intros ?????? Heq%digest_inj. unfold field in Heq. rewrite <- !app_assoc in Heq.
  apply app_inv_head, app_inv_head, app_inv_head in Heq.
  apply quote_prefix in Heq as [-> Heq]; [|done..].
  apply app_inv_head, app_inv_head, app_inv_head in Heq.
  apply quote_prefix in Heq as [-> Heq]; [|done..].
  apply app_inv_head, app_inv_head, app_inv_head in Heq.
  by apply quote_prefix in Heq as [-> _].
Qed.

Lemma root_hash_inj e e' :
  valid_str e → valid_str e' → make_root_parent_hash e = make_root_parent_hash e' → e = e'.
Proof.
  intros ?? Heq%digest_inj. unfold field in Heq. rewrite <- !app_assoc in Heq.
  apply app_inv_head, app_inv_head, app_inv_head in Heq.
  by apply quote_prefix in Heq as [-> _].
Qed.

Lemma root_not_chain e p s q : make_root_parent_hash e ≠ chain_hash p s q.
Proof. intros Heq%digest_inj. by apply (f_equal (λ l, l !! 2)) in Heq. Qed.

Lemma ref_parent_snoc e s x :
  ref_parent e (s ++ [x]) = chain_hash (ref_parent e s) x (quote e).
Proof. by rewrite ref_parent_app. Qed.

Lemma ref_parent_valid e s : valid_str (ref_parent e s).
Proof.
  destruct s as [|x s _] using rev_ind; [apply digest_valid|].
  rewrite ref_parent_snoc. apply digest_valid.
Qed.

Lemma ref_parent_inj e e' s s' :
  valid_str e → valid_str e' → Forall valid_str s → Forall valid_str s' →
  ref_parent e s = ref_parent e' s' → e = e' ∧ s = s'.
Proof.
  intros He He'. revert s'.
  induction s as [|x s IH] using rev_ind; intros s'; destruct s' as [|x' s' _] using rev_ind.
  - intros _ _ Heq%root_hash_inj; done.
  - rewrite ref_parent_snoc. intros _ _ Heq. by apply root_not_chain in Heq.
  - rewrite ref_parent_snoc. intros _ _ Heq. symmetry in Heq. by apply root_not_chain in Heq.
  - rewrite !ref_parent_snoc, !Forall_app, !Forall_singleton. intros [??] [??] Heq.
    apply chain_hash_inj in Heq as (Heq & -> & ->); try done; try apply ref_parent_valid.
    by apply IH in Heq as [_ ->].
Qed.

Lemma extra_hash_inj m s g m' s' g' :
  valid_str m → valid_opt s → valid_opt g → valid_str m' → valid_opt s' → valid_opt g' →
  make_extra_hash m s g = make_extra_hash m' s' g' → m = m' ∧ s = s' ∧ g = g'.
Proof.
  intros ?????? Heq%digest_inj. unfold field in Heq. rewrite <- !app_assoc in Heq.
  apply app_inv_head, app_inv_head, app_inv_head in Heq.
  apply dump_opt_prefix in Heq as [-> Heq]; [|done..].
  apply app_inv_head, app_inv_head, app_inv_head in Heq.
  apply quote_prefix in Heq as [-> Heq]; [|done..].
  apply app_inv_head, app_inv_head, app_inv_head in Heq.
  by apply dump_opt_prefix in Heq as [-> _].
Qed.

(** C29 (safety).  With a collision-free digest, two requests that produce the
    same prefix-cache key produce it at the same block index, for the same
    model, cache salt and reuse group, and agree on every block signature up
    to and including that block: a cache hit never mixes contents. *)
Theorem prefix_key_determines_content c c' i j key :
  valid_call c → valid_call c' →
  ref_call c !! i = Some key → ref_call c' !! j = Some key →
  i = j ∧
  take (S i) (signature <$> k_hashes c) = take (S j) (signature <$> k_hashes c') ∧
  k_model c = k_model c' ∧ k_salt c = k_salt c' ∧ k_group c = k_group c'.
Proof.
  intros [Hs Hm Hsa Hg] [Hs' Hm' Hsa' Hg'] Hi Hj. unfold ref_call in *.
  set (sigs := signature <$> k_hashes c) in *. set (sigs' := signature <$> k_hashes c') in *.
  destruct (sigs !! i) as [s|] eqn:Hsi;
    [|apply lookup_ge_None in Hsi; apply lookup_lt_Some in Hi; rewrite length_ref_keys in Hi; lia].
  destruct (sigs' !! j) as [s'|] eqn:Hsj;
    [|apply lookup_ge_None in Hsj; apply lookup_lt_Some in Hj; rewrite length_ref_keys in Hj; lia].
  rewrite (lookup_ref_keys _ _ _ _ Hsi) in Hi. rewrite (lookup_ref_keys _ _ _ _ Hsj) in Hj.
  simplify_eq. rename select (ref_parent _ _ = ref_parent _ _) into Hp.
  rename select (make_extra_hash _ _ _ = make_extra_hash _ _ _) into He.
  apply ref_parent_inj in Hp as [_ Htake]; [|by (apply digest_valid || apply Forall_take)..].
  apply lookup_lt_Some in Hsi as Hli. apply lookup_lt_Some in Hsj as Hlj.
  assert (i = j) as ->.
  { apply (f_equal length) in Htake. rewrite !length_take in Htake. lia. }
  split; [done|]. split; [|by apply extra_hash_inj in He].
  rewrite (take_S_r _ _ _ Hsi), (take_S_r _ _ _ Hsj). by rewrite Htake.
Qed.
End KeyInjectivity.

(** A concrete collision-free digest: code points in unary over two digits. *)
Definition unary_digest : Digest := λ s, s ≫= λ c, replicate (N.to_nat c) 48%N ++ [49%N].

Lemma unary_digest_inj s s' : unary_digest s = unary_digest s' → s = s'.
Proof.
  unfold unary_digest. revert s'. induction s as [|c s IH]; intros [|c' s']; [done|..].
  - rewrite bind_cons. by destruct (N.to_nat c').
  - rewrite bind_cons. by destruct (N.to_nat c).
  - rewrite !bind_cons, <- !app_assoc. intros Heq.
    assert (N.to_nat c = N.to_nat c' ∧ s ≫= (λ c, replicate (N.to_nat c) 48%N ++ [49%N]) =
            s' ≫= (λ c, replicate (N.to_nat c) 48%N ++ [49%N])) as [Hc Hs].
    { revert Heq. generalize (N.to_nat c), (N.to_nat c'). intros n m. revert m.
      induction n as [|n IHn]; intros [|m]; cbn; intros Heq; simplify_eq; [done|].
      split; [f_equal|]; by eapply IHn. }
    apply N2Nat.inj in Hc as ->. f_equal. by apply IH.
Qed.

Lemma unary_digest_valid s : valid_str (unary_digest s).
Proof.
  unfold valid_str, unary_digest. apply Forall_forall. intros d.
  rewrite list_elem_of_bind. intros (c & Hd & _).
  apply elem_of_app in Hd as [[-> _]%elem_of_replicate|Hd%list_elem_of_singleton];
    [|subst d]; split; lia.
Qed.

Lemma str_valid_dec s : (forallb (λ c, (c <? 55296)%N) s = true) → valid_str s.
Proof.
  intros Hs. apply Forall_forall. intros c Hc. rewrite forallb_forall in Hs.
  apply list_elem_of_In, Hs, N.ltb_lt in Hc. split; lia.
Qed.

Lemma strs_valid_dec l :
  forallb (forallb (λ c, (c <? 55296)%N)) l = true → Forall valid_str l.
Proof.
  intros Hl. apply Forall_forall. intros s Hs. rewrite forallb_forall in Hl.
  by apply str_valid_dec, Hl, list_elem_of_In.
Qed.

(** Two turns of one conversation share the key of their second block. *)
Lemma prefix_key_determines_content_witness :
  let _ : Digest := unary_digest in
  let turn1 := mkCall [HInt 11; HStr (lit "ab"); HInt (-3)] (lit "m") None (Some (lit "g")) in
  let turn2 := mkCall [HInt 11; HStr (lit "ab")] (lit "m") None (Some (lit "g")) in
  ∃ key, ref_call turn1 !! 1 = Some key ∧ ref_call turn2 !! 1 = Some key ∧
    take 2 (signature <$> k_hashes turn1) = take 2 (signature <$> k_hashes turn2).
Proof.
  intros dig turn1 turn2.
  eexists. split; [reflexivity|]. split; [reflexivity|].
  eapply (@prefix_key_determines_content dig unary_digest_inj unary_digest_valid
            turn1 turn2 1 1); [..|reflexivity|reflexivity].
  - split; [apply strs_valid_dec|apply str_valid_dec|exact I|apply str_valid_dec]; reflexivity.
  - split; [apply strs_valid_dec|apply str_valid_dec|exact I|apply str_valid_dec]; reflexivity.
Defined.
