(* ===== verification/Request.v ===== *)
(** * Requests ([TokenSim/llm/llm_request.py], [TokenSim/llm/request_time.py])

    A request carries its lengths, its prefix-cache and admission accounting,
    the per-step scheduling state and the online timing aggregates.  The record
    below has the fields the cache, the schedulers and the workers read or
    write; routing histograms and trace provenance are carried by the source
    untouched and are left out.  Times are binary64 floats; [env.now] is an
    argument. *)

From stdpp Require Import gmap list.
From Stdlib Require Import ZArith Lia.
From S2P Require Import Prelude.
From S2P Require Import Block.
From S2P Require Import PrefixKeys.
From S2P Require Import PyFloat.

Open Scope Z_scope.

Inductive RequestStatus :=
  | WAITING | RUNNING | WAITING_FOR_KV | WAITING_FOR_CONNECTOR_FREE
  | FINISHED_STOPPED | FINISHED_LENGTH_CAPPED | CANCEL_PENDING | FINISHED_CANCELLED.

#[global] Instance RequestStatus_eq_dec : EqDecision RequestStatus.
Proof. solve_decision. Defined.

Record PrefillSourceStats := mkSource {
  input_tokens : Z;
  gpu_hit_tokens : Z;
  cpu_hit_tokens : Z;
}.

Definition computed_tokens (p : PrefillSourceStats) : Z :=
  input_tokens p - gpu_hit_tokens p - cpu_hit_tokens p.

(** A simulation event, as far as the request uses it: whether it triggered. *)
Inductive Event := Pending | Triggered.

#[global] Instance Event_eq_dec : EqDecision Event.
Proof. solve_decision. Defined.

Record Request := mkRequest {
  req_id : Z;
  prefill_len : Z;
  decode_len : Z;
  req_block_size : Z;
  hash_ids : option (list hash_id);
  output_hash_ids : option (list hash_id);
  cache_salt : option pystr;
  reuse_group : option pystr;
  record_timing : bool;
  cached_prefill_blocks : Z;
  cached_prefill_tokens : Z;
  gpu_cached_prefill_tokens : Z;
  external_cached_prefill_tokens : Z;
  gpu_cached_context_tokens : Z;
  external_cached_context_tokens : Z;
  first_prefill_source : option PrefillSourceStats;
  prefill_admission_count : Z;
  reloaded_gpu_tokens : Z;
  reloaded_cpu_tokens : Z;
  reloaded_generated_gpu_tokens : Z;
  reloaded_generated_cpu_tokens : Z;
  effective_prefill_tokens : option Z;
  reuse_hit_blocks : Z;
  reuse_miss_blocks : Z;
  input_cache_committed : bool;
  input_cache_keys : list cache_key;
  generation_idx : Z;
  needs_recompute : bool;
  recompute_tokens : Z;
  recomputation_count : Z;
  recomputed_tokens_total : Z;
  recompute_service_time : pyfloat;
  status : RequestStatus;
  arrival_at : option pyfloat;
  completed_at : option pyfloat;
  total_time : pyfloat;
  prefill_latency : pyfloat;
  decode_time_sum : pyfloat;
  decode_time_max : pyfloat;
  prefill_service_time : pyfloat;
  decode_service_time_sum : pyfloat;
  prefill_batch_size : pyfloat;
  decode_batch_sum : pyfloat;
  num_computed_tokens : Z;
  scheduled_tokens : Z;
  scheduled_query_tokens : Z;
  scheduled_accepted_tokens : Z;
  decode_round : Z;
  scheduled_placeholder_tokens : Z;
  prefill_chunk_pending : bool;
  max_model_len : option Z;
  cancel_requested : bool;
  cancel_requested_at : option pyfloat;
  cancelled_at : option pyfloat;
  owner_worker_ids : gset Z;
  cancel_pending_worker_ids : gset Z;
  prefill_chunks : Z;
  physical_token_blocks : list bref;
  logical_tokens : Z;
  last_event_at : pyfloat;
  completion_event : option Event;
  cancellation_event : option Event;
  cache_identity : Z;
  trace_hash_ids : option (list hash_id);
  trace_block_size : option Z;
  shared_prefix_boundaries : list Z;
}.

#[global] Instance eta_request : Eta Request := λ r,
  mkRequest
    (req_id r) (prefill_len r) (decode_len r) (req_block_size r) (hash_ids r)
    (output_hash_ids r) (cache_salt r) (reuse_group r) (record_timing r)
    (cached_prefill_blocks r) (cached_prefill_tokens r) (gpu_cached_prefill_tokens r)
    (external_cached_prefill_tokens r) (gpu_cached_context_tokens r)
    (external_cached_context_tokens r) (first_prefill_source r)
    (prefill_admission_count r) (reloaded_gpu_tokens r) (reloaded_cpu_tokens r)
    (reloaded_generated_gpu_tokens r) (reloaded_generated_cpu_tokens r)
    (effective_prefill_tokens r) (reuse_hit_blocks r) (reuse_miss_blocks r)
    (input_cache_committed r) (input_cache_keys r) (generation_idx r)
    (needs_recompute r) (recompute_tokens r) (recomputation_count r)
    (recomputed_tokens_total r) (recompute_service_time r) (status r) (arrival_at r)
    (completed_at r) (total_time r) (prefill_latency r) (decode_time_sum r)
    (decode_time_max r) (prefill_service_time r) (decode_service_time_sum r)
    (prefill_batch_size r) (decode_batch_sum r) (num_computed_tokens r)
    (scheduled_tokens r) (scheduled_query_tokens r) (scheduled_accepted_tokens r)
    (decode_round r) (scheduled_placeholder_tokens r) (prefill_chunk_pending r)
    (max_model_len r) (cancel_requested r) (cancel_requested_at r) (cancelled_at r)
    (owner_worker_ids r) (cancel_pending_worker_ids r) (prefill_chunks r)
    (physical_token_blocks r) (logical_tokens r) (last_event_at r) (completion_event r)
    (cancellation_event r) (cache_identity r) (trace_hash_ids r) (trace_block_size r)
    (shared_prefix_boundaries r).

(** [Request(id, prefill_len, decode_len, block_size, ...)] with [__post_init__] *)
Definition append_tokens (num_tokens : Z) (r : Request) : Request :=
  if num_tokens >? 0 then r <| logical_tokens ::= Z.add num_tokens |> else r.

Definition new_request (id prefill decode bs : Z) (hashes out_hashes : option (list hash_id))
    (salt group : option pystr) : Request :=
  append_tokens prefill
    (mkRequest id prefill decode bs hashes out_hashes salt group true
       0 0 0 0 0 0 None 0 0 0 0 0 (Some prefill) 0 0 false [] 0 false 0 0 0 f0 WAITING
       None None f0 f0 f0 f0 f0 f0 f0 f0 0 0 0 0 0 0 false None false None None ∅ ∅ 0
       [] 0 f0 None None 0 None None []).

#[global] Instance request_inhabited : Inhabited Request :=
  populate (new_request 0 0 0 1 None None None None).

(** ** Properties *)

Definition prefill_compute_len (r : Request) : Z :=
  match effective_prefill_tokens r with None => prefill_len r | Some n => n end.

Definition is_prefill (r : Request) : bool := generation_idx r =? 0.

Definition context_len (r : Request) : Z := prefill_len r + generation_idx r.

Definition length_capped (r : Request) : bool :=
  match max_model_len r with None => false | Some m => m <=? context_len r end.

Definition is_done (r : Request) : bool :=
  negb (cancel_requested r) && ((decode_len r <=? generation_idx r) || length_capped r).

Definition remaining_context_tokens (r : Request) : Z :=
  Z.max 0 (context_len r - num_computed_tokens r).

Definition is_context_build (r : Request) : bool := is_prefill r || needs_recompute r.

Definition is_prompt_prefilling (r : Request) : bool :=
  is_context_build r && (num_computed_tokens r <? prefill_len r).

(** Python's [a or b] on integers *)
Definition int_or (a b : Z) : Z := if a =? 0 then b else a.

Definition step_tokens (r : Request) : Z :=
  int_or (scheduled_tokens r) (Z.max 1 (remaining_context_tokens r)).

Definition query_tokens (r : Request) : Z :=
  int_or (scheduled_query_tokens r) (step_tokens r).

Definition decode_graph_eligible (r : Request) : bool :=
  negb (is_prompt_prefilling r) || ((step_tokens r =? 1) && (0 <? num_computed_tokens r)).

Definition logits_tokens (r : Request) : Z :=
  if is_context_build r then 1 + scheduled_placeholder_tokens r else query_tokens r.

Definition num_physical_token_blocks (r : Request) : Z :=
  Z.of_nat (length (physical_token_blocks r)).

(** [-(-tokens // block_size)] *)
Definition num_logical_token_blocks (r : Request) : Z :=
  - (- logical_tokens r / req_block_size r).

(** ** Cancellation *)

(** [event.succeed()] guarded by [not event.triggered] *)
Definition succeed (e : option Event) : option Event :=
  match e with None => None | Some _ => Some Triggered end.

Definition request_cancel (now : pyfloat) (r : Request) : Request :=
  let r := match cancellation_event r with
           | None => r <| cancellation_event := Some Pending |>
           | Some _ => r
           end in
  if is_done r then r <| cancellation_event ::= succeed |>
  else if cancel_requested r then r
  else
    r <| cancel_requested := true |> <| cancel_requested_at := Some now |>
      <| status := CANCEL_PENDING |> <| cancel_pending_worker_ids := owner_worker_ids r |>.

Definition acknowledge_cancel (now : pyfloat) (worker_id : option Z) (r : Request) : Request :=
  if negb (cancel_requested r) then r
  else
    let r := match worker_id with
             | None => r
             | Some w => r <| cancel_pending_worker_ids ::= λ s, s ∖ {[w]} |>
             end in
    if negb (bool_decide (cancel_pending_worker_ids r = ∅)) ||
       bool_decide (is_Some (cancelled_at r)) then r
    else
      r <| cancelled_at := Some now |> <| status := FINISHED_CANCELLED |>
        <| completion_event ::= succeed |> <| cancellation_event ::= succeed |>.

(** ** Admission accounting *)

Definition start_context_build (cached_tokens : Z) (r : Request) : Request :=
  r <| num_computed_tokens := Z.min (Z.max 0 cached_tokens) (Z.max 0 (context_len r - 1)) |>
    <| scheduled_tokens := 0 |> <| scheduled_query_tokens := 0 |>
    <| scheduled_placeholder_tokens := 0 |>.

Definition record_prefill_admission (gpu cpu : Z) : M Request unit :=
  r ← gets id;
  if (Z.min gpu cpu <? 0) || (prefill_len r <? gpu + cpu) then raise SimulationStateError
  else
    (match first_prefill_source r with
     | None => modify (λ r, r <| first_prefill_source := Some (mkSource (prefill_len r) gpu cpu) |>)
     | Some _ => modify (λ r, r <| reloaded_gpu_tokens ::= Z.add gpu |>
                               <| reloaded_cpu_tokens ::= Z.add cpu |>)
     end) ;;
    modify (λ r, r <| prefill_admission_count ::= Z.succ |>).

Definition record_context_admission (gpu cpu : Z) : M Request unit :=
  r ← gets id;
  if (Z.min gpu cpu <? 0) || (context_len r <=? gpu + cpu) then raise SimulationStateError
  else
    let prompt_gpu := Z.min gpu (prefill_len r) in
    let prompt_cpu := Z.min cpu (Z.max 0 (prefill_len r - prompt_gpu)) in
    let cached := prompt_gpu + prompt_cpu in
    modify (λ r, r <| gpu_cached_context_tokens := gpu |>
      <| external_cached_context_tokens := cpu |>
      <| gpu_cached_prefill_tokens := prompt_gpu |>
      <| external_cached_prefill_tokens := prompt_cpu |>
      <| cached_prefill_tokens := cached |>
      <| cached_prefill_blocks := cached / req_block_size r |>
      <| effective_prefill_tokens := Some (prefill_len r - cached) |>
      <| reloaded_generated_gpu_tokens ::= Z.add (gpu - prompt_gpu) |>
      <| reloaded_generated_cpu_tokens ::= Z.add (cpu - prompt_cpu) |>) ;;
    record_prefill_admission prompt_gpu prompt_cpu.

(** [_ADMISSION_FIELDS] and [admission_state]: the snapshot of the fields an
    admission writes. *)
Record AdmissionState := mkAdmission {
  as_status : RequestStatus;
  as_num_computed_tokens : Z;
  as_scheduled_tokens : Z;
  as_scheduled_query_tokens : Z;
  as_scheduled_placeholder_tokens : Z;
  as_recompute_tokens : Z;
  as_cached_prefill_blocks : Z;
  as_cached_prefill_tokens : Z;
  as_gpu_cached_prefill_tokens : Z;
  as_external_cached_prefill_tokens : Z;
  as_gpu_cached_context_tokens : Z;
  as_external_cached_context_tokens : Z;
  as_effective_prefill_tokens : option Z;
  as_reuse_hit_blocks : Z;
  as_reuse_miss_blocks : Z;
  as_input_cache_keys : list cache_key;
  as_input_cache_committed : bool;
  as_first_prefill_source : option PrefillSourceStats;
  as_prefill_admission_count : Z;
  as_reloaded_gpu_tokens : Z;
  as_reloaded_cpu_tokens : Z;
  as_reloaded_generated_gpu_tokens : Z;
  as_reloaded_generated_cpu_tokens : Z;
}.

Definition admission_state (r : Request) : AdmissionState :=
  mkAdmission (status r) (num_computed_tokens r) (scheduled_tokens r)
    (scheduled_query_tokens r) (scheduled_placeholder_tokens r) (recompute_tokens r)
    (cached_prefill_blocks r) (cached_prefill_tokens r) (gpu_cached_prefill_tokens r)
    (external_cached_prefill_tokens r) (gpu_cached_context_tokens r)
    (external_cached_context_tokens r) (effective_prefill_tokens r) (reuse_hit_blocks r)
    (reuse_miss_blocks r) (input_cache_keys r) (input_cache_committed r)
    (first_prefill_source r) (prefill_admission_count r) (reloaded_gpu_tokens r)
    (reloaded_cpu_tokens r) (reloaded_generated_gpu_tokens r)
    (reloaded_generated_cpu_tokens r).

Definition restore_admission_state (a : AdmissionState) (r : Request) : Request :=
  r <| status := as_status a |>
    <| num_computed_tokens := as_num_computed_tokens a |>
    <| scheduled_tokens := as_scheduled_tokens a |>
    <| scheduled_query_tokens := as_scheduled_query_tokens a |>
    <| scheduled_placeholder_tokens := as_scheduled_placeholder_tokens a |>
    <| recompute_tokens := as_recompute_tokens a |>
    <| cached_prefill_blocks := as_cached_prefill_blocks a |>
    <| cached_prefill_tokens := as_cached_prefill_tokens a |>
    <| gpu_cached_prefill_tokens := as_gpu_cached_prefill_tokens a |>
    <| external_cached_prefill_tokens := as_external_cached_prefill_tokens a |>
    <| gpu_cached_context_tokens := as_gpu_cached_context_tokens a |>
    <| external_cached_context_tokens := as_external_cached_context_tokens a |>
    <| effective_prefill_tokens := as_effective_prefill_tokens a |>
    <| reuse_hit_blocks := as_reuse_hit_blocks a |>
    <| reuse_miss_blocks := as_reuse_miss_blocks a |>
    <| input_cache_keys := as_input_cache_keys a |>
    <| input_cache_committed := as_input_cache_committed a |>
    <| first_prefill_source := as_first_prefill_source a |>
    <| prefill_admission_count := as_prefill_admission_count a |>
    <| reloaded_gpu_tokens := as_reloaded_gpu_tokens a |>
    <| reloaded_cpu_tokens := as_reloaded_cpu_tokens a |>
    <| reloaded_generated_gpu_tokens := as_reloaded_generated_gpu_tokens a |>
    <| reloaded_generated_cpu_tokens := as_reloaded_generated_cpu_tokens a |>.

(** ** Arrival, preemption and steps *)

Definition arrive (now : pyfloat) (r : Request) : Request :=
  if cancel_requested r then r
  else r <| arrival_at := Some now |> <| last_event_at := now |>
         <| completion_event := Some Pending |>.

Definition prepare_recompute (r : Request) : Request :=
  r <| needs_recompute := true |> <| recompute_tokens := context_len r |>
    <| num_computed_tokens := 0 |> <| scheduled_tokens := 0 |>
    <| scheduled_query_tokens := 0 |> <| scheduled_placeholder_tokens := 0 |>.

Definition finish_recompute (latency : pyfloat) (r : Request) : Request :=
  r <| needs_recompute := false |> <| recomputation_count ::= Z.succ |>
    <| recomputed_tokens_total ::= Z.add (recompute_tokens r) |>
    <| recompute_service_time ::= λ t, fadd t latency |>
    <| recompute_tokens := 0 |>.

Definition release_logical_blocks (r : Request) : Request :=
  r <| logical_tokens := 0 |> <| input_cache_keys := [] |>.

(** [RequestTime] *)
Record RequestTime := mkTime {
  t_id : Z;
  t_steps : Z;
  t_total_time : pyfloat;
  t_first_step_time : pyfloat;
  t_decode_time_sum : pyfloat;
  t_decode_time_max_value : pyfloat;
  t_first_step_service_time : pyfloat;
  t_decode_service_time_sum : pyfloat;
  t_first_step_batch : pyfloat;
  t_decode_batch_sum : pyfloat;
}.

Definition complete_timing (r : Request) : RequestTime :=
  mkTime (req_id r) (generation_idx r) (total_time r) (prefill_latency r)
    (decode_time_sum r) (decode_time_max r) (prefill_service_time r)
    (decode_service_time_sum r) (prefill_batch_size r) (decode_batch_sum r).

(** The tokens a sampling step really emits. *)
Definition clipped_output (output_tokens : Z) (r : Request) : Z :=
  let n := Z.max 1 (Z.min output_tokens (decode_len r - generation_idx r)) in
  match max_model_len r with
  | None => n
  | Some m => Z.min n (Z.max 0 (m - context_len r))
  end.

(** The time, service and batch aggregates of a sampling step. *)
Definition book_step (now latency : pyfloat) (batch : Z) (r : Request) : Request :=
  let step_time := fsub now (last_event_at r) in
  let r := r <| last_event_at := now |> <| total_time ::= λ t, fadd t step_time |> in
  if generation_idx r =? 1 then
    r <| prefill_latency := step_time |>
      <| prefill_service_time ::= λ t, fadd t latency |>
      <| prefill_batch_size := fof batch |>
  else
    r <| decode_time_sum ::= λ t, fadd t step_time |>
      <| decode_time_max ::= λ m, if fltb m step_time then step_time else m |>
      <| decode_service_time_sum ::= λ t, fadd t latency |>
      <| decode_batch_sum ::= λ t, fadd t (fof batch) |>.

(** The end of [step]: a finished request is stamped and its event fires. *)
Definition complete (now : pyfloat) (r : Request) : option RequestTime * Request :=
  if is_done r then
    let r := if length_capped r then r <| status := FINISHED_LENGTH_CAPPED |> else r in
    let r := r <| completed_at := Some now |> <| completion_event ::= succeed |> in
    (Some (complete_timing r), r)
  else (None, r).

(** [step]: sample tokens; returns the timing of a request that completes. *)
Definition step (now latency : pyfloat) (batch output_tokens : Z) (r : Request) :
    option RequestTime * Request :=
  if cancel_requested r then (None, r)
  else
    let n := clipped_output output_tokens r in
    let r := append_tokens n (r <| generation_idx ::= λ g, g + n |>) in
    complete now (book_step now latency batch r).

(** The start of [advance]: consume the tokens scheduled for this step. *)
Definition consume_step (r : Request) : Request :=
  let r' := r <| decode_round ::= λ d, if is_context_build r then d else Z.succ d |> in
  r' <| scheduled_tokens := 0 |> <| scheduled_query_tokens := 0 |>
     <| scheduled_placeholder_tokens := 0 |>
     <| num_computed_tokens ::= λ n, n + step_tokens r |>
     <| prefill_chunks ::= λ c, if is_prefill r then Z.succ c else c |>.

(** A chunk that does not complete the context only accumulates service time. *)
Definition book_chunk (latency : pyfloat) (r : Request) : Request :=
  if needs_recompute r then r <| recompute_service_time ::= λ t, fadd t latency |>
  else r <| prefill_service_time ::= λ t, fadd t latency |>.

(** [advance]: apply one scheduler step *)
Definition advance (now latency : pyfloat) (batch : Z) (r : Request) :
    option RequestTime * Request :=
  if cancel_requested r then (None, r)
  else
    let tokens := step_tokens r in
    let output_tokens := if is_context_build r then 1 else tokens in
    let r := consume_step r in
    if num_computed_tokens r <? context_len r then (None, book_chunk latency r)
    else if needs_recompute r then
      step now f0 batch output_tokens (finish_recompute latency r)
    else step now latency batch output_tokens r.

(** [RequestTime.from_step_lists] *)
Definition fsum (l : list pyfloat) : pyfloat := foldl fadd f0 l.

(** [max(l)] of a non-empty list: the first of the largest values *)
Definition fmaximum (x : pyfloat) (l : list pyfloat) : pyfloat :=
  foldl (λ m v, if fltb m v then v else m) x l.

Definition from_step_lists (id : Z) (time service_time batch : list pyfloat) : RequestTime :=
  mkTime id (Z.of_nat (length time)) (fsum time) (default f0 (head time))
    (fsum (tail time))
    (match tail time with [] => f0 | x :: l => fmaximum x l end)
    (default f0 (head service_time)) (fsum (tail service_time))
    (default f0 (head batch)) (fsum (tail batch)).

(** ** Invariant *)

(** [released]: whether [release_logical_blocks] has run *)
Record req_inv (released : bool) (r : Request) : Prop := {
  ri_prefill : 0 <= prefill_len r;
  ri_decode : 1 <= decode_len r;
  ri_gen : 0 <= generation_idx r <= decode_len r;
  ri_logical : if released then 0 <= logical_tokens r <= context_len r else logical_tokens r = context_len r;
  ri_limit : match max_model_len r with None => True | Some m => context_len r <= m end;
  ri_computed : 0 <= num_computed_tokens r;
  ri_scheduled : 0 <= scheduled_tokens r;
}.

Lemma new_request_inv id prefill decode bs h o s g :
  0 <= prefill → 1 <= decode → req_inv false (new_request id prefill decode bs h o s g).
Proof.
  intros Hp Hd. unfold new_request, append_tokens.
  destruct (Z.gtb_spec prefill 0); split; cbn; unfold context_len; cbn; lia || done.
Qed.

Lemma step_tokens_pos r : 0 <= scheduled_tokens r → 1 <= step_tokens r.
Proof. unfold step_tokens, int_or. destruct (Z.eqb_spec (scheduled_tokens r) 0); lia. Qed.

Lemma clipped_output_pos b n r :
  req_inv b r → cancel_requested r = false → is_done r = false →
  1 <= clipped_output n r /\
  generation_idx r + clipped_output n r <= decode_len r /\
  (1 <= n → clipped_output n r <= n) /\
  match max_model_len r with None => True | Some m => context_len r + clipped_output n r <= m end.
Proof.
  intros [] Hc Hd. unfold is_done, length_capped in Hd. rewrite Hc in Hd. cbn in Hd.
  apply orb_false_iff in Hd as [Hd Hm]. apply Z.leb_gt in Hd.
  unfold clipped_output. destruct (max_model_len r) as [m|]; [apply Z.leb_gt in Hm|]; lia.
Qed.

(** The fields that matter for progress; bookkeeping leaves them alone. *)
Definition core (r : Request) :=
  (prefill_len r, decode_len r, generation_idx r, logical_tokens r, max_model_len r,
   num_computed_tokens r, scheduled_tokens r, cancel_requested r).

Lemma core_book_step now lat batch r : core (book_step now lat batch r) = core r.
Proof. unfold book_step. cbn zeta. by destruct (_ =? 1). Qed.

Lemma core_is_done r r' : core r = core r' → is_done r = is_done r'.
Proof.
  unfold core. intros [= H1 H2 H3 _ H4 _ _ H5].
  unfold is_done, length_capped, context_len. by rewrite H1, H2, H3, H4, H5.
Qed.

Lemma core_complete now r :
  core (complete now r).2 = core r ∧
  (complete now r).1 = if is_done r then Some (complete_timing (complete now r).2) else None.
Proof. unfold complete. destruct (is_done r); [|done]. by destruct (length_capped r). Qed.

Lemma core_append n r : 0 <= n → core (append_tokens n r) = core (r <| logical_tokens ::= Z.add n |>).
Proof.
  intros Hn. unfold append_tokens. destruct (Z.gtb_spec n 0); [done|].
  assert (n = 0) as -> by lia. unfold core. cbn [update_field logical_tokens]. by rewrite Z.add_0_l.
Qed.

Lemma step_core now lat batch n r :
  cancel_requested r = false → 0 <= clipped_output n r →
  core (step now lat batch n r).2 =
  core (r <| generation_idx ::= λ g, g + clipped_output n r |>
          <| logical_tokens ::= Z.add (clipped_output n r) |>) ∧
  (step now lat batch n r).1 =
    if is_done (step now lat batch n r).2
    then Some (complete_timing (step now lat batch n r).2) else None.
Proof.
  intros Hc Hn. unfold step. rewrite Hc. set (k := clipped_output n r) in *. cbn zeta.
  set (r1 := append_tokens k _).
  destruct (core_complete now (book_step now lat batch r1)) as [H1 H2].
  rewrite H2, (core_is_done _ _ H1). split; [|done].
  rewrite H1, core_book_step. unfold r1. by rewrite core_append.
Qed.

Lemma inv_core b r r' : core r = core r' → req_inv b r → req_inv b r'.
Proof.
  unfold core, context_len. intros [= H1 H2 H3 H4 H5 H6 H7 _] [].
  split; unfold context_len in *; rewrite <- ?H1, <- ?H2, <- ?H3, <- ?H4, <- ?H5, <- ?H6, <- ?H7;
    assumption.
Qed.

(** The request after [advance] consumed the step's tokens. *)
Lemma core_consume r :
  core (consume_step r) =
  core (r <| scheduled_tokens := 0 |> <| num_computed_tokens ::= λ n, n + step_tokens r |>).
Proof. done. Qed.

Lemma core_finish_recompute lat r : core (finish_recompute lat r) = core r.
Proof. done. Qed.

Lemma core_book_chunk lat r : core (book_chunk lat r) = core r.
Proof. unfold book_chunk. by destruct (needs_recompute r). Qed.

Lemma clipped_core n r r' : core r = core r' → clipped_output n r = clipped_output n r'.
Proof.
  unfold core. intros [= H1 H2 H3 _ H4 _ _ _].
  unfold clipped_output, context_len. by rewrite H1, H2, H3, H4.
Qed.

(** Output tokens of the step [advance] makes. *)
Definition advance_output (r : Request) : Z :=
  if is_context_build r then 1 else step_tokens r.

(** [advance] as a function of the core fields: a partial chunk, or a sample. *)
Lemma advance_core b now lat batch r :
  req_inv b r → cancel_requested r = false → is_done r = false →
  let res := advance now lat batch r in
  let r1 := r <| scheduled_tokens := 0 |> <| num_computed_tokens ::= λ n, n + step_tokens r |> in
  let k := clipped_output (advance_output r) r in
  res.1 = (if is_done res.2 then Some (complete_timing res.2) else None) ∧
  if num_computed_tokens r + step_tokens r <? context_len r
  then core res.2 = core r1
  else core res.2 = core (r1 <| generation_idx ::= λ g, g + k |> <| logical_tokens ::= Z.add k |>).
Proof.
  intros Hinv Hc Hd. cbn zeta. unfold advance. rewrite Hc. cbn zeta.
  fold (advance_output r).
  change (num_computed_tokens (consume_step r) <? context_len (consume_step r))
    with (num_computed_tokens r + step_tokens r <? context_len r).
  destruct (num_computed_tokens r + step_tokens r <? context_len r).
  { cbn [fst snd]. assert (core (book_chunk lat (consume_step r)) = core (consume_step r)) as Hcore
      by apply core_book_chunk. split; [|done].
    rewrite (core_is_done _ _ Hcore).
    change (is_done (consume_step r)) with (is_done r). by rewrite Hd. }
  destruct (clipped_output_pos _ (advance_output r) r Hinv Hc Hd) as [Hk _].
  assert (∀ r2 l, core r2 = core (consume_step r) →
    let s := step now l batch (advance_output r) r2 in
    s.1 = (if is_done s.2 then Some (complete_timing s.2) else None) ∧
    core s.2 = core (r <| scheduled_tokens := 0 |>
      <| num_computed_tokens ::= λ n, n + step_tokens r |>
      <| generation_idx ::= λ g, g + clipped_output (advance_output r) r |>
      <| logical_tokens ::= Z.add (clipped_output (advance_output r) r) |>)) as Hstep.
  { intros r2 l Hr2. cbn zeta.
    assert (clipped_output (advance_output r) r2 = clipped_output (advance_output r) r) as Hcl.
    { rewrite (clipped_core _ _ _ Hr2). done. }
    destruct (step_core now l batch (advance_output r) r2) as [H1 H2].
    - unfold core in Hr2. cbn in Hr2. congruence.
    - lia.
    - split; [done|]. rewrite H1, Hcl. unfold core in *. cbn in *. congruence. }
  destruct (needs_recompute (consume_step r)).
  - apply (Hstep (finish_recompute lat (consume_step r)) f0). apply core_finish_recompute.
  - apply (Hstep (consume_step r) lat eq_refl).
Qed.

(** Steps a request the engine serves can take.  An admission that fails restores a snapshot
    of an earlier state, whose counts are not negative; the schedulers' and workers' own
    assignments leave the fields of [core] alone, but for [scheduled_tokens] and the limit,
    which a scheduler sets when the request is added to it.  The dummy requests of the
    data-parallel coordinator, whose lengths it writes itself, are not served. *)
Inductive req_step : Request → Request → Prop :=
  | RArrive now r : req_step r (arrive now r)
  | RCancel now r : req_step r (request_cancel now r)
  | RAcknowledge now w r : req_step r (acknowledge_cancel now w r)
  | RPreempt r : req_step r (prepare_recompute r)
  | RAdmit n r : req_step r (start_context_build n r)
  | RRecordPrefill gpu cpu r : req_step r (record_prefill_admission gpu cpu r).2
  | RRecordContext gpu cpu r : req_step r (record_context_admission gpu cpu r).2
  | RRestore a r :
      0 <= as_num_computed_tokens a → 0 <= as_scheduled_tokens a → req_step r (restore_admission_state a r)
  | RSchedule n r : 0 <= n → req_step r (r <| scheduled_tokens := n |>)
  | RLimit m r :
      prefill_len r < m → generation_idx r <= 1 ∨ max_model_len r = Some m →
      req_step r (r <| max_model_len := Some m |>)
  | RAssign r r' : core r' = core r → req_step r r'
  | RAdvance now lat batch r :
      is_done r = false → req_step r (advance now lat batch r).2.

(** Histories of a request, and whether its bulky state was dropped in them *)
Inductive reaches (r0 : Request) : bool → Request → Prop :=
  | reach_start : reaches r0 false r0
  | reach_step b r r' : reaches r0 b r → req_step r r' → reaches r0 b r'
  | reach_release b r : reaches r0 b r → reaches r0 true (release_logical_blocks r).

Lemma request_cancel_core now r :
  core (request_cancel now r) = core r ∨
  core (request_cancel now r) = core (r <| cancel_requested := true |>).
Proof.
  unfold request_cancel. destruct (cancellation_event r);
    cbn zeta; match goal with |- context [is_done ?x] => destruct (is_done x) end; auto;
    match goal with |- context [cancel_requested ?x] => destruct (cancel_requested x) end; auto.
Qed.

Lemma acknowledge_core now w r : core (acknowledge_cancel now w r) = core r.
Proof.
  unfold acknowledge_cancel. destruct (negb (cancel_requested r)); [done|].
  destruct w; cbn zeta; by destruct (_ || _).
Qed.

Lemma record_prefill_core gpu cpu r : core (record_prefill_admission gpu cpu r).2 = core r.
Proof.
  unfold record_prefill_admission, mbind, M_bind, gets. unid. destruct (_ || _); [done|].
  by destruct (first_prefill_source r).
Qed.

Lemma record_context_core gpu cpu r : core (record_context_admission gpu cpu r).2 = core r.
Proof.
  unfold record_context_admission, mbind, M_bind, gets. unid. destruct (_ || _); [done|].
  cbn. by rewrite record_prefill_core.
Qed.

Lemma advance_inv b now lat batch r :
  req_inv b r → is_done r = false → req_inv b (advance now lat batch r).2.
Proof.
  intros Hinv Hd. destruct (cancel_requested r) eqn:Hc.
  { unfold advance. by rewrite Hc. }
  destruct (advance_core _ now lat batch r Hinv Hc Hd) as [_ Hcore].
  destruct (clipped_output_pos _ (advance_output r) r Hinv Hc Hd) as (Hk & Hg & _ & Hm).
  set (k := clipped_output (advance_output r) r) in *.
  pose proof (step_tokens_pos r (ri_scheduled _ _ Hinv)) as Ht.
  destruct (_ <? _); (eapply inv_core; [symmetry; exact Hcore|]); destruct Hinv;
    unfold context_len in *; split; cbn; unfold context_len; cbn; try lia; try done.
  - destruct b; lia.
  - destruct (max_model_len r); lia.
Qed.

Lemma req_step_inv b r r' : req_inv b r → req_step r r' → req_inv b r'.
Proof.
  intros Hinv Hs. destruct Hs as [now r|now r|now w r|r|n r|gpu cpu r|gpu cpu r|a r Ha1 Ha2|n r Hn|m r Hm Hg|r r' Hr|
    now lat batch r Hd].
  - eapply inv_core; [|done]. unfold arrive. by destruct (cancel_requested r).
  - destruct (request_cancel_core now r) as [H|H]; (eapply inv_core; [symmetry; exact H|]);
      [done|]. by destruct Hinv.
  - eapply inv_core; [|done]. by rewrite acknowledge_core.
  - destruct Hinv. split; cbn; done || lia.
  - destruct Hinv. split; cbn; try done; lia.
  - eapply inv_core; [|done]. by rewrite record_prefill_core.
  - eapply inv_core; [|done]. by rewrite record_context_core.
  - destruct Hinv. by split.
  - destruct Hinv. by split.
  - destruct Hinv. unfold context_len in *. split; cbn; try done. unfold context_len. cbn.
    destruct Hg as [Hg|Hg]; [lia|by rewrite Hg in ri_limit0].
  - by eapply inv_core.
  - by apply advance_inv.
Qed.

Lemma release_logical_inv b r : req_inv b r → req_inv true (release_logical_blocks r).
Proof. intros []. split; cbn; try done. unfold context_len. cbn. lia. Qed.

Lemma reaches_inv r0 b r : req_inv false r0 → reaches r0 b r → req_inv b r.
Proof.
  intros H0. induction 1 as [|b r r' _ IH Hs|b r _ IH]; [done|by eapply req_step_inv|by eapply release_logical_inv].
Qed.

(** The lengths of a request never change. *)
Lemma reaches_lengths r0 b r : req_inv false r0 → reaches r0 b r → prefill_len r = prefill_len r0 ∧ decode_len r = decode_len r0.
Proof.
  intros H0. induction 1 as [|b r r' Hr IH Hs|b r _ IH]; [done| |done].
  enough (prefill_len r' = prefill_len r ∧ decode_len r' = decode_len r) as [-> ->] by done.
  assert (∀ x y, core x = core y → prefill_len x = prefill_len y ∧ decode_len x = decode_len y) as Hcore.
  { unfold core. by intros x y [= -> ->]. }
  destruct Hs as [now r|now r|now w r|r|n r|gpu cpu r|gpu cpu r|a r Ha1 Ha2|n r Hn|m r Hm Hg|r r' Hr'|
    now lat batch r Hd]; try done.
  - unfold arrive. by destruct (cancel_requested r).
  - by destruct (request_cancel_core now r) as [H%Hcore|H%Hcore].
  - apply Hcore, acknowledge_core.
  - apply Hcore, record_prefill_core.
  - apply Hcore, record_context_core.
  - by apply Hcore.
  - destruct (cancel_requested r) eqn:Hc; [unfold advance; by rewrite Hc|].
    destruct (advance_core _ now lat batch r (reaches_inv _ _ _ H0 Hr) Hc Hd) as [_ Hadv].
    destruct (_ <? _); by apply Hcore in Hadv.
Qed.

(** C30 (invariant).  In every state a request reaches by arriving, being admitted, its
    admission recorded and restored, given the model's context limit, scheduled in chunks of
    any size, preempted, cancelled and advanced in any order, it has generated at most
    [decode_len] tokens and its context is within the model limit.  Its logical KV tokens are
    exactly its context until [release_logical_blocks] drops them, and from then on between
    none and the context. *)
Theorem reachable_request_ok id prefill decode bs h o s g released r :
  0 <= prefill → 1 <= decode →
  reaches (new_request id prefill decode bs h o s g) released r →
  req_inv released r.
Proof. intros Hp Hd. apply reaches_inv. by apply new_request_inv. Qed.

(** A preempted request that then finishes and drops its logical tokens *)
Definition demo_preempted : Request := prepare_recompute
  (advance (fof 1) (fof 1) 1 (new_request 7 3 2 16 None None None None)).2.

Lemma demo_preempted_reached : reaches (new_request 7 3 2 16 None None None None) false demo_preempted.
Proof.
  eapply reach_step; [|apply RPreempt]. eapply reach_step; [apply reach_start|].
  apply RAdvance. vm_compute. reflexivity.
Qed.

Lemma reachable_request_ok_witness :
  let r := (advance (fof 2) (fof 1) 1 demo_preempted).2 in
  req_inv false r ∧ req_inv true (release_logical_blocks r) ∧ is_done r = true.
Proof.
  cbv zeta. assert (reaches (new_request 7 3 2 16 None None None None) false (advance (fof 2) (fof 1) 1 demo_preempted).2) as Hr.
  { eapply reach_step; [exact demo_preempted_reached|]. apply RAdvance. vm_compute. reflexivity. }
  split; [|split].
  - apply (reachable_request_ok 7 3 2 16 None None None None); [lia|lia|exact Hr].
  - apply (reachable_request_ok 7 3 2 16 None None None None); [lia|lia|]. eapply reach_release. exact Hr.
  - vm_compute. reflexivity.
Defined.

(** ** Completion *)

(** Steps still needed: output tokens, and context chunks beyond the last. *)
Definition todo (r : Request) : Z :=
  decode_len r - generation_idx r + Z.max 0 (context_len r - num_computed_tokens r - 1).

(** One step strictly reduces the work left, or finishes. *)
Lemma advance_todo b now lat batch r :
  req_inv b r → cancel_requested r = false → is_done r = false →
  todo (advance now lat batch r).2 < todo r ∧
  cancel_requested (advance now lat batch r).2 = false.
Proof.
  intros Hinv Hc Hd. destruct (advance_core _ now lat batch r Hinv Hc Hd) as [_ Hcore].
  destruct (clipped_output_pos _ (advance_output r) r Hinv Hc Hd) as (Hk & Hg & Hle & _).
  pose proof (step_tokens_pos r (ri_scheduled _ _ Hinv)) as Ht.
  set (k := clipped_output (advance_output r) r) in *.
  set (r' := (advance now lat batch r).2) in *. clearbody r' k.
  unfold todo, context_len in *. unfold core in Hcore.
  destruct (Z.ltb_spec (num_computed_tokens r + step_tokens r)
    (prefill_len r + generation_idx r)); cbn in Hcore; injection Hcore; intros; split; congruence || lia.
Qed.

Lemma not_done r : cancel_requested r = false → is_done r = false → generation_idx r < decode_len r.
Proof. unfold is_done. intros ->. cbn. by intros [?%Z.leb_gt _]%orb_false_iff. Qed.

(** A preemption brings back the chunks of the whole context, at most. *)
Lemma preempt_todo b r : req_inv b r → cancel_requested r = false → is_done r = false →
  todo (prepare_recompute r) <= todo r + (prefill_len r + decode_len r).
Proof.
  intros [] Hc Hd%not_done; [|done]. unfold todo, context_len in *. cbn. lia.
Qed.

(** What happens to a request while it is served: a step, with the chunk the scheduler
    assigns, the clock, the service time and the batch size, or a preemption. *)
Inductive served :=
  | Chunk (tokens : Z) (now latency : pyfloat) (batch : Z)
  | Preempted.

Definition is_chunk (x : served) : bool := match x with Chunk _ _ _ _ => true | Preempted => false end.

Definition sane (x : served) : Prop := match x with Chunk tokens _ _ _ => 0 <= tokens | Preempted => True end.

Definition chunks (plan : list served) : Z := Z.of_nat (length (List.filter is_chunk plan)).

Definition preemptions (plan : list served) : Z := Z.of_nat (length (List.filter (negb ∘ is_chunk) plan)).

(** Serve a request until it completes. *)
Fixpoint drive (plan : list served) (r : Request) : option RequestTime * Request :=
  match plan with
  | [] => (None, r)
  | Preempted :: plan => drive plan (prepare_recompute r)
  | Chunk tokens now lat batch :: plan =>
      match advance now lat batch (r <| scheduled_tokens := tokens |>) with
      | (Some t, r) => (Some t, r)
      | (None, r) => drive plan r
      end
  end.

Lemma drive_completes b plan r :
  req_inv b r → cancel_requested r = false → is_done r = false → Forall sane plan →
  todo r + preemptions plan * (prefill_len r + decode_len r) <= chunks plan →
  let '(t, r') := drive plan r in
  t = Some (complete_timing r') ∧ is_done r' = true ∧ req_inv b r' ∧
  prefill_len r' = prefill_len r ∧ decode_len r' = decode_len r ∧ max_model_len r' = max_model_len r.
Proof.
  revert r. induction plan as [|[tokens now lat batch|] plan IH]; intros r Hinv Hc Hd Hplan Hlen.
  { exfalso. pose proof (not_done r Hc Hd). destruct Hinv. unfold todo, chunks, preemptions in Hlen. cbn in Hlen. lia. }
  - apply Forall_cons in Hplan as [Hchunk Hplan]. cbn [drive].
    set (r0 := r <| scheduled_tokens := tokens |>).
    assert (req_inv b r0) as Hinv0 by (destruct Hinv; by split).
    destruct (advance_todo _ now lat batch r0 Hinv0 Hc Hd) as [Htodo Hc'].
    pose proof (advance_inv _ now lat batch r0 Hinv0 Hd) as Hinv'.
    destruct (advance_core _ now lat batch r0 Hinv0 Hc Hd) as [Hres Hcore].
    assert (prefill_len (advance now lat batch r0).2 = prefill_len r ∧ decode_len (advance now lat batch r0).2 = decode_len r ∧
            max_model_len (advance now lat batch r0).2 = max_model_len r) as (Hpl & Hdl & Hml).
    { unfold core in Hcore. destruct (_ <? _); cbn in Hcore; repeat split; congruence. }
    change (todo r0) with (todo r) in Htodo.
    destruct (advance now lat batch r0) as [t r']. cbn [fst snd] in *.
    destruct (is_done r') eqn:Hdone; subst t; [done|].
    specialize (IH r' Hinv' Hc' Hdone Hplan). rewrite Hpl, Hdl, Hml in IH.
    unfold chunks, preemptions in Hlen, IH. cbn [List.filter is_chunk negb compose length] in Hlen. apply IH. lia.
  - apply Forall_cons in Hplan as [_ Hplan]. cbn [drive].
    pose proof (preempt_todo _ _ Hinv Hc Hd) as Htodo.
    apply (IH (prepare_recompute r)); [by apply (req_step_inv _ r); [|apply RPreempt]|done|done|done|].
    unfold chunks, preemptions in *. cbn [List.filter is_chunk negb compose length] in Hlen.
    change (prefill_len (prepare_recompute r)) with (prefill_len r). change (decode_len (prepare_recompute r)) with (decode_len r). nia.
Qed.

(** What a new request has to do *)
Lemma todo_new id prefill decode bs h o s g :
  todo (new_request id prefill decode bs h o s g) = decode + Z.max 0 (prefill - 1).
Proof. unfold todo, context_len, new_request, append_tokens. destruct (prefill >? 0); cbn; lia. Qed.

(** C31 (termination).  Take a request in any state it reaches, neither cancelled nor done, and
    serve it in steps of any chunk sizes, preempting it in between but not cancelling it.  It
    is done after at most as many steps as the tokens it has to emit and the context it has
    to build before the last chunk, plus [prefill_len + decode_len] for each preemption, and
    has then generated [decode_len] tokens, or those that fit its context limit. *)
Theorem request_completes id prefill decode bs h o s g released r plan :
  0 <= prefill → 1 <= decode →
  reaches (new_request id prefill decode bs h o s g) released r →
  cancel_requested r = false → is_done r = false → Forall sane plan →
  todo r + preemptions plan * (prefill + decode) <= chunks plan →
  let '(t, r') := drive plan r in
  t = Some (complete_timing r') ∧ is_done r' = true ∧
  t_steps (complete_timing r') = match max_model_len r with None => decode | Some m => Z.min decode (m - prefill) end.
Proof.
  intros Hp Hd Hreach Hc Hnd Hplan Hlen. pose proof (new_request_inv id prefill decode bs h o s g Hp Hd) as H0.
  destruct (reaches_lengths _ _ _ H0 Hreach) as [Hpl Hdl].
  assert (prefill_len r = prefill ∧ decode_len r = decode) as [H1 H2].
  { rewrite Hpl, Hdl. unfold new_request, append_tokens. by destruct (prefill >? 0). }
  pose proof (drive_completes released plan r (reaches_inv _ _ _ H0 Hreach) Hc Hnd Hplan) as Hdrive.
  rewrite H1, H2 in Hdrive. destruct (drive plan r) as [t r'].
  destruct (Hdrive Hlen) as (-> & Hdone & [] & Hpl' & Hdl' & Hml). split; [done|]. split; [done|].
  change (t_steps (complete_timing r')) with (generation_idx r').
  unfold is_done, length_capped in Hdone. apply andb_true_iff in Hdone as [_ Hdone%orb_true_iff].
  unfold context_len in *. rewrite Hml in *. destruct (max_model_len r) as [m|].
  - destruct Hdone as [?%Z.leb_le|?%Z.leb_le]; lia.
  - destruct Hdone as [?%Z.leb_le|?]; [lia|done].
Qed.

(** A five-token prompt limited to seven tokens of context, in chunks of two, preempted once:
    two of its three output tokens fit. *)
Definition demo_limited : Request := new_request 1 5 3 16 None None None None <| max_model_len := Some 7 |>.

Lemma request_completes_witness :
  let plan := [Chunk 2 (fof 1) (fof 1) 1; Preempted] ++ replicate 20 (Chunk 2 (fof 3) (fof 1) 1) in
  let '(t, r') := drive plan demo_limited in
  t = Some (complete_timing r') ∧ is_done r' = true ∧ t_steps (complete_timing r') = 2.
Proof.
  apply (request_completes 1 5 3 16 None None None None false demo_limited); [lia|lia| |reflexivity|reflexivity| |].
  - eapply reach_step; [apply reach_start|]. apply RLimit; [reflexivity|left; discriminate].
  - repeat constructor; vm_compute; discriminate.
  - vm_compute. discriminate.
Defined.
