(* ===== verification/Acceptance.v ===== *)
(** * Speculative acceptance draws ([TokenSim/llm/speculative_acceptance.py],
      [MTPAcceptanceConfig] of [TokenSim/config/speculative_execution.py])

    How many of the drafted tokens a verification round accepts.  The draws are
    stateless: they hash the seed, the request and the round, so replaying a
    round gives the same answer.  BLAKE2b is a parameter of the model. *)

From stdpp Require Import gmap list strings pretty.
From Stdlib Require Import ZArith SpecFloat Lia.
From S2P Require Import Prelude.
From S2P Require Import PyFloat.
From S2P Require Import PrefixKeys.

Open Scope Z_scope.

Inductive acceptance_kind := MeanKind | Conditional | Empirical | Legacy.

#[global] Instance acceptance_kind_eq_dec : EqDecision acceptance_kind.
Proof. solve_decision. Defined.

Record MTPAcceptanceConfig := mkAcceptance {
  kind : acceptance_kind;
  rates : list pyfloat;
  distribution : list pyfloat;
}.

(** [number(value, name, minimum=lo, maximum=hi)] of a float; raises
    [ConfigurationError] when it is false *)
Definition number_ok (value lo hi : pyfloat) : bool :=
  fisfinite value && negb (fltb value lo) && negb (fltb hi value).

(** [MTPAcceptanceConfig.__post_init__] *)
Definition acceptance_ok (c : MTPAcceptanceConfig) : bool :=
  forallb (λ v, number_ok v f0 (fof 1)) (rates c) &&
  forallb (λ v, number_ok v f0 (fof 1)) (distribution c) &&
  (bool_decide (kind c = Conditional) || bool_decide (rates c = [])) &&
  (bool_decide (kind c = Empirical) || bool_decide (distribution c = [])).

(** [MTPAcceptanceConfig.validate]; a draft count below 2^53 is a float *)
Definition acceptance_validate (c : MTPAcceptanceConfig) (drafts : Z) (mean : pyfloat) : bool :=
  number_ok mean (fof 1) (fof (1 + drafts)) &&
  match kind c with
  | Conditional =>
      SFeqb mean (fof 1) && (1 <=? drafts) && (Z.of_nat (length (rates c)) =? drafts)
  | Empirical =>
      SFeqb mean (fof 1) && (1 <=? drafts) &&
      (Z.of_nat (length (distribution c)) =? drafts + 1) &&
      fisclose (math_fsum (distribution c)) (fof 1) f_1e_12
  | _ => true
  end.

Definition validate_mtp_token_budget (max_num_batched_tokens : option Z) (num_speculative_tokens : Z) :
    bool :=
  match max_num_batched_tokens with
  | None => true
  | Some n => 1 + num_speculative_tokens <=? n
  end.

(** [int.from_bytes(blake2b(key, digest_size=8, person=b"ts-mtp-round-v1").digest(), "big")] *)
Class Blake2b := blake2b_bits : string → Z.

(** [f"{seed}:{request_id}:{round_index}:{position}"] *)
Definition draw_key (seed request_id round_index position : Z) : string :=
  (pretty seed +:+ ":" +:+ pretty request_id +:+ ":" +:+ pretty round_index +:+ ":" +:+
   pretty position)%string.

Section Acceptance.
Context `{Blake2b}.

(** [uniform(position)]: 53 random bits scaled to [0, 1) *)
Definition uniform (seed request_id round_index position : Z) : pyfloat :=
  fdiv (fof (Z.shiftr (blake2b_bits (draw_key seed request_id round_index position)) 11))
    (fof (2 ^ 53)).

(** The loop over the conditional rates. *)
Fixpoint conditional_loop (u : Z → pyfloat) (position : Z) (rates : list pyfloat) (accepted : Z) : Z :=
  match rates with
  | [] => accepted
  | rate :: rates =>
      if fleb rate (u position) then accepted
      else conditional_loop u (position + 1) rates (accepted + 1)
  end.

(** The loop over the empirical distribution; [n] is its length. *)
Fixpoint empirical_loop (draw cumulative : pyfloat) (accepted : Z) (probs : list pyfloat) (n : Z) : Z :=
  match probs with
  | [] => n
  | p :: probs =>
      let cumulative := fadd cumulative p in
      if fltb draw cumulative then accepted
      else empirical_loop draw cumulative (accepted + 1) probs n
  end.

(** [floor(mean)] with a finite [mean], which the constructor checks. *)
Definition floor_of (mean : pyfloat) : Z := default 0 (ffloor mean).

Definition sample_acceptance (config : MTPAcceptanceConfig) (mean : pyfloat)
    (seed request_id round_index : Z) : Z :=
  let u := uniform seed request_id round_index in
  match kind config with
  | Conditional => conditional_loop u 0 (rates config) 1
  | Empirical =>
      empirical_loop (u 0) f0 1 (distribution config) (Z.of_nat (length (distribution config)))
  | _ =>
      let low := floor_of mean in
      low + (if fltb (u 0) (fsub mean (fof low)) then 1 else 0)
  end.

Definition legacy_acceptance (mean : pyfloat) (seed request_id generation_index : Z) : Z :=
  let state :=
    Z.land (request_id * 1103515245 + generation_index * 12345 + seed * 0x9E3779B9) 0xFFFFFFFF in
  floor_of mean +
  (if fltb (fdiv (fof state) (fof 4294967296)) (ffrac mean) then 1 else 0).

Lemma conditional_loop_bounds u position rs accepted :
  accepted <= conditional_loop u position rs accepted <= accepted + Z.of_nat (length rs).
Proof.
  revert position accepted. induction rs as [|r rs IH]; intros position accepted; cbn [conditional_loop length].
  - lia.
  - destruct (fleb r _); [lia|]. specialize (IH (position + 1) (accepted + 1)). lia.
Qed.

Lemma empirical_loop_bounds draw cumulative accepted probs n :
  1 <= accepted → accepted + Z.of_nat (length probs) = n + 1 → 1 <= n →
  1 <= empirical_loop draw cumulative accepted probs n <= n.
Proof.
  revert cumulative accepted. induction probs as [|p probs IH]; intros cumulative accepted Ha Hn H1;
    cbn [empirical_loop length] in *; [lia|].
  destruct (fltb draw _); [lia|]. apply IH; lia.
Qed.

(** A verification round with an explicit distribution accepts at
    least the sampled token and at most the [K] drafts besides; around a mean it
    accepts one of the two integers next to it. *)
Theorem sample_acceptance_bounds config drafts mean seed request_id round_index :
  acceptance_validate config drafts mean = true →
  let accepted := sample_acceptance config mean seed request_id round_index in
  match kind config with
  | Conditional | Empirical => 1 <= accepted <= 1 + drafts
  | _ => floor_of mean <= accepted <= floor_of mean + 1
  end.
Proof.
  unfold acceptance_validate, sample_acceptance. intros Hv. cbn zeta. destruct (kind config).
  - destruct (fltb _ _); lia.
  - pose proof (conditional_loop_bounds (uniform seed request_id round_index) 0 (rates config) 1). lia.
  - apply andb_true_iff in Hv as [_ Hv]. apply andb_true_iff in Hv as [Hv _].
    apply andb_true_iff in Hv as [Hv Hl]. apply andb_true_iff in Hv as [_ Hd].
    pose proof (empirical_loop_bounds (uniform seed request_id round_index 0) f0 1 (distribution config)
      (Z.of_nat (length (distribution config)))). lia.
  - destruct (fltb _ _); lia.
Qed.
End Acceptance.

(** A two-draft conditional acceptance with an all-zero hash accepts everything
    whose rate is positive. *)
Lemma sample_acceptance_bounds_witness :
  let config := mkAcceptance Conditional [fof 1; fdiv (fof 1) (fof 2)] [] in
  let accepted := sample_acceptance (H := λ _, 0) config (fof 1) 7 1 4 in
  accepted = 3 ∧ 1 <= accepted <= 1 + 2.
Proof.
  intros config accepted. split; [vm_compute; reflexivity|].
  apply (sample_acceptance_bounds (H := λ _, 0) config 2 (fof 1) 7 1 4). vm_compute. reflexivity.
Defined.
