(* ===== verification/World.v ===== *)
(** * The KV-cache world: object store and fields of the block components

    [BlockManager] owns two [BlockAllocator]s, each with a [BlockPool]; the GPU
    allocator shares the [KVCacheManager].  All of them, and the requests, point
    to the same [PhysicalTokenBlock] objects.  The model keeps every object in
    one state: blocks in a heap indexed by identity, requests in a store indexed
    by request id (ids identify the request objects of a run), and the fields of
    the manager objects as fields of [world]. *)

From stdpp Require Import gmap list.
From Stdlib Require Import ZArith Lia.
From S2P Require Import Prelude.
From S2P Require Import Block.
From S2P Require Import FreeQueue.
From S2P Require Import PrefixKeys.
From S2P Require Import PyFloat.
From S2P Require Import Request.

Open Scope Z_scope.

Abbreviation block := (PhysicalTokenBlock PrefixCacheKey).

#[global] Instance block_inhabited : Inhabited block :=
  populate (new_block GPU 0 0).

(** [BlockPool] of one device *)
Record BlockPool := mkPool {
  p_device : Device;
  p_block_size : Z;
  p_num_blocks : Z;
  p_materialized : gmap Z bref;
  p_next_fresh : Z;
  p_free : FreeBlockQueue;
}.

#[global] Instance eta_pool : Eta BlockPool := λ p,
  mkPool (p_device p) (p_block_size p) (p_num_blocks p) (p_materialized p)
    (p_next_fresh p) (p_free p).

(** [BlockPool.__init__] *)
Definition new_pool (d : Device) (block_size num_blocks : Z) : BlockPool :=
  mkPool d block_size num_blocks ∅ 0 empty_queue.

Record world := mkWorld {
  w_heap : gmap bref block;                        (* the block objects *)
  w_fresh : bref;                                  (* next fresh identity *)
  w_reqs : gmap Z Request;                         (* the request objects *)
  w_chains : ChainCache;                           (* module-level [_chain_cache] *)
  w_gpu : BlockPool;                               (* [gpu_allocator.pool] *)
  w_cpu : BlockPool;                               (* [cpu_allocator.pool] *)
  w_cache : gmap PrefixCacheKey bref;              (* [KVCacheManager._cache] *)
  w_access : Z;                                    (* [_access_counter] *)
  w_input_keys : gmap Z (list PrefixCacheKey);     (* [_input_keys_cache] *)
  w_table : gmap Z (list bref);                    (* [BlockTable._request_blocks] *)
  w_reserved : list bref;                          (* [_reserved_gpu_blocks] *)
  w_block_size : Z;
  w_model : pystr;
  w_watermark_blocks : Z;
}.

#[global] Instance eta_world : Eta world := λ w,
  mkWorld (w_heap w) (w_fresh w) (w_reqs w) (w_chains w) (w_gpu w) (w_cpu w) (w_cache w)
    (w_access w) (w_input_keys w) (w_table w) (w_reserved w) (w_block_size w)
    (w_model w) (w_watermark_blocks w).

(** The manager's objects, beside the requests and the chain cache. *)
Definition fresh_world (reqs : gmap Z Request) (chains : ChainCache)
    (block_size num_gpu_blocks num_cpu_blocks : Z) (model : pystr)
    (watermark_blocks : Z) : world :=
  mkWorld ∅ 0%nat reqs chains
    (new_pool GPU block_size num_gpu_blocks) (new_pool CPU block_size num_cpu_blocks)
    ∅ 0 ∅ ∅ [] block_size model watermark_blocks.

(** [BlockManager.__init__]; [None] when [int(watermark * num_gpu_blocks)] raises
    on an infinity or a NaN *)
Definition new_world (reqs : gmap Z Request) (chains : ChainCache)
    (block_size num_gpu_blocks num_cpu_blocks : Z) (model : pystr)
    (watermark : pyfloat) : option world :=
  watermark_blocks ← ftrunc (fmul watermark (fof num_gpu_blocks));
  Some (fresh_world reqs chains block_size num_gpu_blocks num_cpu_blocks model watermark_blocks).

(** ** Access to the objects *)

Definition pool (d : Device) (w : world) : BlockPool :=
  match d with GPU => w_gpu w | CPU => w_cpu w end.

Definition update_pool (d : Device) (f : BlockPool → BlockPool) (w : world) : world :=
  match d with GPU => w <| w_gpu ::= f |> | CPU => w <| w_cpu ::= f |> end.

(** The object behind a reference; references to no object do not occur. *)
Definition blk (w : world) (b : bref) : block := w_heap w !!! b.

Definition req (w : world) (r : Z) : Request := w_reqs w !!! r.

(** [block.field = value] *)
Definition set_blk (b : bref) (f : block → block) : M world unit :=
  modify (λ w, w <| w_heap ::= alter f b |>).

(** [req.field = value] *)
Definition set_req (r : Z) (f : Request → Request) : M world unit :=
  modify (λ w, w <| w_reqs ::= λ m, <[r := f (m !!! r)]> m |>).

(** Run a queue operation on the free queue of a pool. *)
Definition in_queue {A} (d : Device) (m : M FreeBlockQueue A) : M world A := λ w,
  let '(res, q) := m (p_free (pool d w)) in
  (res, update_pool d (λ p, p <| p_free := q |>) w).

Definition update_queue (d : Device) (f : FreeBlockQueue → FreeBlockQueue) : M world unit :=
  in_queue d (modify f).

(** Python's [//] and [%] round toward minus infinity, as [Z.div] does, and
    raise on a zero divisor. *)
Definition floordiv (a b : Z) : M world Z :=
  if b =? 0 then raise ZeroDivisionError else mret (a / b).

#[global] Arguments blk : simpl never.
#[global] Arguments req : simpl never.
