(* ===== verification/BlockPool.v ===== *)
(** * Block pools and allocators ([TokenSim/block/block_pool.py],
      [BlockAllocator] of [TokenSim/block/block_manager.py])

    The operations of [BlockPool] and [BlockAllocator], with the metadata
    operations of [KVCacheManager] they call ([evict], [touch],
    [release_block]). *)

From stdpp Require Import gmap list.
From Stdlib Require Import ZArith Lia.
From S2P Require Import Prelude.
From S2P Require Import Block.
From S2P Require Import FreeQueue.
From S2P Require Import PrefixKeys.
From S2P Require Import PyFloat.
From S2P Require Import Request.
From S2P Require Import World.

Open Scope Z_scope.

(** ** [BlockPool] *)

Definition pop_free_block (d : Device) : M world bref :=
  p ← gets (pool d);
  if p_next_fresh p <? p_num_blocks p then
    b ← gets w_fresh;
    modify (λ w, w <| w_heap ::= <[b := new_block (p_device p) (p_next_fresh p) (p_block_size p)]> |>
                   <| w_fresh ::= S |>) ;;
    modify (update_pool d (λ p, p <| p_materialized ::= <[p_next_fresh p := b]> |>)) ;;
    modify (update_pool d (λ p, p <| p_next_fresh ::= Z.succ |>)) ;;
    mret b
  else in_queue d popleft.

Definition append_free_block (d : Device) (b : bref) : M world unit :=
  n ← gets (λ w, block_number (blk w b));
  update_queue d (append b n).

Definition remove_from_free_queue (d : Device) (b : bref) : M world unit :=
  n ← gets (λ w, block_number (blk w b));
  update_queue d (remove n).

Definition get_num_free_blocks (d : Device) (w : world) : Z :=
  (p_num_blocks (pool d w) - p_next_fresh (pool d w)) + queue_len (p_free (pool d w)).

Definition owns (d : Device) (b : bref) (w : world) : bool :=
  bool_decide (p_materialized (pool d w) !! block_number (blk w b) = Some b).

Definition validate_owned (d : Device) (b : bref) : M world unit :=
  w ← gets id;
  if negb (bool_decide (device (blk w b) = p_device (pool d w))) then raise SimulationStateError
  else if negb (owns d b w) then raise SimulationStateError
  else mret tt.

(** The loop of [set_num_free_blocks]: fresh objects for every id, the first
    [block_num] of them queued. *)
Definition reset_block (d : Device) (block_num block_id : Z) : M world unit :=
  p ← gets (pool d);
  b ← gets w_fresh;
  modify (λ w, w <| w_heap ::= <[b := new_block (p_device p) block_id (p_block_size p)]> |>
                 <| w_fresh ::= S |>) ;;
  modify (update_pool d (λ p, p <| p_materialized ::= <[block_id := b]> |>)) ;;
  if block_id <? block_num then update_queue d (append b block_id)
  else set_blk b (λ o, o <| ref_count := 1 |>).

Definition set_num_free_blocks (d : Device) (block_num : Z) : M world unit :=
  p ← gets (pool d);
  if (block_num <? 0) || (p_num_blocks p <? block_num) then raise SimulationStateError
  else
    modify (update_pool d (λ p, p <| p_free := empty_queue |> <| p_materialized := ∅ |>
                                  <| p_next_fresh := p_num_blocks p |>)) ;;
    for_ (seqZ 0 (p_num_blocks p)) (reset_block d block_num).

(** ** Metadata operations of [KVCacheManager] *)

Definition evict (b : bref) : M world unit :=
  w ← gets id;
  (match block_hash (blk w b) with
   | Some h =>
       when (bool_decide (w_cache w !! h = Some b)) (modify (λ w, w <| w_cache ::= delete h |>))
   | None => mret tt
   end) ;;
  set_blk b clear_cache_metadata.

Definition touch (b : bref) : M world unit :=
  modify (λ w, w <| w_access ::= Z.succ |>) ;;
  n ← gets w_access;
  set_blk b (λ o, o <| last_accessed := n |>).

Definition release_block (d : Device) (b : bref) : M world unit :=
  o ← gets (λ w, blk w b);
  if ref_count o <=? 0 then raise SimulationStateError
  else
    set_blk b (λ o, o <| ref_count ::= Z.pred |>) ;;
    o ← gets (λ w, blk w b);
    if negb (ref_count o =? 0) then mret tt
    else if negb (cached o) then
      set_blk b clear_cache_metadata ;;
      update_queue d (append_unique b (block_number o))
    else update_queue d (append_lru b (block_number o) (last_accessed o)).

(** ** [BlockAllocator]: the GPU allocator has the KV cache manager, the CPU
    allocator has none. *)

Definition has_kv_cache_manager (d : Device) : bool :=
  match d with GPU => true | CPU => false end.

Definition alloc_block (d : Device) : M world bref :=
  n ← gets (get_num_free_blocks d);
  if n =? 0 then raise OutOfBlocksError
  else
    b ← pop_free_block d;
    o ← gets (λ w, blk w b);
    when (cached o)
      (if has_kv_cache_manager d then evict b else set_blk b clear_cache_metadata) ;;
    o ← gets (λ w, blk w b);
    if negb (ref_count o =? 0) then raise SimulationStateError
    else set_blk b (λ o, o <| ref_count ::= Z.succ |>) ;; mret b.

Definition acquire (d : Device) (b : bref) : M world unit :=
  validate_owned d b ;;
  o ← gets (λ w, blk w b);
  when (ref_count o =? 0) (remove_from_free_queue d b) ;;
  set_blk b (λ o, o <| ref_count ::= Z.succ |>) ;;
  when (has_kv_cache_manager d) (touch b).

Definition free_block (d : Device) (b : bref) : M world unit :=
  validate_owned d b ;;
  o ← gets (λ w, blk w b);
  if ref_count o <=? 0 then raise SimulationStateError
  else if has_kv_cache_manager d then release_block d b
  else
    set_blk b (λ o, o <| ref_count ::= Z.pred |>) ;;
    o ← gets (λ w, blk w b);
    when (ref_count o =? 0) (set_blk b clear_cache_metadata ;; append_free_block d b).

Definition get_num_allocated_blocks (d : Device) (w : world) : Z :=
  p_num_blocks (pool d w) - get_num_free_blocks d w.

Definition get_status (d : Device) (w : world) : Z * Z * Z :=
  (get_num_free_blocks d w, get_num_allocated_blocks d w, p_num_blocks (pool d w)).
