(* ===== verification/KVCacheManager.v ===== *)
(** * Prefix-cache index ([TokenSim/block/kv_cache_manager.py])

    The planning and registration operations of [KVCacheManager]; [evict],
    [touch] and [release_block] are in [BlockPool], whose allocator calls
    them. *)

From stdpp Require Import gmap list.
From Stdlib Require Import ZArith Lia.
From S2P Require Import Prelude.
From S2P Require Import Block.
From S2P Require Import FreeQueue.
From S2P Require Import PrefixKeys.
From S2P Require Import PyFloat.
From S2P Require Import Request.
From S2P Require Import World.
From S2P Require Import BlockPool.

Open Scope Z_scope.

Record PrefixReusePlan := mkPlan {
  plan_request_id : Z;
  hit_blocks : list bref;
  input_keys : list PrefixCacheKey;
  full_input_blocks : Z;
  total_logical_blocks : Z;
  has_hash_ids : bool;
  hit_tokens : Z;
  plan_effective_prefill_tokens : Z;
}.

Definition hit_block_count (p : PrefixReusePlan) : Z := Z.of_nat (length (hit_blocks p)).

Definition miss_block_count (p : PrefixReusePlan) : Z :=
  total_logical_blocks p - hit_block_count p.

Definition plan_reuse_miss_blocks (p : PrefixReusePlan) : Z :=
  if negb (has_hash_ids p) then 0 else full_input_blocks p - hit_block_count p.

(** Reads the blocks' current reference counts. *)
Definition zero_ref_hit_blocks (p : PrefixReusePlan) (w : world) : Z :=
  Z.of_nat (length (filter (λ b, ref_count (blk w b) = 0) (hit_blocks p))).

(** [_is_gpu_hit] *)
Definition is_gpu_hit (w : world) (b : option bref) : bool :=
  match b with
  | None => false
  | Some b =>
      cached (blk w b) && is_full (blk w b) && bool_decide (device (blk w b) = GPU)
  end.

(** The loop of [plan_reuse]: the longest cached prefix of the key chain. *)
Fixpoint hit_loop (w : world) (keys : list PrefixCacheKey) : list bref :=
  match keys with
  | [] => []
  | key :: keys =>
      match w_cache w !! key with
      | Some b => if is_gpu_hit w (Some b) then b :: hit_loop w keys else []
      | None => []
      end
  end.

Section KVCacheManager.
Context `{Digest}.

(** [build_prefix_keys(...)] on the module-level chain cache *)
Definition build_keys (hashes : list hash_id) (r : Z) : M world (list PrefixCacheKey) := λ w,
  let '(keys, chains) :=
    build_prefix_keys hashes (w_model w) (cache_salt (req w r)) (reuse_group (req w r))
      (w_chains w) in
  (Ok keys, w <| w_chains := chains |>).

(** [_build_input_keys] *)
Definition build_input_keys (r full : Z) : M world (list PrefixCacheKey) :=
  w ← gets id;
  match hash_ids (req w r) with
  | None | Some [] => mret []
  | Some hashes =>
      let fill :=
        keys ← build_keys (slice_to full hashes) r;
        modify (λ w, w <| w_input_keys ::= <[r := keys]> |>) ;;
        mret keys in
      match w_input_keys w !! r with
      | None => fill
      | Some keys => if Z.of_nat (length keys) =? full then mret keys else fill
      end
  end.

Definition truthy {A} (l : option (list A)) : bool :=
  match l with None | Some [] => false | Some _ => true end.

Definition plan_reuse (r : Z) : M world PrefixReusePlan :=
  w ← gets id;
  full ← floordiv (prefill_len (req w r)) (w_block_size w);
  keys ← build_input_keys r full;
  w ← gets id;
  let hits := hit_loop w keys in
  let tokens := Z.of_nat (length hits) * w_block_size w in
  mret (mkPlan r hits keys full (num_logical_token_blocks (req w r))
          (truthy (hash_ids (req w r))) tokens (prefill_len (req w r) - tokens)).

(** [apply_reuse_metrics] *)
Definition apply_reuse_metrics (p : PrefixReusePlan) (q : Request) : Request :=
  q <| cached_prefill_blocks := hit_block_count p |>
    <| cached_prefill_tokens := hit_tokens p |>
    <| effective_prefill_tokens := Some (plan_effective_prefill_tokens p) |>
    <| reuse_hit_blocks := hit_block_count p |>
    <| reuse_miss_blocks := plan_reuse_miss_blocks p |>.

Definition apply_plan (r : Z) (p : PrefixReusePlan) : M world unit :=
  set_req r (apply_reuse_metrics p) ;;
  set_req r (λ q, q <| input_cache_keys := SharedKey <$> input_keys p |> <| input_cache_committed := false |>).

(** One iteration of [register_blocks]. *)
Definition register_block (bk : bref * PrefixCacheKey) : M world unit :=
  let '(b, key) := bk in
  o ← gets (λ w, blk w b);
  when (match block_hash o with Some h => negb (bool_decide (h = key)) | None => false end)
    (evict b) ;;
  set_blk b (λ o, o <| block_hash := Some key |> <| is_full := true |> <| cached := true |>) ;;
  modify (λ w, w <| w_cache ::= <[key := b]> |>) ;;
  touch b.

Definition register_blocks (blocks : list bref) (keys : list PrefixCacheKey) : M world unit :=
  for_ (zip blocks keys) register_block.

Definition register_output_blocks (r : Z) (blocks : list bref) : M world unit :=
  w ← gets id;
  let q := req w r in
  let bs := w_block_size w in
  if negb (truthy (output_hash_ids q)) then mret tt
  else
    full ← floordiv (prefill_len q) bs;
    if negb (prefill_len q mod bs =? 0) then mret tt
    else if Z.of_nat (length (default [] (hash_ids q))) <? full then mret tt
    else
      let output_full := decode_len q / bs in
      if output_full <=? 0 then mret tt
      else
        match slice_to output_full (default [] (output_hash_ids q)) with
        | [] => mret tt
        | out_hashes =>
            let in_hashes := slice_to full (default [] (hash_ids q)) in
            all_keys ← build_keys (in_hashes ++ out_hashes) r;
            let keys := drop (length in_hashes) all_keys in
            let output_end :=
              Z.min (full + Z.of_nat (length keys)) (Z.of_nat (length blocks)) in
            if output_end <=? full then mret tt
            else
              register_blocks
                (drop (Z.to_nat full) (take (Z.to_nat output_end) blocks))
                (slice_to (output_end - full) keys)
        end.

Definition forget_request (r : Z) : M world unit :=
  modify (λ w, w <| w_input_keys ::= delete r |>).
End KVCacheManager.
