(* ===== verification/BlockManager.v ===== *)
(** * The uniform block manager ([TokenSim/block/block_manager.py],
      [TokenSim/block/block_table.py]) *)

From stdpp Require Import gmap list.
From Stdlib Require Import ZArith Lia.
From S2P Require Import Prelude.
From S2P Require Import Block.
From S2P Require Import FreeQueue.
From S2P Require Import PrefixKeys.
From S2P Require Import PyFloat.
From S2P Require Import Request.
From S2P Require Import World.
From S2P Require Import BlockPool.
From S2P Require Import KVCacheManager.

Open Scope Z_scope.

(** ** [BlockTable] *)

Definition add_block (r : Z) (b : bref) (w : world) : world :=
  w <| w_table ::= λ t, <[r := default [] (t !! r) ++ [b]]> t |>.

Definition add_blocks (r : Z) (bs : list bref) (w : world) : world :=
  w <| w_table ::= λ t, <[r := default [] (t !! r) ++ bs]> t |>.

Definition get_blocks (r : Z) (w : world) : list bref := default [] (w_table w !! r).

Definition table_num_blocks (r : Z) (w : world) : Z := Z.of_nat (length (get_blocks r w)).

Definition pop_blocks (r : Z) : M world (list bref) :=
  bs ← gets (get_blocks r);
  modify (λ w, w <| w_table ::= delete r |>) ;;
  mret bs.

Definition set_blocks (r : Z) (bs : list bref) (w : world) : world :=
  match bs with
  | [] => w <| w_table ::= delete r |>
  | _ => w <| w_table ::= <[r := bs]> |>
  end.

Definition pop_last_block (r : Z) : M world (option bref) :=
  bs ← gets (get_blocks r);
  match last bs with
  | None => mret None
  | Some b =>
      modify (λ w, w <| w_table ::= <[r := removelast bs]> |>) ;;
      (match removelast bs with
       | [] => modify (λ w, w <| w_table ::= delete r |>)
       | _ => mret tt
       end) ;;
      mret (Some b)
  end.

Definition request_ids (w : world) : gset Z := dom (w_table w).

Section BlockManager.
Context `{Digest}.

(** ** [BlockManager] *)

Definition can_allocate (r : Z) : M world bool :=
  plan ← plan_reuse r;
  w ← gets id;
  mret (w_watermark_blocks w <=?
    get_num_free_blocks GPU w - zero_ref_hit_blocks plan w - miss_block_count plan).

(** [_sync_request_blocks] *)
Definition sync_request_blocks (r : Z) (bs : list bref) : M world unit :=
  set_req r (λ q, q <| physical_token_blocks := [] |>) ;;
  for_ bs (λ b, set_req r (λ q, q <| physical_token_blocks ::= λ l, l ++ [b] |>)).

(** [_mark_input_blocks_pending]: the loop over [enumerate(plan.input_keys)] *)
Definition mark_pending (bs : list bref) (p : PrefixReusePlan) (ik : nat * PrefixCacheKey) :
    M world unit :=
  let '(index, key) := ik in
  if (Z.of_nat index <? hit_block_count p) then mret tt
  else
    match bs !! index with
    | None => mret tt
    | Some b =>
        set_blk b (λ o, o <| block_hash := Some key |> <| is_full := true |> <| cached := false |>)
    end.

Definition mark_input_blocks_pending (r : Z) (bs : list bref) (p : PrefixReusePlan) :
    M world unit :=
  match input_keys p with
  | [] => set_req r (λ q, q <| input_cache_keys := [] |>)
  | keys =>
      set_req r (λ q, q <| input_cache_keys := SharedKey <$> keys |>) ;;
      for_ (zip (seq 0 (length keys)) keys) (mark_pending bs p)
  end.

Definition allocate (r : Z) : M world unit :=
  n ← gets (table_num_blocks r);
  if negb (n =? 0) then raise SimulationStateError
  else
    plan ← plan_reuse r;
    bs ← collect
      (((λ b, acquire GPU b ;; mret b) <$> hit_blocks plan) ++
       replicate (Z.to_nat (miss_block_count plan)) (alloc_block GPU))
      (λ acc, for_ (reverse acc) (free_block GPU)) [];
    apply_plan r plan ;;
    modify (add_blocks r bs) ;;
    sync_request_blocks r bs ;;
    mark_input_blocks_pending r bs plan.

(** [_num_blocks] and [get_request_block_counts] *)
Definition num_blocks (r : Z) (w : world) : Z :=
  int_or (table_num_blocks r w) (num_physical_token_blocks (req w r)).

Definition get_request_block_counts (rs : list Z) (w : world) : list (Z * Z) :=
  (λ r, (r, num_blocks r w)) <$> rs.

(** [_free_block] *)
Definition free_any (b : bref) : M world unit :=
  d ← gets (λ w, device (blk w b));
  free_block d b.

(** [_commit_input_cache]; only the hybrid manager puts request-local keys in the
    list, so all of them are shared here *)
Definition commit_input_cache (r : Z) : M world unit :=
  w ← gets id;
  if input_cache_committed (req w r) then mret tt
  else
    let keys := shared_keys (input_cache_keys (req w r)) in
    (match keys with
     | [] => mret tt
     | _ => register_blocks (take (length keys) (get_blocks r w)) keys
     end) ;;
    set_req r (λ q, q <| input_cache_committed := true |>).

Definition commit_finished_cache (r : Z) : M world unit :=
  commit_input_cache r ;;
  bs ← gets (get_blocks r);
  register_output_blocks r bs.

Definition release_request_blocks (r : Z) : M world unit :=
  popped ← pop_blocks r;
  bs ← (match popped with
        | [] => gets (λ w, physical_token_blocks (req w r))
        | _ => mret popped
        end);
  for_ bs free_any ;;
  set_req r (λ q, q <| physical_token_blocks := [] |>) ;;
  forget_request r.

(** [BlockManager.free] *)
Definition free_request (r : Z) : M world unit :=
  commit_finished_cache r ;;
  release_request_blocks r.

Definition needs_slot (r : Z) (w : world) : bool :=
  table_num_blocks r w <? num_logical_token_blocks (req w r).

Definition can_append_slot (r reserved_blocks : Z) (w : world) : bool :=
  (if needs_slot r w then 1 else 0) + reserved_blocks <=? get_num_free_blocks GPU w.

Definition append_slot (r : Z) : M world unit :=
  w ← gets id;
  if needs_slot r w then
    b ← alloc_block GPU;
    modify (add_block r b) ;;
    set_req r (λ q, q <| physical_token_blocks ::= λ l, l ++ [b] |>)
  else mret tt.

Definition rollback_last_block (r : Z) : M world unit :=
  b ← pop_last_block r;
  match b with
  | None => mret tt
  | Some b =>
      free_any b ;;
      bs ← gets (get_blocks r);
      sync_request_blocks r bs
  end.

Definition fork (parent child : Z) : M world unit :=
  n ← gets (table_num_blocks child);
  if negb (n =? 0) then raise SimulationStateError
  else
    parent_blocks ← gets (get_blocks parent);
    match parent_blocks with
    | [] => raise SimulationStateError
    | _ =>
        acquired ← collect
          ((λ b, d ← gets (λ w, device (blk w b)); acquire d b ;; mret b) <$> parent_blocks)
          (λ acc, for_ (reverse acc) free_any) [];
        modify (add_blocks child acquired) ;;
        sync_request_blocks child acquired
    end.

Definition can_swap_to (d : Device) (r : Z) (w : world) : bool :=
  negb (table_num_blocks r w =? 0) && (table_num_blocks r w <=? get_num_free_blocks d w).

Definition can_swap_out (r : Z) : world → bool := can_swap_to CPU r.
Definition can_swap_in (r : Z) : world → bool := can_swap_to GPU r.

(** [_validate_blocks_device] *)
Definition validate_blocks_device (bs : list bref) (expected : Device) : M world unit :=
  for_ bs (λ b,
    d ← gets (λ w, device (blk w b));
    if bool_decide (d = expected) then mret tt else raise SimulationStateError).

(** [_swap] *)
Definition swap_block (target : Device) (src : bref) : M world bref :=
  b ← alloc_block target;
  o ← gets (λ w, blk w src);
  set_blk b (λ t, t <| block_hash := block_hash o |> <| is_full := is_full o |>
                    <| cached := false |>) ;;
  mret b.

Definition swap (r : Z) (source target : Device) : M world unit :=
  source_blocks ← gets (get_blocks r);
  validate_blocks_device source_blocks source ;;
  free ← gets (get_num_free_blocks target);
  if free <? Z.of_nat (length source_blocks) then raise OutOfBlocksError
  else
    target_blocks ← collect (swap_block target <$> source_blocks)
      (λ acc, for_ (reverse acc) (free_block target)) [];
    modify (set_blocks r target_blocks) ;;
    sync_request_blocks r target_blocks ;;
    for_ source_blocks free_any.

Definition swap_out (r : Z) : M world unit := swap r GPU CPU.
Definition swap_in (r : Z) : M world unit := swap r CPU GPU.

Definition reserve_gpu_blocks (n : Z) : M world unit :=
  allocated ← collect (replicate (Z.to_nat n) (alloc_block GPU))
    (λ acc, for_ acc (free_block GPU)) [];
  modify (λ w, w <| w_reserved ::= λ l, l ++ allocated |>).

(** One [gpu_allocator.free(self._reserved_gpu_blocks.pop(0))] *)
Definition release_one_reserved : M world unit :=
  reserved ← gets w_reserved;
  match reserved with
  | [] => raise IndexError
  | b :: rest => modify (λ w, w <| w_reserved := rest |>) ;; free_block GPU b
  end.

Definition release_reserved_blocks (num : option Z) : M world unit :=
  len ← gets (λ w, Z.of_nat (length (w_reserved w)));
  let n := default len num in
  if n <? 0 then raise SimulationStateError
  else if len <? n then raise SimulationStateError
  else for_range n release_one_reserved.
End BlockManager.
