(* ===== verification/BlockInv.v ===== *)
(** * Invariant of the block components

    [Inv limbo ext w] relates the block heap, the pools, their free queues, the
    prefix cache, the block tables and the requests.  Reference counts are
    exact: a block's [ref_count] is the number of its occurrences in the block
    tables, in the reserved list and in [ext], the list of references a running
    operation holds in a local variable.  [limbo] holds a block taken out of the
    free queue whose count is still zero.  Between operations both are empty. *)

From stdpp Require Import gmap list.
From Stdlib Require Import ZArith Lia.
From S2P Require Import Prelude.
From S2P Require Import Block.
From S2P Require Import FreeQueue.
From S2P Require Import PrefixKeys.
From S2P Require Import PyFloat.
From S2P Require Import Request.
From S2P Require Import World.
From S2P Require Import BlockPool.
From S2P Require Import KVCacheManager.
From S2P Require Import BlockManager.

Open Scope Z_scope.

(** ** Counting references *)

(** All references held by block tables. *)
Definition table_refs (t : gmap Z (list bref)) : list bref := mjoin (map_to_list t).*2.

Lemma table_refs_insert_fresh t r l :
  t !! r = None → table_refs (<[r := l]> t) ≡ₚ l ++ table_refs t.
Proof. intros Hr. unfold table_refs. by rewrite map_to_list_insert. Qed.

Lemma table_refs_split t r : table_refs t ≡ₚ default [] (t !! r) ++ table_refs (delete r t).
Proof.
  destruct (t !! r) as [l|] eqn:Hr; cbn.
  - rewrite <- table_refs_insert_fresh by apply lookup_delete_eq. by rewrite insert_delete_id.
  - by rewrite delete_id.
Qed.

Lemma table_refs_insert t r l :
  table_refs (<[r := l]> t) ≡ₚ l ++ table_refs (delete r t).
Proof.
  rewrite <- table_refs_insert_fresh by apply lookup_delete_eq. by rewrite insert_delete_eq.
Qed.

(** The references stored in the manager. *)
Definition refs (w : world) : list bref := table_refs (w_table w) ++ w_reserved w.

(** ** The invariant *)

Record pool_ok (d : Device) (p : BlockPool) (heap : gmap bref block) (limbo : list bref) :
    Prop := {
  po_device : p_device p = d;
  po_fresh : 0 <= p_next_fresh p <= p_num_blocks p;
  po_wf : wf (p_free p);
  po_mat n b :
    p_materialized p !! n = Some b → ∃ o, heap !! b = Some o ∧ device o = d ∧ block_number o = n;
  po_dom n : is_Some (p_materialized p !! n) ↔ 0 <= n < p_next_fresh p;
  po_queued n b :
    queued (p_free p) !! n = Some b ↔
    p_materialized p !! n = Some b ∧ ref_count (heap !!! b) = 0 ∧ b ∉ limbo;
}.

(** A published GPU block carries its key. *)
Definition published (k : PrefixCacheKey) (o : block) : Prop :=
  device o = GPU → block_hash o = Some k ∧ cached o = true ∧ is_full o = true.

Section Invariant.
Context `{Digest}.

(** The key chain of the first [n] hash ids of a request. *)
Definition request_keys (w : world) (r : Z) (hashes : list hash_id) : list PrefixCacheKey :=
  ref_keys (make_extra_hash (w_model w) (cache_salt (req w r)) (reuse_group (req w r)))
    (signature <$> hashes).

Record Inv (limbo ext : list bref) (w : world) : Prop := {
  i_pool d : pool_ok d (pool d w) (w_heap w) limbo;
  i_owned b o :
    w_heap w !! b = Some o →
    (b < w_fresh w)%nat ∧ p_materialized (pool (device o) w) !! block_number o = Some b;
  i_refs b o : w_heap w !! b = Some o → ref_count o = occ b (refs w ++ ext);
  i_known b : b ∈ (refs w ++ ext) → is_Some (w_heap w !! b);
  i_cache k b : w_cache w !! k = Some b → ∃ o, w_heap w !! b = Some o ∧ published k o;
  i_keys r ks :
    w_input_keys w !! r = Some ks →
    ∃ hs, hash_ids (req w r) = Some hs ∧ ks = request_keys w r (take (length ks) hs);
  i_chains : cache_ok (w_chains w);
}.

(** The requests' own block lists mirror the block table. *)
Definition Sync (w : world) : Prop := ∀ r, physical_token_blocks (req w r) = get_blocks r w.

(** Between operations: no reference is in flight. *)
Definition Consistent (w : world) : Prop := Inv [] [] w ∧ Sync w.

Lemma pool_update d d' f w :
  pool d' (update_pool d f w) = if decide (d = d') then f (pool d w) else pool d' w.
Proof. by destruct d, d'. Qed.

Lemma update_pool_fields d f w :
  w_heap (update_pool d f w) = w_heap w ∧ w_fresh (update_pool d f w) = w_fresh w ∧
  w_reqs (update_pool d f w) = w_reqs w ∧ w_chains (update_pool d f w) = w_chains w ∧
  w_cache (update_pool d f w) = w_cache w ∧ w_input_keys (update_pool d f w) = w_input_keys w ∧
  w_table (update_pool d f w) = w_table w ∧ w_reserved (update_pool d f w) = w_reserved w ∧
  w_model (update_pool d f w) = w_model w.
Proof. by destruct d. Qed.

(** *** Initial state *)

Lemma fresh_world_inv reqs chains bs gpus cpus model wm :
  0 <= gpus → 0 <= cpus → cache_ok chains →
  (∀ r, physical_token_blocks (reqs !!! r) = []) →
  Consistent (fresh_world reqs chains bs gpus cpus model wm).
Proof.
  intros Hg Hc Hch Hreqs. split; [|intros r; unfold req, get_blocks; cbn; by rewrite lookup_empty].
  unfold fresh_world. split; cbn.
  - intros d. destruct d; (split; cbn;
      [done|lia|apply empty_queue_wf|by intros ? b Hb; rewrite lookup_empty in Hb
      |intros n; split; [by intros [? ?%lookup_empty_Some]|lia]|]);
      intros n b; (split; [|by intros [Hb _]; rewrite lookup_empty in Hb]);
      rewrite queued_spec by apply empty_queue_wf; set_solver.
  - intros b o Hb. by rewrite lookup_empty in Hb.
  - intros b o Hb. by rewrite lookup_empty in Hb.
  - intros b. unfold refs, table_refs. cbn. rewrite map_to_list_empty. set_solver.
  - intros k b Hb. by rewrite lookup_empty in Hb.
  - intros r ks Hk. by rewrite lookup_empty in Hk.
  - done.
Qed.

(** *** Changing one block object *)

Lemma pool_ok_alter d p heap L L' b f o :
  pool_ok d p heap L → heap !! b = Some o →
  device (f o) = device o → block_number (f o) = block_number o →
  (∀ b', b' ≠ b → b' ∈ L ↔ b' ∈ L') →
  (ref_count (f o) = 0 ∧ b ∉ L' ↔ ref_count o = 0 ∧ b ∉ L) →
  pool_ok d p (alter f b heap) L'.
Proof.
  intros [Hd Hf Hwf Hm Hdom Hq] Hb Hdev Hnum HL Href. split; [done..| |done|].
  - intros n b' Hb'. destruct (Hm n b' Hb') as (o' & Ho' & ? & ?).
    destruct (decide (b' = b)) as [->|Hne].
    + rewrite lookup_alter_eq, Hb. simplify_eq. exists (f o). cbn. split; [done|]. by rewrite Hdev, Hnum.
    + rewrite lookup_alter_ne by done. eauto.
  - intros n b'. rewrite Hq. destruct (decide (b' = b)) as [->|Hne].
    + rewrite !lookup_total_alt, lookup_alter_eq, Hb. cbn. tauto.
    + rewrite lookup_total_alter_ne by done. by rewrite HL.
Qed.

Lemma inv_alter L L' ext ext' w b f o :
  Inv L ext w → w_heap w !! b = Some o →
  device (f o) = device o → block_number (f o) = block_number o →
  (∀ k, w_cache w !! k = Some b → published k o → published k (f o)) →
  (∀ b', b' ≠ b → b' ∈ L ↔ b' ∈ L') →
  (ref_count (f o) = 0 ∧ b ∉ L' ↔ ref_count o = 0 ∧ b ∉ L) →
  ref_count (f o) = ref_count o + (occ b ext' - occ b ext) →
  (∀ b', b' ≠ b → occ b' ext' = occ b' ext) →
  Inv L' ext' (w <| w_heap ::= alter f b |>).
Proof.
  intros [Hp Ho Hr Hk Hc Hi Hch] Hb Hdev Hnum Hpub HL HLb Hdelta Hext.
  split; cbn; [| | | | |done|done].
  - intros d. by eapply (pool_ok_alter _ _ _ L).
  - intros b' o'. destruct (decide (b' = b)) as [->|Hne].
    + rewrite lookup_alter_eq, Hb. intros [= <-]. rewrite Hdev, Hnum. by apply (Ho b o).
    + rewrite lookup_alter_ne by done. apply Ho.
  - change (refs _) with (refs w). intros b' o'. destruct (decide (b' = b)) as [->|Hne].
    + rewrite lookup_alter_eq, Hb. intros [= <-]. rewrite Hdelta, (Hr b o Hb), !occ_app. lia.
    + rewrite lookup_alter_ne by done. rewrite occ_app, Hext, <- occ_app by done. apply Hr.
  - change (refs _) with (refs w). intros b' Hb'. destruct (decide (b' = b)) as [->|Hne].
    + rewrite lookup_alter_eq, Hb. by eexists.
    + rewrite lookup_alter_ne by done. apply Hk. apply occ_pos. apply occ_pos in Hb'.
      by rewrite occ_app, <- Hext, <- occ_app.
  - intros k b' Hb'. destruct (Hc k b' Hb') as (o' & Ho' & Hpo).
    destruct (decide (b' = b)) as [->|Hne].
    + rewrite lookup_alter_eq, Hb. simplify_eq. exists (f o). split; [done|]. by apply Hpub.
    + rewrite lookup_alter_ne by done. eauto.
Qed.

(** Metadata only. *)
Lemma inv_meta L ext w b f o :
  Inv L ext w → w_heap w !! b = Some o →
  device (f o) = device o → block_number (f o) = block_number o →
  ref_count (f o) = ref_count o →
  (∀ k, w_cache w !! k = Some b → published k o → published k (f o)) →
  Inv L ext (w <| w_heap ::= alter f b |>).
Proof. intros. eapply inv_alter; try done; [by rewrite H4|lia]. Qed.

(** [block.ref_count += 1] on a block that is not queued. *)
Lemma inv_incr L ext w b o :
  Inv L ext w → w_heap w !! b = Some o → L ⊆ [b] → (ref_count o = 0 → b ∈ L) →
  Inv [] (b :: ext) (w <| w_heap ::= alter (λ o, o <| ref_count ::= Z.succ |>) b |>).
Proof.
  intros Hinv Hb HL Hz. pose proof (i_refs _ _ _ Hinv b o Hb) as Hr.
  pose proof (occ_nonneg b (refs w ++ ext)).
  eapply (inv_alter L _ ext); try done; cbn.
  - set_solver.
  - split; [lia|]. intros [? ?]. tauto.
  - rewrite occ_cons, decide_True by done. lia.
  - intros b' Hne. rewrite occ_cons, decide_False by done. lia.
Qed.

(** [block.ref_count -= 1]: the block is in limbo when the count drops to zero. *)
Lemma inv_decr ext w b o :
  Inv [] (b :: ext) w → w_heap w !! b = Some o →
  0 < ref_count o ∧
  Inv (if ref_count o =? 1 then [b] else []) ext
    (w <| w_heap ::= alter (λ o, o <| ref_count ::= Z.pred |>) b |>).
Proof.
  intros Hinv Hb. pose proof (i_refs _ _ _ Hinv b o Hb) as Hr.
  rewrite occ_app, occ_cons, decide_True in Hr by done.
  pose proof (occ_nonneg b (refs w)). pose proof (occ_nonneg b ext). split; [lia|].
  eapply (inv_alter [] _ (b :: ext)); try done; cbn.
  - intros b' Hne. destruct (_ =? 1); set_solver.
  - destruct (Z.eqb_spec (ref_count o) 1); [|split; [lia|]; intros [? ?]; lia].
    split; [set_solver|]. intros [? ?]; lia.
  - rewrite occ_cons, decide_True by done. lia.
  - intros b' Hne. rewrite occ_cons, decide_False by done. lia.
Qed.

(** *** Free queues *)

(** A new free queue for one pool. *)
Lemma inv_queue d q L L' ext w :
  Inv L ext w → wf q →
  (∀ n b, p_materialized (pool d w) !! n = Some b →
     (queued q !! n = Some b ↔ ref_count (blk w b) = 0 ∧ b ∉ L')) →
  (∀ n b, queued q !! n = Some b → p_materialized (pool d w) !! n = Some b) →
  (∀ b o, w_heap w !! b = Some o → device o ≠ d → b ∈ L ↔ b ∈ L') →
  Inv L' ext (update_pool d (λ p, p <| p_free := q |>) w).
Proof.
  intros [Hp Ho Hr Hk Hc Hi Hch] Hwf Hq Hsub HL.
  destruct (update_pool_fields d (λ p, p <| p_free := q |>) w)
    as (E1 & E2 & E3 & E4 & E5 & E6 & E7 & E8 & E9).
  split; unfold req, refs, get_blocks, request_keys, req; rewrite ?E1, ?E2, ?E3, ?E4, ?E5, ?E6,
    ?E7, ?E8, ?E9; try done.
  - intros d'. rewrite pool_update. case_decide as Hd.
    + subst d'. destruct (Hp d) as [? ? _ ? ? _]. split; cbn; try done.
      intros n b. split.
      * intros Hqb. pose proof (Hsub n b Hqb) as Hm. split; [done|]. by apply Hq in Hqb.
      * intros [Hm Hb]. by apply Hq.
    + destruct (Hp d') as [? ? ? Hm ? Hq']. split; try done. intros n b. rewrite Hq'.
      split; intros (Hb & ? & ?); (split; [done|]; split; [done|]);
        destruct (Hm n b Hb) as (o & Hbo & ? & _); apply (HL b o) in Hbo; congruence || tauto.
  - intros b o Hb. rewrite pool_update. destruct (Ho b o Hb). split; [done|].
    by case_decide as Hd; [subst d|].
Qed.

(** Taking a block out of its queue puts it in limbo. *)
Lemma inv_dequeue d q ext w n b :
  Inv [] ext w → wf q → p_materialized (pool d w) !! n = Some b →
  queued q = delete n (queued (p_free (pool d w))) →
  Inv [b] ext (update_pool d (λ p, p <| p_free := q |>) w).
Proof.
  intros Hinv Hwf Hm Hq. destruct (i_pool _ _ _ Hinv d) as [_ _ _ Hmat _ Hqd].
  eapply inv_queue; try done.
  - intros n' b' Hb'. rewrite Hq, lookup_delete_Some, Hqd. split.
    + intros (Hne & _ & ? & _). split; [done|]. intros Heq. apply Hne.
      apply list_elem_of_singleton in Heq as ->.
      destruct (Hmat _ _ Hm) as (o & Ho & _ & <-), (Hmat _ _ Hb') as (o' & Ho' & _ & <-).
      by simplify_eq.
    + intros [Hz Hnb]. split; [intros <-; simplify_eq; set_solver|]. split; [done|].
      split; [done|]. set_solver.
  - intros n' b'. rewrite Hq, lookup_delete_Some, Hqd. tauto.
  - intros b' o Hb' Hd. destruct (Hmat _ _ Hm) as (o' & Ho' & ? & _).
    rewrite elem_of_nil, list_elem_of_singleton. split; [done|]. intros ->. by simplify_eq.
Qed.

(** Queueing the block in limbo. *)
Lemma inv_enqueue d q ext w b o :
  Inv [b] ext w → w_heap w !! b = Some o → device o = d → ref_count o = 0 → wf q →
  queued q = <[block_number o := b]> (queued (p_free (pool d w))) →
  Inv [] ext (update_pool d (λ p, p <| p_free := q |>) w).
Proof.
  intros Hinv Hb Hd Hz Hwf Hq. destruct (i_owned _ _ _ Hinv b o Hb) as [_ Hm]. rewrite Hd in Hm.
  destruct (i_pool _ _ _ Hinv d) as [_ _ _ Hmat _ Hqd].
  eapply inv_queue; try done.
  - intros n' b' Hb'. rewrite Hq, lookup_insert_Some, Hqd. split.
    + intros [[<- <-]|(Hne & _ & ? & _)]; [|by split; [|set_solver]].
      unfold blk. rewrite (lookup_total_correct _ _ _ Hb). split; [done|set_solver].
    + intros [Hz' _]. destruct (decide (b' = b)) as [->|Hne].
      * left. split; [|done]. destruct (Hmat _ _ Hb') as (o' & Ho' & _ & <-). by simplify_eq.
      * right. split; [intros <-; congruence|]. split; [done|]. split; [done|]. set_solver.
  - intros n' b'. rewrite Hq, lookup_insert_Some, Hqd. intros [[<- <-]|]; [done|tauto].
  - intros b' o' Hb' Hd'. rewrite elem_of_nil, list_elem_of_singleton. split; [|done].
    intros ->. by simplify_eq.
Qed.

(** A fresh block object. *)
Lemma inv_fresh d ext w :
  Inv [] ext w → p_next_fresh (pool d w) < p_num_blocks (pool d w) →
  let b := w_fresh w in
  let p := pool d w in
  Inv [b] ext
    (update_pool d (λ p, p <| p_next_fresh ::= Z.succ |>)
      (update_pool d (λ p, p <| p_materialized ::= <[p_next_fresh p := b]> |>)
        (w <| w_heap ::= <[b := new_block (p_device p) (p_next_fresh p) (p_block_size p)]> |>
           <| w_fresh ::= S |>))).
Proof.
  intros [Hp Ho Hr Hk Hc Hi Hch] Hlt. cbn zeta. set (b := w_fresh w).
  set (o := new_block _ _ _).
  assert (w_heap w !! b = None) as Hb.
  { destruct (w_heap w !! b) eqn:Hb; [|done]. apply Ho in Hb as [Hb _]. unfold b in Hb. lia. }
  assert (p_materialized (pool d w) !! p_next_fresh (pool d w) = None) as Hnone.
  { apply eq_None_not_Some. rewrite (po_dom _ _ _ _ (Hp d)). lia. }
  assert (b ∉ (refs w ++ ext)) as Hnb by (intros [? ?]%Hk; congruence).
  match goal with |- Inv _ _ ?x => set (w' := x) end.
  assert (∀ d', pool d' w' = if decide (d = d') then
    pool d w <| p_materialized ::= <[p_next_fresh (pool d w) := b]> |> <| p_next_fresh ::= Z.succ |>
    else pool d' w) as Hpool by (by destruct d, d').
  assert (w_heap w' = <[b := o]> (w_heap w)) as Hheap by (by destruct d).
  assert (refs w' = refs w) as Hrefs by (by destruct d).
  split; rewrite ?Hheap, ?Hrefs; try (by destruct d).
  - intros d'. rewrite Hpool. case_decide as Hd.
    + subst d'. destruct (Hp d) as [Hd Hf Hwf Hm Hdom Hq]. split; cbn; [done|lia|done|..].
      * intros n b'. rewrite lookup_insert_Some. intros [[<- <-]|[Hne Hb']].
        -- exists o. by rewrite lookup_insert_eq.
        -- destruct (Hm n b' Hb') as (o' & Ho' & ? & ?). exists o'.
           rewrite lookup_insert_ne by congruence. done.
      * intros n. rewrite lookup_insert_is_Some', Hdom. lia.
      * intros n b'. rewrite Hq, lookup_insert_Some.
        split; intros [Hm' [Hz Hl]].
        -- assert (b' ≠ b) by (destruct (Hm n b' Hm') as (? & ? & _); congruence).
           rewrite lookup_total_insert_ne by done. split; [right; split; [congruence|done]|].
           split; [done|set_solver].
        -- destruct Hm' as [[<- <-]|[Hne Hm']]; [set_solver|].
           assert (b' ≠ b) by (destruct (Hm n b' Hm') as (? & ? & _); congruence).
           rewrite lookup_total_insert_ne in Hz by done. split; [done|]. split; [done|set_solver].
    + destruct (Hp d') as [? ? ? Hm ? Hq]. split; try done.
      * intros n b' Hb'. destruct (Hm n b' Hb') as (o' & Ho' & ?). exists o'.
        rewrite lookup_insert_ne by congruence. done.
      * intros n b'. rewrite Hq. split; intros (Hm' & Hz & ?);
          assert (b' ≠ b) by (destruct (Hm n b' Hm') as (? & ? & _); congruence);
          rewrite lookup_total_insert_ne in * by done; (split; [done|]; split; [done|set_solver]).
  - intros b' o'. rewrite lookup_insert_Some. intros [[<- <-]|[Hne Hb']].
    + split; [destruct d; cbn; unfold b; lia|]. rewrite Hpool.
      rewrite decide_True by (symmetry; apply (po_device _ _ _ _ (Hp d))).
      cbn. by rewrite lookup_insert_eq.
    + destruct (Ho b' o' Hb') as [? Hm]. split; [destruct d; cbn; lia|]. rewrite Hpool.
      case_decide; [subst d|done]. cbn. rewrite lookup_insert_ne; [done|congruence].
  - intros b' o'. rewrite lookup_insert_Some. intros [[<- <-]|[Hne Hb']]; [|by apply Hr].
    symmetry. by apply occ_zero.
  - intros b' Hb'. rewrite lookup_insert_is_Some'. right. by apply Hk.
  - intros k b' Hb'. assert (w_cache w !! k = Some b') as Hb'' by (by destruct d).
    destruct (Hc k b' Hb'') as (o' & Ho' & ?). exists o'. rewrite lookup_insert_ne by congruence. done.
Qed.

(** *** The cache index *)

Lemma inv_cache L ext w c :
  Inv L ext w →
  (∀ k b, c !! k = Some b → ∃ o, w_heap w !! b = Some o ∧ published k o) →
  Inv L ext (w <| w_cache := c |>).
Proof. intros [] Hc. by split. Qed.
End Invariant.
