(* ===== verification/Allocator.v ===== *)
(** * Contracts of the allocator operations

    [alloc_block], [acquire], [free_block] and the metadata operations keep the
    invariant; each contract says which reference it creates or gives back and
    when it raises.  [frame] says what the allocator leaves alone. *)

From stdpp Require Import gmap list.
From Stdlib Require Import ZArith Lia.
From S2P Require Import Prelude.
From S2P Require Import Block.
From S2P Require Import FreeQueue.
From S2P Require Import PrefixKeys.
From S2P Require Import PyFloat.
From S2P Require Import Request.
From S2P Require Import World.
From S2P Require Import BlockPool.
From S2P Require Import KVCacheManager.
From S2P Require Import BlockManager.
From S2P Require Import BlockInv.

Open Scope Z_scope.

(** ** What the allocator leaves alone *)

Record frame (w w' : world) : Prop := {
  f_table : w_table w' = w_table w;
  f_reserved : w_reserved w' = w_reserved w;
  f_reqs : w_reqs w' = w_reqs w;
  f_chains : w_chains w' = w_chains w;
  f_input_keys : w_input_keys w' = w_input_keys w;
  f_block_size : w_block_size w' = w_block_size w;
  f_model : w_model w' = w_model w;
  f_watermark : w_watermark_blocks w' = w_watermark_blocks w;
  f_num_blocks d : p_num_blocks (pool d w') = p_num_blocks (pool d w);
  f_cache k b : w_cache w' !! k = Some b → w_cache w !! k = Some b;
  f_heap b o : w_heap w !! b = Some o → ∃ o', w_heap w' !! b = Some o' ∧ device o' = device o;
}.

#[global] Instance frame_preorder : PreOrder frame.
Proof.
  split.
  - intros w. split; eauto.
  - intros w1 w2 w3 [] []. split; try congruence; [by auto|].
    intros b o Hb. edestruct f_heap0 as (o' & Ho' & ?); [done|].
    edestruct f_heap1 as (o'' & ? & ?); [done|]. exists o''. split; [done|congruence].
Qed.

Lemma frame_refs w w' : frame w w' → refs w' = refs w.
Proof. intros [Ht Hr _ _ _ _ _ _ _ _ _]. unfold refs. by rewrite Ht, Hr. Qed.

Lemma frame_alter b f w :
  (∀ o, device (f o) = device o) → frame w (w <| w_heap ::= alter f b |>).
Proof.
  intros Hf. split; try done. intros b' o Hb. cbn. destruct (decide (b = b')) as [->|].
  - rewrite lookup_alter_eq, Hb. cbn. eauto.
  - rewrite lookup_alter_ne by done. eauto.
Qed.

Lemma frame_queue d q w : frame w (update_pool d (λ p, p <| p_free := q |>) w).
Proof. destruct d; (split; try done; [by intros []|by eauto]). Qed.

Lemma blk_lookup w b o : w_heap w !! b = Some o → blk w b = o.
Proof. apply lookup_total_correct. Qed.

Lemma wp_set_blk b f Q E w :
  Q tt (w <| w_heap ::= alter f b |>) → wp (set_blk b f) Q E w.
Proof. done. Qed.

Lemma wp_update_queue d f (Q : unit → world → Prop) E w :
  Q tt (update_pool d (λ p, p <| p_free := f (p_free (pool d w)) |>) w) →
  wp (update_queue d f) Q E w.
Proof. done. Qed.

Lemma wp_when {S} (c : bool) m (Q : unit → S → Prop) E s :
  (c = true → wp m Q E s) → (c = false → Q tt s) → wp (when c m) Q E s.
Proof. destruct c; unfold when; intros; [auto|apply wp_ret; auto]. Qed.

Section Allocator.
Context `{Digest}.

(** ** Capacity *)

(** The blocks of a device that somebody references. *)
Definition used (d : Device) (w : world) (ext : list bref) : gset bref :=
  filter (λ b, device (blk w b) = d) (list_to_set (refs w ++ ext)).

Lemma mat_size d w L ext :
  Inv L ext w → Z.of_nat (size (p_materialized (pool d w))) = p_next_fresh (pool d w).
Proof.
  intros Hinv. destruct (i_pool _ _ _ Hinv d) as [_ [Hf _] _ _ Hdom _].
  rewrite <- size_dom.
  assert (dom (p_materialized (pool d w)) =
    list_to_set (C := gset Z) (seqZ 0 (p_next_fresh (pool d w)))) as ->.
  { apply set_eq. intros n. rewrite elem_of_dom, Hdom, elem_of_list_to_set, elem_of_seqZ. lia. }
  rewrite size_list_to_set by apply NoDup_seqZ. rewrite length_seqZ. lia.
Qed.

(** Free and referenced blocks partition the pool. *)
Lemma free_count d w ext :
  Inv [] ext w →
  get_num_free_blocks d w = p_num_blocks (pool d w) - Z.of_nat (size (used d w ext)).
Proof.
  intros Hinv. pose proof (mat_size d w _ _ Hinv) as Hsize.
  destruct (i_pool _ _ _ Hinv d) as [_ _ Hwf Hmat _ Hq].
  unfold get_num_free_blocks. rewrite queue_len_queued by done.
  set (mat := p_materialized (pool d w)) in *. set (q := queued (p_free (pool d w))) in *.
  assert (q = filter (λ x, ref_count (blk w x.2) = 0) mat) as Hqf.
  { apply map_eq. intros n. apply option_eq. intros b. rewrite Hq, map_lookup_filter_Some. cbn.
    unfold blk. set_solver. }
  set (busy := filter (λ x, ref_count (blk w x.2) ≠ 0) mat).
  assert (size mat = (size q + size busy)%nat) as Hsplit.
  { rewrite <- (map_filter_union_complement (λ x, ref_count (blk w x.2) = 0) mat) at 1.
    rewrite map_size_disj_union by apply map_disjoint_filter_complement. by rewrite Hqf. }
  assert (size (used d w ext) = size busy) as ->; [|lia].
  assert (used d w ext = map_img (SA := gset bref) busy) as ->.
  { apply set_eq. intros b. unfold used.
    rewrite elem_of_filter, elem_of_list_to_set, elem_of_map_img. unfold busy.
    setoid_rewrite map_lookup_filter_Some. cbn. split.
    - intros [Hd Hb]. destruct (i_known _ _ _ Hinv b Hb) as [o Ho].
      rewrite (blk_lookup _ _ _ Ho) in Hd. exists (block_number o).
      destruct (i_owned _ _ _ Hinv b o Ho) as [_ Hm]. rewrite Hd in Hm. split; [done|].
      rewrite (blk_lookup _ _ _ Ho), (i_refs _ _ _ Hinv b o Ho). apply occ_pos in Hb. lia.
    - intros (n & Hm & Hne). destruct (Hmat n b Hm) as (o & Ho & Hd & _).
      rewrite (blk_lookup _ _ _ Ho) in *. split; [done|].
      rewrite (i_refs _ _ _ Hinv b o Ho) in Hne. apply occ_pos.
      pose proof (occ_nonneg b (refs w ++ ext)). lia. }
  apply size_map_img. intros n1 n2 b Hb1 Hb2.
  apply map_lookup_filter_Some in Hb1 as [Hb1 _], Hb2 as [Hb2 _].
  destruct (Hmat _ _ Hb1) as (? & ? & _ & <-), (Hmat _ _ Hb2) as (? & ? & _ & <-). by simplify_eq.
Qed.

(** ** Metadata operations *)

Lemma evict_spec L ext w b o :
  Inv L ext w → w_heap w !! b = Some o →
  wp (evict b) (λ _ w', Inv L ext w' ∧ frame w w' ∧
      w_heap w' !! b = Some (clear_cache_metadata o) ∧
      (device o = GPU → ∀ k, w_cache w' !! k ≠ Some b)) no_raise w.
Proof.
  intros Hinv Hb. unfold evict. do 3 wp_step. unfold id. rewrite (blk_lookup _ _ _ Hb).
  assert (∀ w1, Inv L ext w1 → frame w w1 → w_heap w1 !! b = Some o →
    (device o = GPU → ∀ k, w_cache w1 !! k ≠ Some b) →
    wp (set_blk b clear_cache_metadata) (λ _ w', Inv L ext w' ∧ frame w w' ∧
      w_heap w' !! b = Some (clear_cache_metadata o) ∧
      (device o = GPU → ∀ k, w_cache w' !! k ≠ Some b)) no_raise w1) as Hclear.
  { intros w1 Hinv1 Hf1 Hb1 Hn. apply wp_set_blk. split; [|split; [|split; [|done]]].
    - eapply inv_meta; try done. intros k Hk _ Hgpu. by destruct (Hn Hgpu k).
    - etransitivity; [done|]. by apply frame_alter.
    - cbn. by rewrite lookup_alter_eq, Hb1. }
  destruct (block_hash o) as [h|] eqn:Hh; cycle 1.
  { apply wp_ret. apply Hclear; try done. intros Hgpu k Hk.
    destruct (i_cache _ _ _ Hinv k b Hk) as (o' & Ho' & Hpub). simplify_eq.
    destruct (Hpub Hgpu). congruence. }
  apply wp_when; intros Hc.
  - apply bool_decide_eq_true in Hc. apply wp_modify. apply Hclear; try done.
    + apply inv_cache; [done|]. intros k b' [_ Hk]%lookup_delete_Some. by eapply i_cache.
    + split; try done; [|by eauto]. cbn. by intros k b' [_ Hk]%lookup_delete_Some.
    + cbn. intros Hgpu k [Hne Hk]%lookup_delete_Some.
      destruct (i_cache _ _ _ Hinv k b Hk) as (o' & Ho' & Hpub). simplify_eq.
      destruct (Hpub Hgpu). congruence.
  - apply bool_decide_eq_false in Hc. apply Hclear; try done. intros Hgpu k Hk.
    destruct (i_cache _ _ _ Hinv k b Hk) as (o' & Ho' & Hpub). simplify_eq.
    destruct (Hpub Hgpu). congruence.
Qed.

(** Eviction leaves the other blocks and their cache entries alone. *)
Lemma evict_spec_other L ext w b o :
  Inv L ext w → w_heap w !! b = Some o →
  wp (evict b) (λ _ w', Inv L ext w' ∧ frame w w' ∧
      w_heap w' !! b = Some (clear_cache_metadata o) ∧
      (device o = GPU → ∀ k, w_cache w' !! k ≠ Some b) ∧
      ∀ k b', b' ≠ b → (w_cache w !! k = Some b' → w_cache w' !! k = Some b') ∧
        w_heap w' !! b' = w_heap w !! b') no_raise w.
Proof.
  intros Hinv Hb. eapply wp_mono; [apply wp_and; [by apply evict_spec|]| |].
  - instantiate (1 := λ _ _, True). unfold evict. do 3 wp_step. unfold id. rewrite (blk_lookup _ _ _ Hb).
    instantiate (1 := λ _ w', ∀ k b', b' ≠ b →
      (w_cache w !! k = Some b' → w_cache w' !! k = Some b') ∧ w_heap w' !! b' = w_heap w !! b').
    destruct (block_hash o) as [h|].
    + apply wp_when; intros Hc; [wp_step|]; apply wp_set_blk; intros k b' Hne; cbn;
        rewrite lookup_alter_ne by done; (split; [|done]); [|done].
      apply bool_decide_eq_true in Hc. intros Hk. rewrite lookup_delete_ne; congruence.
    + wp_step. apply wp_set_blk. intros k b' Hne. cbn. by rewrite lookup_alter_ne.
  - cbv beta. tauto.
  - by intros e w' [? ?].
Qed.

Lemma touch_spec L ext w b o :
  Inv L ext w → w_heap w !! b = Some o →
  wp (touch b) (λ _ w', Inv L ext w' ∧ frame w w' ∧ w_cache w' = w_cache w ∧
    w_heap w' = alter (λ o, o <| last_accessed := Z.succ (w_access w) |>) b (w_heap w))
    no_raise w.
Proof.
  intros Hinv Hb. unfold touch. wp_steps. apply wp_set_blk.
  set (f := λ o : block, _).
  split; [|split; [|done]].
  - apply (inv_meta _ _ (w <| w_access ::= Z.succ |>) b f o); try done. by destruct Hinv.
  - transitivity (w <| w_access ::= Z.succ |>); [by split; eauto|by apply frame_alter].
Qed.

(** ** Taking a block *)

Lemma pop_free_block_spec d ext w :
  Inv [] ext w → get_num_free_blocks d w ≠ 0 →
  wp (pop_free_block d) (λ b w', Inv [b] ext w' ∧ frame w w' ∧ (b ∉ refs w ++ ext) ∧
    ∃ o, w_heap w' !! b = Some o ∧ device o = d ∧ ref_count o = 0) no_raise w.
Proof.
  intros Hinv Hn. unfold pop_free_block. do 2 wp_step.
  destruct (i_pool _ _ _ Hinv d) as [Hd Hf Hwf Hmat _ Hq].
  assert (∀ b, ref_count (blk w b) = 0 → is_Some (w_heap w !! b) → b ∉ (refs w ++ ext)) as Hout.
  { intros b Hz [o Ho]. rewrite (blk_lookup _ _ _ Ho) in Hz.
    rewrite (i_refs _ _ _ Hinv b o Ho) in Hz. by apply occ_zero. }
  destruct (Z.ltb_spec (p_next_fresh (pool d w)) (p_num_blocks (pool d w))) as [Hlt|Hge].
  - wp_steps. pose proof (inv_fresh d ext w Hinv Hlt) as Hinv'. cbn zeta in Hinv'.
    set (b := w_fresh w) in *. set (o := new_block _ _ _) in *.
    assert (w_heap w !! b = None) as Hb.
    { destruct (w_heap w !! b) eqn:Hb; [|done]. apply (i_owned _ _ _ Hinv) in Hb as [Hb _].
      unfold b in Hb. lia. }
    split; [done|]. split; [|split].
    + assert (∀ b' o', w_heap w !! b' = Some o' →
        ∃ o'', <[b := o]> (w_heap w) !! b' = Some o'' ∧ device o'' = device o').
      { intros b' o' Hb'. exists o'. rewrite lookup_insert_ne by congruence. done. }
      destruct d; (split; try done; by intros []).
    + intros [? ?]%(i_known _ _ _ Hinv). congruence.
    + exists o. split; [|done]. destruct d; cbn; by rewrite lookup_insert_eq.
  - unfold get_num_free_blocks in Hn. rewrite queue_len_queued in Hn by done.
    destruct (popleft_queued (p_free (pool d w))) as (n & b & q & Hpop & Hwf' & Hnb & Hdel); [done|..].
    { intros Hemp. rewrite Hemp, map_size_empty in Hn. lia. }
    apply Hq in Hnb as (Hm & Hz & _). destruct (Hmat _ _ Hm) as (o & Ho & Hdo & _).
    unfold wp, in_queue. rewrite Hpop. split; [by eapply inv_dequeue|].
    split; [apply frame_queue|]. split; [by eapply Hout|]. exists o.
    rewrite (proj1 (update_pool_fields d _ _)). split; [done|]. split; [done|].
    by rewrite lookup_total_alt, Ho in Hz.
Qed.

(** [BlockAllocator.allocate]: a block nobody references and no key publishes;
    raises only when the pool is exhausted, and then nothing changed. *)
Lemma alloc_block_spec d ext w :
  Inv [] ext w →
  wp (alloc_block d) (λ b w', Inv [] (b :: ext) w' ∧ frame w w' ∧ (b ∉ refs w ++ ext) ∧
      get_num_free_blocks d w ≠ 0 ∧ device (blk w' b) = d ∧
      (d = GPU → ∀ k, w_cache w' !! k ≠ Some b))
    (λ e w', w' = w ∧ e = OutOfBlocksError ∧ get_num_free_blocks d w = 0) w.
Proof.
  intros Hinv. unfold alloc_block. do 2 wp_step.
  destruct (Z.eqb_spec (get_num_free_blocks d w) 0) as [Hz|Hnz]; [by wp_step|]. wp_step.
  eapply wp_mono; [by apply pop_free_block_spec| |done].
  intros b w1 (Hinv1 & Hf1 & Hnb & o & Hb & Hd & Hr). cbv beta. do 3 wp_step.
  rewrite (blk_lookup _ _ _ Hb).
  set (post := λ w2, Inv [b] ext w2 ∧ frame w w2 ∧
    (d = GPU → ∀ k, w_cache w2 !! k ≠ Some b) ∧
    ∃ o, w_heap w2 !! b = Some o ∧ device o = d ∧ ref_count o = 0).
  assert (wp (when (cached o)
    (if has_kv_cache_manager d then evict b else set_blk b clear_cache_metadata))
    (λ _, post) no_raise w1) as Hev.
  { apply wp_when; intros Hc.
    - destruct d; cbn.
      + eapply wp_mono; [by apply evict_spec| |done]. intros _ w2 (? & ? & Hb2 & Hn).
        unfold post. split; [done|]. split; [by etransitivity|]. split; [auto|]. by eexists.
      + apply wp_set_blk. unfold post. split; [|split; [|split; [done|]]].
        * eapply inv_meta; try done. intros k Hk _ Hgpu. change (device o = GPU) in Hgpu. congruence.
        * etransitivity; [done|]. by apply frame_alter.
        * cbn. rewrite lookup_alter_eq, Hb. by eexists.
    - unfold post. split; [done|]. split; [done|]. split; [|by eauto].
      intros -> k Hk. destruct (i_cache _ _ _ Hinv1 k b Hk) as (o' & Ho' & Hpub). simplify_eq.
      destruct (Hpub Hd) as (_ & ? & _). congruence. }
  eapply wp_mono; [exact Hev| |done]. intros _ w2 (Hinv2 & Hf2 & Hn2 & o2 & Hb2 & Hd2 & Hr2).
  cbv beta. do 2 wp_step. rewrite (blk_lookup _ _ _ Hb2), Hr2. cbn. wp_step. apply wp_set_blk.
  wp_step. split; [by eapply inv_incr; [..|set_solver|set_solver]|].
  split; [by etransitivity; [|apply frame_alter]|]. split; [done|]. split; [done|].
  split; [|done]. unfold blk. cbn. rewrite lookup_total_alt, lookup_alter_eq, Hb2. done.
Qed.

Lemma validate_owned_spec d L ext w b o :
  Inv L ext w → w_heap w !! b = Some o → device o = d →
  wp (validate_owned d b) (λ _ w', w' = w) no_raise w.
Proof.
  intros Hinv Hb Hd. unfold validate_owned. do 2 wp_step. unfold id, owns.
  rewrite (blk_lookup _ _ _ Hb), (po_device _ _ _ _ (i_pool _ _ _ Hinv d)).
  destruct (i_owned _ _ _ Hinv b o Hb) as [_ Hm]. rewrite Hd in Hm.
  rewrite !bool_decide_true by done. cbn. by wp_step.
Qed.

(** [BlockAllocator.acquire] adds a reference to any block of the device. *)
Lemma acquire_spec d ext w b o :
  Inv [] ext w → w_heap w !! b = Some o → device o = d →
  wp (acquire d b) (λ _ w', Inv [] (b :: ext) w' ∧ frame w w' ∧ w_cache w' = w_cache w)
    no_raise w.
Proof.
  intros Hinv Hb Hd. unfold acquire. wp_step.
  eapply wp_mono; [by eapply validate_owned_spec| |done]. intros _ ? ->. cbv beta.
  do 3 wp_step. rewrite (blk_lookup _ _ _ Hb).
  set (post := λ w1, frame w w1 ∧ w_cache w1 = w_cache w ∧ w_heap w1 = w_heap w ∧
    ∃ L, Inv L ext w1 ∧ L ⊆ [b] ∧ (ref_count o = 0 → b ∈ L)).
  assert (wp (when (ref_count o =? 0) (remove_from_free_queue d b)) (λ _, post) no_raise w) as Hrm.
  { apply wp_when; intros Hz.
    - unfold remove_from_free_queue. do 2 wp_step. rewrite (blk_lookup _ _ _ Hb).
      apply wp_update_queue. unfold post.
      destruct (update_pool_fields d (λ p, p <| p_free := remove (block_number o)
        (p_free (pool d w)) |>) w) as (E1 & _ & _ & _ & E5 & _).
      split; [apply frame_queue|]. split; [done|]. split; [done|].
      destruct (i_owned _ _ _ Hinv b o Hb) as [_ Hm]. rewrite Hd in Hm.
      pose proof (po_wf _ _ _ _ (i_pool _ _ _ Hinv d)) as Hwf.
      exists [b]. split; [|set_solver]. eapply inv_dequeue; [done| |done|].
      + by apply invalidate_wf.
      + by apply queued_invalidate.
    - unfold post. split; [done|]. split; [done|]. split; [done|]. exists [].
      apply Z.eqb_neq in Hz. split; [done|]. set_solver. }
  eapply wp_mono; [exact Hrm| |done]. intros _ w1 (Hf1 & Hc1 & Hh1 & L & Hinv1 & HL & Hz).
  cbv beta. wp_step. apply wp_set_blk. cbv beta.
  rewrite <- Hh1 in Hb. pose proof (inv_incr _ _ _ _ _ Hinv1 Hb HL Hz) as Hinv2.
  set (f := λ o : block, _) in *.
  assert (frame w (w1 <| w_heap ::= alter f b |>)) as Hf2
    by (by etransitivity; [|apply frame_alter]).
  apply wp_when; [|done]. intros _.
  eapply wp_mono; [eapply (touch_spec _ _ _ b (f o)); [done|]| |done].
  - cbn. by rewrite lookup_alter_eq, Hb.
  - cbv beta. intros _ w3 (Hinv3 & Hf3 & Hc3 & _). split; [done|].
    split; [by etransitivity|]. rewrite Hc3. done.
Qed.

(** *** Giving a block back *)

(** A block in limbo is queued, whichever side of the queue it goes to. *)
Lemma requeue_spec d ext w b o f :
  Inv [b] ext w → w_heap w !! b = Some o → device o = d → ref_count o = 0 →
  (∀ q, wf q → queued q !! block_number o = None →
     wf (f q) ∧ queued (f q) = <[block_number o := b]> (queued q)) →
  wp (update_queue d f) (λ _ w', Inv [] ext w' ∧ frame w w') no_raise w.
Proof.
  intros Hinv Hb Hd Hz Hf. apply wp_update_queue. split; [|apply frame_queue].
  pose proof (i_pool _ _ _ Hinv d) as [_ _ Hwf Hmat _ Hq].
  destruct (Hf (p_free (pool d w)) Hwf) as [Hwf' Hq'].
  { apply eq_None_ne_Some. intros b' Hb'. apply Hq in Hb' as (Hm & _ & Hl).
    destruct (i_owned _ _ _ Hinv b o Hb) as [_ Hm']. rewrite Hd in Hm'. set_solver. }
  by eapply inv_enqueue.
Qed.

Lemma append_requeue b n q :
  wf q → queued q !! n = None → wf (append b n q) ∧ queued (append b n q) = <[n := b]> (queued q).
Proof. auto using append_wf, queued_append. Qed.

Lemma append_unique_requeue b n q :
  wf q → queued q !! n = None →
  wf (append_unique b n q) ∧ queued (append_unique b n q) = <[n := b]> (queued q).
Proof. auto using append_unique_wf, queued_append_unique. Qed.

Lemma append_lru_requeue b n t q :
  wf q → queued q !! n = None →
  wf (append_lru b n t q) ∧ queued (append_lru b n t q) = <[n := b]> (queued q).
Proof. auto using append_lru_wf, queued_append_lru. Qed.

(** Clearing the metadata of a block no key publishes. *)
Lemma inv_clear L ext w b o :
  Inv L ext w → w_heap w !! b = Some o → (device o = GPU → cached o = false) →
  Inv L ext (w <| w_heap ::= alter clear_cache_metadata b |>).
Proof.
  intros Hinv Hb Hc. eapply inv_meta; try done. intros k _ Hpub Hgpu.
  destruct (Hpub Hgpu) as (_ & Hcached & _). rewrite Hc in Hcached; done.
Qed.

(** [BlockAllocator.free] gives back one reference. *)
Lemma free_block_spec d ext w b :
  Inv [] (b :: ext) w → device (blk w b) = d →
  wp (free_block d b) (λ _ w', Inv [] ext w' ∧ frame w w') no_raise w.
Proof.
  intros Hinv Hd. destruct (i_known _ _ _ Hinv b) as [o Hb]; [set_solver|].
  rewrite (blk_lookup _ _ _ Hb) in Hd. unfold free_block. wp_step.
  eapply wp_mono; [by eapply validate_owned_spec| |done]. intros _ ? ->. cbv beta.
  do 2 wp_step. rewrite (blk_lookup _ _ _ Hb).
  destruct (inv_decr _ _ _ _ Hinv Hb) as [Hpos Hinv1].
  rewrite (proj2 (Z.leb_gt _ _) Hpos).
  set (dec := λ o : block, o <| ref_count ::= Z.pred |>) in *.
  set (w1 := w <| w_heap ::= alter dec b |>) in *.
  assert (w_heap w1 !! b = Some (dec o)) as Hb1 by (cbn; by rewrite lookup_alter_eq, Hb).
  assert (frame w w1) as Hf1 by (by apply frame_alter).
  assert (∀ w2, frame w1 w2 → frame w w2) as Hf by (intros; by etransitivity).
  assert ((ref_count (dec o) =? 0) = (ref_count o =? 1)) as Hlast.
  { unfold dec. cbn. destruct (Z.eqb_spec (Z.pred (ref_count o)) 0), (Z.eqb_spec (ref_count o) 1); lia. }
  destruct d; cbn [has_kv_cache_manager].
  - unfold release_block. do 2 wp_step.
    rewrite (blk_lookup _ _ _ Hb), (proj2 (Z.leb_gt _ _) Hpos).
    wp_step. apply wp_set_blk. fold dec. fold w1. do 2 wp_step.
    rewrite (blk_lookup _ _ _ Hb1), Hlast.
    destruct (Z.eqb_spec (ref_count o) 1) as [H1|H1]; cbn [negb]; [|by wp_step].
    change (cached (dec o)) with (cached o). destruct (cached o) eqn:Hc; cbn [negb].
    + eapply wp_mono; [eapply (requeue_spec GPU _ _ b (dec o)); try done|naive_solver|done].
      * unfold dec. cbn. lia.
      * intros q. apply append_lru_requeue.
    + wp_step. apply wp_set_blk.
      eapply wp_mono;
        [eapply (requeue_spec GPU _ _ b (clear_cache_metadata (dec o))); try done| |done].
      * by eapply inv_clear.
      * cbn. by rewrite lookup_alter_eq, lookup_alter_eq, Hb.
      * unfold dec. cbn. lia.
      * intros q. apply append_unique_requeue.
      * intros _ w3 [? ?]. split; [done|]. apply Hf.
        etransitivity; [|done]. by apply (frame_alter b clear_cache_metadata).
  - wp_step. apply wp_set_blk. fold dec. fold w1. do 2 wp_step.
    rewrite (blk_lookup _ _ _ Hb1), Hlast. apply wp_when.
    + intros H1. rewrite H1 in Hinv1. apply Z.eqb_eq in H1. wp_step. apply wp_set_blk.
      unfold append_free_block. do 2 wp_step.
      assert (w_heap (w1 <| w_heap ::= alter clear_cache_metadata b |>) !! b =
        Some (clear_cache_metadata (dec o))) as Hb2 by (cbn; by rewrite !lookup_alter_eq, Hb).
      rewrite (blk_lookup _ _ _ Hb2).
      eapply wp_mono;
        [eapply (requeue_spec CPU _ _ b (clear_cache_metadata (dec o))); try done| |done].
      * eapply inv_clear; [done..|]. unfold dec. cbn. congruence.
      * unfold dec. cbn. lia.
      * intros q. apply append_requeue.
      * intros _ w3 [? ?]. split; [done|]. apply Hf.
        etransitivity; [|done]. by apply (frame_alter b clear_cache_metadata).
    + intros H1. rewrite H1 in Hinv1. done.
Qed.
End Allocator.
