(* ===== verification/ManagerSpec.v ===== *)
(** * Contracts of the block manager operations

    Each operation of [BlockManager] keeps [Consistent], whether it returns or
    raises, and its contract says what it did to the block tables. *)

From stdpp Require Import gmap list.
From Stdlib Require Import ZArith Lia.
From S2P Require Import Prelude.
From S2P Require Import Block.
From S2P Require Import FreeQueue.
From S2P Require Import PrefixKeys.
From S2P Require Import PyFloat.
From S2P Require Import Request.
From S2P Require Import World.
From S2P Require Import BlockPool.
From S2P Require Import KVCacheManager.
From S2P Require Import BlockManager.
From S2P Require Import BlockInv.
From S2P Require Import Allocator.

Open Scope Z_scope.

Section ManagerSpec.
Context `{Digest}.

(** ** Moving references *)

Lemma inv_ext_perm L ext ext' w : ext ≡ₚ ext' → Inv L ext w → Inv L ext' w.
Proof.
  intros Hp []. split; try done.
  - intros b o Hb. rewrite <- Hp. by apply i_refs.
  - intros b. rewrite <- Hp. apply i_known.
Qed.

Lemma inv_ext_snoc L ext b w : Inv L (b :: ext) w → Inv L (ext ++ [b]) w.
Proof. apply inv_ext_perm. apply Permutation_cons_append. Qed.

(** Rebinding tables, reserved list and request objects, when the multiset of
    references does not change and the requests keep what their keys depend on. *)
Lemma inv_move L ext ext' w t reserved reqs :
  Inv L ext w →
  table_refs t ++ reserved ++ ext' ≡ₚ refs w ++ ext →
  (∀ r, hash_ids (reqs !!! r) = hash_ids (req w r) ∧
        cache_salt (reqs !!! r) = cache_salt (req w r) ∧
        reuse_group (reqs !!! r) = reuse_group (req w r)) →
  Inv L ext' (w <| w_table := t |> <| w_reserved := reserved |> <| w_reqs := reqs |>).
Proof.
  intros [] Hp Hr. rewrite app_assoc in Hp. split; try done.
  - intros b o Hb. unfold refs. cbn. rewrite Hp. by apply i_refs.
  - intros b. unfold refs. cbn. rewrite Hp. apply i_known.
  - intros r ks Hk. destruct (i_keys r ks Hk) as (hs & Hh & Heq). destruct (Hr r) as (E1 & E2 & E3).
    exists hs. unfold req, request_keys, req. cbn. rewrite E1, E2, E3. done.
Qed.

Lemma inv_table L ext ext' w t :
  Inv L ext w → table_refs t ++ ext' ≡ₚ table_refs (w_table w) ++ ext →
  Inv L ext' (w <| w_table := t |>).
Proof.
  intros Hinv Hp. apply (inv_move _ _ ext' _ t (w_reserved w) (w_reqs w) Hinv); [|done].
  unfold refs. rewrite (Permutation_app_swap_app (table_refs t)), Hp.
  rewrite <- app_assoc. apply Permutation_app_swap_app.
Qed.

(** Assignments to a request that leave its keys alone. *)
Definition keeps_keys (f : Request → Request) : Prop := ∀ q,
  hash_ids (f q) = hash_ids q ∧ cache_salt (f q) = cache_salt q ∧
  reuse_group (f q) = reuse_group q.

Lemma req_set w r r' f :
  req (w <| w_reqs ::= λ m, <[r := f (m !!! r)]> m |>) r' =
  if decide (r = r') then f (req w r) else req w r'.
Proof.
  unfold req. cbn. case_decide as Hr; [subst r'; apply lookup_total_insert_eq|].
  by apply lookup_total_insert_ne.
Qed.

Lemma inv_set_req L ext w r f :
  keeps_keys f → Inv L ext w → Inv L ext (w <| w_reqs ::= λ m, <[r := f (m !!! r)]> m |>).
Proof.
  intros Hf Hinv. apply (inv_move _ _ ext _ (w_table w) (w_reserved w) _ Hinv); [by rewrite app_assoc|].
  intros r'. pose proof (req_set w r r' f) as Hr. unfold req in Hr. cbn in Hr. rewrite Hr.
  case_decide as Heq; [subst r'; apply Hf|done].
Qed.

(** [_sync_request_blocks] *)
Lemma sync_request_blocks_eq r bs w :
  sync_request_blocks r bs w =
  (Ok tt, w <| w_reqs ::= λ m, <[r := (m !!! r) <| physical_token_blocks := bs |>]> m |>).
Proof.
  unfold sync_request_blocks. unfold mbind, M_bind, set_req, modify. cbv beta iota.
  match goal with |- for_ bs _ ?w0 = _ => set (w1 := w0) end.
  assert (∀ k l w1, w_reqs w1 = <[r := (w_reqs w !!! r) <| physical_token_blocks := l |>]> (w_reqs w) →
    for_ k (λ b s, (Ok (), s <| w_reqs ::= λ m, <[r := (m !!! r)
      <| physical_token_blocks ::= λ l, l ++ [b] |>]> m |>)) w1 =
    (Ok tt, w1 <| w_reqs := <[r := (w_reqs w !!! r) <| physical_token_blocks := l ++ k |>]> (w_reqs w) |>))
    as Hgen.
  { clear w1. intros k. induction k as [|b k IH]; intros l w1 Hw.
    - rewrite app_nil_r, <- Hw. by destruct w1.
    - cbn [for_]. unfold mbind, M_bind. cbv beta iota. rewrite (IH (l ++ [b])).
      + rewrite <- app_assoc. done.
      + cbn. rewrite Hw, lookup_total_insert_eq, insert_insert_eq. done. }
  rewrite (Hgen bs [] w1); done.
Qed.

(** ** Giving back a list of references *)

Lemma frame_device w w' b :
  frame w w' → is_Some (w_heap w !! b) → device (blk w' b) = device (blk w b).
Proof.
  intros Hf [o Ho]. destruct (f_heap _ _ Hf b o Ho) as (o' & Ho' & Hd).
  by rewrite (blk_lookup _ _ _ Ho), (blk_lookup _ _ _ Ho').
Qed.

Lemma free_list_spec (f : bref → M world unit) l ext w :
  (∀ b ext w1, b ∈ l → frame w w1 → Inv [] (b :: ext) w1 →
     wp (f b) (λ _ w2, Inv [] ext w2 ∧ frame w1 w2) no_raise w1) →
  Inv [] (l ++ ext) w →
  wp (for_ l f) (λ _ w', Inv [] ext w' ∧ frame w w') no_raise w.
Proof.
  revert w. induction l as [|b l IH]; intros w Hf Hinv; cbn [for_].
  - by wp_step.
  - wp_step. eapply wp_mono; [by eapply Hf; [set_solver|done|]| |done].
    intros _ w1 [Hinv1 Hf1]. cbv beta.
    eapply wp_mono; [apply IH; [|done]| |done].
    + intros b' ext' w2 Hb' Hf2 Hi. apply Hf; [set_solver|by etransitivity|done].
    + intros _ w2 [? ?]. split; [done|by etransitivity].
Qed.

Lemma free_any_list l ext w :
  Inv [] (l ++ ext) w →
  wp (for_ l free_any) (λ _ w', Inv [] ext w' ∧ frame w w') no_raise w.
Proof.
  apply free_list_spec. intros b ext' w1 _ _ Hi. unfold free_any. do 2 wp_step.
  by apply free_block_spec.
Qed.

(** The rollback of the blocks collected so far. *)
Lemma free_device_list d l l' ext w :
  l' ≡ₚ l → (∀ b, b ∈ l → device (blk w b) = d) → Inv [] (l ++ ext) w →
  wp (for_ l' (free_block d)) (λ _ w', Inv [] ext w' ∧ frame w w') no_raise w.
Proof.
  intros Hp Hd Hinv. assert (∀ b, b ∈ l' → is_Some (w_heap w !! b)) as Hk.
  { intros b Hb. apply (i_known _ _ _ Hinv). rewrite <- Hp. set_solver. }
  apply free_list_spec; [|by eapply inv_ext_perm; [rewrite Hp|]].
  intros b ext' w1 Hb Hf Hi. apply free_block_spec; [done|].
  rewrite (frame_device w) by auto. apply Hd. by rewrite <- Hp.
Qed.

(** ** Reuse plans *)

(** The key chain of a request's full input blocks, without memoization. *)
Definition plan_keys (w : world) (r : Z) : list PrefixCacheKey :=
  request_keys w r
    (slice_to (prefill_len (req w r) / w_block_size w) (default [] (hash_ids (req w r)))).

(** [plan_reuse], without the key caches. *)
Definition ref_plan (w : world) (r : Z) : PrefixReusePlan :=
  let q := req w r in
  let hits := hit_loop w (plan_keys w r) in
  let tokens := Z.of_nat (length hits) * w_block_size w in
  mkPlan r hits (plan_keys w r) (prefill_len q / w_block_size w) (num_logical_token_blocks q)
    (truthy (hash_ids q)) tokens (prefill_len q - tokens).

(** Only the key caches differ. *)
Definition same_but_keys (w w' : world) : Prop :=
  w' = w <| w_chains := w_chains w' |> <| w_input_keys := w_input_keys w' |>.

Lemma same_but_keys_refl w : same_but_keys w w.
Proof. by destruct w. Qed.

Lemma hit_loop_same w w' keys : same_but_keys w w' → hit_loop w' keys = hit_loop w keys.
Proof.
  intros ->. induction keys as [|k keys IH]; [done|]. cbn [hit_loop]. rewrite IH. done.
Qed.

Lemma request_keys_app_length w r hs : length (request_keys w r hs) = length hs.
Proof. unfold request_keys. by rewrite length_ref_keys, length_fmap. Qed.

Lemma build_keys_spec L ext hs r w :
  Inv L ext w →
  wp (build_keys hs r) (λ keys w', keys = request_keys w r hs ∧ Inv L ext w' ∧
    w' = w <| w_chains := w_chains w' |>) no_raise w.
Proof.
  intros Hinv. unfold wp, build_keys.
  pose proof (build_prefix_keys_spec hs (w_model w) (cache_salt (req w r)) (reuse_group (req w r))
    _ (i_chains _ _ _ Hinv)) as Hb.
  destruct (build_prefix_keys _ _ _ _ _) as [keys cc]. destruct Hb as [-> Hcc].
  split; [done|]. split; [by destruct Hinv|done].
Qed.

Lemma slice_to_is_take {A} n (l : list A) : slice_to n l = take (length (slice_to n l)) l.
Proof.
  unfold slice_to. rewrite length_take. set (k := Z.to_nat _).
  destruct (Nat.le_gt_cases k (length l)).
  - by rewrite Nat.min_l.
  - rewrite Nat.min_r by lia. rewrite !take_ge by lia. done.
Qed.

Lemma build_input_keys_spec L ext r w :
  Inv L ext w →
  wp (build_input_keys r (prefill_len (req w r) / w_block_size w))
    (λ keys w', keys = plan_keys w r ∧ Inv L ext w' ∧ same_but_keys w w') no_raise w.
Proof.
  intros Hinv. unfold build_input_keys, plan_keys. do 2 wp_step. unfold id.
  set (full := prefill_len (req w r) / w_block_size w).
  destruct (hash_ids (req w r)) as [[|h hs]|] eqn:Hh.
  - wp_step. cbn [default]. split; [|by auto using same_but_keys_refl].
    unfold slice_to. by rewrite take_nil.
  - set (hashes := h :: hs) in *. cbn [default].
    assert (wp (keys ← build_keys (slice_to full hashes) r;
        modify (λ w, w <| w_input_keys ::= <[r := keys]> |>) ;; mret keys)
      (λ keys w', keys = request_keys w r (slice_to full hashes) ∧ Inv L ext w' ∧ same_but_keys w w')
      no_raise w) as Hfill.
    { wp_step. eapply wp_mono; [by apply build_keys_spec| |done].
      intros keys w1 (-> & Hinv1 & Hw1). cbv beta. wp_steps. split; [done|].
      set (keys := request_keys w r _).
      assert (keys = request_keys w r (take (length keys) hashes)) as Hkeys.
      { unfold keys. rewrite request_keys_app_length. by rewrite <- slice_to_is_take. }
      split; [|rewrite Hw1; by destruct w].
      destruct Hinv1. split; try done. cbn. intros r' ks.
      rewrite lookup_insert_Some. intros [[<- <-]|[_ Hk]]; [|by apply i_keys].
      exists hashes. rewrite Hw1. split; [done|]. exact Hkeys. }
    destruct (w_input_keys w !! r) as [ks|] eqn:Hks; [|done].
    destruct (Z.eqb_spec (Z.of_nat (length ks)) full) as [Hlen|_]; [|done]. wp_step.
    destruct (i_keys _ _ _ Hinv r ks Hks) as (hs' & Hh' & Heq).
    assert (hs' = hashes) as -> by congruence.
    split; [|by auto using same_but_keys_refl].
    rewrite Heq at 1. f_equal. rewrite slice_to_take by lia. f_equal. lia.
  - wp_step. cbn [default]. split; [|by auto using same_but_keys_refl].
    unfold slice_to. by rewrite take_nil.
Qed.

(** [plan_reuse] computes the plan of a full rebuild; it raises only on a zero
    block size, and then nothing changed. *)
Lemma plan_reuse_spec L ext r w :
  Inv L ext w →
  wp (plan_reuse r)
    (λ p w', p = ref_plan w r ∧ Inv L ext w' ∧ same_but_keys w w' ∧ w_block_size w ≠ 0)
    (λ e w', w' = w ∧ e = ZeroDivisionError ∧ w_block_size w = 0) w.
Proof.
  intros Hinv. unfold plan_reuse. do 3 wp_step. unfold id, floordiv.
  destruct (Z.eqb_spec (w_block_size w) 0) as [Hz|Hz]; [by wp_step|]. do 2 wp_step.
  eapply wp_mono; [by apply build_input_keys_spec| |done].
  intros keys w1 (-> & Hinv1 & Hw1). cbv beta. do 3 wp_step.
  split; [|done]. unfold ref_plan. rewrite (hit_loop_same w w1) by done.
  rewrite Hw1. done.
Qed.

(** ** Allocation *)

Lemma hit_loop_known L ext w keys b :
  Inv L ext w → b ∈ hit_loop w keys →
  ∃ o k, k ∈ keys ∧ w_heap w !! b = Some o ∧ device o = GPU ∧ block_hash o = Some k.
Proof.
  intros Hinv. induction keys as [|k keys IH]; cbn [hit_loop]; [by intros ?%elem_of_nil|].
  destruct (w_cache w !! k) as [b'|] eqn:Hk; [|by intros ?%elem_of_nil].
  destruct (is_gpu_hit w (Some b')) eqn:Hhit; [|by intros ?%elem_of_nil].
  intros [->|Hb]%elem_of_cons.
  - destruct (i_cache _ _ _ Hinv k b' Hk) as (o & Ho & Hpub). exists o, k.
    cbn in Hhit. rewrite (blk_lookup _ _ _ Ho) in Hhit.
    apply andb_true_iff in Hhit as [_ Hgpu]. apply bool_decide_eq_true in Hgpu.
    split; [set_solver|]. split; [done|]. split; [done|]. by apply Hpub.
  - destruct (IH Hb) as (o & k' & ? & ?). exists o, k'. split; [set_solver|done].
Qed.

(** The free blocks left after referencing [hits] and fresh blocks [news]. *)
Lemma free_after w w' hits news :
  Inv [] [] w → Inv [] (hits ++ news) w' → frame w w' →
  (∀ b, b ∈ hits → is_Some (w_heap w !! b)) →
  get_num_free_blocks GPU w
    - Z.of_nat (length (filter (λ b, ref_count (blk w b) = 0) hits))
    - Z.of_nat (length news) <= get_num_free_blocks GPU w'.
Proof.
  intros Hinv Hinv' Hf Hk. rewrite (free_count GPU w []), (free_count GPU w' (hits ++ news)) by done.
  rewrite (f_num_blocks _ _ Hf GPU). set (zs := filter _ hits).
  assert (used GPU w' (hits ++ news) ⊆
    used GPU w [] ∪ list_to_set zs ∪ list_to_set news) as Hsub.
  { intros b. unfold used. rewrite (frame_refs _ _ Hf).
    rewrite !elem_of_union, !elem_of_filter, !elem_of_list_to_set, !elem_of_app.
    intros (Hd & [Hb|[Hb|Hb]]); [left; left|left|by right].
    - split; [|by left]. rewrite <- Hd. symmetry. apply frame_device; [done|].
      apply (i_known _ _ _ Hinv). set_solver.
    - destruct (decide (ref_count (blk w b) = 0)) as [Hz|Hz].
      + right. unfold zs. by apply list_elem_of_filter.
      + left. split; [rewrite <- Hd; symmetry; apply frame_device; by auto|]. left.
        destruct (Hk b Hb) as [o Ho]. rewrite (blk_lookup _ _ _ Ho) in Hz.
        rewrite (i_refs _ _ _ Hinv b o Ho), app_nil_r in Hz.
        apply occ_pos. pose proof (occ_nonneg b (refs w)). lia. }
  apply subseteq_size in Hsub. rewrite !size_union_alt in Hsub.
  pose proof (size_list_to_set_le zs). pose proof (size_list_to_set_le news).
  assert ((size (list_to_set (C := gset bref) zs ∖ used GPU w []) ≤
    size (list_to_set (C := gset bref) zs))%nat) by (apply subseteq_size; set_solver).
  assert ((size (list_to_set (C := gset bref) news ∖ (used GPU w [] ∪ list_to_set zs)) ≤
    size (list_to_set (C := gset bref) news))%nat) by (apply subseteq_size; set_solver).
  lia.
Qed.

(** The [try] block of [allocate]: the hits, then fresh blocks; an exhausted
    pool rolls every reference back. *)
Lemma collect_blocks_spec w hits n :
  Inv [] [] w →
  (∀ b, b ∈ hits → ∃ o, w_heap w !! b = Some o ∧ device o = GPU) →
  wp (collect (((λ b, acquire GPU b ;; mret b) <$> hits) ++ replicate n (alloc_block GPU))
        (λ acc, for_ (reverse acc) (free_block GPU)) [])
    (λ bs w', Inv [] bs w' ∧ frame w w' ∧ ∃ news, bs = hits ++ news ∧ length news = n ∧
       NoDup news ∧ (∀ b, b ∈ bs → device (blk w' b) = GPU) ∧
       (∀ b, b ∈ news → (b ∉ refs w ++ hits) ∧ ∀ k, w_cache w' !! k ≠ Some b))
    (λ e w', e = OutOfBlocksError ∧ Inv [] [] w' ∧ frame w w' ∧
       get_num_free_blocks GPU w
         < Z.of_nat (length (filter (λ b, ref_count (blk w b) = 0) hits)) + Z.of_nat n) w.
Proof.
  intros Hinv Hhits. apply wp_collect_app.
  eapply (wp_collect (λ todo acc s, Inv [] acc s ∧ frame w s ∧ acc ++ todo = hits ∧
    (∀ b, b ∈ acc → device (blk s b) = GPU))).
  { split; [done|]. split; [done|]. split; [done|]. by intros b ?%elem_of_nil. }
  - intros b todo acc s (Hi & Hf & Heq & Hd).
    destruct (Hhits b) as (o & Ho & Hdo); [set_solver|].
    destruct (f_heap _ _ Hf b o Ho) as (o' & Ho' & Hdo').
    wp_step. eapply wp_mono; [eapply (acquire_spec GPU); [done..|congruence]| |done].
    intros _ s1 (Hi1 & Hf1 & _). cbv beta. wp_step.
    split; [by apply inv_ext_snoc|].
    split; [by etransitivity|]. split; [by rewrite <- app_assoc|].
    intros b' [Hb'|Hb'%list_elem_of_singleton]%elem_of_app.
    + rewrite (frame_device s s1) by (done || (apply (i_known _ _ _ Hi); set_solver)). auto.
    + subst b'. rewrite (frame_device s s1), (blk_lookup _ _ _ Ho') by (done || eauto). congruence.
  - intros acc s (Hi & Hf & Heq & Hd). rewrite app_nil_r in Heq. subst acc.
    rewrite <- (fmap_replicate (λ _ : unit, alloc_block GPU) n tt).
    eapply (wp_collect (λ todo acc s, Inv [] acc s ∧ frame w s ∧
      ∃ news, acc = hits ++ news ∧ (length news + length todo = n)%nat ∧
       NoDup news ∧ (∀ b, b ∈ acc → device (blk s b) = GPU) ∧
       (∀ b, b ∈ news → (b ∉ refs w ++ hits) ∧ ∀ k, w_cache s !! k ≠ Some b))).
    + split; [done|]. split; [done|]. exists []. rewrite app_nil_r, length_replicate.
      split; [done|]. split; [done|]. split; [constructor|]. split; [done|]. by intros b ?%elem_of_nil.
    + clear s Hi Hf Hd. intros u todo acc s (Hi & Hf & news & -> & Hlen & Hnd & Hd & Hnews).
      cbn [length] in Hlen.
      eapply wp_mono; [by apply alloc_block_spec|..].
      * intros b s1 (Hi1 & Hf1 & Hnb & _ & Hdb & Hcb). rewrite (frame_refs _ _ Hf) in Hnb.
        split; [by apply inv_ext_snoc|].
        split; [by etransitivity|]. exists (news ++ [b]). rewrite app_assoc.
        split; [done|]. split; [rewrite length_app; cbn; lia|].
        split; [apply NoDup_app; split; [done|]; split; [set_solver|apply NoDup_singleton]|]. split.
        -- intros b' [Hb'|Hb'%list_elem_of_singleton]%elem_of_app; [|by subst].
           rewrite (frame_device s s1) by (done || (apply (i_known _ _ _ Hi); set_solver)). auto.
        -- intros b' [Hb'|Hb'%list_elem_of_singleton]%elem_of_app;
             [|subst b'; split; [set_solver|auto]].
           destruct (Hnews b' Hb') as [? Hn]. split; [done|]. intros k Hk. apply (Hn k).
           by apply (f_cache _ _ Hf1).
      * intros e s1 (-> & -> & Hz).
        eapply wp_mono; [eapply (free_device_list GPU _ _ []); [apply reverse_Permutation|done|]| |done].
        { by rewrite app_nil_r. }
        intros _ s2 [Hi2 Hf2]. split; [done|]. split; [done|]. split; [by etransitivity|].
        assert (∀ b, b ∈ hits → is_Some (w_heap w !! b)) as Hk.
        { intros b Hb. destruct (Hhits b Hb) as (? & ? & _). eauto. }
        pose proof (free_after w s hits news Hinv Hi Hf Hk). lia.
    + clear s Hi Hf Hd. intros acc s (Hi & Hf & news & -> & Hlen & Hrest). cbn in Hlen.
      split; [done|]. split; [done|]. exists news. split; [done|]. split; [lia|done].
Qed.

(** What no operation changes: the configuration, and the device of a block. *)
Record stable (w w' : world) : Prop := {
  s_block_size : w_block_size w' = w_block_size w;
  s_model : w_model w' = w_model w;
  s_watermark : w_watermark_blocks w' = w_watermark_blocks w;
  s_num_blocks d : p_num_blocks (pool d w') = p_num_blocks (pool d w);
  s_heap b o : w_heap w !! b = Some o → ∃ o', w_heap w' !! b = Some o' ∧ device o' = device o;
}.

#[global] Instance stable_preorder : PreOrder stable.
Proof.
  split.
  - intros w. split; eauto.
  - intros w1 w2 w3 [] []. split; try congruence.
    intros b o Hb. edestruct s_heap0 as (o' & Ho' & ?); [done|].
    edestruct s_heap1 as (o'' & ? & ?); [done|]. exists o''. split; [done|congruence].
Qed.

Lemma frame_stable w w' : frame w w' → stable w w'.
Proof. intros []. by split. Qed.

Lemma same_but_keys_stable w w' : same_but_keys w w' → stable w w'.
Proof. intros ->. split; eauto. Qed.

Lemma frame_sync w w' : frame w w' → Sync w → Sync w'.
Proof.
  intros Hf Hs r. unfold req, get_blocks. rewrite (f_reqs _ _ Hf), (f_table _ _ Hf). apply Hs.
Qed.

Lemma mark_pending_spec w hits news p l :
  Inv [] [] w → hit_block_count p = Z.of_nat (length hits) →
  (∀ b, b ∈ news → is_Some (w_heap w !! b) ∧ ∀ k, w_cache w !! k ≠ Some b) →
  wp (for_ l (mark_pending (hits ++ news) p)) (λ _ w', Inv [] [] w' ∧ frame w w') no_raise w.
Proof.
  intros Hinv Hc Hnews.
  apply (wp_for (λ _ s, Inv [] [] s ∧ frame w s)); [done|].
  intros done_ [i key] todo s _ [Hi Hf]. unfold mark_pending. rewrite Hc.
  destruct (Z.ltb_spec (Z.of_nat i) (Z.of_nat (length hits))) as [Hlt|Hge]; [by wp_step|].
  rewrite lookup_app_r by lia. destruct (news !! _) as [b|] eqn:Hb; [|by wp_step].
  apply list_elem_of_lookup_2 in Hb. destruct (Hnews b Hb) as [[o Ho] Hn].
  destruct (f_heap _ _ Hf b o Ho) as (o' & Ho' & _).
  apply wp_set_blk. split; [|by etransitivity; [|apply frame_alter]].
  eapply inv_meta; try done. intros k Hk. exfalso. apply (Hn k). by apply (f_cache _ _ Hf).
Qed.

(** The request after a successful allocation. *)
Definition alloc_request (p : PrefixReusePlan) (bs : list bref) (q : Request) : Request :=
  apply_reuse_metrics p q <| input_cache_keys := SharedKey <$> input_keys p |>
    <| input_cache_committed := false |> <| physical_token_blocks := bs |>.

Lemma alloc_request_keys p bs : keeps_keys (alloc_request p bs).
Proof. done. Qed.

Lemma alloc_request_again p bs q :
  alloc_request p bs q <| input_cache_keys := SharedKey <$> input_keys p |> = alloc_request p bs q.
Proof. unfold alloc_request. set (q' := apply_reuse_metrics p q). clearbody q'. vm_compute. reflexivity. Qed.

(** The end of [allocate], once the blocks are referenced. *)
Lemma install_spec r p hits news w :
  Inv [] (hits ++ news) w → get_blocks r w = [] →
  hit_block_count p = Z.of_nat (length hits) →
  (∀ b, b ∈ news → ∀ k, w_cache w !! k ≠ Some b) →
  let bs := hits ++ news in
  wp (apply_plan r p ;; modify (add_blocks r bs) ;; sync_request_blocks r bs ;;
      mark_input_blocks_pending r bs p)
    (λ _ w', Inv [] [] w' ∧ stable w w' ∧ w_table w' = <[r := bs]> (w_table w) ∧
       w_reserved w' = w_reserved w ∧
       w_reqs w' = <[r := alloc_request p bs (req w r)]> (w_reqs w)) no_raise w.
Proof.
  intros Hinv Hg Hc Hn bs. wp_step. unfold apply_plan, set_req. wp_steps.
  unfold wp at 1. rewrite sync_request_blocks_eq.
  match goal with |- wp _ _ _ ?x => set (w1 := x) end.
  assert (w_reqs w1 = <[r := alloc_request p bs (req w r)]> (w_reqs w)) as Hreqs.
  { unfold w1, req. cbn. by rewrite !lookup_total_insert_eq, !insert_insert_eq. }
  assert (w_table w1 = <[r := bs]> (w_table w)) as Htab.
  { unfold w1. cbn. unfold get_blocks in Hg. by rewrite Hg. }
  assert (Inv [] [] w1) as Hinv1.
  { assert (w1 = w <| w_table := w_table w1 |> <| w_reserved := w_reserved w |>
      <| w_reqs := w_reqs w1 |>) as -> by done.
    eapply inv_move; [exact Hinv|..].
    - rewrite Htab, table_refs_insert, app_nil_r. unfold refs.
      rewrite (table_refs_split (w_table w) r). unfold get_blocks in Hg. rewrite Hg. cbn.
      by rewrite (Permutation_app_comm _ (hits ++ news)), <- app_assoc.
    - intros r'. rewrite Hreqs. destruct (decide (r = r')) as [<-|Hne].
      + rewrite lookup_total_insert_eq. apply alloc_request_keys.
      + by rewrite lookup_total_insert_ne. }
  assert (∀ w', frame w1 w' → w_table w' = <[r := bs]> (w_table w) ∧
    w_reserved w' = w_reserved w ∧
    w_reqs w' = <[r := alloc_request p bs (req w r)]> (w_reqs w)) as Hfr.
  { intros w' Hf. by rewrite (f_table _ _ Hf), (f_reserved _ _ Hf), (f_reqs _ _ Hf), Htab, Hreqs. }
  assert (stable w w1) as Hst by (split; eauto).
  assert (∀ b, b ∈ news → ∀ k, w_cache w1 !! k ≠ Some b) as Hn1 by done.
  assert (∀ ks, ks = SharedKey <$> input_keys p →
    w1 <| w_reqs ::= λ m, <[r := (m !!! r) <| input_cache_keys := ks |>]> m |> = w1) as Hagain.
  { intros ks ->. transitivity (w1 <| w_reqs := w_reqs w1 |>); [|done].
    unfold update_field at 1. rewrite Hreqs.
    by rewrite lookup_total_insert_eq, insert_insert_eq, alloc_request_again. }
  clearbody w1. unfold mark_input_blocks_pending. destruct (input_keys p) as [|k keys] eqn:Hk.
  - apply wp_modify. rewrite Hagain by done. split; [done|]. split; [done|]. by apply Hfr.
  - wp_step. apply wp_modify. rewrite Hagain by done.
    eapply wp_mono; [eapply mark_pending_spec; [done..|]| |done].
    + intros b Hb. split; [|by apply Hn1; auto]. apply (i_known _ _ _ Hinv1). unfold refs.
      rewrite Htab, table_refs_insert. set_solver.
    + intros _ w' [Hi Hf]. split; [done|]. split; [|by apply Hfr].
      etransitivity; [done|by apply frame_stable].
Qed.

Lemma same_but_keys_consistent L ext w w' :
  same_but_keys w w' → Inv L ext w' →
  refs w' = refs w ∧ w_reqs w' = w_reqs w ∧ w_table w' = w_table w ∧
  w_reserved w' = w_reserved w ∧ w_cache w' = w_cache w ∧ w_heap w' = w_heap w ∧
  get_num_free_blocks GPU w' = get_num_free_blocks GPU w ∧ (Sync w → Sync w').
Proof. intros -> _. repeat split; done. Qed.

(** The tables and requests an operation that failed leaves behind. *)
Definition unchanged (w w' : world) : Prop :=
  Consistent w' ∧ stable w w' ∧ w_table w' = w_table w ∧ w_reserved w' = w_reserved w ∧
  w_reqs w' = w_reqs w.

Lemma Sync_insert w w' r bs q :
  Sync w → w_table w' = <[r := bs]> (w_table w) → w_reqs w' = <[r := q]> (w_reqs w) →
  physical_token_blocks q = bs → Sync w'.
Proof.
  intros Hs Ht Hq Hb r'. unfold req, get_blocks. rewrite Ht, Hq.
  destruct (decide (r = r')) as [<-|Hne].
  - by rewrite lookup_total_insert_eq, lookup_insert_eq.
  - rewrite lookup_total_insert_ne, lookup_insert_ne by done. apply Hs.
Qed.

(** [allocate]: hits are shared, the rest is fresh; it fails only for a request
    that already has blocks or when the pool is too small, and then changes
    nothing visible. *)
Lemma allocate_spec r w :
  Consistent w →
  let p := ref_plan w r in
  wp (allocate r)
    (λ _ w', Consistent w' ∧ stable w w' ∧ get_blocks r w = [] ∧
       w_reserved w' = w_reserved w ∧ ∃ news,
       length news = Z.to_nat (miss_block_count p) ∧ NoDup news ∧
       (∀ b, b ∈ news → b ∉ refs w ++ hit_blocks p) ∧
       (∀ b, b ∈ hit_blocks p ++ news → device (blk w' b) = GPU) ∧
       w_table w' = <[r := hit_blocks p ++ news]> (w_table w) ∧
       w_reqs w' = <[r := alloc_request p (hit_blocks p ++ news) (req w r)]> (w_reqs w))
    (λ e w', unchanged w w' ∧
       (e = SimulationStateError ∧ get_blocks r w ≠ [] ∨
        e = ZeroDivisionError ∧ w_block_size w = 0 ∨
        e = OutOfBlocksError ∧
          get_num_free_blocks GPU w
            < zero_ref_hit_blocks p w + Z.of_nat (Z.to_nat (miss_block_count p)))) w.
Proof.
  intros [Hinv Hs] p. unfold allocate. do 2 wp_step. unfold table_num_blocks.
  destruct (Z.eqb_spec (Z.of_nat (length (get_blocks r w))) 0) as [Hlen0|Hlen0]; cbn [negb]; cycle 1.
  { wp_step. split; [by split|]. left. split; [done|]. intros Hg. by rewrite Hg in Hlen0. }
  assert (get_blocks r w = []) as Hg by (apply nil_length_inv; lia).
  wp_step. eapply wp_mono; [by apply plan_reuse_spec| |]; cycle 1.
  { intros e w' (-> & -> & Hz). split; [by split|]. auto. }
  intros p' w1 (-> & Hinv1 & Hw1 & Hz). fold p. cbv beta. wp_step.
  destruct (same_but_keys_consistent _ _ _ _ Hw1 Hinv1) as (Er & Eq & Et & Eres & Ec & Eh & Ef & Hs1).
  specialize (Hs1 Hs).
  assert (∀ b, b ∈ hit_blocks p → ∃ o, w_heap w1 !! b = Some o ∧ device o = GPU) as Hhits.
  { intros b Hb. rewrite Eh. destruct (hit_loop_known _ _ _ _ b Hinv Hb) as (o & _ & _ & ? & ? & _).
    eauto. }
  assert (∀ b, blk w1 b = blk w b) as Eb by (intros b; unfold blk; by rewrite Eh).
  apply same_but_keys_stable in Hw1 as Hst1.
  eapply wp_mono; [by apply (collect_blocks_spec w1 (hit_blocks p))|..].
  - intros bs w2 (Hinv2 & Hf2 & news & -> & Hlen & Hnd & Hdev & Hnews). cbv beta.
    eapply wp_mono; [eapply install_spec; [done|..]| |done].
    + unfold get_blocks. rewrite (f_table _ _ Hf2), Et. exact Hg.
    + done.
    + intros b Hb. by apply Hnews.
    + intros _ w3 (Hinv3 & Hst3 & Ht3 & Hr3 & Hq3).
      rewrite (f_table _ _ Hf2), Et in Ht3. rewrite (f_reserved _ _ Hf2), Eres in Hr3.
      assert (req w2 r = req w r) as Ereq by (unfold req; by rewrite (f_reqs _ _ Hf2), Eq).
      rewrite Ereq, (f_reqs _ _ Hf2), Eq in Hq3.
      split; [split; [done|exact (Sync_insert w w3 r _ _ Hs Ht3 Hq3 eq_refl)]|].
      split; [etransitivity; [done|]; by etransitivity; [apply frame_stable|]|].
      split; [done|]. split; [done|]. exists news. split; [done|]. split; [done|].
      split; [intros b Hb; rewrite <- Er; by apply Hnews|]. split; [|done].
      intros b Hb. rewrite <- (Hdev b Hb).
      destruct (i_known _ _ _ Hinv2 b) as [o Ho]; [set_solver|].
      destruct (s_heap _ _ Hst3 b o Ho) as (o' & Ho' & Hd).
      by rewrite (blk_lookup _ _ _ Ho), (blk_lookup _ _ _ Ho').
  - intros e w2 (-> & Hinv2 & Hf2 & Hlt). split.
    + split; [split; [done|by eapply frame_sync]|].
      split; [by etransitivity; [|apply frame_stable]|].
      by rewrite (f_table _ _ Hf2), (f_reserved _ _ Hf2), (f_reqs _ _ Hf2).
    + right. right. split; [done|]. rewrite <- Ef. unfold zero_ref_hit_blocks.
      rewrite (list_filter_iff _ (λ b, ref_count (blk w1 b) = 0)) by (intros b; by rewrite Eb). done.
Qed.

(** ** Release *)

Lemma table_delete_inv L ext r w :
  Inv L ext w → Inv L (get_blocks r w ++ ext) (w <| w_table ::= delete r |>).
Proof.
  intros Hinv. apply (inv_table _ ext _ w); [done|].
  rewrite (table_refs_split (w_table w) r). unfold get_blocks.
  rewrite app_assoc. by rewrite (Permutation_app_comm (table_refs _)).
Qed.

Lemma Sync_delete w w' r q :
  Sync w → w_table w' = delete r (w_table w) → w_reqs w' = <[r := q]> (w_reqs w) →
  physical_token_blocks q = [] → Sync w'.
Proof.
  intros Hs Ht Hq Hb r'. unfold req, get_blocks. rewrite Ht, Hq.
  destruct (decide (r = r')) as [<-|Hne].
  - by rewrite lookup_total_insert_eq, lookup_delete_eq.
  - rewrite lookup_total_insert_ne, lookup_delete_ne by done. apply Hs.
Qed.

(** [release_request_blocks] always returns. *)
Lemma release_request_blocks_spec r w :
  Consistent w →
  wp (release_request_blocks r)
    (λ _ w', Consistent w' ∧ stable w w' ∧ w_table w' = delete r (w_table w) ∧
       w_reserved w' = w_reserved w ∧
       w_reqs w' = <[r := req w r <| physical_token_blocks := [] |>]> (w_reqs w)) no_raise w.
Proof.
  intros [Hinv Hs]. unfold release_request_blocks, pop_blocks. do 3 wp_step. do 2 wp_step.
  pose proof (table_delete_inv _ _ r _ Hinv) as Hinv1.
  set (w1 := w <| w_table ::= delete r |>) in *.
  wp_step. wp_step.
  match goal with |- wp ?m ?Q ?E w1 => assert (wp m (λ bs w', bs = get_blocks r w ∧ w' = w1) no_raise w1)
    as Hbs end.
  { destruct (get_blocks r w) as [|b bs] eqn:Hg; [|by wp_step]. wp_step.
    split; [|done]. change (req w1 r) with (req w r). by rewrite Hs. }
  eapply wp_mono; [exact Hbs| |done]. intros ? ? [-> ->]. cbv beta. wp_step.
  eapply wp_mono; [by apply free_any_list| |done]. intros _ w2 [Hinv2 Hf2]. cbv beta.
  unfold set_req, forget_request. wp_steps. cbn.
  assert (req w2 r = req w r) as Ereq by (unfold req; by rewrite (f_reqs _ _ Hf2)).
  assert (w_reqs w2 !!! r = w_reqs w !!! r) as Ereq' by exact Ereq.
  rewrite Ereq', (f_reqs _ _ Hf2), (f_table _ _ Hf2), (f_reserved _ _ Hf2).
  assert (∀ w', Inv [] [] w' → Inv [] [] (w' <| w_input_keys ::= delete r |>)) as Hdel.
  { intros w' []. split; try done. cbn. intros r' ks [_ Hk]%lookup_delete_Some. by apply i_keys. }
  pose proof (inv_set_req _ _ w2 r (λ q, q <| physical_token_blocks := [] |>) ltac:(done) Hinv2) as Hinv3.
  apply Hdel in Hinv3. cbn in Hinv3. rewrite Ereq', (f_reqs _ _ Hf2), (f_table _ _ Hf2), (f_reserved _ _ Hf2) in Hinv3.
  split; [split; [exact Hinv3|]|].
  - eapply (Sync_delete w _ r); [done|done|done|done].
  - split; [|done]. transitivity w1; [split; eauto|]. destruct Hf2. split; cbn; try done.
Qed.
End ManagerSpec.
