(* ===== verification/ManagerSteps.v ===== *)
(** * Contracts of the block manager operations, continued

    Publication of computed blocks in the prefix cache, decode slots, forks,
    swaps between devices and reserved blocks. *)

From stdpp Require Import gmap list.
From Stdlib Require Import ZArith Lia.
From S2P Require Import Prelude.
From S2P Require Import Block.
From S2P Require Import FreeQueue.
From S2P Require Import PrefixKeys.
From S2P Require Import PyFloat.
From S2P Require Import Request.
From S2P Require Import World.
From S2P Require Import BlockPool.
From S2P Require Import KVCacheManager.
From S2P Require Import BlockManager.
From S2P Require Import BlockInv.
From S2P Require Import Allocator.
From S2P Require Import ManagerSpec.

Open Scope Z_scope.

Section ManagerSteps.
Context `{Digest}.

(** Tables and requests are left alone. *)
Record keep (w w' : world) : Prop := {
  k_stable : stable w w';
  k_table : w_table w' = w_table w;
  k_reserved : w_reserved w' = w_reserved w;
  k_reqs : w_reqs w' = w_reqs w;
}.

#[global] Instance keep_preorder : PreOrder keep.
Proof.
  split; [by intros w; split|]. intros w1 w2 w3 [] []. split; try congruence. by etransitivity.
Qed.

Lemma frame_keep w w' : frame w w' → keep w w'.
Proof. intros Hf. pose proof (frame_stable _ _ Hf). by destruct Hf; split. Qed.

Lemma keep_sync w w' : keep w w' → Sync w → Sync w'.
Proof. intros [_ Ht _ Hq] Hs r. unfold req, get_blocks. rewrite Ht, Hq. apply Hs. Qed.

Lemma keep_known w w' b : keep w w' → is_Some (w_heap w !! b) → is_Some (w_heap w' !! b).
Proof. intros [Hst _ _ _] [o Ho]. destruct (s_heap _ _ Hst b o Ho) as (? & ? & _). eauto. Qed.

(** A request's blocks exist. *)
Lemma get_blocks_known L ext r b w : Inv L ext w → b ∈ get_blocks r w → is_Some (w_heap w !! b).
Proof.
  intros Hinv Hb. apply (i_known _ _ _ Hinv). unfold refs.
  rewrite (table_refs_split (w_table w) r). unfold get_blocks in Hb. set_solver.
Qed.

(** ** Publishing blocks *)

(** A block under its key in the cache. *)
Definition cached_as (w : world) (k : PrefixCacheKey) (b : bref) : Prop :=
  w_cache w !! k = Some b ∧ ∃ o, w_heap w !! b = Some o ∧ block_hash o = Some k ∧
    cached o = true ∧ is_full o = true.

Lemma register_block_spec L ext w b k o :
  Inv L ext w → w_heap w !! b = Some o →
  wp (register_block (b, k)) (λ _ w', Inv L ext w' ∧ keep w w' ∧ cached_as w' k b ∧
      ∀ k' b', k' ≠ k → b' ≠ b → cached_as w k' b' → cached_as w' k' b') no_raise w.
Proof.
  intros Hinv Hb. unfold register_block. do 3 wp_step. rewrite (blk_lookup _ _ _ Hb).
  set (post1 := λ w1, Inv L ext w1 ∧ keep w w1 ∧
    (∃ o1, w_heap w1 !! b = Some o1 ∧ device o1 = device o) ∧
    (∀ k', w_cache w1 !! k' = Some b → device o = GPU → k' = k) ∧
    ∀ k' b', b' ≠ b → cached_as w k' b' → cached_as w1 k' b').
  match goal with |- wp ?m _ _ _ => assert (wp m (λ _, post1) no_raise w) as H1 end.
  { apply wp_when; intros Hh.
    - eapply wp_mono; [by apply evict_spec_other| |done].
      intros _ w1 (Hinv1 & Hf1 & Hb1 & Hn & Hother).
      split; [done|]. split; [by apply frame_keep|]. split; [by eexists|].
      split; [intros k' Hk' Hgpu; by destruct (Hn Hgpu k')|].
      intros k' b' Hne [Hc (o' & Ho' & Hp)]. destruct (Hother k' b' Hne) as [H2 H3].
      split; [auto|]. exists o'. by rewrite H3.
    - split; [done|]. split; [done|]. split; [by eexists|]. split; [|done].
      intros k' Hk' Hgpu. destruct (i_cache _ _ _ Hinv k' b Hk') as (o' & Ho' & Hpub). simplify_eq.
      destruct (Hpub Hgpu) as [Hh' _]. rewrite Hh' in Hh. by case_bool_decide. }
  eapply wp_mono; [exact H1| |done].
  intros _ w1 (Hinv1 & Hk1 & (o1 & Hb1 & Hd1) & Hgpu1 & Hother1). cbv beta.
  wp_step. apply wp_set_blk. do 2 wp_step.
  set (f := λ o : block, o <| block_hash := Some k |> <| is_full := true |> <| cached := true |>).
  set (w2 := w1 <| w_heap ::= alter f b |>).
  assert (w_heap w2 !! b = Some (f o1)) as Hb2 by (cbn; by rewrite lookup_alter_eq, Hb1).
  assert (Inv L ext (w2 <| w_cache ::= <[k := b]> |>)) as Hinv2.
  { apply (inv_cache _ _ w2 (<[k := b]> (w_cache w2))).
    - eapply inv_meta; try done. intros k' Hk' _ Hgpu. cbn.
      change (device o1 = GPU) in Hgpu. rewrite (Hgpu1 k') by (done || congruence). done.
    - intros k' b'. rewrite lookup_insert_Some. intros [[<- <-]|[Hne Hk']]; [by exists (f o1)|].
      destruct (i_cache _ _ _ Hinv1 k' b' Hk') as (o' & Ho' & Hpub).
      destruct (decide (b' = b)) as [->|Hbne].
      + exists (f o1). split; [done|]. intros Hgpu. destruct Hne.
        symmetry. apply Hgpu1; [done|]. change (device o1 = GPU) in Hgpu. congruence.
      + exists o'. cbn. by rewrite lookup_alter_ne. }
  eapply wp_mono; [eapply (touch_spec _ _ _ b (f o1)); done| |done].
  intros _ w3 (Hinv3 & Hf3 & Hc3 & Hh3). split; [done|].
  assert (stable w1 w2) as Hst2 by (apply frame_stable; by apply frame_alter).
  split; [|split].
  - etransitivity; [exact Hk1|]. transitivity (w2 <| w_cache ::= <[k := b]> |>); [|by apply frame_keep].
    split; try done. by destruct Hst2; split.
  - unfold cached_as. rewrite Hc3, Hh3. cbn. rewrite lookup_insert_eq. split; [done|].
    rewrite lookup_alter_eq, lookup_alter_eq, Hb1. by eexists.
  - intros k' b' Hkne Hbne Hcs. apply Hother1 in Hcs as (Hc & o' & Ho' & Hp); [|done].
    unfold cached_as. rewrite Hc3, Hh3. cbn. rewrite lookup_insert_ne by done. split; [done|].
    rewrite !lookup_alter_ne by done. eauto.
Qed.

Lemma register_blocks_spec L ext w bs keys :
  Inv L ext w → (∀ b, b ∈ bs → is_Some (w_heap w !! b)) →
  wp (register_blocks bs keys) (λ _ w', Inv L ext w' ∧ keep w w' ∧
    (NoDup bs → NoDup keys → ∀ i b k, bs !! i = Some b → keys !! i = Some k → cached_as w' k b))
    no_raise w.
Proof.
  intros Hinv Hk. unfold register_blocks.
  eapply wp_mono; [apply (wp_for (λ done_ s, Inv L ext s ∧ keep w s ∧
    (NoDup bs → NoDup keys → ∀ b k, (b, k) ∈ done_ → cached_as s k b)))|..].
  - split; [done|]. split; [done|]. by intros _ _ b k ?%elem_of_nil.
  - intros done_ [b k] todo s Heq (Hi & Hks & Hdone).
    assert ((b, k) ∈ zip bs keys) as Hin by (rewrite Heq; set_solver).
    apply elem_of_zip_l in Hin as Hbin. apply (Hk b) in Hbin as Hknown.
    destruct (keep_known w s b Hks Hknown) as [o Ho].
    eapply wp_mono; [by eapply register_block_spec| |done].
    intros _ s' (Hi' & Hks' & Hcas & Hold). split; [done|]. split; [by etransitivity|].
    intros Hnb Hnk b' k' [Hin'|Hin'%list_elem_of_singleton]%elem_of_app; [|by simplify_eq].
    destruct (list_elem_of_lookup_1 _ _ Hin') as [i Hi2].
    assert (zip bs keys !! i = Some (b', k')) as Hz1.
    { rewrite Heq, lookup_app_l; [done|]. by eapply lookup_lt_Some. }
    assert (zip bs keys !! length done_ = Some (b, k)) as Hz2.
    { rewrite Heq, lookup_app_r by done. by rewrite Nat.sub_diag. }
    apply lookup_lt_Some in Hi2.
    apply lookup_zip_Some in Hz1 as [??], Hz2 as [??].
    apply Hold; [| |by apply Hdone].
    + intros ->. assert (i = length done_) by (by eapply NoDup_lookup; [exact Hnk|..]). lia.
    + intros ->. assert (i = length done_) by (by eapply NoDup_lookup; [exact Hnb|..]). lia.
  - cbv beta. intros _ s (Hi & Hks & Hdone). split; [done|]. split; [done|].
    intros Hnb Hnk i b k Hbi Hki. apply Hdone; [done|done|].
    apply (list_elem_of_lookup_2 _ i). by apply lookup_zip_Some.
  - done.
Qed.

(** Only the committed flag of the request changes. *)
Lemma commit_input_cache_spec r w :
  Consistent w →
  wp (commit_input_cache r) (λ _ w', Consistent w' ∧ stable w w' ∧ w_table w' = w_table w ∧
    w_reserved w' = w_reserved w ∧
    (∀ r', req w' r' = if decide (r = r') then req w r <| input_cache_committed := true |>
                       else req w r') ∧
    (input_cache_committed (req w r) = false →
     NoDup (get_blocks r w) → NoDup (shared_keys (input_cache_keys (req w r))) →
     ∀ i b k, get_blocks r w !! i = Some b → shared_keys (input_cache_keys (req w r)) !! i = Some k →
       cached_as w' k b)) no_raise w.
Proof.
  intros [Hinv Hs]. unfold commit_input_cache. do 2 wp_step. unfold id.
  destruct (input_cache_committed (req w r)) eqn:Hcom.
  { wp_step. do 4 (split; [done|]). split; [|done]. intros r'. case_decide as Hr; [|done].
    subst r'. rewrite <- Hcom. by destruct (req w r). }
  wp_step. set (keys := shared_keys (input_cache_keys (req w r))).
  set (post := λ w1, Inv [] [] w1 ∧ keep w w1 ∧ (NoDup (get_blocks r w) → NoDup keys →
     ∀ i b k, get_blocks r w !! i = Some b → keys !! i = Some k → cached_as w1 k b)).
  match goal with |- wp ?m _ _ _ => assert (wp m (λ _, post) no_raise w) as Hreg end.
  { destruct keys as [|k0 keys0] eqn:Hkeys; [wp_step; split; [done|]; by split|].
    rewrite <- Hkeys. eapply wp_mono; [apply register_blocks_spec; [done|]| |done].
    - intros b Hb. eapply get_blocks_known; [done|]. eapply elem_of_take in Hb as (i & Hb & _).
      by eapply list_elem_of_lookup_2.
    - intros _ w1 (Hi & Hk & Hcas). split; [done|]. split; [done|]. intros Hnb Hnk i b k Hb Hki.
      eapply (Hcas (sublist_NoDup _ _ Hnb (sublist_take _ _))); [by rewrite Hkeys| |by rewrite Hkeys].
      rewrite lookup_take_lt; [done|]. rewrite Hkeys. by eapply lookup_lt_Some. }
  eapply wp_mono; [exact Hreg| |done]. intros _ w1 (Hi & [Hst Ht Hres Hq] & Hcas). cbv beta.
  apply wp_modify.
  assert (∀ r', req (w1 <| w_reqs ::= λ m, <[r := (m !!! r) <| input_cache_committed := true |>]> m |>) r'
    = if decide (r = r') then req w r <| input_cache_committed := true |> else req w r') as Hreq.
  { intros r'. rewrite (req_set w1 r r' (λ q, q <| input_cache_committed := true |>)).
    unfold req. by rewrite Hq. }
  split; [split|].
  - apply (inv_set_req _ _ w1 r (λ q, q <| input_cache_committed := true |>)); done.
  - intros r'. rewrite Hreq. unfold get_blocks. cbn [w_table update_field]. rewrite Ht.
    case_decide as Hr; [subst r'|]; apply Hs.
  - split; [by destruct Hst; split|]. split; [done|]. split; [done|]. split; [done|].
    intros _ Hnb Hnk i b k Hb Hk. by apply (Hcas Hnb Hnk i).
Qed.

Lemma register_output_blocks_spec r bs w :
  Inv [] [] w → (∀ b, b ∈ bs → is_Some (w_heap w !! b)) →
  wp (register_output_blocks r bs) (λ _ w', Inv [] [] w' ∧ keep w w')
    (λ e w', w' = w ∧ e = ZeroDivisionError ∧ w_block_size w = 0) w.
Proof.
  intros Hinv Hbs. unfold register_output_blocks. do 2 wp_step. unfold id.
  destruct (truthy _); cbn [negb]; [|by wp_step]. wp_step. unfold floordiv.
  destruct (Z.eqb_spec (w_block_size w) 0) as [Hz|Hz]; [by wp_step|]. wp_step.
  match goal with |- context [if negb ?c then _ else _] => destruct c end; cbn [negb]; [|by wp_step].
  match goal with |- context [if ?x <? ?y then _ else _] => destruct (x <? y) end; [by wp_step|].
  match goal with |- context [if ?x <=? 0 then _ else _] => destruct (x <=? 0) end; [by wp_step|].
  match goal with |- context [match slice_to ?n ?l with [] => _ | _ => _ end] =>
    destruct (slice_to n l) as [|h hs] end; [by wp_step|].
  wp_step. eapply wp_mono; [by apply build_keys_spec| |done].
  intros keys w1 (_ & Hinv1 & Hw1). cbv beta.
  assert (keep w w1) as Hk1 by (rewrite Hw1; split; [split; eauto|done..]).
  match goal with |- context [if ?x <=? ?y then _ else _] => destruct (x <=? y) end; [by wp_step|].
  eapply wp_mono; [apply register_blocks_spec; [done|]| |done].
  - intros b Hb. apply (keep_known w); [done|]. apply Hbs.
    eapply elem_of_sublist; [|exact Hb].
    etransitivity; [apply sublist_drop|apply sublist_take].
  - intros _ w2 (? & ? & _). split; [done|by etransitivity].
Qed.

(** [BlockManager.free] *)
Lemma free_request_spec r w :
  Consistent w →
  wp (free_request r) (λ _ w', Consistent w' ∧ stable w w' ∧
      w_table w' = delete r (w_table w) ∧ w_reserved w' = w_reserved w ∧
      ∀ r', req w' r' =
        if decide (r = r')
        then req w r <| input_cache_committed := true |> <| physical_token_blocks := [] |>
        else req w r')
    (λ e w', Consistent w' ∧ stable w w' ∧ w_reserved w' = w_reserved w ∧
       e = ZeroDivisionError ∧ w_block_size w = 0) w.
Proof.
  intros Hc. unfold free_request, commit_finished_cache. do 2 wp_step.
  eapply wp_mono; [by apply commit_input_cache_spec| |done].
  intros _ w1 ([Hinv1 Hs1] & Hst1 & Ht1 & Hr1 & Hq1 & _). cbv beta. do 2 wp_step.
  eapply wp_mono; [apply register_output_blocks_spec; [done|]|..].
  - intros b. by eapply get_blocks_known.
  - intros _ w2 [Hinv2 Hk2]. cbv beta.
    eapply wp_mono; [apply release_request_blocks_spec; split; [done|by eapply keep_sync]| |done].
    intros _ w3 (Hc3 & Hst3 & Ht3 & Hr3 & Hq3). destruct Hk2 as [Hst2 Ht2 Hr2 Hq2].
    split; [done|].
    split; [etransitivity; [exact Hst1|]; etransitivity; [exact Hst2|exact Hst3]|].
    split; [congruence|]. split; [congruence|]. intros r'.
    assert (∀ x, req w2 x = req w1 x) as E2 by (intros x; unfold req; by rewrite Hq2).
    unfold req at 1. rewrite Hq3, E2, Hq1, decide_True by done. case_decide as Hr.
    + subst r'. by rewrite lookup_total_insert_eq.
    + rewrite lookup_total_insert_ne by done. change (w_reqs w2 !!! r') with (req w2 r').
      by rewrite E2, Hq1, decide_False.
  - intros e w2 (-> & -> & Hz). rewrite (s_block_size _ _ Hst1) in Hz. done.
Qed.

(** ** Decode slots *)

(** References move from the operation into a request's table entry. *)
Lemma inv_table_append ext bs r w :
  Inv [] (bs ++ ext) w → Inv [] ext (add_blocks r bs w).
Proof.
  intros Hinv. apply (inv_table _ (bs ++ ext) _ w); [done|].
  rewrite table_refs_insert, (table_refs_split (w_table w) r).
  rewrite <- !app_assoc. apply Permutation_app_head.
  rewrite app_assoc, (Permutation_app_comm bs). by rewrite <- app_assoc.
Qed.

Lemma append_slot_spec r w :
  Consistent w →
  wp (append_slot r)
    (λ _ w', Consistent w' ∧ stable w w' ∧
       if needs_slot r w then
         ∃ b, (b ∉ refs w) ∧ device (blk w' b) = GPU ∧
           w_table w' = <[r := get_blocks r w ++ [b]]> (w_table w) ∧
           w_reserved w' = w_reserved w ∧
           w_reqs w' = <[r := req w r <| physical_token_blocks ::= λ l, l ++ [b] |>]> (w_reqs w)
       else w' = w)
    (λ e w', w' = w ∧ e = OutOfBlocksError ∧ needs_slot r w = true ∧
       get_num_free_blocks GPU w = 0) w.
Proof.
  intros [Hinv Hs]. unfold append_slot. do 2 wp_step. unfold id.
  destruct (needs_slot r w); [|by wp_step].
  wp_step. eapply wp_mono; [by apply alloc_block_spec|..]; [|naive_solver].
  intros b w1 (Hinv1 & Hf1 & Hnb & _ & Hd & _). cbv beta. rewrite app_nil_r in Hnb.
  unfold set_req. do 3 wp_step.
  pose proof (inv_table_append [] [b] r w1 Hinv1) as Hinv2.
  pose proof (f_table _ _ Hf1) as Ht. pose proof (f_reqs _ _ Hf1) as Hq.
  pose proof (f_reserved _ _ Hf1) as Hres. pose proof (frame_stable _ _ Hf1) as Hst.
  split; [split|split].
  - by apply (inv_set_req _ _ (add_block r b w1) r).
  - eapply (Sync_insert w _ r); [done|..]; cbn; rewrite ?Ht, ?Hq; [done|done|].
    cbn. pose proof (Hs r) as Hsr. unfold req, get_blocks in Hsr. by rewrite Hsr.
  - etransitivity; [exact Hst|]. split; eauto.
  - exists b. split; [done|]. cbn. rewrite Ht, Hq, Hres. split; [done|]. by split.
Qed.

(** ** Forks *)

Lemma fork_spec parent child w :
  Consistent w →
  wp (fork parent child)
    (λ _ w', Consistent w' ∧ stable w w' ∧ get_blocks child w = [] ∧ get_blocks parent w ≠ [] ∧
       w_table w' = <[child := get_blocks parent w]> (w_table w) ∧ w_reserved w' = w_reserved w)
    (λ e w', w' = w ∧ e = SimulationStateError ∧
       (get_blocks child w ≠ [] ∨ get_blocks parent w = [])) w.
Proof.
  intros [Hinv Hs]. unfold fork. do 2 wp_step. unfold table_num_blocks.
  destruct (Z.eqb_spec (Z.of_nat (length (get_blocks child w))) 0) as [Hc|Hc]; cbn [negb]; cycle 1.
  { wp_step. split; [done|]. split; [done|]. left. intros Hg. by rewrite Hg in Hc. }
  assert (get_blocks child w = []) as Hg by (apply nil_length_inv; lia). do 2 wp_step.
  destruct (get_blocks parent w) as [|b0 bs0] eqn:Hp; [by wp_step; auto|]. rewrite <- Hp.
  set (bs := get_blocks parent w).
  wp_step. eapply (wp_collect (λ todo acc s, Inv [] acc s ∧ frame w s ∧ acc ++ todo = bs)).
  - done.
  - intros b todo acc s (Hi & Hf & Heq). do 3 wp_step.
    destruct (get_blocks_known _ _ parent b w Hinv) as [o Ho]; [change (b ∈ bs); rewrite <- Heq; set_solver|].
    destruct (f_heap _ _ Hf b o Ho) as (o' & Ho' & _).
    eapply wp_mono; [eapply (acquire_spec _ acc s b o'); [done..|]| |done].
    { by rewrite (blk_lookup _ _ _ Ho'). }
    intros _ s' (Hi' & Hf' & _). cbv beta. wp_step. split; [by apply inv_ext_snoc|].
    split; [by etransitivity|]. by rewrite <- app_assoc.
  - intros acc s (Hi & Hf & Heq). rewrite app_nil_r in Heq. subst acc. do 2 wp_step.
    unfold wp. rewrite sync_request_blocks_eq.
    pose proof (f_table _ _ Hf) as Ht. pose proof (f_reqs _ _ Hf) as Hq.
    pose proof (f_reserved _ _ Hf) as Hres. pose proof (frame_stable _ _ Hf) as Hst.
    assert (w_table (add_blocks child bs s) = <[child := bs]> (w_table w)) as Htab.
    { cbn. rewrite Ht. unfold get_blocks in Hg. by rewrite Hg. }
    split; [split|].
    + apply (inv_set_req _ _ (add_blocks child bs s) child); [done|].
      apply inv_table_append. by rewrite app_nil_r.
    + eapply (Sync_insert w _ child); [done|exact Htab|cbn; rewrite Hq; done|done].
    + split; [etransitivity; [exact Hst|]; split; eauto|]. split; [done|].
      split; [unfold bs; by rewrite Hp|]. split; [exact Htab|done].
Qed.

(** ** Swaps *)

Lemma validate_blocks_device_spec bs d w :
  wp (validate_blocks_device bs d)
    (λ _ w', w' = w ∧ ∀ b, b ∈ bs → device (blk w b) = d)
    (λ e w', w' = w ∧ e = SimulationStateError ∧ ¬ ∀ b, b ∈ bs → device (blk w b) = d) w.
Proof.
  unfold validate_blocks_device. induction bs as [|b bs IH]; cbn [for_].
  { wp_step. split; [done|]. by intros b ?%elem_of_nil. }
  do 3 wp_step. case_bool_decide as Hd; wp_step; cycle 1.
  { split; [done|]. split; [done|]. intros Hall. apply Hd, Hall. set_solver. }
  eapply wp_mono; [exact IH|..].
  - intros _ w' [-> Hall]. split; [done|]. intros b' [->|Hb']%elem_of_cons; auto.
  - intros e w' (-> & -> & Hn). split; [done|]. split; [done|]. intros Hall. apply Hn.
    intros b' Hb'. apply Hall. set_solver.
Qed.

(** Swapping one block out allocates its copy. *)
Lemma swap_block_spec d src ext w :
  Inv [] ext w →
  wp (swap_block d src) (λ b w', Inv [] (b :: ext) w' ∧ frame w w' ∧
      (b ∉ refs w ++ ext) ∧ device (blk w' b) = d)
    (λ e w', w' = w ∧ e = OutOfBlocksError ∧ get_num_free_blocks d w = 0) w.
Proof.
  intros Hinv. unfold swap_block. wp_step. eapply wp_mono; [by apply alloc_block_spec| |done].
  intros b w1 (Hinv1 & Hf1 & Hnb & _ & Hd & Hc). cbv beta. do 3 wp_step. apply wp_set_blk. wp_step.
  destruct (i_known _ _ _ Hinv1 b) as [o Ho]; [set_solver|]. rewrite (blk_lookup _ _ _ Ho) in Hd.
  split; [|split; [by etransitivity; [|apply frame_alter]|split; [done|]]].
  - eapply inv_meta; try done. intros k Hk _ Hgpu. exfalso.
    change (device o = GPU) in Hgpu. apply (Hc ltac:(congruence) k Hk).
  - unfold blk. cbn. by rewrite lookup_total_alt, lookup_alter_eq, Ho.
Qed.

(** One reference uses at most one free block. *)
Lemma free_after_fresh d w w' news :
  Inv [] [] w → Inv [] news w' → frame w w' →
  get_num_free_blocks d w - Z.of_nat (length news) <= get_num_free_blocks d w'.
Proof.
  intros Hinv Hinv' Hf. rewrite (free_count d w []), (free_count d w' news) by done.
  rewrite (f_num_blocks _ _ Hf d).
  assert (used d w' news ⊆ used d w [] ∪ list_to_set news) as Hsub.
  { intros b. unfold used. rewrite (frame_refs _ _ Hf).
    rewrite elem_of_union, !elem_of_filter, !elem_of_list_to_set, !elem_of_app.
    intros (Hd & [Hb|Hb]); [left|by right]. split; [|by left].
    rewrite <- Hd. symmetry. apply frame_device; [done|]. apply (i_known _ _ _ Hinv). set_solver. }
  apply subseteq_size in Hsub. rewrite size_union_alt in Hsub.
  assert ((size (list_to_set (C := gset bref) news ∖ used d w []) ≤
    size (list_to_set (C := gset bref) news))%nat) by (apply subseteq_size; set_solver).
  pose proof (size_list_to_set_le news). lia.
Qed.

(** Collecting [length xs] fresh blocks of a device. *)
Lemma collect_fresh_spec {X} d (f : X → M world bref) (xs : list X) undo w :
  Inv [] [] w →
  (∀ l, undo l = for_ (reverse l) (free_block d) ∨ undo l = for_ l (free_block d)) →
  (∀ x ext w1, Inv [] ext w1 →
     wp (f x) (λ b w', Inv [] (b :: ext) w' ∧ frame w1 w' ∧ (b ∉ refs w1 ++ ext) ∧
         device (blk w' b) = d)
       (λ e w', w' = w1 ∧ e = OutOfBlocksError ∧ get_num_free_blocks d w1 = 0) w1) →
  wp (collect (f <$> xs) undo [])
    (λ bs w', Inv [] bs w' ∧ frame w w' ∧ length bs = length xs ∧ NoDup bs ∧
       (∀ b, b ∈ bs → (b ∉ refs w) ∧ device (blk w' b) = d))
    (λ e w', e = OutOfBlocksError ∧ Inv [] [] w' ∧ frame w w' ∧
       get_num_free_blocks d w < Z.of_nat (length xs)) w.
Proof.
  intros Hinv Hundo Hfx.
  eapply (wp_collect (λ todo acc s, Inv [] acc s ∧ frame w s ∧
    (length acc + length todo = length xs)%nat ∧ NoDup acc ∧
    (∀ b, b ∈ acc → (b ∉ refs w) ∧ device (blk s b) = d))).
  - split; [done|]. split; [done|]. split; [done|]. split; [constructor|]. by intros b ?%elem_of_nil.
  - intros x todo acc s (Hi & Hf & Hlen & Hnd & Hacc). cbn [length] in Hlen.
    eapply wp_mono; [by apply Hfx|..].
    + intros b s' (Hi' & Hf' & Hnb & Hd). rewrite (frame_refs _ _ Hf) in Hnb.
      split; [by apply inv_ext_snoc|]. split; [by etransitivity|].
      split; [rewrite length_app; cbn; lia|].
      split; [apply NoDup_app; split; [done|]; split; [set_solver|apply NoDup_singleton]|].
      intros b' [Hb'|Hb'%list_elem_of_singleton]%elem_of_app; [|subst b'; split; [set_solver|done]].
      destruct (Hacc b' Hb'). split; [done|].
      rewrite (frame_device s s') by (done || (apply (i_known _ _ _ Hi); set_solver)). done.
    + intros e s' (-> & -> & Hz).
      assert (∃ l, undo acc = for_ l (free_block d) ∧ l ≡ₚ acc) as (l & -> & Hl).
      { destruct (Hundo acc) as [-> | ->]; eexists; (split; [done|]); [apply reverse_Permutation|done]. }
      eapply wp_mono; [eapply (free_device_list d acc l []); [done|naive_solver|by rewrite app_nil_r]| |done].
      intros _ s2 [Hi2 Hf2]. split; [done|]. split; [done|]. split; [by etransitivity|].
      pose proof (free_after_fresh d w s acc Hinv Hi Hf). lia.
  - intros acc s (Hi & Hf & Hlen & Hnd & Hacc). cbn in Hlen. split; [done|]. split; [done|].
    split; [lia|]. done.
Qed.

Lemma inv_set_blocks r bs w :
  Inv [] bs w → Inv [] (get_blocks r w) (set_blocks r bs w).
Proof.
  intros Hinv. unfold set_blocks, get_blocks. destruct bs as [|b bs].
  - apply (inv_table _ [] _ w); [done|]. rewrite (table_refs_split (w_table w) r), app_nil_r.
    by rewrite Permutation_app_comm.
  - apply (inv_table _ (b :: bs) _ w); [done|]. rewrite table_refs_insert.
    rewrite (table_refs_split (w_table w) r).
    by rewrite (Permutation_app_comm _ (b :: bs)), <- app_assoc, (Permutation_app_comm (table_refs _)).
Qed.

Lemma get_set_blocks r r' bs w :
  get_blocks r' (set_blocks r bs w) = if decide (r = r') then bs else get_blocks r' w.
Proof.
  unfold get_blocks, set_blocks. case_decide as Hr; destruct bs; cbn; subst;
    rewrite ?lookup_delete_eq, ?lookup_insert_eq, ?lookup_delete_ne, ?lookup_insert_ne by done; done.
Qed.

(** A request's entry and its own list are replaced together. *)
Lemma Sync_sync r w w0 bs :
  Sync w → (∀ r', get_blocks r' w0 = if decide (r = r') then bs else get_blocks r' w) →
  w_reqs w0 = w_reqs w →
  Sync (w0 <| w_reqs ::= λ m, <[r := (m !!! r) <| physical_token_blocks := bs |>]> m |>).
Proof.
  intros Hs Hg Hq r'. rewrite (req_set w0 r r' (λ q, q <| physical_token_blocks := bs |>)).
  change (get_blocks r' (w0 <| w_reqs ::= _ |>)) with (get_blocks r' w0). rewrite Hg.
  case_decide; [done|]. unfold req. rewrite Hq. apply Hs.
Qed.

Lemma swap_spec r s t w :
  Consistent w →
  wp (swap r s t)
    (λ _ w', Consistent w' ∧ stable w w' ∧ w_reserved w' = w_reserved w ∧
       length (get_blocks r w') = length (get_blocks r w) ∧ NoDup (get_blocks r w') ∧
       (∀ b, b ∈ get_blocks r w' → (b ∉ refs w) ∧ device (blk w' b) = t) ∧
       (∀ r', r' ≠ r → get_blocks r' w' = get_blocks r' w))
    (λ e w', w' = w ∧
       (e = SimulationStateError ∧ (¬ ∀ b, b ∈ get_blocks r w → device (blk w b) = s) ∨
        e = OutOfBlocksError ∧
          get_num_free_blocks t w < Z.of_nat (length (get_blocks r w)))) w.
Proof.
  intros [Hinv Hs]. unfold swap. do 3 wp_step.
  eapply wp_mono; [apply validate_blocks_device_spec| |naive_solver].
  intros _ ? [-> Hdev]. cbv beta. do 2 wp_step. set (src := get_blocks r w) in *.
  destruct (Z.ltb_spec (get_num_free_blocks t w) (Z.of_nat (length src))) as [Hlt|Hge].
  { wp_step. naive_solver. }
  wp_step. eapply wp_mono; [eapply (collect_fresh_spec t); [done|by auto|]|..].
  { intros x ext w1. apply swap_block_spec. }
  2: { intros e w1 (_ & _ & _ & Hlt). lia. }
  intros bs w1 (Hinv1 & Hf1 & Hlen & Hnd & Hbs). cbv beta. do 3 wp_step.
  unfold wp at 1. rewrite sync_request_blocks_eq.
  match goal with |- wp _ _ _ ?x => set (w2 := x) end.
  assert (get_blocks r w1 = src) as Hsrc by (unfold get_blocks; by rewrite (f_table _ _ Hf1)).
  assert (Inv [] (src ++ []) w2) as Hinv2.
  { rewrite app_nil_r, <- Hsrc. apply (inv_set_req _ _ (set_blocks r bs w1) r); [done|].
    by apply inv_set_blocks. }
  assert (stable w w2) as Hst2.
  { etransitivity; [by apply frame_stable|]. destruct bs; split; eauto; by intros []. }
  assert (∀ r', get_blocks r' w2 = if decide (r = r') then bs else get_blocks r' w) as Hg2.
  { intros r'. change (get_blocks r' w2) with (get_blocks r' (set_blocks r bs w1)).
    rewrite get_set_blocks. case_decide; [done|]. unfold get_blocks. by rewrite (f_table _ _ Hf1). }
  assert (Sync w2) as Hs2.
  { apply (Sync_sync r w); [done|exact Hg2|]. rewrite <- (f_reqs _ _ Hf1). by destruct bs. }
  assert (w_reserved w2 = w_reserved w) as Hr2
    by (rewrite <- (f_reserved _ _ Hf1); by destruct bs).
  eapply wp_mono; [by apply free_any_list| |done]. intros _ w3 [Hinv3 Hf3].
  assert (∀ r', get_blocks r' w3 = get_blocks r' w2) as Hg3
    by (intros r'; unfold get_blocks; by rewrite (f_table _ _ Hf3)).
  split; [split; [done|by eapply frame_sync]|].
  split; [by etransitivity; [|apply frame_stable]|].
  split; [by rewrite (f_reserved _ _ Hf3)|]. rewrite !Hg3, !Hg2, decide_True by done.
  split; [by rewrite Hlen|]. split; [done|]. split.
  - intros b Hb. destruct (Hbs b Hb) as [Hnb Hd]. split; [done|].
    rewrite (frame_device w2 w3) by (done || (apply (get_blocks_known _ _ r b w2 Hinv2);
      by rewrite Hg2, decide_True)).
    rewrite <- Hd. unfold w2, blk. destruct bs; done.
  - intros r' Hne. rewrite Hg3, Hg2. by rewrite decide_False.
Qed.

(** ** Undoing the last slot, and reserved blocks *)

Lemma rollback_last_block_spec r w :
  Consistent w →
  wp (rollback_last_block r)
    (λ _ w', Consistent w' ∧ stable w w' ∧ w_reserved w' = w_reserved w ∧
       ∀ r', get_blocks r' w' =
         if decide (r = r') then removelast (get_blocks r w) else get_blocks r' w) no_raise w.
Proof.
  intros [Hinv Hs]. unfold rollback_last_block, pop_last_block. do 3 wp_step.
  destruct (last (get_blocks r w)) as [b|] eqn:Hl; cycle 1.
  { do 2 wp_step. split; [done|]. split; [done|]. split; [done|]. intros r'.
    case_decide as Hr; [subst r'|done]. apply last_None in Hl. by rewrite Hl. }
  apply last_Some in Hl as [bs Hl]. assert (removelast (get_blocks r w) = bs) as Hrl
    by (rewrite Hl; apply removelast_last).
  rewrite Hrl. do 3 wp_step.
  match goal with |- wp ?m _ _ ?w0 => assert (wp m (λ _ w', w' = set_blocks r bs w) no_raise w0)
    as Hset end.
  { destruct bs; wp_step; [|done]. unfold update_field. cbn. by rewrite delete_insert_eq. }
  eapply wp_mono; [exact Hset| |done]. intros _ ? ->. cbv beta. do 2 wp_step.
  set (w1 := set_blocks r bs w).
  assert (Inv [] (b :: []) w1) as Hinv1.
  { unfold w1, set_blocks. destruct bs as [|b1 bs].
    - apply (inv_table _ [] _ w); [done|]. rewrite (table_refs_split (w_table w) r), app_nil_r.
      unfold get_blocks in Hl. rewrite Hl. cbn. by rewrite Permutation_app_comm.
    - apply (inv_table _ [] _ w); [done|]. rewrite table_refs_insert.
      rewrite (table_refs_split (w_table w) r), app_nil_r. unfold get_blocks in Hl. rewrite Hl.
      rewrite <- !app_assoc. apply Permutation_app_head. by rewrite Permutation_app_comm. }
  unfold free_any. do 2 wp_step.
  eapply wp_mono; [by apply free_block_spec| |done]. intros _ w2 [Hinv2 Hf2]. cbv beta. do 2 wp_step.
  assert (∀ r', get_blocks r' w2 = if decide (r = r') then bs else get_blocks r' w) as Hg.
  { intros r'. unfold get_blocks. rewrite (f_table _ _ Hf2). apply (get_set_blocks r r' bs w). }
  unfold wp. rewrite sync_request_blocks_eq. rewrite (Hg r), decide_True by done.
  split; [split|split; [|split]].
  - by apply (inv_set_req _ _ w2 r).
  - apply (Sync_sync r w); [done|exact Hg|]. rewrite (f_reqs _ _ Hf2). unfold w1. by destruct bs.
  - transitivity w1; [unfold w1; destruct bs; split; eauto; by intros []|].
    etransitivity; [by apply frame_stable|]. split; eauto.
  - cbn. rewrite (f_reserved _ _ Hf2). unfold w1. by destruct bs.
  - exact Hg.
Qed.

Lemma inv_reserved L ext ext' w res :
  Inv L ext w → res ++ ext' ≡ₚ w_reserved w ++ ext → Inv L ext' (w <| w_reserved := res |>).
Proof.
  intros Hinv Hp. apply (inv_move _ _ ext' _ (w_table w) res (w_reqs w) Hinv); [|done].
  unfold refs. by rewrite Hp, app_assoc.
Qed.

Lemma reserve_gpu_blocks_spec n w :
  Consistent w →
  wp (reserve_gpu_blocks n)
    (λ _ w', Consistent w' ∧ stable w w' ∧ w_table w' = w_table w ∧ w_reqs w' = w_reqs w ∧
       ∃ bs, w_reserved w' = w_reserved w ++ bs ∧ length bs = Z.to_nat n ∧
         ∀ b, b ∈ bs → device (blk w' b) = GPU)
    (λ e w', unchanged w w' ∧ e = OutOfBlocksError ∧ get_num_free_blocks GPU w < n) w.
Proof.
  intros [Hinv Hs]. unfold reserve_gpu_blocks. wp_step.
  rewrite <- (fmap_replicate (λ _ : unit, alloc_block GPU) (Z.to_nat n) tt).
  eapply wp_mono; [apply (collect_fresh_spec GPU); [done|by auto|]|..].
  - intros _ ext w1 Hi. eapply wp_mono; [by apply alloc_block_spec|naive_solver|done].
  - intros bs w1 (Hinv1 & Hf1 & Hlen & _ & Hbs). cbv beta. wp_step. rewrite length_replicate in Hlen.
    pose proof (f_reserved _ _ Hf1) as Hr. split; [split|].
    + apply (inv_reserved _ bs); [done|]. by rewrite app_nil_r.
    + exact (frame_sync _ _ Hf1 Hs).
    + split; [etransitivity; [by apply frame_stable|]; split; eauto|]. cbn.
      split; [apply Hf1|]. split; [apply Hf1|]. exists bs. rewrite Hr.
      split; [done|]. split; [done|]. apply Hbs.
  - intros e w1 (-> & Hinv1 & Hf1 & Hlt). rewrite length_replicate in Hlt.
    pose proof (frame_sync _ _ Hf1 Hs). pose proof (frame_stable _ _ Hf1).
    split; [|split; [done|]].
    + split; [done|]. split; [done|]. by destruct Hf1.
    + assert (0 <= get_num_free_blocks GPU w); [|lia].
      unfold get_num_free_blocks. pose proof (po_fresh _ _ _ _ (i_pool _ _ _ Hinv GPU)).
      unfold queue_len. lia.
Qed.

Lemma release_one_reserved_spec w b rest :
  Consistent w → w_reserved w = b :: rest → device (blk w b) = GPU →
  wp release_one_reserved (λ _ w', Consistent w' ∧ stable w w' ∧ w_table w' = w_table w ∧
    w_reqs w' = w_reqs w ∧ w_reserved w' = rest) no_raise w.
Proof.
  intros [Hinv Hs] Hr Hd. unfold release_one_reserved. do 2 wp_step. rewrite Hr. do 2 wp_step.
  eapply wp_mono; [apply (free_block_spec GPU []); [|done]| |done].
  - apply (inv_reserved _ [] _ w); [done|]. rewrite Hr, app_nil_r.
    apply (Permutation_app_comm rest [b]).
  - intros _ w1 [Hinv1 Hf1]. split; [split; [done|]|].
    + exact (frame_sync _ _ Hf1 Hs).
    + split; [etransitivity; [|by apply frame_stable]; split; eauto|].
      by rewrite (f_table _ _ Hf1), (f_reqs _ _ Hf1), (f_reserved _ _ Hf1).
Qed.

(** Blocks are reserved on the GPU. *)
Definition ReservedGPU (w : world) : Prop := ∀ b, b ∈ w_reserved w → device (blk w b) = GPU.

Lemma stable_device w w' b :
  stable w w' → is_Some (w_heap w !! b) → device (blk w' b) = device (blk w b).
Proof.
  intros Hst [o Ho]. destruct (s_heap _ _ Hst b o Ho) as (o' & Ho' & ?).
  by rewrite (blk_lookup _ _ _ Ho), (blk_lookup _ _ _ Ho').
Qed.

Lemma reserved_stable w w' :
  Consistent w → stable w w' → (∀ b, b ∈ w_reserved w' → b ∈ w_reserved w) →
  ReservedGPU w → ReservedGPU w'.
Proof.
  intros [Hinv _] Hst Hsub HR b Hb. rewrite (stable_device w w'); [by auto|done|].
  apply (i_known _ _ _ Hinv). apply Hsub in Hb. unfold refs. set_solver.
Qed.

Lemma release_reserved_loop k w :
  Consistent w → ReservedGPU w → (k <= length (w_reserved w))%nat →
  wp (for_ (replicate k tt) (λ _, release_one_reserved))
    (λ _ w', Consistent w' ∧ stable w w' ∧ w_table w' = w_table w ∧ w_reqs w' = w_reqs w ∧
       w_reserved w' = drop k (w_reserved w)) no_raise w.
Proof.
  revert w. induction k as [|k IH]; intros w Hc Hdev Hle; cbn [replicate for_].
  { wp_step. by rewrite drop_0. }
  wp_step. destruct (w_reserved w) as [|b rest] eqn:Hr; [cbn in Hle; lia|].
  eapply wp_mono; [eapply (release_one_reserved_spec w b rest); [done..|]| |done].
  { apply Hdev. rewrite Hr. set_solver. }
  intros _ w1 (Hc1 & Hst1 & Ht1 & Hq1 & Hr1). cbv beta.
  eapply wp_mono; [apply IH; [done| |rewrite Hr1; cbn in Hle; lia]| |done].
  - apply (reserved_stable w); try done. rewrite Hr1, Hr. set_solver.
  - intros _ w2 (? & ? & ? & ? & Hr2). split; [done|]. split; [by etransitivity|].
    rewrite Hr2, Hr1. split; [congruence|]. split; [congruence|]. done.
Qed.

Lemma release_reserved_blocks_spec num w :
  Consistent w → ReservedGPU w →
  let n := default (Z.of_nat (length (w_reserved w))) num in
  wp (release_reserved_blocks num)
    (λ _ w', Consistent w' ∧ stable w w' ∧ w_table w' = w_table w ∧ w_reqs w' = w_reqs w ∧
       w_reserved w' = drop (Z.to_nat n) (w_reserved w))
    (λ e w', w' = w ∧ e = SimulationStateError ∧
       ¬ (0 <= n <= Z.of_nat (length (w_reserved w)))) w.
Proof.
  intros Hc Hdev n. unfold release_reserved_blocks. do 2 wp_step. fold n.
  destruct (Z.ltb_spec n 0) as [Hn|Hn]; [wp_step; split; [done|]; split; [done|lia]|].
  destruct (Z.ltb_spec (Z.of_nat (length (w_reserved w))) n) as [Hm|Hm];
    [wp_step; split; [done|]; split; [done|lia]|].
  eapply wp_mono; [apply release_reserved_loop; [done..|lia]|done|done].
Qed.
End ManagerSteps.
