(* ===== verification/ManagerTheorems.v ===== *)
(** * Theorems about the block manager

    Accounting over every sequence of operations, soundness of the capacity
    probes, atomicity of failed operations, and correctness of prefix reuse. *)

From stdpp Require Import gmap list strings.
From Stdlib Require Import ZArith Lia.
From S2P Require Import Prelude.
From S2P Require Import Block.
From S2P Require Import FreeQueue.
From S2P Require Import PrefixKeys.
From S2P Require Import PyFloat.
From S2P Require Import Request.
From S2P Require Import World.
From S2P Require Import BlockPool.
From S2P Require Import KVCacheManager.
From S2P Require Import BlockManager.
From S2P Require Import BlockInv.
From S2P Require Import Allocator.
From S2P Require Import ManagerSpec.
From S2P Require Import ManagerSteps.

Open Scope Z_scope.

Section ManagerTheorems.
Context `{Digest}.

(** ** Every sequence of operations *)

Inductive mgr_op :=
  | OCanAllocate (r : Z)
  | OAllocate (r : Z)
  | OAppendSlot (r : Z)
  | ORollbackLast (r : Z)
  | OFork (parent child : Z)
  | OSwapOut (r : Z)
  | OSwapIn (r : Z)
  | OReserve (n : Z)
  | OReleaseReserved (n : option Z)
  | OCommit (r : Z)
  | OFree (r : Z)
  | ORelease (r : Z).

Definition run_mgr_op (op : mgr_op) : M world unit :=
  match op with
  | OCanAllocate r => can_allocate r ;; mret tt
  | OAllocate r => allocate r
  | OAppendSlot r => append_slot r
  | ORollbackLast r => rollback_last_block r
  | OFork parent child => fork parent child
  | OSwapOut r => swap_out r
  | OSwapIn r => swap_in r
  | OReserve n => reserve_gpu_blocks n
  | OReleaseReserved n => release_reserved_blocks n
  | OCommit r => commit_input_cache r
  | OFree r => free_request r
  | ORelease r => release_request_blocks r
  end.

(** An operation that returns or raises, or another component that updates a
    request without touching its block list or the inputs of its keys. *)
Inductive mgr_step : world → world → Prop :=
  | step_op op w : mgr_step w (run_mgr_op op w).2
  | step_edit r f w :
      keeps_keys f →
      (∀ q, physical_token_blocks (f q) = physical_token_blocks q) →
      mgr_step w (set_req r f w).2.

Definition Good (w : world) : Prop := Consistent w ∧ ReservedGPU w.

Lemma wp_state {A} (m : M world A) (P : world → Prop) w :
  wp m (λ _, P) (λ _, P) w → P (m w).2.
Proof. unfold wp. by destruct (m w) as [[?|?] ?]. Qed.

Lemma can_allocate_spec r w :
  Consistent w →
  let p := ref_plan w r in
  wp (can_allocate r)
    (λ ok w', Consistent w' ∧ stable w w' ∧ same_but_keys w w' ∧ w_block_size w ≠ 0 ∧
       ok = (w_watermark_blocks w <=?
         get_num_free_blocks GPU w - zero_ref_hit_blocks p w - miss_block_count p))
    (λ e w', w' = w ∧ e = ZeroDivisionError ∧ w_block_size w = 0) w.
Proof.
  intros [Hinv Hs] p. unfold can_allocate. wp_step.
  eapply wp_mono; [by apply plan_reuse_spec| |done].
  intros p' w1 (-> & Hinv1 & Hw1 & Hz). fold p. cbv beta. do 3 wp_step. unfold id.
  destruct (same_but_keys_consistent _ _ _ _ Hw1 Hinv1) as (_ & _ & _ & _ & _ & Eh & Ef & Hs1).
  split; [by split; auto|]. split; [by apply same_but_keys_stable|]. split; [done|]. split; [done|].
  rewrite Ef. unfold zero_ref_hit_blocks.
  rewrite (list_filter_iff _ (λ b, ref_count (blk w b) = 0)) by (intros b; unfold blk; by rewrite Eh).
  by rewrite Hw1.
Qed.

Lemma good_stable w w' :
  Good w → Consistent w' → stable w w' → (∀ b, b ∈ w_reserved w' → b ∈ w_reserved w) → Good w'.
Proof. intros [Hc Hr] Hc' Hst Hsub. split; [done|]. by apply (reserved_stable w). Qed.

Lemma good_reserved w w' :
  Good w → Consistent w' → stable w w' → w_reserved w' = w_reserved w → Good w'.
Proof. intros Hg Hc Hst Hr. apply (good_stable w); try done. by rewrite Hr. Qed.

Lemma good_unchanged w w' : Good w → unchanged w w' → Good w'.
Proof. intros Hg (Hc & Hst & _ & Hr & _). by apply (good_reserved w). Qed.

Lemma run_mgr_op_good op w : Good w → Good (run_mgr_op op w).2.
Proof.
  intros Hg. pose proof Hg as [Hc HR]. apply wp_state.
  destruct op as [r|r|r|r|parent child|r|r|n|n|r|r|r]; cbn [run_mgr_op].
  - wp_step. eapply wp_mono; [by apply can_allocate_spec| |naive_solver].
    intros ok w' (Hc' & Hst & Hw & _). cbv beta. wp_step. apply (good_reserved w); try done.
    by rewrite Hw.
  - eapply wp_mono; [by apply allocate_spec| |].
    + intros _ w' (Hc' & Hst & _ & Hr & _). by apply (good_reserved w).
    + intros e w' [Hu _]. by eapply good_unchanged.
  - eapply wp_mono; [by apply append_slot_spec| |naive_solver].
    intros _ w' (Hc' & Hst & Hcase). apply (good_reserved w); try done.
    destruct (needs_slot r w); [|by rewrite Hcase]. by destruct Hcase as (b & _ & _ & _ & ? & _).
  - eapply wp_mono; [by apply rollback_last_block_spec| |done].
    intros _ w' (Hc' & Hst & Hr & _). by apply (good_reserved w).
  - eapply wp_mono; [by apply fork_spec| |naive_solver].
    intros _ w' (Hc' & Hst & _ & _ & _ & Hr). by apply (good_reserved w).
  - eapply wp_mono; [by apply swap_spec| |naive_solver].
    intros _ w' (Hc' & Hst & Hr & _). by apply (good_reserved w).
  - eapply wp_mono; [by apply swap_spec| |naive_solver].
    intros _ w' (Hc' & Hst & Hr & _). by apply (good_reserved w).
  - eapply wp_mono; [by apply reserve_gpu_blocks_spec| |].
    + intros _ w' (Hc' & Hst & _ & _ & bs & Hr & _ & Hbs). split; [done|]. intros b.
      rewrite Hr. intros [Hb|Hb]%elem_of_app; [|by apply Hbs].
      rewrite (stable_device w w'); [by apply HR|done|].
      apply (i_known _ _ _ (proj1 Hc)). unfold refs. set_solver.
    + intros e w' [Hu _]. by eapply good_unchanged.
  - eapply wp_mono; [by apply release_reserved_blocks_spec| |naive_solver].
    intros _ w' (Hc' & Hst & _ & _ & Hr). apply (good_stable w); try done. rewrite Hr.
    intros b Hb. eapply elem_of_sublist; [|exact Hb]. apply sublist_drop.
  - eapply wp_mono; [by apply commit_input_cache_spec| |done].
    intros _ w' (Hc' & Hst & _ & Hr & _). by apply (good_reserved w).
  - eapply wp_mono; [by apply free_request_spec| |].
    + intros _ w' (Hc' & Hst & _ & Hr & _). by apply (good_reserved w).
    + intros e w' (Hc' & Hst & Hr & _). by apply (good_reserved w).
  - eapply wp_mono; [by apply release_request_blocks_spec| |done].
    intros _ w' (Hc' & Hst & _ & Hr & _). by apply (good_reserved w).
Qed.

Lemma edit_good r f w :
  keeps_keys f → (∀ q, physical_token_blocks (f q) = physical_token_blocks q) →
  Good w → Good (set_req r f w).2.
Proof.
  intros Hk Hp Hg. pose proof Hg as [[Hinv Hs] _]. apply (good_reserved w); try done.
  - split; [by apply (inv_set_req _ _ w r f)|]. intros r'. unfold set_req, modify. cbn [snd].
    rewrite req_set. case_decide as Hr; [subst r'; rewrite Hp|]; apply Hs.
  - split; eauto.
Qed.

Lemma mgr_step_good w w' : mgr_step w w' → Good w → Good w'.
Proof. intros [op|r f] Hg; [by apply run_mgr_op_good|by apply edit_good]. Qed.

Lemma mgr_steps_good w w' : rtc mgr_step w w' → Good w → Good w'.
Proof. induction 1 as [|w1 w2 w3 Hs _ IH]; [done|]. intros Hg. by eapply IH, mgr_step_good. Qed.

(** What the manager's bookkeeping promises in a quiescent state. *)
Record Accounting (w : world) : Prop := {
  (* reference counts are exact *)
  acc_refs b o : w_heap w !! b = Some o → ref_count o = occ b (refs w);
  (* every reference is to a live block *)
  acc_live b : b ∈ refs w → is_Some (w_heap w !! b);
  (* a block is in its free queue exactly when nobody references it *)
  acc_queue d n b :
    queued (p_free (pool d w)) !! n = Some b ↔
    ∃ o, w_heap w !! b = Some o ∧ device o = d ∧ block_number o = n ∧ b ∉ refs w;
  (* free and referenced blocks add up to the pool *)
  acc_capacity d :
    get_num_free_blocks d w + Z.of_nat (size (used d w [])) = p_num_blocks (pool d w);
  (* the requests mirror the block table *)
  acc_sync r : physical_token_blocks (req w r) = get_blocks r w;
}.

Lemma consistent_accounting w : Consistent w → Accounting w.
Proof.
  intros [Hinv Hs]. split; [| | | |done].
  - intros b o Hb. rewrite (i_refs _ _ _ Hinv b o Hb). by rewrite app_nil_r.
  - intros b Hb. apply (i_known _ _ _ Hinv). by rewrite app_nil_r.
  - intros d n b. destruct (i_pool _ _ _ Hinv d) as [_ _ _ Hmat _ Hq]. rewrite Hq. split.
    + intros (Hm & Hz & _). destruct (Hmat n b Hm) as (o & Ho & Hd & Hn).
      exists o. split; [done|]. split; [done|]. split; [done|].
      rewrite (lookup_total_correct _ _ _ Ho), (i_refs _ _ _ Hinv b o Ho), app_nil_r in Hz.
      by apply occ_zero.
    + intros (o & Ho & Hd & Hn & Hnb). destruct (i_owned _ _ _ Hinv b o Ho) as [_ Hm].
      subst d n. split; [done|]. split; [|set_solver].
      rewrite (lookup_total_correct _ _ _ Ho), (i_refs _ _ _ Hinv b o Ho), app_nil_r.
      by apply occ_zero.
  - intros d. rewrite (free_count d w []) by done. lia.
Qed.

(** C1 (invariant).  Starting from an empty manager, after any sequence of
    capacity probes, allocations, decode slots, rollbacks, forks, swaps,
    reservations, cache commits, frees and releases (each returning or raising),
    interleaved with updates of the requests by other components: reference
    counts equal the number of holders, a block is in its free queue exactly when
    nobody holds it, and free plus held blocks are the pool. *)
Theorem manager_accounting reqs chains bs gpus cpus model wm w :
  0 <= gpus → 0 <= cpus → cache_ok chains →
  (∀ r, physical_token_blocks (reqs !!! r) = []) →
  rtc mgr_step (fresh_world reqs chains bs gpus cpus model wm) w →
  Accounting w.
Proof.
  intros Hg Hc Hch Hq Hsteps. eapply consistent_accounting, proj1, mgr_steps_good; [done|].
  split; [by apply fresh_world_inv|]. by intros b ?%elem_of_nil.
Qed.

(** ** Capacity probes *)

Lemma request_logical_blocks q :
  0 < req_block_size q → 0 <= prefill_len q <= logical_tokens q →
  prefill_len q / req_block_size q <= num_logical_token_blocks q.
Proof.
  intros Hb Hp. unfold num_logical_token_blocks. apply Z.div_le_upper_bound; [done|].
  pose proof (Z.mul_div_le (- logical_tokens q) (req_block_size q) Hb). lia.
Qed.

Lemma hit_loop_length w keys : (length (hit_loop w keys) ≤ length keys)%nat.
Proof.
  induction keys as [|k keys IH]; [done|]. cbn [hit_loop]. destruct (w_cache w !! k); [|cbn; lia].
  destruct (is_gpu_hit w _); cbn [length]; lia.
Qed.

Lemma plan_keys_length w r :
  0 < w_block_size w → 0 <= prefill_len (req w r) →
  Z.of_nat (length (plan_keys w r)) <= prefill_len (req w r) / w_block_size w.
Proof.
  intros Hb Hp. unfold plan_keys. rewrite request_keys_app_length.
  assert (0 <= prefill_len (req w r) / w_block_size w) by (by apply Z.div_pos).
  rewrite slice_to_take, length_take by done. lia.
Qed.

Lemma same_but_keys_plan w w' r : same_but_keys w w' → ref_plan w' r = ref_plan w r.
Proof.
  intros Hw. unfold ref_plan.
  assert (plan_keys w' r = plan_keys w r) as -> by (by rewrite Hw).
  rewrite (hit_loop_same w w') by done. by rewrite Hw.
Qed.

(** A well-formed request never has more hits than logical blocks. *)
Lemma miss_block_count_nonneg w r :
  0 < w_block_size w → req_block_size (req w r) = w_block_size w →
  0 <= prefill_len (req w r) <= logical_tokens (req w r) →
  0 <= miss_block_count (ref_plan w r).
Proof.
  intros Hbs Hrb Hlog.
  unfold miss_block_count, hit_block_count, ref_plan. cbn [hit_blocks total_logical_blocks].
  pose proof (hit_loop_length w (plan_keys w r)).
  pose proof (plan_keys_length w r Hbs (proj1 Hlog)).
  pose proof (request_logical_blocks (req w r)) as Hl. rewrite Hrb in Hl.
  specialize (Hl Hbs Hlog). lia.
Qed.

(** C3 (safety).  When [can_allocate] says yes for a request without blocks,
    [allocate] returns, and the request then has exactly one block per logical
    block: the hits of the reuse plan, followed by blocks nobody referenced. *)
Theorem can_allocate_sound r w w1 :
  Consistent w → 0 <= w_watermark_blocks w → 0 < w_block_size w →
  get_blocks r w = [] → req_block_size (req w r) = w_block_size w →
  0 <= prefill_len (req w r) <= logical_tokens (req w r) →
  can_allocate r w = (Ok true, w1) →
  ∃ w2 news, allocate r w1 = (Ok tt, w2) ∧
    get_blocks r w2 = hit_blocks (ref_plan w r) ++ news ∧
    Z.of_nat (length (get_blocks r w2)) = num_logical_token_blocks (req w r) ∧
    NoDup news ∧ (∀ b, b ∈ news → (b ∉ refs w) ∧ device (blk w2 b) = GPU) ∧
    Consistent w2.
Proof.
  intros Hc Hwm Hbs Hg Hrb Hlog Hcan.
  pose proof (can_allocate_spec r w Hc) as Hspec. unfold wp in Hspec. rewrite Hcan in Hspec.
  destruct Hspec as (Hc1 & Hst1 & Hw1 & _ & Hok). symmetry in Hok. apply Z.leb_le in Hok.
  pose proof (miss_block_count_nonneg w r Hbs Hrb Hlog) as Hmiss.
  destruct (same_but_keys_consistent _ _ _ _ Hw1 (proj1 Hc1))
    as (Er & Eq & Et & _ & _ & Eh & Ef & _).
  pose proof (allocate_spec r w1 Hc1) as Ha. cbv zeta in Ha.
  rewrite (same_but_keys_plan w w1) in Ha by done.
  assert (get_blocks r w1 = []) as Hg1 by (unfold get_blocks; by rewrite Et).
  assert (zero_ref_hit_blocks (ref_plan w r) w1 = zero_ref_hit_blocks (ref_plan w r) w) as Ez.
  { unfold zero_ref_hit_blocks, blk. by rewrite Eh. }
  unfold wp in Ha. destruct (allocate r w1) as [[[]|e] w2]; cycle 1.
  { exfalso. destruct Ha as (_ & [[_ Hbad]|[[_ Hbad]|[_ Hbad]]]).
    - done.
    - rewrite (s_block_size _ _ Hst1) in Hbad. lia.
    - rewrite Ef, Ez in Hbad. lia. }
  destruct Ha as (Hc2 & _ & _ & _ & news & Hlen & Hnd & Hfresh & Hdev & Ht & _).
  exists w2, news. split; [done|].
  assert (get_blocks r w2 = hit_blocks (ref_plan w r) ++ news) as Hg2.
  { unfold get_blocks. rewrite Ht, lookup_insert_eq. done. }
  split; [done|]. rewrite Hg2, length_app. split; [|split; [done|split; [|done]]].
  - unfold miss_block_count, hit_block_count in *. cbn [total_logical_blocks ref_plan] in *. lia.
  - intros b Hb. rewrite Er in Hfresh. split; [|apply Hdev; set_solver].
    intros Hin. apply (Hfresh b Hb). set_solver.
Qed.

(** C24 (error).  An [allocate] that raises, whether because the request already
    has blocks or because the pool runs out half way, has rolled back: no
    block's reference count, no block table, no request and no free count
    changed. *)
Theorem allocate_failure_atomic r w e w' :
  Good w → allocate r w = (Raise e, w') →
  (e = SimulationStateError ∨ e = ZeroDivisionError ∨ e = OutOfBlocksError) ∧
  w_table w' = w_table w ∧ w_reserved w' = w_reserved w ∧ w_reqs w' = w_reqs w ∧
  (∀ b o, w_heap w !! b = Some o →
     ∃ o', w_heap w' !! b = Some o' ∧ ref_count o' = ref_count o ∧ device o' = device o) ∧
  (∀ d, get_num_free_blocks d w' = get_num_free_blocks d w).
Proof.
  intros [[Hinv Hs] HR] Ha. pose proof (allocate_spec r w (conj Hinv Hs)) as Hspec.
  unfold wp in Hspec. rewrite Ha in Hspec. destruct Hspec as (([Hinv' _] & Hst & Ht & Hr & Hq) & He).
  split; [naive_solver|]. split; [done|]. split; [done|]. split; [done|].
  assert (refs w' = refs w) as Er by (unfold refs; by rewrite Ht, Hr).
  split.
  - intros b o Hb. destruct (s_heap _ _ Hst b o Hb) as (o' & Ho' & Hd). exists o'.
    split; [done|]. split; [|done].
    by rewrite (i_refs _ _ _ Hinv b o Hb), (i_refs _ _ _ Hinv' b o' Ho'), Er.
  - intros d. rewrite (free_count d w []), (free_count d w' []), (s_num_blocks _ _ Hst) by done.
    assert (used d w' [] = used d w []) as ->; [|done]. apply set_eq. intros b. unfold used.
    rewrite Er, !elem_of_filter, !elem_of_list_to_set. split; intros [Hd Hb]; (split; [|done]);
      apply (i_known _ _ _ Hinv) in Hb as Hk; pose proof (stable_device w w' b Hst Hk); congruence.
Qed.

(** ** Prefix reuse *)

Lemma hit_loop_lookup w keys i b :
  hit_loop w keys !! i = Some b →
  ∃ k, keys !! i = Some k ∧ w_cache w !! k = Some b ∧ is_gpu_hit w (Some b) = true.
Proof.
  revert i. induction keys as [|k keys IH]; intros i; cbn [hit_loop]; [done|].
  destruct (w_cache w !! k) as [b'|] eqn:Hk; [|done].
  destruct (is_gpu_hit w (Some b')) eqn:Hh; [|done].
  destruct i as [|i]; cbn; [|apply IH]. intros [= ->]. eauto.
Qed.

Lemma hit_loop_maximal w keys k :
  keys !! length (hit_loop w keys) = Some k → is_gpu_hit w (w_cache w !! k) = false.
Proof.
  induction keys as [|k' keys IH]; cbn [hit_loop]; [done|].
  destruct (w_cache w !! k') as [b'|] eqn:Hk.
  - destruct (is_gpu_hit w (Some b')) eqn:Hh; cbn [length]; cbn.
    + apply IH.
    + intros [= <-]. by rewrite Hk.
  - cbn. intros [= <-]. by rewrite Hk.
Qed.

(** C25 (functional).  [plan_reuse], with its per-request key memo and the shared
    chain cache, returns the plan a full rebuild of the key chain gives: each hit
    is the resident, full GPU block published under the key of its position, and
    the first position after the hits is not resident. *)
Theorem plan_reuse_correct r w :
  Consistent w → w_block_size w ≠ 0 →
  ∃ w', plan_reuse r w = (Ok (ref_plan w r), w') ∧ same_but_keys w w' ∧ Consistent w' ∧
    (∀ i b, hit_blocks (ref_plan w r) !! i = Some b →
       ∃ k, plan_keys w r !! i = Some k ∧ block_hash (blk w b) = Some k ∧
         cached (blk w b) = true ∧ is_full (blk w b) = true ∧ device (blk w b) = GPU) ∧
    (∀ k, plan_keys w r !! length (hit_blocks (ref_plan w r)) = Some k →
       is_gpu_hit w (w_cache w !! k) = false).
Proof.
  intros [Hinv Hs] Hz. pose proof (plan_reuse_spec _ _ r w Hinv) as Hp. unfold wp in Hp.
  destruct (plan_reuse r w) as [[p|e] w']; [|naive_solver].
  destruct Hp as (-> & Hinv' & Hw & _). exists w'. split; [done|]. split; [done|].
  destruct (same_but_keys_consistent _ _ _ _ Hw Hinv') as (_ & _ & _ & _ & _ & _ & _ & Hs').
  split; [by split; auto|]. split; [|apply hit_loop_maximal].
  intros i b Hb. apply hit_loop_lookup in Hb as (k & Hk & Hc & Hh). exists k. split; [done|].
  destruct (i_cache _ _ _ Hinv k b Hc) as (o & Ho & Hpub). cbn in Hh.
  rewrite (blk_lookup _ _ _ Ho) in *. apply andb_true_iff in Hh as [Hh Hd].
  apply andb_true_iff in Hh as [Hca Hfu]. apply bool_decide_eq_true in Hd.
  split; [by apply Hpub|done].
Qed.

Lemma hit_loop_all w keys bs :
  (length keys ≤ length bs)%nat →
  (∀ i k b, keys !! i = Some k → bs !! i = Some b → cached_as w k b ∧ device (blk w b) = GPU) →
  hit_loop w keys = take (length keys) bs.
Proof.
  revert bs. induction keys as [|k keys IH]; intros [|b bs] Hlen Hall; try done.
  { cbn in Hlen. lia. }
  cbn [hit_loop length take]. destruct (Hall 0%nat k b eq_refl eq_refl) as [[Hc (o & Ho & _ & Hca & Hfu)] Hd].
  rewrite Hc. unfold is_gpu_hit. rewrite (blk_lookup _ _ _ Ho) in *.
  rewrite Hca, Hfu, bool_decide_true by done. cbn [andb]. f_equal. apply IH.
  - cbn in Hlen. lia.
  - intros i k' b' Hk' Hb'. by apply (Hall (S i)).
Qed.

(** C26 (roundtrip).  Once a request's input blocks are committed, a request with
    the same prompt hashes, salt and reuse group hits all of them: its plan is
    exactly the committed blocks. *)
Theorem commit_then_reuse r1 r2 w :
  Consistent w → w_block_size w ≠ 0 →
  input_cache_committed (req w r1) = false →
  shared_keys (input_cache_keys (req w r1)) = plan_keys w r1 →
  NoDup (plan_keys w r1) → NoDup (get_blocks r1 w) →
  (∀ b, b ∈ get_blocks r1 w → device (blk w b) = GPU) →
  (length (plan_keys w r1) ≤ length (get_blocks r1 w))%nat →
  hash_ids (req w r2) = hash_ids (req w r1) →
  cache_salt (req w r2) = cache_salt (req w r1) →
  reuse_group (req w r2) = reuse_group (req w r1) →
  prefill_len (req w r2) = prefill_len (req w r1) →
  ∃ w1 p w2, commit_input_cache r1 w = (Ok tt, w1) ∧ plan_reuse r2 w1 = (Ok p, w2) ∧
    hit_blocks p = take (length (plan_keys w r1)) (get_blocks r1 w).
Proof.
  intros Hc Hz Hcom Hkeys Hnk Hnb Hdev Hlen E1 E2 E3 E4.
  pose proof (commit_input_cache_spec r1 w Hc) as Hcommit. unfold wp in Hcommit.
  destruct (commit_input_cache r1 w) as [[[]|e] w1]; [|done].
  destruct Hcommit as (Hc1 & Hst & _ & _ & Hreq & Hcas).
  rewrite Hkeys in Hcas. specialize (Hcas Hcom Hnb Hnk).
  pose proof (plan_reuse_spec _ _ r2 w1 (proj1 Hc1)) as Hp. unfold wp in Hp.
  destruct (plan_reuse r2 w1) as [[p|e] w2] eqn:Hplan; cycle 1.
  { destruct Hp as (_ & _ & Hbs). rewrite (s_block_size _ _ Hst) in Hbs. done. }
  destruct Hp as (-> & _ & _ & _). exists w1, (ref_plan w1 r2), w2. split; [done|]. split; [done|].
  assert (plan_keys w1 r2 = plan_keys w r1) as Hpk.
  { unfold plan_keys, request_keys. rewrite (s_block_size _ _ Hst), (s_model _ _ Hst), (Hreq r2).
    case_decide as Hr; [subst r2; done|]. by rewrite E1, E2, E3, E4. }
  unfold ref_plan. cbn [hit_blocks]. rewrite Hpk. apply hit_loop_all; [done|].
  intros i k b Hk Hb. split; [by eapply Hcas|].
  apply list_elem_of_lookup_2 in Hb as Hin. 
  rewrite (stable_device w w1); [by apply Hdev|done|].
  exact (get_blocks_known _ _ r1 b w (proj1 Hc) Hin).
Qed.

(** ** Decode slots, swaps and release *)

(** When [can_append_slot] says yes, [append_slot] returns; a
    request that had fewer blocks than logical blocks gets exactly one more,
    which nobody referenced, and other requests' blocks are untouched. *)
Theorem can_append_slot_sound r w :
  Consistent w → can_append_slot r 0 w = true →
  ∃ w', append_slot r w = (Ok tt, w') ∧ Consistent w' ∧
    (∀ r', r' ≠ r → get_blocks r' w' = get_blocks r' w) ∧
    if needs_slot r w then
      ∃ b, get_blocks r w' = get_blocks r w ++ [b] ∧ (b ∉ refs w) ∧ device (blk w' b) = GPU
    else w' = w.
Proof.
  intros Hc Hcan. pose proof (append_slot_spec r w Hc) as Ha. unfold wp in Ha.
  destruct (append_slot r w) as [[[]|e] w']; cycle 1.
  { exfalso. destruct Ha as (_ & _ & Hn & Hz). unfold can_append_slot in Hcan.
    rewrite Hn, Hz in Hcan. done. }
  destruct Ha as (Hc' & _ & Hcase). exists w'. split; [done|]. split; [done|].
  destruct (needs_slot r w); [|by subst].
  destruct Hcase as (b & Hnb & Hd & Ht & _). split.
  - intros r' Hne. unfold get_blocks. by rewrite Ht, lookup_insert_ne.
  - exists b. split; [|done]. unfold get_blocks at 1. by rewrite Ht, lookup_insert_eq.
Qed.

(** A request whose GPU blocks [can_swap_out] accepts moves to
    as many distinct CPU blocks, and back to as many distinct GPU blocks when
    [can_swap_in] accepts it; no other request's blocks move. *)
Theorem swap_round_trip r w :
  Consistent w → can_swap_out r w = true →
  (∀ b, b ∈ get_blocks r w → device (blk w b) = GPU) →
  ∃ w1, swap_out r w = (Ok tt, w1) ∧ Consistent w1 ∧
    (∀ b, b ∈ get_blocks r w1 → device (blk w1 b) = CPU) ∧
    (can_swap_in r w1 = true →
     ∃ w2, swap_in r w1 = (Ok tt, w2) ∧ Consistent w2 ∧
       length (get_blocks r w2) = length (get_blocks r w) ∧ NoDup (get_blocks r w2) ∧
       (∀ b, b ∈ get_blocks r w2 → device (blk w2 b) = GPU) ∧
       (∀ r', r' ≠ r → get_blocks r' w2 = get_blocks r' w)).
Proof.
  intros Hc Hout Hdev.
  assert (∀ d w0, can_swap_to d r w0 = true →
    Z.of_nat (length (get_blocks r w0)) <= get_num_free_blocks d w0) as Hcan.
  { intros d w0 [_ Hle]%andb_true_iff. by apply Z.leb_le in Hle. }
  pose proof (swap_spec r GPU CPU w Hc) as H1. unfold wp in H1. unfold swap_out.
  destruct (swap r GPU CPU w) as [[[]|e] w1]; cycle 1.
  { exfalso. apply Hcan in Hout. destruct H1 as (_ & [[_ Hbad]|[_ Hbad]]); [done|lia]. }
  destruct H1 as (Hc1 & _ & _ & Hlen1 & _ & Hdev1 & Hother1).
  exists w1. split; [done|]. split; [done|]. split; [intros b Hb; by apply Hdev1|].
  intros Hin. pose proof (swap_spec r CPU GPU w1 Hc1) as H2. unfold wp in H2. unfold swap_in.
  destruct (swap r CPU GPU w1) as [[[]|e] w2]; cycle 1.
  { exfalso. apply Hcan in Hin. destruct H2 as (_ & [[_ Hbad]|[_ Hbad]]); [|lia].
    destruct Hbad. intros b Hb. by apply Hdev1. }
  destruct H2 as (Hc2 & _ & _ & Hlen2 & Hnd2 & Hdev2 & Hother2).
  exists w2. split; [done|]. split; [done|]. split; [congruence|]. split; [done|].
  split; [intros b Hb; by apply Hdev2|]. intros r' Hne. by rewrite Hother2, Hother1.
Qed.

Lemma refs_split r w : refs w ≡ₚ get_blocks r w ++ table_refs (delete r (w_table w)) ++ w_reserved w.
Proof. unfold refs. rewrite (table_refs_split (w_table w) r). by rewrite <- app_assoc. Qed.

(** Releasing a request never raises; it gives back every
    reference the request held and no other: each block's count drops by the
    number of times the request held it, and the request is left without
    blocks. *)
Theorem release_request_total r w :
  Consistent w →
  ∃ w', release_request_blocks r w = (Ok tt, w') ∧ Consistent w' ∧
    get_blocks r w' = [] ∧ physical_token_blocks (req w' r) = [] ∧
    (∀ r', r' ≠ r → get_blocks r' w' = get_blocks r' w) ∧
    (∀ b o, w_heap w !! b = Some o →
       ∃ o', w_heap w' !! b = Some o' ∧ ref_count o' = ref_count o - occ b (get_blocks r w)).
Proof.
  intros Hc. pose proof (release_request_blocks_spec r w Hc) as Hr. unfold wp in Hr.
  destruct (release_request_blocks r w) as [[[]|e] w']; [|done].
  destruct Hr as (Hc' & Hst & Ht & Hres & Hq). exists w'. split; [done|]. split; [done|].
  assert (get_blocks r w' = []) as Hg by (unfold get_blocks; by rewrite Ht, lookup_delete_eq).
  split; [done|]. split; [by rewrite (proj2 Hc' r)|]. split.
  - intros r' Hne. unfold get_blocks. by rewrite Ht, lookup_delete_ne.
  - intros b o Hb. destruct (s_heap _ _ Hst b o Hb) as (o' & Ho' & _). exists o'. split; [done|].
    rewrite (i_refs _ _ _ (proj1 Hc) b o Hb), (i_refs _ _ _ (proj1 Hc') b o' Ho'), !app_nil_r.
    rewrite (refs_split r w). unfold refs. rewrite Ht, Hres, !occ_app. lia.
Qed.
End ManagerTheorems.

(** ** Witnesses: two requests with the same two-block prompt on an 8-block GPU *)

(** A collision-free digest that evaluates. *)
Definition id_digest : Digest := λ s, s.

Definition demo_request (id : Z) : Request :=
  new_request id 4 3 2 (Some [HInt 11; HInt 12]) None None None.

Definition demo_reqs : gmap Z Request := {[1 := demo_request 1; 2 := demo_request 2]}.

Definition demo_world (ops : list mgr_op) : world :=
  foldl (λ w op, (run_mgr_op (H := id_digest) op w).2)
    (fresh_world demo_reqs new_chain_cache 2 8 8 (lit "m"%string) 1) ops.

Lemma demo_reqs_empty r : physical_token_blocks (demo_reqs !!! r) = [].
Proof.
  unfold demo_reqs. destruct (decide (r = 1)) as [->|H1]; [done|].
  destruct (decide (r = 2)) as [->|H2]; [done|].
  rewrite lookup_total_alt, lookup_insert_ne, lookup_singleton_ne by done. done.
Qed.

Lemma demo_steps ops :
  rtc (mgr_step (H := id_digest)) (demo_world []) (demo_world ops).
Proof.
  induction ops as [|op ops IH] using rev_ind; [apply rtc_refl|].
  eapply rtc_r; [exact IH|]. unfold demo_world. rewrite foldl_app. cbn [foldl].
  apply (step_op (H := id_digest)).
Qed.

Lemma demo_good ops : Good (H := id_digest) (demo_world ops).
Proof.
  eapply (mgr_steps_good (H := id_digest)); [apply demo_steps|].
  split; [|by intros b ?%elem_of_nil].
  apply (fresh_world_inv (H := id_digest)); [done|done|constructor|apply demo_reqs_empty].
Qed.

(** A computation that returns [a] on a concrete state. *)
Lemma run_ok {A} (m : M world A) w a : (m w).1 = Ok a → m w = (Ok a, (m w).2).
Proof. intros <-. apply surjective_pairing. Qed.

Lemma run_raise {A} (m : M world A) w e : (m w).1 = Raise e → m w = (Raise e, (m w).2).
Proof. intros <-. apply surjective_pairing. Qed.

Lemma manager_accounting_witness :
  let ops := [OAllocate 1; OCommit 1; OAllocate 2; OAppendSlot 2; OFork 1 3; OFree 1; OSwapOut 3;
              OReserve 2; OAllocate 2; ORelease 2; OReleaseReserved None] in
  Accounting (demo_world ops) ∧ get_num_free_blocks GPU (demo_world ops) = 8 ∧
  get_num_free_blocks CPU (demo_world ops) = 6.
Proof.
  intros ops. split; [|vm_compute; done].
  apply (manager_accounting (H := id_digest) demo_reqs new_chain_cache 2 8 8 (lit "m"%string) 1);
    [done|done|constructor|apply demo_reqs_empty|apply demo_steps].
Defined.

Lemma can_allocate_sound_witness :
  let w := demo_world [OAllocate 1; OCommit 1] in
  ∃ w2 news, allocate (H := id_digest) 2 (can_allocate (H := id_digest) 2 w).2 = (Ok tt, w2) ∧
    get_blocks 2 w2 = hit_blocks (ref_plan (H := id_digest) w 2) ++ news ∧
    Z.of_nat (length (get_blocks 2 w2)) = num_logical_token_blocks (req w 2) ∧
    NoDup news ∧ (∀ b, b ∈ news → (b ∉ refs w) ∧ device (blk w2 b) = GPU) ∧
    Consistent (H := id_digest) w2.
Proof.
  intros w. apply (can_allocate_sound (H := id_digest) 2 w).
  - apply demo_good.
  - vm_compute. discriminate.
  - vm_compute. reflexivity.
  - vm_compute. reflexivity.
  - vm_compute. reflexivity.
  - vm_compute. split; discriminate.
  - apply run_ok. vm_compute. reflexivity.
Defined.

(** Three blocks are left, one of them reserved for nobody: a request of three
    blocks cannot be placed after another reservation of six. *)
Lemma allocate_failure_atomic_witness :
  let w := demo_world [OReserve 7] in
  let w' := (allocate (H := id_digest) 1 w).2 in
  (allocate (H := id_digest) 1 w).1 = Raise OutOfBlocksError ∧
  w_table w' = w_table w ∧ get_num_free_blocks GPU w' = get_num_free_blocks GPU w.
Proof.
  intros w w'.
  assert ((allocate (H := id_digest) 1 w).1 = Raise OutOfBlocksError) as Hraise
    by (vm_compute; reflexivity).
  destruct (allocate_failure_atomic (H := id_digest) 1 w OutOfBlocksError w'
    (demo_good [OReserve 7]) (run_raise _ _ _ Hraise)) as (_ & Ht & _ & _ & _ & Hfree).
  split; [exact Hraise|]. split; [exact Ht|apply Hfree].
Defined.

Lemma plan_reuse_correct_witness :
  let w := demo_world [OAllocate 1; OCommit 1] in
  (∃ w', plan_reuse (H := id_digest) 2 w = (Ok (ref_plan (H := id_digest) w 2), w')) ∧
  hit_blocks (ref_plan (H := id_digest) w 2) = get_blocks 1 w.
Proof.
  intros w. destruct (plan_reuse_correct (H := id_digest) 2 w) as (w' & Hp & _).
  - apply demo_good.
  - vm_compute. discriminate.
  - split; [by exists w'|vm_compute; reflexivity].
Defined.

Lemma commit_then_reuse_witness :
  let w := demo_world [OAllocate 1] in
  ∃ w1 p w2, commit_input_cache 1 w = (Ok tt, w1) ∧
    plan_reuse (H := id_digest) 2 w1 = (Ok p, w2) ∧
    hit_blocks p = take (length (plan_keys (H := id_digest) w 1)) (get_blocks 1 w).
Proof.
  intros w. apply (commit_then_reuse (H := id_digest) 1 2 w);
    try (vm_compute; reflexivity).
  - apply demo_good.
  - vm_compute. discriminate.
  - apply (bool_decide_unpack _). vm_compute. exact I.
  - apply (bool_decide_unpack _). vm_compute. exact I.
  - intros b Hb. assert (b = 0%nat ∨ b = 1%nat) as [-> | ->].
    { assert (get_blocks 1 w = [0; 1]%nat) as Hg by (vm_compute; reflexivity).
      rewrite Hg, !elem_of_cons, elem_of_nil in Hb. tauto. }
    + vm_compute. reflexivity.
    + vm_compute. reflexivity.
Defined.

Lemma can_append_slot_sound_witness :
  let w := (set_req 1 (append_tokens 1) (demo_world [OAllocate 1])).2 in
  ∃ w', append_slot 1 w = (Ok tt, w') ∧ get_blocks 1 w' = get_blocks 1 w ++ [2%nat].
Proof.
  intros w. destruct (can_append_slot_sound (H := id_digest) 1 w) as (w' & Ha & _).
  - apply (edit_good (H := id_digest)); [| |apply demo_good].
    + intros q. unfold append_tokens. by destruct (1 >? 0).
    + intros q. unfold append_tokens. by destruct (1 >? 0).
  - vm_compute. reflexivity.
  - exists w'. split; [done|].
    assert (w' = (append_slot 1 w).2) as -> by (by rewrite Ha). vm_compute. reflexivity.
Defined.

Lemma swap_round_trip_witness :
  let w := demo_world [OAllocate 1] in
  ∃ w1, swap_out 1 w = (Ok tt, w1) ∧ Consistent (H := id_digest) w1.
Proof.
  intros w. destruct (swap_round_trip (H := id_digest) 1 w) as (w1 & Hs & Hc & _).
  - apply demo_good.
  - vm_compute. reflexivity.
  - intros b Hb. assert (b = 0%nat ∨ b = 1%nat) as [-> | ->].
    { assert (get_blocks 1 w = [0; 1]%nat) as Hg by (vm_compute; reflexivity).
      rewrite Hg, !elem_of_cons, elem_of_nil in Hb. tauto. }
    + vm_compute. reflexivity.
    + vm_compute. reflexivity.
  - exists w1. exact (conj Hs Hc).
Defined.

Lemma release_request_total_witness :
  let w := demo_world [OAllocate 1; OFork 1 2] in
  ∃ w', release_request_blocks 1 w = (Ok tt, w') ∧ get_blocks 1 w' = [] ∧
    get_blocks 2 w' = get_blocks 2 w.
Proof.
  intros w. destruct (release_request_total (H := id_digest) 1 w) as (w' & Hr & _ & Hg & _ & Ho & _).
  - apply demo_good.
  - exists w'. split; [done|]. split; [done|]. by apply Ho.
Defined.
