(* ===== verification/SchedulerState.v ===== *)
(** * Scheduler state and interfaces ([TokenSim/llm/llm_scheduler.py],
      [TokenSim/llm/paged_tokens.py])

    The paged scheduler works on request objects it shares with a block manager
    and a KV connector.  Both are interfaces here: [BlockManagerOps] and
    [ConnectorOps] are the methods the scheduler calls, over a state [W] that
    holds the request objects.  A method a class does not define raises
    [AttributeError].  This file has the scheduler's own state and its token
    arithmetic. *)

From stdpp Require Import gmap list strings.
From Stdlib Require Import ZArith Lia.
From S2P Require Import Prelude.
From S2P Require Import Block.
From S2P Require Import PrefixKeys.
From S2P Require Import PyFloat.
From S2P Require Import Request.
From S2P Require Import Acceptance.

Open Scope Z_scope.

(** ** Interfaces *)

(** The methods and attributes of a block manager the scheduler uses. *)
Class BlockManagerOps (W : Type) := {
  (* the request objects *)
  get_request : W → Z → Request;
  put_request : Z → (Request → Request) → W → W;
  (* attributes *)
  grouped_cache : bool;
  bm_block_size : W → Z;
  bm_watermark_blocks : W → Z;
  bm_num_free_blocks : W → Z;
  bm_gpu_status : W → Z * Z * Z;
  bm_block_numbers : W → Z → list Z;      (* of [block_table.get_blocks] *)
  (* reuse plans *)
  plan : Type;
  plan_hit_tokens : plan → Z;
  plan_input_keys : plan → list cache_key;
  kv_plan_reuse : Z → M W plan;           (* [kv_cache_manager.plan_reuse] *)
  bm_plan_reuse : Z → M W plan;           (* [plan_reuse] of grouped managers *)
  (* external hits of an asynchronous connector *)
  external : Type;
  external_tokens : external → Z;         (* [external[0]] *)
  external_loads : external → bool;       (* [bool(external[1])] *)
  (* operations; an absent keyword argument is [None] *)
  bm_can_allocate : Z → option bool → M W bool;
  bm_can_allocate_external : Z → plan → external → Z → bool → M W bool;
  bm_allocate : Z → M W unit;
  bm_can_append_slot : Z → M W bool;
  bm_append_slot : Z → M W unit;
  bm_can_ensure_slots : Z → Z → Z → M W bool;
  bm_ensure_slots : Z → Z → Z → M W unit;
  bm_remaining_admission_slots : Z → M W Z;
  bm_release_request_blocks : Z → M W unit;
  bm_free : Z → M W unit;
  bm_commit_input_cache : Z → M W unit;
  bm_cache_computed : Z → M W unit;
}.

Record SchedulerConfig := mkConfig {
  max_num_seqs : option Z;
  max_num_batched_tokens : option Z;
  long_prefill_token_threshold : Z;
  adaptive_long_prefill_threshold : bool;
  mtp_acceptance_length : pyfloat;
  mtp_seed : Z;
  mtp_acceptance : MTPAcceptanceConfig;
  mtp_enabled : bool;
  speculative_tokens : Z;
  cfg_max_model_len : option Z;
  max_occupy_ratio : pyfloat;
}.

(** [_Step]: the mutable state of one scheduling step *)
Record Step := mkStep {
  budget : option Z;
  scheduled : list Z;
  preempted : list Z;
  prefill_scheduled : bool;
  scheduled_running : list Z;
}.

#[global] Instance eta_step : Eta Step := λ s,
  mkStep (budget s) (scheduled s) (preempted s) (prefill_scheduled s) (scheduled_running s).

(** The scheduler object; requests are their ids.  [step] is the [_Step] of the
    running [schedule] call. *)
Record sched (W : Type) := mkSched {
  world_of : W;
  running : list Z;
  waiting : list Z;
  loaded_waiting : list Z;
  loading : gset Z;
  inflight_prefills : gset Z;
  last_admitted : list Z;
  prefill_capacity_bound : bool;
  defer_prefills : bool;
  effective_long_prefill_threshold : Z;
  stats : gmap string Z;
  step_of : Step;
}.
Arguments mkSched {W}.
Arguments world_of {W}.
Arguments running {W}.
Arguments waiting {W}.
Arguments loaded_waiting {W}.
Arguments loading {W}.
Arguments inflight_prefills {W}.
Arguments last_admitted {W}.
Arguments prefill_capacity_bound {W}.
Arguments defer_prefills {W}.
Arguments effective_long_prefill_threshold {W}.
Arguments stats {W}.
Arguments step_of {W}.

#[global] Instance eta_sched {W} : Eta (sched W) := λ s,
  mkSched (world_of s) (running s) (waiting s) (loaded_waiting s) (loading s)
    (inflight_prefills s) (last_admitted s) (prefill_capacity_bound s) (defer_prefills s)
    (effective_long_prefill_threshold s) (stats s) (step_of s).

(** The methods of a KV connector; [begin_load] also writes the scheduler's
    [loading] table. *)
Class ConnectorOps (W : Type) `{!BlockManagerOps W} := {
  async_offload : bool;
  on_new_request : Z → M W unit;
  probe : Z → plan → M W (option external);
  begin_load : Z → external → M (sched W) unit;
  discard_load : Z → M W unit;
  get_num_new_matched_tokens : Z → Z → M W Z;
  update_state_after_alloc : Z → Z → M W unit;
  request_finished : Z → list Z → M W bool;
  on_request_released : Z → M W unit;
  conn_update_output : gset Z → M W unit;
}.

(** ** Access *)

Section State.
Context {W : Type} `{!BlockManagerOps W}.

(** Run an operation of the manager or the connector. *)
Definition in_world {A} (m : M W A) : M (sched W) A := λ s,
  let '(res, w) := m (world_of s) in (res, s <| world_of := w |>).

Definition request (s : sched W) (r : Z) : Request := get_request (world_of s) r.

Definition get_req (r : Z) : M (sched W) Request := gets (λ s, request s r).

(** Attribute assignments on a request. *)
Definition edit (r : Z) (f : Request → Request) : M (sched W) unit :=
  modify (λ s, s <| world_of ::= put_request r f |>).

(** A method of the request object. *)
Definition on_req {A} (r : Z) (m : M Request A) : M (sched W) A := λ s,
  let '(res, q) := m (request s r) in (res, s <| world_of ::= put_request r (λ _, q) |>).

(** [self.stats[key] += n] *)
Definition bump (key : string) (n : Z) : M (sched W) unit :=
  modify (λ s, s <| stats ::= λ m, <[key := default 0 (m !! key) + n]> m |>).

Definition on_step (f : Step → Step) : M (sched W) unit :=
  modify (λ s, s <| step_of ::= f |>).
End State.

(** ** Token arithmetic ([PagedTokenBudgetMixin]) *)

(** [min(x, room)] where a missing limit is [float("inf")] *)
Definition min_room (x : Z) (room : option Z) : Z :=
  match room with None => x | Some y => Z.min x y end.

Definition fits (budget : option Z) (cost : Z) : bool :=
  match budget with None => true | Some b => cost <=? b end.

Section Tokens.
Context {W : Type} `{!BlockManagerOps W, Blake2b}.
Variable cfg : SchedulerConfig.

(** [_query_room] *)
Definition query_room (q : Request) : option Z :=
  (λ limit, Z.max 0 (limit - num_computed_tokens q - 1)) <$> cfg_max_model_len cfg.

(** [_query_tokens] *)
Definition query_tokens_for (q : Request) (accepted : Z) : Z :=
  if is_context_build q || negb (mtp_enabled cfg) then min_room accepted (query_room q)
  else min_room (1 + speculative_tokens cfg) (query_room q).

(** [_decode_output_tokens] *)
Definition decode_output_tokens (r remaining : Z) : M (sched W) Z :=
  if negb (mtp_enabled cfg) then mret (Z.min 1 remaining)
  else
    q ← get_req r;
    let accepted :=
      match kind (mtp_acceptance cfg) with
      | Legacy =>
          legacy_acceptance (mtp_acceptance_length cfg) (mtp_seed cfg) (req_id q) (generation_idx q)
      | _ =>
          sample_acceptance (mtp_acceptance cfg) (mtp_acceptance_length cfg) (mtp_seed cfg)
            (req_id q) (decode_round q)
      end in
    edit r (λ q, q <| scheduled_accepted_tokens := accepted |>) ;;
    mret (Z.min accepted remaining).

(** [_step_tokens] *)
Definition step_tokens_for (r : Z) (budget : option Z) : M (sched W) Z :=
  q ← get_req r;
  if negb (is_context_build q) then
    let remaining := Z.max 1 (decode_len q - generation_idx q) in
    let remaining :=
      match cfg_max_model_len cfg with
      | None => remaining
      | Some limit => Z.min remaining (Z.max 0 (limit - context_len q))
      end in
    if remaining =? 0 then mret 0
    else
      out ← decode_output_tokens r remaining;
      q ← get_req r;
      let accepted := min_room out (query_room q) in
      mret (if fits budget (query_tokens_for q accepted) then accepted else 0)
  else
    s ← gets id;
    let remaining := Z.max 1 (remaining_context_tokens q) in
    let remaining :=
      if effective_long_prefill_threshold s =? 0 then remaining
      else Z.min remaining (effective_long_prefill_threshold s) in
    let remaining := min_room remaining (query_room q) in
    mret (min_room remaining budget).

(** [_waiting_query_tokens]; [computed] is [None] when the keyword is absent. *)
Definition waiting_query_tokens (q : Request) (real_tokens queries : Z) (budget : option Z)
    (scheduled : list Z) (computed : option Z) (prefill_scheduled : bool) : Z :=
  if negb (mtp_enabled cfg) || negb (is_context_build q) || negb (real_tokens =? 1) then queries
  else
    let prefix := default (num_computed_tokens q) computed in
    let width := 1 + speculative_tokens cfg in
    if negb (context_len q - prefix =? 1) || prefill_scheduled ||
       negb (negb (bool_decide (scheduled = [])) || (0 <? prefix)) then queries
    else if match cfg_max_model_len cfg with
            | None => false
            | Some limit => limit <? prefix + width + 1
            end then queries
    else if fits budget width then width else 0.

(** [_budget_cost] *)
Definition budget_cost (q : Request) (accepted : Z) : Z :=
  if negb (is_context_build q) then query_tokens_for q accepted else accepted.

(** [_decode_lookahead] *)
Definition decode_lookahead : Z := if mtp_enabled cfg then speculative_tokens cfg else 0.

Definition record_mtp_execution (r : Z) : M (sched W) unit :=
  q ← get_req r;
  bump "mtp_verification_rounds" 1 ;;
  bump "mtp_verified_tokens" (query_tokens q) ;;
  bump "mtp_accepted_tokens" (Z.min (scheduled_accepted_tokens q) (query_tokens q)) ;;
  bump "mtp_emitted_tokens" (scheduled_tokens q).

(** [_preempt] *)
Definition preempt (r : Z) : M (sched W) unit :=
  modify (λ s, s <| inflight_prefills ::= λ p, p ∖ {[r]} |>) ;;
  in_world (bm_release_request_blocks r) ;;
  edit r prepare_recompute ;;
  edit r (λ q, q <| status := WAITING |>) ;;
  modify (λ s, s <| waiting ::= cons r |>).

(** The loops of [_reserve_decode_slot] and [_reserve_context_slots]: preempt the
    youngest queued requests, then [req] itself, until the slots fit.  The queue
    is kept reversed; returns whether [req] may run and what is left of it. *)
Fixpoint reserve_loop (can : M W bool) (grow : M W unit) (r : Z) (rqueue : list Z) :
    M (sched W) (bool * list Z) :=
  ok ← in_world can;
  if (ok : bool) then in_world grow ;; mret (true, rqueue)
  else
    match rqueue with
    | victim :: rqueue =>
        preempt victim ;;
        on_step (λ st, st <| preempted ::= λ l, l ++ [victim] |>) ;;
        reserve_loop can grow r rqueue
    | [] =>
        preempt r ;;
        on_step (λ st, st <| preempted ::= λ l, l ++ [r] |>) ;;
        mret (false, [])
    end.

Definition reserve_slots (r tokens : Z) (queue : list Z) : M (sched W) (bool * list Z) :=
  '(ok, rqueue) ← reserve_loop (bm_can_ensure_slots r tokens decode_lookahead)
    (bm_ensure_slots r tokens decode_lookahead) r (reverse queue);
  mret (ok, reverse rqueue).

(** [_reserve_context_slots] *)
Definition reserve_context_slots (r tokens : Z) (queue : list Z) : M (sched W) (bool * list Z) :=
  reserve_slots r tokens queue.

(** [_reserve_decode_slot] *)
Definition reserve_decode_slot (r query_tokens : Z) (queue : list Z) : M (sched W) (bool * list Z) :=
  if grouped_cache then reserve_slots r query_tokens queue
  else
    '(ok, rqueue) ← reserve_loop (bm_can_append_slot r) (bm_append_slot r) r (reverse queue);
    mret (ok, reverse rqueue).
End Tokens.
