(* ===== verification/Scheduler.v ===== *)
(** * Paged-attention scheduling ([TokenSim/llm/paged_scheduling.py],
      [TokenSim/llm/llm_scheduler.py])

    One [schedule] call serves the running requests oldest first, preempting the
    youngest when KV slots run out, and then admits waiting requests while the
    token budget, the sequence limit and the KV blocks last. *)

From stdpp Require Import gmap list strings.
From Stdlib Require Import ZArith Lia.
From S2P Require Import Prelude.
From S2P Require Import Block.
From S2P Require Import PrefixKeys.
From S2P Require Import PyFloat.
From S2P Require Import Request.
From S2P Require Import Acceptance.
From S2P Require Import SchedulerState.

Open Scope Z_scope.

Inductive SchedulePhase := IDLE | PREFILL | DECODE | RECOMPUTE | MIXED.

#[global] Instance SchedulePhase_eq_dec : EqDecision SchedulePhase.
Proof. solve_decision. Defined.

(** The kind of work one request does in a step. *)
Definition request_phase (q : Request) : SchedulePhase :=
  if needs_recompute q then RECOMPUTE else if is_prefill q then PREFILL else DECODE.

(** [kinds.add] *)
Definition add_kind (k : SchedulePhase) (kinds : list SchedulePhase) : list SchedulePhase :=
  if bool_decide (k ∈ kinds) then kinds else k :: kinds.

Definition step_phase (requests : list Request) : SchedulePhase :=
  match foldl (λ kinds q, add_kind (request_phase q) kinds) [] requests with
  | [] => IDLE
  | [k] => k
  | _ => MIXED
  end.

(** ** The constructor of the paged scheduler *)

(** Its arguments; [arg_layout] is the [(speculative_tokens, max_model_len)] of the
    cache's hybrid layout. *)
Record scheduler_args := mkArgs {
  arg_max_num_seqs : option Z;
  arg_max_occupy_ratio : pyfloat;
  arg_max_num_batched_tokens : option Z;
  arg_long_prefill_token_threshold : Z;
  arg_adaptive_long_prefill_threshold : bool;
  arg_mtp_acceptance_length : pyfloat;
  arg_mtp_enabled : option bool;
  arg_mtp_seed : Z;
  arg_mtp_acceptance : MTPAcceptanceConfig;
  arg_max_parallem_sum : option Z;
  arg_layout : option (Z * option Z);
}.

(** [LLMPagedAttnScheduler.__init__]: its checks and derived settings *)
Definition new_config (a : scheduler_args) : outcome SchedulerConfig :=
  let seqs := match arg_max_parallem_sum a with Some n => Some n | None => arg_max_num_seqs a end in
  let k := match arg_layout a with Some (k, _) => k | None => 0 end in
  let limit := match arg_layout a with Some (_, limit) => limit | None => None end in
  let enabled := default (negb (k =? 0)) (arg_mtp_enabled a) in
  if match arg_max_num_batched_tokens a with Some n => n <? 1 | None => false end
  then Raise ConfigurationError
  else if arg_long_prefill_token_threshold a <? 0 then Raise ConfigurationError
  else if negb (fisfinite (arg_mtp_acceptance_length a)) || fltb (arg_mtp_acceptance_length a) (fof 1)
  then Raise ConfigurationError
  else if negb (acceptance_validate (arg_mtp_acceptance a) k (arg_mtp_acceptance_length a))
  then Raise ConfigurationError
  else if enabled && (k =? 0) then Raise ConfigurationError
  else if negb (validate_mtp_token_budget (arg_max_num_batched_tokens a) (if enabled then k else 0))
  then Raise ConfigurationError
  else Ok (mkConfig seqs (arg_max_num_batched_tokens a) (arg_long_prefill_token_threshold a)
    (arg_adaptive_long_prefill_threshold a) (arg_mtp_acceptance_length a) (arg_mtp_seed a)
    (arg_mtp_acceptance a) enabled k limit (arg_max_occupy_ratio a)).

(** The queues of a new scheduler; absent counters read as zero. *)
Definition new_sched {W} (w : W) : sched W :=
  mkSched w [] [] [] ∅ ∅ [] false false 0 ∅ (mkStep None [] [] false []).

(** ** The base schedulers: requests are batched whole *)

(** [LLMDynamicScheduler.schedule] on [(running, waiting)] *)
Definition dynamic_schedule (max_seqs : Z) (running waiting : list Z) : list Z * list Z :=
  let available := Z.to_nat (Z.max 0 (max_seqs - Z.of_nat (length running))) in
  (running ++ take available waiting, drop available waiting).

(** [LLMStaticScheduler.schedule] *)
Definition static_schedule (max_seqs : Z) (running waiting : list Z) : list Z * list Z :=
  match running with
  | [] => (take (Z.to_nat max_seqs) waiting, drop (Z.to_nat max_seqs) waiting)
  | _ => (running, waiting)
  end.

(** Python's stable [sorted] by a key with a strict order. *)
Fixpoint insert_stable {A} (lt : A → A → bool) (x : A) (l : list A) : list A :=
  match l with
  | [] => [x]
  | y :: l => if lt x y then x :: y :: l else y :: insert_stable lt x l
  end.

Definition sort_stable {A} (lt : A → A → bool) (l : list A) : list A :=
  foldl (λ acc x, insert_stable lt x acc) [] l.

Section Scheduler.
Context {W : Type} `{!BlockManagerOps W, !ConnectorOps W, Blake2b}.
Variable cfg : SchedulerConfig.

(** ** Running requests *)

(** [_begin_step] *)
Definition begin_step (throttle_prefills : bool) (budget : option Z) : M (sched W) unit :=
  s ← gets id;
  modify (λ s, s <| defer_prefills :=
    throttle_prefills && negb (prefill_capacity_bound s) &&
    existsb (λ r, negb (prefill_chunk_pending (request s r))) (running s) |>) ;;
  let eligible :=
    Z.of_nat (length (running s) + length (waiting s) + size (loading s)) in
  let threshold := if 1 <? eligible then long_prefill_token_threshold cfg else 0 in
  let threshold :=
    match budget with
    | Some b =>
        if negb (threshold =? 0) && adaptive_long_prefill_threshold cfg && negb (b =? 0)
        then Z.max threshold (b / eligible) else threshold
    | None => threshold
    end in
  modify (λ s, s <| effective_long_prefill_threshold := threshold |>).

(** [sorted(self.running, key=lambda req: req.arrival_time)]; comparing a missing
    arrival time raises. *)
Definition sorted_running : M (sched W) (list Z) :=
  s ← gets id;
  let arrival r := arrival_at (request s r) in
  if (1 <? length (running s))%nat &&
     existsb (λ r, negb (bool_decide (is_Some (arrival r)))) (running s)
  then raise TypeError
  else
    mret (sort_stable (λ x y, fltb (default f0 (arrival x)) (default f0 (arrival y))) (running s)).

(** One running request got its slots: assign its tokens. *)
Definition assign_running (r tokens query_tokens : Z) : M (sched W) unit :=
  edit r (λ q, q <| scheduled_tokens := tokens |> <| scheduled_query_tokens := query_tokens |>) ;;
  q ← get_req r;
  on_step (λ st, st <| prefill_scheduled ::= λ b, b || prefill_chunk_pending q |>) ;;
  edit r (λ q, q <| prefill_chunk_pending :=
    num_computed_tokens q + query_tokens <? context_len q |>) ;;
  q ← get_req r;
  on_step (λ st, st <| budget ::= fmap (λ b, b - budget_cost cfg q tokens) |>) ;;
  on_step (λ st, st <| scheduled ::= λ l, l ++ [r] |>) ;;
  modify (λ s, s <| running ::= λ l, l ++ [r] |>).

(** One iteration of the loop of [_schedule_running]: [req] was popped from the
    queue; returns the queue left. *)
Definition run_one (r : Z) (queue : list Z) : M (sched W) (list Z) :=
  s ← gets id;
  if defer_prefills s && prefill_chunk_pending (request s r) then
    bump "deferred_running_prefills" 1 ;;
    modify (λ s, s <| running ::= λ l, l ++ [r] |>) ;;
    mret queue
  else
    tokens ← step_tokens_for cfg r (budget (step_of s));
    if tokens =? 0 then modify (λ s, s <| running ::= λ l, l ++ [r] |>) ;; mret queue
    else
      q ← get_req r;
      let query_tokens := query_tokens_for cfg q tokens in
      '(ok, queue) ← (if negb (is_context_build q)
                      then reserve_decode_slot cfg r query_tokens queue
                      else mret (true, queue));
      if negb (ok : bool) then mret queue
      else
        q ← get_req r;
        '(ok, queue) ← (if is_context_build q && grouped_cache
                        then reserve_context_slots cfg r tokens queue
                        else mret (true, queue));
        if negb (ok : bool) then mret queue
        else assign_running r tokens query_tokens ;; mret queue.

(** The loop [while queue]; every iteration pops at least one request, so the
    length of the queue is enough fuel. *)
Fixpoint run_loop (fuel : nat) (queue : list Z) : M (sched W) unit :=
  match fuel, queue with
  | S fuel, r :: queue => queue ← run_one r queue; run_loop fuel queue
  | _, _ => mret tt
  end.

(** [_schedule_running] *)
Definition schedule_running : M (sched W) unit :=
  queue ← sorted_running;
  modify (λ s, s <| running := [] |>) ;;
  run_loop (length queue) queue.

(** ** Admission *)

(** [_is_occupy_below_usage]: integer division of Python raises on zero; the
    operands are far below 2^53, so their quotient is the float quotient. *)
Definition is_occupy_below_usage : M (sched W) bool :=
  '(_, used, all) ← gets (λ s, bm_gpu_status (world_of s));
  if (all : Z) =? 0 then raise ZeroDivisionError
  else mret (fltb (fdiv (fof used) (fof all)) (max_occupy_ratio cfg)).

(** [_assign_waiting] *)
Definition assign_waiting (r tokens query_tokens : Z) : M (sched W) unit :=
  edit r (λ q, q <| scheduled_tokens := tokens |> <| scheduled_query_tokens := query_tokens |>) ;;
  edit r (λ q, q <| scheduled_placeholder_tokens :=
    if is_context_build q then Z.max 0 (query_tokens - tokens) else 0 |>) ;;
  edit r (λ q, q <| prefill_chunk_pending :=
    num_computed_tokens q + query_tokens <? context_len q |>) ;;
  on_step (λ st, st <| budget ::= fmap (λ b, b - query_tokens) |>) ;;
  on_step (λ st, st <| scheduled ::= λ l, l ++ [r] |>) ;;
  modify (λ s, s <| running ::= λ l, l ++ [r] |>).

(** The tokens and queries of a request that is about to be admitted. *)
Definition waiting_tokens (r : Z) : M (sched W) (Z * Z) :=
  s ← gets id;
  tokens ← step_tokens_for cfg r (budget (step_of s));
  q ← get_req r;
  mret (tokens, waiting_query_tokens cfg q tokens (query_tokens_for cfg q tokens)
    (budget (step_of s)) (scheduled_running (step_of s)) None (prefill_scheduled (step_of s))).

(** [_resume_loaded] *)
Definition resume_loaded (r : Z) : M (sched W) bool :=
  s ← gets id;
  if defer_prefills s && (1 <? remaining_context_tokens (request s r)) then
    bump "deferred_waiting_prefills" 1 ;; mret false
  else
    '(tokens, query_tokens) ← waiting_tokens r;
    if query_tokens =? 0 then mret false
    else
      s ← gets id;
      let watermark :=
        if bool_decide (running s = []) then 0 else bm_watermark_blocks (world_of s) in
      slots ← in_world (bm_remaining_admission_slots r);
      free ← gets (λ s, bm_num_free_blocks (world_of s));
      full ← (if free <? slots + watermark then mret true
              else
                ok ← in_world (bm_can_ensure_slots r query_tokens (decode_lookahead cfg));
                mret (negb ok));
      if (full : bool) then bump "loaded_kv_capacity_gate" 1 ;; mret false
      else
        in_world (bm_ensure_slots r query_tokens (decode_lookahead cfg)) ;;
        modify (λ s, s <| loaded_waiting ::= tail |> <| loading ::= λ l, l ∖ {[r]} |>) ;;
        edit r (λ q, q <| status := RUNNING |>) ;;
        assign_waiting r tokens query_tokens ;;
        bump "loaded_kv_resumptions" 1 ;;
        mret true.

(** [_admit] with an asynchronous connector *)
Definition admit_async (r : Z) (hit_tokens : Z) (ext : option external) : M (sched W) unit :=
  in_world (bm_allocate r) ;;
  edit r (λ q, q <| gpu_cached_context_tokens := hit_tokens |>
    <| gpu_cached_prefill_tokens := Z.min (prefill_len q) hit_tokens |>
    <| external_cached_prefill_tokens := 0 |> <| external_cached_context_tokens := 0 |>) ;;
  match ext with
  | Some e =>
      if external_loads e then
        begin_load r e ;;
        q ← get_req r;
        on_req r (record_context_admission hit_tokens (external_cached_context_tokens q)) ;;
        modify (λ s, s <| inflight_prefills ::= λ p, p ∪ {[r]} |>)
      else
        edit r (λ q, if needs_recompute q
          then q <| recompute_tokens := Z.max 0 (context_len q - hit_tokens) |> else q) ;;
        edit r (start_context_build hit_tokens) ;;
        on_req r (record_context_admission hit_tokens 0) ;;
        edit r (λ q, q <| status := RUNNING |>)
  | None =>
      edit r (λ q, if needs_recompute q
        then q <| recompute_tokens := Z.max 0 (context_len q - hit_tokens) |> else q) ;;
      edit r (start_context_build hit_tokens) ;;
      on_req r (record_context_admission hit_tokens 0) ;;
      edit r (λ q, q <| status := RUNNING |>)
  end.

(** [_admit] with a synchronous connector *)
Definition admit_sync (r : Z) (p : plan) : M (sched W) unit :=
  edit r (λ q, q <| input_cache_keys := plan_input_keys p |>) ;;
  ext ← in_world (get_num_new_matched_tokens r (plan_hit_tokens p));
  edit r (λ q, if needs_recompute q
    then q <| recompute_tokens := Z.max 0 (context_len q - plan_hit_tokens p - ext) |> else q) ;;
  in_world (bm_allocate r) ;;
  in_world (update_state_after_alloc r ext) ;;
  edit r (λ q,
    let to_compute :=
      if needs_recompute q then recompute_tokens q
      else if is_prefill q then prefill_compute_len q else 1 in
    start_context_build (context_len q - to_compute) q) ;;
  edit r (λ q, q <| status := RUNNING |>) ;;
  when grouped_cache (on_req r (record_context_admission (plan_hit_tokens p) ext)).

(** [_admit] *)
Definition admit_request (r : Z) (ext : option external) : M (sched W) unit :=
  p ← in_world (kv_plan_reuse r);
  if async_offload then admit_async r (plan_hit_tokens p) ext else admit_sync r p.

(** [_spec_decode_step_blocks] *)
Definition spec_decode_step_blocks (w : W) : M (sched W) Z :=
  if speculative_tokens cfg =? 0 then mret 0
  else if bm_block_size w =? 0 then raise ZeroDivisionError
  else mret ((1 + 2 * speculative_tokens cfg + bm_block_size w - 1) / bm_block_size w).

(** [_inflight_prefill_reserved_blocks] *)
Fixpoint inflight_reserved (rs : list Z) : M (sched W) Z :=
  match rs with
  | [] => mret 0
  | r :: rs =>
      slots ← in_world (bm_remaining_admission_slots r);
      w ← gets world_of;
      spec ← spec_decode_step_blocks w;
      rest ← inflight_reserved rs;
      mret (slots + spec + rest)
  end.

(** [_can_admit_external] *)
Definition can_admit_external (r : Z) (p : plan) (e : external) : M (sched W) bool :=
  s ← gets id;
  reserved ← inflight_reserved (elements (inflight_prefills s));
  modify (λ s, s <| stats ::= λ m, <["max_inflight_prefill_reserved_slots" :=
    Z.max (default 0 (m !! "max_inflight_prefill_reserved_slots")) reserved]> m |>) ;;
  w ← gets world_of;
  spec ← spec_decode_step_blocks w;
  let busy := negb (bool_decide (running s = [])) in
  allowed ← in_world (bm_can_allocate_external r p e (reserved + spec) busy);
  if (allowed : bool) then mret true
  else
    alone ← in_world (bm_can_allocate_external r p e 0 busy);
    when alone (bump "async_load_reservation_gate" 1) ;;
    mret false.

(** The probes of an asynchronous connector. *)
Definition probe_external (r : Z) : M (sched W) (option plan * option external) :=
  if async_offload then
    p ← in_world (bm_plan_reuse r);
    e ← in_world (probe r p);
    mret (Some p, e)
  else mret (None, None).

(** A deferred step admits only a full hit that computes its last token. *)
Definition deferred_gate (r : Z) (e : option external) : M (sched W) bool :=
  d ← gets defer_prefills;
  if (d : bool) then
    p ← in_world (kv_plan_reuse r);
    q ← get_req r;
    let hit := match e with Some e => external_tokens e | None => plan_hit_tokens p end in
    if 1 <? context_len q - hit then bump "deferred_waiting_prefills" 1 ;; mret false
    else mret true
  else mret true.

(** The padded verification query must fit before prefix pages are acquired. *)
Definition padded_gate (r : Z) (p : option plan) (loads_external : bool) : M (sched W) bool :=
  if grouped_cache && negb loads_external then
    prefix ← (match p with
              | Some p => mret (plan_hit_tokens p)
              | None => p ← in_world (bm_plan_reuse r); mret (plan_hit_tokens p)
              end);
    s ← gets id;
    let q := request s r in
    mret (negb ((context_len q - prefix =? 1) &&
      (waiting_query_tokens cfg q 1 1 (budget (step_of s)) (scheduled_running (step_of s))
         (Some prefix) (prefill_scheduled (step_of s)) =? 0)))
  else mret true.

(** Whether the KV blocks of the whole input fit. *)
Definition allocation_gate (r : Z) (p : option plan) (e : option external) : M (sched W) bool :=
  match p, e with
  | Some p, Some e =>
      if external_loads e then can_admit_external r p e
      else if grouped_cache then
        s ← gets id;
        in_world (bm_can_allocate r (Some (negb (bool_decide (running s = [])))))
      else in_world (bm_can_allocate r None)
  | _, _ =>
      if grouped_cache then
        s ← gets id;
        in_world (bm_can_allocate r (Some (negb (bool_decide (running s = [])))))
      else in_world (bm_can_allocate r None)
  end.

(** Slots for the first chunk of a grouped cache; undoes the admission when they
    do not fit. *)
Definition ensure_admitted (r tokens query_tokens : Z) (saved : AdmissionState) : M (sched W) bool :=
  if grouped_cache then
    ok ← in_world (bm_can_ensure_slots r query_tokens (decode_lookahead cfg));
    if negb (ok : bool) then
      in_world (bm_release_request_blocks r) ;;
      in_world (discard_load r) ;;
      modify (λ s, s <| inflight_prefills ::= λ p, p ∖ {[r]} |>) ;;
      edit r (restore_admission_state saved) ;;
      modify (λ s, s <| waiting ::= cons r |>) ;;
      bump "full_input_gate" 1 ;;
      mret false
    else
      in_world (bm_ensure_slots r query_tokens (decode_lookahead cfg)) ;;
      q ← get_req r;
      when (num_computed_tokens q + tokens <? context_len q)
        (modify (λ s, s <| inflight_prefills ::= λ p, p ∪ {[r]} |>)) ;;
      mret true
  else mret true.

(** [_admit_waiting] *)
Definition admit_waiting (r : Z) : M (sched W) bool :=
  '(p, e) ← probe_external r;
  go ← deferred_gate r e;
  if negb (go : bool) then mret false
  else
    go ← padded_gate r p (match e with Some e => external_loads e | None => false end);
    if negb (go : bool) then mret false
    else
      fits ← allocation_gate r p e;
      if negb (fits : bool) then bump "full_input_gate" 1 ;; mret false
      else
        modify (λ s, s <| waiting ::= tail |>) ;;
        q ← get_req r;
        let saved := admission_state q in
        admit_request r e ;;
        q ← get_req r;
        if bool_decide (status q = WAITING_FOR_KV) then
          bump "async_load_admissions" 1 ;; mret true
        else
          '(tokens, query_tokens) ← waiting_tokens r;
          if query_tokens =? 0 then raise ConfigurationError
          else
            ok ← ensure_admitted r tokens query_tokens saved;
            if negb (ok : bool) then mret false
            else
              assign_waiting r tokens query_tokens ;;
              modify (λ s, s <| last_admitted ::= λ l, l ++ [r] |>) ;;
              mret true.

(** [_schedule_waiting]; every admission takes a request out of a queue, so the
    number of queued requests is enough fuel. *)
Fixpoint admit_loop (fuel : nat) : M (sched W) unit :=
  match fuel with
  | O => mret tt
  | S fuel =>
      s ← gets id;
      if (bool_decide (loaded_waiting s = []) && bool_decide (waiting s = [])) ||
         match budget (step_of s) with None => false | Some b => b <=? 0 end
      then mret tt
      else
        below ← (match loaded_waiting s with
                 | [] => is_occupy_below_usage
                 | _ => mret true
                 end);
        if negb (below : bool) then mret tt
        else if match max_num_seqs cfg with
                | None => false
                | Some n => n <=? Z.of_nat (length (running s))
                end
        then bump "max_num_seqs_gate" 1
        else
          admitted ← (match loaded_waiting s, waiting s with
                      | r :: _, _ => resume_loaded r
                      | [], r :: _ => admit_waiting r
                      | [], [] => mret false
                      end);
          if (admitted : bool) then admit_loop fuel else mret tt
  end.

Definition schedule_waiting : M (sched W) unit :=
  s ← gets id;
  admit_loop (length (loaded_waiting s) + length (waiting s)).

(** [_record_scheduled] *)
Definition record_scheduled (rs : list Z) : M (sched W) unit :=
  for_ rs (λ r,
    q ← get_req r;
    (if is_context_build q then
       bump "scheduled_context_tokens" (scheduled_tokens q) ;;
       bump "scheduled_context_query_tokens" (query_tokens q)
     else
       bump "scheduled_decode_tokens" (scheduled_tokens q) ;;
       bump "scheduled_decode_query_tokens" (query_tokens q)) ;;
    bump "scheduled_placeholder_queries" (scheduled_placeholder_tokens q) ;;
    bump "padded_context_admissions" (if 0 <? scheduled_placeholder_tokens q then 1 else 0) ;;
    bump "scheduled_logits_rows" (logits_tokens q)).

(** [schedule] *)
Definition schedule (throttle_prefills : bool) : M (sched W) (list Z * list Z) :=
  modify (λ s, s <| step_of := mkStep (max_num_batched_tokens cfg) [] [] false [] |>
                 <| last_admitted := [] |>) ;;
  bump "steps" 1 ;;
  begin_step throttle_prefills (max_num_batched_tokens cfg) ;;
  schedule_running ;;
  on_step (λ st, st <| scheduled_running := scheduled st |>) ;;
  s ← gets id;
  when (bool_decide (preempted (step_of s) = [])) schedule_waiting ;;
  s ← gets id;
  when (bool_decide (preempted (step_of s) = []) && negb (defer_prefills s))
    (modify (λ s, s <| prefill_capacity_bound :=
       negb (bool_decide (waiting s = [] ∧ loaded_waiting s = [])) |>)) ;;
  s ← gets id;
  when (prefill_capacity_bound s) (bump "capacity_bound_steps" 1) ;;
  s ← gets id;
  record_scheduled (scheduled (step_of s)) ;;
  mret (scheduled (step_of s), preempted (step_of s)).

(** ** Lifecycle *)

(** [add_requests] of the base scheduler *)
Definition base_add_requests (rs : list Z) : M (sched W) unit :=
  s ← gets id;
  let rs := filter (λ r, cancel_requested (request s r) = false) rs in
  for_ rs (λ r, in_world (on_new_request r)) ;;
  modify (λ s, s <| waiting ::= λ l, l ++ rs |>).

Definition add_requests (rs : list Z) : M (sched W) unit :=
  (match cfg_max_model_len cfg with
   | None => mret tt
   | Some limit =>
       for_ rs (λ r,
         q ← get_req r;
         if limit <=? prefill_len q then raise ConfigurationError
         else edit r (λ q, q <| max_model_len := Some limit |>))
   end) ;;
  base_add_requests rs.

Definition on_tokens_computed (r : Z) : M (sched W) unit :=
  when grouped_cache (in_world (bm_cache_computed r)).

(** [free] *)
Definition free_finished (r : Z) : M (sched W) unit :=
  modify (λ s, s <| inflight_prefills ::= λ p, p ∖ {[r]} |>) ;;
  numbers ← gets (λ s, bm_block_numbers (world_of s) r);
  delay ← in_world (request_finished r numbers);
  if (delay : bool) then edit r (λ q, q <| status := WAITING_FOR_CONNECTOR_FREE |>)
  else
    in_world (bm_free r) ;;
    edit r (λ q, q <| status :=
      if length_capped q then FINISHED_LENGTH_CAPPED else FINISHED_STOPPED |>).

(** [update] of the base scheduler *)
Definition base_update (rs : list Z) : M (sched W) (list Z) :=
  for_ rs (λ r, q ← get_req r; when (is_done q) (free_finished r)) ;;
  modify (λ s, s <| running ::= filter (λ r, is_done (request s r) = false) |>) ;;
  gets running.

Definition update (rs : list Z) : M (sched W) (list Z) :=
  for_ rs (λ r,
    q ← get_req r;
    when (negb (is_context_build q))
      (modify (λ s, s <| inflight_prefills ::= λ p, p ∖ {[r]} |>)) ;;
    when (0 <? generation_idx q) (in_world (bm_commit_input_cache r))) ;;
  base_update rs.

(** [update_connector_output] with the worker's [finished_sending] set *)
Definition update_connector_output (finished_sending : gset Z) : M (sched W) unit :=
  in_world (conn_update_output finished_sending) ;;
  when (negb (bool_decide (finished_sending = ∅)))
    (modify (λ s, s <| running ::= filter (λ r,
       ¬ (r ∈ finished_sending ∧
          (is_done (request s r) = true ∨
           status (request s r) = WAITING_FOR_CONNECTOR_FREE))) |>)).

Definition cancel_request (r : Z) : M (sched W) bool :=
  modify (λ s, s <| running ::= filter (λ x, x ≠ r) |> <| waiting ::= filter (λ x, x ≠ r) |>
    <| loading ::= λ l, l ∖ {[r]} |> <| inflight_prefills ::= λ p, p ∖ {[r]} |>
    <| loaded_waiting ::= filter (λ x, x ≠ r) |>) ;;
  numbers ← gets (λ s, bm_block_numbers (world_of s) r);
  delayed ← in_world (request_finished r numbers);
  when (negb (delayed : bool))
    (when (negb (bool_decide (numbers = [])) || grouped_cache)
       (in_world (bm_release_request_blocks r)) ;;
     in_world (on_request_released r)) ;;
  gets (λ s, bool_decide (bm_block_numbers (world_of s) r = [])).

(** [_release_delayed_blocks] *)
Definition release_delayed_blocks (r : Z) : M (sched W) unit :=
  in_world (bm_release_request_blocks r) ;;
  edit r (λ q, q <| status := FINISHED_STOPPED |>).

(** [workload]: GPU KV-cache utilization as a percentage *)
Definition workload (s : sched W) : pyfloat :=
  let '(_, used, total) := bm_gpu_status (world_of s) in
  if 0 <? total then fmul (fdiv (fof used) (fof total)) (fof 100) else f0.
End Scheduler.

(** ** The base schedulers *)

(** Both base schedulers admit from the front of the waiting
    queue, keep the requests in order and stop at [max_num_seqs].  The dynamic one
    leaves requests waiting only when it is full; the static one only starts a
    batch when none runs. *)
Theorem base_schedule_fifo max_seqs running waiting :
  0 < max_seqs →
  let '(running1, waiting1) := dynamic_schedule max_seqs running waiting in
  let '(running2, waiting2) := static_schedule max_seqs running waiting in
  running1 ++ waiting1 = running ++ waiting ∧ running2 ++ waiting2 = running ++ waiting ∧
  Z.of_nat (length running1) <= Z.max (Z.of_nat (length running)) max_seqs ∧
  Z.of_nat (length running2) <= Z.max (Z.of_nat (length running)) max_seqs ∧
  (waiting1 ≠ [] → max_seqs <= Z.of_nat (length running1)) ∧
  (running ≠ [] → running2 = running) ∧
  (running = [] → running2 = running1).
Proof.
  intros Hm. unfold dynamic_schedule, static_schedule.
  set (n := Z.to_nat (Z.max 0 _)). rewrite <- app_assoc, take_drop, length_app, length_take.
  assert (waiting = [] ∨ waiting ≠ []) as Hcase by (destruct waiting; auto).
  destruct running as [|r running]; cbn [length] in n.
  - rewrite take_drop, length_take. assert (n = Z.to_nat max_seqs) as -> by (unfold n; lia). cbn [length].
    do 2 (split; [done|]). split; [lia|]. split; [lia|]. split; [|done].
    intros Hw. assert (Z.to_nat max_seqs < length waiting)%nat; [|lia].
    apply Nat.nle_gt. intros Hle. apply Hw. by apply drop_ge.
  - assert (Z.of_nat n = Z.max 0 (max_seqs - Z.of_nat (S (length running)))) as Hn by (unfold n; lia).
    cbn [length]. do 2 (split; [done|]). split; [lia|]. split; [lia|]. split; [|done].
    intros Hw. assert (n < length waiting)%nat; [|lia].
    apply Nat.nle_gt. intros Hle. apply Hw. by apply drop_ge.
Qed.

Lemma base_schedule_fifo_witness :
  dynamic_schedule 3 [1; 2] [3; 4] = ([1; 2; 3], [4]) ∧
  let '(running1, waiting1) := dynamic_schedule 3 [1; 2] [3; 4] in
  running1 ++ waiting1 = [1; 2] ++ [3; 4] ∧ 3 <= Z.of_nat (length running1).
Proof.
  split; [reflexivity|].
  destruct (base_schedule_fifo 3 [1; 2] [3; 4] ltac:(lia)) as (H1 & _ & _ & _ & H2 & _).
  split; [exact H1|]. apply H2. discriminate.
Defined.

(** ** Phase labels *)

Lemma add_kind_elem k kinds x : x ∈ add_kind k kinds ↔ x = k ∨ x ∈ kinds.
Proof. unfold add_kind. case_bool_decide; set_solver. Qed.

Lemma add_kind_nodup k kinds : NoDup kinds → NoDup (add_kind k kinds).
Proof. unfold add_kind. case_bool_decide; [done|]. by constructor. Qed.

Lemma step_kinds_spec requests kinds :
  NoDup kinds →
  let all := foldl (λ kinds q, add_kind (request_phase q) kinds) kinds requests in
  NoDup all ∧ ∀ k, k ∈ all ↔ k ∈ kinds ∨ ∃ q, q ∈ requests ∧ request_phase q = k.
Proof.
  revert kinds. induction requests as [|q requests IH]; intros kinds Hnd; cbn [foldl].
  - split; [done|]. set_solver.
  - destruct (IH (add_kind (request_phase q) kinds) (add_kind_nodup _ _ Hnd)) as [H1 H2].
    split; [done|]. intros k. rewrite H2, add_kind_elem. set_solver.
Qed.

(** The phase label of a step: idle without requests, a pure
    phase when every request does that kind of work, and mixed exactly when two
    requests do different kinds. *)
Theorem step_phase_spec requests :
  (step_phase requests = IDLE ↔ requests = []) ∧
  (∀ q, q ∈ requests → (∀ q', q' ∈ requests → request_phase q' = request_phase q) →
     step_phase requests = request_phase q) ∧
  (step_phase requests = MIXED ↔
     ∃ q q', q ∈ requests ∧ q' ∈ requests ∧ request_phase q ≠ request_phase q').
Proof.
  destruct (step_kinds_spec requests [] (NoDup_nil_2)) as [Hnd Hall]. unfold step_phase.
  set (all := foldl _ [] requests) in *. clearbody all.
  assert (∀ k, k ∈ all ↔ ∃ q, q ∈ requests ∧ request_phase q = k) as Hk
    by (intros k; rewrite Hall, elem_of_nil; tauto). clear Hall.
  assert (∀ q, request_phase q ≠ IDLE ∧ request_phase q ≠ MIXED) as Hne.
  { intros q. unfold request_phase. by destruct (needs_recompute q), (is_prefill q). }
  destruct all as [|k [|k' all]].
  - assert (requests = []) as ->.
    { destruct requests as [|q rs]; [done|]. exfalso.
      apply (not_elem_of_nil (request_phase q)), Hk. exists q. set_solver. }
    split; [done|]. split; [set_solver|]. split; [done|]. set_solver.
  - destruct (proj1 (Hk k)) as (q & Hq & Eq); [set_solver|]. subst k.
    assert (∀ q', q' ∈ requests → request_phase q' = request_phase q) as Hsame.
    { intros q' Hq'. apply list_elem_of_singleton, Hk. eauto. }
    split; [split; [by intros ?%Hne|intros ->; set_solver]|].
    split; [intros q' Hq' _; by rewrite (Hsame q')|].
    split; [by intros ?%Hne|]. intros (q1 & q2 & H1 & H2 & Hd). exfalso. apply Hd.
    by rewrite (Hsame q1), (Hsame q2).
  - destruct (proj1 (Hk k)) as (q & Hq & Eq); [set_solver|].
    destruct (proj1 (Hk k')) as (q' & Hq' & Eq'); [set_solver|].
    assert (request_phase q ≠ request_phase q') as Hd.
    { rewrite Eq, Eq'. intros ->. apply NoDup_cons in Hnd as [Hn _]. set_solver. }
    split; [split; [done|intros ->; set_solver]|].
    split; [|split; [eauto 10|done]].
    intros q1 _ Hs. exfalso. apply Hd. by rewrite (Hs q), (Hs q').
Qed.
