(* ===== verification/SchedulerSpec.v ===== *)
(** * Verification of the paged scheduler against its interfaces

    [KVLaws] states what the scheduler relies on: which operations return, what
    they leave alone, and that a positive capacity probe can be acted upon.  The
    theorems are proved from these laws for every manager with one block width
    ([grouped_cache = false]) and every synchronous connector; [UniformScheduler]
    shows that the modelled [BlockManager] satisfies them. *)

From stdpp Require Import gmap list strings.
From Stdlib Require Import ZArith Lia.
From S2P Require Import Prelude.
From S2P Require Import Block.
From S2P Require Import PrefixKeys.
From S2P Require Import PyFloat.
From S2P Require Import Request.
From S2P Require Import Acceptance.
From S2P Require Import SchedulerState.
From S2P Require Import Scheduler.

Open Scope Z_scope.

(** What a block manager reads or writes of a request besides its metrics. *)
Definition kv_view (q : Request) :=
  (physical_token_blocks q, hash_ids q, cache_salt q, reuse_group q, prefill_len q,
   logical_tokens q, req_block_size q).

(** What the scheduler reads and only the scheduler or the worker writes. *)
Definition sched_view (q : Request) :=
  (prefill_len q, decode_len q, generation_idx q, needs_recompute q, num_computed_tokens q,
   scheduled_tokens q, scheduled_query_tokens q, prefill_chunk_pending q, arrival_at q).

(** Assignments the block manager does not notice. *)
Definition benign (f : Request → Request) : Prop := ∀ q, kv_view (f q) = kv_view q.

Class KVLaws (W : Type) `{!BlockManagerOps W, !ConnectorOps W} := {
  kv_ok : W → Prop;               (* the manager's invariant *)
  holds : W → Z → Prop;           (* the request has blocks *)
  known : W → Z → Prop;           (* the request is well formed for this manager *)
  admissible : W → Z → Prop;      (* enough free blocks for the whole input *)

  law_get_put r r' f w :
    get_request (put_request r f w) r' =
      if decide (r = r') then f (get_request w r) else get_request w r';
  law_put r f w :
    kv_ok w → benign f →
    let w' := put_request r f w in
    kv_ok w' ∧ (bm_gpu_status w').2 = (bm_gpu_status w).2 ∧
    ∀ x, (holds w' x ↔ holds w x) ∧ (known w x → known w' x) ∧ (admissible w x → admissible w' x);

  law_plan r w :
    kv_ok w → known w r →
    wp (kv_plan_reuse r) (λ _ w', kv_ok w' ∧ (bm_gpu_status w').2 = (bm_gpu_status w).2 ∧
      ∀ x, sched_view (get_request w' x) = sched_view (get_request w x) ∧
        (holds w' x ↔ holds w x) ∧ (known w x → known w' x) ∧ (admissible w x → admissible w' x))
      no_raise w;
  law_can_allocate r w :
    kv_ok w → known w r →
    wp (bm_can_allocate r None) (λ b w', kv_ok w' ∧ (bm_gpu_status w').2 = (bm_gpu_status w).2 ∧
      (b = true → admissible w' r) ∧
      ∀ x, sched_view (get_request w' x) = sched_view (get_request w x) ∧
        (holds w' x ↔ holds w x) ∧ (known w x → known w' x)) no_raise w;
  law_allocate r w :
    kv_ok w → known w r → ¬ holds w r → admissible w r →
    wp (bm_allocate r) (λ _ w', kv_ok w' ∧ (bm_gpu_status w').2 = (bm_gpu_status w).2 ∧
      ∀ x, sched_view (get_request w' x) = sched_view (get_request w x) ∧
        (x ≠ r → holds w' x → holds w x) ∧ (known w x → known w' x)) no_raise w;
  law_append_slot r w :
    kv_ok w → known w r →
    wp (bm_can_append_slot r) (λ b w1, w1 = w ∧
      (b = true →
       wp (bm_append_slot r) (λ _ w', kv_ok w' ∧ (bm_gpu_status w').2 = (bm_gpu_status w).2 ∧
         ∀ x, sched_view (get_request w' x) = sched_view (get_request w x) ∧
           (x ≠ r → holds w' x → holds w x) ∧ (known w x → known w' x)) no_raise w)) no_raise w;
  law_release r w :
    kv_ok w → known w r →
    wp (bm_release_request_blocks r) (λ _ w', kv_ok w' ∧
      (bm_gpu_status w').2 = (bm_gpu_status w).2 ∧ ¬ holds w' r ∧
      ∀ x, sched_view (get_request w' x) = sched_view (get_request w x) ∧
        (holds w' x → holds w x) ∧ (known w x → known w' x)) no_raise w;
  law_matched r n w :
    kv_ok w →
    wp (get_num_new_matched_tokens r n) (λ _ w', kv_ok w' ∧
      (bm_gpu_status w').2 = (bm_gpu_status w).2 ∧
      ∀ x, sched_view (get_request w' x) = sched_view (get_request w x) ∧
        (holds w' x ↔ holds w x) ∧ (known w x → known w' x) ∧ (admissible w x → admissible w' x))
      no_raise w;
  law_after_alloc r n w :
    kv_ok w →
    wp (update_state_after_alloc r n) (λ _ w', kv_ok w' ∧
      (bm_gpu_status w').2 = (bm_gpu_status w).2 ∧
      ∀ x, sched_view (get_request w' x) = sched_view (get_request w x) ∧
        (holds w' x ↔ holds w x) ∧ (known w x → known w' x)) no_raise w;
}.

(** ** Sorting *)

Lemma insert_stable_perm {A} (lt : A → A → bool) x l : insert_stable lt x l ≡ₚ x :: l.
Proof.
  induction l as [|y l IH]; cbn; [done|]. destruct (lt x y); [done|].
  rewrite IH. apply Permutation_swap.
Qed.

Lemma sort_stable_perm {A} (lt : A → A → bool) l : sort_stable lt l ≡ₚ l.
Proof.
  unfold sort_stable. rewrite <- (app_nil_r l) at 2. generalize (@nil A) as acc.
  induction l as [|x l IH]; intros acc; cbn [foldl app]; [done|].
  rewrite IH, insert_stable_perm. by rewrite <- Permutation_middle.
Qed.

Section SchedulerSpec.
Context {W : Type} `{!BlockManagerOps W, !ConnectorOps W, !KVLaws W, Blake2b}.
Variable cfg : SchedulerConfig.
Hypothesis Hgrouped : grouped_cache = false.
Hypothesis Hasync : async_offload = false.
Hypothesis Hmtp : mtp_enabled cfg = false.
Hypothesis Hlimit : cfg_max_model_len cfg = None.

(** Query tokens of the scheduled requests. *)
Definition total_queries (s : sched W) (l : list Z) : Z :=
  foldr (λ r n, scheduled_query_tokens (request s r) + n) 0 l.

Lemma total_queries_app s l k : total_queries s (l ++ k) = total_queries s l + total_queries s k.
Proof. unfold total_queries. induction l as [|x l IH]; cbn; [done|]. rewrite IH. lia. Qed.

Lemma total_queries_one s r : total_queries s [r] = scheduled_query_tokens (request s r).
Proof. unfold total_queries. cbn. lia. Qed.

Lemma total_queries_ext s s' l :
  (∀ r, r ∈ l → scheduled_query_tokens (request s' r) = scheduled_query_tokens (request s r)) →
  total_queries s' l = total_queries s l.
Proof.
  unfold total_queries. induction l as [|x l IH]; intros Heq; cbn; [done|].
  rewrite Heq, IH by set_solver. done.
Qed.

(** The order in which running requests are served. *)
Definition by_arrival (s : sched W) : list Z :=
  sort_stable (λ x y, fltb (default f0 (arrival_at (request s x)))
    (default f0 (arrival_at (request s y)))) (running s).

(** The state of a scheduling step begun in [s0]: the requests [admitted] left the
    waiting queue, and the requests [queue] are not placed yet. *)
Record SInv (s0 : sched W) (admitted queue : list Z) (s : sched W) : Prop := {
  si_ok : kv_ok (world_of s);
  si_total : (bm_gpu_status (world_of s)).2 = (bm_gpu_status (world_of s0)).2;
  si_known x : known (world_of s0) x → known (world_of s) x;
  si_order : running s ++ queue ++ waiting s = by_arrival s0 ++ waiting s0;
  si_sub r : r ∈ scheduled (step_of s) → r ∈ running s;
  si_nodup : NoDup (scheduled (step_of s));
  si_budget :
    budget (step_of s) =
      (λ b, b - total_queries s (scheduled (step_of s))) <$> max_num_batched_tokens cfg;
  si_budget_nonneg b : budget (step_of s) = Some b → 0 <= b;
  si_tokens r :
    r ∈ scheduled (step_of s) →
    1 <= scheduled_tokens (request s r) ∧
    scheduled_query_tokens (request s r) = scheduled_tokens (request s r);
  si_admitted : admitted = take (length admitted) (waiting s0);
  si_waiting :
    waiting s = reverse (preempted (step_of s)) ++ drop (length admitted) (waiting s0);
  si_free r : r ∈ waiting s → ¬ holds (world_of s) r;
  si_loaded : loaded_waiting s = [];
  si_threshold : 0 <= effective_long_prefill_threshold s;
  si_arrival r : arrival_at (request s r) = arrival_at (request s0 r);
}.

(** The hypotheses about the state a step starts in. *)
Record Ready (s0 : sched W) : Prop := {
  rd_ok : kv_ok (world_of s0);
  rd_known r : r ∈ running s0 ++ waiting s0 → known (world_of s0) r;
  rd_nodup : NoDup (running s0 ++ waiting s0);
  rd_free r : r ∈ waiting s0 → ¬ holds (world_of s0) r;
  rd_loaded : loaded_waiting s0 = [];
  rd_arrival r : r ∈ running s0 ++ waiting s0 → is_Some (arrival_at (request s0 r));
  rd_total : (bm_gpu_status (world_of s0)).2 ≠ 0;
}.

Lemma request_edit r f x (s : sched W) :
  request (s <| world_of ::= put_request r f |>) x =
  if decide (r = x) then f (request s r) else request s x.
Proof. unfold request. cbn. apply law_get_put. Qed.

Lemma sched_view_fields q q' :
  sched_view q = sched_view q' →
  scheduled_tokens q = scheduled_tokens q' ∧ scheduled_query_tokens q = scheduled_query_tokens q' ∧
  arrival_at q = arrival_at q'.
Proof. unfold sched_view. intros [= ? ? ? ? ? ? ? ? ?]. done. Qed.

(** ** Steps of the loops *)

Section Step.
Variable s0 : sched W.
Variable adm : list Z.
Hypothesis HR : Ready s0.

Lemma si_perm queue s :
  SInv s0 adm queue s → running s ++ queue ++ waiting s ≡ₚ running s0 ++ waiting s0.
Proof. intros Hs. rewrite (si_order _ _ _ _ Hs). unfold by_arrival. by rewrite sort_stable_perm. Qed.

Lemma sinv_nodup queue s : SInv s0 adm queue s → NoDup (running s ++ queue ++ waiting s).
Proof. intros Hs. rewrite (si_perm _ _ Hs). apply HR. Qed.

(** Requests in flight are not scheduled yet. *)
Lemma sinv_unscheduled queue s r :
  SInv s0 adm queue s → r ∈ queue → r ∉ scheduled (step_of s).
Proof.
  intros Hs Hr Hin. apply (si_sub _ _ _ _ Hs) in Hin.
  pose proof (sinv_nodup _ _ Hs) as Hnd. apply NoDup_app in Hnd as (_ & Hd & _).
  apply (Hd r Hin). set_solver.
Qed.

Lemma sinv_known queue s r : SInv s0 adm queue s → r ∈ queue → known (world_of s) r.
Proof.
  intros Hs Hr. apply (si_known _ _ _ _ Hs), (rd_known _ HR).
  rewrite <- (si_perm _ _ Hs). set_solver.
Qed.

(** An operation of the manager or the connector. *)
Lemma sinv_world queue s w' :
  SInv s0 adm queue s → kv_ok w' → (bm_gpu_status w').2 = (bm_gpu_status (world_of s)).2 →
  (∀ x, sched_view (get_request w' x) = sched_view (get_request (world_of s) x)) →
  (∀ x, known (world_of s) x → known w' x) →
  (∀ x, x ∈ waiting s → holds w' x → holds (world_of s) x) →
  SInv s0 adm queue (s <| world_of := w' |>).
Proof.
  intros [] Hok Ht Hv Hk Hh.
  assert (∀ x, scheduled_tokens (request (s <| world_of := w' |>) x) = scheduled_tokens (request s x) ∧
    scheduled_query_tokens (request (s <| world_of := w' |>) x) = scheduled_query_tokens (request s x) ∧
    arrival_at (request (s <| world_of := w' |>) x) = arrival_at (request s x)) as Hf.
  { intros x. apply sched_view_fields, Hv. }
  split; try done.
  - cbn. by rewrite Ht.
  - intros x Hx. by apply Hk, si_known0.
  - cbn [step_of update_field]. rewrite (total_queries_ext s); [done|]. intros r _. apply Hf.
  - intros r Hr. destruct (Hf r) as (-> & -> & _). by apply si_tokens0.
  - cbn. intros r Hr Hhold. eapply si_free0; [done|]. by apply Hh.
  - intros r. destruct (Hf r) as (_ & _ & ->). done.
Qed.

(** Assignments to a request that is not scheduled yet. *)
Lemma sinv_edit queue s r f :
  SInv s0 adm queue s → r ∈ queue → benign f → (∀ q, arrival_at (f q) = arrival_at q) →
  SInv s0 adm queue (s <| world_of ::= put_request r f |>).
Proof.
  intros Hs Hr Hf Ha. pose proof (sinv_unscheduled _ _ _ Hs Hr) as Hun. destruct Hs.
  destruct (law_put r f (world_of s) si_ok0 Hf) as (Hok & Ht & Hrest).
  assert (∀ x, x ∈ scheduled (step_of s) →
    request (s <| world_of ::= put_request r f |>) x = request s x) as Hsame.
  { intros x Hx. rewrite request_edit. case_decide; [congruence|done]. }
  split; try done.
  - cbn. by rewrite Ht.
  - intros x Hx. by apply Hrest, si_known0.
  - cbn [step_of update_field]. rewrite (total_queries_ext s); [done|]. intros x Hx. by rewrite Hsame.
  - intros x Hx. rewrite Hsame by done. by apply si_tokens0.
  - cbn. intros x Hx. rewrite (proj1 (Hrest x)). by apply si_free0.
  - intros x. rewrite request_edit. case_decide as Hx; [|apply si_arrival0].
    subst x. rewrite Ha. apply si_arrival0.
Qed.

(** Fields the invariant does not mention. *)
Lemma sinv_inflight queue s p : SInv s0 adm queue s → SInv s0 adm queue (s <| inflight_prefills := p |>).
Proof. intros []. by split. Qed.

Lemma sinv_bump queue s key n :
  SInv s0 adm queue s → wp (bump key n) (λ _ s', SInv s0 adm queue s' ∧ step_of s' = step_of s ∧
    world_of s' = world_of s ∧ running s' = running s ∧ waiting s' = waiting s ∧
    last_admitted s' = last_admitted s) no_raise s.
Proof. intros []. unfold bump. apply wp_modify. split; [by split|done]. Qed.

Lemma wp_in_world {A} (m : M W A) (Q : A → sched W → Prop) E s :
  wp m (λ a w, Q a (s <| world_of := w |>)) (λ e w, E e (s <| world_of := w |>)) (world_of s) →
  wp (in_world m) Q E s.
Proof. unfold wp, in_world. by destruct (m (world_of s)) as [[?|?] ?]. Qed.

(** Preempting a request in flight: it gives its blocks back and goes to the
    front of the waiting queue. *)
Lemma preempt_spec v queue s :
  SInv s0 adm (queue ++ [v]) s →
  wp (preempt v ;; on_step (λ st, st <| preempted ::= λ l, l ++ [v] |>))
    (λ _ s', SInv s0 adm queue s' ∧ last_admitted s' = last_admitted s ∧
       budget (step_of s') = budget (step_of s)) no_raise s.
Proof.
  intros Hs. unfold preempt. wp_step. wp_step. wp_step. wp_step.
  set (s1 := s <| inflight_prefills ::= _ |>).
  assert (SInv s0 adm (queue ++ [v]) s1) as Hs1 by (by destruct Hs; split).
  apply wp_in_world.
  eapply wp_mono; [apply law_release; [exact (si_ok _ _ _ _ Hs1)|]| |done].
  { apply (sinv_known _ _ _ Hs1). set_solver. }
  intros _ w' (Hok & Ht & Hfree & Hrest). cbv beta. unfold edit, on_step. wp_steps.
  assert (SInv s0 adm (queue ++ [v]) (s1 <| world_of := w' |>)) as Hs2.
  { apply sinv_world; try done; intros x; destruct (Hrest x) as (? & ? & ?); auto. }
  assert (SInv s0 adm (queue ++ [v]) (s1 <| world_of := w' |>
    <| world_of ::= put_request v prepare_recompute |>)) as Hs3.
  { apply sinv_edit; try done. set_solver. }
  assert (SInv s0 adm (queue ++ [v]) (s1 <| world_of := w' |>
    <| world_of ::= put_request v prepare_recompute |>
    <| world_of ::= put_request v (λ q, q <| status := WAITING |>) |>)) as Hs4.
  { apply sinv_edit; try done. set_solver. }
  destruct (law_put v prepare_recompute w' Hok) as (Hok3 & _ & Hr3); [done|].
  destruct (law_put v (λ q, q <| status := WAITING |>) _ Hok3) as (_ & _ & Hr4); [done|].
  match goal with |- SInv s0 adm queue ?x ∧ _ => set (s5 := x) end. split; [|done].
  destruct Hs4. split; try done.
  - change (running s ++ queue ++ v :: waiting s = by_arrival s0 ++ waiting s0).
    rewrite <- si_order0. change (running s ++ queue ++ v :: waiting s =
      running s ++ (queue ++ [v]) ++ waiting s). by rewrite <- !app_assoc.
  - change (v :: waiting s = reverse (preempted (step_of s) ++ [v]) ++
      drop (length adm) (waiting s0)).
    rewrite reverse_snoc. cbn [app]. f_equal. exact si_waiting0.
  - unfold s5. cbn. intros r [->|Hr]%elem_of_cons; [|by apply si_free0].
    by rewrite (proj1 (Hr4 v)), (proj1 (Hr3 v)).
Qed.

(** ** Token arithmetic without speculation *)

Lemma query_tokens_uniform q n : query_tokens_for cfg q n = n.
Proof. unfold query_tokens_for, query_room. by rewrite Hmtp, Hlimit, orb_true_r. Qed.

Lemma budget_cost_uniform q n : budget_cost cfg q n = n.
Proof. unfold budget_cost. rewrite query_tokens_uniform. by destruct (negb _). Qed.

Lemma waiting_query_uniform q n m b l c p : waiting_query_tokens cfg q n m b l c p = m.
Proof. unfold waiting_query_tokens. by rewrite Hmtp. Qed.

(** [_step_tokens] stays within the budget and is positive when there is any. *)
Lemma step_tokens_spec r b (s : sched W) :
  0 <= effective_long_prefill_threshold s → (∀ x, b = Some x → 0 <= x) →
  wp (step_tokens_for cfg r b)
    (λ n s', s' = s ∧ 0 <= n ∧ (∀ x, b = Some x → n <= x) ∧
       ((∀ x, b = Some x → 0 < x) → 1 <= n)) no_raise s.
Proof.
  intros Ht Hb. unfold step_tokens_for, decode_output_tokens, get_req. rewrite Hlimit, Hmtp.
  do 2 wp_step. destruct (is_context_build _); cbn [negb].
  - do 3 wp_step. unfold id, query_room. rewrite Hlimit. cbn [fmap option_fmap option_map min_room].
    set (rem := Z.max 1 _). set (lim := if effective_long_prefill_threshold s =? 0 then _ else _).
    assert (1 <= lim) as Hl.
    { unfold lim. destruct (Z.eqb_spec (effective_long_prefill_threshold s) 0); lia. }
    split; [done|]. destruct b as [x|]; cbn [min_room].
    + specialize (Hb x eq_refl). split; [lia|]. split; [intros ? [= <-]; lia|].
      intros Hpos. specialize (Hpos x eq_refl). lia.
    + split; [lia|]. split; [done|]. lia.
  - set (rem := Z.max 1 _). destruct (Z.eqb_spec rem 0); [lia|]. wp_steps.
    assert (Z.min 1 rem = 1) as -> by lia. unfold query_room. rewrite Hlimit, query_tokens_uniform.
    cbn [fmap option_fmap option_map min_room]. split; [done|]. destruct b as [x|]; cbn [fits];
      [|split; [lia|]; split; [done|lia]].
    specialize (Hb x eq_refl). destruct (Z.leb_spec 1 x).
    + split; [lia|]. split; [intros ? [= <-]; lia|]. lia.
    + split; [lia|]. split; [intros ? [= <-]; lia|]. intros Hpos. specialize (Hpos x eq_refl). lia.
Qed.

(** ** Running requests *)

(** A victim is preempted and recorded, then the loop goes on. *)
Lemma preempt_then {A} v queue s (k : M (sched W) A) Q E :
  SInv s0 adm (queue ++ [v]) s →
  (∀ s', SInv s0 adm queue s' → last_admitted s' = last_admitted s →
     budget (step_of s') = budget (step_of s) → wp k Q E s') →
  wp (preempt v ;; on_step (λ st, st <| preempted ::= λ l, l ++ [v] |>) ;; k) Q E s.
Proof.
  intros Hs Hk. wp_step.
  eapply wp_mono; [exact (proj1 (wp_bind _ _ _ _ _) (preempt_spec v queue s Hs))| |done].
  intros [] s1 Hon. cbv beta. wp_step. eapply wp_mono; [exact Hon| |done].
  intros _ s2 (Hs2 & H1 & H2). cbv beta. by apply Hk.
Qed.

Lemma reserve_loop_spec r rqueue s :
  SInv s0 adm (r :: reverse rqueue) s →
  wp (reserve_loop (bm_can_append_slot r) (bm_append_slot r) r rqueue)
    (λ res s', SInv s0 adm (if res.1 then r :: reverse res.2 else reverse res.2) s' ∧
       (length res.2 <= length rqueue)%nat ∧ last_admitted s' = last_admitted s ∧
       budget (step_of s') = budget (step_of s)) no_raise s.
Proof.
  revert s. induction rqueue as [|v rqueue IH]; intros s Hs; cbn [reserve_loop]; wp_step;
    apply wp_in_world;
    (eapply wp_mono; [apply law_append_slot;
       [exact (si_ok _ _ _ _ Hs)|apply (sinv_known _ _ _ Hs); set_solver]| |done]);
    intros b w1 [-> Hgrow]; cbv beta;
    (assert (s <| world_of := world_of s |> = s) as -> by (by destruct s)); destruct b.
  1, 3: specialize (Hgrow eq_refl); wp_step; apply wp_in_world;
    (eapply wp_mono; [exact Hgrow| |done]);
    intros _ w' (Hok & Ht & Hrest); cbv beta; wp_step; cbn [fst snd]; (split; [|done]);
    pose proof (sinv_nodup _ _ Hs) as Hnd;
    (apply sinv_world; try done; try (intros x; by destruct (Hrest x) as (? & ? & ?)));
    intros x Hx; destruct (Hrest x) as (_ & Hh & _); apply Hh; intros ->;
    apply NoDup_app in Hnd as (_ & _ & Hnd); apply NoDup_app in Hnd as (_ & Hnd & _);
    (apply (Hnd r); [set_solver|done]).
  - eapply (preempt_then r []); [exact Hs|]. intros s' Hs' H1 H2. wp_step. by rewrite H1, H2.
  - eapply (preempt_then v (r :: reverse rqueue)).
    { rewrite reverse_cons in Hs. exact Hs. }
    intros s' Hs' H1 H2. eapply wp_mono; [by apply IH| |done].
    intros res s2 (? & Hlen & ? & ?). split; [done|]. split; [cbn; lia|]. split; congruence.
Qed.

(** A request in flight gets its tokens and its place among the running. *)
Lemma sinv_place r tokens queue s s2 :
  SInv s0 adm (r :: queue) s → 1 <= tokens →
  (∀ b, budget (step_of s) = Some b → tokens <= b) →
  world_of s2 = world_of s → waiting s2 = waiting s → loaded_waiting s2 = loaded_waiting s →
  last_admitted s2 = last_admitted s →
  effective_long_prefill_threshold s2 = effective_long_prefill_threshold s →
  running s2 = running s ++ [r] →
  scheduled (step_of s2) = scheduled (step_of s) ++ [r] →
  preempted (step_of s2) = preempted (step_of s) →
  budget (step_of s2) = (λ b, b - tokens) <$> budget (step_of s) →
  scheduled_tokens (request s r) = tokens → scheduled_query_tokens (request s r) = tokens →
  SInv s0 adm queue s2.
Proof.
  intros Hs Ht Hb E1 E2 E3 E4 E5 E6 E7 E8 E9 Htok Hq.
  assert (r ∉ scheduled (step_of s)) as Hun by (eapply sinv_unscheduled; [done|set_solver]).
  assert (∀ x, request s2 x = request s x) as Ereq by (intros x; unfold request; by rewrite E1).
  destruct Hs. split; rewrite ?E1, ?E2, ?E3, ?E4, ?E5, ?E6, ?E7, ?E8, ?E9; try done.
  - rewrite <- si_order0. by rewrite <- app_assoc.
  - intros x. rewrite !elem_of_app. intros [Hx|Hx]; [left; auto|by right].
  - apply NoDup_app. split; [done|]. split; [|apply NoDup_singleton]. set_solver.
  - rewrite si_budget0, <- option_fmap_compose.
    rewrite (total_queries_ext s s2) by (intros x _; by rewrite Ereq).
    rewrite total_queries_app, total_queries_one, Hq.
    destruct (max_num_batched_tokens cfg); cbn; [|done]. f_equal. lia.
  - intros b. rewrite fmap_Some. intros (b' & Hb' & ->). specialize (Hb b' Hb'). lia.
  - intros x. rewrite elem_of_app, Ereq. intros [Hx|Hx%list_elem_of_singleton]; [auto|].
    subst x. lia.
  - intros x. rewrite Ereq. apply si_arrival0.
Qed.

Lemma assign_running_spec r tokens queue s :
  SInv s0 adm (r :: queue) s → 1 <= tokens →
  (∀ b, budget (step_of s) = Some b → tokens <= b) →
  wp (assign_running cfg r tokens tokens)
    (λ _ s', SInv s0 adm queue s' ∧ last_admitted s' = last_admitted s) no_raise s.
Proof.
  intros Hs Ht Hb. unfold assign_running, edit, on_step, get_req. wp_steps.
  match goal with |- SInv s0 adm queue (?x <| step_of ::= ?f |> <| step_of ::= ?g |> <| running ::= ?h |>) ∧ _ =>
    set (s1 := x); set (f1 := f); set (s2 := s1 <| step_of ::= f1 |> <| step_of ::= g |> <| running ::= h |>) end.
  split; [|done].
  set (e1 := λ q : Request, q <| scheduled_tokens := tokens |> <| scheduled_query_tokens := tokens |>).
  set (e2 := λ q : Request, q <| prefill_chunk_pending := num_computed_tokens q + tokens <? context_len q |>).
  assert (SInv s0 adm (r :: queue) (s <| world_of ::= put_request r e1 |>)) as Hs1.
  { apply sinv_edit; try done. set_solver. }
  assert (SInv s0 adm (r :: queue) s1) as Hs2.
  { apply (sinv_edit (r :: queue) (s <| world_of ::= put_request r e1 |> <| step_of ::= _ |>) r e2);
      try done; [|set_solver]. destruct Hs1. by split. }
  assert (request s1 r = e2 (e1 (request s r))) as Hr.
  { unfold s1. rewrite request_edit, decide_True by done. cbn. f_equal.
    unfold request. cbn. rewrite law_get_put. by rewrite decide_True. }
  apply (sinv_place r tokens queue s1); try done.
  - unfold s2, f1. cbn. rewrite budget_cost_uniform. done.
  - by rewrite Hr.
  - by rewrite Hr.
Qed.

(** A request that gets nothing this step keeps its place. *)
Lemma sinv_keep r queue s :
  SInv s0 adm (r :: queue) s → SInv s0 adm queue (s <| running ::= λ l, l ++ [r] |>).
Proof.
  intros []. split; try done.
  - cbn. rewrite <- si_order0. by rewrite <- app_assoc.
  - cbn. intros x Hx. apply elem_of_app. left. auto.
Qed.

Lemma run_one_spec r queue s :
  SInv s0 adm (r :: queue) s →
  wp (run_one cfg r queue) (λ queue' s', SInv s0 adm queue' s' ∧
    (length queue' <= length queue)%nat ∧ last_admitted s' = last_admitted s) no_raise s.
Proof.
  intros Hs. unfold run_one. do 2 wp_step. unfold id.
  match goal with |- wp (if ?c then _ else _) _ _ _ => destruct c end.
  { wp_step. eapply wp_mono; [by apply sinv_bump| |done].
    intros _ s1 (Hs1 & _ & _ & _ & _ & Hl). cbv beta. do 3 wp_step. split; [by apply sinv_keep|].
    split; [done|exact Hl]. }
  wp_step. eapply wp_mono; [apply (step_tokens_spec r _ s (si_threshold _ _ _ _ Hs))| |done].
  { intros x Hx. by eapply si_budget_nonneg. }
  intros tokens s1 (-> & Hnn & Hle & _). cbv beta.
  destruct (Z.eqb_spec tokens 0) as [_|Hnz].
  { do 3 wp_step. split; [by apply sinv_keep|]. done. }
  unfold get_req. do 3 wp_step. rewrite query_tokens_uniform.
  match goal with |- wp ?m _ _ _ => assert (wp m (λ res s', SInv s0 adm (if res.1 then r :: res.2 else res.2) s' ∧
       (length res.2 <= length queue)%nat ∧ last_admitted s' = last_admitted s ∧
       budget (step_of s') = budget (step_of s)) no_raise s) as Hres end.
  { destruct (negb _); [|by wp_step]. unfold reserve_decode_slot. rewrite Hgrouped. wp_step.
    eapply wp_mono; [apply reserve_loop_spec| |done].
    - by rewrite reverse_involutive.
    - intros [ok rq] s1 (Hs1 & Hlen & Hl & Hb). cbv beta. wp_step. cbn [fst snd] in *.
      rewrite length_reverse in *. split; [|done].
      by destruct ok. }
  eapply wp_mono; [exact Hres| |done]. intros [ok queue'] s1 (Hs1 & Hlen & Hl & Hb). cbv beta.
  cbn [fst snd] in *. destruct ok; cbn [negb]; [|by wp_step].
  do 2 wp_step. rewrite Hgrouped, andb_false_r. do 2 wp_step. cbn [negb]. wp_step.
  eapply wp_mono; [apply assign_running_spec; [exact Hs1|lia|]| |done].
  - intros b Hbb. rewrite Hb in Hbb. by apply Hle.
  - intros _ s2 [Hs2 Hl2]. cbv beta. wp_step. split; [done|]. split; [done|]. congruence.
Qed.

Lemma run_loop_spec fuel queue s :
  SInv s0 adm queue s → (length queue <= fuel)%nat →
  wp (run_loop cfg fuel queue) (λ _ s', SInv s0 adm [] s' ∧ last_admitted s' = last_admitted s)
    no_raise s.
Proof.
  revert queue s. induction fuel as [|fuel IH]; intros [|r queue] s Hs Hlen; cbn [run_loop];
    try (by wp_step); [cbn in Hlen; lia|].
  wp_step. eapply wp_mono; [by apply run_one_spec| |done].
  intros queue' s1 (Hs1 & Hlen1 & Hl1). cbv beta.
  eapply wp_mono; [apply IH; [done|cbn in Hlen; lia]| |done].
  intros _ s2 [? ?]. split; [done|congruence].
Qed.

(** The state a step starts in, before any request is placed. *)
Lemma sinv_start s :
  world_of s = world_of s0 → running s = running s0 → waiting s = waiting s0 →
  loaded_waiting s = loaded_waiting s0 → last_admitted s = [] →
  step_of s = mkStep (max_num_batched_tokens cfg) [] [] false [] →
  0 <= effective_long_prefill_threshold s →
  (∀ b, max_num_batched_tokens cfg = Some b → 0 <= b) →
  adm = [] → ∀ queue, queue = by_arrival s0 → SInv s0 adm queue (s <| running := [] |>).
Proof.
  intros E1 E2 E3 E4 E5 E6 Ht Hb -> queue Hq. destruct HR.
  split; cbn; rewrite ?E1, ?E3, ?E4, ?E5, ?E6; cbn; try done;
    try (by intros r ?%elem_of_nil); try (by apply NoDup_nil).
  - by rewrite Hq.
  - destruct (max_num_batched_tokens cfg); cbn; [|done]. f_equal. lia.
Qed.

End Step.

Lemma schedule_running_spec s0 s :
  Ready s0 →
  world_of s = world_of s0 → running s = running s0 → waiting s = waiting s0 →
  loaded_waiting s = loaded_waiting s0 → last_admitted s = [] →
  step_of s = mkStep (max_num_batched_tokens cfg) [] [] false [] →
  0 <= effective_long_prefill_threshold s →
  (∀ b, max_num_batched_tokens cfg = Some b → 0 <= b) →
  wp (schedule_running cfg) (λ _ s', SInv s0 [] [] s' ∧ last_admitted s' = []) no_raise s.
Proof.
  intros HR E1 E2 E3 E4 E5 E6 Ht Hb. unfold schedule_running, sorted_running. do 3 wp_step. unfold id.
  assert (existsb (λ r, negb (bool_decide (is_Some (arrival_at (request s r))))) (running s) = false)
    as Hex.
  { apply not_true_iff_false. rewrite existsb_exists. intros (r & Hr & Hn).
    apply list_elem_of_In in Hr. rewrite E2 in Hr.
    assert (r ∈ running s0 ++ waiting s0) as Hr' by set_solver. apply (rd_arrival _ HR) in Hr'.
    unfold request in *. rewrite E1 in Hn. by rewrite bool_decide_true in Hn. }
  rewrite Hex, andb_false_r. do 3 wp_step.
  eapply wp_mono; [apply (run_loop_spec s0 [] HR); [apply (sinv_start s0 [] HR); try done|done]| |done].
  - unfold by_arrival, request. by rewrite E1, E2.
  - intros _ s' [? Hl]. split; [done|]. rewrite Hl. exact E5.
Qed.
(** ** Admission *)

Section Admission.
Variable s0 : sched W.
Hypothesis HR : Ready s0.

(** Only the world changed. *)
Definition world_only (s s' : sched W) : Prop := s' = s <| world_of := world_of s' |>.

(** Write the request that is being admitted. *)
Lemma admit_edit adm r f s :
  SInv s0 adm [r] s → ¬ holds (world_of s) r → benign f → (∀ q, arrival_at (f q) = arrival_at q) →
  let s' := s <| world_of ::= put_request r f |> in
  SInv s0 adm [r] s' ∧ ¬ holds (world_of s') r ∧
  (admissible (world_of s) r → admissible (world_of s') r) ∧ world_only s s' ∧
  request s' r = f (request s r).
Proof.
  intros Hs Hh Hf Ha s'. destruct (law_put r f _ (si_ok _ _ _ _ Hs) Hf) as (_ & _ & Hrest).
  split; [eapply sinv_edit; try done; set_solver|].
  split; [change (¬ holds (put_request r f (world_of s)) r); by rewrite (proj1 (Hrest r))|].
  split; [exact (proj2 (proj2 (Hrest r)))|]. split; [done|].
  unfold s'. by rewrite request_edit, decide_True.
Qed.

Lemma wp_admit_edit {A} adm r f (k : M (sched W) A) Q E s :
  SInv s0 adm [r] s → ¬ holds (world_of s) r → benign f → (∀ q, arrival_at (f q) = arrival_at q) →
  (∀ s', SInv s0 adm [r] s' → ¬ holds (world_of s') r →
     (admissible (world_of s) r → admissible (world_of s') r) → world_only s s' →
     request s' r = f (request s r) → wp k Q E s') →
  wp (edit r f ;; k) Q E s.
Proof.
  intros Hs Hh Hf Ha Hk. unfold edit. do 2 wp_step.
  destruct (admit_edit adm r f s Hs Hh Hf Ha) as (? & ? & ? & ? & ?). by apply Hk.
Qed.

Lemma world_only_trans s s1 s2 : world_only s s1 → world_only s1 s2 → world_only s s2.
Proof. unfold world_only. intros -> ->. done. Qed.

Lemma admit_sync_spec adm r p s :
  SInv s0 adm [r] s → ¬ holds (world_of s) r → admissible (world_of s) r →
  wp (admit_sync r p) (λ _ s', SInv s0 adm [r] s' ∧ world_only s s' ∧
    status (request s' r) = RUNNING) no_raise s.
Proof.
  intros Hs Hh Hadm. unfold admit_sync.
  apply (wp_admit_edit adm); [done..|]. intros s1 Hs1 Hh1 Ha1 Hw1 _. specialize (Ha1 Hadm).
  wp_step. apply wp_in_world.
  eapply wp_mono; [apply law_matched; exact (si_ok _ _ _ _ Hs1)| |done].
  intros ext w2 (Hok2 & Ht2 & Hr2). cbv beta.
  assert (SInv s0 adm [r] (s1 <| world_of := w2 |>)) as Hs2.
  { apply sinv_world; try done; intros x; destruct (Hr2 x) as (? & ? & ? & ?); tauto. }
  assert (¬ holds (world_of (s1 <| world_of := w2 |>)) r) as Hh2
    by (cbn; by rewrite (proj1 (proj2 (Hr2 r)))).
  assert (admissible (world_of (s1 <| world_of := w2 |>)) r) as Ha2 by (by apply Hr2).
  assert (world_only s (s1 <| world_of := w2 |>)) as Hw2 by (by eapply world_only_trans).
  generalize dependent (s1 <| world_of := w2 |>). intros s2 Hs2 Hh2 Ha2 Hw2.
  apply (wp_admit_edit adm); [done|done|by intros q; destruct (needs_recompute q)
    |by intros q; destruct (needs_recompute q)|].
  intros s3 Hs3 Hh3 Ha3 Hw3 _. specialize (Ha3 Ha2).
  apply (world_only_trans _ _ _ Hw2) in Hw3. wp_step. apply wp_in_world.
  eapply wp_mono; [apply law_allocate; [exact (si_ok _ _ _ _ Hs3)| |done|done]| |done].
  { apply (sinv_known s0 adm HR [r] s3 r Hs3). set_solver. }
  intros _ w4 (Hok4 & Ht4 & Hr4). cbv beta. wp_step. apply wp_in_world.
  assert (SInv s0 adm [r] (s3 <| world_of := w4 |>)) as Hs4.
  { pose proof (sinv_nodup s0 adm HR _ _ Hs3) as Hnd.
    apply sinv_world; try done; intros x; destruct (Hr4 x) as (? & Hx4 & ?); try done.
    intros Hx. apply Hx4. intros ->. apply NoDup_app in Hnd as (_ & _ & Hnd).
    apply NoDup_app in Hnd as (_ & Hnd & _). apply (Hnd r); [set_solver|done]. }
  eapply wp_mono; [apply law_after_alloc; exact (si_ok _ _ _ _ Hs4)| |done].
  intros _ w5 (Hok5 & Ht5 & Hr5). cbv beta.
  assert (SInv s0 adm [r] (s3 <| world_of := w4 |> <| world_of := w5 |>)) as Hs5.
  { apply sinv_world; try done; intros x; destruct (Hr5 x) as (? & ? & ?); tauto. }
  unfold edit. do 5 wp_step. rewrite Hgrouped. cbn [when]. wp_step.
  split; [|split].
  - apply (sinv_edit s0 adm HR [r]); [|set_solver|done|done].
    apply (sinv_edit s0 adm HR [r]); [exact Hs5|set_solver|done|done].
  - eapply world_only_trans; [exact Hw3|done].
  - by rewrite request_edit, decide_True.
Qed.

(** Taking the head of the waiting queue. *)
Lemma sinv_pop adm r rest s :
  SInv s0 adm [] s → preempted (step_of s) = [] → waiting s = r :: rest →
  SInv s0 (adm ++ [r]) [r] (s <| waiting ::= tail |>) ∧ ¬ holds (world_of s) r.
Proof.
  intros [] Hpre Hw. rewrite Hpre, Hw in si_waiting0. cbn [reverse app] in si_waiting0.
  change (r :: rest = drop (length adm) (waiting s0)) in si_waiting0.
  split; [|by apply si_free0; rewrite Hw; set_solver].
  assert (waiting s0 = (adm ++ [r]) ++ rest) as Hw0.
  { rewrite <- app_assoc. change ([r] ++ rest) with (r :: rest).
    rewrite si_waiting0. rewrite si_admitted0 at 1. by rewrite take_drop. }
  split; try done; cbn [waiting step_of running update_field world_of tail].
  - rewrite Hw. cbn [tail]. rewrite <- si_order0, Hw. done.
  - by rewrite Hw0, take_app_length.
  - rewrite Hw, Hpre. cbn [tail]. by rewrite Hw0, drop_app_length.
  - intros x Hx. apply si_free0. rewrite Hw in Hx |- *. set_solver.
Qed.

Lemma admit_spec adm r s :
  SInv s0 adm [r] s → ¬ holds (world_of s) r → admissible (world_of s) r →
  wp (admit_request r None) (λ _ s', SInv s0 adm [r] s' ∧ world_only s s' ∧
    status (request s' r) = RUNNING) no_raise s.
Proof.
  intros Hs Hh Ha. unfold admit_request. rewrite Hasync. wp_step. apply wp_in_world.
  eapply wp_mono; [apply law_plan; [exact (si_ok _ _ _ _ Hs)|]| |done].
  { apply (sinv_known s0 adm HR [r] s r Hs). set_solver. }
  intros p w1 (Hok1 & Ht1 & Hr1). cbv beta.
  eapply wp_mono; [apply (admit_sync_spec adm)| |done].
  - apply sinv_world; try done; intros x; destruct (Hr1 x) as (? & ? & ? & ?); tauto.
  - cbn. by rewrite (proj1 (proj2 (Hr1 r))).
  - by apply Hr1.
  - intros _ s' (? & Hw & ?). split; [done|]. split; [|done]. eapply world_only_trans; [|exact Hw]. done.
Qed.

(** The admitted request gets its tokens and its place among the running. *)
Lemma assign_waiting_spec adm r tokens s :
  SInv s0 adm [r] s → 1 <= tokens → (∀ b, budget (step_of s) = Some b → tokens <= b) →
  wp (assign_waiting r tokens tokens)
    (λ _ s', SInv s0 adm [] s' ∧ last_admitted s' = last_admitted s ∧
       preempted (step_of s') = preempted (step_of s) ∧ running s' = running s ++ [r] ∧
       waiting s' = waiting s) no_raise s.
Proof.
  intros Hs Ht Hb. unfold assign_waiting, edit, on_step. wp_steps.
  match goal with |- SInv s0 adm [] (?x <| step_of ::= ?f |> <| step_of ::= ?g |> <| running ::= ?h |>) ∧ _ =>
    set (s1 := x) end.
  split; [|done].
  assert (SInv s0 adm [r] s1) as Hs1.
  { apply (sinv_edit s0 adm HR [r]); [|set_solver|done|done].
    apply (sinv_edit s0 adm HR [r]); [|set_solver|done|done].
    apply (sinv_edit s0 adm HR [r]); [exact Hs|set_solver|done|done]. }
  assert (scheduled_tokens (request s1 r) = tokens ∧ scheduled_query_tokens (request s1 r) = tokens)
    as [Hq1 Hq2].
  { unfold s1. rewrite !request_edit. by rewrite !decide_True. }
  by apply (sinv_place s0 adm HR r tokens [] s1).
Qed.

Lemma waiting_tokens_spec adm r s :
  SInv s0 adm [r] s → (∀ b, budget (step_of s) = Some b → 0 < b) →
  wp (waiting_tokens cfg r) (λ res s', s' = s ∧ res.2 = res.1 ∧ 1 <= res.1 ∧
    ∀ b, budget (step_of s) = Some b → res.1 <= b) no_raise s.
Proof.
  intros Hs Hb. unfold waiting_tokens, get_req. do 3 wp_step. unfold id.
  eapply wp_mono; [apply (step_tokens_spec r _ s (si_threshold _ _ _ _ Hs))| |done].
  { intros x Hx. by eapply si_budget_nonneg. }
  intros tokens s1 (-> & _ & Hle & Hpos). cbv beta. do 3 wp_step.
  rewrite waiting_query_uniform, query_tokens_uniform. cbn [fst snd]. auto.
Qed.

(** Everything but the manager's state, the statistics and the deferral counters
    is as before. *)
Definition same_lists (s s' : sched W) : Prop :=
  running s' = running s ∧ waiting s' = waiting s ∧ last_admitted s' = last_admitted s ∧
  step_of s' = step_of s.

Lemma deferred_gate_spec adm r rest s :
  SInv s0 adm [] s → waiting s = r :: rest →
  wp (deferred_gate r None) (λ _ s', SInv s0 adm [] s' ∧ same_lists s s') no_raise s.
Proof.
  intros Hs Hw. unfold deferred_gate, get_req. do 2 wp_step.
  destruct (defer_prefills s); [|by wp_step].
  wp_step. apply wp_in_world.
  eapply wp_mono; [apply law_plan; [exact (si_ok _ _ _ _ Hs)|]| |done].
  { apply (si_known _ _ _ _ Hs), (rd_known _ HR). rewrite <- (si_perm s0 adm _ _ Hs), Hw. set_solver. }
  intros p w1 (Hok1 & Ht1 & Hr1). cbv beta.
  assert (SInv s0 adm [] (s <| world_of := w1 |>)) as Hs1.
  { apply sinv_world; try done; intros x; destruct (Hr1 x) as (? & ? & ? & ?); tauto. }
  do 2 wp_step. destruct (1 <? _); [|by wp_step]. wp_step.
  eapply wp_mono; [by apply (sinv_bump s0 adm)| |done].
  intros _ s2 (Hs2 & E1 & E2 & E3 & E4 & E5). cbv beta. by wp_step.
Qed.

Lemma allocation_gate_spec adm r rest s :
  SInv s0 adm [] s → waiting s = r :: rest →
  wp (allocation_gate cfg r None None) (λ b s', SInv s0 adm [] s' ∧ same_lists s s' ∧
    (b = true → admissible (world_of s') r)) no_raise s.
Proof.
  intros Hs Hw. unfold allocation_gate. rewrite Hgrouped. apply wp_in_world.
  eapply wp_mono; [apply law_can_allocate; [exact (si_ok _ _ _ _ Hs)|]| |done].
  { apply (si_known _ _ _ _ Hs), (rd_known _ HR). rewrite <- (si_perm s0 adm _ _ Hs), Hw. set_solver. }
  intros b w1 (Hok1 & Ht1 & Ha & Hr1). cbv beta.
  split; [|split; [done|exact Ha]].
  apply sinv_world; try done; intros x; destruct (Hr1 x) as (? & ? & ?); tauto.
Qed.

(** Between two admissions. *)
Record AInv (s : sched W) : Prop := {
  ai_inv : SInv s0 (last_admitted s) [] s;
  ai_none : preempted (step_of s) = [];
  ai_seqs m : max_num_seqs cfg = Some m →
    Z.of_nat (length (running s)) <= Z.max (Z.of_nat (length (running s0))) m;
}.

Lemma ainv_same s s' : AInv s → SInv s0 (last_admitted s) [] s' → same_lists s s' → AInv s'.
Proof.
  intros [? Hn Hm] Hs (E1 & E2 & E3 & E4). split; [by rewrite E3|by rewrite E4|by rewrite E1].
Qed.

Lemma ainv_bump s key n : AInv s → wp (bump key n) (λ _ s', AInv s') no_raise s.
Proof.
  intros Ha. eapply wp_mono; [apply (sinv_bump s0), (ai_inv _ Ha)| |done].
  intros _ s' (Hs & ? & ? & ? & ? & ?). by eapply ainv_same.
Qed.

(** One admission: either nothing changes, or the head of the queue runs. *)
Lemma admit_waiting_spec r rest s :
  AInv s → waiting s = r :: rest → (∀ b, budget (step_of s) = Some b → 0 < b) →
  (∀ m, max_num_seqs cfg = Some m → Z.of_nat (length (running s)) < m) →
  wp (admit_waiting cfg r) (λ b s', AInv s' ∧
    if b then waiting s' = rest ∧ last_admitted s' = last_admitted s ++ [r]
    else waiting s' = waiting s ∧ last_admitted s' = last_admitted s) no_raise s.
Proof.
  intros Ha Hw Hb Hm. unfold admit_waiting, probe_external, padded_gate, ensure_admitted, get_req.
  rewrite Hasync, Hgrouped. do 3 wp_step.
  eapply wp_mono; [apply (deferred_gate_spec (last_admitted s) r rest);
    [exact (ai_inv _ Ha)|done]| |done].
  intros go s1 [Hs1 Hl1]. cbv beta. pose proof (ainv_same _ _ Ha Hs1 Hl1) as Ha1.
  destruct Hl1 as (E1 & E2 & E3 & E4).
  destruct go; cbn [negb andb]; [|by wp_step]. do 2 wp_step. cbn [negb]. wp_step.
  eapply wp_mono; [apply (allocation_gate_spec (last_admitted s) r rest); [done|congruence]| |done].
  intros fit s2 (Hs2 & Hl2 & Hadm). cbv beta. destruct Hl2 as (F1 & F2 & F3 & F4).
  assert (AInv s2) as Ha2 by (eapply (ainv_same s1); [done|by rewrite E3|done]).
  destruct fit; cbn [negb].
  2: { wp_step. eapply wp_mono; [apply (sinv_bump s0 (last_admitted s)); exact Hs2| |done].
       intros _ s3 (Hs3 & G1 & G2 & G3 & G4 & G5). cbv beta. wp_step.
       split; [|split; congruence]. eapply ainv_same; [exact Ha2|by rewrite F3, E3|done]. }
  destruct (sinv_pop (last_admitted s) r rest s2 Hs2 (ai_none _ Ha2)) as [Hs3 Hh3]; [congruence|].
  do 4 wp_step. set (s3 := s2 <| waiting ::= tail |>) in *. wp_step.
  eapply wp_mono; [apply (admit_spec (last_admitted s ++ [r]) r s3); [done|done|by apply Hadm]| |done].
  intros _ s4 (Hs4 & Hw4 & Hst). cbv beta. do 2 wp_step.
  rewrite bool_decide_eq_false_2 by (rewrite Hst; done). wp_step.
  assert (step_of s4 = step_of s ∧ running s4 = running s ∧ waiting s4 = rest ∧
    last_admitted s4 = last_admitted s) as (G1 & G2 & G3 & G4).
  { rewrite Hw4. unfold s3. cbn. rewrite F2, E2, Hw. cbn. by rewrite F4, F1, F3, E4, E1, E3. }
  eapply wp_mono; [apply (waiting_tokens_spec (last_admitted s ++ [r])); [done|by rewrite G1]| |done].
  intros [tokens queries] s5 (-> & Hq & Hpos & Hle). cbv beta. cbn [fst snd] in Hq, Hpos, Hle. subst queries.
  destruct (Z.eqb_spec tokens 0); [lia|]. do 2 wp_step. cbn [negb]. wp_step.
  eapply wp_mono; [by apply (assign_waiting_spec (last_admitted s ++ [r]))| |done].
  intros _ s6 (Hs6 & H1 & H2 & H3 & H4). cbv beta. do 3 wp_step.
  split; [|cbn; by rewrite H1, G4, H4].
  split; cbn [last_admitted step_of running update_field].
  - rewrite H1, G4. by destruct Hs6.
  - rewrite H2, G1. apply Ha.
  - intros m Hm'. rewrite H3, G2, length_app. cbn. specialize (Hm m Hm'). lia.
Qed.

Lemma occupy_spec s :
  AInv s → wp (is_occupy_below_usage cfg) (λ _ s', s' = s) no_raise s.
Proof.
  intros Ha. unfold is_occupy_below_usage. do 2 wp_step.
  destruct (bm_gpu_status (world_of s)) as [[a b] c] eqn:E.
  destruct (Z.eqb_spec c 0) as [Hc|]; [|by wp_step].
  exfalso. apply (rd_total _ HR). rewrite <- (si_total _ _ _ _ (ai_inv _ Ha)), E. done.
Qed.

Lemma admit_loop_spec fuel s :
  AInv s → wp (admit_loop cfg fuel) (λ _ s', AInv s') no_raise s.
Proof.
  revert s. induction fuel as [|fuel IH]; intros s Ha; cbn [admit_loop]; [by wp_step|].
  do 2 wp_step. unfold id. rewrite (si_loaded _ _ _ _ (ai_inv _ Ha)).
  rewrite (bool_decide_eq_true_2 (@nil Z = [])) by done. cbn [andb].
  destruct (waiting s) as [|r rest] eqn:Hw.
  { rewrite bool_decide_eq_true_2 by done. cbn [orb]. by wp_step. }
  rewrite bool_decide_eq_false_2 by done. cbn [orb].
  match goal with |- wp (if ?c then _ else _) _ _ _ => destruct c eqn:Hbud end; [by wp_step|].
  wp_step. eapply wp_mono; [by apply occupy_spec| |done]. intros [] s1 ->; cbv beta; cbn [negb];
    [|by wp_step].
  match goal with |- wp (if ?c then _ else _) _ _ _ => destruct c eqn:Hseq end; [by apply ainv_bump|].
  wp_step. eapply wp_mono; [apply (admit_waiting_spec r rest s Ha Hw)| |done].
  - intros b Hb. rewrite Hb in Hbud. lia.
  - intros m Hm. rewrite Hm in Hseq. lia.
  - intros [] s2 [Ha2 _]; cbv beta; [by apply IH|by wp_step].
Qed.

End Admission.

(** ** One call of [schedule] *)

(** The counters of [_record_scheduled] are not read by the invariant. *)
Definition stats_only (s s' : sched W) : Prop := s' = s <| stats := stats s' |>.

Lemma stats_only_refl (s : sched W) : stats_only s s.
Proof. by destruct s. Qed.

Lemma bump_stats key n (s : sched W) : wp (bump key n) (λ _ s', stats_only s s') no_raise s.
Proof. unfold bump. by apply wp_modify. Qed.

Lemma bump_then {A} key n s s1 (k : M (sched W) A) Q :
  stats_only s s1 → (∀ s2, stats_only s s2 → wp k Q no_raise s2) →
  wp (bump key n ;; k) Q no_raise s1.
Proof.
  intros Hs1 Hk. wp_step. eapply wp_mono; [apply bump_stats| |done].
  intros [] s2 Hs2. cbv beta. apply Hk. unfold stats_only in *. by rewrite Hs2, Hs1.
Qed.

Lemma record_scheduled_spec rs (s : sched W) :
  wp (record_scheduled rs) (λ _ s', stats_only s s') no_raise s.
Proof.
  unfold record_scheduled. apply (wp_for (λ _, stats_only s)); [apply stats_only_refl|].
  intros _ r _ s1 _ Hs1. unfold get_req. do 3 wp_step.
  match goal with |- wp ?m _ _ _ => assert (wp m (λ _ s', stats_only s s') no_raise s1) as Hm end.
  { destruct (is_context_build _); (eapply bump_then; [exact Hs1|]; intros s2 Hs2);
      (eapply wp_mono; [apply bump_stats| |done]); intros [] s3 Hs3; unfold stats_only in *;
      by rewrite Hs3, Hs2. }
  eapply wp_mono; [exact Hm| |done]. intros [] s2 Hs2. cbv beta.
  eapply bump_then; [exact Hs2|]. intros s3 Hs3. eapply bump_then; [exact Hs3|]. intros s4 Hs4.
  eapply wp_mono; [apply bump_stats| |done]. intros [] s5 Hs5. unfold stats_only in *. by rewrite Hs5, Hs4.
Qed.

(** The long-prefill threshold of a step. *)
Lemma begin_step_spec throttle b (s : sched W) :
  0 <= long_prefill_token_threshold cfg →
  wp (begin_step cfg throttle b) (λ _ s', ∃ d t, 0 <= t ∧
    s' = s <| defer_prefills := d |> <| effective_long_prefill_threshold := t |>) no_raise s.
Proof.
  intros Ht. unfold begin_step. wp_steps. eexists _, _. split; [|done]. unfold id.
  destruct (1 <? _); destruct b as [b|]; cbn [negb andb]; try lia.
  - destruct (_ && _); lia.
  - destruct (_ && _); lia.
Qed.

Lemma sinv_stats s0 adm s s' : stats_only s s' → SInv s0 adm [] s → SInv s0 adm [] s'.
Proof. unfold stats_only. intros -> []. by split. Qed.

(** What a call of [schedule] achieved. *)
Record Scheduled (s0 : sched W) (res : list Z * list Z) (s : sched W) : Prop := {
  sd_inv : SInv s0 (last_admitted s) [] s;
  sd_result : res = (scheduled (step_of s), preempted (step_of s));
  sd_order : res.2 ≠ [] → last_admitted s = [];
  sd_seqs m : max_num_seqs cfg = Some m →
    Z.of_nat (length (running s)) <= Z.max (Z.of_nat (length (running s0))) m;
}.

(** Preempted and running requests are the ones that ran before. *)
Lemma sinv_running_length s0 s :
  SInv s0 [] [] s →
  (length (running s) + length (preempted (step_of s)) = length (running s0))%nat.
Proof.
  intros Hs. pose proof (Permutation_length (si_perm s0 [] _ _ Hs)) as Hl.
  rewrite (si_waiting _ _ _ _ Hs) in Hl. change (drop (length []) (waiting s0)) with (waiting s0) in Hl.
  rewrite !length_app, length_reverse in Hl. change (length (@nil Z)) with 0%nat in Hl. lia.
Qed.

(** Admission, or nothing after a preemption. *)
Lemma schedule_waiting_spec s0 s :
  Ready s0 → SInv s0 [] [] s → last_admitted s = [] →
  wp (when (bool_decide (preempted (step_of s) = [])) (schedule_waiting cfg))
    (λ _ s', SInv s0 (last_admitted s') [] s' ∧
       (preempted (step_of s') ≠ [] → last_admitted s' = []) ∧
       ∀ m, max_num_seqs cfg = Some m →
         Z.of_nat (length (running s')) <= Z.max (Z.of_nat (length (running s0))) m) no_raise s.
Proof.
  intros HR Hs Hl. pose proof (sinv_running_length s0 s Hs) as Hlen. case_bool_decide as Hp; cbn [when].
  - unfold schedule_waiting. do 2 wp_step.
    eapply wp_mono; [apply (admit_loop_spec s0 HR)| |done].
    + split; [by rewrite Hl|done|]. intros m _. lia.
    + intros _ s' [? Hn ?]. rewrite Hn. done.
  - wp_step. rewrite Hl. split; [done|]. split; [done|]. intros m _. lia.
Qed.

Lemma schedule_spec throttle s0 :
  Ready s0 → 0 <= long_prefill_token_threshold cfg →
  (∀ b, max_num_batched_tokens cfg = Some b → 0 <= b) →
  wp (schedule cfg throttle) (Scheduled s0) no_raise s0.
Proof.
  intros HR Ht Hb. unfold schedule, on_step. do 2 wp_step.
  eapply bump_then; [apply stats_only_refl|]. intros s1 Hs1. wp_step.
  eapply wp_mono; [by apply begin_step_spec| |done]. intros _ s2 (d & t & Hnn & ->). cbv beta. wp_step.
  eapply wp_mono; [apply (schedule_running_spec s0); try (rewrite Hs1; done); done| |done].
  intros _ s3 [Hs3 Hl3]. cbv beta. do 4 wp_step. unfold id.
  match goal with |- wp _ _ _ (s3 <| step_of ::= ?f |>) => set (s4 := s3 <| step_of ::= f |>) end.
  wp_step. eapply wp_mono; [apply (schedule_waiting_spec s0 s4 HR)| |done].
  { destruct Hs3. by split. } { done. }
  intros _ s5 (Hs5 & Ho5 & Hm5). cbv beta. do 2 wp_step. unfold id.
  set (P := λ s : sched W, SInv s0 (last_admitted s) [] s ∧ step_of s = step_of s5 ∧
    last_admitted s = last_admitted s5 ∧ running s = running s5).
  wp_step. eapply (wp_mono _ (λ _, P)); [|intros _ s6 (Hs6 & E1 & E2 & E3); cbv beta|done].
  { unfold when. destruct (_ && _); wp_step; [|done]. split; [by destruct Hs5|done]. }
  do 2 wp_step. unfold id.
  wp_step. eapply (wp_mono _ (λ _, P)); [|intros _ s7 (Hs7 & F1 & F2 & F3); cbv beta|done].
  { destruct (prefill_capacity_bound s6); cbn [when]; [|by wp_step].
    eapply wp_mono; [apply bump_stats| |done]. intros [] s7 Hs7. cbv beta in Hs7.
    split; [|rewrite Hs7; done]. eapply sinv_stats; [exact Hs7|]. by rewrite Hs7. }
  do 3 wp_step. unfold id. eapply wp_mono; [apply record_scheduled_spec| |done].
  intros [] s8 Hs8. cbv beta. wp_step.
  assert (step_of s8 = step_of s5 ∧ last_admitted s8 = last_admitted s5 ∧ running s8 = running s5)
    as (G1 & G2 & G3) by (rewrite Hs8; done).
  split; cbn [snd].
  - eapply sinv_stats; [exact Hs8|]. by rewrite G2, <- F2.
  - by rewrite G1, F1.
  - rewrite G2, F1. exact Ho5.
  - intros m. rewrite G3. apply Hm5.
Qed.

End SchedulerSpec.
