(* ===== verification/UniformScheduler.v ===== *)
(** * The paged scheduler over the uniform block manager

    [BlockManager] with one block width and a connector that stores nothing
    ([TokenSim/kv_transfer/connectors/noop.py], [base.py]) implement the
    interfaces of the scheduler and satisfy [KVLaws]; the scheduling theorems
    follow for them. *)

From stdpp Require Import gmap list strings.
From Stdlib Require Import ZArith Lia.
From S2P Require Import Prelude.
From S2P Require Import PyFloat.
From S2P Require Import Block.
From S2P Require Import FreeQueue.
From S2P Require Import PrefixKeys.
From S2P Require Import Request.
From S2P Require Import Acceptance.
From S2P Require Import World.
From S2P Require Import BlockPool.
From S2P Require Import KVCacheManager.
From S2P Require Import BlockManager.
From S2P Require Import BlockInv.
From S2P Require Import Allocator.
From S2P Require Import ManagerSpec.
From S2P Require Import ManagerSteps.
From S2P Require Import ManagerTheorems.
From S2P Require Import SchedulerState.
From S2P Require Import Scheduler.
From S2P Require Import SchedulerSpec.

Open Scope Z_scope.

Section Uniform.
Context `{Digest, Blake2b}.

(** [BlockManager]: [grouped_cache] is false and the methods of the hybrid
    managers do not exist. *)
#[global] Instance uniform_manager : BlockManagerOps world := {|
  get_request := req;
  put_request r f w := (set_req r f w).2;
  grouped_cache := false;
  bm_block_size := w_block_size;
  bm_watermark_blocks := w_watermark_blocks;
  bm_num_free_blocks := get_num_free_blocks GPU;
  bm_gpu_status := get_status GPU;
  bm_block_numbers w r := (λ b, block_number (blk w b)) <$> get_blocks r w;
  plan := PrefixReusePlan;
  plan_hit_tokens := hit_tokens;
  plan_input_keys p := SharedKey <$> input_keys p;
  kv_plan_reuse := plan_reuse;
  bm_plan_reuse _ := raise AttributeError;
  external := Empty_set;
  external_tokens e := match e with end;
  external_loads e := match e with end;
  bm_can_allocate r reserve :=
    match reserve with None => can_allocate r | Some _ => raise TypeError end;
  bm_can_allocate_external _ _ _ _ _ := raise AttributeError;
  bm_allocate := allocate;
  bm_can_append_slot r := gets (can_append_slot r 0);
  bm_append_slot := append_slot;
  bm_can_ensure_slots _ _ _ := raise AttributeError;
  bm_ensure_slots _ _ _ := raise AttributeError;
  bm_remaining_admission_slots _ := raise AttributeError;
  bm_release_request_blocks := release_request_blocks;
  bm_free := free_request;
  bm_commit_input_cache := commit_input_cache;
  bm_cache_computed _ := raise AttributeError;
|}.

(** [NoopConnector] *)
#[global] Instance noop_connector : ConnectorOps world := {|
  async_offload := false;
  on_new_request _ := mret tt;
  probe _ _ := raise AttributeError;
  begin_load _ _ := raise AttributeError;
  discard_load _ := mret tt;
  get_num_new_matched_tokens _ _ := mret 0;
  update_state_after_alloc _ _ := mret tt;
  request_finished _ _ := mret false;
  on_request_released _ := mret tt;
  conn_update_output _ := mret tt;
|}.

(** ** The laws *)

Definition uniform_ok (w : world) : Prop :=
  Consistent w ∧ 0 <= w_watermark_blocks w ∧ 0 < w_block_size w.

Definition uniform_holds (w : world) (r : Z) : Prop := get_blocks r w ≠ [].

Definition uniform_known (w : world) (r : Z) : Prop :=
  req_block_size (req w r) = w_block_size w ∧
  0 <= prefill_len (req w r) <= logical_tokens (req w r).

Definition uniform_admissible (w : world) (r : Z) : Prop :=
  zero_ref_hit_blocks (ref_plan w r) w + Z.max 0 (miss_block_count (ref_plan w r))
    <= get_num_free_blocks GPU w.

(** The plan depends on the request's [kv_view] only. *)
Lemma ref_plan_view w w' r :
  kv_view (req w' r) = kv_view (req w r) → w_heap w' = w_heap w → w_cache w' = w_cache w →
  w_block_size w' = w_block_size w → w_model w' = w_model w →
  ref_plan w' r = ref_plan w r.
Proof.
  unfold kv_view. intros [= E1 E2 E3 E4 E5 E6 E7] Hh Hc Hb Hm.
  assert (plan_keys w' r = plan_keys w r) as Hk.
  { unfold plan_keys, request_keys. by rewrite E2, E3, E4, E5, Hb, Hm. }
  assert (∀ keys, hit_loop w' keys = hit_loop w keys) as Hl.
  { induction keys as [|k keys IH]; [done|]. cbn [hit_loop]. rewrite IH, Hc.
    unfold is_gpu_hit, blk. by rewrite Hh. }
  unfold ref_plan, num_logical_token_blocks. by rewrite Hk, Hl, E2, E5, E6, E7, Hb.
Qed.

Lemma admissible_same w w' r :
  kv_view (req w' r) = kv_view (req w r) → w_heap w' = w_heap w → w_cache w' = w_cache w →
  w_block_size w' = w_block_size w → w_model w' = w_model w →
  get_num_free_blocks GPU w' = get_num_free_blocks GPU w →
  uniform_admissible w r → uniform_admissible w' r.
Proof.
  intros Hv Hh Hc Hb Hm Hf. unfold uniform_admissible. rewrite (ref_plan_view w w') by done.
  rewrite Hf. unfold zero_ref_hit_blocks, blk. by rewrite Hh.
Qed.

(** A step of the manager that keeps every request's scheduling data. *)
Record manager_frame (w w' : world) : Prop := {
  mf_ok : uniform_ok w';
  mf_total : (get_status GPU w').2 = (get_status GPU w).2;
  mf_sched x : sched_view (req w' x) = sched_view (req w x);
  mf_known x : uniform_known w x → uniform_known w' x;
}.

(** Every operation of the manager is such a step when it keeps the requests'
    fields, the tables apart. *)
Lemma manager_frame_intro w w' :
  uniform_ok w → Consistent w' → stable w w' →
  (∀ x, sched_view (req w' x) = sched_view (req w x) ∧
     req_block_size (req w' x) = req_block_size (req w x) ∧
     prefill_len (req w' x) = prefill_len (req w x) ∧
     logical_tokens (req w' x) = logical_tokens (req w x)) →
  manager_frame w w'.
Proof.
  intros (_ & Hwm & Hbs) Hc' Hst Hr. split.
  - split; [done|]. by rewrite (s_watermark _ _ Hst), (s_block_size _ _ Hst).
  - exact (s_num_blocks _ _ Hst GPU).
  - intros x. apply Hr.
  - intros x [H1 H2]. destruct (Hr x) as (_ & E1 & E2 & E3). unfold uniform_known.
    by rewrite E1, E2, E3, (s_block_size _ _ Hst).
Qed.

Lemma manager_frame_insert w w' r f :
  uniform_ok w → Consistent w' → stable w w' → w_reqs w' = <[r := f (req w r)]> (w_reqs w) →
  (∀ q, sched_view (f q) = sched_view q ∧ req_block_size (f q) = req_block_size q ∧
     prefill_len (f q) = prefill_len q ∧ logical_tokens (f q) = logical_tokens q) →
  manager_frame w w'.
Proof.
  intros Hok Hc' Hst Hq Hf. apply manager_frame_intro; try done. intros x.
  unfold req at 1 3 5 7. rewrite Hq. destruct (decide (r = x)) as [->|Hne].
  - rewrite lookup_total_insert_eq. apply Hf.
  - by rewrite lookup_total_insert_ne.
Qed.

Lemma uniform_plan r w :
  uniform_ok w →
  wp (plan_reuse r) (λ _ w', manager_frame w w' ∧
    ∀ x, (uniform_holds w' x ↔ uniform_holds w x) ∧
      (uniform_admissible w x → uniform_admissible w' x)) no_raise w.
Proof.
  intros Hok. pose proof Hok as ([Hinv Hs] & _ & Hbs).
  eapply wp_mono; [by apply plan_reuse_spec| |].
  - intros p w' (_ & Hinv' & Hw & _).
    destruct (same_but_keys_consistent _ _ _ _ Hw Hinv') as (_ & Eq & Et & _ & Ec & Eh & Ef & Hs').
    split.
    + apply manager_frame_intro; [done|by split; auto|by apply same_but_keys_stable|].
      intros x. unfold req. by rewrite Eq.
    + intros x. unfold uniform_holds, get_blocks. rewrite Et. split; [done|].
      apply admissible_same; try done; by rewrite Hw.
  - intros e w' (_ & _ & Hz). lia.
Qed.

Lemma uniform_can_allocate r w :
  uniform_ok w → uniform_known w r →
  wp (can_allocate r) (λ b w', manager_frame w w' ∧ (b = true → uniform_admissible w' r) ∧
    ∀ x, uniform_holds w' x ↔ uniform_holds w x) no_raise w.
Proof.
  intros Hok [Hrb Hlog]. pose proof Hok as (Hc & Hwm & Hbs).
  pose proof (miss_block_count_nonneg w r Hbs Hrb Hlog) as Hmiss.
  eapply wp_mono; [by apply can_allocate_spec| |].
  - intros b w' (Hc' & Hst & Hw & _ & Hb).
    destruct (same_but_keys_consistent _ _ _ _ Hw (proj1 Hc')) as (_ & Eq & Et & _ & Ec & Eh & Ef & _).
    split; [|split].
    + apply manager_frame_intro; try done. intros x. unfold req. by rewrite Eq.
    + intros Htrue. unfold uniform_admissible. rewrite (same_but_keys_plan w w'), Ef by done.
      rewrite Hb in Htrue. apply Z.leb_le in Htrue.
      assert (zero_ref_hit_blocks (ref_plan w r) w' = zero_ref_hit_blocks (ref_plan w r) w) as ->.
      { unfold zero_ref_hit_blocks, blk. by rewrite Eh. }
      lia.
    + intros x. unfold uniform_holds, get_blocks. by rewrite Et.
  - intros e w' (_ & _ & Hz). lia.
Qed.

Lemma uniform_allocate r w :
  uniform_ok w → ¬ uniform_holds w r → uniform_admissible w r →
  wp (allocate r) (λ _ w', manager_frame w w' ∧
    ∀ x, x ≠ r → uniform_holds w' x → uniform_holds w x) no_raise w.
Proof.
  intros Hok Hh Ha. pose proof Hok as (Hc & _ & Hbs).
  eapply wp_mono; [by apply allocate_spec| |].
  - intros _ w' (Hc' & Hst & _ & _ & news & _ & _ & _ & _ & Ht & Hq). split.
    + by eapply manager_frame_insert.
    + intros x Hx. unfold uniform_holds, get_blocks. by rewrite Ht, lookup_insert_ne.
  - intros e w' (_ & [[_ Hbad]|[[_ Hbad]|[_ Hbad]]]).
    + exact (Hh Hbad).
    + lia.
    + unfold uniform_admissible in Ha. lia.
Qed.

Lemma uniform_append_slot r w :
  uniform_ok w → can_append_slot r 0 w = true →
  wp (append_slot r) (λ _ w', manager_frame w w' ∧
    ∀ x, x ≠ r → uniform_holds w' x → uniform_holds w x) no_raise w.
Proof.
  intros Hok Hcan. pose proof Hok as (Hc & _ & Hbs).
  eapply wp_mono; [by apply append_slot_spec| |].
  - intros _ w' (Hc' & Hst & Hn). destruct (needs_slot r w).
    + destruct Hn as (b & _ & _ & Ht & _ & Hq). split.
      * by eapply (manager_frame_insert w w' r (λ q, q <| physical_token_blocks ::= λ l, l ++ [b] |>)).
      * intros x Hx. unfold uniform_holds, get_blocks. by rewrite Ht, lookup_insert_ne.
    + subst w'. split; [|done]. by apply manager_frame_intro.
  - intros e w' (_ & _ & Hn & Hf). unfold can_append_slot in Hcan. rewrite Hn, Hf in Hcan. done.
Qed.

Lemma uniform_release r w :
  uniform_ok w →
  wp (release_request_blocks r) (λ _ w', manager_frame w w' ∧ ¬ uniform_holds w' r ∧
    ∀ x, uniform_holds w' x → uniform_holds w x) no_raise w.
Proof.
  intros Hok. pose proof Hok as (Hc & _ & _).
  eapply wp_mono; [by apply release_request_blocks_spec| |done].
  intros _ w' (Hc' & Hst & Ht & _ & Hq). split; [|split].
  - by eapply (manager_frame_insert w w' r (λ q, q <| physical_token_blocks := [] |>)).
  - unfold uniform_holds, get_blocks. rewrite Ht, lookup_delete_eq. intros Hn. by apply Hn.
  - intros x. unfold uniform_holds, get_blocks. rewrite Ht. destruct (decide (r = x)) as [->|Hne].
    + rewrite lookup_delete_eq. intros Hn. by destruct Hn.
    + by rewrite lookup_delete_ne.
Qed.

Lemma uniform_put r f w :
  uniform_ok w → benign f →
  let w' := (set_req r f w).2 in
  uniform_ok w' ∧
  ∀ x, (uniform_holds w' x ↔ uniform_holds w x) ∧ (uniform_known w x → uniform_known w' x) ∧
    (uniform_admissible w x → uniform_admissible w' x).
Proof.
  intros ([Hinv Hs] & Hwm & Hbs) Hf w'.
  assert (∀ x, kv_view (req w' x) = kv_view (req w x)) as Hv.
  { intros x. unfold w', set_req, modify. cbn [snd]. rewrite req_set. case_decide; [subst; apply Hf|done]. }
  split; [split; [split|done]|].
  - apply inv_set_req; [|done]. intros q. specialize (Hf q). unfold kv_view in Hf. by simplify_eq.
  - intros x. specialize (Hv x). unfold kv_view in Hv.
    injection Hv as E _ _ _ _ _ _. rewrite E. apply Hs.
  - intros x. split; [done|]. split; [|by apply admissible_same].
    specialize (Hv x). unfold kv_view in Hv. injection Hv as _ _ _ _ E5 E6 E7.
    unfold uniform_known. by rewrite E5, E6, E7.
Qed.

#[global] Program Instance uniform_laws : KVLaws world := {|
  kv_ok := uniform_ok;
  holds := uniform_holds;
  known := uniform_known;
  admissible := uniform_admissible;
|}.
Next Obligation. intros r r' f w. cbn. apply req_set. Qed.
Next Obligation.
  intros r f w Hok Hf. destruct (uniform_put r f w Hok Hf) as [? Hr]. by split.
Qed.
Next Obligation.
  intros r w Hok _. eapply wp_mono; [by apply uniform_plan| |done].
  intros _ w' ([? ? Hs Hk] & Hr). split; [done|]. split; [done|]. intros x.
  destruct (Hr x). split; [apply Hs|]. split; [done|]. split; [apply Hk|done].
Qed.
Next Obligation.
  intros r w Hok Hkn. eapply wp_mono; [by apply uniform_can_allocate| |done].
  intros b w' ([? ? Hs Hk] & Ha & Hr). split; [done|]. split; [done|]. split; [done|]. intros x.
  split; [apply Hs|]. split; [apply Hr|apply Hk].
Qed.
Next Obligation.
  intros r w Hok _ Hh Ha. eapply wp_mono; [by apply uniform_allocate| |done].
  intros _ w' ([? ? Hs Hk] & Hr). split; [done|]. split; [done|]. intros x.
  split; [apply Hs|]. split; [apply Hr|apply Hk].
Qed.
Next Obligation.
  intros r w Hok _. cbn. wp_step. split; [done|]. intros Hcan.
  eapply wp_mono; [by apply uniform_append_slot| |done].
  intros _ w' ([? ? Hs Hk] & Hr). split; [done|]. split; [done|]. intros x.
  split; [apply Hs|]. split; [apply Hr|apply Hk].
Qed.
Next Obligation.
  intros r w Hok _. eapply wp_mono; [by apply uniform_release| |done].
  intros _ w' ([? ? Hs Hk] & Hh & Hr). split; [done|]. split; [done|]. split; [done|]. intros x.
  split; [apply Hs|]. split; [apply Hr|apply Hk].
Qed.
Next Obligation. intros r n w Hok. cbn. by wp_step. Qed.
Next Obligation. intros r n w Hok. cbn. by wp_step. Qed.

(** ** Scheduling *)

(** A configuration the constructor accepts for a cache without a hybrid layout. *)
Definition uniform_config (cfg : SchedulerConfig) : Prop :=
  ∃ a, arg_layout a = None ∧ new_config a = Ok cfg.

(** Such a scheduler has no speculation and no context limit, and its budget is
    positive. *)
Lemma uniform_config_spec cfg :
  uniform_config cfg →
  mtp_enabled cfg = false ∧ cfg_max_model_len cfg = None ∧
  0 <= long_prefill_token_threshold cfg ∧
  ∀ b, max_num_batched_tokens cfg = Some b → 1 <= b.
Proof.
  intros (a & Hl & Hc). unfold new_config in Hc. rewrite Hl in Hc.
  change (negb (0 =? 0)) with false in Hc. rewrite andb_true_r in Hc.
  set (enabled := default false (arg_mtp_enabled a)) in Hc.
  destruct (match arg_max_num_batched_tokens a with Some n => n <? 1 | None => false end) eqn:Hb; [done|].
  destruct (Z.ltb_spec (arg_long_prefill_token_threshold a) 0); [done|].
  destruct (_ || _); [done|]. destruct (negb _); [done|]. destruct enabled; [done|].
  destruct (negb _); [done|]. injection Hc as <-. cbn. split; [done|]. split; [done|].
  split; [done|]. intros b Hb'. rewrite Hb' in Hb. lia.
Qed.

Section Schedule.
Variable cfg : SchedulerConfig.
Hypothesis Hcfg : uniform_config cfg.

Lemma schedule_returns throttle s0 :
  Ready (W := world) s0 →
  ∃ sch pre s, schedule cfg throttle s0 = (Ok (sch, pre), s) ∧ Scheduled cfg s0 (sch, pre) s.
Proof.
  intros HR. destruct (uniform_config_spec cfg Hcfg) as (Hmtp & Hlimit & Hthreshold & Hbudget).
  pose proof (schedule_spec (W := world) cfg) as Hspec.
  specialize (Hspec eq_refl eq_refl Hmtp Hlimit throttle s0 HR Hthreshold).
  specialize (Hspec ltac:(intros b Hb; specialize (Hbudget b Hb); lia)).
  apply wp_ok_inv in Hspec as ([sch pre] & s & Heq & Hs).
  by exists sch, pre, s.
Qed.

(** The state after a step satisfies the precondition of the next. *)
Lemma scheduled_ready s0 res s : Ready s0 → Scheduled cfg s0 res s → Ready s.
Proof.
  intros HR [Hs _ _ _]. pose proof (si_perm cfg s0 _ _ _ Hs) as Hp. cbn [app] in Hp.
  destruct Hs. split; try done.
  - intros r. rewrite Hp. intros Hr. by apply si_known, (rd_known _ HR).
  - rewrite Hp. apply HR.
  - intros r. rewrite Hp, si_arrival. apply HR.
  - rewrite si_total. apply HR.
Qed.

(** C4 (bounds).  A scheduling step never raises, gives every scheduled request at
    least one token, schedules no request twice and only running ones, and its
    query tokens stay within [max_num_batched_tokens]. *)
Theorem schedule_within_budget throttle s0 :
  Ready (W := world) s0 →
  ∃ sch pre s, schedule cfg throttle s0 = (Ok (sch, pre), s) ∧
    NoDup sch ∧ (∀ r, r ∈ sch → r ∈ running s ∧ 1 <= scheduled_tokens (request s r)) ∧
    (∀ b, max_num_batched_tokens cfg = Some b → total_queries s sch <= b) ∧
    Consistent (world_of s).
Proof.
  intros HR. destruct (schedule_returns throttle s0 HR) as (sch & pre & s & Heq & [Hs Hres _ _]).
  injection Hres as -> ->. exists (scheduled (step_of s)), (preempted (step_of s)), s.
  split; [done|]. destruct Hs. split; [done|]. split; [|split].
  - intros r Hr. split; [auto|]. by apply si_tokens.
  - intros b Hb. rewrite Hb in si_budget. cbn in si_budget.
    specialize (si_budget_nonneg _ si_budget). lia.
  - apply si_ok.
Qed.


(** Admission respects [max_num_seqs]: a step never leaves more
    running requests than the limit, unless more were running before. *)
Theorem schedule_max_num_seqs throttle s0 m :
  Ready (W := world) s0 → max_num_seqs cfg = Some m →
  ∃ res s, schedule cfg throttle s0 = (Ok res, s) ∧
    Z.of_nat (length (running s)) <= Z.max (Z.of_nat (length (running s0))) m.
Proof.
  intros HR Hm. destruct (schedule_returns throttle s0 HR) as (sch & pre & s & Heq & [_ _ _ Hseq]).
  exists (sch, pre), s. eauto.
Qed.

End Schedule.
End Uniform.
