(* ===== verification/SchedulerLife.v ===== *)
(** * The life of the paged scheduler

    Requests are added, scheduled, executed, finished and cancelled.  Whatever the
    order of these calls, no call of [schedule], [update] or [cancel_request]
    raises, and the block accounting stays exact. *)

From stdpp Require Import gmap list strings.
From Stdlib Require Import ZArith Lia.
From S2P Require Import Prelude.
From S2P Require Import PyFloat.
From S2P Require Import Block.
From S2P Require Import FreeQueue.
From S2P Require Import PrefixKeys.
From S2P Require Import Request.
From S2P Require Import Acceptance.
From S2P Require Import World.
From S2P Require Import BlockPool.
From S2P Require Import KVCacheManager.
From S2P Require Import BlockManager.
From S2P Require Import BlockInv.
From S2P Require Import ManagerSpec.
From S2P Require Import ManagerSteps.
From S2P Require Import ManagerTheorems.
From S2P Require Import SchedulerState.
From S2P Require Import Scheduler.
From S2P Require Import SchedulerSpec.
From S2P Require Import UniformScheduler.

Open Scope Z_scope.

Section Life.
Context `{Digest, Blake2b}.

(** Steps that give no blocks to any request. *)
Record quiet (w w' : world) : Prop := {
  q_frame : manager_frame w w';
  q_holds x : uniform_holds w' x → uniform_holds w x;
}.

Lemma quiet_refl w : uniform_ok w → quiet w w.
Proof. intros Hok. split; [|done]. apply manager_frame_intro; try done. apply Hok. Qed.

Lemma quiet_trans w1 w2 w3 : quiet w1 w2 → quiet w2 w3 → quiet w1 w3.
Proof.
  intros [[] H1] [[] H2]. split; [split; try done|auto].
  - congruence.
  - intros x. by rewrite mf_sched0.
  - auto.
Qed.

Lemma quiet_put r f w :
  uniform_ok w → benign f → (∀ q, sched_view (f q) = sched_view q) → quiet w (set_req r f w).2.
Proof.
  intros Hok Hf Hs. destruct (uniform_put r f w Hok Hf) as [Hok' Hr].
  split; [split; try done|].
  - intros x. unfold set_req, modify. cbn [snd]. rewrite req_set. case_decide; [subst; apply Hs|done].
  - intros x. apply Hr.
  - intros x. by rewrite (proj1 (Hr x)).
Qed.

Lemma quiet_commit r w :
  uniform_ok w → wp (commit_input_cache r) (λ _ w', quiet w w') no_raise w.
Proof.
  intros Hok. pose proof Hok as (Hc & _ & _).
  eapply wp_mono; [by apply commit_input_cache_spec| |done].
  intros _ w' (Hc' & Hst & Ht & _ & Hq & _). split.
  - apply manager_frame_intro; try done. intros x. rewrite Hq. case_decide; [by subst|done].
  - intros x. unfold uniform_holds, get_blocks. by rewrite Ht.
Qed.

Lemma quiet_free r w :
  uniform_ok w →
  wp (free_request r) (λ _ w', quiet w w' ∧ get_blocks r w' = []) no_raise w.
Proof.
  intros Hok. pose proof Hok as (Hc & _ & Hbs).
  eapply wp_mono; [by apply free_request_spec| |].
  - intros _ w' (Hc' & Hst & Ht & _ & Hq). split; [split|].
    + apply manager_frame_intro; try done. intros x. rewrite Hq. case_decide; [by subst|done].
    + intros x. unfold uniform_holds, get_blocks. rewrite Ht.
      destruct (decide (r = x)) as [->|]; [|by rewrite lookup_delete_ne].
      rewrite lookup_delete_eq. intros Hn. by destruct Hn.
    + unfold get_blocks. by rewrite Ht, lookup_delete_eq.
  - intros e w' (_ & _ & _ & _ & Hz). lia.
Qed.

Lemma quiet_release r w :
  uniform_ok w →
  wp (release_request_blocks r) (λ _ w', quiet w w' ∧ get_blocks r w' = []) no_raise w.
Proof.
  intros Hok. eapply wp_mono; [by apply uniform_release| |done].
  intros _ w' (? & Hh & ?). split; [by split|].
  destruct (get_blocks r w') eqn:Hg; [done|]. exfalso. apply Hh. unfold uniform_holds. by rewrite Hg.
Qed.

(** ** Scheduler states that differ by a quiet step *)

Record calm (s s' : sched world) : Prop := {
  cm_world : quiet (world_of s) (world_of s');
  cm_running : running s' = running s;
  cm_waiting : waiting s' = waiting s;
  cm_loaded : loaded_waiting s' = loaded_waiting s;
}.

Lemma calm_trans s1 s2 s3 : calm s1 s2 → calm s2 s3 → calm s1 s3.
Proof. intros [] []. split; [by eapply quiet_trans|congruence..]. Qed.

Lemma calm_ok s s' : calm s s' → uniform_ok (world_of s').
Proof. intros [[[]] _ _ _]. done. Qed.

Lemma calm_refl s : uniform_ok (world_of s) → calm s s.
Proof. intros Hok. split; [by apply quiet_refl|done..]. Qed.

(** A step of the manager inside the scheduler. *)
Lemma calm_world s s1 w' : calm s s1 → quiet (world_of s1) w' → calm s (s1 <| world_of := w' |>).
Proof. intros Hc Hq. apply (calm_trans _ _ _ Hc). by split. Qed.

Lemma calm_edit r f s s1 :
  calm s s1 → benign f → (∀ q, sched_view (f q) = sched_view q) →
  calm s (s1 <| world_of ::= put_request r f |>).
Proof.
  intros Hc Hf Hs. apply (calm_trans _ _ _ Hc). split; try done. apply (quiet_put r f); try done.
  by eapply calm_ok.
Qed.

(** A calm step that drops requests from the queues. *)
Lemma ready_calm s s1 s' :
  Ready s → calm s s1 → world_of s' = world_of s1 →
  sublist (running s') (running s1) → sublist (waiting s') (waiting s1) →
  sublist (loaded_waiting s') (loaded_waiting s1) → Ready s'.
Proof.
  intros HR [Hq Er Ew El] Eworld Hr Hw Hl. rewrite Er in Hr. rewrite Ew in Hw. rewrite El in Hl.
  assert (∀ r, r ∈ running s' ++ waiting s' → r ∈ running s ++ waiting s) as Hin.
  { intros r. apply elem_of_sublist. by apply sublist_app. }
  destruct Hq as [[Hok Ht Hs Hk] Hh]. destruct HR.
  split; unfold request; rewrite ?Eworld; try done.
  - intros r Hr'. by apply Hk, rd_known, Hin.
  - eapply sublist_NoDup; [exact rd_nodup|by apply sublist_app].
  - intros r Hr' Hhold. eapply rd_free; [by eapply elem_of_sublist|]. by apply Hh.
  - rewrite rd_loaded in Hl. by apply sublist_nil_r in Hl.
  - intros r Hr'. specialize (rd_arrival r (Hin r Hr')). unfold request in *.
    pose proof (Hs r) as Hv. apply sched_view_fields in Hv as (_ & _ & E). cbn. by rewrite E.
  - change ((get_status GPU (world_of s1)).2 ≠ 0). by rewrite Ht.
Qed.
(** ** Finishing requests *)

(** Finished requests hold no blocks. *)
Lemma free_finished_spec r s s1 :
  calm s s1 →
  wp (free_finished r) (λ _ s2, calm s s2 ∧ get_blocks r (world_of s2) = []) no_raise s1.
Proof.
  intros Hc. unfold free_finished. do 4 wp_step. wp_step. apply wp_in_world. cbn [request_finished noop_connector].
  wp_step. wp_step. apply wp_in_world.
  set (s2 := s1 <| inflight_prefills ::= _ |>).
  assert (calm s s2) as Hc2 by (apply (calm_trans _ _ _ Hc); split; [exact (quiet_refl _ (calm_ok _ _ Hc))|done..]).
  eapply wp_mono; [apply quiet_free; exact (calm_ok _ _ Hc2)| |done].
  intros _ w' [Hq Hg]. cbv beta. unfold edit. wp_steps. split; [|exact Hg].
  apply calm_edit; [|done|done]. exact (calm_world _ _ _ Hc2 Hq).
Qed.

(** [base_update]: the done ones among [rs] are freed, in order. *)
Lemma free_done_spec rs s s1 :
  calm s s1 →
  wp (for_ rs (λ r, q ← get_req r; when (is_done q) (free_finished r))) (λ _ s2, calm s s2) no_raise s1.
Proof.
  intros Hc. apply (wp_for (λ _, calm s)); [done|]. intros _ r _ s2 _ Hc2.
  unfold get_req. do 2 wp_step. destruct (is_done _); cbn [when]; [|by wp_step].
  eapply wp_mono; [by apply free_finished_spec| |done]. by intros [] s3 [? _].
Qed.

Lemma update_spec rs s :
  Ready s → wp (update rs) (λ res s', Ready s' ∧ res = running s' ∧
    (∀ r, r ∈ running s' → r ∈ running s ∧ is_done (request s' r) = false) ∧
    waiting s' = waiting s) no_raise s.
Proof.
  intros HR. unfold update. wp_step.
  eapply wp_mono.
  - apply (wp_for (λ _, calm s)); [by apply calm_refl, HR|]. intros _ r _ s1 _ Hc1.
    unfold get_req. do 3 wp_step.
    eapply (wp_mono _ (λ _, calm s)); [| |done].
    { destruct (negb _); cbn [when]; wp_step; [|done].
      apply (calm_trans _ _ _ Hc1). split; [exact (quiet_refl _ (calm_ok _ _ Hc1))|done..]. }
    intros _ s2 Hc2. cbv beta. destruct (0 <? _); cbn [when]; [|by wp_step]. apply wp_in_world.
    eapply wp_mono; [apply quiet_commit; by eapply calm_ok| |done].
    intros [] w' Hq. by apply calm_world.
  - intros [] s1 Hc1. cbv beta. unfold base_update. wp_step.
    eapply wp_mono; [by apply free_done_spec| |done]. intros [] s2 Hc2. cbv beta. wp_steps.
    split; [|split; [done|split]].
    + eapply (ready_calm s s2); try done. cbn. apply sublist_filter.
    + cbn. intros r [Hd Hr]%list_elem_of_filter. split; [|done]. by rewrite <- (cm_running _ _ Hc2).
    + exact (cm_waiting _ _ Hc2).
  - done.
Qed.

(** ** Cancellation *)

Lemma cancel_spec r s :
  Ready s → wp (cancel_request r) (λ ok s', Ready s' ∧ ok = true ∧
    (r ∉ running s' ++ waiting s') ∧ get_blocks r (world_of s') = []) no_raise s.
Proof.
  intros HR. unfold cancel_request. do 2 wp_step.
  match goal with |- wp _ _ _ ?x => set (s1 := x) end.
  assert (r ∉ running s1 ++ waiting s1) as Hout.
  { unfold s1. cbn. rewrite elem_of_app, !list_elem_of_filter. naive_solver. }
  assert (Ready s1) as HR1.
  { eapply (ready_calm s s); try done; [by apply calm_refl, HR|..]; apply sublist_filter. }
  clearbody s1. wp_step. wp_step. wp_step. apply wp_in_world. cbn [request_finished noop_connector]. wp_step.
  assert (s1 <| world_of := world_of s1 |> = s1) as -> by (by destruct s1). cbn [negb when]. wp_step.
  eapply (wp_mono _ (λ _ s2, Ready s2 ∧ (r ∉ running s2 ++ waiting s2) ∧ get_blocks r (world_of s2) = []));
    [| |done].
  - wp_step. cbn [bm_block_numbers uniform_manager grouped_cache].
    eapply (wp_mono _ (λ _ s2, calm s1 s2 ∧ get_blocks r (world_of s2) = [])); [| |done].
    + case_bool_decide as Hb; cbn [negb orb when].
      * wp_step. split; [by apply calm_refl, HR1|]. by apply fmap_nil_inv in Hb.
      * apply wp_in_world. eapply wp_mono; [apply quiet_release, HR1| |done].
        intros _ w' [Hq Hg]. split; [|done]. apply calm_world; [by apply calm_refl, HR1|done].
    + intros _ s2 [Hc2 Hg]. cbv beta. apply wp_in_world. cbn [on_request_released noop_connector]. wp_step.
      assert (s2 <| world_of := world_of s2 |> = s2) as -> by (by destruct s2).
      split; [by eapply (ready_calm s1 s2)|]. by rewrite (cm_running _ _ Hc2), (cm_waiting _ _ Hc2).
  - intros _ s2 (HR2 & Ho & Hg). cbv beta. wp_step. split; [done|]. split; [|done].
    cbn [bm_block_numbers uniform_manager]. by rewrite Hg.
Qed.
(** ** Execution *)

(** What the worker leaves alone when it runs a step of a request. *)
Definition fixed (q : Request) :=
  (physical_token_blocks q, hash_ids q, cache_salt q, reuse_group q, prefill_len q,
   req_block_size q).

Lemma fixed_fields q q' :
  fixed q' = fixed q →
  physical_token_blocks q' = physical_token_blocks q ∧ prefill_len q' = prefill_len q ∧
  req_block_size q' = req_block_size q ∧
  hash_ids q' = hash_ids q ∧ cache_salt q' = cache_salt q ∧ reuse_group q' = reuse_group q.
Proof. unfold fixed. by intros [= ? ? ? ? ? ?]. Qed.

(** A request may have arrived and may have grown. *)
Definition progress (q q' : Request) : Prop :=
  fixed q' = fixed q ∧ (is_Some (arrival_at q) → is_Some (arrival_at q')) ∧
  logical_tokens q <= logical_tokens q'.

Lemma progress_trans q1 q2 q3 : progress q1 q2 → progress q2 q3 → progress q1 q3.
Proof.
  intros (H1 & H2 & H3) (H4 & H5 & H6). split; [congruence|]. split; [auto|lia].
Qed.

Lemma progress_step now lat batch n q : progress q (step now lat batch n q).2.
Proof.
  unfold step. destruct (cancel_requested q); [done|]. cbn zeta.
  set (k := clipped_output n q). set (q1 := append_tokens k _).
  assert (progress q q1) as Hq1.
  { unfold q1, append_tokens. destruct (Z.gtb_spec k 0); [|done]. split; [done|]. split; [done|]. cbn. lia. }
  assert (progress q1 (complete now (book_step now lat batch q1)).2) as Hq2.
  { generalize q1. clear. intros q. unfold complete, book_step. cbn zeta.
    destruct (_ =? 1), (is_done _); try done; destruct (length_capped _); done. }
  by eapply progress_trans.
Qed.

Lemma progress_advance now lat batch q : progress q (advance now lat batch q).2.
Proof.
  unfold advance. destruct (cancel_requested q); [done|]. cbn zeta. destruct (_ <? _).
  - cbn [snd]. unfold book_chunk. by destruct (needs_recompute _).
  - destruct (needs_recompute _); (eapply progress_trans; [|apply progress_step]); done.
Qed.

Lemma progress_arrive now q : progress q (arrive now q).
Proof. unfold arrive. by destruct (cancel_requested q). Qed.

Lemma progress_ready r f s :
  Ready s → (∀ q, progress q (f q)) → Ready (s <| world_of ::= put_request r f |>).
Proof.
  intros HR Hf. pose proof (rd_ok _ HR) as ([Hinv Hs] & Hwm & Hbs). destruct HR.
  set (w' := (set_req r f (world_of s)).2).
  assert (∀ x, progress (req (world_of s) x) (req w' x)) as Hv.
  { intros x. unfold w', set_req, modify. cbn [snd]. rewrite req_set.
    case_decide; [subst; auto|done]. }
  split; try done.
  - split; [split|done].
    + apply inv_set_req; [|done]. intros q. destruct (Hf q) as [Hq _]. by apply fixed_fields.
    + intros x. destruct (Hv x) as [(E & _)%fixed_fields _]. etransitivity; [exact E|apply Hs].
  - intros x Hx. destruct (rd_known x Hx) as [H1 H2].
    destruct (Hv x) as ((_ & E1 & E2 & _)%fixed_fields & _ & Hle).
    split; [etransitivity; [exact E2|exact H1]|].
    change (0 <= prefill_len (req w' x) <= logical_tokens (req w' x)). rewrite E1. lia.
  - intros x Hx. destruct (Hv x) as (_ & Ha & _). by apply Ha, rd_arrival.
Qed.

(** ** Arrivals *)

Section Steps.
Variable cfg : SchedulerConfig.
Hypothesis Hcfg : uniform_config cfg.

(** New requests are well formed, have arrived and hold no blocks. *)
Definition fresh_request (s : sched world) (r : Z) : Prop :=
  uniform_known (world_of s) r ∧ get_blocks r (world_of s) = [] ∧
  is_Some (arrival_at (request s r)) ∧ r ∉ running s ++ waiting s.

Lemma add_requests_spec rs s :
  Ready s → NoDup rs → (∀ r, r ∈ rs → fresh_request s r) →
  wp (add_requests cfg rs) (λ _ s', Ready s' ∧
    s' = s <| waiting ::= λ l, l ++ filter (λ r, cancel_requested (request s r) = false) rs |>) no_raise s.
Proof.
  intros HR Hnd Hfresh. destruct (uniform_config_spec cfg Hcfg) as (_ & Hlimit & _).
  unfold add_requests. rewrite Hlimit. do 2 wp_step.
  unfold base_add_requests. do 3 wp_step. unfold id.
  set (new := filter _ rs).
  assert (∀ r, r ∈ new → fresh_request s r) as Hnew.
  { intros r [_ Hr]%list_elem_of_filter. by apply Hfresh. }
  assert (NoDup new) as Hndn by (by apply NoDup_filter). clearbody new.
  eapply wp_mono; [apply (wp_for (λ _ s', s' = s)); [done|]| |done].
  { intros _ r _ s' _ ->. apply wp_in_world. cbn. wp_step. by destruct s. }
  intros _ s1 ->. cbv beta. wp_step. split; [|done]. destruct HR.
  assert (∀ r, r ∈ running s ++ waiting s ++ new → r ∈ running s ++ waiting s ∨ fresh_request s r)
    as Hcase by set_solver.
  split; try done; cbn [running waiting update_field].
  - intros r [Hr|Hr]%Hcase; [by apply rd_known|apply Hr].
  - rewrite app_assoc. apply NoDup_app. split; [done|]. split; [|done].
    intros r Hr Hr'. by apply (Hnew r Hr').
  - intros r [Hr|Hr]%elem_of_app; [by apply rd_free|]. intros Hh. by apply Hh, Hnew.
  - intros r [Hr|Hr]%Hcase; [by apply rd_arrival|apply Hr].
Qed.

(** ** All calls, in any order *)

Inductive life_step : sched world → sched world → Prop :=
  | life_arrive r now s : life_step s (s <| world_of ::= put_request r (arrive now) |>)
  | life_add rs s :
      NoDup rs → (∀ r, r ∈ rs → fresh_request s r) → life_step s (add_requests cfg rs s).2
  | life_schedule throttle s : life_step s (schedule cfg throttle s).2
  | life_execute r now lat batch s :
      life_step s (s <| world_of ::= put_request r (λ q, (advance now lat batch q).2) |>)
  | life_update rs s : life_step s (update rs s).2
  | life_cancel r s : life_step s (cancel_request r s).2.

Lemma wp_no_raise_state {A} (m : M (sched world) A) (P : sched world → Prop) s :
  wp m (λ _, P) no_raise s → P (m s).2.
Proof. unfold wp. by destruct (m s) as [[?|?] ?]. Qed.

Lemma life_step_ready s s' : life_step s s' → Ready s → Ready s'.
Proof.
  destruct 1 as [r now s|rs s Hnd Hfresh|throttle s|r now lat batch s|rs s|r s]; intros HR.
  - apply progress_ready; [done|apply progress_arrive].
  - apply wp_no_raise_state. eapply wp_mono; [by apply add_requests_spec|by intros ? ? [? _]|done].
  - destruct (schedule_returns cfg Hcfg throttle s HR) as (sch & pre & s' & -> & Hs).
    exact (scheduled_ready cfg s _ s' HR Hs).
  - apply progress_ready; [done|]. intros q. apply progress_advance.
  - apply wp_no_raise_state. eapply wp_mono; [by apply update_spec|by intros ? ? [? _]|done].
  - apply wp_no_raise_state. eapply wp_mono; [by apply cancel_spec|by intros ? ? [? _]|done].
Qed.

Lemma life_steps_ready s s' : rtc life_step s s' → Ready s → Ready s'.
Proof. induction 1 as [|s1 s2 s3 Hs _ IH]; [done|]. intros HR. by eapply IH, life_step_ready. Qed.

(** A new scheduler over a new manager. *)
Lemma new_sched_ready reqs chains bs gpus cpus model wm :
  0 < bs → 0 < gpus → 0 <= cpus → 0 <= wm → cache_ok chains →
  (∀ r, physical_token_blocks (reqs !!! r) = []) →
  Ready (new_sched (fresh_world reqs chains bs gpus cpus model wm)).
Proof.
  intros Hb Hg Hc Hw Hch Hq. split; try done; try (by intros r ?%elem_of_nil).
  - split; [apply fresh_world_inv; by try lia|done].
  - apply NoDup_nil_2.
  - cbn. lia.
Qed.

End Steps.
End Life.
