(* ===== verification/SchedulerWitness.v ===== *)
(** * Concrete schedules

    Two requests over a pool of eight blocks, and the scheduling theorems applied
    to them. *)

From stdpp Require Import gmap list strings.
From Stdlib Require Import ZArith Lia.
From S2P Require Import Prelude.
From S2P Require Import PyFloat.
From S2P Require Import Block.
From S2P Require Import PrefixKeys.
From S2P Require Import Request.
From S2P Require Import Acceptance.
From S2P Require Import World.
From S2P Require Import BlockPool.
From S2P Require Import KVCacheManager.
From S2P Require Import BlockManager.
From S2P Require Import BlockInv.
From S2P Require Import ManagerSpec.
From S2P Require Import ManagerTheorems.
From S2P Require Import SchedulerState.
From S2P Require Import Scheduler.
From S2P Require Import SchedulerSpec.
From S2P Require Import UniformScheduler.
From S2P Require Import SchedulerLife.

Open Scope Z_scope.

#[local] Existing Instance id_digest.
#[local] Instance zero_hash : Blake2b := λ _, 0.

Definition demo_args : scheduler_args :=
  mkArgs (Some 2) (fof 1) (Some 6) 0 false (fof 1) None 0 (mkAcceptance MeanKind [] []) None None.

Definition demo_config : SchedulerConfig :=
  mkConfig (Some 2) (Some 6) 0 false (fof 1) 0 (mkAcceptance MeanKind [] []) false 0 None (fof 1).

Lemma demo_uniform : uniform_config demo_config.
Proof. exists demo_args. split; [reflexivity|]. vm_compute. reflexivity. Qed.

(** Both requests arrive; each has four prompt tokens in blocks of two. *)
Definition demo_start (gpus watermark : Z) : sched world :=
  new_sched (fresh_world demo_reqs new_chain_cache 2 gpus 8 (lit "m"%string) watermark).

Definition demo_arrived (gpus watermark : Z) : sched world :=
  demo_start gpus watermark <| world_of ::= put_request 1 (arrive (fof 1)) |>
    <| world_of ::= put_request 2 (arrive (fof 2)) |>.

Definition demo_added (gpus watermark : Z) : sched world :=
  (add_requests demo_config [1; 2] (demo_arrived gpus watermark)).2.

Lemma demo_fresh gpus watermark r : r ∈ [1; 2] → fresh_request (demo_arrived gpus watermark) r.
Proof.
  rewrite !elem_of_cons, elem_of_nil. intros [-> | [-> | []]];
    (split; [split; [vm_compute; reflexivity|vm_compute; split; discriminate]|]);
    (split; [vm_compute; reflexivity|]); (split; [by eexists|]); set_solver.
Qed.

Lemma demo_life gpus watermark :
  rtc (life_step demo_config) (demo_start gpus watermark) (demo_added gpus watermark).
Proof.
  transitivity (demo_arrived gpus watermark).
  - unfold demo_arrived. eapply rtc_r; [apply rtc_once|]; apply life_arrive.
  - unfold demo_added. generalize (demo_fresh gpus watermark). generalize (demo_arrived gpus watermark).
    intros s Hfresh. apply rtc_once, life_add; [|exact Hfresh].
    apply (bool_decide_unpack _). vm_compute. exact I.
Qed.

Definition demo_execute (r t : Z) (s : sched world) : sched world :=
  s <| world_of ::= put_request r (λ q, (advance (fof t) (fof 1) 2 q).2) |>.

(** One whole iteration of the worker. *)
Definition demo_iterate (t : Z) (s : sched world) : sched world :=
  (update [1; 2] (demo_execute 2 t (demo_execute 1 t (schedule demo_config false s).2))).2.

Lemma demo_iterate_life t s : rtc (life_step demo_config) s (demo_iterate t s).
Proof.
  unfold demo_iterate, demo_execute. eapply rtc_l; [apply (life_schedule _ false)|].
  eapply rtc_l; [apply (life_execute _ 1 (fof t) (fof 1) 2)|].
  eapply rtc_l; [apply (life_execute _ 2 (fof t) (fof 1) 2)|]. apply rtc_once, life_update.
Qed.

(** Eight blocks: both requests fit.  Four blocks: they fit until they grow. *)
Definition demo_sched : sched world := demo_added 8 1.
Definition tight_sched : sched world := demo_iterate 5 (demo_added 4 0).

Lemma demo_ready gpus watermark :
  0 < gpus → 0 <= watermark → Ready (demo_added gpus watermark).
Proof.
  intros Hg Hw. apply (life_steps_ready demo_config demo_uniform _ _ (demo_life gpus watermark)).
  apply new_sched_ready; try lia; [constructor|apply demo_reqs_empty].
Qed.

Lemma tight_ready : Ready tight_sched.
Proof.
  apply (life_steps_ready demo_config demo_uniform _ _ (demo_iterate_life 5 _)).
  by apply demo_ready.
Qed.

Lemma schedule_within_budget_witness :
  ∃ s, schedule demo_config false demo_sched = (Ok ([1; 2], []), s) ∧ total_queries s [1; 2] <= 6.
Proof.
  destruct (schedule_within_budget demo_config demo_uniform false demo_sched)
    as (sch & pre & s & Heq & _ & _ & Hb & _).
  - by apply demo_ready.
  - assert ((schedule demo_config false demo_sched).1 = Ok ([1; 2], [])) as Hr
      by (vm_compute; reflexivity).
    rewrite Heq in Hr. injection Hr as -> ->. exists s. split; [exact Heq|]. apply Hb. reflexivity.
Defined.


Lemma schedule_max_num_seqs_witness :
  ∃ res s, schedule demo_config false demo_sched = (Ok res, s) ∧
    Z.of_nat (length (running s)) <= 2.
Proof.
  destruct (schedule_max_num_seqs demo_config demo_uniform false demo_sched 2)
    as (res & s & Heq & Hl); [by apply demo_ready|reflexivity|].
  exists res, s. split; [exact Heq|exact Hl].
Defined.

