(* ===== verification/Parallel.v ===== *)
(** * Parallel layout and expert placement ([TokenSim/config/parallel_config.py],
      [TokenSim/moe/config.py], [TokenSim/moe/placement.py])

    How ranks are numbered over tensor, pipeline and data parallelism, which ranks
    share one copy of the experts, and which experts and MoE layers each of them
    holds.  Python's [//] and [%] are [Z.div] and [Z.modulo]. *)

From stdpp Require Import gmap list list_numbers strings pretty.
From Stdlib Require Import ZArith Lia.
From S2P Require Import Prelude.
From S2P Require Import PyFloat.

Open Scope Z_scope.

(** [range(lo, hi, step)] with a positive step *)
Definition zrange_step (lo hi step : Z) : list Z :=
  (λ i, lo + i * step) <$> seqZ 0 (Z.max 0 ((hi - lo + step - 1) / step)).

(** ** [ParallelConfig] *)

Record ParallelConfig := mkParallel {
  tensor_parallel_size : Z;
  pipeline_parallel_size : Z;
  data_parallel_size : Z;
  data_parallel_rank : Z;
  data_parallel_size_local : Z;
  tensor_parallel_collective_latency_scale : pyfloat;
  pipeline_parallel_activation_latency_scale : pyfloat;
  enable_expert_parallel : bool;
  expert_parallel_scope : string;
  expert_parallel_size : option Z;
  expert_placement_strategy : string;
  all2all_backend : string;
}.

Definition EXPERT_PARALLEL_SCOPES : list string := ["global"; "per_dp"]%string.
Definition EXPERT_PLACEMENT_STRATEGIES : list string := ["linear"; "round_robin"]%string.
Definition ALL2ALL_BACKENDS : list string :=
  ["allgather_reducescatter"; "naive"; "deepep_high_throughput"; "deepep_low_latency"]%string.

Definition default_parallel : ParallelConfig :=
  mkParallel 1 1 1 0 1 (fof 1) (fof 1) false "global" None "linear" "allgather_reducescatter".

Section Config.
Variable c : ParallelConfig.

Definition sequence_parallel_moe (fused_moe : bool) : bool :=
  enable_expert_parallel c && (1 <? tensor_parallel_size c) &&
  (fused_moe || (1 <? data_parallel_size c)).

(** [_expert_parallel_scope_ranks] *)
Definition expert_parallel_scope_ranks : Z :=
  if bool_decide (expert_parallel_scope c = "per_dp"%string) then tensor_parallel_size c
  else tensor_parallel_size c * data_parallel_size c.

(** [_validate_expert_parallel_size]: false when it raises *)
Definition valid_expert_parallel_size : bool :=
  match expert_parallel_size c with
  | None => true
  | Some size =>
      let tp := tensor_parallel_size c in
      (1 <=? size) && enable_expert_parallel c &&
      negb (bool_decide (expert_parallel_scope c = "per_dp"%string) && negb (size =? tp)) &&
      (size mod tp =? 0) && (expert_parallel_scope_ranks mod size =? 0)
  end.

(** [__post_init__]: false when it raises [ConfigurationError] *)
Definition valid_parallel : bool :=
  (1 <=? tensor_parallel_size c) && (1 <=? pipeline_parallel_size c) &&
  (1 <=? data_parallel_size c) && (1 <=? data_parallel_size_local c) &&
  (0 <=? data_parallel_rank c) && (data_parallel_rank c <? data_parallel_size c) &&
  (data_parallel_size_local c <=? data_parallel_size c) &&
  bool_decide (expert_parallel_scope c ∈ EXPERT_PARALLEL_SCOPES) &&
  bool_decide (expert_placement_strategy c ∈ EXPERT_PLACEMENT_STRATEGIES) &&
  bool_decide (all2all_backend c ∈ ALL2ALL_BACKENDS) &&
  valid_expert_parallel_size.

Definition ranks_per_dp_group : Z := tensor_parallel_size c * pipeline_parallel_size c.

Definition world_size : Z := ranks_per_dp_group * data_parallel_size c.

Definition expert_parallel_group_size : Z :=
  if negb (enable_expert_parallel c) then 1
  else default expert_parallel_scope_ranks (expert_parallel_size c).

Definition expert_parallel_group_count : Z :=
  (tensor_parallel_size c * data_parallel_size c) / expert_parallel_group_size.

Definition expert_parallel_replicas_per_group : Z :=
  expert_parallel_group_size / tensor_parallel_size c.

Definition expert_parallel_group (dp_rank tp_rank : Z) : Z :=
  (dp_rank * tensor_parallel_size c + tp_rank) / expert_parallel_group_size.

Definition expert_parallel_rank (dp_rank tp_rank : Z) : Z :=
  (dp_rank * tensor_parallel_size c + tp_rank) mod expert_parallel_group_size.

(** [override]: [replace] builds a new object, which is validated again. *)
Definition override (tp pp dp dprank dplocal : option Z) (enable : option bool)
    (scope : option string) (ep : option Z) (strategy backend : option string) :
    ParallelConfig :=
  mkParallel (default (tensor_parallel_size c) tp) (default (pipeline_parallel_size c) pp)
    (default (data_parallel_size c) dp) (default (data_parallel_rank c) dprank)
    (default (data_parallel_size_local c) dplocal)
    (tensor_parallel_collective_latency_scale c) (pipeline_parallel_activation_latency_scale c)
    (default (enable_expert_parallel c) enable) (default (expert_parallel_scope c) scope)
    (match ep with Some n => Some n | None => expert_parallel_size c end)
    (default (expert_placement_strategy c) strategy) (default (all2all_backend c) backend).
End Config.

(** [ParallelRankInfo] *)
Record ParallelRankInfo := mkRank {
  global_rank : Z;
  rank_in_dp_group : Z;
  tp_rank : Z;
  pp_rank : Z;
  dp_rank : Z;
  kv_cache_group_id : string;
}.

(** [ParallelRankInfo.from_global_rank] *)
Definition from_global_rank (g : Z) (c : ParallelConfig) : outcome ParallelRankInfo :=
  if g <? 0 then Raise ConfigurationError
  else if world_size c <=? g then Ok (mkRank g g 0 0 0 "dp0-pp0")
  else
    let r := g mod ranks_per_dp_group c in
    let dp := g / ranks_per_dp_group c in
    let pp := r / tensor_parallel_size c in
    let tp := r mod tensor_parallel_size c in
    Ok (mkRank g r tp pp dp ("dp" +:+ pretty dp +:+ "-pp" +:+ pretty pp)).

(** ** MoE layers ([MoEModelConfig]) *)

Record MoEModelConfig := mkMoE {
  is_moe_model : bool;
  num_experts : Z;
  num_moe_layers : Z;
  first_k_dense_replace : Z;
  moe_layer_freq : Z;
}.

Definition moe_enabled (m : MoEModelConfig) : bool := is_moe_model m && (0 <? num_moe_layers m).

(** The checks of [__post_init__] on these fields, for a MoE model *)
Definition valid_moe (m : MoEModelConfig) : bool :=
  (0 <? num_experts m) && (0 <? num_moe_layers m) && (0 <=? first_k_dense_replace m) &&
  (0 <? moe_layer_freq m).

Definition moe_layer_indices (m : MoEModelConfig) (total_layers : option Z) : list Z :=
  if negb (moe_enabled m) then []
  else
    let start := first_k_dense_replace m in
    let limit := default (start + num_moe_layers m) total_layers in
    take (Z.to_nat (num_moe_layers m)) (zrange_step start limit (moe_layer_freq m)).

(** [count_moe_layers_in_stage] *)
Definition count_moe_layers_in_stage (m : MoEModelConfig) (stage : list Z) : Z :=
  Z.of_nat (length (filter (λ l, l ∈ stage) (moe_layer_indices m None))).

(** ** Expert placement *)

(** [{rank: [] for rank in range(n)}] *)
Definition empty_ranks (n : Z) : gmap Z (list Z) :=
  list_to_map ((λ r, (r, [])) <$> zrange 0 n).

(** [result[rank].append(x)] *)
Definition append_at (rank x : Z) (m : gmap Z (list Z)) : gmap Z (list Z) :=
  alter (λ l, l ++ [x]) rank m.

(** The loop of the linear strategy: the assignment so far and the cursor. *)
Definition assign_linear (n k : Z) : gmap Z (list Z) :=
  (foldl (λ '(m, cursor) rank,
     let count := n / k + (if rank <? n mod k then 1 else 0) in
     (<[rank := zrange cursor (cursor + count)]> m, cursor + count))
    (empty_ranks k, 0) (zrange 0 k)).1.

Definition assign_round_robin (n k : Z) : gmap Z (list Z) :=
  foldl (λ m e, append_at (e mod k) e m) (empty_ranks k) (zrange 0 n).

(** [_assign_experts] *)
Definition assign_experts (strategy : string) (num_experts ep_rank_count : Z) :
    outcome (gmap Z (list Z)) :=
  if ep_rank_count <? 1 then Raise ConfigurationError
  else if num_experts <=? 0 then Ok (empty_ranks ep_rank_count)
  else if bool_decide (strategy = "linear"%string) then Ok (assign_linear num_experts ep_rank_count)
  else if bool_decide (strategy = "round_robin"%string)
  then Ok (assign_round_robin num_experts ep_rank_count)
  else Raise ConfigurationError.

(** The loop of [_pp_rank_for_layer] over the stages [ranks]. *)
Fixpoint pp_rank_loop (layer_id total_layers pp_size cursor : Z) (ranks : list Z) : option Z :=
  match ranks with
  | [] => None
  | rank :: ranks =>
      let count := total_layers / pp_size + (if rank <? total_layers mod pp_size then 1 else 0) in
      if (cursor <=? layer_id) && (layer_id <? cursor + count) then Some rank
      else pp_rank_loop layer_id total_layers pp_size (cursor + count) ranks
  end.

(** [_pp_rank_for_layer] *)
Definition pp_rank_for_layer (layer_id total_layers pp_size : Z) : Z :=
  if pp_size <=? 1 then 0
  else default (pp_size - 1) (pp_rank_loop layer_id total_layers pp_size 0 (zrange 0 pp_size)).

(** [_assign_moe_layers]; [total_layers or layer_id + 1] *)
Definition assign_moe_layers (m : MoEModelConfig) (c : ParallelConfig) (total_layers : option Z) :
    gmap Z (list Z) :=
  if negb (moe_enabled m) then empty_ranks (pipeline_parallel_size c)
  else
    foldl (λ res layer_id,
        let total :=
          match total_layers with
          | Some t => if t =? 0 then layer_id + 1 else t
          | None => layer_id + 1
          end in
        append_at (pp_rank_for_layer layer_id total (pipeline_parallel_size c)) layer_id res)
      (empty_ranks (pipeline_parallel_size c)) (moe_layer_indices m total_layers).

(** [ExpertPlacement] *)
Record ExpertPlacement := mkPlacement {
  ep_strategy : string;
  ep_scope : string;
  ep_rank_count : Z;
  ep_group_count : Z;
  ep_tensor_parallel_size : Z;
  ep_num_experts : Z;
  ep_config : ParallelConfig;
  rank_to_experts : gmap Z (list Z);
  pp_stage_to_moe_layers : gmap Z (list Z);
}.

Definition build_expert_placement (m : MoEModelConfig) (c : ParallelConfig) (total_layers : option Z) :
    outcome ExpertPlacement :=
  let n := if moe_enabled m then num_experts m else 0 in
  match assign_experts (expert_placement_strategy c) n (expert_parallel_group_size c) with
  | Raise e => Raise e
  | Ok experts =>
      Ok (mkPlacement (expert_placement_strategy c) (expert_parallel_scope c)
        (expert_parallel_group_size c) (expert_parallel_group_count c) (tensor_parallel_size c)
        n c experts (assign_moe_layers m c total_layers))
  end.

Definition ep_rank_for_rank_info (p : ExpertPlacement) (i : ParallelRankInfo) : Z :=
  expert_parallel_rank (ep_config p) (dp_rank i) (tp_rank i).

Definition ep_group_for_rank_info (p : ExpertPlacement) (i : ParallelRankInfo) : Z :=
  expert_parallel_group (ep_config p) (dp_rank i) (tp_rank i).

Definition experts_for_rank (p : ExpertPlacement) (i : ParallelRankInfo) : list Z :=
  default [] (rank_to_experts p !! ep_rank_for_rank_info p i).

Definition moe_layers_for_pp_rank (p : ExpertPlacement) (rank : Z) : list Z :=
  default [] (pp_stage_to_moe_layers p !! rank).

Definition owns_moe_layers (p : ExpertPlacement) (rank : Z) : bool :=
  negb (bool_decide (moe_layers_for_pp_rank p rank = [])).

(** ** Rank numbering *)

Lemma valid_sizes c :
  valid_parallel c = true →
  1 <= tensor_parallel_size c ∧ 1 <= pipeline_parallel_size c ∧ 1 <= data_parallel_size c.
Proof. unfold valid_parallel. rewrite !andb_true_iff. lia. Qed.

(** A number below [a * b * d] and its three digits. *)
Lemma three_digits a b d g :
  0 < a → 0 < b → 0 < d → 0 <= g < a * b * d →
  let tp := (g mod (a * b)) mod a in
  let pp := (g mod (a * b)) / a in
  let dp := g / (a * b) in
  0 <= tp < a ∧ 0 <= pp < b ∧ 0 <= dp < d ∧ g = (dp * b + pp) * a + tp.
Proof.
  intros Ha Hb Hd Hg. cbn zeta.
  pose proof (Z.mod_pos_bound g (a * b) ltac:(nia)) as Hr. set (r := g mod (a * b)) in *.
  pose proof (Z.mod_pos_bound r a Ha). pose proof (Z.div_mod r a ltac:(lia)).
  pose proof (Z.div_mod g (a * b) ltac:(nia)) as Hdm. fold r in Hdm.
  split; [done|]. split; [split; [apply Z.div_pos; lia|apply Z.div_lt_upper_bound; lia]|].
  split; [split; [apply Z.div_pos; nia|apply Z.div_lt_upper_bound; nia]|]. nia.
Qed.

Lemma three_digits_unique a b tp pp dp :
  0 < a → 0 < b → 0 <= tp < a → 0 <= pp < b → 0 <= dp →
  let g := (dp * b + pp) * a + tp in
  (g mod (a * b)) mod a = tp ∧ (g mod (a * b)) / a = pp ∧ g / (a * b) = dp.
Proof.
  intros Ha Hb Ht Hp Hd g.
  assert (g = (pp * a + tp) + dp * (a * b)) as Eg by (unfold g; ring).
  assert (0 <= pp * a + tp < a * b) as Hlow by nia.
  assert (g mod (a * b) = pp * a + tp) as Hm.
  { rewrite Eg, Z_mod_plus_full. by apply Z.mod_small. }
  rewrite Hm. split; [|split].
  - rewrite Z.add_comm, Z_mod_plus_full. by apply Z.mod_small.
  - rewrite Z.add_comm, Z_div_plus by lia. rewrite Z.div_small by done. lia.
  - rewrite Eg, Z_div_plus by nia. rewrite Z.div_small by done. lia.
Qed.

(** Ranks are numbered tensor-fastest, then pipeline, then data:
    every global rank below [world_size] has coordinates within the three sizes,
    the coordinates give the rank back, and every coordinate triple is the one of
    exactly that rank. *)
Theorem rank_coordinates_bijective c :
  valid_parallel c = true →
  (∀ g, 0 <= g < world_size c → ∃ i, from_global_rank g c = Ok i ∧
     0 <= tp_rank i < tensor_parallel_size c ∧ 0 <= pp_rank i < pipeline_parallel_size c ∧
     0 <= dp_rank i < data_parallel_size c ∧
     g = (dp_rank i * pipeline_parallel_size c + pp_rank i) * tensor_parallel_size c + tp_rank i) ∧
  (∀ tp pp dp, 0 <= tp < tensor_parallel_size c → 0 <= pp < pipeline_parallel_size c →
     0 <= dp < data_parallel_size c →
     let g := (dp * pipeline_parallel_size c + pp) * tensor_parallel_size c + tp in
     0 <= g < world_size c ∧
     ∃ i, from_global_rank g c = Ok i ∧ tp_rank i = tp ∧ pp_rank i = pp ∧ dp_rank i = dp).
Proof.
  intros (Ht & Hp & Hd)%valid_sizes. unfold from_global_rank, world_size, ranks_per_dp_group. split.
  - intros g Hg. destruct (Z.ltb_spec g 0); [lia|]. rewrite (proj2 (Z.leb_gt _ _)) by lia.
    eexists. split; [done|]. cbn [tp_rank pp_rank dp_rank]. apply three_digits; lia.
  - intros tp pp dp Htp Hpp Hdp. cbn zeta.
    set (g := (dp * pipeline_parallel_size c + pp) * tensor_parallel_size c + tp).
    assert (0 <= g < tensor_parallel_size c * pipeline_parallel_size c * data_parallel_size c) as Hg.
    { assert (dp * pipeline_parallel_size c + pp + 1 <=
        data_parallel_size c * pipeline_parallel_size c) as Hx by nia.
      apply (Z.mul_le_mono_nonneg_r _ _ (tensor_parallel_size c)) in Hx; [|lia].
      unfold g. split; [nia|lia]. }
    split; [done|]. destruct (Z.ltb_spec g 0); [lia|]. rewrite (proj2 (Z.leb_gt _ _)) by lia.
    eexists. split; [done|]. cbn [tp_rank pp_rank dp_rank]. apply three_digits_unique; lia.
Qed.

Definition demo_parallel : ParallelConfig :=
  mkParallel 2 2 3 0 1 (fof 1) (fof 1) true "per_dp" (Some 2) "round_robin" "naive".

Lemma rank_coordinates_bijective_witness :
  ∃ i, from_global_rank 11 demo_parallel = Ok i ∧ kv_cache_group_id i = "dp2-pp1"%string ∧
    0 <= tp_rank i < 2.
Proof.
  destruct (rank_coordinates_bijective demo_parallel ltac:(vm_compute; reflexivity)) as [Hg _].
  assert (0 <= 11 < world_size demo_parallel) as H11
    by (vm_compute; split; [discriminate|reflexivity]).
  destruct (Hg 11 H11) as (i & Hi & Ht & _).
  exists i. split; [exact Hi|]. split; [|exact Ht].
  assert (match from_global_rank 11 demo_parallel with Ok x => kv_cache_group_id x | Raise _ => "" end =
    "dp2-pp1"%string) as Hk by (vm_compute; reflexivity).
  rewrite Hi in Hk. exact Hk.
Defined.

(** ** Expert-parallel groups *)

Lemma group_size_divides c :
  valid_parallel c = true →
  1 <= expert_parallel_group_size c ∧
  (tensor_parallel_size c * data_parallel_size c) mod expert_parallel_group_size c = 0 ∧
  (enable_expert_parallel c = true → expert_parallel_group_size c mod tensor_parallel_size c = 0).
Proof.
  intros Hv. pose proof (valid_sizes c Hv) as (Ht & _ & Hd). unfold valid_parallel in Hv.
  rewrite !andb_true_iff in Hv. destruct Hv as [_ Hs]. unfold expert_parallel_group_size.
  destruct (enable_expert_parallel c) eqn:He; cbn [negb]; [|by rewrite Z.mod_1_r].
  unfold valid_expert_parallel_size in Hs. unfold expert_parallel_scope_ranks in *.
  destruct (expert_parallel_size c) as [size|]; cbn [default from_option]; unfold id.
  - rewrite !andb_true_iff in Hs. destruct Hs as ((((H1 & _) & H2) & H3) & H4).
    apply Z.eqb_eq in H3, H4. split; [lia|]. split; [|done].
    case_bool_decide; cbn in H2; [|done].
    apply negb_true_iff, negb_false_iff, Z.eqb_eq in H2. subst size.
    rewrite Z.mul_comm. apply Z_mod_mult.
  - assert (0 < tensor_parallel_size c * data_parallel_size c) by (apply Z.mul_pos_pos; lia).
    split; [case_bool_decide; lia|]. case_bool_decide.
    + split; [rewrite Z.mul_comm; apply Z_mod_mult|]. intros _. by rewrite Z_mod_same_full.
    + split; [by rewrite Z_mod_same_full|]. intros _. rewrite Z.mul_comm. apply Z_mod_mult.
Qed.

(** The expert-parallel groups tile the ranks of a pipeline stage:
    the group sizes multiply to all of them, a rank is at one position of one group,
    no two ranks share one, and the tensor-parallel ranks of a replica are always in
    the same group. *)
Theorem expert_groups_tile c :
  valid_parallel c = true →
  let size := expert_parallel_group_size c in
  let count := expert_parallel_group_count c in
  count * size = tensor_parallel_size c * data_parallel_size c ∧
  (∀ dp tp, 0 <= dp < data_parallel_size c → 0 <= tp < tensor_parallel_size c →
     0 <= expert_parallel_group c dp tp < count ∧ 0 <= expert_parallel_rank c dp tp < size ∧
     expert_parallel_group c dp tp * size + expert_parallel_rank c dp tp =
       dp * tensor_parallel_size c + tp) ∧
  (enable_expert_parallel c = true → ∀ dp tp tp',
     0 <= dp → 0 <= tp < tensor_parallel_size c → 0 <= tp' < tensor_parallel_size c →
     expert_parallel_group c dp tp = expert_parallel_group c dp tp').
Proof.
  intros Hv. pose proof (valid_sizes c Hv) as (Ht & _ & Hd).
  destruct (group_size_divides c Hv) as (Hs & Hm & Hw). cbn zeta.
  set (size := expert_parallel_group_size c) in *. unfold expert_parallel_group_count. fold size.
  pose proof (Z.div_mod (tensor_parallel_size c * data_parallel_size c) size ltac:(lia)) as Hdm.
  split; [lia|]. split.
  - intros dp tp Hdp Htp. unfold expert_parallel_group, expert_parallel_rank. fold size.
    set (g := dp * tensor_parallel_size c + tp).
    assert (0 <= g < tensor_parallel_size c * data_parallel_size c) by (unfold g; nia).
    pose proof (Z.div_mod g size ltac:(lia)). pose proof (Z.mod_pos_bound g size ltac:(lia)).
    split; [split; [apply Z.div_pos; lia|apply Z.div_lt_upper_bound; lia]|]. split; [done|lia].
  - intros He dp tp tp' Hdp Htp Htp'. unfold expert_parallel_group. fold size.
    specialize (Hw He). apply Z.mod_divide in Hw as [q Hq]; [|lia].
    assert (∀ x, 0 <= x < tensor_parallel_size c →
      (dp * tensor_parallel_size c + x) / size = dp / q) as Heq.
    { intros x Hx. assert (0 < q) by nia.
      rewrite Hq, (Z.mul_comm q), <- Z.div_div by lia.
      rewrite Z.add_comm, Z_div_plus by lia. by rewrite (Z.div_small x) by done. }
    by rewrite (Heq tp), (Heq tp').
Qed.

Lemma expert_groups_tile_witness :
  expert_parallel_group_count demo_parallel * expert_parallel_group_size demo_parallel = 6 ∧
  expert_parallel_group demo_parallel 1 0 = expert_parallel_group demo_parallel 1 1.
Proof.
  destruct (expert_groups_tile demo_parallel ltac:(vm_compute; reflexivity)) as (H1 & _ & H3).
  split; [exact H1|].
  apply (H3 eq_refl 1 0 1); [lia|..]; vm_compute; split; (discriminate || reflexivity).
Defined.

(** ** Expert assignment *)

(** The first item of part [r] when [n] items are cut into [k] parts whose sizes
    differ by at most one, larger parts first. *)
Definition cut (n k r : Z) : Z := r * (n / k) + Z.min r (n mod k).

Lemma cut_succ n k r :
  cut n k (r + 1) = cut n k r + (n / k + (if r <? n mod k then 1 else 0)).
Proof. unfold cut. destruct (Z.ltb_spec r (n mod k)); lia. Qed.

Lemma cut_0 n k : 0 < k → cut n k 0 = 0.
Proof. intros Hk. unfold cut. pose proof (Z.mod_pos_bound n k Hk). lia. Qed.

Lemma cut_end n k : 0 < k → cut n k k = n.
Proof.
  intros Hk. unfold cut. pose proof (Z.mod_pos_bound n k Hk). pose proof (Z.div_mod n k ltac:(lia)). lia.
Qed.

Lemma cut_mono n k r r' : 0 <= n → 0 < k → 0 <= r <= r' → cut n k r <= cut n k r'.
Proof.
  intros Hn Hk Hr. unfold cut. pose proof (Z.div_pos n k Hn Hk). nia.
Qed.

(** Every item is in exactly one part. *)
Lemma cut_owner n k x :
  0 < k → 0 <= x < n → ∃ r, 0 <= r < k ∧ cut n k r <= x < cut n k (r + 1).
Proof.
  intros Hk Hx.
  assert (∀ j : nat, x < cut n k (Z.of_nat j) → ∃ r, 0 <= r < Z.of_nat j ∧ cut n k r <= x < cut n k (r + 1))
    as Hgen.
  { induction j as [|j IH]; [rewrite cut_0 by done; lia|]. intros Hj.
    destruct (Z.lt_ge_cases x (cut n k (Z.of_nat j))) as [Hlt|Hge].
    - destruct (IH Hlt) as (r & ? & ?). exists r. lia.
    - exists (Z.of_nat j). replace (Z.of_nat (S j)) with (Z.of_nat j + 1) in Hj by lia. lia. }
  destruct (Hgen (Z.to_nat k)) as (r & Hr & Hin); [rewrite Z2Nat.id, cut_end by lia; lia|].
  exists r. lia.
Qed.

Lemma cut_owner_unique n k x r r' :
  0 <= n → 0 < k → 0 <= r → 0 <= r' → cut n k r <= x < cut n k (r + 1) →
  cut n k r' <= x < cut n k (r' + 1) → r = r'.
Proof.
  intros Hn Hk Hr Hr' H1 H2. destruct (Z.lt_trichotomy r r') as [Hlt|[Heq|Hlt]]; [|done|].
  - pose proof (cut_mono n k (r + 1) r'). lia.
  - pose proof (cut_mono n k (r' + 1) r). lia.
Qed.

Lemma lookup_empty_ranks n r : empty_ranks n !! r = if decide (0 <= r < n) then Some [] else None.
Proof.
  unfold empty_ranks. case_decide as Hr.
  - apply elem_of_list_to_map_1.
    + rewrite <- list_fmap_compose. unfold compose. cbn. rewrite list_fmap_id. apply NoDup_seqZ.
    + apply list_elem_of_fmap. exists r. split; [done|]. by apply elem_of_zrange.
  - apply not_elem_of_list_to_map_1. rewrite <- list_fmap_compose. unfold compose. cbn.
    rewrite list_fmap_id, elem_of_zrange. done.
Qed.

(** The linear strategy gives part [r] to rank [r]. *)
Lemma assign_linear_spec n k r :
  0 <= n → 0 < k →
  assign_linear n k !! r =
    if decide (0 <= r < k) then Some (zrange (cut n k r) (cut n k (r + 1))) else None.
Proof.
  intros Hn Hk. unfold assign_linear. set (f := λ '(m, cursor) rank, _).
  assert (∀ j : nat, Z.of_nat j <= k →
    ∃ m, foldl f (empty_ranks k, 0) (zrange 0 (Z.of_nat j)) = (m, cut n k (Z.of_nat j)) ∧
      ∀ r, m !! r = if decide (0 <= r < Z.of_nat j) then Some (zrange (cut n k r) (cut n k (r + 1)))
                    else empty_ranks k !! r) as Hgen.
  { induction j as [|j IH]; intros Hj.
    - exists (empty_ranks k). cbn [zrange foldl]. rewrite cut_0 by done. split; [done|].
      intros r'. by rewrite decide_False by lia.
    - destruct IH as (m & Hf & Hm); [lia|].
      replace (Z.of_nat (S j)) with (0 + Z.of_nat j + 1) by lia.
      rewrite zrange_snoc, foldl_app by lia. rewrite Z.add_0_l. rewrite Hf. cbn [foldl f].
      rewrite <- cut_succ. eexists. split; [done|]. intros r'. destruct (decide (r' = Z.of_nat j)) as [->|Hne].
      + rewrite lookup_insert_eq, decide_True by lia. done.
      + rewrite lookup_insert_ne, Hm by done. repeat case_decide; done || lia. }
  destruct (Hgen (Z.to_nat k)) as (m & Hf & Hm); [lia|]. rewrite Z2Nat.id in Hf, Hm by lia.
  rewrite Hf. cbn [fst]. rewrite Hm. case_decide; [done|]. rewrite lookup_empty_ranks.
  by rewrite decide_False.
Qed.

(** Appending every item to the list of its owner. *)
Lemma append_all_spec (owner : Z → Z) l m r :
  foldl (λ m e, append_at (owner e) e m) m l !! r =
  (λ l0, l0 ++ filter (λ e, owner e = r) l) <$> m !! r.
Proof.
  revert m. induction l as [|e l IH]; intros m; cbn [foldl].
  - rewrite filter_nil. destruct (m !! r); cbn; [|done]. by rewrite app_nil_r.
  - rewrite IH, filter_cons. unfold append_at. destruct (decide (owner e = r)) as [Hr|Hr].
    + subst r. rewrite lookup_alter_eq. destruct (m !! owner e); cbn; [|done].
      by rewrite <- app_assoc.
    + by rewrite lookup_alter_ne.
Qed.

Lemma assign_round_robin_spec n k r :
  assign_round_robin n k !! r =
    if decide (0 <= r < k) then Some (filter (λ e, e mod k = r) (zrange 0 n)) else None.
Proof.
  unfold assign_round_robin. rewrite (append_all_spec (λ e, e mod k)), lookup_empty_ranks.
  by case_decide.
Qed.

Lemma div_mod_succ n k :
  0 < k → 0 <= n →
  (n + 1) / k = n / k + (if n mod k + 1 =? k then 1 else 0) ∧
  (n + 1) mod k = (if n mod k + 1 =? k then 0 else n mod k + 1).
Proof.
  intros Hk Hn. pose proof (Z.mod_pos_bound n k Hk). pose proof (Z.div_mod n k ltac:(lia)).
  destruct (Z.eqb_spec (n mod k + 1) k).
  - assert ((n + 1) / k = n / k + 1) as E by (symmetry; apply (Z.div_unique _ _ _ 0); lia).
    split; [done|]. rewrite Z.mod_eq, E by lia. lia.
  - assert ((n + 1) / k = n / k) as E by (symmetry; apply (Z.div_unique _ _ _ (n mod k + 1)); lia).
    split; [lia|]. rewrite Z.mod_eq, E by lia. lia.
Qed.

(** How many numbers below [n] have remainder [r]. *)
Lemma count_residue n k r :
  0 <= n → 0 <= r < k →
  Z.of_nat (length (filter (λ e, e mod k = r) (zrange 0 n))) =
    n / k + (if r <? n mod k then 1 else 0).
Proof.
  intros Hn Hr. pattern n. apply natlike_ind; [| |done]; clear n Hn.
  - cbn. rewrite Z.mod_0_l, Z.div_0_l by lia. destruct (Z.ltb_spec r 0); [lia|done].
  - intros n Hn IH. change (Z.succ n) with (n + 1).
    pose proof (zrange_snoc 0 n Hn) as Hs. rewrite Z.add_0_l in Hs. rewrite Hs.
    rewrite filter_app, length_app, Nat2Z.inj_add, IH, filter_cons, filter_nil.
    destruct (div_mod_succ n k ltac:(lia) Hn) as [-> ->].
    pose proof (Z.mod_pos_bound n k ltac:(lia)).
    destruct (decide (n mod k = r)), (Z.eqb_spec (n mod k + 1) k), (Z.ltb_spec r (n mod k));
      cbn [length]; repeat (match goal with |- context [r <? ?x] => destruct (Z.ltb_spec r x) end); lia.
Qed.

(** What a placement of [n] experts on [k] ranks promises. *)
Record balanced_partition (n k : Z) (m : gmap Z (list Z)) : Prop := {
  bp_ranks r : is_Some (m !! r) ↔ 0 <= r < k;
  bp_owner e : 0 <= e < n → ∃ r, 0 <= r < k ∧ e ∈ m !!! r ∧ ∀ r', e ∈ m !!! r' → r' = r;
  bp_experts r e : e ∈ m !!! r → 0 <= e < n;
  bp_nodup r : NoDup (m !!! r);
  bp_balanced r : 0 <= r < k →
    Z.of_nat (length (m !!! r)) = n / k + (if r <? n mod k then 1 else 0);
}.

Lemma linear_balanced n k : 0 <= n → 0 < k → balanced_partition n k (assign_linear n k).
Proof.
  intros Hn Hk. pose proof (assign_linear_spec n k) as Hs.
  assert (∀ r, assign_linear n k !!! r =
    if decide (0 <= r < k) then zrange (cut n k r) (cut n k (r + 1)) else []) as Ht.
  { intros r. rewrite lookup_total_alt, (Hs r) by done. by case_decide. }
  assert (∀ r e, e ∈ assign_linear n k !!! r →
    0 <= r < k ∧ cut n k r <= e < cut n k (r + 1)) as Hin.
  { intros r e. rewrite Ht. case_decide; [|by intros ?%elem_of_nil]. by intros ?%elem_of_zrange. }
  split.
  - intros r. rewrite (Hs r) by done. case_decide; [by split; eauto|]. split; [by intros []|done].
  - intros e He. destruct (cut_owner n k e Hk He) as (r & Hr & Hc). exists r. split; [done|]. split.
    + rewrite Ht, decide_True by done. by apply elem_of_zrange.
    + intros r' (Hr' & Hc')%Hin. eapply cut_owner_unique; [exact Hn|exact Hk|..]; lia || done.
  - intros r e (Hr & Hc)%Hin. pose proof (cut_mono n k 0 r Hn Hk ltac:(lia)) as H0.
    pose proof (cut_mono n k (r + 1) k Hn Hk ltac:(lia)) as H1.
    rewrite cut_0 in H0 by done. rewrite cut_end in H1 by done. lia.
  - intros r. rewrite Ht. case_decide; [apply NoDup_seqZ|apply NoDup_nil_2].
  - intros r Hr. rewrite Ht, decide_True by done. unfold zrange. rewrite length_seqZ.
    rewrite cut_succ. pose proof (Z.div_pos n k Hn Hk). destruct (_ <? _); lia.
Qed.

Lemma round_robin_balanced n k : 0 <= n → 0 < k → balanced_partition n k (assign_round_robin n k).
Proof.
  intros Hn Hk. pose proof (assign_round_robin_spec n k) as Hs.
  assert (∀ r, assign_round_robin n k !!! r =
    if decide (0 <= r < k) then filter (λ e, e mod k = r) (zrange 0 n) else []) as Ht.
  { intros r. rewrite lookup_total_alt, (Hs r). by case_decide. }
  assert (∀ r e, e ∈ assign_round_robin n k !!! r → 0 <= e < n ∧ r = e mod k) as Hin.
  { intros r e. rewrite Ht. case_decide; [|by intros ?%elem_of_nil].
    by intros [? ?%elem_of_zrange]%list_elem_of_filter. }
  split.
  - intros r. rewrite (Hs r). case_decide; [by split; eauto|]. split; [by intros []|done].
  - intros e He. exists (e mod k). pose proof (Z.mod_pos_bound e k Hk) as Hm.
    split; [done|]. split; [|by intros r' [_ ->]%Hin].
    rewrite Ht, decide_True by done. apply list_elem_of_filter. split; [done|]. by apply elem_of_zrange.
  - by intros r e [? _]%Hin.
  - intros r. rewrite Ht. case_decide; [apply NoDup_filter, NoDup_seqZ|apply NoDup_nil_2].
  - intros r Hr. rewrite Ht, decide_True by done. by apply count_residue.
Qed.

(** C40 (functional).  Both placement strategies give every expert to exactly one
    rank of an expert-parallel group and every rank the same number of experts, up
    to one. *)
Theorem experts_partitioned strategy n k :
  strategy ∈ EXPERT_PLACEMENT_STRATEGIES → 0 < n → 0 < k →
  ∃ m, assign_experts strategy n k = Ok m ∧ balanced_partition n k m.
Proof.
  intros Hs Hn Hk. unfold assign_experts. rewrite (proj2 (Z.ltb_ge k 1)), (proj2 (Z.leb_gt n 0)) by lia.
  unfold EXPERT_PLACEMENT_STRATEGIES in Hs. rewrite !elem_of_cons, elem_of_nil in Hs.
  destruct Hs as [-> | [-> | []]]; cbn [bool_decide]; eexists; (split; [reflexivity|]).
  - apply linear_balanced; lia.
  - apply round_robin_balanced; lia.
Qed.

Lemma experts_partitioned_witness :
  ∃ m, assign_experts "round_robin" 7 3 = Ok m ∧ balanced_partition 7 3 m ∧ m !!! 1 = [1; 4].
Proof.
  destruct (experts_partitioned "round_robin" 7 3) as (m & Hm & Hb);
    [apply (bool_decide_unpack _); vm_compute; exact I|lia|lia|].
  exists m. split; [exact Hm|]. split; [exact Hb|].
  assert (match assign_experts "round_robin" 7 3 with Ok m => m !!! 1 | Raise _ => [] end = [1; 4]) as Hk
    by (vm_compute; reflexivity).
  rewrite Hm in Hk. exact Hk.
Defined.

(** ** Pipeline stages *)

(** The loop finds the stage that holds the layer. *)
Lemma pp_rank_loop_spec layer total k r :
  0 < k → 0 <= total → 0 <= r < k → cut total k r <= layer < cut total k (r + 1) →
  pp_rank_loop layer total k 0 (zrange 0 k) = Some r.
Proof.
  intros Hk Ht Hr Hc.
  assert (∀ (j : nat) i, 0 <= i → i + Z.of_nat j = k → i <= r →
    pp_rank_loop layer total k (cut total k i) (seqZ i (Z.of_nat j)) = Some r) as Hgen.
  { induction j as [|j IH]; intros i Hi Hij Hir; [lia|].
    rewrite seqZ_cons by lia. cbn [pp_rank_loop]. rewrite <- cut_succ.
    destruct (decide (i = r)) as [->|Hne].
    - by rewrite (proj2 (Z.leb_le _ _)), (proj2 (Z.ltb_lt _ _)) by lia.
    - pose proof (cut_mono total k (i + 1) r Ht Hk ltac:(lia)).
      rewrite (proj2 (Z.ltb_ge layer _)), andb_false_r by lia.
      replace (Z.pred (Z.of_nat (S j))) with (Z.of_nat j) by lia.
      change (Z.succ i) with (i + 1). apply IH; lia. }
  specialize (Hgen (Z.to_nat k) 0). rewrite cut_0 in Hgen by done. unfold zrange.
  rewrite Z.sub_0_r. rewrite Z2Nat.id in Hgen by lia. apply Hgen; lia.
Qed.

Lemma pp_rank_for_layer_spec layer total k :
  0 < k → 0 <= layer < total →
  let r := pp_rank_for_layer layer total k in
  0 <= r < k ∧ cut total k r <= layer < cut total k (r + 1).
Proof.
  intros Hk Hl. cbn zeta. destruct (cut_owner total k layer Hk Hl) as (r & Hr & Hc).
  unfold pp_rank_for_layer. destruct (Z.leb_spec k 1).
  - assert (r = 0) as -> by lia. split; [lia|done].
  - rewrite (pp_rank_loop_spec layer total k r) by (done || lia). cbn. split; [lia|done].
Qed.

Lemma elem_of_zrange_step lo hi step x :
  0 < step → x ∈ zrange_step lo hi step → lo <= x < hi.
Proof.
  intros Hs. unfold zrange_step. rewrite list_elem_of_fmap. intros (i & -> & Hi%elem_of_seqZ).
  rewrite Z.add_0_l in Hi.
  destruct (Z.max_spec 0 ((hi - lo + step - 1) / step)) as [[Hlt E]|[_ E]]; rewrite E in Hi; [|lia].
  pose proof (Z.mul_div_le (hi - lo + step - 1) step Hs). nia.
Qed.

Lemma zrange_step_nodup lo hi step : 0 < step → NoDup (zrange_step lo hi step).
Proof.
  intros Hs. unfold zrange_step. apply NoDup_fmap_2; [|apply NoDup_seqZ].
  intros x y Hxy. apply (Z.mul_cancel_r _ _ step); lia.
Qed.

Lemma moe_layers_range m total x :
  valid_moe m = true → x ∈ moe_layer_indices m (Some total) → 0 <= x < total.
Proof.
  unfold valid_moe. rewrite !andb_true_iff. intros (((_ & _) & Hs) & Hf) Hx.
  unfold moe_layer_indices in Hx. destruct (negb (moe_enabled m)); [by apply elem_of_nil in Hx|].
  apply (elem_of_sublist _ _ _ (sublist_take _ _)) in Hx. cbn in Hx.
  apply elem_of_zrange_step in Hx; lia.
Qed.

Lemma moe_layers_nodup m total : valid_moe m = true → NoDup (moe_layer_indices m total).
Proof.
  unfold valid_moe. rewrite !andb_true_iff. intros ((_ & _) & Hf).
  unfold moe_layer_indices. destruct (negb _); [apply NoDup_nil_2|].
  eapply sublist_NoDup; [|apply sublist_take]. apply zrange_step_nodup. lia.
Qed.

(** Every MoE layer of a model with a known depth is assigned to
    exactly one pipeline stage, the one whose contiguous share of the layers
    contains it, and a stage holds only MoE layers, each once. *)
Theorem moe_layers_staged m c total :
  valid_parallel c = true → valid_moe m = true → 0 < total →
  let k := pipeline_parallel_size c in
  let stages := assign_moe_layers m c (Some total) in
  ∀ r, 0 <= r < k → ∃ l, stages !! r = Some l ∧ NoDup l ∧
    ∀ x, x ∈ l ↔ x ∈ moe_layer_indices m (Some total) ∧ cut total k r <= x < cut total k (r + 1).
Proof.
  intros (_ & Hk & _)%valid_sizes Hm Ht k stages r Hr. unfold stages, assign_moe_layers. fold k.
  destruct (moe_enabled m) eqn:He; cbn [negb].
  - destruct (Z.eqb_spec total 0); [lia|].
    rewrite (append_all_spec (λ x, pp_rank_for_layer x total k)), lookup_empty_ranks, decide_True by lia.
    eexists. split; [reflexivity|]. split; [apply NoDup_filter; by apply moe_layers_nodup|].
    intros x. cbn. rewrite list_elem_of_filter. split.
    + intros [<- Hx]. split; [done|]. apply pp_rank_for_layer_spec; [lia|]. by eapply moe_layers_range.
    + intros [Hx Hc]. split; [|done].
      destruct (pp_rank_for_layer_spec x total k ltac:(lia)) as [Hr' Hc']; [by eapply moe_layers_range|].
      eapply (cut_owner_unique total k x); [lia|lia|lia|lia|done|done].
  - rewrite lookup_empty_ranks, decide_True by lia. eexists. split; [done|]. split; [apply NoDup_nil_2|].
    intros x. unfold moe_layer_indices. rewrite He. cbn. set_solver.
Qed.

Lemma moe_layers_staged_witness :
  let m := mkMoE true 8 5 1 2 in
  assign_moe_layers m demo_parallel (Some 11) !! 0 = Some [1; 3; 5] ∧
  ∃ l, assign_moe_layers m demo_parallel (Some 11) !! 1 = Some l ∧ NoDup l.
Proof.
  intros m. split; [vm_compute; reflexivity|].
  destruct (moe_layers_staged m demo_parallel 11) with (r := 1) as (l & Hl & Hn & _);
    [vm_compute; reflexivity|vm_compute; reflexivity|lia|vm_compute; split; [discriminate|reflexivity]|].
  exists l. split; [exact Hl|exact Hn].
Defined.

(** Without a depth, [moe_layer_indices] stops [num_moe_layers] layers
    after the first one although the layers are [moe_layer_freq] apart: with a
    frequency of at least two, a model of several MoE layers reports too few. *)
Theorem moe_layer_indices_short m :
  valid_moe m = true → is_moe_model m = true → 2 <= moe_layer_freq m → 2 <= num_moe_layers m →
  Z.of_nat (length (moe_layer_indices m None)) < num_moe_layers m.
Proof.
  intros Hv Hm Hf Hn. unfold moe_layer_indices, moe_enabled. rewrite Hm, (proj2 (Z.ltb_lt _ _)) by lia.
  cbn [negb andb]. rewrite length_take. unfold zrange_step. rewrite length_fmap, length_seqZ.
  set (q := Z.max 0 _). assert (q < num_moe_layers m); [|lia]. unfold q. cbn.
  apply Z.max_lub_lt; [lia|]. apply Z.div_lt_upper_bound; nia.
Qed.

Lemma moe_layer_indices_short_witness :
  let m := mkMoE true 8 4 0 2 in
  moe_layer_indices m None = [0; 2] ∧ Z.of_nat (length (moe_layer_indices m None)) < 4.
Proof.
  intros m. split; [vm_compute; reflexivity|].
  apply (moe_layer_indices_short m); (vm_compute; reflexivity) || (vm_compute; discriminate).
Defined.
