(* ===== verification/Routing.v ===== *)
(** * Request routing ([TokenSim/placement/consistent_hash.py],
      [TokenSim/placement/policies.py], [BoundedCache] of [TokenSim/utils.py])

    The consistent-hash router with its MurmurHash64A and FurcHash, the replay of a
    fixed mapping, and the worker pools.  Strings are their UTF-8 bytes, and
    64-bit arithmetic wraps with [MASK] as in the source. *)

From stdpp Require Import gmap list list_numbers strings pretty sorting.
From Stdlib Require Import ZArith Lia.
From Stdlib Require Ascii String.
From S2P Require Import Prelude.
From S2P Require Import PyFloat.

Open Scope Z_scope.

(** ** Hashing *)

Definition MASK : Z := Z.shiftl 1 64 - 1.
Definition MUL : Z := 0xC6A4A7935BD1E995.
Definition SEED : Z := 4193360111.

(** [key.encode()] *)
Definition encode (s : string) : list Z := (λ c, Z.of_N (Ascii.N_of_ascii c)) <$> String.list_ascii_of_string s.

(** [int.from_bytes(data, "little")] *)
Definition from_bytes (data : list Z) : Z := foldr (λ b n, b + 256 * n) 0 data.

(** [value.to_bytes(n, "little")] of a value that fits *)
Fixpoint to_bytes (n : nat) (value : Z) : list Z :=
  match n with
  | O => []
  | S n => value mod 256 :: to_bytes n (value / 256)
  end.

(** The loop over the whole 8-byte words. *)
Fixpoint murmur_words (n : nat) (data : list Z) (h : Z) : Z :=
  match n with
  | O => h
  | S n =>
      let k := Z.land (from_bytes (take 8 data) * MUL) MASK in
      let k := Z.lxor k (Z.shiftr k 47) in
      let k := Z.land (k * MUL) MASK in
      murmur_words n (drop 8 data) (Z.land (Z.lxor h k * MUL) MASK)
  end.

Definition murmur_hash_64a (data : list Z) (seed : Z) : Z :=
  let len := Z.of_nat (length data) in
  let h := Z.lxor seed (Z.land (len * MUL) MASK) in
  let words := (length data / 8)%nat in
  let size := (8 * words)%nat in
  let h := murmur_words words data h in
  let h :=
    if (size <? length data)%nat
    then Z.land (Z.lxor h (from_bytes (drop size data)) * MUL) MASK else h in
  let h := Z.lxor h (Z.shiftr h 47) in
  let h := Z.land (h * MUL) MASK in
  Z.lxor h (Z.shiftr h 47).

Definition murmur_rehash_64a (value : Z) : Z := murmur_hash_64a (to_bytes 8 value) SEED.

(** The memo list [hashes] of [fbi_hash] grows to [order + 1] entries. *)
Fixpoint grow_hashes (data : list Z) (missing : nat) (hashes : list Z) : list Z :=
  match missing with
  | O => hashes
  | S missing =>
      grow_hashes data missing
        (hashes ++ [match last hashes with
                    | Some h => murmur_rehash_64a h
                    | None => murmur_hash_64a data SEED
                    end])
  end.

(** [bit(index)] *)
Definition bit (data : list Z) (index : Z) : M (list Z) Z :=
  let order := Z.shiftr index 6 in
  modify (λ hashes, grow_hashes data (S (Z.to_nat order) - length hashes) hashes) ;;
  hashes ← gets id;
  match hashes !! Z.to_nat order with
  | None => raise IndexError
  | Some h => mret (Z.land (Z.shiftr h (Z.land index 63)) 1)
  end.

(** [while not bit(index)]: descend to a shallower depth; [None] is the early
    return at depth zero. *)
Fixpoint seek (data : list Z) (depth : nat) (index : Z) : M (list Z) (option (nat * Z)) :=
  b ← bit data index;
  if negb (b =? 0) then mret (Some (depth, index))
  else
    match depth with
    | O => mret None
    | S d => seek data d (Z.of_nat d)
    end.

(** [for _ in range(max(depth - 1, 0))] *)
Fixpoint read_number (data : list Z) (n : nat) (number index : Z) : M (list Z) (Z * Z) :=
  match n with
  | O => mret (number, index)
  | S n =>
      b ← bit data index;
      read_number data n (Z.lor (Z.shiftl number 1) b) (index + 23)
  end.

(** [for _ in range(32)]; the result is the number that is hashed at the end. *)
Fixpoint furc_loop (data : list Z) (tries depth : nat) (index : Z) : M (list Z) Z :=
  match tries with
  | O => mret 0
  | S tries =>
      found ← seek data depth index;
      match found with
      | None => mret 0
      | Some (depth, index) =>
          '(number, index) ← read_number data (depth - 1) 1 (index + 23);
          if number <? Z.shiftl 1 23 - 1 then mret number
          else furc_loop data tries depth index
      end
  end.

Definition fbi_hash (key : string) : Z :=
  match furc_loop (encode key) 32 23 23 [] with
  | (Ok n, _) => murmur_hash_64a (to_bytes 4 n) SEED
  | (Raise _, _) => 0
  end.

(** ** The hash ring *)

Record Worker := mkWorker {
  worker_id : Z;
  worker_dp_rank : Z;
  worker_running : Z;        (* [len(scheduler.running)] *)
  worker_waiting : Z;        (* [len(scheduler.waiting)] *)
  worker_workload : pyfloat; (* [worker.workload()] *)
  worker_cpu_workload : pyfloat;
}.

Definition virtual_nodes : list Z := seqZ 0 160.

(** [f"{url}:{ordinal}"] *)
Definition node_key (backend_url : string) (rank ordinal : Z) : string :=
  (backend_url +:+ "@" +:+ pretty rank +:+ ":" +:+ pretty ordinal)%string.

(** [{w.dp_rank: w for w in workers}] *)
Definition by_rank (workers : list Worker) : gmap Z Worker :=
  foldl (λ m w, <[worker_dp_rank w := w]> m) ∅ workers.

(** The ranks in the insertion order of that dictionary. *)
Definition rank_order (workers : list Worker) : list Z :=
  foldl (λ l w, if bool_decide (worker_dp_rank w ∈ l) then l else l ++ [worker_dp_rank w]) [] workers.

Definition add_rank (hash : string → Z) (backend_url : string) (ring : gmap Z Z) (rank : Z) : gmap Z Z :=
  foldl (λ ring ordinal, <[hash (node_key backend_url rank ordinal) := rank]> ring) ring virtual_nodes.

Definition build_ring (hash : string → Z) (backend_url : string) (ranks : list Z) : gmap Z Z :=
  foldl (add_rank hash backend_url) ∅ ranks.

(** [sorted(ring)] *)
Definition positions (ring : gmap Z Z) : list Z :=
  merge_sort Z.le (elements (dom ring)).

Fixpoint bisect_left (l : list Z) (x : Z) : nat :=
  match l with
  | [] => 0%nat
  | p :: l => if p <? x then S (bisect_left l x) else 0%nat
  end.

(** [rank_for_key]: [self.ranks[index % len(self.ranks)]] on the ring *)
Definition rank_at (ring : gmap Z Z) (h : Z) : option Z :=
  let ps := positions ring in
  p ← ps !! (bisect_left ps h mod length ps)%nat;
  ring !! p.

(** ** [ConsistentHashRouter] *)

Record Router := mkRouter {
  r_workers : gmap Z Worker;
  r_ring : gmap Z Z;
  r_sessions : gmap string Z;
  r_request_counts : gmap Z Z;
  r_session_counts : gmap Z Z;
}.

#[global] Instance eta_router : Eta Router := λ r,
  mkRouter (r_workers r) (r_ring r) (r_sessions r) (r_request_counts r) (r_session_counts r).

(** [counter[key] += 1] *)
Definition tally {K} `{Countable K} (key : K) (m : gmap K Z) : gmap K Z :=
  <[key := default 0 (m !! key) + 1]> m.

Definition new_router (workers : list Worker) (backend_url : string) : outcome Router :=
  let table := by_rank workers in
  if negb (Nat.eqb (size table) (length workers)) || bool_decide (workers = [])
  then Raise ConfigurationError
  else Ok (mkRouter table (build_ring fbi_hash backend_url (rank_order workers)) ∅ ∅ ∅).

Definition rank_for_key (r : Router) (key : string) : option Z := rank_at (r_ring r) (fbi_hash key).

Definition session_key (session : string) : string := ("header:x-session-id:" +:+ session)%string.

(** The attributes of a request that routing reads or writes. *)
Record RouteRequest := mkRoute {
  chat_id : option string;
  conversation_id : option string;
  route_dp_rank : option Z;
  routing_worker_id : option Z;
}.

#[global] Instance eta_route : Eta RouteRequest := λ q,
  mkRoute (chat_id q) (conversation_id q) (route_dp_rank q) (routing_worker_id q).

(** [not session] *)
Definition falsy (s : option string) : bool :=
  match s with None => true | Some s => bool_decide (s = ""%string) end.

(** [ConsistentHashRouter.select] *)
Definition router_select (q : RouteRequest) : M Router (Worker * RouteRequest) :=
  if falsy (chat_id q) then raise ConfigurationError
  else
    let session := default ""%string (chat_id q) in
    r ← gets id;
    (match r_sessions r !! session with
     | Some _ => mret tt
     | None =>
         match rank_for_key r (session_key session) with
         | None => raise ZeroDivisionError
         | Some rank =>
             modify (λ r, r <| r_sessions ::= <[session := rank]> |>
                            <| r_session_counts ::= tally rank |>)
         end
     end) ;;
    r ← gets id;
    match r_sessions r !! session with
    | None => raise KeyError
    | Some rank =>
        match r_workers r !! rank with
        | None => raise KeyError
        | Some w =>
            modify (λ r, r <| r_request_counts ::= tally rank |>) ;;
            mret (w, q <| route_dp_rank := Some rank |> <| routing_worker_id := Some (worker_id w) |>)
        end
    end.

Definition router_reset_stats (r : Router) : Router :=
  r <| r_request_counts := ∅ |> <| r_session_counts := ∅ |>.

(** ** [FixedWorkerRouter] *)

Record FixedRouter := mkFixed {
  f_workers : gmap Z Worker;
  f_mapping : gmap string Z;
  f_fallback : Router;
  f_request_counts : gmap Z Z;
  f_mapped_request_counts : gmap Z Z;
  f_missing_keys : gmap string Z;
  f_session_counts : gmap Z Z;
}.

#[global] Instance eta_fixed : Eta FixedRouter := λ r,
  mkFixed (f_workers r) (f_mapping r) (f_fallback r) (f_request_counts r)
    (f_mapped_request_counts r) (f_missing_keys r) (f_session_counts r).

(** The constructor, with a mapping [validate_router_mapping] has accepted. *)
Definition new_fixed_router (workers : list Worker) (mapping : gmap string Z) (backend_url : string) :
    outcome FixedRouter :=
  let table := by_rank workers in
  if existsb (λ kv, negb (bool_decide (is_Some (table !! kv.2)))) (map_to_list mapping)
  then Raise ConfigurationError
  else
    match new_router workers backend_url with
    | Raise e => Raise e
    | Ok fallback => Ok (mkFixed table mapping fallback ∅ ∅ ∅ ∅)
    end.

(** [getattr(request.source, "conversation_id", None) or request.chat_id], as a
    string *)
Definition fixed_key (q : RouteRequest) : string :=
  if falsy (conversation_id q) then default "None"%string (chat_id q)
  else default ""%string (conversation_id q).

(** [FixedWorkerRouter.select] *)
Definition fixed_select (q : RouteRequest) : M FixedRouter (Worker * RouteRequest) :=
  r ← gets id;
  let key := fixed_key q in
  '(w, rank, q) ←
    (match f_mapping r !! key with
     | None =>
         modify (λ r, r <| f_missing_keys ::= tally key |>) ;;
         '(w, q) ← (λ r, let '(res, fb) := router_select q (f_fallback r) in
                         (res, r <| f_fallback := fb |>)) : M FixedRouter (Worker * RouteRequest);
         mret (w, worker_dp_rank w, q)
     | Some rank =>
         match f_workers r !! rank with
         | None => raise KeyError
         | Some w =>
             modify (λ r, r <| f_mapped_request_counts ::= tally rank |>) ;;
             mret (w, rank,
               q <| route_dp_rank := Some rank |> <| routing_worker_id := Some (worker_id w) |>)
         end
     end);
  modify (λ r, r <| f_request_counts ::= tally rank |> <| f_session_counts ::= tally rank |>) ;;
  mret (w, q).

Definition fixed_reset_stats (r : FixedRouter) : FixedRouter :=
  r <| f_request_counts := ∅ |> <| f_mapped_request_counts := ∅ |> <| f_missing_keys := ∅ |>
    <| f_session_counts := ∅ |> <| f_fallback ::= router_reset_stats |>.

(** ** Worker pools *)

(** The pool classes a placement policy may name. *)
Inductive pool_class := RoundRobin | LeastGpuMemory | BalancedLoad.

(** [WorkerPool] and its subclasses; only the round-robin pool uses [cur_idx]. *)
Record WorkerPool := mkWorkerPool {
  pool_cls : pool_class;
  pool_workers : list Worker;
  start_idx : Z;
  placement_decision_count : Z;
  cur_idx : Z;
}.

#[global] Instance eta_workers : Eta WorkerPool := λ p,
  mkWorkerPool (pool_cls p) (pool_workers p) (start_idx p) (placement_decision_count p) (cur_idx p).

Definition new_worker_pool (cls : pool_class) (workers : list Worker) : outcome WorkerPool :=
  match workers with
  | [] => Raise ConfigurationError
  | w :: _ => Ok (mkWorkerPool cls workers (worker_id w) 0 0)
  end.

(** Python's [min(xs, key)] with a strict order: the first minimal element. *)
Definition first_min {A} (lt : A → A → bool) (x : A) (l : list A) : A :=
  foldl (λ best y, if lt y best then y else best) x l.

(** [workloads.index(min(workloads))]; workloads are not NaN *)
Definition least_loaded (ws : list Worker) : option Worker :=
  match ws with
  | [] => None
  | w :: rest =>
      let least := first_min fltb (worker_workload w) (worker_workload <$> rest) in
      head (filter (λ w, SpecFloat.SFeqb (worker_workload w) least = true) ws)
  end.

(** [WorkerLoad] and its generated tuple order *)
Record WorkerLoad := mkLoad {
  active_requests : Z;
  gpu_memory_percent : pyfloat;
  cpu_transfer_gb : pyfloat;
  load_worker_id : Z;
}.

Definition load_ltb (x y : WorkerLoad) : bool :=
  if negb (active_requests x =? active_requests y) then active_requests x <? active_requests y
  else if negb (SpecFloat.SFeqb (gpu_memory_percent x) (gpu_memory_percent y))
  then fltb (gpu_memory_percent x) (gpu_memory_percent y)
  else if negb (SpecFloat.SFeqb (cpu_transfer_gb x) (cpu_transfer_gb y))
  then fltb (cpu_transfer_gb x) (cpu_transfer_gb y)
  else load_worker_id x <? load_worker_id y.

Definition worker_load (w : Worker) : WorkerLoad :=
  mkLoad (worker_running w + worker_waiting w) (worker_workload w) (worker_cpu_workload w)
    (worker_id w).

Definition balanced_choice (ws : list Worker) : option Worker :=
  match ws with
  | [] => None
  | w :: rest => Some (first_min (λ x y, load_ltb (worker_load x) (worker_load y)) w rest)
  end.

(** [schedule] of the three pools; a missing element is Python's [IndexError] or
    [ValueError]. *)
Definition pool_schedule : M WorkerPool Worker :=
  p ← gets id;
  match pool_cls p with
  | RoundRobin =>
      modify (λ p, p <| cur_idx := (cur_idx p + 1) mod Z.of_nat (length (pool_workers p)) |>) ;;
      match pool_workers p !! Z.to_nat (cur_idx p) with
      | Some w => mret w
      | None => raise IndexError
      end
  | LeastGpuMemory =>
      match least_loaded (pool_workers p) with Some w => mret w | None => raise ValueError end
  | BalancedLoad =>
      match balanced_choice (pool_workers p) with Some w => mret w | None => raise ValueError end
  end.

(** [WorkerPool._select] and the three [select_*] methods of the plain pools *)
Definition pool_select : M WorkerPool Worker :=
  modify (λ p, p <| placement_decision_count ::= Z.succ |>) ;;
  pool_schedule.

(** [get]: Python's negative indices count from the end *)
Definition pool_get (p : WorkerPool) (id : Z) : outcome Worker :=
  let i := id - start_idx p in
  let n := Z.of_nat (length (pool_workers p)) in
  let j := if i <? 0 then i + n else i in
  if (j <? 0) || (n <=? j) then Raise IndexError
  else match pool_workers p !! Z.to_nat j with Some w => Ok w | None => Raise IndexError end.

(** [DataParallelWorkerPool] *)
Record DPPool := mkDPPool {
  group_pools : gmap Z WorkerPool;
  dp_ranks : list Z;
  cur_dp_idx : Z;
  dp_placement_counts : gmap Z Z;
  sticky_sessions : bool;
  affinity_to_rank : gmap string Z;
  dp_decision_count : Z;
}.

#[global] Instance eta_dppool : Eta DPPool := λ p,
  mkDPPool (group_pools p) (dp_ranks p) (cur_dp_idx p) (dp_placement_counts p)
    (sticky_sessions p) (affinity_to_rank p) (dp_decision_count p).

(** [grouped.setdefault(dp_rank, []).append(worker)] *)
Definition group_workers (workers : list Worker) : gmap Z (list Worker) :=
  foldl (λ m w, <[worker_dp_rank w := default [] (m !! worker_dp_rank w) ++ [w]]> m) ∅ workers.

Definition new_dp_pool (workers : list Worker) (cls : pool_class) (sticky : bool) : outcome DPPool :=
  match workers with
  | [] => Raise ConfigurationError
  | _ =>
      let grouped := group_workers workers in
      let ranks := merge_sort Z.le (elements (dom grouped)) in
      Ok (mkDPPool
        ((λ ws, mkWorkerPool cls ws (from_option worker_id 0 (head ws)) 0 0) <$> grouped)
        ranks 0 (list_to_map ((λ r, (r, 0)) <$> ranks)) sticky ∅ 0)
  end.

(** [self.group_pools[rank].schedule()] *)
Definition group_schedule (rank : Z) : M DPPool Worker := λ p,
  match group_pools p !! rank with
  | None => (Raise KeyError, p)
  | Some pool =>
      let '(res, pool) := pool_schedule pool in
      (res, p <| group_pools ::= <[rank := pool]> |>)
  end.

(** [_next_group_pool().schedule()] *)
Definition next_group_schedule : M DPPool Worker :=
  p ← gets id;
  match dp_ranks p !! Z.to_nat (cur_dp_idx p) with
  | None => raise IndexError
  | Some rank =>
      modify (λ p, p <| cur_dp_idx := (cur_dp_idx p + 1) mod Z.of_nat (length (dp_ranks p)) |>) ;;
      group_schedule rank
  end.

(** [_record] *)
Definition dp_record (w : Worker) : M DPPool unit :=
  modify (λ p, p <| dp_placement_counts ::= tally (worker_dp_rank w) |>).

(** [schedule] *)
Definition dp_schedule : M DPPool Worker :=
  w ← next_group_schedule;
  dp_record w ;;
  mret w.

(** [_select_for_request]; [None] is a call without a request.  [setdefault] of a
    [dict] subclass does not call its [__setitem__]. *)
Definition dp_select_for_request (req : option RouteRequest) (assign_new : bool) :
    M DPPool (Worker * option RouteRequest) :=
  p ← gets id;
  let known rank := bool_decide (is_Some (group_pools p !! rank)) in
  let requested := r ← req; route_dp_rank r in
  let affinity := if sticky_sessions p then (r ← req; chat_id r) else None in
  let rank :=
    if negb (from_option known false requested) && negb (falsy affinity)
    then key ← affinity; affinity_to_rank p !! key
    else requested in
  w ← (match rank with
       | Some rank => if known rank then group_schedule rank else next_group_schedule
       | None => next_group_schedule
       end);
  dp_record w ;;
  match req with
  | None => mret (w, None)
  | Some q =>
      if assign_new || negb (bool_decide (is_Some (route_dp_rank q))) then
        (match affinity with
         | Some key =>
             when (negb (falsy affinity))
               (modify (λ p, p <| affinity_to_rank ::= λ m,
                  match m !! key with Some _ => m | None => <[key := worker_dp_rank w]> m end |>))
         | None => mret tt
         end) ;;
        mret (w, Some (q <| route_dp_rank := Some (worker_dp_rank w) |>))
      else mret (w, Some q)
  end.

Definition dp_select (req : option RouteRequest) (assign_new : bool) :
    M DPPool (Worker * option RouteRequest) :=
  out ← dp_select_for_request req assign_new;
  modify (λ p, p <| dp_decision_count ::= Z.succ |>) ;;
  mret out.

Definition select_prefill_worker (req : option RouteRequest) : M DPPool (Worker * option RouteRequest) :=
  dp_select req true.

Definition select_decode_worker (req : option RouteRequest) : M DPPool (Worker * option RouteRequest) :=
  dp_select req false.

Definition select_transfer_target (reqs : list RouteRequest) : M DPPool (Worker * option RouteRequest) :=
  dp_select (head reqs) false.
