(* ===== verification/RoutingSpec.v ===== *)
(** * Routing theorems *)

From stdpp Require Import gmap list list_numbers strings pretty sorting.
From Stdlib Require Import ZArith Lia SpecFloat.
From S2P Require Import Prelude.
From S2P Require Import PyFloat.
From S2P Require Import Parallel.
From S2P Require Import Routing.

Open Scope Z_scope.

(** ** Hashes are 64-bit *)

Lemma mask_bounds x : 0 <= Z.land x MASK < 2 ^ 64.
Proof.
  change MASK with (Z.ones 64). rewrite Z.land_ones by lia. apply Z.mod_pos_bound. lia.
Qed.

Lemma lxor_shift_bounds x n : 0 <= x < 2 ^ 64 → 0 <= n → 0 <= Z.lxor x (Z.shiftr x n) < 2 ^ 64.
Proof.
  intros Hx Hn. assert (0 <= Z.shiftr x n) as Hs by (apply Z.shiftr_nonneg; lia).
  split; [apply Z.lxor_nonneg; lia|].
  destruct (Z.eq_dec (Z.lxor x (Z.shiftr x n)) 0) as [->|Hne]; [lia|].
  apply Z.log2_lt_pow2; [pose proof (proj2 (Z.lxor_nonneg x (Z.shiftr x n))); lia|].
  eapply Z.le_lt_trans; [apply Z.log2_lxor; lia|]. apply Z.max_lub_lt.
  - destruct (Z.eq_dec x 0) as [->|]; [done|]. apply Z.log2_lt_pow2; lia.
  - rewrite Z.shiftr_div_pow2 by done.
    assert (x / 2 ^ n <= x) by (apply Z.div_le_upper_bound; [lia|]; assert (1 <= 2 ^ n) by
      (change 1 with (2 ^ 0); apply Z.pow_le_mono_r; lia); nia).
    destruct (Z.le_gt_cases (x / 2 ^ n) 0); [rewrite Z.log2_nonpos by done; lia|].
    apply Z.log2_lt_pow2; lia.
Qed.

Lemma murmur_bounds data seed : 0 <= murmur_hash_64a data seed < 2 ^ 64.
Proof. unfold murmur_hash_64a. cbn zeta. apply lxor_shift_bounds; [apply mask_bounds|lia]. Qed.

Lemma fbi_hash_bounds key : 0 <= fbi_hash key < 2 ^ 64.
Proof.
  unfold fbi_hash. destruct (furc_loop _ _ _ _ _) as [[n|e] hs]; [apply murmur_bounds|lia].
Qed.

(** ** The memo of [fbi_hash] *)

(** The sequence the memo stores: the hash of the key, then rehashes. *)
Definition nth_hash (data : list Z) (n : nat) : Z :=
  Nat.iter n murmur_rehash_64a (murmur_hash_64a data SEED).

Definition memo_ok (data : list Z) (hashes : list Z) : Prop :=
  hashes = nth_hash data <$> seq 0 (length hashes).

Lemma memo_snoc data hashes :
  memo_ok data hashes →
  memo_ok data (hashes ++ [match last hashes with
                           | Some h => murmur_rehash_64a h
                           | None => murmur_hash_64a data SEED
                           end]).
Proof.
  unfold memo_ok. intros Hm.
  assert (last hashes = match length hashes with O => None | S n => Some (nth_hash data n) end) as Hl.
  { rewrite Hm at 1. destruct (length hashes) as [|n]; [done|].
    rewrite seq_S, fmap_app. cbn. by rewrite last_snoc. }
  rewrite length_app. cbn [length]. rewrite Nat.add_1_r, seq_S, fmap_app, <- Hm, Hl. f_equal.
  by destruct (length hashes).
Qed.

Lemma grow_hashes_ok data n hashes :
  memo_ok data hashes →
  memo_ok data (grow_hashes data n hashes) ∧
  length (grow_hashes data n hashes) = (length hashes + n)%nat.
Proof.
  revert hashes. induction n as [|n IH]; intros hashes Hm; cbn [grow_hashes]; [split; [done|lia]|].
  destruct (IH _ (memo_snoc _ _ Hm)) as [? Hl]. split; [done|]. rewrite Hl, length_app. cbn. lia.
Qed.

(** [bit] reads the bit stream the hash sequence stands for. *)
Definition ref_bit (data : list Z) (index : Z) : Z :=
  Z.land (Z.shiftr (nth_hash data (Z.to_nat (Z.shiftr index 6))) (Z.land index 63)) 1.

Lemma bit_spec data index hashes :
  memo_ok data hashes →
  wp (bit data index) (λ b hashes', b = ref_bit data index ∧ memo_ok data hashes') no_raise hashes.
Proof.
  intros Hm. unfold bit. do 4 wp_step. unfold id. set (n := Z.to_nat (Z.shiftr index 6)).
  destruct (grow_hashes_ok data (S n - length hashes) hashes Hm) as [Hm' Hl].
  set (hashes' := grow_hashes _ _ _) in *. rewrite Hm', list_lookup_fmap, lookup_seq_lt by lia.
  cbn. wp_step. split; [done|]. by rewrite <- Hm'.
Qed.

(** FurcHash on a bit stream, without a memo. *)
Fixpoint ref_seek (bits : Z → Z) (depth : nat) (index : Z) : option (nat * Z) :=
  if negb (bits index =? 0) then Some (depth, index)
  else match depth with O => None | S d => ref_seek bits d (Z.of_nat d) end.

Fixpoint ref_number (bits : Z → Z) (n : nat) (number index : Z) : Z * Z :=
  match n with
  | O => (number, index)
  | S n => ref_number bits n (2 * number + bits index) (index + 23)
  end.

Fixpoint ref_furc (bits : Z → Z) (tries depth : nat) (index : Z) : Z :=
  match tries with
  | O => 0
  | S tries =>
      match ref_seek bits depth index with
      | None => 0
      | Some (depth, index) =>
          let '(number, index) := ref_number bits (depth - 1) 1 (index + 23) in
          if number <? 2 ^ 23 - 1 then number else ref_furc bits tries depth index
      end
  end.

Lemma ref_bit_bounds data index : 0 <= ref_bit data index < 2.
Proof.
  unfold ref_bit. change 1 with (Z.ones 1). rewrite Z.land_ones by lia.
  pose proof (Z.mod_pos_bound (Z.shiftr (nth_hash data (Z.to_nat (Z.shiftr index 6))) (Z.land index 63))
    (2 ^ 1) ltac:(lia)). lia.
Qed.

Lemma seek_spec data depth index hashes :
  memo_ok data hashes →
  wp (seek data depth index) (λ r hashes', r = ref_seek (ref_bit data) depth index ∧ memo_ok data hashes')
    no_raise hashes.
Proof.
  revert index hashes. induction depth as [|d IH]; intros index hashes Hm; cbn [seek ref_seek]; wp_step;
    (eapply wp_mono; [by apply bit_spec| |done]); intros b hashes' [-> Hm']; cbv beta;
    destruct (negb _); try (by wp_step). by apply IH.
Qed.

Lemma read_number_spec data n number index hashes :
  memo_ok data hashes →
  wp (read_number data n number index)
    (λ r hashes', r = ref_number (ref_bit data) n number index ∧ memo_ok data hashes') no_raise hashes.
Proof.
  revert number index hashes. induction n as [|n IH]; intros number index hashes Hm;
    cbn [read_number ref_number]; wp_step; [done|].
  eapply wp_mono; [by apply bit_spec| |done]. intros b hashes' [-> Hm']. cbv beta.
  assert (Z.lor (Z.shiftl number 1) (ref_bit data index) = 2 * number + ref_bit data index) as ->;
    [|by apply IH].
  pose proof (ref_bit_bounds data index). rewrite Z.shiftl_mul_pow2 by lia.
  change (2 ^ 1) with 2. rewrite (Z.mul_comm number).
  destruct (Z.eq_dec (ref_bit data index) 0) as [->|]; [by rewrite Z.lor_0_r, Z.add_0_r|].
  assert (ref_bit data index = 1) as -> by lia.
  rewrite (Z.add_nocarry_lxor (2 * number) 1).
  - symmetry. apply Z.lxor_lor. apply Z.bits_inj'. intros i Hi. rewrite Z.land_spec, Z.bits_0.
    destruct (Z.eq_dec i 0) as [->|]; [by rewrite Z.testbit_even_0|].
    change 1 with (2 ^ 0). rewrite Z.pow2_bits_false by lia. apply andb_false_r.
  - apply Z.bits_inj'. intros i Hi. rewrite Z.land_spec, Z.bits_0.
    destruct (Z.eq_dec i 0) as [->|]; [by rewrite Z.testbit_even_0|].
    change 1 with (2 ^ 0). rewrite Z.pow2_bits_false by lia. apply andb_false_r.
Qed.

Lemma furc_loop_spec data tries depth index hashes :
  memo_ok data hashes →
  wp (furc_loop data tries depth index)
    (λ r hashes', r = ref_furc (ref_bit data) tries depth index ∧ memo_ok data hashes') no_raise hashes.
Proof.
  revert depth index hashes. induction tries as [|tries IH]; intros depth index hashes Hm;
    cbn [furc_loop ref_furc]; wp_step; [done|].
  eapply wp_mono; [by apply seek_spec| |done]. intros r h1 [-> Hm1]. cbv beta.
  destruct (ref_seek _ _ _) as [[d i]|]; [|by wp_step]. wp_step.
  eapply wp_mono; [by apply read_number_spec| |done]. intros [number i'] h2 [E Hm2]. cbv beta.
  rewrite <- E. change (Z.shiftl 1 23 - 1) with (2 ^ 23 - 1).
  destruct (number <? 2 ^ 23 - 1); [by wp_step|]. by apply IH.
Qed.

(** C38 (equivalence).  The memoised bit reader of [fbi_hash] never misses: the hash
    is MurmurHash64A of the FurcHash number of the key's bit stream, and it is a
    64-bit number. *)
Theorem fbi_hash_correct key :
  fbi_hash key =
    murmur_hash_64a (to_bytes 4 (ref_furc (ref_bit (encode key)) 32 23 23)) SEED ∧
  0 <= fbi_hash key < 2 ^ 64.
Proof.
  split; [|apply fbi_hash_bounds]. unfold fbi_hash.
  pose proof (furc_loop_spec (encode key) 32 23 23 [] eq_refl) as Hf. unfold wp in Hf.
  destruct (furc_loop _ _ _ _ _) as [[n|e] hs]; [|done]. destruct Hf as [-> _]. done.
Qed.

(** ** The ring *)

(** [p] is the position a key with hash [h] falls on: the first at or after it,
    or the first of all when there is none. *)
Definition successor (ring : gmap Z Z) (h p : Z) : Prop :=
  p ∈ dom ring ∧
  ((h <= p ∧ ∀ q, q ∈ dom ring → h <= q → p <= q) ∨
   ((∀ q, q ∈ dom ring → q < h) ∧ ∀ q, q ∈ dom ring → p <= q)).

Lemma successor_unique ring h p p' : successor ring h p → successor ring h p' → p = p'.
Proof.
  intros [Hp [[H1 H2]|[H1 H2]]] [Hp' [[H3 H4]|[H3 H4]]].
  - specialize (H2 p' Hp' H3). specialize (H4 p Hp H1). lia.
  - specialize (H3 p Hp). lia.
  - specialize (H1 p' Hp'). lia.
  - specialize (H2 p' Hp'). specialize (H4 p Hp). lia.
Qed.

Lemma elem_of_positions ring p : p ∈ positions ring ↔ p ∈ dom ring.
Proof. unfold positions. rewrite merge_sort_Permutation. apply elem_of_elements. Qed.

Lemma positions_sorted ring : StronglySorted Z.le (positions ring).
Proof. apply (StronglySorted_merge_sort _). Qed.

(** Binary search on the sorted positions: the entry found is the successor. *)
Lemma bisect_left_spec l h :
  StronglySorted Z.le l →
  match l !! bisect_left l h with
  | Some p => p ∈ l ∧ h <= p ∧ ∀ q, q ∈ l → h <= q → p <= q
  | None => bisect_left l h = length l ∧ ∀ q, q ∈ l → q < h
  end.
Proof.
  induction l as [|p l IH]; intros Hs; cbn [bisect_left lookup list_lookup].
  - split; [done|]. by intros q ?%elem_of_nil.
  - inversion_clear Hs as [|? ? Hs' Hall]. rewrite Forall_forall in Hall.
    destruct (Z.ltb_spec p h) as [Hlt|Hge].
    + specialize (IH Hs'). cbn [lookup list_lookup]. destruct (l !! bisect_left l h) as [x|].
      * destruct IH as (? & ? & Hx). split; [set_solver|]. split; [done|].
        intros q [->|Hq]%elem_of_cons Hhq; [lia|by apply Hx].
      * destruct IH as [-> Hx]. split; [done|]. intros q [->|Hq]%elem_of_cons; [done|by apply Hx].
    + split; [set_solver|]. split; [done|]. intros q [->|Hq]%elem_of_cons _; [done|].
      by apply Hall.
Qed.

Lemma bisect_left_length l h : (bisect_left l h <= length l)%nat.
Proof. induction l as [|p l IH]; cbn; [done|]. destruct (p <? h); cbn; lia. Qed.

Lemma rank_at_spec ring h :
  ring ≠ ∅ → ∃ p r, successor ring h p ∧ ring !! p = Some r ∧ rank_at ring h = Some r.
Proof.
  intros Hne. unfold rank_at. pose proof (positions_sorted ring) as Hs.
  assert (positions ring ≠ []) as Hps.
  { intros Hnil. apply Hne, dom_empty_inv_L. apply set_eq. intros p.
    rewrite <- elem_of_positions, Hnil. set_solver. }
  pose proof (bisect_left_spec (positions ring) h Hs) as Hb.
  destruct (positions ring !! bisect_left (positions ring) h) as [p|] eqn:Hp.
  - destruct Hb as (Hin & Hle & Hmin). apply elem_of_positions in Hin as Hdom.
    apply elem_of_dom in Hdom as [r Hr]. exists p, r. split; [|split; [done|]].
    + split; [by apply elem_of_dom|]. left. split; [done|]. intros q Hq. by apply Hmin, elem_of_positions.
    + apply lookup_lt_Some in Hp as Hlt. rewrite Nat.mod_small by done. rewrite Hp. cbn. done.
  - destruct Hb as [Hlen Hall]. rewrite Hlen, Nat.Div0.mod_same.
    destruct (positions ring) as [|p ps] eqn:Eps; [done|]. cbn.
    assert (p ∈ dom ring) as Hdom by (apply elem_of_positions; rewrite Eps; set_solver).
    pose proof Hdom as [r Hr]%elem_of_dom. exists p, r. rewrite Hr. split; [|done].
    split; [done|]. right. split; [intros q Hq; apply Hall; rewrite <- Eps; by apply elem_of_positions|].
    intros q Hq. apply elem_of_positions in Hq. rewrite Eps in Hq.
    inversion_clear Hs as [|? ? _ Hf]. rewrite Forall_forall in Hf.
    apply elem_of_cons in Hq as [->|Hq]; [done|]. by apply Hf.
Qed.

Definition nodes (hash : string → Z) (url : string) (rank : Z) : list Z :=
  (λ ordinal, hash (node_key url rank ordinal)) <$> virtual_nodes.

Lemma add_rank_lookup hash url ring rank p :
  add_rank hash url ring rank !! p =
    if decide (p ∈ nodes hash url rank) then Some rank else ring !! p.
Proof.
  unfold add_rank, nodes. generalize virtual_nodes as l. intros l. revert ring.
  induction l as [|o l IH] using rev_ind; intros ring; cbn [foldl].
  - by rewrite decide_False by (by intros ?%elem_of_nil).
  - rewrite foldl_app. cbn [foldl]. rewrite fmap_app. cbn.
    destruct (decide (p = hash (node_key url rank o))) as [->|Hne].
    + rewrite lookup_insert_eq, decide_True; [done|]. set_solver.
    + rewrite lookup_insert_ne, IH by done. repeat case_decide; set_solver.
Qed.

(** Without rank [x], the positions of the other ranks keep their owners. *)
Lemma ring_remove hash url ranks x p :
  let ring1 := build_ring hash url ranks in
  let ring2 := build_ring hash url (filter (λ r, r ≠ x) ranks) in
  (∀ y, ring1 !! p = Some y → y ≠ x → ring2 !! p = Some y) ∧
  (∀ y, ring2 !! p = Some y → y ≠ x ∧ is_Some (ring1 !! p)).
Proof.
  cbn zeta. unfold build_ring. induction ranks as [|r ranks [IH1 IH2]] using rev_ind; [by split|].
  rewrite filter_app, !foldl_app. cbn [foldl]. rewrite filter_cons, filter_nil.
  destruct (decide (r ≠ x)) as [Hr|Hr%dec_stable]; cbn [foldl].
  - rewrite !add_rank_lookup. case_decide; split; try done; naive_solver.
  - subst r. rewrite add_rank_lookup. case_decide; split; try done.
    + intros y [= <-]. done.
    + intros y Hy. destruct (IH2 y Hy). eauto.
Qed.

Lemma ring_nonempty hash url ranks : ranks ≠ [] → build_ring hash url ranks ≠ ∅.
Proof.
  intros Hne. destruct ranks as [|r ranks] using rev_ind; [done|]. clear IHranks.
  unfold build_ring. rewrite foldl_app. cbn [foldl]. intros Hemp.
  assert (add_rank hash url (foldl (add_rank hash url) ∅ ranks) r !! hash (node_key url r 0) = Some r) as Hl.
  { rewrite add_rank_lookup, decide_True; [done|]. unfold nodes. apply list_elem_of_fmap.
    exists 0. split; [done|]. unfold virtual_nodes. apply elem_of_seqZ. lia. }
  by rewrite Hemp in Hl.
Qed.

(** C37 (safety).  Consistent hashing moves as little as possible: when a rank leaves,
    every key that was not on it keeps its rank. *)
Theorem removal_moves_only_its_keys hash url ranks x h :
  filter (λ r, r ≠ x) ranks ≠ [] →
  ∃ y z, rank_at (build_ring hash url ranks) h = Some y ∧
    rank_at (build_ring hash url (filter (λ r, r ≠ x) ranks)) h = Some z ∧
    z ≠ x ∧ (y ≠ x → z = y).
Proof.
  intros Hne. assert (ranks ≠ []) as Hne1 by (by intros ->).
  destruct (rank_at_spec _ h (ring_nonempty hash url _ Hne1)) as (p & y & Hp & Hy & E1).
  destruct (rank_at_spec _ h (ring_nonempty hash url _ Hne)) as (q & z & Hq & Hz & E2).
  exists y, z. split; [done|]. split; [done|].
  split; [by apply (ring_remove hash url ranks x q)|]. intros Hyx.
  destruct (ring_remove hash url ranks x p) as [Hkeep _]. specialize (Hkeep y Hy Hyx).
  assert (q = p) as ->; [|by rewrite Hkeep in Hz; injection Hz].
  eapply successor_unique; [exact Hq|]. destruct Hp as [_ Hcase].
  split; [apply elem_of_dom; by rewrite Hkeep|].
  assert (∀ w, w ∈ dom (build_ring hash url (filter (λ r, r ≠ x) ranks)) →
    w ∈ dom (build_ring hash url ranks)) as Hsub.
  { intros w [v Hv]%elem_of_dom. apply elem_of_dom.
    destruct (ring_remove hash url ranks x w) as [_ Hw]. by destruct (Hw v Hv). }
  destruct Hcase as [[H1 H2]|[H1 H2]]; [left|right]; split; auto.
Qed.

(** A small hash on a small ring. *)
Definition demo_hash (s : string) : Z := foldr (λ b n, (b + 5 * n) mod 509) 0 (encode s).

Lemma removal_moves_only_its_keys_witness :
  rank_at (build_ring demo_hash "u" [0; 1]) 300 = Some 0 ∧
  rank_at (build_ring demo_hash "u" [0]) 300 = Some 0.
Proof.
  assert (rank_at (build_ring demo_hash "u" [0; 1]) 300 = Some 0) as E by (vm_compute; reflexivity).
  split; [exact E|].
  destruct (removal_moves_only_its_keys demo_hash "u" [0; 1] 1 300) as (y & z & Hy & Hz & _ & Hyz);
    [discriminate|].
  rewrite E in Hy. injection Hy as <-. rewrite Hyz in Hz by discriminate. exact Hz.
Defined.

(** ** The router *)

Lemma by_rank_lookup workers rank w :
  by_rank workers !! rank = Some w → w ∈ workers ∧ worker_dp_rank w = rank.
Proof.
  unfold by_rank. induction workers as [|v workers IH] using rev_ind; [done|].
  rewrite foldl_app. cbn [foldl]. destruct (decide (worker_dp_rank v = rank)) as [<-|Hne].
  - rewrite lookup_insert_eq. intros [= ->]. split; [set_solver|done].
  - rewrite lookup_insert_ne by done. intros [? ?]%IH. split; [set_solver|done].
Qed.

Lemma by_rank_dom workers rank :
  is_Some (by_rank workers !! rank) ↔ rank ∈ rank_order workers.
Proof.
  unfold by_rank, rank_order. induction workers as [|v workers IH] using rev_ind.
  - cbn. rewrite elem_of_nil. split; [by intros []|done].
  - rewrite !foldl_app. cbn [foldl]. destruct (decide (worker_dp_rank v = rank)) as [<-|Hne].
    + rewrite lookup_insert_eq. split; [intros _; case_bool_decide; set_solver|done].
    + rewrite lookup_insert_ne, IH by done. case_bool_decide; set_solver.
Qed.

Lemma ring_ranks hash url ranks p r : build_ring hash url ranks !! p = Some r → r ∈ ranks.
Proof.
  unfold build_ring. induction ranks as [|x ranks IH] using rev_ind; [done|].
  rewrite foldl_app. cbn [foldl]. rewrite add_rank_lookup. case_decide; [intros [= ->]; set_solver|].
  intros ?%IH. set_solver.
Qed.

(** Sessions remember the rank of their key; the ring never changes. *)
Record router_ok (workers : list Worker) (url : string) (r : Router) : Prop := {
  ro_workers : r_workers r = by_rank workers;
  ro_ring : r_ring r = build_ring fbi_hash url (rank_order workers);
  ro_some : workers ≠ [];
  ro_sessions s rank : r_sessions r !! s = Some rank → rank_for_key r (session_key s) = Some rank;
}.

Lemma rank_order_nonempty workers : workers ≠ [] → rank_order workers ≠ [].
Proof.
  intros Hne Hnil. destruct workers as [|w workers] using rev_ind; [done|]. clear IHworkers.
  assert (is_Some (by_rank (workers ++ [w]) !! worker_dp_rank w)) as Hs.
  { unfold by_rank. rewrite foldl_app. cbn. by rewrite lookup_insert_eq. }
  apply by_rank_dom in Hs. rewrite Hnil in Hs. by apply elem_of_nil in Hs.
Qed.

(** A session's worker is the one the ring assigns to its key. *)
Definition session_worker (workers : list Worker) (url s : string) (w : Worker) : Prop :=
  w ∈ workers ∧
  rank_at (build_ring fbi_hash url (rank_order workers)) (fbi_hash (session_key s)) =
    Some (worker_dp_rank w) ∧
  by_rank workers !! worker_dp_rank w = Some w.

Lemma session_worker_exists workers url s :
  workers ≠ [] → ∃ w, session_worker workers url s w.
Proof.
  intros Hne. pose proof (ring_nonempty fbi_hash url _ (rank_order_nonempty _ Hne)) as Hr.
  destruct (rank_at_spec _ (fbi_hash (session_key s)) Hr) as (p & rank & _ & Hp & Hat).
  apply ring_ranks, by_rank_dom in Hp as [w Hw].
  destruct (by_rank_lookup _ _ _ Hw) as [Hin Hrank]. exists w. subst rank. done.
Qed.

Lemma router_select_spec workers url q r :
  router_ok workers url r → falsy (chat_id q) = false →
  wp (router_select q) (λ '(w, q') r', router_ok workers url r' ∧
    session_worker workers url (default ""%string (chat_id q)) w ∧
    q' = q <| route_dp_rank := Some (worker_dp_rank w) |> <| routing_worker_id := Some (worker_id w) |>)
    no_raise r.
Proof.
  intros [Hw Hr Hne Hs] Hq. unfold router_select. rewrite Hq.
  set (s := default ""%string (chat_id q)). do 3 wp_step. unfold id.
  destruct (session_worker_exists workers url s Hne) as (w & Hin & Hat & Hby).
  assert (rank_for_key r (session_key s) = Some (worker_dp_rank w)) as Hk
    by (unfold rank_for_key; by rewrite Hr).
  eapply (wp_mono _ (λ _ r', router_ok workers url r' ∧ r_sessions r' !! s = Some (worker_dp_rank w)));
    [| |done].
  - destruct (r_sessions r !! s) as [rank|] eqn:Es.
    + wp_step. split; [by split|]. rewrite Es. by rewrite <- Hk, (Hs s rank Es).
    + rewrite Hk. wp_step. split; [|cbn; by rewrite lookup_insert_eq].
      split; try done. cbn. intros s' rank'. destruct (decide (s = s')) as [<-|Hd].
      * rewrite lookup_insert_eq. intros [= <-]. exact Hk.
      * rewrite lookup_insert_ne by done. apply Hs.
  - intros _ r1 [[Hw1 Hr1 _ Hs1] Es1]. cbv beta. do 2 wp_step. unfold id. rewrite Es1, Hw1, Hby.
    do 3 wp_step. split; [by split|]. done.
Qed.

Lemma router_select_falsy q r : falsy (chat_id q) = true → router_select q r = (Raise ConfigurationError, r).
Proof. unfold router_select. by intros ->. Qed.

Lemma router_history workers url qs r :
  router_ok workers url r → router_ok workers url (foldl (λ r q, (router_select q r).2) r qs).
Proof.
  revert r. induction qs as [|q qs IH]; intros r Hr; [done|]. cbn [foldl]. apply IH.
  destruct (falsy (chat_id q)) eqn:Hq; [by rewrite router_select_falsy|].
  pose proof (router_select_spec workers url q r Hr Hq) as Hs. unfold wp in Hs.
  destruct (router_select q r) as [[[w q']|e] r']; [by destruct Hs|done].
Qed.

(** Whatever was routed before, a request with a session goes to
    the worker the ring assigns to the session's key: the choice depends on the
    session alone, so a conversation never moves, and it never fails. *)
Theorem router_sticky workers url r0 qs q :
  new_router workers url = Ok r0 → falsy (chat_id q) = false →
  ∃ w q' r', router_select q (foldl (λ r q, (router_select q r).2) r0 qs) = (Ok (w, q'), r') ∧
    session_worker workers url (default ""%string (chat_id q)) w ∧
    route_dp_rank q' = Some (worker_dp_rank w) ∧ routing_worker_id q' = Some (worker_id w).
Proof.
  intros Hnew Hq. unfold new_router in Hnew.
  destruct (negb _); cbn [orb] in Hnew; [done|]. case_bool_decide; [done|]. injection Hnew as <-.
  set (r0 := mkRouter _ _ _ _ _).
  assert (router_ok workers url r0) as H0 by (split; try done; intros s rank; by rewrite lookup_empty).
  pose proof (router_select_spec workers url q _ (router_history workers url qs r0 H0) Hq) as Hs.
  apply wp_ok_inv in Hs as ([w q'] & r' & Heq & _ & Hw & ->). eauto 10.
Qed.

Definition demo_worker (id rank running : Z) : Worker := mkWorker id rank running 0 f0 f0.

Lemma router_sticky_witness :
  let workers := [demo_worker 7 0 0; demo_worker 8 1 0] in
  let q := mkRoute (Some "chat"%string) None None None in
  ∃ r0 w q' r', new_router workers "u" = Ok r0 ∧
    router_select q (foldl (λ r q, (router_select q r).2) r0 [q; mkRoute (Some "x"%string) None None None])
      = (Ok (w, q'), r') ∧ w ∈ workers.
Proof.
  intros workers q. eexists.
  destruct (router_sticky workers "u" (mkRouter (by_rank workers)
    (build_ring fbi_hash "u" (rank_order workers)) ∅ ∅ ∅) [q; mkRoute (Some "x"%string) None None None] q)
    as (w & q' & r' & Heq & (Hin & _) & _); [reflexivity|reflexivity|].
  exists w, q', r'. split; [reflexivity|]. split; [exact Heq|exact Hin].
Defined.

(** ** Replaying a mapping *)

Definition total_count {K} `{Countable K} (m : gmap K Z) : Z := map_fold (λ _ n t, n + t) 0 m.

Lemma total_count_tally {K} `{Countable K} (key : K) m : total_count (tally key m) = total_count m + 1.
Proof.
  unfold total_count, tally. destruct (m !! key) as [n|] eqn:Hk; cbn.
  - rewrite <- (insert_delete_id m key n) at 2 by done. rewrite <- insert_delete_eq.
    rewrite !map_fold_insert_L; try (intros; lia); apply lookup_delete_eq.
  - rewrite map_fold_insert_L; [lia|intros; lia|done].
Qed.

(** Every request was mapped or missing, and was counted once. *)
Record fixed_ok (workers : list Worker) (url : string) (r : FixedRouter) : Prop := {
  fo_workers : f_workers r = by_rank workers;
  fo_mapping k rank : f_mapping r !! k = Some rank → is_Some (by_rank workers !! rank);
  fo_fallback : router_ok workers url (f_fallback r);
  fo_counts : total_count (f_request_counts r) =
    total_count (f_mapped_request_counts r) + total_count (f_missing_keys r);
  fo_sessions : total_count (f_session_counts r) = total_count (f_request_counts r);
}.

Lemma new_fixed_router_ok workers mapping url r :
  new_fixed_router workers mapping url = Ok r → fixed_ok workers url r ∧ f_mapping r = mapping.
Proof.
  unfold new_fixed_router. destruct (existsb _ _) eqn:Hex; [done|].
  destruct (new_router workers url) as [fb|] eqn:Hnew; [|done]. intros [= <-].
  unfold new_router in Hnew. destruct (negb _); cbn [orb] in Hnew; [done|].
  case_bool_decide; [done|]. injection Hnew as <-. split; [|done]. split; cbn; try done.
  - intros k rank Hk. apply elem_of_map_to_list in Hk.
    destruct (decide (is_Some (by_rank workers !! rank))) as [|Hn]; [done|]. exfalso.
    apply not_true_iff_false in Hex. apply Hex, existsb_exists. exists (k, rank).
    split; [by apply list_elem_of_In|]. cbn. by rewrite bool_decide_eq_false_2.
Qed.

(** The replay router sends a mapped conversation to the mapped
    rank and any other request with a session to the worker of its session; its
    coverage counters stay exact: the requests counted are the mapped ones plus the
    missing ones. *)
Theorem fixed_router_exact workers url r q :
  fixed_ok workers url r → f_mapping r !! fixed_key q ≠ None ∨ falsy (chat_id q) = false →
  ∃ w q' r', fixed_select q r = (Ok (w, q'), r') ∧ fixed_ok workers url r' ∧
    w ∈ workers ∧ route_dp_rank q' = Some (worker_dp_rank w) ∧
    total_count (f_request_counts r') = total_count (f_request_counts r) + 1 ∧
    match f_mapping r !! fixed_key q with
    | Some rank => worker_dp_rank w = rank
    | None => session_worker workers url (default ""%string (chat_id q)) w
    end.
Proof.
  intros [Hw Hm Hf Hc Hse] Hq. unfold fixed_select, mbind, M_bind, gets, modify, id. cbn beta iota.
  destruct (f_mapping r !! fixed_key q) as [rank|] eqn:Hk.
  - destruct (Hm _ _ Hk) as [w Hby]. rewrite Hw, Hby. destruct (by_rank_lookup _ _ _ Hby) as [Hin Hrank].
    unfold mret, M_ret. cbn beta iota. eexists _, _, _. split; [reflexivity|].
    split; [|split; [done|split; [cbn; by rewrite Hrank|split; [apply total_count_tally|done]]]].
    split; cbn; try done; rewrite !total_count_tally; lia.
  - destruct Hq as [|Hq]; [done|]. cbn [f_fallback update_field].
    destruct (wp_ok_inv _ _ _ (router_select_spec workers url q _ Hf Hq))
      as ([w q'] & fb & Heq & Hfb & Hsw & ->).
    rewrite Heq. unfold mret, M_ret. cbn beta iota. eexists _, _, _. split; [reflexivity|].
    split; [|split; [apply Hsw|split; [done|split; [apply total_count_tally|done]]]].
    split; cbn; try done; rewrite !total_count_tally; lia.
Qed.

Lemma fixed_router_exact_witness :
  let workers := [demo_worker 7 0 0; demo_worker 8 1 0] in
  let mapping := {[ "c"%string := 1 ]} : gmap string Z in
  let q := mkRoute None (Some "c"%string) None None in
  ∃ r0 w q' r', new_fixed_router workers mapping "u" = Ok r0 ∧
    fixed_select q r0 = (Ok (w, q'), r') ∧ worker_dp_rank w = 1.
Proof.
  intros workers mapping q.
  set (r0 := mkFixed (by_rank workers) mapping (mkRouter (by_rank workers)
    (build_ring fbi_hash "u" (rank_order workers)) ∅ ∅ ∅) ∅ ∅ ∅ ∅).
  assert (new_fixed_router workers mapping "u" = Ok r0) as Hnew by reflexivity.
  destruct (fixed_router_exact workers "u" r0 q) as (w & q' & r' & Heq & _ & _ & _ & _ & Hrank).
  - exact (proj1 (new_fixed_router_ok _ _ _ _ Hnew)).
  - left. discriminate.
  - exists r0, w, q', r'. split; [exact Hnew|]. split; [exact Heq|exact Hrank].
Defined.

(** ** Pools *)

(** [n] calls of [schedule] *)
Fixpoint schedule_n (n : nat) : M WorkerPool (list Worker) :=
  match n with
  | O => mret []
  | S n => ws ← schedule_n n; w ← pool_schedule; mret (ws ++ [w])
  end.

(** A round-robin pool is fair: [n] placements visit the workers in
    turn, so each of the [k] workers gets [n / k] of them or one more. *)
Theorem round_robin_fair ws p n :
  new_worker_pool RoundRobin ws = Ok p →
  let k := Z.of_nat (length ws) in
  let turns := (λ i, i mod k) <$> zrange 0 (Z.of_nat n) in
  ∃ p' chosen, schedule_n n p = (Ok chosen, p') ∧
    Some <$> chosen = (λ i, ws !! Z.to_nat i) <$> turns ∧
    ∀ j, 0 <= j < k →
      Z.of_nat (length (filter (λ i, i = j) turns)) =
        Z.of_nat n / k + (if j <? Z.of_nat n mod k then 1 else 0).
Proof.
  intros Hp k turns. destruct ws as [|w0 ws0]; [done|]. injection Hp as <-.
  set (ws := w0 :: ws0) in *. assert (0 < k) as Hk by (unfold k, ws; cbn; lia).
  set (p0 := mkWorkerPool RoundRobin ws (worker_id w0) 0 0).
  assert (∃ chosen, schedule_n n p0 = (Ok chosen, p0 <| cur_idx := Z.of_nat n mod k |>) ∧
    Some <$> chosen = (λ i, ws !! Z.to_nat i) <$> turns) as (chosen & Hrun & Hch).
  { unfold turns. clear turns. induction n as [|n (chosen & Hrun & Hch)].
    - exists []. split; [|done]. cbn. by rewrite Z.mod_0_l by lia.
    - pose proof (Z.mod_pos_bound (Z.of_nat n) k Hk) as Hb.
      destruct (lookup_lt_is_Some_2 ws (Z.to_nat (Z.of_nat n mod k))) as [w Hw]; [unfold k in *; lia|].
      exists (chosen ++ [w]). split.
      + cbn [schedule_n]. unfold mbind, M_bind. rewrite Hrun. unfold pool_schedule, gets, modify, mbind, M_bind, id.
        cbn -[k ws Z.modulo]. rewrite Hw. cbn -[k ws Z.modulo]. f_equal. unfold p0. cbn -[k ws Z.modulo].
        f_equal. fold k. rewrite Zplus_mod_idemp_l. f_equal. lia.
      + rewrite fmap_app, Hch. replace (Z.of_nat (S n)) with (0 + Z.of_nat n + 1) by lia.
        rewrite zrange_snoc by lia. rewrite !fmap_app. cbn [fmap list_fmap]. rewrite Z.add_0_l.
        by rewrite Hw. }
  exists (p0 <| cur_idx := Z.of_nat n mod k |>), chosen. split; [done|]. split; [done|].
  intros j Hj. rewrite <- (count_residue (Z.of_nat n) k j) by lia. unfold turns.
  generalize (zrange 0 (Z.of_nat n)). intros l. f_equal. induction l as [|x l IH]; [done|].
  cbn [fmap list_fmap]. rewrite !filter_cons. destruct (decide (x mod k = j)); cbn [length]; congruence.
Qed.

Lemma round_robin_fair_witness :
  let ws := [demo_worker 1 0 0; demo_worker 2 0 0; demo_worker 3 0 0] in
  ∃ p p' chosen, new_worker_pool RoundRobin ws = Ok p ∧ schedule_n 4 p = (Ok chosen, p') ∧
    Some <$> chosen = (λ i, ws !! Z.to_nat i) <$> [0; 1; 2; 0].
Proof.
  intros ws.
  destruct (round_robin_fair ws (mkWorkerPool RoundRobin ws 1 0 0) 4 eq_refl) as (p' & chosen & Hr & Hc & _).
  eexists _, p', chosen. split; [reflexivity|]. split; [exact Hr|exact Hc].
Defined.

(** Balanced placement never prefers a worker with more requests. *)
Lemma first_min_active w ws :
  let best := first_min (λ x y, load_ltb (worker_load x) (worker_load y)) w ws in
  best ∈ w :: ws ∧ ∀ v, v ∈ w :: ws →
    worker_running best + worker_waiting best <= worker_running v + worker_waiting v.
Proof.
  cbn zeta. unfold first_min. revert w. induction ws as [|x ws IH]; intros w; cbn [foldl].
  - split; [set_solver|]. intros v Hv. apply list_elem_of_singleton in Hv. by subst.
  - set (w' := if load_ltb _ _ then x else w). destruct (IH w') as [Hin Hmin].
    assert (w' ∈ [w; x] ∧ worker_running w' + worker_waiting w' <= worker_running w + worker_waiting w ∧
      worker_running w' + worker_waiting w' <= worker_running x + worker_waiting x) as (Hw' & H1 & H2).
    { unfold w'. destruct (load_ltb (worker_load x) (worker_load w)) eqn:Hl; (split; [set_solver|]);
        unfold load_ltb, worker_load in Hl; cbn [active_requests] in Hl;
        destruct (Z.eqb_spec (worker_running x + worker_waiting x) (worker_running w + worker_waiting w));
        cbn [negb] in Hl; lia. }
    clearbody w'. revert Hin Hmin. generalize (foldl (λ best y, if load_ltb (worker_load y) (worker_load best)
      then y else best) w' ws). intros b Hin Hmin. split.
    { rewrite !elem_of_cons, elem_of_nil in Hw'. rewrite elem_of_cons in Hin. rewrite !elem_of_cons. intuition congruence. } intros v [->|Hv]%elem_of_cons.
    + specialize (Hmin w' (list_elem_of_here _ _)). lia.
    + apply elem_of_cons in Hv as [->|Hv]; [specialize (Hmin w' (list_elem_of_here _ _)); lia|].
      apply Hmin. by apply list_elem_of_further.
Qed.

(** The balanced pool places on one of its workers, and no worker
    of the pool has fewer active requests. *)
Theorem balanced_choice_least w ws :
  ∃ best, balanced_choice (w :: ws) = Some best ∧ best ∈ w :: ws ∧
    ∀ v, v ∈ w :: ws → active_requests (worker_load best) <= active_requests (worker_load v).
Proof.
  eexists. split; [reflexivity|]. destruct (first_min_active w ws) as [Hin Hmin].
  split; [exact Hin|]. intros v Hv. exact (Hmin v Hv).
Qed.

(** A worker the least-loaded pool returns is one of its workers. *)
Lemma SFeqb_refl x : x ≠ S754_nan → SFeqb x x = true.
Proof.
  intros Hx. unfold SFeqb, SFcompare. destruct x as [[]|[]| |[] m e]; try done.
  - by rewrite Z.compare_refl, Pos.compare_cont_refl.
  - by rewrite Z.compare_refl, Pos.compare_cont_refl.
Qed.

Lemma first_min_in {A} (lt : A → A → bool) x l : first_min lt x l ∈ x :: l.
Proof.
  unfold first_min. revert x. induction l as [|y l IH]; intros x; cbn [foldl]; [set_solver|].
  specialize (IH (if lt y x then y else x)). destruct (lt y x); set_solver.
Qed.

Lemma least_loaded_some ws :
  ws ≠ [] → (∀ w, w ∈ ws → worker_workload w ≠ S754_nan) →
  ∃ w, least_loaded ws = Some w ∧ w ∈ ws.
Proof.
  intros Hne Hnan. destruct ws as [|w ws]; [done|]. unfold least_loaded.
  set (least := first_min _ _ _).
  assert (∃ v, v ∈ w :: ws ∧ worker_workload v = least) as (v & Hv & Ev).
  { pose proof (first_min_in fltb (worker_workload w) (worker_workload <$> ws)) as Hin. fold least in Hin.
    change (worker_workload w :: (worker_workload <$> ws)) with (worker_workload <$> w :: ws) in Hin.
    apply list_elem_of_fmap in Hin as (v & ? & ?). eauto. }
  destruct (filter _ (w :: ws)) as [|u us] eqn:Hf.
  - exfalso. apply (not_elem_of_nil v). rewrite <- Hf. apply list_elem_of_filter.
    split; [|done]. rewrite <- Ev. apply SFeqb_refl. by apply Hnan.
  - exists u. split; [done|].
    assert (u ∈ filter (λ w, SFeqb (worker_workload w) least = true) (w :: ws)) as Hu
      by (rewrite Hf; set_solver).
    by apply list_elem_of_filter in Hu as [_ ?].
Qed.

(** ** Data-parallel pools *)

(** A pool of one rank: it has workers, all of that rank, and a valid cursor. *)
Record pool_ok (rank : Z) (p : WorkerPool) : Prop := {
  po_some : pool_workers p ≠ [];
  po_rank w : w ∈ pool_workers p → worker_dp_rank w = rank;
  po_load w : w ∈ pool_workers p → worker_workload w ≠ S754_nan;
  po_idx : 0 <= cur_idx p < Z.of_nat (length (pool_workers p));
}.

Lemma pool_schedule_spec rank p :
  pool_ok rank p →
  wp pool_schedule (λ w p', w ∈ pool_workers p ∧ worker_dp_rank w = rank ∧ pool_ok rank p') no_raise p.
Proof.
  intros Hp. pose proof Hp as [Hne Hr Hl Hi]. unfold pool_schedule. do 2 wp_step. unfold id.
  destruct (pool_cls p).
  - do 2 wp_step. destruct (lookup_lt_is_Some_2 (pool_workers p) (Z.to_nat (cur_idx p))) as [w Hw]; [lia|].
    rewrite Hw. wp_step. apply list_elem_of_lookup_2 in Hw. split; [done|]. split; [auto|].
    split; cbn; try done. apply Z.mod_pos_bound. lia.
  - destruct (least_loaded_some _ Hne Hl) as (w & -> & Hin). wp_step. auto.
  - destruct (pool_workers p) as [|w ws] eqn:E; [done|]. cbn [balanced_choice]. wp_step.
    rewrite <- E in *. destruct (first_min_active w ws) as [Hin _]. rewrite <- E in Hin. auto.
Qed.

Record dp_ok (p : DPPool) : Prop := {
  do_pools rank pool : group_pools p !! rank = Some pool → pool_ok rank pool;
  do_ranks rank : rank ∈ dp_ranks p ↔ is_Some (group_pools p !! rank);
  do_idx : 0 <= cur_dp_idx p < Z.of_nat (length (dp_ranks p));
  do_affinity s rank : affinity_to_rank p !! s = Some rank → is_Some (group_pools p !! rank);
}.

(** A placement leaves the ranks, the policy and the affinities alone. *)
Definition dp_frame (p p' : DPPool) : Prop :=
  sticky_sessions p' = sticky_sessions p ∧ affinity_to_rank p' = affinity_to_rank p ∧
  ∀ rank, is_Some (group_pools p' !! rank) ↔ is_Some (group_pools p !! rank).

Lemma group_schedule_spec rank p :
  dp_ok p → is_Some (group_pools p !! rank) →
  wp (group_schedule rank) (λ w p', worker_dp_rank w = rank ∧ dp_ok p' ∧ dp_frame p p') no_raise p.
Proof.
  intros [Hp Hr Hi Ha] [pool Hpool]. unfold wp, group_schedule. rewrite Hpool.
  destruct (wp_ok_inv _ _ _ (pool_schedule_spec rank pool (Hp _ _ Hpool))) as (w & pool' & -> & _ & Hw & Hok).
  assert (∀ x, is_Some (<[rank := pool']> (group_pools p) !! x) ↔ is_Some (group_pools p !! x)) as Hdom.
  { intros x. destruct (decide (rank = x)) as [<-|]; [|by rewrite lookup_insert_ne].
    rewrite lookup_insert_eq, Hpool. by split. }
  split; [done|]. split; [|done]. split; cbn; try done.
  - intros x q. destruct (decide (rank = x)) as [<-|]; [|rewrite lookup_insert_ne by done; apply Hp].
    rewrite lookup_insert_eq. by intros [= <-].
  - intros x. rewrite Hdom. apply Hr.
  - intros s x Hs. apply Hdom. by eapply Ha.
Qed.

Lemma next_group_spec p :
  dp_ok p →
  wp next_group_schedule (λ w p', is_Some (group_pools p !! worker_dp_rank w) ∧ dp_ok p' ∧ dp_frame p p')
    no_raise p.
Proof.
  intros Hok. pose proof Hok as [Hp Hr Hi Ha]. unfold next_group_schedule. do 2 wp_step. unfold id.
  destruct (lookup_lt_is_Some_2 (dp_ranks p) (Z.to_nat (cur_dp_idx p))) as [rank Hrank]; [lia|].
  rewrite Hrank. do 2 wp_step.
  assert (is_Some (group_pools p !! rank)) as Hs by (apply Hr; by eapply list_elem_of_lookup_2).
  eapply wp_mono; [apply (group_schedule_spec rank)| |done].
  - split; cbn; try done. apply Z.mod_pos_bound. lia.
  - done.
  - intros w p' (-> & ? & ?). done.
Qed.

(** The session of a request that has not been placed yet. *)
Definition new_in_session (req : option RouteRequest) (key : string) : Prop :=
  ∃ q, req = Some q ∧ chat_id q = Some key ∧ key ≠ ""%string ∧ route_dp_rank q = None.

(** [affinity_to_rank.setdefault(key, rank)] *)
Lemma dp_remember_spec key rank p :
  let p' := p <| affinity_to_rank ::= λ m, match m !! key with Some _ => m | None => <[key := rank]> m end |> in
  dp_ok p → is_Some (group_pools p !! rank) →
  dp_ok p' ∧ affinity_to_rank p ⊆ affinity_to_rank p' ∧
  affinity_to_rank p' !! key = Some (default rank (affinity_to_rank p !! key)).
Proof.
  intros p' [Hp Hr Hi Ha] Hrank. unfold p'. cbn.
  destruct (affinity_to_rank p !! key) as [r|] eqn:Er.
  - split; [|done]. split; cbn; try done.
  - split; [|split; [by apply insert_subseteq|by rewrite lookup_insert_eq]].
    split; cbn; try done. intros s x.
    destruct (decide (key = s)) as [<-|]; [rewrite lookup_insert_eq; by intros [= <-]|].
    rewrite lookup_insert_ne by done. apply Ha.
Qed.

(** The worker for a wanted rank: that rank when it exists, else the next one. *)
Lemma dp_choose_spec (rank : option Z) p :
  dp_ok p →
  wp (match rank with
      | Some r => if bool_decide (is_Some (group_pools p !! r)) then group_schedule r else next_group_schedule
      | None => next_group_schedule
      end)
    (λ w p1, dp_ok p1 ∧ dp_frame p p1 ∧ is_Some (group_pools p !! worker_dp_rank w) ∧
       ∀ r, rank = Some r → is_Some (group_pools p !! r) → worker_dp_rank w = r) no_raise p.
Proof.
  intros Hok. destruct rank as [r|]; [case_bool_decide as Hk|].
  - eapply wp_mono; [by apply group_schedule_spec| |done]. intros w p1 (Hw & ? & ?).
    rewrite Hw. do 3 (split; [done|]). by intros ? [= <-].
  - eapply wp_mono; [by apply next_group_spec| |done]. intros w p1 (? & ? & ?).
    do 3 (split; [done|]). intros ? [= <-] ?. done.
  - eapply wp_mono; [by apply next_group_spec| |done]. intros w p1 (? & ? & ?). by do 3 (split; [done|]).
Qed.

(** What a selection that returned [w] left behind. *)
Definition dp_selected (p : DPPool) (req : option RouteRequest) (w : Worker) (p' : DPPool) : Prop :=
  dp_ok p' ∧ sticky_sessions p' = sticky_sessions p ∧
  affinity_to_rank p ⊆ affinity_to_rank p' ∧ is_Some (group_pools p' !! worker_dp_rank w) ∧
  ∀ key, sticky_sessions p = true → new_in_session req key →
    affinity_to_rank p' !! key = Some (worker_dp_rank w) ∧
    ∀ rank, affinity_to_rank p !! key = Some rank → worker_dp_rank w = rank.

Lemma dp_select_spec req assign_new p :
  dp_ok p → wp (dp_select req assign_new) (λ '(w, _) p', dp_selected p req w p') no_raise p.
Proof.
  intros Hok. unfold dp_select, dp_select_for_request. wp_step. do 3 wp_step. unfold id.
  set (requested := r ← req; route_dp_rank r).
  set (affinity := if sticky_sessions p then r ← req; chat_id r else None).
  match goal with |- context [match ?x with Some rank => if bool_decide _ then _ else _ | None => _ end] =>
    set (rank := x) end.
  eapply wp_mono; [by apply (dp_choose_spec rank)| |done].
  intros w p1 (Hok1 & (Hst & Haf & Hdom) & Hw & Hrank). cbv beta. unfold dp_record. do 2 wp_step.
  set (p2 := p1 <| dp_placement_counts ::= _ |>).
  assert (dp_ok p2) as Hok2 by (by destruct Hok1).
  assert (∀ key, sticky_sessions p = true → new_in_session req key →
    affinity = Some key ∧ falsy affinity = false ∧ rank = affinity_to_rank p !! key) as Hnew.
  { intros key Hs (q & Hq & Hc & Hk & Hd).
    assert (affinity = Some key) as Ha by (unfold affinity; rewrite Hs, Hq; exact Hc).
    assert (falsy affinity = false) as Hf by (rewrite Ha; cbn; by rewrite bool_decide_eq_false_2).
    split; [done|]. split; [done|]. unfold rank, requested. rewrite Hq. cbn [mbind option_bind].
    by rewrite Hd, Hf, Ha. }
  assert (∀ P : Prop, P → dp_ok (p2 <| dp_decision_count ::= Z.succ |>) ∧ sticky_sessions p1 = sticky_sessions p ∧
    affinity_to_rank p ⊆ affinity_to_rank p1 ∧ is_Some (group_pools p1 !! worker_dp_rank w) ∧ P) as Hend.
  { intros P HP. split; [by destruct Hok2|]. split; [done|]. rewrite Haf.
    split; [done|]. split; [by apply Hdom|done]. }
  clearbody rank affinity. destruct req as [q|].
  2: { do 4 wp_step. apply Hend. by intros key _ (q & ? & _). }
  match goal with |- wp (if ?c then _ else _) _ _ _ => destruct c eqn:Hassign end.
  2: { do 4 wp_step. apply Hend. intros key _ (q' & [= <-] & _ & _ & Hd). rewrite Hd in Hassign.
       by rewrite orb_true_r in Hassign. }
  wp_step. destruct affinity as [key|]; [destruct (falsy (Some key)) eqn:Hf|]; cbn [negb when]; do 5 wp_step.
  - apply Hend. intros key' Hs Hn. destruct (Hnew key' Hs Hn) as (_ & ? & _). congruence.
  - destruct (dp_remember_spec key (worker_dp_rank w) p2 Hok2) as ([? ? ? ?] & Hsub & Hkey); [by apply Hdom|].
    cbn in Hsub, Hkey. rewrite Haf in Hsub, Hkey.
    split; [done|]. split; [done|]. cbn. rewrite Haf. split; [done|]. split; [by apply Hdom|].
    intros key' Hs Hn. destruct (Hnew key' Hs Hn) as ([= <-] & _ & Hrk). rewrite Hkey.
    destruct (affinity_to_rank p !! key) as [r|] eqn:Er; [|done]. cbn [default].
    rewrite (Hrank r) by (done || by eapply do_affinity). split; [done|]. by intros ? [= <-].
  - apply Hend. intros key' Hs Hn. by destruct (Hnew key' Hs Hn) as (? & _).
Qed.

(** Every rank of a new pool has its workers. *)
Definition group_worker (m : gmap Z (list Worker)) (w : Worker) : gmap Z (list Worker) :=
  <[worker_dp_rank w := default [] (m !! worker_dp_rank w) ++ [w]]> m.

Lemma group_workers_spec (P : Worker → Prop) ws (m : gmap Z (list Worker)) :
  (∀ r l, m !! r = Some l → l ≠ [] ∧ ∀ w, w ∈ l → worker_dp_rank w = r ∧ P w) →
  (∀ w, w ∈ ws → P w) →
  ∀ r l, foldl group_worker m ws !! r = Some l →
  l ≠ [] ∧ ∀ w, w ∈ l → worker_dp_rank w = r ∧ P w.
Proof.
  revert m. induction ws as [|w ws IH]; intros m Hm Hws r l; cbn [foldl]; [apply Hm|].
  apply IH; [|set_solver]. clear IH r l. intros r l. unfold group_worker.
  destruct (decide (worker_dp_rank w = r)) as [<-|]; [|rewrite lookup_insert_ne by done; apply Hm].
  rewrite lookup_insert_eq. intros [= <-]. split; [by destruct (default [] _)|].
  intros v [Hv | ->%list_elem_of_singleton]%elem_of_app; [|set_solver].
  destruct (m !! worker_dp_rank w) as [l|] eqn:El; cbn in Hv; [|by apply elem_of_nil in Hv].
  by apply (Hm _ _ El).
Qed.

Lemma group_workers_ne ws (m : gmap Z (list Worker)) :
  ws ≠ [] ∨ m ≠ ∅ → foldl group_worker m ws ≠ ∅.
Proof.
  revert m. induction ws as [|w ws IH]; intros m [|]; cbn [foldl]; try done;
    apply IH; right; apply insert_non_empty.
Qed.

Lemma new_dp_pool_ok ws cls sticky p :
  new_dp_pool ws cls sticky = Ok p → (∀ w, w ∈ ws → worker_workload w ≠ S754_nan) →
  dp_ok p ∧ sticky_sessions p = sticky ∧ affinity_to_rank p = ∅.
Proof.
  intros Hnew Hload. unfold new_dp_pool in Hnew. destruct ws as [|w0 ws0]; [done|].
  set (ws := w0 :: ws0) in *. injection Hnew as <-. split; [|done].
  assert (group_workers ws ≠ ∅) as Hne by (apply (group_workers_ne ws); by left).
  pose proof (group_workers_spec _ ws ∅ (λ r l H, ltac:(by rewrite lookup_empty in H)) Hload) as Hgw.
  change (foldl group_worker ∅ ws) with (group_workers ws) in Hgw.
  generalize dependent (group_workers ws). intros g Hne Hg.
  split; cbn [group_pools dp_ranks cur_dp_idx affinity_to_rank].
  - intros r pool. rewrite lookup_fmap. destruct (g !! r) as [l|] eqn:El; [|done]. intros [= <-].
    destruct (Hg r l El) as [Hl Hin]. split; cbn; try done; [by apply Hin..|].
    destruct l; [done|]. cbn. lia.
  - intros r. rewrite merge_sort_Permutation, elem_of_elements, elem_of_dom, lookup_fmap.
    by rewrite fmap_is_Some.
  - rewrite merge_sort_Permutation. change (length (elements (dom g))) with (size (dom g)).
    rewrite size_dom. assert (size g ≠ 0%nat) by (by rewrite map_size_empty_iff). lia.
  - intros s r. by rewrite lookup_empty.
Qed.

(** Between two selections the engines run: the load of each worker changes,
    its rank does not. *)
Definition reload (f : Worker → Worker) (p : DPPool) : DPPool :=
  p <| group_pools ::= fmap (λ pool, pool <| pool_workers ::= fmap f |>) |>.

Inductive dp_step (p : DPPool) : DPPool → Prop :=
  | dp_step_select req assign_new : dp_step p (dp_select req assign_new p).2
  | dp_step_reload f :
      (∀ w, worker_dp_rank (f w) = worker_dp_rank w ∧ worker_workload (f w) ≠ S754_nan) →
      dp_step p (reload f p).

Lemma reload_ok f p :
  (∀ w, worker_dp_rank (f w) = worker_dp_rank w ∧ worker_workload (f w) ≠ S754_nan) →
  dp_ok p → dp_ok (reload f p).
Proof.
  intros Hf [Hp Hr Hi Ha].
  assert (∀ r, is_Some (group_pools (reload f p) !! r) ↔ is_Some (group_pools p !! r)) as Hdom
    by (intros r; cbn; rewrite lookup_fmap; apply fmap_is_Some).
  split; try done.
  - intros r pool. cbn. rewrite lookup_fmap. destruct (group_pools p !! r) as [q|] eqn:Eq; [|done].
    intros [= <-]. destruct (Hp r q Eq) as [Hne Hw Hl Hc]. split; cbn.
    + by intros ?%fmap_nil_inv.
    + intros w (v & -> & Hv)%list_elem_of_fmap. rewrite (proj1 (Hf v)). by apply Hw.
    + intros w (v & -> & Hv)%list_elem_of_fmap. apply Hf.
    + by rewrite length_fmap.
  - intros r. rewrite Hdom. apply Hr.
  - intros s r Hs. apply Hdom. by eapply Ha.
Qed.

Lemma dp_steps_keep p p' :
  rtc dp_step p p' → dp_ok p →
  dp_ok p' ∧ sticky_sessions p' = sticky_sessions p ∧ affinity_to_rank p ⊆ affinity_to_rank p'.
Proof.
  induction 1 as [p|p p1 p2 Hstep _ IH]; intros Hok; [done|].
  assert (dp_ok p1 ∧ sticky_sessions p1 = sticky_sessions p ∧ affinity_to_rank p ⊆ affinity_to_rank p1)
    as (Hok1 & Hs & Ha).
  { destruct Hstep as [req b|f Hf]; [|by split; [apply reload_ok|]].
    destruct (wp_ok_inv _ _ _ (dp_select_spec req b p Hok)) as ([w q] & p' & -> & ? & ? & ? & _). done. }
  destruct (IH Hok1) as (? & ? & ?). split; [done|]. split; [congruence|]. by etrans.
Qed.

(** C39 (safety).  Sessions stick.  Take a pool with sticky sessions after any history of
    selections, for requests of any session or rank, and of load changes.  No selection
    raises, whatever the request.  When a request of a session that carries no rank of its
    own is selected, every later request of the session that carries none goes to the same
    data-parallel rank, whatever was selected in between. *)
Theorem dp_sessions_stick ws cls p0 p1 :
  new_dp_pool ws cls true = Ok p0 → (∀ w, w ∈ ws → worker_workload w ≠ S754_nan) →
  rtc dp_step p0 p1 →
  (∀ req assign, ∃ out, (dp_select req assign p1).1 = Ok out) ∧
  ∀ key req1 assign1 w1 q1 p2, new_in_session req1 key → dp_select req1 assign1 p1 = (Ok (w1, q1), p2) →
  ∀ p3 req2 assign2, rtc dp_step p2 p3 → new_in_session req2 key →
  ∃ w2 q2 p4, dp_select req2 assign2 p3 = (Ok (w2, q2), p4) ∧ worker_dp_rank w2 = worker_dp_rank w1.
Proof.
  intros Hnew Hload Hh1. destruct (new_dp_pool_ok _ _ _ _ Hnew Hload) as (Hok0 & Hs0 & _).
  destruct (dp_steps_keep _ _ Hh1 Hok0) as (Hok1 & Hs1 & _). split.
  { intros req assign. destruct (wp_ok_inv _ _ _ (dp_select_spec req assign p1 Hok1)) as (out & p' & -> & _). by exists out. }
  intros key req1 assign1 w1 q1 p2 Hreq1 Hsel1 p3 req2 assign2 Hh2 Hreq2.
  pose proof (dp_select_spec req1 assign1 p1 Hok1) as H1. unfold wp in H1. rewrite Hsel1 in H1.
  destruct H1 as (Hok2 & Hs2 & _ & _ & Hkey1). destruct (Hkey1 key ltac:(congruence) Hreq1) as [Hrec _].
  destruct (dp_steps_keep _ _ Hh2 Hok2) as (Hok3 & Hs3 & Hsub).
  destruct (wp_ok_inv _ _ _ (dp_select_spec req2 assign2 p3 Hok3)) as ([w2 q2] & p4 & Hsel2 & _ & _ & _ & _ & Hkey2).
  exists w2, q2, p4. split; [done|]. destruct (Hkey2 key ltac:(congruence) Hreq2) as [_ Hr].
  apply Hr. by eapply lookup_weaken.
Qed.

Definition demo_request (session : string) : RouteRequest := mkRoute (Some session) None None None.

(** A request of another session comes in between, and one with a rank of its own. *)
Lemma dp_sessions_stick_witness :
  let ws := [demo_worker 1 0 0; demo_worker 2 1 0] in
  ∃ p0 w1 q1 p2 w2 q2 p4, new_dp_pool ws RoundRobin true = Ok p0 ∧
    dp_select (Some (demo_request "chat")) true p0 = (Ok (w1, q1), p2) ∧
    let p3 := (dp_select (Some (mkRoute (Some "chat") None (Some 1) None)) true
      (dp_select (Some (demo_request "other")) true p2).2).2 in
    dp_select (Some (demo_request "chat")) false p3 = (Ok (w2, q2), p4) ∧
    worker_dp_rank w2 = worker_dp_rank w1.
Proof.
  intros ws. destruct (new_dp_pool ws RoundRobin true) as [p0|] eqn:Hnew; [|discriminate Hnew].
  assert (new_in_session (Some (demo_request "chat")) "chat") as Hn by (eexists; repeat split; done).
  assert (∀ w, w ∈ ws → worker_workload w ≠ S754_nan) as Hload.
  { intros w Hw. unfold ws in Hw. rewrite !elem_of_cons, elem_of_nil in Hw. by destruct Hw as [-> | [-> | []]]. }
  destruct (dp_sessions_stick ws RoundRobin p0 p0 Hnew Hload (rtc_refl _ _)) as [Hno Hsticks].
  destruct (Hno (Some (demo_request "chat")) true) as [[w1 q1] Hout].
  destruct (dp_select (Some (demo_request "chat")) true p0) as [out p2] eqn:Hsel1. cbn in Hout. subst out.
  set (p3 := (dp_select (Some (mkRoute (Some "chat") None (Some 1) None)) true
    (dp_select (Some (demo_request "other")) true p2).2).2).
  assert (rtc dp_step p2 p3) as Hh by (eapply rtc_l; [apply dp_step_select|]; apply rtc_once, dp_step_select).
  destruct (Hsticks "chat"%string _ _ _ _ _ Hn Hsel1 p3 (Some (demo_request "chat")) false Hh Hn)
    as (w2 & q2 & p4 & Hsel2 & Hrank).
  exists p0, w1, q1, p2, w2, q2, p4. split; [reflexivity|]. split; [exact Hsel1|]. split; [exact Hsel2|exact Hrank].
Defined.

(** One request of each session in turn. *)
Fixpoint select_sessions (keys : list string) : M DPPool unit :=
  match keys with
  | [] => mret tt
  | key :: keys => dp_select (Some (demo_request key)) true ;; select_sessions keys
  end.

(** The affinity table is declared with room for 65536 sessions, and its insertion
    ([setdefault]) does not go through the bounded [__setitem__]: it holds an
    entry for each of any number of sessions. *)
Theorem affinity_unbounded keys p :
  dp_ok p → sticky_sessions p = true → affinity_to_rank p = ∅ →
  NoDup keys → Forall (λ key, key ≠ ""%string) keys →
  ∃ p', select_sessions keys p = (Ok tt, p') ∧ (length keys <= size (affinity_to_rank p'))%nat.
Proof.
  intros Hok Hs Hempty Hnd Hne.
  assert (∃ p', select_sessions keys p = (Ok tt, p') ∧ affinity_to_rank p ⊆ affinity_to_rank p' ∧
    ∀ key, key ∈ keys → key ∈ dom (affinity_to_rank p')) as (p' & Hrun & _ & Hin).
  { clear Hempty Hnd. revert p Hok Hs. induction Hne as [|key keys Hk Hne IH]; intros p Hok Hs.
    - exists p. split; [done|]. split; [done|]. by intros key Hkey%elem_of_nil.
    - destruct (wp_ok_inv _ _ _ (dp_select_spec (Some (demo_request key)) true p Hok))
        as ([w q] & p1 & Hsel & Hok1 & Hs1 & Hsub1 & _ & Hkey).
      destruct (IH p1 Hok1) as (p' & Hrun & Hsub & Hin); [congruence|]. exists p'. split.
      { cbn [select_sessions]. unfold mbind, M_bind. by rewrite Hsel. }
      split; [by etrans|]. intros k [-> | Hk']%elem_of_cons; [|by apply Hin].
      destruct (Hkey key Hs) as [Hrec _]; [by exists (demo_request key)|].
      apply elem_of_dom. exists (worker_dp_rank w). by eapply lookup_weaken. }
  exists p'. split; [done|]. rewrite <- size_dom, <- (size_list_to_set (C := gset string) keys Hnd).
  apply subseteq_size. intros key Hkey%elem_of_list_to_set. by apply Hin.
Qed.

Lemma affinity_unbounded_witness :
  ∃ p p', new_dp_pool [demo_worker 1 0 0] RoundRobin true = Ok p ∧
    select_sessions ["a"; "b"; "c"] p = (Ok tt, p') ∧ (3 <= size (affinity_to_rank p'))%nat.
Proof.
  destruct (new_dp_pool [demo_worker 1 0 0] RoundRobin true) as [p|] eqn:Hnew; [|discriminate Hnew].
  assert (∀ w, w ∈ [demo_worker 1 0 0] → worker_workload w ≠ S754_nan) as Hload.
  { by intros w ->%list_elem_of_singleton. }
  destruct (new_dp_pool_ok _ _ _ _ Hnew Hload) as (Hok & Hs & Ha).
  destruct (affinity_unbounded ["a"; "b"; "c"]%string p Hok Hs Ha) as (p' & Hrun & Hsize).
  - repeat constructor; set_solver.
  - by repeat constructor.
  - exists p, p'. split; [reflexivity|]. split; [exact Hrun|exact Hsize].
Defined.
