(* ===== verification/OffloadTier.v ===== *)
(** * The offload tier ([TokenSim/mooncake/ssd.py], [TokenSim/storage/ssd.py],
      [TokenSim/storage/interfaces.py], [TokenSim/storage/metrics.py])

    A bounded second tier under the Mooncake store: block counts per key, an
    LRU order, and protection times for objects that are being written or read.
    A storage backend is a media model; the SSD backend is defined here, any
    other backend is a plugin and appears as a value of [StorageBackend]. *)

From stdpp Require Import gmap list strings sorting.
From Stdlib Require Import ZArith Lia SpecFloat.
From S2P Require Import Prelude.
From S2P Require Import PyFloat.
From S2P Require Import PrefixKeys.

Open Scope Z_scope.
Open Scope tokensim_scope.

(** ** Storage backends *)

Inductive io_op := Read | Write.

(** [estimate_io] gives the service time a backend passes to [IOCost]; [describe]
    is its profile in canonical JSON. *)
Record StorageBackend := mkBackend {
  capacity_bytes : Z;
  estimate_io : io_op → Z → pyfloat;
  describe : pystr;
}.

(** [IOCost.__post_init__]: a service time is finite and not negative. *)
Definition IOCost (seconds : pyfloat) : outcome pyfloat :=
  if fisfinite seconds && negb (fltb seconds f0) then Ok seconds else Raise ConfigurationError.

Record SSDConfig := mkSSD {
  ssd_capacity_bytes : Z;
  read_bandwidth_bytes_per_s : pyfloat;
  write_bandwidth_bytes_per_s : pyfloat;
  read_latency_us : pyfloat;
  write_latency_us : pyfloat;
}.

(** [SSDConfig.__post_init__] *)
Definition valid_ssd (c : SSDConfig) : bool :=
  let ok x := fisfinite x && negb (fltb x f0) in
  let positive x := ok x && negb (SFeqb x f0) in
  (0 <=? ssd_capacity_bytes c) &&
  positive (read_bandwidth_bytes_per_s c) && ok (read_latency_us c) &&
  positive (write_bandwidth_bytes_per_s c) && ok (write_latency_us c).

(** [SSDBackend.estimate_io] *)
Definition ssd_estimate_io (c : SSDConfig) (operation : io_op) (nbytes : Z) : pyfloat :=
  if nbytes =? 0 then f0
  else
    let '(latency_us, bandwidth) :=
      match operation with
      | Read => (read_latency_us c, read_bandwidth_bytes_per_s c)
      | Write => (write_latency_us c, write_bandwidth_bytes_per_s c)
      end in
    fadd (fdiv latency_us (fof 1000000)) (fdiv (fof nbytes) bandwidth).

(** [SSDBackend(config)] *)
Definition ssd_backend (profile : pystr) (c : SSDConfig) : outcome StorageBackend :=
  if valid_ssd c then Ok (mkBackend (ssd_capacity_bytes c) (ssd_estimate_io c) profile)
  else Raise ConfigurationError.

(** [legacy_ssd_backend] *)
Definition legacy_ssd_backend (ssd : SSDConfig) (ssd_capacity_blocks : option Z) (profile : pystr)
    (block_bytes : Z) : outcome StorageBackend :=
  let capacity :=
    match ssd_capacity_blocks with
    | None => ssd_capacity_bytes ssd
    | Some blocks => blocks * block_bytes
    end in
  ssd_backend profile
    (mkSSD capacity (read_bandwidth_bytes_per_s ssd) (write_bandwidth_bytes_per_s ssd)
      (read_latency_us ssd) (write_latency_us ssd)).

(** ** Metrics of one backend *)

Record BackendMetrics := mkMetrics {
  metrics_backend : pystr;
  metrics_profile : pystr;
  hit_count : Z;
  read_operations : Z;
  read_blocks : Z;
  read_bytes : Z;
  read_service_seconds : pyfloat;
  write_operations : Z;
  write_blocks : Z;
  write_bytes : Z;
  write_service_seconds : pyfloat;
}.

#[global] Instance eta_metrics : Eta BackendMetrics := λ r,
  mkMetrics (metrics_backend r) (metrics_profile r) (hit_count r) (read_operations r)
    (read_blocks r) (read_bytes r) (read_service_seconds r) (write_operations r)
    (write_blocks r) (write_bytes r) (write_service_seconds r).

Definition new_metrics (backend profile : pystr) : BackendMetrics :=
  mkMetrics backend profile 0 0 0 0 f0 0 0 0 f0.

(** [BackendMetrics.aggregate] *)
Definition aggregate (r r' : BackendMetrics) : outcome BackendMetrics :=
  if bool_decide ((metrics_backend r, metrics_profile r) = (metrics_backend r', metrics_profile r')) then
    Ok (mkMetrics (metrics_backend r) (metrics_profile r) (hit_count r + hit_count r')
      (read_operations r + read_operations r') (read_blocks r + read_blocks r')
      (read_bytes r + read_bytes r') (fadd (read_service_seconds r) (read_service_seconds r'))
      (write_operations r + write_operations r') (write_blocks r + write_blocks r')
      (write_bytes r + write_bytes r') (fadd (write_service_seconds r) (write_service_seconds r')))
  else Raise SimulationStateError.

(** [record_io] *)
Definition record_io (operation : io_op) (blocks nbytes : Z) (seconds : pyfloat) (r : BackendMetrics) :
    BackendMetrics :=
  if nbytes <=? 0 then r
  else
    match operation with
    | Read => r <| read_operations ::= Z.succ |> <| read_blocks ::= Z.add blocks |>
                <| read_bytes ::= Z.add nbytes |> <| read_service_seconds ::= λ t, fadd t seconds |>
    | Write => r <| write_operations ::= Z.succ |> <| write_blocks ::= Z.add blocks |>
                 <| write_bytes ::= Z.add nbytes |> <| write_service_seconds ::= λ t, fadd t seconds |>
    end.

(** [StorageMetrics.stores], by store address and tier name *)
Abbreviation StorageMetrics := (gmap (pystr * pystr) BackendMetrics).

(** [StorageMetrics.instance] *)
Definition instance (store name backend profile : pystr) (metrics : StorageMetrics) :
    outcome BackendMetrics * StorageMetrics :=
  let metrics :=
    match metrics !! (store, name) with
    | Some _ => metrics
    | None => <[(store, name) := new_metrics backend profile]> metrics
    end in
  match metrics !! (store, name) with
  | Some record =>
      if bool_decide ((metrics_backend record, metrics_profile record) = (backend, profile))
      then (Ok record, metrics) else (Raise SimulationStateError, metrics)
  | None => (Raise KeyError, metrics)
  end.

(** ** The tier *)

Record OffloadOperation := mkOp {
  op_blocks : Z;
  op_bytes : Z;
  op_latency : pyfloat;
  evicted_keys : list pystr;
}.

Record OffloadTier := mkTier {
  tier_block_bytes : Z;
  legacy_ssd : bool;
  tier_name : pystr;
  reference : pystr;
  backend : StorageBackend;
  capacity_blocks : Z;
  tier_blocks : gmap pystr Z;
  tier_lru : list pystr;
  used_blocks : Z;
  protected_until : gmap pystr pyfloat;
}.

#[global] Instance eta_tier : Eta OffloadTier := λ t,
  mkTier (tier_block_bytes t) (legacy_ssd t) (tier_name t) (reference t) (backend t)
    (capacity_blocks t) (tier_blocks t) (tier_lru t) (used_blocks t) (protected_until t).

(** [OffloadTier.__init__] over a backend: [spec] is the name and the reference of
    a plugin, [None] the legacy SSD *)
Definition new_tier (spec : option (pystr * pystr)) (backend : StorageBackend) (block_bytes : Z) : OffloadTier :=
  let block_bytes := Z.max 1 block_bytes in
  let '(name, reference) := default (lit "ssd", lit "ssd") spec in
  mkTier block_bytes (bool_decide (spec = None)) name reference backend
    (capacity_bytes backend / block_bytes) ∅ [] 0 ∅.

(** [self._lru.pop(key, None)] *)
Definition lru_remove (key : pystr) (lru : list pystr) : list pystr := filter (λ k, k ≠ key) lru.

(** [self._lru.move_to_end(key)] of a key in the dict *)
Definition lru_move_to_end (key : pystr) (lru : list pystr) : list pystr := lru_remove key lru ++ [key].

(** [lru[key] = None]: a new key goes to the end, a known key keeps its place *)
Definition lru_set (key : pystr) (lru : list pystr) : list pystr :=
  if bool_decide (key ∈ lru) then lru else lru ++ [key].

#[global] Arguments lru_remove _ _ : simpl never.
#[global] Arguments lru_move_to_end _ _ : simpl never.
#[global] Arguments lru_set _ _ : simpl never.

Definition contains (key : pystr) (t : OffloadTier) : bool := bool_decide (is_Some (tier_blocks t !! key)).

(** [_latency] *)
Definition latency (operation : io_op) (nbytes : Z) : M OffloadTier pyfloat := λ t,
  if nbytes <=? 0 then (Ok f0, t) else (IOCost (estimate_io (backend t) operation nbytes), t).

Definition read (key : pystr) : M OffloadTier OffloadOperation :=
  blocks ← gets (λ t, default 0 (tier_blocks t !! key));
  bytes ← gets (λ t, blocks * tier_block_bytes t);
  modify (λ t, if bool_decide (key ∈ tier_lru t) then t <| tier_lru ::= lru_move_to_end key |> else t) ;;
  seconds ← latency Read bytes;
  mret (mkOp blocks bytes seconds []).

Definition pin (key : pystr) (until : pyfloat) : M OffloadTier unit :=
  modify (λ t, t <| protected_until ::= λ m, <[key := fmax (default f0 (m !! key)) until]> m |>).

(** [_remove_existing] *)
Definition remove_existing (key : pystr) (t : OffloadTier) : OffloadTier :=
  t <| used_blocks ::= λ n, n - default 0 (tier_blocks t !! key) |>
    <| tier_blocks ::= delete key |>
    <| tier_lru ::= lru_remove key |>
    <| protected_until ::= delete key |>.

(** The loop over the LRU order that gathers unprotected candidates until there is room. *)
Fixpoint gather (key : pystr) (now : pyfloat) (extra : Z) (t : OffloadTier) (lru : list pystr)
    (candidates : list pystr) (available : Z) : outcome (list pystr * Z) :=
  match lru with
  | [] => Ok (candidates, available)
  | candidate :: lru =>
      if negb (bool_decide (candidate = key)) &&
         fleb (default f0 (protected_until t !! candidate)) now then
        match tier_blocks t !! candidate with
        | None => Raise KeyError
        | Some blocks =>
            let candidates := candidates ++ [candidate] in
            let available := available + blocks in
            if extra <=? available then Ok (candidates, available)
            else gather key now extra t lru candidates available
        end
      else gather key now extra t lru candidates available
  end.

Definition rejected_write (key : pystr) : OffloadOperation := mkOp 0 0 f0 [key].

Definition write (key : pystr) (blocks : Z) (now : pyfloat) : M OffloadTier OffloadOperation :=
  t ← gets id;
  if capacity_blocks t <=? 0 then raise ConfigurationError
  else if capacity_blocks t <? blocks then mret (rejected_write key)
  else
    let extra := blocks - default 0 (tier_blocks t !! key) in
    let available := capacity_blocks t - used_blocks t in
    match (if available <? extra then gather key now extra t (tier_lru t) [] available else Ok ([], available)) with
    | Raise e => raise e
    | Ok (candidates, available) =>
        if available <? extra then mret (rejected_write key)
        else
          let bytes := blocks * tier_block_bytes t in
          seconds ← latency Write bytes;
          modify (λ t, foldl (λ t candidate, remove_existing candidate t) t candidates) ;;
          modify (remove_existing key) ;;
          modify (λ t, t <| tier_blocks ::= <[key := blocks]> |>
                         <| used_blocks ::= Z.add blocks |>
                         <| tier_lru ::= lru_set key |>) ;;
          mret (mkOp blocks bytes seconds candidates)
    end.
