(* ===== verification/OffloadSpec.v ===== *)
(** * Theorems about the offload tier

    The accounting invariant of the tier ([tier_ok]) and the exact effect of a
    write: it is rejected when even evicting every unprotected entry would not
    make room, and otherwise evicts the shortest prefix of the unprotected entries
    in LRU order that does. *)

From stdpp Require Import gmap list strings sorting.
From Stdlib Require Import ZArith Lia SpecFloat.
From S2P Require Import Prelude.
From S2P Require Import PyFloat.
From S2P Require Import PrefixKeys.
From S2P Require Import OffloadTier.

Open Scope Z_scope.
Open Scope tokensim_scope.

(** ** LRU orders *)

Lemma elem_of_lru_remove k key lru : k ∈ lru_remove key lru ↔ k ∈ lru ∧ k ≠ key.
Proof. unfold lru_remove. rewrite list_elem_of_filter. tauto. Qed.

Lemma elem_of_lru_remove_ne k key lru : k ≠ key → k ∈ lru_remove key lru ↔ k ∈ lru.
Proof. intros Hk. rewrite elem_of_lru_remove. tauto. Qed.

Lemma NoDup_lru_remove key lru : NoDup lru → NoDup (lru_remove key lru).
Proof. apply NoDup_filter. Qed.

Lemma lru_remove_absent key lru : key ∉ lru → lru_remove key lru = lru.
Proof. intros Hk. apply filter_all, Forall_forall. by intros k Hin ->. Qed.

Lemma elem_of_lru_set k key lru : k ∈ lru_set key lru ↔ k ∈ lru ∨ k = key.
Proof.
  unfold lru_set. case_bool_decide; [|rewrite elem_of_app, list_elem_of_singleton; tauto].
  split; [tauto|]. by intros [?| ->].
Qed.

Lemma NoDup_lru_set key lru : NoDup lru → NoDup (lru_set key lru).
Proof.
  intros Hnd. unfold lru_set. case_bool_decide; [done|]. apply NoDup_app. split; [done|].
  split; [|apply NoDup_singleton]. by intros x Hx ->%list_elem_of_singleton.
Qed.

Lemma lru_move_perm key lru : NoDup lru → key ∈ lru → lru_move_to_end key lru ≡ₚ lru.
Proof.
  intros Hnd Hin. unfold lru_move_to_end. rewrite (Permutation_app_comm _ [key]). cbn.
  apply NoDup_Permutation; [|done|].
  - constructor; [|by apply NoDup_lru_remove]. rewrite elem_of_lru_remove. tauto.
  - intros x. rewrite elem_of_cons, elem_of_lru_remove. destruct (decide (x = key)) as [->|]; naive_solver.
Qed.

Lemma length_lru_remove key lru :
  NoDup lru → key ∈ lru → length lru = S (length (lru_remove key lru)).
Proof.
  intros Hnd Hin. rewrite <- (lru_move_perm key lru) at 1 by done.
  unfold lru_move_to_end. rewrite length_app. cbn. lia.
Qed.

(** ** Totals *)

Definition total (m : gmap pystr Z) : Z := map_fold (λ _ n s, n + s) 0 m.

Lemma total_insert m k n : m !! k = None → total (<[k := n]> m) = n + total m.
Proof. intros Hk. unfold total. rewrite map_fold_insert_L; [done| |done]. intros; lia. Qed.

Lemma total_delete m k : total m = default 0 (m !! k) + total (delete k m).
Proof.
  destruct (m !! k) as [n|] eqn:Hk; cbn.
  - rewrite <- (insert_delete_id m k n Hk) at 1. rewrite total_insert; [done|]. apply lookup_delete_eq.
  - by rewrite delete_id.
Qed.

Lemma total_nonneg m : (∀ k n, m !! k = Some n → 0 <= n) → 0 <= total m.
Proof.
  induction m as [|k n m Hk IH] using map_ind; intros Hm; [done|].
  rewrite total_insert by done. specialize (Hm k n ltac:(by rewrite lookup_insert_eq)) as Hn.
  enough (0 <= total m) by lia. apply IH. intros k' n' Hk'. apply (Hm k').
  rewrite lookup_insert_ne; [done|]. congruence.
Qed.

(** ** The invariant *)

Record tier_ok (t : OffloadTier) : Prop := {
  to_nodup : NoDup (tier_lru t);
  to_lru k : k ∈ tier_lru t ↔ is_Some (tier_blocks t !! k);
  to_blocks k n : tier_blocks t !! k = Some n → 1 <= n;
  to_used : used_blocks t = total (tier_blocks t);
  to_fits : used_blocks t <= capacity_blocks t;
  to_capacity : 1 <= capacity_blocks t;
}.

(** The fields no operation changes. *)
Definition tier_frame (t t' : OffloadTier) : Prop :=
  tier_block_bytes t' = tier_block_bytes t ∧ legacy_ssd t' = legacy_ssd t ∧
  tier_name t' = tier_name t ∧ reference t' = reference t ∧
  backend t' = backend t ∧ capacity_blocks t' = capacity_blocks t.

Lemma tier_frame_trans t1 t2 t3 : tier_frame t1 t2 → tier_frame t2 t3 → tier_frame t1 t3.
Proof. intros (? & ? & ? & ? & ? & ?) (? & ? & ? & ? & ? & ?). repeat split; congruence. Qed.

Lemma remove_existing_ok key t : tier_ok t → tier_ok (remove_existing key t) ∧ tier_frame t (remove_existing key t).
Proof.
  intros [Hnd Hlru Hb Hu Hf Hc]. split; [|done].
  pose proof (total_delete (tier_blocks t) key) as Ht.
  split; cbn.
  - by apply NoDup_lru_remove.
  - intros k. rewrite elem_of_lru_remove, Hlru. destruct (decide (k = key)) as [->|].
    + rewrite lookup_delete_eq. split; [tauto|]. by intros [? ?].
    + rewrite lookup_delete_ne by done. tauto.
  - intros k n. rewrite lookup_delete_Some. intros [_ ?]. by eapply Hb.
  - lia.
  - destruct (tier_blocks t !! key) as [n|] eqn:Hk; cbn; [|lia]. specialize (Hb key n Hk). lia.
  - done.
Qed.

(** Blocks of a list of keys. *)
Definition blocks_of (t : OffloadTier) (keys : list pystr) : Z :=
  foldr (λ k s, default 0 (tier_blocks t !! k) + s) 0 keys.

Lemma blocks_of_app t l l' : blocks_of t (l ++ l') = blocks_of t l + blocks_of t l'.
Proof. unfold blocks_of. induction l as [|k l IH]; cbn; [lia|]. rewrite IH. lia. Qed.

(** Removing a list of distinct keys. *)
Lemma remove_all_spec keys t :
  tier_ok t → NoDup keys →
  let t' := foldl (λ t k, remove_existing k t) t keys in
  tier_ok t' ∧ tier_frame t t' ∧ used_blocks t' = used_blocks t - blocks_of t keys ∧
  tier_lru t' = filter (λ k, k ∉ keys) (tier_lru t) ∧
  (∀ k, tier_blocks t' !! k = if bool_decide (k ∈ keys) then None else tier_blocks t !! k) ∧
  (∀ k, protected_until t' !! k = if bool_decide (k ∈ keys) then None else protected_until t !! k).
Proof.
  intros Hok Hnd. revert t Hok. induction Hnd as [|key keys Hin Hnd IH]; intros t Hok t'.
  { split; [done|]. split; [done|]. cbn. split; [lia|]. split; [|done].
    rewrite filter_all; [done|]. apply Forall_forall. intros k _. apply not_elem_of_nil. }
  destruct (remove_existing_ok key t Hok) as [Hok1 Hf1].
  destruct (IH _ Hok1) as (Hok' & Hf & Hu & Hl & Hb & Hp). clear IH.
  split; [exact Hok'|]. split; [exact (tier_frame_trans _ _ _ Hf1 Hf)|]. fold t' in Hu, Hl, Hb, Hp.
  change (foldl (λ t k, remove_existing k t) (remove_existing key t) keys) with t' in *.
  assert (blocks_of (remove_existing key t) keys = blocks_of t keys) as Hbo.
  { clear -Hin. induction keys as [|k keys IH]; [done|]. apply not_elem_of_cons in Hin as [? ?].
    cbn in *. rewrite lookup_delete_ne by done. unfold blocks_of in IH. cbn in IH. by rewrite IH. }
  split.
  { rewrite Hu, Hbo. change (blocks_of t (key :: keys)) with (default 0 (tier_blocks t !! key) + blocks_of t keys).
    cbn. lia. }
  split.
  { rewrite Hl. cbn. unfold lru_remove. rewrite list_filter_filter. apply list_filter_iff.
    intros k. rewrite not_elem_of_cons. tauto. }
  split; intros k; [rewrite Hb|rewrite Hp]; cbn; destruct (decide (k = key)) as [->|];
    rewrite ?lookup_delete_eq, ?lookup_delete_ne by done;
    repeat case_bool_decide; set_solver.
Qed.

(** ** Writes *)

(** What a write may evict: unprotected entries of other keys, oldest first. *)
Definition evictable (key : pystr) (now : pyfloat) (t : OffloadTier) (k : pystr) : bool :=
  negb (bool_decide (k = key)) && fleb (default f0 (protected_until t !! k)) now.

Definition victims (key : pystr) (now : pyfloat) (t : OffloadTier) (lru : list pystr) : list pystr :=
  filter (λ k, evictable key now t k = true) lru.

Lemma gather_spec key now extra t lru acc available :
  available < extra → (∀ k, k ∈ lru → is_Some (tier_blocks t !! k)) →
  ∃ n, gather key now extra t lru acc available =
    Ok (acc ++ take n (victims key now t lru), available + blocks_of t (take n (victims key now t lru))) ∧
    (n <= length (victims key now t lru))%nat ∧
    (∀ m, (m < n)%nat → available + blocks_of t (take m (victims key now t lru)) < extra) ∧
    (extra <= available + blocks_of t (take n (victims key now t lru)) ∨ n = length (victims key now t lru)).
Proof.
  revert acc available. induction lru as [|c lru IH]; intros acc available Hlt Hin.
  { exists 0%nat. cbn. rewrite app_nil_r. split; [f_equal; f_equal; lia|]. split; [lia|]. split; [lia|by right]. }
  assert (∀ k, k ∈ lru → is_Some (tier_blocks t !! k)) as Hin' by set_solver.
  cbn [gather]. unfold victims. rewrite filter_cons. fold (victims key now t lru).
  fold (evictable key now t c). destruct (evictable key now t c) eqn:He.
  2: { destruct (decide (false = true)); [done|]. by apply IH. }
  destruct (decide (true = true)) as [_|]; [|done].
  destruct (Hin c ltac:(set_solver)) as [b Hb]. rewrite Hb. set (vs := victims key now t lru).
  assert (∀ l, blocks_of t (c :: l) = b + blocks_of t l) as Hcons by (intros l; cbn; by rewrite Hb).
  destruct (Z.leb_spec extra (available + b)) as [Hle|Hgt].
  - exists 1%nat. rewrite firstn_cons, take_0, Hcons. change (blocks_of t []) with 0.
    split; [f_equal; f_equal; lia|]. split; [cbn; lia|]. split; [|left; lia].
    intros m Hm. replace m with 0%nat by lia. cbn. lia.
  - destruct (IH (acc ++ [c]) (available + b)) as (n & -> & Hn & Hmin & Hend); [lia|done|]. fold vs in Hn, Hmin, Hend |- *.
    exists (S n). cbn [take length]. rewrite Hcons. rewrite <- app_assoc. cbn [app].
    split; [f_equal; f_equal; lia|]. split; [lia|]. split; [|destruct Hend; [left|right]; lia].
    intros [|m] Hm; [cbn; lia|]. cbn [take]. rewrite Hcons. specialize (Hmin m ltac:(lia)). lia.
Qed.

Lemma blocks_of_filter_le t (P : pystr → Prop) `{∀ k, Decision (P k)} l :
  tier_ok t → blocks_of t (filter P l) <= blocks_of t l.
Proof.
  intros Hok. induction l as [|k l IH]; [done|]. rewrite filter_cons.
  assert (0 <= default 0 (tier_blocks t !! k)).
  { destruct (tier_blocks t !! k) eqn:E; cbn; [|lia]. pose proof (to_blocks _ Hok _ _ E). lia. }
  destruct (decide (P k)); cbn; unfold blocks_of in *; lia.
Qed.

(** The outcome of a write: the shortest prefix of the victims that makes room is
    evicted, or nothing changes and the key itself is reported. *)
Definition write_fits (t : OffloadTier) (key : pystr) (blocks : Z) (now : pyfloat) (n : nat) : Prop :=
  let vs := victims key now t (tier_lru t) in
  let room m := capacity_blocks t - used_blocks t + blocks_of t (take m vs) in
  let extra := blocks - default 0 (tier_blocks t !! key) in
  blocks <= capacity_blocks t ∧ (n <= length vs)%nat ∧ extra <= room n ∧
  ∀ m, (m < n)%nat → room m < extra.

Definition written (t : OffloadTier) (key : pystr) (blocks : Z) (gone : list pystr) (t' : OffloadTier) : Prop :=
  tier_lru t' = filter (λ k, k ∉ key :: gone) (tier_lru t) ++ [key] ∧
  (∀ k, tier_blocks t' !! k =
     if bool_decide (k = key) then Some blocks
     else if bool_decide (k ∈ gone) then None else tier_blocks t !! k) ∧
  (∀ k, protected_until t' !! k =
     if bool_decide (k ∈ key :: gone) then None else protected_until t !! k).

(** The backend prices an I/O of [bytes]. *)
Definition prices (t : OffloadTier) (operation : io_op) (bytes : Z) : Prop :=
  ∃ seconds, IOCost (estimate_io (backend t) operation bytes) = Ok seconds.

Lemma latency_ok t operation bytes :
  (0 < bytes → prices t operation bytes) → ∃ seconds, latency operation bytes t = (Ok seconds, t).
Proof.
  intros Hp. unfold latency. destruct (Z.leb_spec bytes 0) as [|Hb]; [eauto|].
  destruct (Hp Hb) as [x ->]. eauto.
Qed.

Lemma install_ok t key blocks gone :
  tier_ok t → 1 <= blocks → key ∉ gone → NoDup gone → (∀ k, k ∈ gone → k ∈ tier_lru t) →
  blocks - default 0 (tier_blocks t !! key) <= capacity_blocks t - used_blocks t + blocks_of t gone →
  let t' := foldl (λ t k, remove_existing k t) t gone in
  let t' := remove_existing key t' in
  let t' := t' <| tier_blocks ::= <[key := blocks]> |> <| used_blocks ::= Z.add blocks |>
               <| tier_lru ::= lru_set key |> in
  tier_ok t' ∧ tier_frame t t' ∧ written t key blocks gone t'.
Proof.
  intros Hok Hb Hkey Hnd Hgone Hroom. cbn zeta.
  destruct (remove_all_spec gone t Hok Hnd) as (Hok1 & Hf1 & Hu1 & Hl1 & Hb1 & Hp1).
  set (t1 := foldl _ t gone) in *. clearbody t1.
  destruct (remove_existing_ok key t1 Hok1) as [Hok2 Hf2].
  assert (used_blocks (remove_existing key t1) = used_blocks t1 - default 0 (tier_blocks t !! key)) as Hu2.
  { cbn. rewrite (Hb1 key). by rewrite bool_decide_eq_false_2. }
  assert (tier_lru (remove_existing key t1) = filter (λ k, k ∉ key :: gone) (tier_lru t)) as Hl2.
  { cbn. rewrite Hl1. unfold lru_remove. rewrite list_filter_filter. apply list_filter_iff.
    intros k. rewrite not_elem_of_cons. tauto. }
  set (t2 := remove_existing key t1) in *.
  assert (tier_blocks t2 !! key = None) as Hk2 by (cbn; apply lookup_delete_eq).
  assert (∀ k, k ≠ key → tier_blocks t2 !! k = tier_blocks t1 !! k) as Hb2
    by (intros; cbn; by rewrite lookup_delete_ne).
  assert (∀ k, protected_until t2 !! k = if bool_decide (k ∈ key :: gone) then None else protected_until t !! k) as Hp2.
  { intros k. cbn. destruct (decide (k = key)) as [->|].
    - rewrite lookup_delete_eq. by rewrite bool_decide_eq_true_2 by set_solver.
    - rewrite lookup_delete_ne, Hp1 by done. repeat case_bool_decide; set_solver. }
  pose proof (tier_frame_trans _ _ _ Hf1 Hf2) as Hf. clearbody t2. destruct Hok2 as [Hnd2 Hlru2 Hbl2 Hus2 Hfi2 Hca2].
  assert (key ∉ tier_lru t2) as Hnk by (rewrite Hlru2, Hk2; by intros [? ?]).
  split; [split; cbn|].
  - by apply NoDup_lru_set.
  - intros k. rewrite elem_of_lru_set. destruct (decide (k = key)) as [->|].
    + rewrite lookup_insert_eq. split; eauto.
    + rewrite lookup_insert_ne, <- Hlru2 by done. naive_solver.
  - intros k n. destruct (decide (k = key)) as [->|]; [rewrite lookup_insert_eq; by intros [= <-]|].
    rewrite lookup_insert_ne by done. apply Hbl2.
  - rewrite total_insert by done. lia.
  - destruct Hf as (_ & _ & _ & _ & _ & ->). lia.
  - done.
  - split; [exact Hf|]. split; [|split]; cbn.
    + unfold lru_set. rewrite bool_decide_eq_false_2 by done. by rewrite Hl2.
    + intros k. case_bool_decide as Hk; [subst; by rewrite lookup_insert_eq|].
      rewrite lookup_insert_ne by done. rewrite Hb2 by done. apply Hb1.
    + apply Hp2.
Qed.

Lemma victims_spec key now t k :
  k ∈ victims key now t (tier_lru t) ↔
  k ∈ tier_lru t ∧ k ≠ key ∧ fleb (default f0 (protected_until t !! k)) now = true.
Proof.
  unfold victims, evictable. rewrite list_elem_of_filter, andb_true_iff, negb_true_iff, bool_decide_eq_false. tauto.
Qed.

Lemma elem_of_take {A} (x : A) n l : x ∈ take n l → x ∈ l.
Proof. apply elem_of_sublist, sublist_take. Qed.

(** The eviction choice of a write, as the source computes it. *)
Lemma write_choice t key blocks now :
  tier_ok t → blocks <= capacity_blocks t →
  let extra := blocks - default 0 (tier_blocks t !! key) in
  let available := capacity_blocks t - used_blocks t in
  let vs := victims key now t (tier_lru t) in
  ∃ n, (if available <? extra then gather key now extra t (tier_lru t) [] available else Ok ([], available)) =
    Ok (take n vs, available + blocks_of t (take n vs)) ∧
    (if available + blocks_of t (take n vs) <? extra then ∀ m, ~ write_fits t key blocks now m
     else write_fits t key blocks now n).
Proof.
  intros Hok Hcap extra available vs. destruct (Z.ltb_spec available extra) as [Hlt|Hge].
  2: { exists 0%nat. rewrite take_0. change (blocks_of t []) with 0.
       replace (available + 0) with available by lia. split; [done|].
       rewrite (proj2 (Z.ltb_ge available extra)) by done.
       split; [done|]. split; [lia|]. rewrite take_0. change (blocks_of t []) with 0. fold extra available. split; lia. }
  destruct (gather_spec key now extra t (tier_lru t) [] available Hlt) as (n & Hg & Hn & Hmin & Hend).
  { intros k. apply (to_lru _ Hok). }
  fold vs in Hg, Hn, Hmin, Hend. exists n. split; [exact Hg|].
  destruct (Z.ltb_spec (available + blocks_of t (take n vs)) extra) as [Hno|Hyes]; [|done].
  intros m (_ & Hm & Hroom & _). fold vs extra in Hm, Hroom. destruct Hend as [?| ->]; [lia|].
  destruct (decide (m < length vs)%nat) as [Hlm|Hlm]; [specialize (Hmin m Hlm); unfold available in *; lia|].
  replace m with (length vs) in Hroom by lia. unfold available in Hno. lia.
Qed.

(** What a write did, for its callers. *)
Definition write_outcome (t : OffloadTier) (key : pystr) (blocks : Z) (now : pyfloat)
    (op : OffloadOperation) (t' : OffloadTier) : Prop :=
  (∃ n, write_fits t key blocks now n ∧ evicted_keys op = take n (victims key now t (tier_lru t)) ∧
     op_blocks op = blocks ∧ op_bytes op = blocks * tier_block_bytes t ∧
     written t key blocks (evicted_keys op) t') ∨
  ((∀ n, ~ write_fits t key blocks now n) ∧ t' = t ∧ op = rejected_write key).

Lemma write_spec t key blocks now :
  tier_ok t → 1 <= blocks → prices t Write (blocks * tier_block_bytes t) →
  wp (write key blocks now) (λ op t', tier_ok t' ∧ tier_frame t t' ∧ write_outcome t key blocks now op t')
    no_raise t.
Proof.
  intros Hok Hb Hprice. unfold write. do 2 wp_step. change (id t) with t. pose proof (to_capacity _ Hok) as Hcap.
  rewrite (proj2 (Z.leb_gt _ _)) by lia.
  destruct (Z.ltb_spec (capacity_blocks t) blocks) as [Hbig|Hfit].
  { wp_step. split; [done|]. split; [done|]. right. split; [|done]. intros n (? & _). lia. }
  cbn zeta. destruct (write_choice t key blocks now Hok Hfit) as (n & -> & Hn). cbn beta iota in Hn |- *.
  set (gone := take n (victims key now t (tier_lru t))) in *.
  destruct (capacity_blocks t - used_blocks t + blocks_of t gone <? blocks - default 0 (tier_blocks t !! key)) eqn:Hc.
  { wp_step. split; [done|]. split; [done|]. right. done. }
  wp_step. destruct (latency_ok t Write _ (λ _, Hprice)) as [seconds Hs]. unfold wp at 1. rewrite Hs.
  do 7 wp_step.
  assert (∀ k, k ∈ gone → k ∈ tier_lru t ∧ k ≠ key) as Hgone.
  { intros k Hk%elem_of_take. apply victims_spec in Hk. tauto. }
  assert (NoDup gone) as Hnd.
  { apply (sublist_NoDup _ (victims key now t (tier_lru t))); [apply NoDup_filter, (to_nodup _ Hok)|apply sublist_take]. }
  apply Z.ltb_ge in Hc. destruct (install_ok t key blocks gone Hok Hb) as (? & ? & ?); [naive_solver|done|naive_solver|lia|].
  split; [done|]. split; [done|]. left. by exists n.
Qed.

Lemma new_tier_ok spec b block_bytes :
  Z.max 1 block_bytes <= capacity_bytes b → tier_ok (new_tier spec b block_bytes).
Proof.
  intros Hcap. unfold new_tier. destruct (default _ spec) as [name ref].
  assert (1 <= capacity_bytes b / Z.max 1 block_bytes) by (apply Z.div_le_lower_bound; lia).
  split; cbn; try done.
  - constructor.
  - intros k. rewrite lookup_empty. split; [by intros ?%elem_of_nil|]. by intros [? ?].
  - lia.
Qed.

Lemma read_spec t key :
  tier_ok t → (∀ n, tier_blocks t !! key = Some n → prices t Read (n * tier_block_bytes t)) →
  wp (read key) (λ op t', tier_ok t' ∧ tier_frame t t' ∧ tier_blocks t' = tier_blocks t ∧
    protected_until t' = protected_until t ∧ op_blocks op = default 0 (tier_blocks t !! key)) no_raise t.
Proof.
  intros Hok Hprice. unfold read. do 6 wp_step. set (t1 := if bool_decide _ then _ else _).
  assert (tier_ok t1 ∧ tier_frame t t1 ∧ tier_blocks t1 = tier_blocks t ∧ protected_until t1 = protected_until t)
    as (Hok1 & Hf1 & Hb1 & Hp1).
  { unfold t1. case_bool_decide as Hin; [|done]. destruct Hok as [Hnd Hlru Hb Hu Hf Hc].
    split; [|done]. pose proof (lru_move_perm _ _ Hnd Hin) as Hperm.
    split; cbn; try done; [by rewrite Hperm|]. intros k. by rewrite Hperm. }
  clearbody t1. wp_step. destruct (latency_ok t1 Read (default 0 (tier_blocks t !! key) * tier_block_bytes t)) as [x Hx].
  { destruct (tier_blocks t !! key) as [n|] eqn:En; cbn; [|lia].
    intros _.     destruct Hf1 as (_ & _ & _ & _ & Hback & _). unfold prices. rewrite Hback. by apply Hprice. }
  unfold wp at 1. rewrite Hx. by wp_step.
Qed.

Lemma pin_spec t key until :
  tier_ok t →
  wp (pin key until) (λ _ t', tier_ok t' ∧ tier_frame t t' ∧ tier_blocks t' = tier_blocks t ∧
    protected_until t' = <[key := fmax (default f0 (protected_until t !! key)) until]> (protected_until t)) no_raise t.
Proof.
  intros [Hnd Hlru Hb Hu Hf Hc]. unfold pin. wp_step. split; [|done]. by split.
Qed.

(** A write into the offload tier keeps the accounting exact and
    within capacity.  When some prefix of the unprotected entries, oldest first,
    makes room, it evicts exactly the shortest such prefix and installs the
    key as the most recent entry; otherwise it changes nothing and reports the
    key itself as evicted.  Protected entries always stay. *)
Theorem offload_write_lru t key blocks now :
  tier_ok t → 1 <= blocks → prices t Write (blocks * tier_block_bytes t) →
  ∃ op t', write key blocks now t = (Ok op, t') ∧
    tier_ok t' ∧ used_blocks t' = total (tier_blocks t') ∧ used_blocks t' <= capacity_blocks t ∧
    write_outcome t key blocks now op t' ∧
    (∀ k, k ≠ key → k ∈ tier_lru t → fleb (default f0 (protected_until t !! k)) now = false →
       tier_blocks t' !! k = tier_blocks t !! k ∧ protected_until t' !! k = protected_until t !! k).
Proof.
  intros Hok Hb Hprice. destruct (wp_ok_inv _ _ _ (write_spec t key blocks now Hok Hb Hprice))
    as (op & t' & Hw & Hok' & (_ & _ & _ & _ & _ & Hcap) & Hout).
  exists op, t'. split; [done|]. split; [done|]. split; [by apply to_used|].
  split; [rewrite <- Hcap; by apply to_fits|]. split; [done|]. intros k Hk Hin Hprot.
  destruct Hout as [(n & _ & Hev & _ & _ & _ & Hbl & Hpr)|(_ & -> & _)]; [|done].
  assert (k ∉ evicted_keys op) as Hgone.
  { rewrite Hev. intros Hkt%elem_of_take. apply victims_spec in Hkt as (_ & _ & ?). congruence. }
  rewrite Hbl, Hpr. rewrite !bool_decide_eq_false_2 by (rewrite ?elem_of_cons; tauto). done.
Qed.

Definition demo_backend (capacity : Z) : StorageBackend := mkBackend capacity (λ _ _, fof 1) [].

(** A tier of two blocks that is full evicts its oldest entry. *)
Definition demo_tier : OffloadTier :=
  mkTier 10 true (lit "ssd") (lit "ssd") (demo_backend 20) 2
    {[ lit "a" := 1; lit "b" := 1 ]} [lit "a"; lit "b"] 2 ∅.

Lemma demo_tier_ok : tier_ok demo_tier.
Proof.
  split; try by vm_compute.
  - cbn. repeat constructor; set_solver.
  - intros k. unfold demo_tier. cbn [tier_lru tier_blocks]. rewrite !elem_of_cons, elem_of_nil.
    rewrite <- elem_of_dom, dom_insert, dom_singleton. set_solver.
  - intros k n. unfold demo_tier. cbn [tier_blocks]. rewrite lookup_insert_Some, lookup_singleton_Some.
    intros [[_ <-]|[_ [_ <-]]]; lia.
Qed.

Lemma offload_write_lru_witness :
  ∃ op t', write (lit "c") 1 f0 demo_tier = (Ok op, t') ∧ evicted_keys op = [lit "a"] ∧
    used_blocks t' = 2 ∧ used_blocks t' <= 2.
Proof.
  destruct (offload_write_lru demo_tier (lit "c") 1 f0 demo_tier_ok) as (op & t' & Hw & _ & _ & Hu & _);
    [lia|by eexists|].
  exists op, t'. split; [exact Hw|]. vm_compute in Hw. injection Hw as <- <-. split; [done|]. split; [done|exact Hu].
Defined.
