(* ===== verification/MooncakeStore.v ===== *)
(** * The Mooncake store ([TokenSim/mooncake/store.py],
      [TokenSim/mooncake/pool_key.py], [MooncakeService.register])

    A pooled KV store with a bounded DRAM tier in LRU order and an optional
    offload tier below it.  [objects] holds the shared [StoreObject]s: an object
    the source mutates through a reference it got from the dict is altered in the
    map.  Every operation reports to one [MooncakeStats] object, the caller's or
    the store's own; it is the [stats] field of the state. *)

From stdpp Require Import gmap list strings sorting pretty.
From Stdlib Require Import ZArith Lia SpecFloat.
From S2P Require Import Prelude.
From S2P Require Import Buckets.
From S2P Require Import PyFloat.
From S2P Require Import PrefixKeys.
From S2P Require Import Request.
From S2P Require Import Parallel.
From S2P Require Import OffloadTier.

Open Scope Z_scope.
Open Scope tokensim_scope.

(** ** Keys *)

Record KeyMetadata := mkMetadata {
  md_model_name : pystr;
  md_tp_rank : Z;
  md_pp_rank : Z;
  md_store_namespace : pystr;
  md_cache_prefix : pystr;
  md_tenant_id : pystr;
  md_group_id : Z;
  md_pcp_rank : Z;
  md_dcp_rank : Z;
}.

Record PoolKey := mkPoolKey {
  key_metadata : KeyMetadata;
  chunk_hash : pystr;
}.

(** [json.dumps] of an integer *)
Definition dump_int (n : Z) : pystr := lit (pretty n).

(** [PoolKey.string]: a JSON array without spaces *)
Definition to_string (key : PoolKey) : pystr :=
  let md := key_metadata key in
  lit "[" ++ quote (md_tenant_id md) ++
  lit "," ++ quote (md_cache_prefix md) ++
  lit "," ++ quote (md_model_name md) ++
  lit "," ++ quote (md_store_namespace md) ++
  lit "," ++ dump_int (md_tp_rank md) ++
  lit "," ++ dump_int (md_pcp_rank md) ++
  lit "," ++ dump_int (md_dcp_rank md) ++
  lit "," ++ dump_int (md_pp_rank md) ++
  lit "," ++ dump_int (md_group_id md) ++
  lit "," ++ quote (chunk_hash key) ++ lit "]".

(** The keys of a list of prefix keys: the chunk hash of a block is the parent
    hash of the next one. *)
Definition pool_keys `{Digest} (metadata : KeyMetadata) (prefix_keys : list cache_key) :
    outcome (list PoolKey) :=
  match last prefix_keys with
  | None => Ok []
  | Some key =>
      (* a request-local key has no [parent_hash] *)
      match mapM as_shared (tail prefix_keys), as_shared key with
      | Some chunks, Some key =>
          Ok (mkPoolKey metadata <$> ((parent_hash <$> chunks) ++ [next_parent_hash key]))
      | _, _ => Raise AttributeError
      end
  end.

(** [pool_keys_for_request] with the shared chain cache of [build_prefix_keys] *)
Definition pool_keys_for_request `{Digest} (req : Request) (model_name : pystr) (rank_info : ParallelRankInfo)
    (store_namespace cache_prefix tenant_id : pystr) (group_id pcp_rank dcp_rank : Z) (cc : ChainCache) :
    outcome (list PoolKey) * ChainCache :=
  match hash_ids req with
  | None | Some [] => (Ok [], cc)
  | Some hashes =>
      let full_input_blocks := prefill_len req / req_block_size req in
      let cached := slice_to full_input_blocks (input_cache_keys req) in
      let '(prefix_keys, cc) :=
        if Z.of_nat (length cached) =? full_input_blocks then (cached, cc)
        else
          let '(keys, cc) := build_prefix_keys (slice_to full_input_blocks hashes) model_name
            (cache_salt req) (reuse_group req) cc in
          (SharedKey <$> keys, cc) in
      (pool_keys (mkMetadata model_name (tp_rank rank_info) (pp_rank rank_info) store_namespace cache_prefix
        tenant_id group_id pcp_rank dcp_rank) prefix_keys, cc)
  end.

(** ** Data *)

Inductive eviction_policy := LRU | NoEviction.
Inductive admission_policy := Always | Never.

#[global] Instance eviction_policy_eq_dec : EqDecision eviction_policy.
Proof. solve_decision. Defined.
#[global] Instance admission_policy_eq_dec : EqDecision admission_policy.
Proof. solve_decision. Defined.

(** The options of [MooncakeConfig] the store reads. *)
Record MooncakeConfig := mkConfig {
  master_server_address : pystr;
  embedded : bool;
  global_segment_size : Z;
  local_buffer_size : Z;
  enable_offload : bool;
  offload_spec : option (pystr * pystr);
  replica_num : Z;
  admission : admission_policy;
  eviction : eviction_policy;
  memory_capacity_blocks : option Z;
  preferred_segment : option pystr;
  host_available_bytes : option Z;
}.

Record StoreObject := mkObject {
  obj_key : pystr;
  obj_blocks : Z;
  obj_bytes : Z;
  obj_tier : pystr;
  segment : pystr;
  replicas : Z;
  persisted : bool;
  last_access : Z;
  ready_at : pyfloat;
  in_use_until : pyfloat;
}.

#[global] Instance eta_object : Eta StoreObject := λ o,
  mkObject (obj_key o) (obj_blocks o) (obj_bytes o) (obj_tier o) (segment o) (replicas o)
    (persisted o) (last_access o) (ready_at o) (in_use_until o).

Definition memory : pystr := lit "memory".

Record StoreHit := mkHit {
  hit_keys : list PoolKey;
  hit_blocks : Z;
  hit_tier : option pystr;
}.

Record StoreWriteTiming := mkTiming {
  accounting_latency : pyfloat;
  blocking_latency : pyfloat;
}.

Definition no_timing : StoreWriteTiming := mkTiming f0 f0.

(** [StoreWriteTiming.__add__] *)
Definition timing_add (a b : StoreWriteTiming) : StoreWriteTiming :=
  mkTiming (fadd (accounting_latency a) (accounting_latency b))
    (fadd (blocking_latency a) (blocking_latency b)).

(** The counters of [MooncakeStats] the store updates. *)
Record MooncakeStats := mkStats {
  storage_metrics : StorageMetrics;
  get_count : Z;
  put_count : Z;
  store_hit_count : Z;
  store_miss_count : Z;
  memory_tier_hit_count : Z;
  disk_tier_hit_count : Z;
  ssd_read_blocks : Z;
  ssd_read_bytes : Z;
  ssd_write_blocks : Z;
  ssd_write_bytes : Z;
  admission_count : Z;
  admission_rejection_count : Z;
  eviction_count : Z;
  offload_tiers : list pystr;
}.

#[global] Instance eta_stats : Eta MooncakeStats := λ s,
  mkStats (storage_metrics s) (get_count s) (put_count s) (store_hit_count s) (store_miss_count s)
    (memory_tier_hit_count s) (disk_tier_hit_count s) (ssd_read_blocks s) (ssd_read_bytes s)
    (ssd_write_blocks s) (ssd_write_bytes s) (admission_count s) (admission_rejection_count s)
    (eviction_count s) (offload_tiers s).

Definition new_stats : MooncakeStats := mkStats ∅ 0 0 0 0 0 0 0 0 0 0 0 0 0 [].

Record MooncakeStore := mkStore {
  config : MooncakeConfig;
  block_bytes : Z;
  memory_capacity_bytes : Z;
  memory_used_bytes : Z;
  objects : gmap pystr StoreObject;
  memory_lru : list pystr;
  stats : MooncakeStats;
  offload : option OffloadTier;
  access_counter : Z;
}.

#[global] Instance eta_store : Eta MooncakeStore := λ s,
  mkStore (config s) (block_bytes s) (memory_capacity_bytes s) (memory_used_bytes s) (objects s)
    (memory_lru s) (stats s) (offload s) (access_counter s).

(** ** Helpers *)

(** [stats.f op= ...] *)
Definition count (f : MooncakeStats → MooncakeStats) : M MooncakeStore unit :=
  modify (λ s, s <| stats ::= f |>).

(** A mutation of the object stored under a key. *)
Definition update_object (key : pystr) (f : StoreObject → StoreObject) : M MooncakeStore unit :=
  modify (λ s, s <| objects ::= alter f key |>).

(** A method call on [self.offload]. *)
Definition on_offload {A} (m : M OffloadTier A) : M MooncakeStore A := λ s,
  match offload s with
  | None => (Raise AttributeError, s)
  | Some t => let '(res, t) := m t in (res, s <| offload := Some t |>)
  end.

(** [_is_offload_tier] *)
Definition is_offload_tier (s : MooncakeStore) (tier : option pystr) : bool :=
  match offload s with
  | None => false
  | Some t => bool_decide (tier = Some (tier_name t))
  end.

(** [_backend_stats(stats)], followed by an update of the record *)
Definition backend_stats (f : BackendMetrics → BackendMetrics) : M MooncakeStore unit := λ s,
  match offload s with
  | None => (Raise AttributeError, s)
  | Some t =>
      let address := master_server_address (config s) in
      let '(res, metrics) := instance address (tier_name t) (reference t) (describe (backend t))
                               (storage_metrics (stats s)) in
      let s := s <| stats ::= λ st, st <| storage_metrics := metrics |> |> in
      match res with
      | Raise e => (Raise e, s)
      | Ok record =>
          (Ok tt, s <| stats ::= λ st, st <| storage_metrics ::= <[(address, tier_name t) := f record]> |> |>)
      end
  end.

(** [register_storage_stats] *)
Definition register_storage_stats : M MooncakeStore unit :=
  s ← gets id;
  match offload s with
  | None => mret tt
  | Some t =>
      count (λ st, if bool_decide (tier_name t ∈ offload_tiers st) then st
                   else st <| offload_tiers ::= λ l, l ++ [tier_name t] |>) ;;
      backend_stats id
  end.

(** [MooncakeStore.__init__] over the backend of the offload tier *)
Definition new_store (config : MooncakeConfig) (block_bytes : Z) (backend : StorageBackend) : MooncakeStore :=
  let block_bytes := Z.max 1 block_bytes in
  let capacity :=
    match memory_capacity_blocks config with
    | Some blocks => blocks * block_bytes
    | None => global_segment_size config
    end in
  let offload :=
    if enable_offload config then Some (new_tier (offload_spec config) backend block_bytes) else None in
  (register_storage_stats (mkStore config block_bytes capacity 0 ∅ [] new_stats offload 0)).2.

(** [_touch] of the object stored under [key] *)
Definition touch (key : pystr) (obj : StoreObject) : M MooncakeStore unit :=
  modify (λ s, s <| access_counter ::= Z.succ |>) ;;
  counter ← gets access_counter;
  update_object key (λ o, o <| last_access := counter |>) ;;
  lru ← gets memory_lru;
  when (bool_decide (obj_tier obj = memory) && bool_decide (obj_key obj ∈ lru))
    (modify (λ s, s <| memory_lru ::= lru_move_to_end (obj_key obj) |>)).

(** [_record_offload_read] *)
Definition record_offload_read (op : OffloadOperation) : M MooncakeStore unit :=
  backend_stats (record_io Read (op_blocks op) (op_bytes op) (op_latency op)) ;;
  legacy ← on_offload (gets legacy_ssd);
  when legacy (count (λ st, st <| ssd_read_blocks ::= Z.add (op_blocks op) |>
                               <| ssd_read_bytes ::= Z.add (op_bytes op) |>)).

(** The reaction to one key the offload tier reports as evicted. *)
Definition drop_evicted (key : pystr) : M MooncakeStore unit :=
  s ← gets id;
  match objects s !! key with
  | None => mret tt
  | Some obj =>
      update_object key (λ o, o <| persisted := false |>) ;;
      when (is_offload_tier s (Some (obj_tier obj)))
        (modify (λ s, s <| objects ::= delete key |>) ;;
         count (λ st, st <| eviction_count ::= Z.succ |>))
  end.

(** [_record_offload_write] *)
Definition record_offload_write (op : OffloadOperation) : M MooncakeStore unit :=
  backend_stats (record_io Write (op_blocks op) (op_bytes op) (op_latency op)) ;;
  legacy ← on_offload (gets legacy_ssd);
  when legacy (count (λ st, st <| ssd_write_blocks ::= Z.add (op_blocks op) |>
                               <| ssd_write_bytes ::= Z.add (op_bytes op) |>)) ;;
  for_ (evicted_keys op) drop_evicted.

(** The object after [_write_timing]. *)
Definition mark_written (media now delay : pyfloat) (o : StoreObject) : StoreObject :=
  o <| persisted := true |> <| ready_at := fadd (fadd now delay) media |>.

(** The pin and the result of [_write_timing]. *)
Definition write_timing (key : pystr) (media now delay : pyfloat) : M MooncakeStore StoreWriteTiming :=
  on_offload (pin key (fadd (fadd now delay) media)) ;;
  mret (mkTiming media media).

(** ** Lookups *)

(** The loop of [lookup] *)
Fixpoint lookup_loop (s : MooncakeStore) (now : pyfloat) (keys hits : list PoolKey) (slowest : option pystr) :
    list PoolKey * option pystr :=
  match keys with
  | [] => (hits, slowest)
  | key :: keys =>
      match objects s !! to_string key with
      | None => (hits, slowest)
      | Some obj =>
          if fltb now (ready_at obj) then (hits, slowest)
          else if is_offload_tier s (Some (obj_tier obj)) &&
                  from_option (λ t, negb (contains (obj_key obj) t)) false (offload s)
          then (hits, slowest)
          else
            let slowest :=
              if is_offload_tier s (Some (obj_tier obj)) then Some (obj_tier obj)
              else match slowest with None => Some memory | Some _ => slowest end in
            lookup_loop s now keys (hits ++ [key]) slowest
      end
  end.

(** [MooncakeStore.lookup] *)
Definition store_lookup (keys : list PoolKey) (now : pyfloat) : M MooncakeStore StoreHit :=
  match keys with
  | [] => mret (mkHit [] 0 None)
  | _ =>
      s ← gets id;
      let '(hits, slowest) := lookup_loop s now keys [] None in
      (match hits with
       | [] => count (λ st, st <| store_miss_count ::= Z.succ |>)
       | _ =>
           count (λ st, st <| store_hit_count ::= Z.succ |>) ;;
           if is_offload_tier s slowest then
             count (λ st, st <| disk_tier_hit_count ::= Z.succ |>) ;;
             backend_stats (λ r, r <| hit_count ::= Z.succ |>)
           else count (λ st, st <| memory_tier_hit_count ::= Z.succ |>)
       end) ;;
      mret (mkHit hits (Z.of_nat (length hits)) slowest)
  end.

(** Whether [missing_indices] finds the key. *)
Definition is_present (s : MooncakeStore) (key : PoolKey) : bool :=
  match objects s !! to_string key with
  | None => false
  | Some obj =>
      negb (is_offload_tier s (Some (obj_tier obj))) ||
      from_option (contains (obj_key obj)) true (offload s)
  end.

(** [missing_indices] *)
Definition missing_indices (s : MooncakeStore) (keys : list PoolKey) : list nat :=
  (filter (λ p, is_present s p.2 = false) (imap (λ i k, (i, k)) keys)).*1.

(** ** Reads *)

(** The first loop of [get]: touch every object and read the offloaded ones. *)
Fixpoint get_loop (now : pyfloat) (keys : list PoolKey) (seconds : pyfloat) : M MooncakeStore pyfloat :=
  match keys with
  | [] => mret seconds
  | key :: keys =>
      s ← gets id;
      match objects s !! to_string key with
      | None => raise SimulationStateError
      | Some obj =>
          if fltb now (ready_at obj) then raise SimulationStateError
          else
            touch (to_string key) obj ;;
            seconds ← (if is_offload_tier s (Some (obj_tier obj)) then
              op ← on_offload (read (obj_key obj));
              record_offload_read op ;;
              mret (fadd seconds (op_latency op))
            else mret seconds);
            get_loop now keys seconds
      end
  end.

(** The second loop: the objects are in use until the read ends. *)
Definition hold (until : pyfloat) (key : PoolKey) : M MooncakeStore unit :=
  update_object (to_string key) (λ o, o <| in_use_until ::= λ t, fmax t until |>) ;;
  s ← gets id;
  match objects s !! to_string key with
  | None => raise KeyError
  | Some obj =>
      when (is_offload_tier s (Some (obj_tier obj))) (on_offload (pin (obj_key obj) (in_use_until obj)))
  end.

(** [MooncakeStore.get] *)
Definition store_get (keys : list PoolKey) (now initial_delay : pyfloat) : M MooncakeStore pyfloat :=
  match keys with
  | [] => mret f0
  | _ =>
      count (λ st, st <| get_count ::= Z.succ |>) ;;
      seconds ← get_loop now keys f0;
      for_ keys (hold (fadd (fadd now initial_delay) seconds)) ;;
      mret seconds
  end.

(** ** Writes *)

(** [_evict_memory] *)
Definition evict_memory (key : pystr) (now : pyfloat) : M MooncakeStore StoreWriteTiming :=
  lru ← gets memory_lru;
  if negb (bool_decide (key ∈ lru)) then raise KeyError
  else
    modify (λ s, s <| memory_lru ::= lru_remove key |>) ;;
    s ← gets id;
    match objects s !! key with
    | None => mret no_timing
    | Some obj =>
        if negb (bool_decide (obj_tier obj = memory)) then mret no_timing
        else
          modify (λ s, s <| memory_used_bytes ::= λ n, n - obj_bytes obj |>) ;;
          count (λ st, st <| eviction_count ::= Z.succ |>) ;;
          match offload s with
          | Some t =>
              if enable_offload (config s) then
                update_object key (λ o, o <| obj_tier := tier_name t |>) ;;
                if contains (obj_key obj) t then mret no_timing
                else
                  op ← on_offload (write (obj_key obj) (obj_blocks obj) now);
                  record_offload_write op ;;
                  if bool_decide (obj_key obj ∈ evicted_keys op) then mret no_timing
                  else
                    update_object key (mark_written (op_latency op) now f0) ;;
                    write_timing (obj_key obj) (op_latency op) now f0
              else modify (λ s, s <| objects ::= delete key |>) ;; mret no_timing
          | None => modify (λ s, s <| objects ::= delete key |>) ;; mret no_timing
          end
    end.

(** The generator that finds the oldest object that is ready and not in use. *)
Fixpoint find_candidate (objs : gmap pystr StoreObject) (now : pyfloat) (lru : list pystr) :
    outcome (option pystr) :=
  match lru with
  | [] => Ok None
  | key :: lru =>
      match objs !! key with
      | None => Raise KeyError
      | Some obj =>
          if fleb (fmax (ready_at obj) (in_use_until obj)) now then Ok (Some key)
          else find_candidate objs now lru
      end
  end.

(** The eviction loop.  Every round takes a key out of the LRU order, so its
    length is enough fuel: without fuel the order is empty and the source
    returns [False]. *)
Fixpoint evict_loop (fuel : nat) (bytes : Z) (now : pyfloat) (timing : StoreWriteTiming) :
    M MooncakeStore (bool * StoreWriteTiming) :=
  s ← gets id;
  if memory_used_bytes s + bytes <=? memory_capacity_bytes s then mret (true, timing)
  else
    match fuel with
    | O => mret (false, timing)
    | S fuel =>
        if negb (bool_decide (eviction (config s) = LRU)) || bool_decide (memory_lru s = [])
        then mret (false, timing)
        else
          match find_candidate (objects s) now (memory_lru s) with
          | Raise e => raise e
          | Ok None => mret (false, timing)
          | Ok (Some candidate) =>
              evicted ← evict_memory candidate now;
              evict_loop fuel bytes now (timing_add timing evicted)
          end
    end.

(** [_ensure_memory_capacity] *)
Definition ensure_memory_capacity (bytes : Z) (now : pyfloat) : M MooncakeStore (bool * StoreWriteTiming) :=
  s ← gets id;
  if memory_capacity_bytes s <? bytes then mret (false, no_timing)
  else evict_loop (length (memory_lru s)) bytes now no_timing.

(** [StoreObject(key=..., blocks=1, ...)] *)
Definition new_object (s : MooncakeStore) (key : pystr) (ready : pyfloat) : StoreObject :=
  mkObject key 1 (block_bytes s) memory
    (match preferred_segment (config s) with
     | Some seg => if bool_decide (seg = []) then lit "global" else seg
     | None => lit "global"
     end)
    (replica_num (config s)) false 0 ready f0.

(** [_put_one] *)
Definition put_one (key : PoolKey) (now initial_delay : pyfloat) : M MooncakeStore StoreWriteTiming :=
  let key_string := to_string key in
  s ← gets id;
  match objects s !! key_string with
  | Some existing => touch key_string existing ;; mret no_timing
  | None =>
      let obj := new_object s key_string (fadd now initial_delay) in
      room ← ensure_memory_capacity (obj_bytes obj) now;
      let '(has_room, timing) := (room : bool * StoreWriteTiming) in
      s ← gets id;
      if has_room then
        modify (λ s, s <| objects ::= <[key_string := obj]> |>) ;;
        modify (λ s, s <| memory_used_bytes ::= Z.add (obj_bytes obj) |>) ;;
        modify (λ s, s <| memory_lru ::= lru_set key_string |>) ;;
        count (λ st, st <| admission_count ::= Z.succ |>) ;;
        update_object key_string (λ o, o <| ready_at ::= λ r, fadd r (accounting_latency timing) |>) ;;
        if enable_offload (config s) && bool_decide (is_Some (offload s)) then
          op ← on_offload (write key_string (obj_blocks obj) now);
          record_offload_write op ;;
          if bool_decide (key_string ∈ evicted_keys op) then mret timing
          else
            let delay := fadd initial_delay (accounting_latency timing) in
            update_object key_string (mark_written (op_latency op) now delay) ;;
            written ← write_timing key_string (op_latency op) now delay;
            mret (timing_add timing written)
        else mret timing
      else
        match offload s with
        | Some t =>
            if enable_offload (config s) then
              op ← on_offload (write key_string (obj_blocks obj) now);
              if bool_decide (key_string ∈ evicted_keys op) then
                count (λ st, st <| admission_rejection_count ::= Z.succ |>) ;;
                mret timing
              else
                let delay := fadd initial_delay (accounting_latency timing) in
                written ← write_timing key_string (op_latency op) now delay;
                record_offload_write op ;;
                modify (λ s, s <| objects ::=
                  <[key_string := mark_written (op_latency op) now delay (obj <| obj_tier := tier_name t |>)]> |>) ;;
                count (λ st, st <| admission_count ::= Z.succ |>) ;;
                mret (timing_add timing written)
            else
              count (λ st, st <| admission_rejection_count ::= Z.succ |>) ;;
              mret timing
        | None =>
            count (λ st, st <| admission_rejection_count ::= Z.succ |>) ;;
            mret timing
        end
  end.

(** [eviction_policy_allows_batch] *)
Definition eviction_policy_allows_batch (s : MooncakeStore) (blocks : Z) : bool :=
  bool_decide (eviction (config s) = LRU) && (blocks * block_bytes s <=? memory_capacity_bytes s).

(** The bulk installation of a DRAM-only batch that fits. *)
Definition put_batch (selected fresh : list pystr) (now initial_delay : pyfloat) : M MooncakeStore unit :=
  for_ fresh (λ key_string,
    modify (λ s, s <| objects ::= <[key_string := new_object s key_string (fadd now initial_delay)]> |>)) ;;
  modify (λ s, s <| memory_used_bytes ::= Z.add (Z.of_nat (length fresh) * block_bytes s) |>) ;;
  for_ selected (λ key,
    modify (λ s, s <| memory_lru ::= lru_set key |>) ;;
    s ← gets id;
    match objects s !! key with
    | None => raise KeyError
    | Some obj => touch key obj
    end) ;;
  count (λ st, st <| admission_count ::= Z.add (Z.of_nat (length fresh)) |>).

(** The loop of [put_with_timing] *)
Fixpoint put_loop (keys : list PoolKey) (now initial_delay : pyfloat) (timing : StoreWriteTiming) :
    M MooncakeStore StoreWriteTiming :=
  match keys with
  | [] => mret timing
  | key :: keys =>
      key_timing ← put_one key now (fadd initial_delay (accounting_latency timing));
      put_loop keys now initial_delay (timing_add timing key_timing)
  end.

(** [put_with_timing]; [policy] is the caller's admission policy, if any *)
Definition put_with_timing (keys : list PoolKey) (blocks : option Z) (now initial_delay : pyfloat)
    (policy : option admission_policy) : M MooncakeStore StoreWriteTiming :=
  s ← gets id;
  if bool_decide (default (admission (config s)) policy = Never) || bool_decide (length keys = 0%nat) then
    count (λ st, st <| admission_rejection_count ::= Z.add (Z.of_nat (length keys)) |>) ;;
    mret no_timing
  else
    count (λ st, st <| put_count ::= Z.succ |>) ;;
    let blocks := default (Z.of_nat (length keys)) blocks in
    let keys := slice_to blocks keys in
    let selected := from_keys (to_string <$> keys) in
    let fresh := filter (λ k, objects s !! k = None) selected in
    if negb (enable_offload (config s)) && (64 <? blocks) && eviction_policy_allows_batch s blocks &&
       (memory_used_bytes s + Z.of_nat (length fresh) * block_bytes s <=? memory_capacity_bytes s)
    then put_batch selected fresh now initial_delay ;; mret no_timing
    else put_loop keys now initial_delay no_timing.

(** [MooncakeStore.put] *)
Definition store_put (keys : list PoolKey) (blocks : option Z) (now initial_delay : pyfloat) : M MooncakeStore pyfloat :=
  timing ← put_with_timing keys blocks now initial_delay None;
  mret (blocking_latency timing).

(** ** The shared service *)

(** [MooncakeService.contributors]: identity, ranks and options of the engines *)
Record MooncakeService := mkService {
  service_store : MooncakeStore;
  service_block_bytes : Z;
  contributors : gmap Z (Z * MooncakeConfig);
}.

#[global] Instance eta_service : Eta MooncakeService := λ s,
  mkService (service_store s) (service_block_bytes s) (contributors s).

Definition new_service (config : MooncakeConfig) (block_bytes : Z) (backend : StorageBackend) : MooncakeService :=
  mkService (new_store config block_bytes backend) block_bytes ∅.

(** [sum(count * f(options) for _, count, options in proposed.values())] *)
Definition sum_over (f : MooncakeConfig → Z) (m : gmap Z (Z * MooncakeConfig)) : Z :=
  map_fold (λ _ '(n, options) s, n * f options + s) 0 m.

(** [register] *)
Definition register (contributor ranks : Z) (options : MooncakeConfig) : M MooncakeService unit :=
  s ← gets id;
  let cfg := config (service_store s) in
  let proposed := <[contributor := (ranks, options)]> (contributors s) in
  let capacity :=
    match memory_capacity_blocks cfg with
    | Some blocks => blocks * service_block_bytes s
    | None => if embedded cfg then sum_over global_segment_size proposed else global_segment_size cfg
    end in
  let reserved := capacity + sum_over local_buffer_size proposed in
  if from_option (λ available, available <? reserved) false (host_available_bytes cfg)
  then raise ConfigurationError
  else modify (λ s, s <| contributors := proposed |>
                      <| service_store ::= λ st, st <| memory_capacity_bytes := capacity |> |>).
