(* ===== verification/StoreSpec.v ===== *)
(** * Theorems about the Mooncake store

    The invariant [store_ok] ties the objects, the LRU order, the byte count and
    the offload tier together; it is stated key by key ([local_ok]) so that each
    operation is checked on the key it touches, on the keys the offload tier
    evicts, and on the others.  [prot] is the protection a read gives its
    objects. *)

From stdpp Require Import gmap list strings sorting.
From Stdlib Require Import ZArith Lia SpecFloat.
From S2P Require Import Prelude.
From S2P Require Import PyFloat.
From S2P Require Import PrefixKeys.
From S2P Require Import OffloadTier.
From S2P Require Import OffloadSpec.
From S2P Require Import MooncakeStore.

Open Scope Z_scope.
Open Scope tokensim_scope.

(** ** The invariant *)

(** Blocks the offload tier holds under a key. *)
Definition resident (off : option OffloadTier) (k : pystr) : option Z := t ← off; tier_blocks t !! k.

Definition is_tier (off : option OffloadTier) (tier : pystr) : Prop :=
  ∃ t, off = Some t ∧ tier = tier_name t.

(** What holds of one key: [inl] says that it is in the LRU order. *)
Definition local_ok (bb : Z) (off : option OffloadTier) (inl : Prop) (k : pystr) (x : option StoreObject) : Prop :=
  match x with
  | None => ~ inl ∧ resident off k = None
  | Some o =>
      obj_key o = k ∧ obj_blocks o = 1 ∧ obj_bytes o = bb ∧
      (inl ↔ obj_tier o = memory) ∧
      (obj_tier o = memory ∨ is_tier off (obj_tier o) ∧ is_Some (resident off k)) ∧
      (is_Some off → persisted o = bool_decide (is_Some (resident off k))) ∧
      (∀ n, resident off k = Some n → n = 1) ∧
      in_use_until o ≠ S754_nan
  end.

Lemma local_some bb off (inl : Prop) k o :
  obj_key o = k → obj_blocks o = 1 → obj_bytes o = bb → (inl ↔ obj_tier o = memory) →
  (obj_tier o = memory ∨ is_tier off (obj_tier o) ∧ is_Some (resident off k)) →
  (is_Some off → persisted o = bool_decide (is_Some (resident off k))) →
  (∀ n, resident off k = Some n → n = 1) → in_use_until o ≠ S754_nan → local_ok bb off inl k (Some o).
Proof. done. Qed.

(** Only whether the key is in the LRU order matters. *)
#[global] Instance local_ok_proper bb off : Proper (iff ==> eq ==> eq ==> iff) (local_ok bb off).
Proof. intros P Q HPQ k _ <- x _ <-. unfold local_ok. destruct x; tauto. Qed.

(** The offload tier of a store of [bb]-byte blocks. *)
Record tier_good (bb : Z) (t : OffloadTier) : Prop := {
  tg_ok : tier_ok t;
  tg_name : tier_name t ≠ memory;
  tg_bytes : tier_block_bytes t = bb;
  tg_prices operation : prices t operation bb;
}.

Record core_ok (bb cap : Z) (objs : gmap pystr StoreObject) (lru : list pystr) (used : Z)
    (off : option OffloadTier) : Prop := {
  co_local k : local_ok bb off (k ∈ lru) k (objs !! k);
  co_nodup : NoDup lru;
  co_used : used = Z.of_nat (length lru) * bb;
  co_fits : used <= cap;
  co_bytes : 1 <= bb;
  co_tier t : off = Some t → tier_good bb t;
}.

(** The record of this store in the statistics has its backend and profile. *)
Definition metrics_ok (address : pystr) (off : option OffloadTier) (st : MooncakeStats) : Prop :=
  ∀ t r, off = Some t → storage_metrics st !! (address, tier_name t) = Some r →
    (metrics_backend r, metrics_profile r) = (reference t, describe (backend t)).

Record store_ok (s : MooncakeStore) : Prop := {
  so_core : core_ok (block_bytes s) (memory_capacity_bytes s) (objects s) (memory_lru s)
              (memory_used_bytes s) (offload s);
  so_enable : enable_offload (config s) = bool_decide (is_Some (offload s));
  so_metrics : metrics_ok (master_server_address (config s)) (offload s) (stats s);
}.

(** ** Protection *)

(** The object under [k] is there until [d]: an eviction at a time that is not
    past [d] has to leave it alone. *)
Definition prot_in (off : option OffloadTier) (objs : gmap pystr StoreObject) (k : pystr) (d : pyfloat) : Prop :=
  ∃ o, objs !! k = Some o ∧
    fleb d (in_use_until o) = true ∧
    (∀ t, off = Some t → obj_tier o = tier_name t →
       ∀ n, fleb (default f0 (protected_until t !! k)) n = true → fleb d n = true).

Definition prot (s : MooncakeStore) : pystr → pyfloat → Prop := prot_in (offload s) (objects s).

(** The effect every operation at time [now] has. *)
Record stepped (now : pyfloat) (s s' : MooncakeStore) : Prop := {
  st_ok : store_ok s';
  st_config : config s' = config s;
  st_bytes : block_bytes s' = block_bytes s;
  st_capacity : memory_capacity_bytes s' = memory_capacity_bytes s;
  st_prot k d : fleb d now = false → prot s k d → prot s' k d;
}.

Lemma stepped_refl now s : store_ok s → stepped now s s.
Proof. by split. Qed.

Lemma stepped_trans now s1 s2 s3 : stepped now s1 s2 → stepped now s2 s3 → stepped now s1 s3.
Proof. intros [] []. split; try congruence. auto. Qed.

Lemma metrics_frame address t t' st :
  tier_frame t t' → metrics_ok address (Some t) st → metrics_ok address (Some t') st.
Proof.
  intros (_ & _ & Hn & Hr & Hb & _) Hm t0 r [= <-]. rewrite Hn, Hr, Hb. by apply Hm.
Qed.

Lemma tier_good_frame bb t t' : tier_frame t t' → tier_ok t' → tier_good bb t → tier_good bb t'.
Proof.
  intros (Hbb & _ & Hn & _ & Hb & _) Hok [_ ? ? Hp]. split; [done|congruence|congruence|].
  intros operation. unfold prices. rewrite Hb. apply Hp.
Qed.

(** A change of the statistics and the access counter only. *)
Lemma stepped_same now s s' :
  store_ok s → config s' = config s → block_bytes s' = block_bytes s →
  memory_capacity_bytes s' = memory_capacity_bytes s → memory_used_bytes s' = memory_used_bytes s →
  objects s' = objects s → memory_lru s' = memory_lru s → offload s' = offload s →
  metrics_ok (master_server_address (config s)) (offload s) (stats s') → stepped now s s'.
Proof.
  intros [Hc He Hm] H1 H2 H3 H4 H5 H6 H7 H8. split; try done.
  - split; [by rewrite H2, H3, H4, H5, H6, H7|by rewrite H1, H7|by rewrite H1, H7].
  - unfold prot. by rewrite H5, H7.
Qed.

(** ** Statistics *)

Lemma backend_stats_spec f s t :
  (∀ r, metrics_backend (f r) = metrics_backend r ∧ metrics_profile (f r) = metrics_profile r) →
  offload s = Some t → metrics_ok (master_server_address (config s)) (Some t) (stats s) →
  ∃ st, backend_stats f s = (Ok tt, s <| stats := st |>) ∧
    metrics_ok (master_server_address (config s)) (Some t) st.
Proof.
  intros Hf Ht Hm. unfold backend_stats, instance. rewrite Ht.
  set (key := (master_server_address (config s), tier_name t)).
  destruct (storage_metrics (stats s) !! key) as [r|] eqn:Hr.
  - rewrite Hr. pose proof (Hm t r eq_refl Hr) as Hrec. rewrite bool_decide_eq_true_2 by done.
    eexists. split; [reflexivity|]. intros t0 r0 [= <-]. cbn. fold key. rewrite lookup_insert_eq.
    intros [= <-]. destruct (Hf r) as [-> ->]. done.
  - rewrite lookup_insert_eq, bool_decide_eq_true_2 by done.
    eexists. split; [reflexivity|]. intros t0 r0 [= <-]. cbn. fold key. rewrite lookup_insert_eq.
    intros [= <-]. destruct (Hf (new_metrics (reference t) (describe (backend t)))) as [-> ->]. done.
Qed.

Lemma record_io_frame operation blocks nbytes x r :
  metrics_backend (record_io operation blocks nbytes x r) = metrics_backend r ∧
  metrics_profile (record_io operation blocks nbytes x r) = metrics_profile r.
Proof. unfold record_io. destruct (nbytes <=? 0); [done|]. by destruct operation. Qed.

(** The objects after the offload tier evicted [gone]. *)
Definition dropped (t : OffloadTier) (gone : list pystr) (objs : gmap pystr StoreObject) : gmap pystr StoreObject :=
  map_imap (λ k o,
    if bool_decide (k ∈ gone) then
      if bool_decide (obj_tier o = tier_name t) then None else Some (o <| persisted := false |>)
    else Some o) objs.

Lemma dropped_nil t objs : dropped t [] objs = objs.
Proof.
  apply map_eq. intros k. unfold dropped. rewrite map_lookup_imap. by destruct (objs !! k).
Qed.

Lemma drop_evicted_spec s t key :
  offload s = Some t →
  ∃ st, drop_evicted key s = (Ok tt, s <| objects := dropped t [key] (objects s) |> <| stats := st |>) ∧
    storage_metrics st = storage_metrics (stats s).
Proof.
  intros Ht. unfold drop_evicted, gets, mbind, M_bind, id.
  assert (∀ objs, (∀ k, objs !! k = dropped t [key] (objects s) !! k) → objs = dropped t [key] (objects s)) as Heq
    by (intros; by apply map_eq).
  assert (∀ k, dropped t [key] (objects s) !! k = o ← objects s !! k;
    if bool_decide (k = key) then
      if bool_decide (obj_tier o = tier_name t) then None else Some (o <| persisted := false |>)
    else Some o) as Hd.
  { intros k. unfold dropped. rewrite map_lookup_imap. destruct (objects s !! k) as [o|]; [|done]. cbn.
    rewrite (bool_decide_ext (k ∈ [key]) (k = key)); [done|apply list_elem_of_singleton]. }
  destruct (objects s !! key) as [obj|] eqn:Ho.
  2: { exists (stats s). split; [|done]. rewrite <- (Heq (objects s)); [by destruct s|].
       intros k. rewrite Hd. destruct (decide (k = key)) as [->|]; [by rewrite Ho|].
       destruct (objects s !! k); [|done]. cbn. by rewrite bool_decide_eq_false_2. }
  unfold is_offload_tier, update_object, when, count, modify, mbind, M_bind. rewrite Ht.
  rewrite (bool_decide_ext (Some (obj_tier obj) = Some (tier_name t)) (obj_tier obj = tier_name t))
    by (split; congruence).
  assert (∀ objs st, (∀ k, objs !! k = dropped t [key] (objects s) !! k) →
    @pair (outcome unit) _ (Ok tt) (s <| objects := objs |> <| stats := st |>) =
    (Ok tt, s <| objects := dropped t [key] (objects s) |> <| stats := st |>)) as Hfin
    by (intros objs st Hobjs; by rewrite (Heq objs)).
  set (marked := alter (λ o, o <| persisted := false |>) key (objects s)).
  case_bool_decide as Htier.
  1: exists (stats s <| eviction_count ::= Z.succ |>); split; [apply (Hfin (delete key marked))|reflexivity].
  2: exists (stats s); split; [apply (Hfin marked (stats s))|reflexivity].
  all: unfold marked; intros k; rewrite Hd; destruct (decide (k = key)) as [->|].
  - rewrite lookup_delete_eq, Ho. cbn. by rewrite !bool_decide_eq_true_2.
  - rewrite lookup_delete_ne, lookup_alter_ne by done. destruct (objects s !! k); [|done].
    cbn. by rewrite bool_decide_eq_false_2.
  - rewrite lookup_alter_eq, Ho. cbn. rewrite bool_decide_eq_true_2 by done. by rewrite bool_decide_eq_false_2.
  - rewrite lookup_alter_ne by done. destruct (objects s !! k); [|done]. cbn. by rewrite bool_decide_eq_false_2.
Qed.

Lemma dropped_lookup t gone objs k :
  dropped t gone objs !! k = o ← objs !! k;
    if bool_decide (k ∈ gone) then
      if bool_decide (obj_tier o = tier_name t) then None else Some (o <| persisted := false |>)
    else Some o.
Proof. unfold dropped. rewrite map_lookup_imap. by destruct (objs !! k). Qed.

Lemma dropped_cons t key gone objs : dropped t gone (dropped t [key] objs) = dropped t (key :: gone) objs.
Proof.
  apply map_eq. intros k. rewrite !dropped_lookup. destruct (objs !! k) as [o|]; [|done]. cbn.
  rewrite (bool_decide_ext (k ∈ [key]) (k = key)) by apply list_elem_of_singleton.
  rewrite (bool_decide_ext (k ∈ key :: gone) (k = key ∨ k ∈ gone)) by apply elem_of_cons.
  repeat (case_bool_decide; try tauto; cbn).
Qed.

Lemma drop_all_spec gone s t :
  offload s = Some t →
  ∃ st, for_ gone drop_evicted s = (Ok tt, s <| objects := dropped t gone (objects s) |> <| stats := st |>) ∧
    storage_metrics st = storage_metrics (stats s).
Proof.
  revert s. induction gone as [|key gone IH]; intros s Ht.
  { exists (stats s). rewrite dropped_nil. by destruct s. }
  destruct (drop_evicted_spec s t key Ht) as (st1 & H1 & Hm1).
  match type of H1 with _ = (_, ?s1) => destruct (IH s1 Ht) as (st & H2 & Hm2) end.
  exists st. split; [|by rewrite Hm2]. cbn [for_]. unfold mbind, M_bind. rewrite H1.
  etrans; [exact H2|]. cbn. by rewrite dropped_cons.
Qed.

Lemma metrics_same address off st st' :
  storage_metrics st' = storage_metrics st → metrics_ok address off st → metrics_ok address off st'.
Proof. unfold metrics_ok. by intros ->. Qed.

Lemma record_offload_write_spec op s t :
  offload s = Some t → metrics_ok (master_server_address (config s)) (Some t) (stats s) →
  ∃ st, record_offload_write op s =
      (Ok tt, s <| objects := dropped t (evicted_keys op) (objects s) |> <| stats := st |>) ∧
    metrics_ok (master_server_address (config s)) (Some t) st.
Proof.
  intros Ht Hm. unfold record_offload_write, mbind, M_bind.
  destruct (backend_stats_spec (record_io Write (op_blocks op) (op_bytes op) (op_latency op)) s t
    (record_io_frame _ _ _ _) Ht Hm) as (st1 & -> & Hm1).
  unfold on_offload, gets. cbn -[for_]. rewrite Ht.
  set (st2 := if legacy_ssd t then st1 <| ssd_write_blocks ::= Z.add (op_blocks op) |>
                                       <| ssd_write_bytes ::= Z.add (op_bytes op) |> else st1).
  assert (metrics_ok (master_server_address (config s)) (Some t) st2) as Hm2
    by (eapply metrics_same, Hm1; unfold st2; by destruct (legacy_ssd t)).
  set (s2 := s <| stats := st2 |>).
  destruct (drop_all_spec (evicted_keys op) s2 t Ht) as (st & Hd & Hms).
  exists st. split; [|by eapply metrics_same].
  rewrite <- Ht. etrans; [|exact Hd]. unfold s2, st2. by destruct (legacy_ssd t), s.
Qed.

(** ** The offload tier under the store *)

(** A tier after a write of [key] that evicted [gone]; its pins may have moved on
    [key] itself. *)
Record rewritten (t : OffloadTier) (key : pystr) (gone : list pystr) (now : pyfloat) (t' : OffloadTier) : Prop := {
  rw_frame : tier_frame t t';
  rw_fresh : key ∉ gone;
  rw_free k : k ∈ gone → fleb (default f0 (protected_until t !! k)) now = true;
  rw_blocks k : tier_blocks t' !! k =
    if bool_decide (k = key) then Some 1 else if bool_decide (k ∈ gone) then None else tier_blocks t !! k;
  rw_pins k : k ≠ key → protected_until t' !! k =
    if bool_decide (k ∈ gone) then None else protected_until t !! k;
}.

Lemma core_after_write bb cap objs objs' lru lru' used used' t t' key gone now :
  core_ok bb cap objs lru used (Some t) → tier_good bb t' → rewritten t key gone now t' →
  (∀ k, k ≠ key → objs' !! k = dropped t gone objs !! k) →
  (∀ k, k ≠ key → k ∈ lru' ↔ k ∈ lru) → NoDup lru' →
  used' = Z.of_nat (length lru') * bb → used' <= cap →
  local_ok bb (Some t') (key ∈ lru') key (objs' !! key) →
  core_ok bb cap objs' lru' used' (Some t').
Proof.
  intros [Hloc _ _ _ Hbb Htier] Hgood [Hframe _ _ Hbl _] Hobjs Hlru Hnd Hused Hfits Hkey.
  split; [|done..|by intros ? [= <-]]. intros k. destruct (decide (k = key)) as [->|Hk]; [done|].
  specialize (Hloc k). specialize (Hlru k Hk). rewrite (Hobjs k Hk), dropped_lookup.
  assert (resident (Some t') k = if bool_decide (k ∈ gone) then None else resident (Some t) k) as Hres.
  { cbn. rewrite Hbl. by rewrite bool_decide_eq_false_2. }
  pose proof (tg_name _ _ (Htier t eq_refl)) as Hname. destruct Hframe as (_ & _ & Hn & _).
  destruct (objs !! k) as [o|]; cbn -[resident]; cbn -[resident] in Hloc.
  2: { rewrite Hres, Hlru. destruct Hloc as [? ->]. by destruct (bool_decide _). }
  destruct Hloc as (Hok & Hblk & Hby & Hin & Htr & Hper & Hone & Hnan). rewrite <- Hlru in Hin.
  destruct (bool_decide (k ∈ gone)) eqn:Hg; [destruct (decide (obj_tier o = tier_name t)) as [Ht|Ht]|].
  - rewrite bool_decide_eq_true_2 by done. cbn -[resident]. rewrite Hres. split; [|done].
    rewrite Hin, Ht. done.
  - rewrite bool_decide_eq_false_2 by done. cbn -[resident]. rewrite Hres. repeat split; try done; try tauto.
    destruct Htr as [?|[(t0 & [= <-] & ?) _]]; [by left|done].
  - cbn -[resident]. rewrite Hres. repeat split; try done; try tauto.
    + destruct Htr as [?|[(t0 & [= <-] & ?) ?]]; [by left|right]. split; [|done].
      exists t'. split; [done|]. congruence.
    + intros _. apply Hper. eauto.
Qed.

Lemma prot_after_write objs objs' t t' key gone now k d :
  rewritten t key gone now t' → k ≠ key → objs' !! k = dropped t gone objs !! k →
  tier_name t ≠ memory → (∀ o, objs !! k = Some o → obj_tier o = memory ∨ obj_tier o = tier_name t) →
  fleb d now = false → prot_in (Some t) objs k d → prot_in (Some t') objs' k d.
Proof.
  intros [Hframe _ Hfree _ Hpins] Hk Hobjs Hname Htiers Hd (o & Ho & Huse & Hpin).
  destruct Hframe as (_ & _ & Hn & _). unfold prot_in. rewrite Hobjs, dropped_lookup, Ho. cbn.
  specialize (Hpins k Hk). case_bool_decide as Hg.
  - rewrite bool_decide_eq_false_2.
    + eexists. split; [done|]. split; [done|]. cbn. intros t0 [= <-]. rewrite Hn. intros Ht.
      destruct (Htiers o Ho) as [Hm|Hm]; [congruence|]. rewrite (Hpin t eq_refl Hm now (Hfree k Hg)) in Hd. done.
    + intros Ht. rewrite (Hpin t eq_refl Ht now (Hfree k Hg)) in Hd. done.
  - exists o. split; [done|]. split; [done|]. intros t0 [= <-]. rewrite Hn, Hpins. by apply Hpin.
Qed.

(** A write seen from the store. *)
Lemma offload_write_spec s t key now :
  offload s = Some t → tier_good (block_bytes s) t →
  wp (on_offload (write key 1 now)) (λ op s', ∃ t', s' = s <| offload := Some t' |> ∧
    tier_good (block_bytes s) t' ∧
    ((evicted_keys op = [key] ∧ t' = t) ∨ rewritten t key (evicted_keys op) now t')) no_raise s.
Proof.
  intros Ht Hgood. pose proof Hgood as [Hok Hname Hbytes Hprice].
  destruct (wp_ok_inv _ _ _ (write_spec t key 1 now Hok ltac:(lia) ltac:(rewrite Hbytes, Z.mul_1_l; apply Hprice)))
    as (op & t' & Hw & Hok' & Hframe & Hout).
  unfold wp, on_offload. rewrite Ht, Hw. exists t'. split; [done|].
  split; [by eapply tier_good_frame|].
  destruct Hout as [(n & Hfit & Hev & _ & _ & _ & Hbl & Hpr)|(_ & -> & ->)]; [right|by left].
  assert (∀ k, k ∈ evicted_keys op → k ≠ key ∧ fleb (default f0 (protected_until t !! k)) now = true) as Hin.
  { intros k. rewrite Hev. intros Hk%elem_of_take. apply victims_spec in Hk. tauto. }
  split; [done| | |done|].
  - intros Hk. by destruct (Hin key Hk).
  - intros k Hk. by destruct (Hin k Hk).
  - intros k Hk. rewrite Hpr. rewrite (bool_decide_ext _ (k ∈ evicted_keys op)); [done|].
    rewrite elem_of_cons. tauto.
Qed.

Lemma write_timing_spec s t key media now delay :
  offload s = Some t → tier_good (block_bytes s) t →
  wp (write_timing key media now delay) (λ _ s', ∃ t', s' = s <| offload := Some t' |> ∧
    tier_good (block_bytes s) t' ∧ tier_frame t t' ∧ tier_blocks t' = tier_blocks t ∧
    ∀ k, k ≠ key → protected_until t' !! k = protected_until t !! k) no_raise s.
Proof.
  intros Ht Hgood. unfold write_timing. wp_step. unfold wp at 1, on_offload. rewrite Ht.
  destruct (wp_ok_inv _ _ _ (pin_spec t key (fadd (fadd now delay) media) (tg_ok _ _ Hgood)))
    as (u & t' & -> & Hok' & Hframe & Hbl & Hpr).
  wp_step. exists t'. split; [done|]. split; [by eapply tier_good_frame|]. split; [done|]. split; [done|].
  intros k Hk. by rewrite Hpr, lookup_insert_ne.
Qed.

Lemma rewritten_pin t key gone now t' t'' :
  rewritten t key gone now t' → tier_frame t' t'' → tier_blocks t'' = tier_blocks t' →
  (∀ k, k ≠ key → protected_until t'' !! k = protected_until t' !! k) → rewritten t key gone now t''.
Proof.
  intros [Hf Hfresh Hfree Hb Hp] Hf' Hb' Hp'. split; [by eapply tier_frame_trans|done|done|by rewrite Hb'|].
  intros k Hk. rewrite Hp' by done. by apply Hp.
Qed.

(** What the invariant says of one stored object. *)
Lemma store_object s k o :
  store_ok s → objects s !! k = Some o →
  obj_key o = k ∧ obj_blocks o = 1 ∧ obj_bytes o = block_bytes s ∧
  (k ∈ memory_lru s ↔ obj_tier o = memory) ∧
  (obj_tier o = memory ∨ ∃ t, offload s = Some t ∧ obj_tier o = tier_name t ∧ is_Some (tier_blocks t !! k)).
Proof.
  intros Hok Ho. pose proof (co_local _ _ _ _ _ _ (so_core _ Hok) k) as Hloc. rewrite Ho in Hloc.
  destruct Hloc as (? & ? & ? & ? & Htr & _). repeat split; try done; try tauto.
  destruct Htr as [?|[(t & Ht & ?) Hr]]; [by left|right]. exists t. rewrite Ht in Hr. done.
Qed.

Lemma lru_object s k : store_ok s → k ∈ memory_lru s → ∃ o, objects s !! k = Some o ∧ obj_tier o = memory.
Proof.
  intros Hok Hk. pose proof (co_local _ _ _ _ _ _ (so_core _ Hok) k) as Hloc.
  destruct (objects s !! k) as [o|]; [|by destruct Hloc]. exists o. split; [done|]. by apply Hloc.
Qed.

(** Taking the oldest key out of the LRU order frees one block. *)
Lemma evict_counts s key :
  store_ok s → key ∈ memory_lru s →
  NoDup (lru_remove key (memory_lru s)) ∧
  memory_used_bytes s - block_bytes s = Z.of_nat (length (lru_remove key (memory_lru s))) * block_bytes s ∧
  memory_used_bytes s - block_bytes s <= memory_capacity_bytes s.
Proof.
  intros Hok Hin. pose proof (so_core _ Hok) as [_ Hnd Hu Hf Hb _].
  split; [by apply NoDup_lru_remove|]. pose proof (length_lru_remove _ _ Hnd Hin) as Hl. nia.
Qed.

Lemma core_update_key bb cap objs objs' lru lru' used used' off key :
  core_ok bb cap objs lru used off →
  (∀ k, k ≠ key → objs' !! k = objs !! k) → (∀ k, k ≠ key → k ∈ lru' ↔ k ∈ lru) → NoDup lru' →
  used' = Z.of_nat (length lru') * bb → used' <= cap →
  local_ok bb off (key ∈ lru') key (objs' !! key) →
  core_ok bb cap objs' lru' used' off.
Proof.
  intros [Hloc _ _ _ Hbb Htier] Hobjs Hlru Hnd Hu Hf Hkey. split; try done.
  intros k. destruct (decide (k = key)) as [->|Hk]; [done|]. by rewrite Hobjs, Hlru.
Qed.

(** An operation on [key] at [now] changed the other keys only through evictions
    of the offload tier. *)
Definition others_kept (now : pyfloat) (key : pystr) (s s' : MooncakeStore) : Prop :=
  (offload s' = offload s ∧ ∀ k, k ≠ key → objects s' !! k = objects s !! k) ∨
  ∃ t t' gone, offload s = Some t ∧ offload s' = Some t' ∧ tier_good (block_bytes s) t' ∧
    rewritten t key gone now t' ∧ ∀ k, k ≠ key → objects s' !! k = dropped t gone (objects s) !! k.

Lemma others_prot now key s s' k d :
  store_ok s → others_kept now key s s' → k ≠ key → fleb d now = false → prot s k d → prot s' k d.
Proof.
  intros Hok Hoth Hk Hd Hprot. unfold prot in *. destruct Hoth as [[Hoff Hobjs]|(t & t' & gone & Ht & Ht' & Hgood & Hrw & Hobjs)].
  - destruct Hprot as (o & Ho & Huse & Hpin). exists o. rewrite Hobjs, Hoff by done. done.
  - rewrite Ht in Hprot. rewrite Ht'. eapply prot_after_write; try done; [by apply Hobjs| |].
    + eapply tg_name, co_tier; [apply Hok|done].
    + intros o Ho. destruct (store_object s k o Hok Ho) as (_ & _ & _ & _ & [?|(t0 & Ht0 & ? & _)]); [by left|].
      right. congruence.
Qed.

(** The common shape of the operations on one key. *)
Lemma key_step now key s s' :
  store_ok s → config s' = config s → block_bytes s' = block_bytes s →
  memory_capacity_bytes s' = memory_capacity_bytes s → others_kept now key s s' →
  (∀ k, k ≠ key → k ∈ memory_lru s' ↔ k ∈ memory_lru s) → NoDup (memory_lru s') →
  memory_used_bytes s' = Z.of_nat (length (memory_lru s')) * block_bytes s →
  memory_used_bytes s' <= memory_capacity_bytes s →
  local_ok (block_bytes s) (offload s') (key ∈ memory_lru s') key (objects s' !! key) →
  metrics_ok (master_server_address (config s)) (offload s') (stats s') →
  (∀ d, fleb d now = false → prot s key d → prot s' key d) →
  stepped now s s'.
Proof.
  intros Hok Hcfg Hbb Hcap Hoth Hlru Hnd Hu Hf Hkey Hmet Hprot. pose proof Hok as [Hcore Hen _].
  split; try done.
  - split.
    + rewrite Hbb, Hcap. destruct Hoth as [[Hoff Hobjs]|(t & t' & gone & Ht & Ht' & Hgood & Hrw & Hobjs)].
      * rewrite Hoff in *. by eapply core_update_key.
      * rewrite Ht in Hcore. rewrite Ht' in *. by eapply core_after_write.
    + rewrite Hcfg, Hen. destruct Hoth as [[-> _]|(t & t' & gone & -> & -> & _)]; [done|].
      by rewrite !bool_decide_eq_true_2.
    + by rewrite Hcfg.
  - intros k d Hd Hp. destruct (decide (k = key)) as [->|]; [by apply Hprot|by eapply others_prot].
Qed.

(** The evictions. *)
Lemma evict_step now key s s' o :
  store_ok s → objects s !! key = Some o → key ∈ memory_lru s → fleb (fmax (ready_at o) (in_use_until o)) now = true →
  config s' = config s → block_bytes s' = block_bytes s → memory_capacity_bytes s' = memory_capacity_bytes s →
  memory_lru s' = lru_remove key (memory_lru s) → memory_used_bytes s' = memory_used_bytes s - block_bytes s →
  others_kept now key s s' →
  local_ok (block_bytes s) (offload s') False key (objects s' !! key) →
  metrics_ok (master_server_address (config s)) (offload s') (stats s') →
  stepped now s s'.
Proof.
  intros Hok Ho Hin Huse Hcfg Hbb Hcap Hlru Hused Hoth Hkey Hmet.
  destruct (evict_counts s key Hok Hin) as (Hnd & Hu & Hf).
  apply (key_step now key); rewrite ?Hlru, ?Hused; try done.
  - intros k Hk. by apply elem_of_lru_remove_ne.
  - assert (key ∈ lru_remove key (memory_lru s) ↔ False) as -> by (rewrite elem_of_lru_remove; tauto). done.
  - intros d Hd (o' & Ho' & Huse' & _). rewrite Ho in Ho'. injection Ho' as <-.
    pose proof (proj1 (fleb_spec _ _) Huse') as (_ & Hnan & _).
    rewrite (fleb_trans _ _ _ Huse' (fmax_le_right _ _ _ Hnan Huse)) in Hd. done.
Qed.

Lemma others_none now key s s' k :
  others_kept now key s s' → k ≠ key → objects s !! k = None → objects s' !! k = None.
Proof.
  intros [[_ Hobjs]|(t & t' & gone & _ & _ & _ & _ & Hobjs)] Hk Hnone; rewrite Hobjs by done; [done|].
  by rewrite dropped_lookup, Hnone.
Qed.

(** The tier of a store with an offload tier. *)
Lemma store_tier s t : store_ok s → offload s = Some t → tier_good (block_bytes s) t.
Proof. intros Hok Ht. eapply co_tier; [apply Hok|done]. Qed.

Lemma store_local s k : store_ok s → local_ok (block_bytes s) (offload s) (k ∈ memory_lru s) k (objects s !! k).
Proof. intros Hok. apply (co_local _ _ _ _ _ _ (so_core _ Hok)). Qed.

(** ** Writing through to the offload tier *)

Definition same_dram (s s' : MooncakeStore) : Prop :=
  config s' = config s ∧ block_bytes s' = block_bytes s ∧
  memory_capacity_bytes s' = memory_capacity_bytes s ∧
  memory_used_bytes s' = memory_used_bytes s ∧ memory_lru s' = memory_lru s.

Lemma same_dram_trans s1 s2 s3 : same_dram s1 s2 → same_dram s2 s3 → same_dram s1 s3.
Proof. intros (? & ? & ? & ? & ?) (? & ? & ? & ? & ?). repeat split; congruence. Qed.

Record wrote_through (t : OffloadTier) (key : pystr) (now : pyfloat) (gone : list pystr) (s s' : MooncakeStore) :
    Prop := {
  wt_dram : same_dram s s';
  wt_metrics : metrics_ok (master_server_address (config s)) (offload s') (stats s');
  wt_objects : objects s' = dropped t gone (objects s);
  wt_offload : ∃ t', offload s' = Some t' ∧ tier_good (block_bytes s) t' ∧
    (gone = [key] ∧ t' = t ∨ rewritten t key gone now t');
}.

Lemma wp_write_record {A} s t key now (k : OffloadOperation → M MooncakeStore A) Q E :
  offload s = Some t → tier_good (block_bytes s) t →
  metrics_ok (master_server_address (config s)) (Some t) (stats s) →
  (∀ op s', wrote_through t key now (evicted_keys op) s s' → wp (k op) Q E s') →
  wp (op ← on_offload (write key 1 now); record_offload_write op ;; k op) Q E s.
Proof.
  intros Ht Hgood Hmet Hk. wp_step. eapply wp_mono; [by apply (offload_write_spec s t)| |done].
  intros op s1 (t' & -> & Hgood' & Hout). wp_step. unfold wp at 1.
  assert (tier_frame t t') as Hframe by (destruct Hout as [[_ ->]|Hrw]; [done|apply Hrw]).
  match goal with |- context [record_offload_write op ?x] => set (s1 := x) end.
  destruct (record_offload_write_spec op s1 t' eq_refl (metrics_frame _ _ _ _ Hframe Hmet)) as (st & -> & Hm).
  apply Hk. split; cbn; try done; [|by exists t'].
  apply map_eq. intros x. rewrite !dropped_lookup. by destruct Hframe as (_ & _ & -> & _).
Qed.

Record marked (t : OffloadTier) (key : pystr) (f : StoreObject → StoreObject) (s s' : MooncakeStore) : Prop := {
  mk_dram : same_dram s s';
  mk_objects : objects s' = alter f key (objects s);
  mk_stats : stats s' = stats s;
  mk_offload : ∃ t', offload s' = Some t' ∧ tier_good (block_bytes s) t' ∧ tier_frame t t' ∧
    tier_blocks t' = tier_blocks t ∧ ∀ x, x ≠ key → protected_until t' !! x = protected_until t !! x;
}.

Lemma mark_pin_spec s t key media now delay :
  offload s = Some t → tier_good (block_bytes s) t →
  wp (update_object key (mark_written media now delay))
    (λ _ s1, wp (write_timing key media now delay)
       (λ _ s', marked t key (mark_written media now delay) s s') no_raise s1) no_raise s.
Proof.
  intros Ht Hgood. unfold update_object. wp_step. match goal with |- wp _ _ _ ?x => set (s1 := x) end.
  eapply wp_mono; [by apply (write_timing_spec s1 t)| |done].
  intros timing s' (t' & -> & Hgood' & Hframe & Hb & Hp). split; try done. by exists t'.
Qed.

(** [_evict_memory] of a ready object that is not in use. *)
Definition evicted_from (now : pyfloat) (key : pystr) (s s' : MooncakeStore) : Prop :=
  stepped now s s' ∧ memory_lru s' = lru_remove key (memory_lru s) ∧
  memory_used_bytes s' = memory_used_bytes s - block_bytes s ∧
  ∀ k, objects s !! k = None → objects s' !! k = None.

(** The tail of an eviction into the offload tier: [s1] is the state in which
    the object has left the DRAM tier. *)
Lemma demote_spec key now s s1 t o :
  store_ok s → key ∈ memory_lru s → objects s !! key = Some o → fleb (fmax (ready_at o) (in_use_until o)) now = true →
  offload s = Some t → tier_blocks t !! key = None →
  config s1 = config s → block_bytes s1 = block_bytes s → memory_capacity_bytes s1 = memory_capacity_bytes s →
  memory_lru s1 = lru_remove key (memory_lru s) → memory_used_bytes s1 = memory_used_bytes s - block_bytes s →
  objects s1 = alter (λ o, o <| obj_tier := tier_name t |>) key (objects s) → offload s1 = Some t →
  storage_metrics (stats s1) = storage_metrics (stats s) →
  wp (op ← on_offload (write key 1 now); record_offload_write op ;;
      if bool_decide (key ∈ evicted_keys op) then mret no_timing
      else update_object key (mark_written (op_latency op) now f0) ;;
           write_timing key (op_latency op) now f0)
    (λ _ s', evicted_from now key s s') no_raise s1.
Proof.
  intros Hok Hin Ho Huse Ht Hres Hcfg Hbb Hcap Hlru Hused Hobjs Ht1 Hst.
  pose proof (store_tier s t Hok Ht) as Hgood. pose proof (tg_name _ _ Hgood) as Hname.
  destruct (store_object s key o Hok Ho) as (Hk & Hb1 & Hby & _ & _). pose proof (so_metrics _ Hok) as Hmet.
  pose proof (store_local s key Hok) as Hloc. rewrite Ho in Hloc. destruct Hloc as (_ & _ & _ & _ & _ & _ & _ & Hnan).
  assert (∀ s', same_dram s1 s' → others_kept now key s s' →
    local_ok (block_bytes s) (offload s') False key (objects s' !! key) →
    metrics_ok (master_server_address (config s)) (offload s') (stats s') → evicted_from now key s s') as Hfin.
  { intros s' (H1 & H2 & H3 & H4 & H5) H6 H7 H8.
    split; [eapply (evict_step now key s s' o); congruence || done|].
    split; [congruence|]. split; [congruence|].
    intros k Hnone. apply (others_none now key s s' k H6); [|done]. intros ->. congruence. }
  apply (wp_write_record s1 t); [done|by rewrite Hbb|rewrite Hcfg; rewrite Ht in Hmet; by eapply metrics_same|].
  intros op s2 [Hdram Hmet2 Hobj2 (t' & Ht' & Hgood' & Hout)]. rewrite Hcfg in Hmet2. rewrite Hbb in Hgood'.
  assert (∀ k, k ≠ key → objects s1 !! k = objects s !! k) as Hne by (intros; by rewrite Hobjs, lookup_alter_ne).
  assert (objects s1 !! key = Some (o <| obj_tier := tier_name t |>)) as Hkey by (by rewrite Hobjs, lookup_alter_eq, Ho).
  destruct Hout as [[Hgone ->]|Hrw].
  - rewrite Hgone. rewrite bool_decide_eq_true_2 by set_solver. wp_step. apply Hfin; try done.
    + left. split; [congruence|]. intros k Hk'. rewrite Hobj2, Hgone, dropped_lookup, Hne by done.
      rewrite bool_decide_eq_false_2 by set_solver. by destruct (objects s !! k).
    + rewrite Hobj2, Hgone, dropped_lookup, Hkey, Ht'. cbn -[resident].
      rewrite bool_decide_eq_true_2, bool_decide_eq_true_2 by set_solver. cbn. tauto.
  - rewrite bool_decide_eq_false_2 by apply Hrw. wp_step.
    pose proof Hdram as (Hc2 & Hb2 & _).
    eapply wp_mono; [apply (mark_pin_spec s2 t'); [done|by rewrite Hb2, Hbb]| |done].
    intros u s3 Hw. eapply wp_mono; [exact Hw| |done]. clear u Hw s3.
    intros timing s3 [Hd3 Ho3 Hs3 (t'' & Ht'' & Hgood'' & Hf'' & Hb'' & Hp'')].
    rewrite Hb2, Hbb in Hgood''. pose proof (rewritten_pin _ _ _ _ _ _ Hrw Hf'' Hb'' Hp'') as Hrw'.
    apply Hfin.
    + by eapply same_dram_trans.
    + right. exists t, t'', (evicted_keys op). do 4 (split; [done|]). intros k Hk'.
      rewrite Ho3, lookup_alter_ne, Hobj2, !dropped_lookup, Hne by done. done.
    + rewrite Ho3, lookup_alter_eq, Hobj2, dropped_lookup, Hkey, Ht''. cbn -[resident local_ok memory].
      rewrite bool_decide_eq_false_2 by apply Hrw. cbn -[resident local_ok memory].
      assert (resident (Some t'') key = Some 1) as Hr
        by (cbn; rewrite (rw_blocks _ _ _ _ _ Hrw'); by rewrite bool_decide_eq_true_2).
      apply local_some; cbn -[resident memory]; rewrite ?Hr; try done; [|by intros n [= <-]].
      right. split; [|done]. exists t''. split; [done|].
      destruct (rw_frame _ _ _ _ _ Hrw') as (_ & _ & -> & _). done.
    + rewrite Ht'', Hs3. rewrite Ht' in Hmet2. by eapply metrics_frame.
Qed.

Lemma evict_memory_spec key now s o :
  store_ok s → key ∈ memory_lru s → objects s !! key = Some o → fleb (fmax (ready_at o) (in_use_until o)) now = true →
  wp (evict_memory key now) (λ _ s', evicted_from now key s s') no_raise s.
Proof.
  intros Hok Hin Ho Huse. destruct (store_object s key o Hok Ho) as (Hk & Hb1 & Hby & Hlru & _).
  pose proof (proj1 Hlru Hin) as Hmem. pose proof (store_local s key Hok) as Hloc. rewrite Ho in Hloc.
  destruct Hloc as (_ & _ & _ & _ & _ & Hper & Hone & Hnan). pose proof Hok as [_ Hen Hmet].
  assert (∀ s', config s' = config s → block_bytes s' = block_bytes s →
    memory_capacity_bytes s' = memory_capacity_bytes s → memory_lru s' = lru_remove key (memory_lru s) →
    memory_used_bytes s' = memory_used_bytes s - block_bytes s → offload s' = offload s →
    (∀ k, k ≠ key → objects s' !! k = objects s !! k) →
    local_ok (block_bytes s) (offload s') False key (objects s' !! key) →
    storage_metrics (stats s') = storage_metrics (stats s) → evicted_from now key s s') as Hfin.
  { intros s' H1 H2 H3 H4 H5 H6 H7 H8 H9. assert (others_kept now key s s') as Hoth by (by left).
    split; [eapply (evict_step now key s s' o); try done; rewrite H6; by eapply metrics_same|].
    split; [done|]. split; [done|]. intros k Hnone. rewrite H7; [done|]. intros ->. congruence. }
  unfold evict_memory. do 2 wp_step. rewrite bool_decide_eq_true_2 by done. cbn [negb]. do 4 wp_step.
  unfold id. cbn [objects update_field]. rewrite Ho. rewrite bool_decide_eq_true_2 by done. cbn [negb]. do 3 wp_step.
  rewrite Hby. unfold count. wp_step. cbv beta. match goal with |- wp _ _ _ ?x => set (s2 := x) end.
  cbn [offload config]. rewrite Hen, Hk, Hb1. destruct (offload s) as [t|] eqn:Ht.
  2: { do 3 wp_step. apply Hfin; try done.
       - intros k Hne. cbn. by rewrite lookup_delete_ne.
       - cbn. rewrite lookup_delete_eq. split; [tauto|]. done. }
  pose proof (tg_name _ _ (store_tier s t Hok Ht)) as Hname.
  rewrite bool_decide_eq_true_2 by done. cbv iota. unfold update_object. do 2 wp_step. cbv beta.
  match goal with |- wp _ _ _ ?x => set (s3 := x) end.
  destruct (contains key t) eqn:Hc; unfold contains in Hc.
  - apply bool_decide_eq_true in Hc. wp_step. apply Hfin; try done.
    + intros k Hne. cbn. by rewrite lookup_alter_ne.
    + unfold s3, s2. cbn [objects offload update_field]. rewrite lookup_alter_eq, Ho.
      apply local_some; cbn -[resident memory]; try done. right. split; [by exists t|done].
  - apply bool_decide_eq_false in Hc. apply eq_None_not_Some in Hc.
    apply (demote_spec key now s s3 t o); done.
Qed.

(** ** The eviction loop *)

Lemma find_candidate_spec s now lru :
  store_ok s → (∀ k, k ∈ lru → k ∈ memory_lru s) →
  ∃ found, find_candidate (objects s) now lru = Ok found ∧
    match found with
    | Some key => key ∈ lru ∧ ∃ o, objects s !! key = Some o ∧
                    fleb (fmax (ready_at o) (in_use_until o)) now = true
    | None => ∀ key o, key ∈ lru → objects s !! key = Some o →
                fleb (fmax (ready_at o) (in_use_until o)) now = false
    end.
Proof.
  intros Hok. induction lru as [|key lru IH]; intros Hin.
  { exists None. split; [done|]. by intros key o Hk%elem_of_nil. }
  destruct (lru_object s key Hok (Hin key (list_elem_of_here _ _))) as (o & Ho & _).
  cbn. rewrite Ho. destruct (fleb (fmax (ready_at o) (in_use_until o)) now) eqn:He.
  - exists (Some key). split; [done|]. split; [apply list_elem_of_here|]. eauto.
  - destruct IH as (found & -> & Hf); [intros k Hk; apply Hin; by right|].
    exists found. split; [done|]. destruct found as [k|]; [destruct Hf; split; [by right|done]|].
    intros k o' [-> | Hk]%elem_of_cons Ho'; [congruence|by eapply Hf].
Qed.

(** What making room did: when it succeeds the bytes fit, when it fails every
    object in the DRAM tier is busy, the policy forbids eviction, or the request
    is larger than the tier. *)
Definition room_made (now : pyfloat) (bytes : Z) (s : MooncakeStore) (room : bool) (s' : MooncakeStore) : Prop :=
  stepped now s s' ∧ (∀ k, objects s !! k = None → objects s' !! k = None) ∧
  if room then memory_used_bytes s' + bytes <= memory_capacity_bytes s'
  else memory_capacity_bytes s' < memory_used_bytes s' + bytes ∧
    (eviction (config s) = LRU → ∀ key o, key ∈ memory_lru s' → objects s' !! key = Some o →
       fleb (fmax (ready_at o) (in_use_until o)) now = false).

Lemma evict_loop_spec fuel bytes now timing s :
  store_ok s → (length (memory_lru s) <= fuel)%nat →
  wp (evict_loop fuel bytes now timing) (λ '(room, _) s', room_made now bytes s room s') no_raise s.
Proof.
  revert timing s. induction fuel as [|fuel IH]; intros timing s Hok Hfuel; cbn [evict_loop]; do 2 wp_step; unfold id.
  - destruct (Z.leb_spec (memory_used_bytes s + bytes) (memory_capacity_bytes s)) as [Hle|Hgt]; wp_step.
    + split; [by apply stepped_refl|done].
    + split; [by apply stepped_refl|]. split; [done|]. split; [lia|].
      intros _ key o Hkey. destruct (memory_lru s); [by apply elem_of_nil in Hkey|cbn in Hfuel; lia].
  - destruct (Z.leb_spec (memory_used_bytes s + bytes) (memory_capacity_bytes s)) as [Hle|Hgt].
    { wp_step. split; [by apply stepped_refl|done]. }
    destruct (bool_decide (eviction (config s) = LRU)) eqn:Hpol; cbn [negb orb].
    2: { wp_step. apply bool_decide_eq_false in Hpol. split; [by apply stepped_refl|]. split; [done|]. split; [lia|].
         intros HL. done. }
    destruct (decide (memory_lru s = [])) as [Hnil|Hnil];
      [rewrite bool_decide_eq_true_2 by done|rewrite bool_decide_eq_false_2 by done]; cbv iota.
    { wp_step. split; [by apply stepped_refl|]. split; [done|]. split; [lia|].
      rewrite Hnil. by intros _ key o Hkey%elem_of_nil. }
    destruct (find_candidate_spec s now (memory_lru s) Hok (λ k H, H)) as (found & -> & Hf).
    destruct found as [key|].
    2: { wp_step. split; [by apply stepped_refl|]. split; [done|]. split; [lia|]. intros _. exact Hf. }
    destruct Hf as (Hkey & o & Ho & Hfree). wp_step.
    eapply wp_mono; [by apply (evict_memory_spec key now s o)| |done].
    intros evicted s1 (Hst1 & Hlru1 & Hused1 & Hnone1).
    assert (length (memory_lru s1) <= fuel)%nat as Hfuel1.
    { rewrite Hlru1. pose proof (length_lru_remove key (memory_lru s) (co_nodup _ _ _ _ _ _ (so_core _ Hok)) Hkey). lia. }
    eapply wp_mono; [apply IH; [apply Hst1|done]| |done].
    intros [room timing'] s2 (Hst2 & Hnone2 & Hroom). split; [by eapply stepped_trans|].
    split; [auto|]. destruct room; [done|]. by rewrite (st_config _ _ _ Hst1) in Hroom.
Qed.

Lemma ensure_memory_capacity_spec bytes now s :
  store_ok s → 0 <= bytes → 0 <= memory_used_bytes s →
  wp (ensure_memory_capacity bytes now) (λ '(room, _) s', stepped now s s' ∧
    (∀ k, objects s !! k = None → objects s' !! k = None) ∧
    (room = true → memory_used_bytes s' + bytes <= memory_capacity_bytes s')) no_raise s.
Proof.
  intros Hok Hb Hu. unfold ensure_memory_capacity. do 2 wp_step. unfold id.
  destruct (Z.ltb_spec (memory_capacity_bytes s) bytes).
  { wp_step. split; [by apply stepped_refl|done]. }
  eapply wp_mono; [by apply evict_loop_spec| |done].
  intros [room timing] s' (Hst & Hnone & Hroom). split; [done|]. split; [done|]. by intros ->.
Qed.

(** ** Touching, admitting and writing *)

(** The state after [_touch]. *)
Definition touched (key : pystr) (s s' : MooncakeStore) : Prop :=
  ∃ c, objects s' = alter (λ o, o <| last_access := c |>) key (objects s) ∧
    memory_lru s' = (if bool_decide (key ∈ memory_lru s) then lru_move_to_end key (memory_lru s) else memory_lru s) ∧
    config s' = config s ∧ block_bytes s' = block_bytes s ∧
    memory_capacity_bytes s' = memory_capacity_bytes s ∧ memory_used_bytes s' = memory_used_bytes s ∧
    offload s' = offload s ∧ stats s' = stats s.

Lemma touch_touched key o s :
  store_ok s → objects s !! key = Some o → wp (touch key o) (λ _ s', touched key s s') no_raise s.
Proof.
  intros Hok Ho. destruct (store_object s key o Hok Ho) as (Hk & _ & _ & Hlru & _).
  unfold touch, update_object. do 8 wp_step. rewrite Hk. cbn [memory_lru update_field].
  rewrite (bool_decide_ext _ _ (iff_sym Hlru)), andb_diag.
  destruct (bool_decide (key ∈ memory_lru s)) eqn:E; wp_step; eexists; cbn; rewrite E; done.
Qed.

Lemma touched_stepped now key s s' : store_ok s → touched key s s' → stepped now s s'.
Proof.
  intros Hok (c & Hobjs & Hlru & Hcfg & Hbb & Hcap & Hused & Hoff & Hst). pose proof Hok as [Hcore _ Hmet].
  assert (memory_lru s' ≡ₚ memory_lru s) as Hperm.
  { rewrite Hlru. case_bool_decide; [|done]. apply lru_move_perm; [apply Hcore|done]. }
  assert (∀ k, k ≠ key → objects s' !! k = objects s !! k) as Hne by (intros; by rewrite Hobjs, lookup_alter_ne).
  apply (key_step now key); try done.
  - by left.
  - intros k _. by rewrite Hperm.
  - rewrite Hperm. apply Hcore.
  - rewrite Hused, Hperm. apply Hcore.
  - rewrite Hused. apply Hcore.
  - rewrite Hoff, Hperm, Hobjs, lookup_alter_eq. pose proof (store_local s key Hok) as Hloc.
    by destruct (objects s !! key).
  - by rewrite Hoff, Hst.
  - intros d _ (o & Ho & Huse & Hpin). unfold prot, prot_in. rewrite Hoff, Hobjs, lookup_alter_eq, Ho. by eexists.
Qed.

Lemma touch_stepped now key o s :
  store_ok s → objects s !! key = Some o → wp (touch key o) (λ _ s', stepped now s s') no_raise s.
Proof.
  intros Hok Ho. eapply wp_mono; [by apply touch_touched| |done]. intros u s' Ht. exact (touched_stepped now key s s' Hok Ht).
Qed.

(** A fresh object that has just been stored, with or without a copy in the
    offload tier. *)
Lemma admit_step now key s s' o :
  store_ok s → objects s !! key = None → objects s' !! key = Some o →
  obj_key o = key → obj_blocks o = 1 → obj_bytes o = block_bytes s → obj_tier o = memory →
  (is_Some (offload s') → persisted o = bool_decide (is_Some (resident (offload s') key))) →
  (∀ n, resident (offload s') key = Some n → n = 1) → in_use_until o ≠ S754_nan →
  config s' = config s → block_bytes s' = block_bytes s → memory_capacity_bytes s' = memory_capacity_bytes s →
  memory_lru s' = memory_lru s ++ [key] → memory_used_bytes s' = memory_used_bytes s + block_bytes s →
  memory_used_bytes s' <= memory_capacity_bytes s → others_kept now key s s' →
  metrics_ok (master_server_address (config s)) (offload s') (stats s') → stepped now s s'.
Proof.
  intros Hok Hnone Ho Hk Hb1 Hby Htier Hper Hone Hnan Hcfg Hbb Hcap Hlru Hused Hfits Hoth Hmet.
  pose proof (store_local s key Hok) as Hloc. rewrite Hnone in Hloc. destruct Hloc as [Hnin _].
  pose proof (so_core _ Hok) as [_ Hnd Hu _ Hb _].
  apply (key_step now key); try done.
  - intros k Hne. rewrite Hlru, elem_of_app, list_elem_of_singleton. tauto.
  - rewrite Hlru. apply NoDup_app. split; [done|]. split; [|apply NoDup_singleton].
    by intros x Hx ->%list_elem_of_singleton.
  - rewrite Hused, Hlru, length_app. cbn. lia.
  - rewrite Ho. apply local_some; try done; [|by left]. split; [done|]. intros _. rewrite Hlru. set_solver.
  - intros d _ (o' & Ho' & _). congruence.
Qed.

Lemma fresh_resident s t key : store_ok s → offload s = Some t → objects s !! key = None → tier_blocks t !! key = None.
Proof.
  intros Hok Ht Hnone. pose proof (store_local s key Hok) as Hloc. rewrite Hnone, Ht in Hloc. by destruct Hloc.
Qed.

(** The write-through of an object [s1] has just admitted. *)
Lemma admit_through_spec key now delay timing s s1 t o :
  store_ok s → objects s !! key = None → offload s = Some t →
  objects s1 = <[key := o]> (objects s) → offload s1 = Some t →
  obj_key o = key → obj_blocks o = 1 → obj_bytes o = block_bytes s → obj_tier o = memory → persisted o = false →
  in_use_until o ≠ S754_nan → config s1 = config s → block_bytes s1 = block_bytes s → memory_capacity_bytes s1 = memory_capacity_bytes s →
  memory_lru s1 = memory_lru s ++ [key] → memory_used_bytes s1 = memory_used_bytes s + block_bytes s →
  memory_used_bytes s1 <= memory_capacity_bytes s → storage_metrics (stats s1) = storage_metrics (stats s) →
  wp (op ← on_offload (write key 1 now); record_offload_write op ;;
      if bool_decide (key ∈ evicted_keys op) then mret timing
      else update_object key (mark_written (op_latency op) now delay) ;;
           written ← write_timing key (op_latency op) now delay;
           mret (timing_add timing written))
    (λ _ s', stepped now s s') no_raise s1.
Proof.
  intros Hok Hnone Ht Hobjs Ht1 Hk Hb1 Hby Htier Hper Hnan Hcfg Hbb Hcap Hlru Hused Hfits Hst.
  pose proof (store_tier s t Hok Ht) as Hgood. pose proof (tg_name _ _ Hgood) as Hname.
  pose proof (fresh_resident s t key Hok Ht Hnone) as Hres. pose proof (so_metrics _ Hok) as Hmet. rewrite Ht in Hmet.
  apply (wp_write_record s1 t); [done|by rewrite Hbb|rewrite Hcfg; by eapply metrics_same|].
  intros op s2 [Hdram Hmet2 Hobj2 (t' & Ht' & Hgood' & Hout)]. rewrite Hcfg in Hmet2. rewrite Hbb in Hgood'.
  assert (∀ k, k ≠ key → objects s1 !! k = objects s !! k) as Hne by (intros; by rewrite Hobjs, lookup_insert_ne).
  assert (objects s1 !! key = Some o) as Hkey by (by rewrite Hobjs, lookup_insert_eq).
  assert (∀ s' o', same_dram s1 s' → others_kept now key s s' → objects s' !! key = Some o' →
    obj_key o' = key → obj_blocks o' = 1 → obj_bytes o' = block_bytes s → obj_tier o' = memory →
    (is_Some (offload s') → persisted o' = bool_decide (is_Some (resident (offload s') key))) →
    (∀ n, resident (offload s') key = Some n → n = 1) → in_use_until o' ≠ S754_nan →
    metrics_ok (master_server_address (config s)) (offload s') (stats s') → stepped now s s') as Hfin.
  { intros s' o' (H1 & H2 & H3 & H4 & H5) H6 H7 H8 H9 H10 H11 H12 H13 H14 H15.
    apply (admit_step now key s s' o'); congruence || done. }
  destruct Hout as [[Hgone ->]|Hrw].
  - rewrite Hgone, bool_decide_eq_true_2 by set_solver. wp_step.
    apply (Hfin s2 (o <| persisted := false |>)); rewrite ?Ht'; try done.
    + left. split; [congruence|]. intros k Hk'. rewrite Hobj2, Hgone, dropped_lookup, Hne by done.
      rewrite bool_decide_eq_false_2 by set_solver. by destruct (objects s !! k).
    + rewrite Hobj2, Hgone, dropped_lookup, Hkey. cbn.
      rewrite bool_decide_eq_true_2, bool_decide_eq_false_2 by (congruence || set_solver). done.
    + intros _. cbn. by rewrite Hres.
    + cbn. by rewrite Hres.
    + by rewrite Ht' in Hmet2.
  - rewrite bool_decide_eq_false_2 by apply Hrw. wp_step. pose proof Hdram as (Hc2 & Hb2 & _).
    eapply wp_mono; [apply (mark_pin_spec s2 t' key (op_latency op) now delay); [done|by rewrite Hb2, Hbb]| |done].
    intros u s3 Hw. wp_step. eapply wp_mono; [exact Hw| |done]. clear u Hw s3.
    intros w s3 [Hd3 Ho3 Hs3 (t'' & Ht'' & Hgood'' & Hf'' & Hb'' & Hp'')]. wp_step.
    rewrite Hb2, Hbb in Hgood''. pose proof (rewritten_pin _ _ _ _ _ _ Hrw Hf'' Hb'' Hp'') as Hrw'.
    assert (resident (Some t'') key = Some 1) as Hr
      by (cbn; rewrite (rw_blocks _ _ _ _ _ Hrw'); by rewrite bool_decide_eq_true_2).
    apply (Hfin s3 (mark_written (op_latency op) now delay o)); rewrite ?Ht'', ?Hr; try done.
    + by eapply same_dram_trans.
    + right. exists t, t'', (evicted_keys op). do 4 (split; [done|]). intros k Hk'.
      rewrite Ho3, lookup_alter_ne, Hobj2, !dropped_lookup, Hne by done. done.
    + rewrite Ho3, lookup_alter_eq, Hobj2, dropped_lookup, Hkey. cbn.
      by rewrite bool_decide_eq_false_2 by apply Hrw.
    + by intros n [= <-].
    + rewrite Hs3. rewrite Ht' in Hmet2. by eapply metrics_frame.
Qed.

(** A fresh object for which the DRAM tier has no room goes to the offload tier. *)
Lemma spill_spec key now delay timing s t o :
  store_ok s → objects s !! key = None → offload s = Some t →
  obj_key o = key → obj_blocks o = 1 → obj_bytes o = block_bytes s → obj_tier o = tier_name t →
  in_use_until o ≠ S754_nan →
  wp (op ← on_offload (write key 1 now);
      if bool_decide (key ∈ evicted_keys op) then
        count (λ st, st <| admission_rejection_count ::= Z.succ |>) ;;
        mret timing
      else
        written ← write_timing key (op_latency op) now delay;
        record_offload_write op ;;
        modify (λ s, s <| objects ::= <[key := mark_written (op_latency op) now delay o]> |>) ;;
        count (λ st, st <| admission_count ::= Z.succ |>) ;;
        mret (timing_add timing written))
    (λ _ s', stepped now s s') no_raise s.
Proof.
  intros Hok Hnone Ht Hk Hb1 Hby Htier Hnan. pose proof (store_tier s t Hok Ht) as Hgood.
  pose proof (so_metrics _ Hok) as Hmet. pose proof (tg_name _ _ Hgood) as Hname. rewrite Ht in Hmet.
  pose proof (store_local s key Hok) as Hloc. rewrite Hnone in Hloc. destruct Hloc as [Hnin _].
  pose proof (so_core _ Hok) as [_ Hnd Hu Hf _ _].
  wp_step. eapply wp_mono; [by apply (offload_write_spec s t)| |done].
  intros op s1 (t1 & -> & Hgood1 & Hout). destruct Hout as [[Hgone ->]|Hrw].
  { rewrite Hgone, bool_decide_eq_true_2 by set_solver. unfold count. do 3 wp_step.
    apply (stepped_same now s); [done|..]; cbn; try done. by rewrite Ht. }
  rewrite bool_decide_eq_false_2 by apply Hrw. wp_step.
  match goal with |- wp _ _ _ ?x => set (s1 := x) end.
  eapply wp_mono; [by apply (write_timing_spec s1 t1)| |done].
  intros w s2 (t2 & -> & Hgood2 & Hf2 & Hb2 & Hp2). pose proof (rewritten_pin _ _ _ _ _ _ Hrw Hf2 Hb2 Hp2) as Hrw2.
  wp_step. unfold wp at 1. match goal with |- context [record_offload_write op ?x] => set (s2 := x) end.
  pose proof (rw_frame _ _ _ _ _ Hrw2) as Hframe.
  destruct (record_offload_write_spec op s2 t2 eq_refl (metrics_frame _ _ _ _ Hframe Hmet)) as (st & -> & Hm).
  unfold count. do 5 wp_step. cbn [update_field].
  assert (resident (Some t2) key = Some 1) as Hr
    by (cbn; rewrite (rw_blocks _ _ _ _ _ Hrw2); by rewrite bool_decide_eq_true_2).
  apply (key_step now key); try done.
  - right. exists t, t2, (evicted_keys op). do 4 (split; [done|]). intros k Hk'. cbn.
    rewrite lookup_insert_ne, !dropped_lookup by done. by destruct Hframe as (_ & _ & -> & _).
  - cbn [objects offload memory_lru s2 s1]. rewrite lookup_insert_eq.
    apply local_some; cbn -[resident memory]; rewrite ?Hr, ?Htier; try done; [|by intros n [= <-]].
    right. split; [|done]. exists t2. split; [done|]. destruct Hframe as (_ & _ & -> & _). done.
  - intros d _ (o' & Ho' & _). congruence.
Qed.

Lemma used_nonneg s : store_ok s → 0 <= memory_used_bytes s.
Proof. intros [[_ _ -> _ Hb _] _ _]. nia. Qed.

Lemma lru_set_fresh s key : store_ok s → objects s !! key = None → lru_set key (memory_lru s) = memory_lru s ++ [key].
Proof.
  intros Hok Hnone. pose proof (store_local s key Hok) as Hloc. rewrite Hnone in Hloc. destruct Hloc as [Hnin _].
  unfold lru_set. by rewrite bool_decide_eq_false_2.
Qed.

Lemma put_one_spec key now delay s :
  store_ok s → wp (put_one key now delay) (λ _ s', stepped now s s') no_raise s.
Proof.
  intros Hok. unfold put_one. do 2 wp_step. change (id s) with s. set (k := to_string key).
  destruct (objects s !! k) as [o|] eqn:Ho.
  { wp_step. eapply wp_mono; [by apply (touch_stepped now)| |done]. intros u s' Hst. by wp_step. }
  cbv zeta. set (obj := new_object s k (fadd now delay)). wp_step.
  eapply wp_mono; [apply (ensure_memory_capacity_spec (obj_bytes obj) now s)| |done]; [done| |by apply used_nonneg|].
  { pose proof (so_core _ Hok) as [_ _ _ _ Hb _]. cbn. lia. }
  intros [room timing] s1 (Hst1 & Hnone1 & Hroom). do 2 wp_step. change (id s1) with s1.
  pose proof Hst1 as [Hok1 Hcfg1 Hbb1 Hcap1 _]. specialize (Hnone1 k Ho). pose proof Hok1 as [_ Hen1 Hmet1].
  assert (∀ s', stepped now s1 s' → stepped now s s') as Htr by (intros s'; by apply stepped_trans).
  assert (obj_bytes obj = block_bytes s1) as Hob by (cbn; congruence).
  destruct room.
  - unfold update_object, count. do 10 wp_step. cbv beta.
    match goal with |- wp _ _ _ ?x => set (s2 := x) end.
    set (obj2 := obj <| ready_at ::= λ r, fadd r (accounting_latency timing) |>).
    assert (objects s2 = <[k := obj2]> (objects s1)) as Hobj2.
    { apply map_eq. intros x. cbn. destruct (decide (x = k)) as [->|].
      - by rewrite lookup_alter_eq, !lookup_insert_eq.
      - by rewrite lookup_alter_ne, !lookup_insert_ne. }
    assert (memory_lru s2 = memory_lru s1 ++ [k]) as Hlru2 by (cbn; by apply lru_set_fresh).
    assert (memory_used_bytes s2 = memory_used_bytes s1 + block_bytes s1) as Hu2
      by (change (memory_used_bytes s2) with (obj_bytes obj + memory_used_bytes s1); lia).
    assert (memory_used_bytes s2 <= memory_capacity_bytes s1) as Hf2 by (rewrite Hu2, <- Hob; by apply Hroom).
    rewrite Hen1, andb_diag. destruct (offload s1) as [t|] eqn:Ht.
    + rewrite bool_decide_eq_true_2 by done. eapply wp_mono; [|by intros u s'; apply Htr|done].
      eapply (admit_through_spec k now _ timing s1 s2 t obj2); done.
    + rewrite bool_decide_eq_false_2 by (by intros [? ?]). wp_step. apply Htr.
      apply (admit_step now k s1 s2 obj2); try done; rewrite ?Hobj2, ?lookup_insert_eq; try done.
      * cbn. rewrite ?Ht. by intros [? ?].
      * cbn. by rewrite ?Ht.
      * left. split; [done|]. intros x Hx. by rewrite Hobj2, lookup_insert_ne.
      * cbn. rewrite ?Ht. done.
  - assert (∀ s', s' = s1 <| stats ::= λ st, st <| admission_rejection_count ::= Z.succ |> |> → stepped now s s') as Hrej.
    { intros s' ->. apply Htr. by apply (stepped_same now s1). }
    destruct (offload s1) as [t|] eqn:Ht.
    2: { unfold count. do 3 wp_step. by apply Hrej. }
    rewrite Hen1, bool_decide_eq_true_2 by done. cbv iota. eapply wp_mono; [|by intros u s'; apply Htr|done].
    eapply (spill_spec k now _ timing s1 t); done.
Qed.
