(* ===== verification/StoreBatch.v ===== *)
(** * The bulk write path of the Mooncake store

    [put_with_timing] installs a large DRAM-only batch in one pass.  Both paths
    are described by [installed]: fresh keys get a new object, the LRU order ends
    with the written keys, and the byte and admission counts grow by the fresh
    keys.  [erase] forgets the fields on which the two paths may differ. *)

From stdpp Require Import gmap list strings sorting.
From Stdlib Require Import ZArith Lia SpecFloat.
From S2P Require Import Prelude.
From S2P Require Import Buckets.
From S2P Require Import PyFloat.
From S2P Require Import PrefixKeys.
From S2P Require Import OffloadTier.
From S2P Require Import OffloadSpec.
From S2P Require Import MooncakeStore.
From S2P Require Import StoreSpec.

Open Scope Z_scope.
Open Scope tokensim_scope.

(** ** LRU orders after a list of writes *)

Definition lru_write (lru keys : list pystr) : list pystr := foldl (λ l k, lru_move_to_end k l) lru keys.

Lemma move_set key lru : lru_move_to_end key (lru_set key lru) = lru_move_to_end key lru.
Proof.
  unfold lru_set. case_bool_decide; [done|]. unfold lru_move_to_end, lru_remove. rewrite filter_app, filter_cons.
  destruct (decide (key ≠ key)); [done|]. by rewrite filter_nil, app_nil_r.
Qed.

Lemma move_fresh key lru : key ∉ lru → lru_move_to_end key lru = lru ++ [key].
Proof. intros Hk. unfold lru_move_to_end. by rewrite lru_remove_absent. Qed.

(** ** The common description *)

Definition fresh_keys (objs : gmap pystr StoreObject) (keys : list pystr) : list pystr :=
  filter (λ k, objs !! k = None) keys.

Section Installed.
Context (erase : StoreObject → StoreObject).

Record installed (ready : pyfloat) (keys : list pystr) (s s' : MooncakeStore) : Prop := {
  in_config : config s' = config s;
  in_bytes : block_bytes s' = block_bytes s;
  in_capacity : memory_capacity_bytes s' = memory_capacity_bytes s;
  in_offload : offload s' = offload s;
  in_used : memory_used_bytes s' = memory_used_bytes s + Z.of_nat (length (fresh_keys (objects s) keys)) * block_bytes s;
  in_lru : memory_lru s' = lru_write (memory_lru s) keys;
  in_stats : stats s' = stats s <| admission_count ::= Z.add (Z.of_nat (length (fresh_keys (objects s) keys))) |>;
  in_objects k : erase <$> objects s' !! k =
    match objects s !! k with
    | Some o => Some (erase o)
    | None => if bool_decide (k ∈ keys) then Some (erase (new_object s k ready)) else None
    end;
}.

Lemma installed_nil ready s : installed ready [] s s.
Proof.
  split; try done; [cbn; lia|by destruct s as [? ? ? ? ? ? [] ? ?]].
Qed.

Lemma new_object_same s s' k ready :
  config s' = config s → block_bytes s' = block_bytes s → new_object s' k ready = new_object s k ready.
Proof. intros Hc Hb. unfold new_object. by rewrite Hc, Hb. Qed.

Lemma installed_none ready keys s s' k :
  installed ready keys s s' → k ∉ keys → objects s' !! k = None ↔ objects s !! k = None.
Proof.
  intros Hin Hk. pose proof (in_objects _ _ _ _ Hin k) as Ho. rewrite bool_decide_eq_false_2 in Ho by done.
  destruct (objects s !! k), (objects s' !! k); cbn in Ho; naive_solver.
Qed.

Lemma fresh_keys_ext (m m' : gmap pystr StoreObject) keys :
  (∀ k, k ∈ keys → m !! k = None ↔ m' !! k = None) → fresh_keys m keys = fresh_keys m' keys.
Proof.
  unfold fresh_keys. induction keys as [|k keys IH]; intros Hext; [done|].
  rewrite !filter_cons. rewrite IH by (intros; apply Hext; by right).
  pose proof (Hext k (list_elem_of_here _ _)).
  destruct (decide (m !! k = None)), (decide (m' !! k = None)); tauto.
Qed.

Lemma installed_cons ready key keys s s1 s2 :
  key ∉ keys → installed ready [key] s s1 → installed ready keys s1 s2 → installed ready (key :: keys) s s2.
Proof.
  intros Hnin H1 H2.
  assert (fresh_keys (objects s1) keys = fresh_keys (objects s) keys) as Hfr.
  { apply fresh_keys_ext. intros k Hk. apply (installed_none _ _ _ _ _ H1). set_solver. }
  assert (length (fresh_keys (objects s) (key :: keys)) =
    (length (fresh_keys (objects s) [key]) + length (fresh_keys (objects s) keys))%nat) as Hlen.
  { change (key :: keys) with ([key] ++ keys). unfold fresh_keys at 1. by rewrite filter_app, length_app. }
  destruct H1 as [Hc1 Hb1 Hp1 Ho1 Hu1 Hl1 Hs1 Hobj1], H2 as [Hc2 Hb2 Hp2 Ho2 Hu2 Hl2 Hs2 Hobj2].
  split; try congruence.
  - rewrite Hu2, Hu1, Hfr, Hlen, Hb1. lia.
  - by rewrite Hl2, Hl1.
  - rewrite Hs2, Hs1, Hfr, Hlen. destruct (stats s). cbn. f_equal. lia.
  - intros k. rewrite Hobj2. specialize (Hobj1 k). rewrite (new_object_same _ _ _ _ Hc1 Hb1).
    destruct (objects s !! k) as [o|]; [destruct (objects s1 !! k); cbn in Hobj1; congruence|].
    destruct (decide (k = key)) as [->|Hne].
    + rewrite bool_decide_eq_true_2 in Hobj1 by set_solver.
      rewrite (bool_decide_eq_true_2 (key ∈ key :: keys)) by set_solver.
      destruct (objects s1 !! key); cbn in Hobj1; congruence.
    + rewrite bool_decide_eq_false_2 in Hobj1 by set_solver. destruct (objects s1 !! k); [done|].
      rewrite (bool_decide_ext (k ∈ key :: keys) (k ∈ keys)) by (rewrite elem_of_cons; tauto). done.
Qed.

(** Touching a known key installs nothing. *)
Context (erase_access : ∀ o c, erase (o <| last_access := c |>) = erase o).

Lemma touched_installed ready key s s' :
  objects s !! key ≠ None → key ∈ memory_lru s → touched key s s' → installed ready [key] s s'.
Proof.
  intros Hsome Hin (c & Hobjs & Hlru & Hcfg & Hbb & Hcap & Hused & Hoff & Hst).
  assert (fresh_keys (objects s) [key] = []) as Hfr.
  { unfold fresh_keys. rewrite filter_cons, filter_nil. by destruct (decide _). }
  split; rewrite ?Hfr; try done.
  - cbn. lia.
  - rewrite Hlru. by rewrite bool_decide_eq_true_2.
  - rewrite Hst. by destruct (stats s).
  - intros k. rewrite Hobjs. destruct (decide (k = key)) as [->|].
    + rewrite lookup_alter_eq. destruct (objects s !! key); [|done]. cbn. f_equal. apply erase_access.
    + rewrite lookup_alter_ne by done. destruct (objects s !! k); [done|].
      by rewrite bool_decide_eq_false_2 by set_solver.
Qed.

Context (now delay : pyfloat).
Context (erase_ready : ∀ s k,
  erase (new_object s k (fadd now (fadd delay f0)) <| ready_at ::= λ r, fadd r f0 |>) =
  erase (new_object s k (fadd now delay))).

Lemma no_timing_add : timing_add no_timing no_timing = no_timing.
Proof. reflexivity. Qed.

(** One key of the per-key path in a DRAM-only store with room. *)
Lemma put_one_dram key s :
  store_ok s → offload s = None →
  (objects s !! to_string key = None → memory_used_bytes s + block_bytes s <= memory_capacity_bytes s) →
  wp (put_one key now (fadd delay f0))
    (λ timing s', timing = no_timing ∧ installed (fadd now delay) [to_string key] s s') no_raise s.
Proof.
  intros Hok Hoff Hroom. unfold put_one. do 2 wp_step. change (id s) with s. set (k := to_string key) in *.
  destruct (objects s !! k) as [o|] eqn:Ho.
  { wp_step. eapply wp_mono; [by apply touch_touched| |done]. intros u s' Ht. wp_step. split; [done|].
    destruct (store_object s k o Hok Ho) as (_ & _ & _ & Hlru & [Hm|(t & Ht' & _)]); [|congruence].
    apply touched_installed; [congruence|by apply Hlru|done]. }
  specialize (Hroom eq_refl). pose proof (so_core _ Hok) as [_ _ _ _ Hb _]. pose proof (used_nonneg s Hok) as Hu.
  cbv zeta. set (obj := new_object s k (fadd now (fadd delay f0))). wp_step.
  unfold ensure_memory_capacity. do 2 wp_step. change (id s) with s.
  change (obj_bytes obj) with (block_bytes s). rewrite (proj2 (Z.ltb_ge _ _)) by lia.
  assert (∀ fuel, evict_loop fuel (block_bytes s) now no_timing s = (Ok (true, no_timing), s)) as Hev.
  { intros fuel. destruct fuel; cbn [evict_loop]; unfold gets, mbind, M_bind, id; by rewrite (proj2 (Z.leb_le _ _)). }
  unfold wp at 1. rewrite Hev. unfold update_object, count. do 12 wp_step. cbv beta.
  change (id s) with s. rewrite Hoff, bool_decide_eq_false_2, andb_false_r by (by intros [? ?]). wp_step.
  assert (fresh_keys (objects s) [k] = [k]) as Hfr.
  { unfold fresh_keys. rewrite filter_cons, filter_nil. by destruct (decide _). }
  split; [done|]. split; rewrite ?Hfr; try done.
  - cbn -[Z.mul]. lia.
  - change (lru_set k (memory_lru s) = lru_move_to_end k (memory_lru s)).
    rewrite (lru_set_fresh s k Hok Ho), move_fresh; [done|].
    pose proof (store_local s k Hok) as Hloc. rewrite Ho in Hloc. by destruct Hloc.
  - cbn -[Z.add]. f_equal. lia.
  - intros x. cbn [objects update_field]. destruct (decide (x = k)) as [->|].
    + rewrite lookup_alter_eq, lookup_insert_eq, Ho, bool_decide_eq_true_2 by set_solver.
      cbn [fmap option_fmap option_map]. f_equal. apply erase_ready.
    + rewrite lookup_alter_ne, lookup_insert_ne by done. destruct (objects s !! x); [done|].
      by rewrite bool_decide_eq_false_2 by set_solver.
Qed.

Lemma fresh_keys_cons objs k keys :
  length (fresh_keys objs (k :: keys)) =
  ((if bool_decide (objs !! k = None) then 1 else 0) + length (fresh_keys objs keys))%nat.
Proof.
  unfold fresh_keys. rewrite filter_cons. destruct (decide (objs !! k = None)).
  - by rewrite bool_decide_eq_true_2.
  - by rewrite bool_decide_eq_false_2.
Qed.

(** The per-key path. *)
Lemma put_loop_dram keys s :
  store_ok s → offload s = None → NoDup (to_string <$> keys) →
  memory_used_bytes s + Z.of_nat (length (fresh_keys (objects s) (to_string <$> keys))) * block_bytes s
    <= memory_capacity_bytes s →
  wp (put_loop keys now delay no_timing)
    (λ timing s', timing = no_timing ∧ installed (fadd now delay) (to_string <$> keys) s s' ∧ store_ok s') no_raise s.
Proof.
  revert s. induction keys as [|key keys IH]; intros s Hok Hoff Hnd Hroom; cbn [put_loop fmap list_fmap].
  { wp_step. split; [done|]. split; [apply installed_nil|done]. }
  cbn [fmap list_fmap] in Hnd, Hroom. apply NoDup_cons in Hnd as [Hnin Hnd].
  rewrite fresh_keys_cons in Hroom. pose proof (so_core _ Hok) as [_ _ _ _ Hb _].
  wp_step. eapply wp_mono; [apply wp_and; [apply (put_one_dram key s Hok Hoff)|apply (put_one_spec key now _ s Hok)]| |].
  { intros Hnone. rewrite bool_decide_eq_true_2 in Hroom by done. nia. }
  2: { intros e s' [[] _]. }
  intros timing s1 [[-> Hin1] Hst1]. change (accounting_latency no_timing) with f0. rewrite no_timing_add.
  pose proof Hin1 as [Hc1 Hb1 Hp1 Ho1 Hu1 _ _ _].
  assert (fresh_keys (objects s1) (to_string <$> keys) = fresh_keys (objects s) (to_string <$> keys)) as Hfr.
  { apply fresh_keys_ext. intros k Hk. apply (installed_none _ _ _ _ _ Hin1). by intros ->%list_elem_of_singleton. }
  eapply wp_mono; [apply IH; [apply Hst1|congruence|done|]| |done].
  - rewrite Hu1, Hfr, Hp1, Hb1, fresh_keys_cons. cbn [fresh_keys]. change (fresh_keys (objects s) []) with (@nil pystr).
    cbn [length]. lia.
  - intros timing s2 (-> & Hin2 & Hok2). split; [done|]. split; [|done]. by eapply installed_cons.
Qed.

(** The bulk path. *)
Context (erase_key : ∀ o, obj_key (erase o) = obj_key o).
Context (erase_tier : ∀ o, obj_tier (erase o) = obj_tier o).

Lemma insert_all_spec fresh s :
  wp (for_ fresh (λ key_string,
        modify (λ s, s <| objects ::= <[key_string := new_object s key_string (fadd now delay)]> |>)))
    (λ _ s', ∃ objs, s' = s <| objects := objs |> ∧
       ∀ k, objs !! k = if bool_decide (k ∈ fresh) then Some (new_object s k (fadd now delay)) else objects s !! k)
    no_raise s.
Proof.
  pose (I := λ (done_ : list pystr) (s' : MooncakeStore), ∃ objs, s' = s <| objects := objs |> ∧
    ∀ k, objs !! k = if bool_decide (k ∈ done_) then Some (new_object s k (fadd now delay)) else objects s !! k).
  eapply wp_mono; [apply (wp_for I)|intros [] s' HI; exact HI|done].
  { exists (objects s). split; [by destruct s|]. intros k. by rewrite bool_decide_eq_false_2 by apply not_elem_of_nil. }
  intros done_ x todo s' _ (objs & -> & Hobjs). wp_step.
  exists (<[x := new_object s x (fadd now delay)]> objs). split; [done|]. intros k.
  destruct (decide (k = x)) as [->|].
  - rewrite lookup_insert_eq, bool_decide_eq_true_2; [done|]. set_solver.
  - rewrite lookup_insert_ne, Hobjs by done.
    by rewrite (bool_decide_ext (k ∈ done_ ++ [x]) (k ∈ done_)) by set_solver.
Qed.

Lemma put_batch_dram keys s :
  store_ok s → offload s = None → NoDup keys →
  wp (put_batch keys (fresh_keys (objects s) keys) now delay)
    (λ _ s', installed (fadd now delay) keys s s') no_raise s.
Proof.
  intros Hok Hoff Hnd. unfold put_batch. set (fresh := fresh_keys (objects s) keys). wp_step.
  eapply wp_mono; [apply insert_all_spec| |done]. intros [] s1 (objs & -> & Hobjs). do 3 wp_step.
  match goal with |- wp _ _ _ ?x => set (s1 := x) end.
  assert (∀ k, k ∈ keys → ∃ o, objs !! k = Some o) as Hall.
  { intros k Hk. rewrite Hobjs. case_bool_decide as Hf; [eauto|].
    destruct (objects s !! k) as [o|] eqn:Ho; [eauto|]. exfalso. apply Hf. by apply list_elem_of_filter. }
  assert (∀ k o, objs !! k = Some o → obj_key o = k ∧ obj_tier o = memory) as Hobj.
  { intros k o. rewrite Hobjs. case_bool_decide; [by intros [= <-]|]. intros Ho.
    destruct (store_object s k o Hok Ho) as (? & _ & _ & _ & [?|(t & ? & _)]); [done|congruence]. }
  pose (I := λ (done_ : list pystr) (s' : MooncakeStore), ∃ objs' c,
    (∀ k, erase <$> objs' !! k = erase <$> objs !! k) ∧
    s' = s1 <| objects := objs' |> <| memory_lru := lru_write (memory_lru s) done_ |> <| access_counter := c |>).
  eapply wp_mono; [apply (wp_for I)| |done].
  { exists objs, (access_counter s). split; [done|]. by destruct s. }
  - intros done_ key todo s' Hsplit (objs' & c & Heq & ->). do 4 wp_step. change (id ?x) with x. cbn [objects update_field].
    destruct (Hall key) as [o0 Ho0]; [rewrite Hsplit; set_solver|]. specialize (Heq key) as Hk. rewrite Ho0 in Hk.
    destruct (objs' !! key) as [o|] eqn:Ho; [|done]. cbn in Hk. injection Hk as Hk.
    destruct (Hobj key o0 Ho0) as [Hkey Htier].
    assert (obj_key o = key) as Hok' by (by rewrite <- erase_key, Hk, erase_key).
    assert (obj_tier o = memory) as Ht' by (by rewrite <- erase_tier, Hk, erase_tier).
    unfold touch, update_object. do 8 wp_step. cbn [memory_lru update_field].
    rewrite Hok', Ht', !bool_decide_eq_true_2 by (done || rewrite elem_of_lru_set; tauto). cbn [andb]. wp_step.
    eexists _, _. split; [|].
    2: { cbn. unfold lru_write. rewrite foldl_app. cbn. rewrite move_set. reflexivity. }
    intros k. destruct (decide (k = key)) as [->|].
    + rewrite lookup_alter_eq, Ho, Ho0. cbn [fmap option_fmap option_map]. rewrite <- Hk. f_equal. apply erase_access.
    + rewrite lookup_alter_ne by done. apply Heq.
  - intros [] s' (objs' & c & Heq & ->). unfold count. wp_step. split; try done.
    + cbn -[Z.mul]. unfold fresh. lia.
    + intros k. cbn [objects update_field s1]. rewrite Heq, Hobjs. unfold fresh.
      destruct (objects s !! k) as [o|] eqn:Ho.
      * rewrite bool_decide_eq_false_2; [done|]. intros [Hn _]%list_elem_of_filter. congruence.
      * rewrite (bool_decide_ext (k ∈ fresh_keys (objects s) keys) (k ∈ keys)); [by case_bool_decide|].
        unfold fresh_keys. rewrite list_elem_of_filter. tauto.
Qed.
End Installed.

(** ** The two paths agree *)

Definition forget_access (o : StoreObject) : StoreObject := o <| last_access := 0 |>.
Definition forget_times (o : StoreObject) : StoreObject := o <| last_access := 0 |> <| ready_at := f0 |>.

(** Equal but for the access counter and the access stamps, which nothing reads. *)
Definition same_store (s s' : MooncakeStore) : Prop :=
  config s' = config s ∧ block_bytes s' = block_bytes s ∧ memory_capacity_bytes s' = memory_capacity_bytes s ∧
  memory_used_bytes s' = memory_used_bytes s ∧ memory_lru s' = memory_lru s ∧ stats s' = stats s ∧
  offload s' = offload s ∧ ∀ k, forget_access <$> objects s' !! k = forget_access <$> objects s !! k.

#[global] Instance same_store_equivalence : Equivalence same_store.
Proof.
  split.
  - done.
  - intros s s' (? & ? & ? & ? & ? & ? & ? & ?). repeat split; congruence.
  - intros s1 s2 s3 (? & ? & ? & ? & ? & ? & ? & Ho1) (? & ? & ? & ? & ? & ? & ? & Ho2).
    repeat split; congruence.
Qed.

Lemma installed_agree ready keys s s1 s2 :
  installed forget_access ready keys s s1 → installed forget_access ready keys s s2 → same_store s1 s2.
Proof.
  intros [? ? ? ? ? ? ? Ho1] [? ? ? ? ? ? ? Ho2]. repeat split; try congruence. intros k. by rewrite Ho1, Ho2.
Qed.

(** The reference: the keys one by one, whatever the size of the batch. *)
Definition put_each (keys : list PoolKey) (blocks : option Z) (now initial_delay : pyfloat)
    (policy : option admission_policy) : M MooncakeStore StoreWriteTiming :=
  s ← gets id;
  if bool_decide (default (admission (config s)) policy = Never) || bool_decide (length keys = 0%nat) then
    count (λ st, st <| admission_rejection_count ::= Z.add (Z.of_nat (length keys)) |>) ;;
    mret no_timing
  else
    count (λ st, st <| put_count ::= Z.succ |>) ;;
    put_loop (slice_to (default (Z.of_nat (length keys)) blocks) keys) now initial_delay no_timing.

Lemma count_ok f s : storage_metrics (f (stats s)) = storage_metrics (stats s) → store_ok s →
  store_ok (s <| stats ::= f |>).
Proof. intros Hf [Hc He Hm]. split; try done. cbn. by eapply metrics_same. Qed.

Lemma dram_only s : store_ok s → enable_offload (config s) = false → offload s = None.
Proof.
  intros [_ He _] Hf. rewrite He in Hf. apply bool_decide_eq_false in Hf. by apply eq_None_not_Some.
Qed.

(** C34 (equivalence).  The bulk path of [put_with_timing] does what writing the keys
    one by one does: for distinct keys both return the same timing and leave
    the same objects, LRU order, byte count and statistics; only the access
    stamps, which nothing reads, may differ.  (A delay or a time of minus zero is
    excluded, because the per-key path adds [0.0] to it.) *)
Theorem bulk_put_equiv keys blocks now delay policy s :
  store_ok s → NoDup (to_string <$> keys) → delay ≠ S754_zero true → fadd now delay ≠ S754_zero true →
  ∃ res s1 s2, put_with_timing keys blocks now delay policy s = (res, s1) ∧
    put_each keys blocks now delay policy s = (res, s2) ∧ same_store s1 s2.
Proof.
  intros Hok Hnd Hd Ht. unfold put_with_timing, put_each, gets, mbind, M_bind. change (id s) with s.
  destruct (_ || _). { eexists _, _, _. split; [done|]. split; [done|]. reflexivity. }
  cbn [count modify]. unfold count, modify. set (s0 := s <| stats ::= _ |>).
  set (keys' := slice_to (default (Z.of_nat (length keys)) blocks) keys).
  assert (NoDup (to_string <$> keys')) as Hnd'.
  { unfold keys', slice_to. rewrite fmap_take. eapply sublist_NoDup; [exact Hnd|]. apply sublist_take. }
  cbv zeta. rewrite from_keys_nodup by done. match goal with |- context [if ?c then _ else _] => destruct c eqn:Hc end.
  2: { destruct (put_loop keys' now delay no_timing s0) as [res s2].
       exists res, s2, s2. split; [done|]. split; [done|]. reflexivity. }
  rewrite !andb_true_iff, negb_true_iff, Z.leb_le in Hc. destruct Hc as [[[Hen _] _] Hroom].
  assert (store_ok s0) as Hok0 by (by apply count_ok).
  assert (offload s0 = None) as Hoff by (apply dram_only; done).
  assert (∀ s k, forget_access (new_object s k (fadd now (fadd delay f0)) <| ready_at ::= λ r, fadd r f0 |>) =
    forget_access (new_object s k (fadd now delay))) as Hready.
  { intros s' k. cbn. by rewrite (fadd_f0_r delay Hd), (fadd_f0_r _ Ht). }
  destruct (wp_ok_inv _ _ _ (put_batch_dram forget_access (λ _ _, eq_refl) now delay Hready (λ _, eq_refl) (λ _, eq_refl)
    (to_string <$> keys') s0 Hok0 Hoff Hnd')) as (u & s1 & Hb & Hin1).
  destruct (wp_ok_inv _ _ _ (put_loop_dram forget_access (λ _ _, eq_refl) now delay Hready keys' s0 Hok0 Hoff Hnd' Hroom))
    as (timing & s2 & Hl & -> & Hin2 & _).
  exists (Ok no_timing), s1, s2. split; [|split; [exact Hl|by eapply installed_agree]].
  change (filter (λ k, objects s !! k = None) (to_string <$> keys')) with (fresh_keys (objects s0) (to_string <$> keys')).
  by rewrite Hb.
Qed.
