(* ===== verification/PoolKeys.v ===== *)
(** * Store keys do not collide

    The string of a [PoolKey] is a JSON array of its fields; the theorems show that
    it determines them, so two engines share an object of the store only when
    tenant, prefix, model, namespace, ranks, group and chunk hash all agree. *)

From stdpp Require Import gmap list strings sorting pretty.
From Stdlib Require Import ZArith Lia.
From Stdlib Require Ascii String.
From S2P Require Import Prelude.
From S2P Require Import PyFloat.
From S2P Require Import PrefixKeys.
From S2P Require Import MooncakeStore.

Open Scope Z_scope.

(** ** Decimal integers *)

(** Digits and the minus sign: no comma. *)
Definition number_char (c : N) : bool := (c =? 45)%N || ((48 <=? c) && (c <=? 57))%N.

Lemma lit_app s s' : lit (s +:+ s') = lit s ++ lit s'.
Proof.
  unfold lit. induction s as [|c s IH]; [done|]. change (String c s +:+ s') with (String c (s +:+ s')).
  cbn in *. f_equal. exact IH.
Qed.

Lemma lit_inj s s' : lit s = lit s' → s = s'.
Proof.
  unfold lit. revert s'. induction s as [|c s IH]; intros [|c' s'] Heq; cbn in Heq; try done.
  injection Heq as Hc Hs. rewrite (IH s' Hs). f_equal.
  by rewrite <- (Ascii.ascii_N_embedding c), <- (Ascii.ascii_N_embedding c'), Hc.
Qed.

Lemma pretty_N_go_chars x s :
  Forall (λ c, number_char c = true) (lit s) → Forall (λ c, number_char c = true) (lit (pretty_N_go x s)).
Proof.
  revert s. induction (N.lt_wf_0 x) as [x _ IH]; intros s Hs.
  assert (x = 0 ∨ 0 < x)%N as [-> | Hx] by lia; [by rewrite pretty_N_go_0|].
  rewrite pretty_N_go_step by done. apply IH; [by apply N.div_lt|].
  unfold lit in *. cbn. constructor; [|done]. unfold pretty_N_char. by repeat case_match.
Qed.

Lemma pretty_N_chars (n : N) : Forall (λ c, number_char c = true) (lit (pretty n)).
Proof.
  unfold pretty, pretty_N. case_decide; [by repeat constructor|]. apply pretty_N_go_chars. constructor.
Qed.

Lemma dump_int_chars n : Forall (λ c, number_char c = true) (dump_int n).
Proof.
  unfold dump_int, pretty, pretty_Z. destruct n as [|p|p]; [by repeat constructor|apply pretty_N_chars|].
  rewrite lit_app. apply Forall_app. split; [by repeat constructor|apply pretty_N_chars].
Qed.

Lemma dump_int_inj n n' : dump_int n = dump_int n' → n = n'.
Proof. intros Heq%lit_inj. by apply (inj pretty). Qed.

(** An integer is read up to the next comma. *)
Lemma number_prefix l l' r r' :
  Forall (λ c, number_char c = true) l → Forall (λ c, number_char c = true) l' →
  l ++ lit "," ++ r = l' ++ lit "," ++ r' → l = l' ∧ r = r'.
Proof.
  intros Hl. revert l'. induction Hl as [|c l Hc Hl IH]; intros l' Hl' Heq.
  - destruct Hl' as [|c' l' Hc' Hl']; [by injection Heq|]. injection Heq as <- _. discriminate.
  - destruct Hl' as [|c' l' Hc' Hl']; injection Heq as Hcc Heq; [subst; discriminate|].
    destruct (IH l' Hl' Heq) as [-> ->]. by subst.
Qed.

Lemma dump_int_prefix n n' r r' :
  dump_int n ++ lit "," ++ r = dump_int n' ++ lit "," ++ r' → n = n' ∧ r = r'.
Proof.
  intros Heq. apply number_prefix in Heq as [Hn ->]; [|apply dump_int_chars..]. split; [|done]. by apply dump_int_inj.
Qed.

(** ** Keys *)

Record valid_pool_key (key : PoolKey) : Prop := {
  vp_tenant : valid_str (md_tenant_id (key_metadata key));
  vp_prefix : valid_str (md_cache_prefix (key_metadata key));
  vp_model : valid_str (md_model_name (key_metadata key));
  vp_namespace : valid_str (md_store_namespace (key_metadata key));
  vp_hash : valid_str (chunk_hash key);
}.

Lemma to_string_inj key key' :
  valid_pool_key key → valid_pool_key key' → to_string key = to_string key' → key = key'.
Proof.
  destruct key as [[m tp pp ns cp tn g pc dc] h], key' as [[m' tp' pp' ns' cp' tn' g' pc' dc'] h'].
  intros [Ht Hp Hm Hn Hh] [Ht' Hp' Hm' Hn' Hh']. unfold to_string. cbn in * |-.
  cbn [key_metadata chunk_hash md_tenant_id md_cache_prefix md_model_name md_store_namespace md_tp_rank
    md_pcp_rank md_dcp_rank md_pp_rank md_group_id].
  intros Heq. apply app_inv_head in Heq.
  do 4 (apply quote_prefix in Heq as [-> Heq]; [|done..]; apply app_inv_head in Heq).
  do 5 apply dump_int_prefix in Heq as [-> Heq].
  by apply quote_prefix in Heq as [-> _].
Qed.

(** C36 (safety).  Store keys never collide: two pool keys with the same string have
    the same tenant, cache prefix, model, namespace, ranks, group and chunk hash. *)
Theorem pool_keys_distinct key key' :
  valid_pool_key key → valid_pool_key key' → to_string key = to_string key' ↔ key = key'.
Proof. intros Hk Hk'. split; [by apply to_string_inj|by intros ->]. Qed.

Definition demo_metadata (rank : Z) : KeyMetadata := mkMetadata (lit "m") rank 0 [] [] (lit "default") 0 0 0.
Definition demo_key (rank : Z) (chunk : string) : PoolKey := mkPoolKey (demo_metadata rank) (lit chunk).

Lemma pool_keys_distinct_witness : to_string (demo_key 1 "a") ≠ to_string (demo_key 11 "a").
Proof.
  intros Heq. apply pool_keys_distinct in Heq; [discriminate|split; by apply str_valid_dec..].
Defined.
