(* ===== verification/StoreTheorems.v ===== *)
(** * The Mooncake store over any history of operations

    Every operation keeps the invariant of [StoreSpec] ([stepped]); the theorems
    are about stores reached from an empty one by any sequence of lookups, reads,
    writes and capacity registrations. *)

From stdpp Require Import gmap list strings sorting.
From Stdlib Require Import ZArith Lia SpecFloat.
From S2P Require Import Prelude.
From S2P Require Import Buckets.
From S2P Require Import PyFloat.
From S2P Require Import PrefixKeys.
From S2P Require Import OffloadTier.
From S2P Require Import OffloadSpec.
From S2P Require Import MooncakeStore.
From S2P Require Import StoreSpec.
From S2P Require Import StoreBatch.
From S2P Require Import PoolKeys.

Open Scope Z_scope.
Open Scope tokensim_scope.

(** ** Construction *)

(** A backend the store can use: room for a block, and a price for its I/O. *)
Definition usable_backend (cfg : MooncakeConfig) (bytes : Z) (b : StorageBackend) : Prop :=
  enable_offload cfg = true →
  Z.max 1 bytes <= capacity_bytes b ∧
  (∀ operation, ∃ seconds, IOCost (estimate_io b operation (Z.max 1 bytes)) = Ok seconds) ∧
  from_option fst (lit "ssd") (offload_spec cfg) ≠ memory.

Definition valid_capacity (cfg : MooncakeConfig) : Prop :=
  0 <= global_segment_size cfg ∧ from_option (λ n, 0 <= n) True (memory_capacity_blocks cfg).

Lemma new_tier_good spec b bytes :
  Z.max 1 bytes <= capacity_bytes b →
  (∀ operation, ∃ seconds, IOCost (estimate_io b operation (Z.max 1 bytes)) = Ok seconds) →
  from_option fst (lit "ssd") spec ≠ memory →
  tier_good (Z.max 1 bytes) (new_tier spec b (Z.max 1 bytes)) ∧ tier_blocks (new_tier spec b (Z.max 1 bytes)) = ∅.
Proof.
  intros Hcap Hprice Hname. pose proof (new_tier_ok spec b (Z.max 1 bytes)) as Hok.
  assert (Z.max 1 (Z.max 1 bytes) = Z.max 1 bytes) as Hmax by lia. rewrite Hmax in Hok. specialize (Hok Hcap).
  unfold new_tier in *. rewrite Hmax in *.
  destruct spec as [[name ref]|]; cbn in *; (split; [split; [exact Hok|exact Hname|reflexivity|exact Hprice]|reflexivity]).
Qed.

Lemma new_store_ok cfg bytes b :
  valid_capacity cfg → usable_backend cfg bytes b → store_ok (new_store cfg bytes b).
Proof.
  intros [Hseg Hblk] Hback. unfold new_store, register_storage_stats, gets, mbind, M_bind. cbn [offload].
  set (bb := Z.max 1 bytes). set (cap := match memory_capacity_blocks cfg with Some n => n * bb | None => _ end).
  assert (0 <= cap) as Hcap.
  { unfold cap, bb in *. destruct (memory_capacity_blocks cfg); cbn in *; [nia|done]. }
  assert (∀ off st, enable_offload cfg = bool_decide (is_Some off) →
    (∀ t, off = Some t → tier_good bb t ∧ tier_blocks t = ∅) → metrics_ok (master_server_address cfg) off st →
    store_ok (mkStore cfg bb cap 0 ∅ [] st off 0)) as Hok.
  { intros off st Hen Hoff Hm. split; [|done|done]. split; cbn; try done; [|constructor|unfold bb; lia|by apply Hoff].
    intros k. rewrite lookup_empty. split; [apply not_elem_of_nil|]. destruct off as [t|]; [|done].
    cbn. destruct (Hoff t eq_refl) as [_ ->]. apply lookup_empty. }
  destruct (enable_offload cfg) eqn:Hen; cbn -[backend_stats new_tier].
  2: { by apply Hok. }
  destruct (Hback Hen) as (Hc & Hp & Hn). destruct (new_tier_good (offload_spec cfg) b bytes Hc Hp Hn) as [Hgood Hempty].
  fold bb in Hgood, Hempty. set (t := new_tier (offload_spec cfg) b bb) in *. unfold count, modify.
  match goal with |- context [backend_stats id ?x] => set (s1 := x) end.
  destruct (backend_stats_spec id s1 t (λ _, conj eq_refl eq_refl) eq_refl) as (st & -> & Hm).
  { intros t0 r [= <-]. cbn. by destruct (bool_decide _). }
  apply Hok; [done| |done]. by intros t0 [= <-].
Qed.

(** ** Writes *)

Lemma put_loop_spec keys now delay timing s :
  store_ok s → wp (put_loop keys now delay timing) (λ _ s', stepped now s s') no_raise s.
Proof.
  revert timing s. induction keys as [|key keys IH]; intros timing s Hok; cbn [put_loop].
  { wp_step. by apply stepped_refl. }
  wp_step. eapply wp_mono; [by apply put_one_spec| |done]. intros w s1 Hst1.
  eapply wp_mono; [apply IH, Hst1| |done]. intros u s2 Hst2. exact (stepped_trans _ _ _ _ Hst1 Hst2).
Qed.

(** The invariant does not read the forgotten fields. *)
Lemma local_forget bb off inl k x : local_ok bb off inl k (forget_times <$> x) ↔ local_ok bb off inl k x.
Proof. by destruct x. Qed.

Lemma installed_stepped now ready keys s s1 s2 :
  store_ok s → offload s = None →
  installed forget_times ready keys s s1 → installed forget_times ready keys s s2 →
  stepped now s s2 → stepped now s s1.
Proof.
  intros Hok Hoff H1 H2 Hst.
  destruct H1 as [Hc1 Hb1 Hp1 Ho1 Hu1 Hl1 Hs1 Hobj1], H2 as [Hc2 Hb2 Hp2 Ho2 Hu2 Hl2 Hs2 Hobj2].
  destruct (st_ok _ _ _ Hst) as [Hcore Hen Hmet].
  assert (offload s1 = offload s2) as Hoff12 by congruence.
  split; try done; [split|].
  - rewrite Hb1, Hp1, Hoff12, <- Hb2, <- Hp2. destruct Hcore as [Hloc Hnd Hu Hf Hb Ht]. split; try congruence; try done.
    intros k. rewrite <- local_forget, Hobj1, <- Hobj2, local_forget. rewrite Hl1, <- Hl2. apply Hloc.
  - by rewrite Hc1, Hoff12, <- Hc2.
  - by rewrite Hc1, Hoff12, Hs1, <- Hs2, <- Hc2.
  - intros k d Hd (o & Ho & Huse & Hpin). specialize (Hobj1 k). rewrite Ho in Hobj1.
    destruct (objects s1 !! k) as [o1|] eqn:E1; [|done]. cbn in Hobj1. injection Hobj1 as _ _ _ _ _ _ _ Hiu.
    exists o1. split; [done|]. rewrite Hiu. split; [done|]. intros t. rewrite Ho1, Hoff. done.
Qed.

(** The keys of a batch without repetitions. *)
Lemma batch_keys keys :
  ∃ keys', to_string <$> keys' = from_keys (to_string <$> keys) ∧ NoDup (to_string <$> keys').
Proof.
  pose proof (NoDup_from_keys (to_string <$> keys)) as Hnd. pose proof (elem_of_from_keys (to_string <$> keys)) as Hin.
  assert (∀ l : list pystr, (∀ k, k ∈ l → k ∈ to_string <$> keys) → ∃ keys' : list PoolKey, to_string <$> keys' = l) as Hpre.
  { induction l as [|k l IH]; intros Hl; [by exists []|].
    destruct IH as [keys' <-]; [set_solver|].
    destruct (proj1 (list_elem_of_fmap _ _ _) (Hl k (list_elem_of_here _ _))) as (key & -> & _).
    by exists (key :: keys'). }
  destruct (Hpre (from_keys (to_string <$> keys))) as [keys' Heq].
  { intros k Hk. by apply Hin. }
  exists keys'. by rewrite Heq.
Qed.

Lemma put_with_timing_spec keys blocks now delay policy s :
  store_ok s → wp (put_with_timing keys blocks now delay policy) (λ _ s', stepped now s s') no_raise s.
Proof.
  intros Hok. unfold put_with_timing. do 2 wp_step. change (id s) with s. destruct (_ || _).
  { unfold count. do 3 wp_step. apply (stepped_same now s); try done. apply Hok. }
  unfold count. do 2 wp_step. cbv beta zeta. match goal with |- wp _ _ _ ?x => set (s0 := x) end.
  assert (stepped now s s0) as Hst0 by (apply (stepped_same now s); try done; apply Hok).
  pose proof (st_ok _ _ _ Hst0) as Hok0. clear Hok.
  set (keys' := slice_to (default (Z.of_nat (length keys)) blocks) keys).
  destruct (_ && (_ <=? _)) eqn:Hc.
  2: { eapply wp_mono; [by apply put_loop_spec| |done]. intros w s' Hst. exact (stepped_trans _ _ _ _ Hst0 Hst). }
  rewrite !andb_true_iff, negb_true_iff, Z.leb_le in Hc. destruct Hc as [[[Hen _] _] Hroom].
  destruct (batch_keys keys') as (ks & Hks & Hnd). rewrite <- Hks in *.
  assert (offload s0 = None) as Hoff by (by apply dram_only).
  assert (∀ s k, forget_times (new_object s k (fadd now (fadd delay f0)) <| ready_at ::= λ r, fadd r f0 |>) =
    forget_times (new_object s k (fadd now delay))) as Hready by done.
  wp_step. eapply wp_mono; [apply (put_batch_dram forget_times (λ _ _, eq_refl) now delay Hready
    (λ _, eq_refl) (λ _, eq_refl) (to_string <$> ks) s0 Hok0 Hoff Hnd)| |done].
  intros u s1 Hin1. wp_step.
  destruct (wp_ok_inv _ _ _ (put_loop_dram forget_times (λ _ _, eq_refl) now delay Hready ks s0
    Hok0 Hoff Hnd Hroom)) as (w & s2 & Hrun & _ & Hin2 & _).
  pose proof (put_loop_spec ks now delay no_timing s0 Hok0) as Hst2. unfold wp in Hst2. rewrite Hrun in Hst2.
  eapply stepped_trans; [exact Hst0|]. exact (installed_stepped now _ _ s0 s1 s2 Hok0 Hoff Hin1 Hin2 Hst2).
Qed.

(** ** Reads *)

Lemma stepped_any now s s' : stepped S754_nan s s' → stepped now s s'.
Proof.
  intros [? ? ? ? Hp]. split; try done. intros k d _. apply Hp. destruct (fleb d S754_nan) eqn:E; [|done].
  apply fleb_spec in E. tauto.
Qed.

(** A change of the offload tier that keeps its contents and its pins. *)
Lemma stepped_offload s t t' :
  store_ok s → offload s = Some t → tier_ok t' → tier_frame t t' → tier_blocks t' = tier_blocks t →
  (∀ k n, fleb (default f0 (protected_until t' !! k)) n = true → fleb (default f0 (protected_until t !! k)) n = true) →
  stepped S754_nan s (s <| offload := Some t' |>).
Proof.
  intros Hok Ht Htok Hframe Hb Hp. pose proof Hok as [Hcore Hen Hmet]. pose proof (store_tier s t Hok Ht) as Hgood.
  assert (tier_good (block_bytes s) t') as Hgood' by (by eapply tier_good_frame).
  pose proof Hframe as (_ & _ & Hname & _).
  split; try done; [split; cbn|].
  - destruct Hcore as [Hloc Hnd Hu Hf Hbb Htier]. split; try done; [|by intros ? [= <-]].
    assert (∀ k, resident (Some t') k = resident (Some t) k) as Hres by (intros k; cbn; by rewrite Hb).
    intros k. specialize (Hloc k). rewrite Ht in Hloc. destruct (objects s !! k) as [o|].
    + destruct Hloc as (? & ? & ? & ? & Htr & Hper & ? & ?). apply local_some; rewrite ?Hres; try done.
      * destruct Htr as [?|[(t0 & [= <-] & ?) ?]]; [by left|right]. split; [|done]. exists t'. by rewrite Hname.
      * intros _. by apply Hper.
    + destruct Hloc. split; [done|]. by rewrite Hres.
  - rewrite Hen, Ht. by rewrite !bool_decide_eq_true_2.
  - rewrite Ht in Hmet. by eapply metrics_frame.
  - intros k d _ (o & Ho & Huse & Hpin). exists o. split; [done|]. split; [done|].
    intros t0 [= <-] Htr n Hn. rewrite Hname in Htr. by apply (Hpin t Ht Htr), Hp.
Qed.

Definition same_objects (s s' : MooncakeStore) : Prop :=
  ∀ k, forget_access <$> objects s' !! k = forget_access <$> objects s !! k.

(** The key names a resident object that is ready at [now]. *)
Definition ready_in (s : MooncakeStore) (now : pyfloat) (key : PoolKey) : Prop :=
  ∃ o, objects s !! to_string key = Some o ∧ fltb now (ready_at o) = false.

Lemma ready_same s s' now key : same_objects s s' → ready_in s' now key ↔ ready_in s now key.
Proof.
  intros Hsame. specialize (Hsame (to_string key)). unfold ready_in.
  destruct (objects s !! to_string key) as [o|], (objects s' !! to_string key) as [o'|]; cbn in Hsame; try done.
  - injection Hsame as _ _ _ _ _ _ _ Hr _. split; intros (x & [= <-] & Hx); eexists; (split; [done|]); congruence.
Qed.

(** Reading one object that is in the store. *)
Definition read_one (now : pyfloat) (key : PoolKey) (obj : StoreObject) (offloaded : bool) (seconds : pyfloat) :
    M MooncakeStore pyfloat :=
  touch (to_string key) obj ;;
  if offloaded then
    op ← on_offload (read (obj_key obj));
    record_offload_read op ;;
    mret (fadd seconds (op_latency op))
  else mret seconds.

Lemma record_offload_read_spec op s :
  store_ok s → is_Some (offload s) →
  wp (record_offload_read op) (λ _ s', stepped S754_nan s s' ∧ objects s' = objects s) no_raise s.
Proof.
  intros Hok [t Ht]. pose proof (so_metrics _ Hok) as Hmet. rewrite Ht in Hmet.
  destruct (backend_stats_spec (record_io Read (op_blocks op) (op_bytes op) (op_latency op)) s t
    (record_io_frame _ _ _ _) Ht Hmet) as (st & Hb & Hm).
  unfold record_offload_read. wp_step. unfold wp at 1. rewrite Hb. wp_step. unfold wp at 1, on_offload, gets.
  cbn. rewrite Ht. assert (∀ st', metrics_ok (master_server_address (config s)) (Some t) st' → ∀ s',
    s' = s <| stats := st' |> → stepped S754_nan s s' ∧ objects s' = objects s) as Hfin.
  { intros st' Hst' s' ->. split; [|done]. apply (stepped_same S754_nan s); try done. by rewrite Ht. }
  unfold when. destruct (legacy_ssd t); unfold count; wp_step.
  - eapply Hfin; [|by rewrite <- Ht]. by eapply metrics_same.
  - eapply Hfin; [exact Hm|]. by rewrite <- Ht.
Qed.

Lemma read_one_spec now key obj s seconds :
  store_ok s → objects s !! to_string key = Some obj →
  wp (read_one now key obj (is_offload_tier s (Some (obj_tier obj))) seconds)
    (λ _ s', stepped S754_nan s s' ∧ same_objects s s') no_raise s.
Proof.
  intros Hok Ho. unfold read_one. wp_step.
  eapply wp_mono; [by apply touch_touched| |done]. intros u s1 Ht1.
  pose proof (touched_stepped S754_nan _ _ _ Hok Ht1) as Hst1. destruct Ht1 as (c & Hobj1 & _ & _ & _ & _ & _ & Hoff1 & _).
  assert (same_objects s s1) as Hsame.
  { intros k. rewrite Hobj1. destruct (decide (k = to_string key)) as [->|].
    - rewrite lookup_alter_eq. by destruct (objects s !! to_string key).
    - by rewrite lookup_alter_ne. }
  unfold is_offload_tier. destruct (offload s) as [t|] eqn:Ht; [|by wp_step].
  case_bool_decide as Htier; [|by wp_step]. injection Htier as Htier. wp_step.
  pose proof (st_ok _ _ _ Hst1) as Hok1. pose proof (store_tier s1 t Hok1 Hoff1) as Hgood.
  destruct (store_object s _ obj Hok Ho) as (Hk & _). rewrite Hk.
  assert (∀ n, tier_blocks t !! to_string key = Some n → prices t Read (n * tier_block_bytes t)) as Hpr.
  { intros n Hn. pose proof (store_local s1 (to_string key) Hok1) as Hloc. rewrite Hoff1 in Hloc.
    assert (n = 1) as ->.
    { destruct (objects s1 !! to_string key); [by apply Hloc|]. destruct Hloc as [_ Hl]. change (tier_blocks t !! to_string key = None) in Hl. congruence. }
    rewrite Z.mul_1_l, (tg_bytes _ _ Hgood). apply Hgood. }
  destruct (wp_ok_inv _ _ _ (read_spec t (to_string key) (tg_ok _ _ Hgood) Hpr))
    as (op & t' & Hread & Htok & Hframe & Hb & Hp & _).
  unfold wp at 1, on_offload. rewrite Hoff1, Hread. wp_step.
  match goal with |- wp _ _ _ ?x => set (s2 := x) end.
  assert (stepped S754_nan s1 s2) as Hst2 by (apply (stepped_offload s1 t t'); try done; by rewrite Hp).
  eapply wp_mono; [apply (record_offload_read_spec op s2); [apply Hst2|done]| |done].
  intros v s3 [Hst3 Hobj3]. wp_step. split.
  - eapply stepped_trans; [exact Hst1|]. by eapply stepped_trans.
  - intros k. rewrite Hobj3. apply Hsame.
Qed.

Lemma get_loop_spec now keys seconds s :
  store_ok s →
  wp (get_loop now keys seconds)
    (λ _ s', stepped S754_nan s s' ∧ same_objects s s' ∧ Forall (ready_in s now) keys)
    (λ e s', e = SimulationStateError ∧ stepped S754_nan s s' ∧ Exists (λ key, ~ ready_in s now key) keys) s.
Proof.
  revert seconds s. induction keys as [|key keys IH]; intros seconds s Hok; cbn [get_loop].
  { wp_step. split; [by apply stepped_refl|]. split; [done|constructor]. }
  do 2 wp_step. change (id s) with s. destruct (objects s !! to_string key) as [obj|] eqn:Ho.
  2: { wp_step. split; [done|]. split; [by apply stepped_refl|]. apply Exists_cons_hd. intros (o & ? & _). congruence. }
  destruct (fltb now (ready_at obj)) eqn:Hready.
  { wp_step. split; [done|]. split; [by apply stepped_refl|]. apply Exists_cons_hd. intros (o & ? & ?). congruence. }
  pose proof (read_one_spec now key obj s seconds Hok Ho) as Hone. unfold read_one in Hone. apply wp_bind in Hone.
  wp_step. eapply wp_mono; [exact Hone| |done]. intros u s0 Htail. wp_step. cbv beta in Htail.
  eapply wp_mono; [exact Htail| |done]. clear u s0 Htail Hone.
  intros seconds' s1 [Hst1 Hsame1].
  assert (∀ k, ready_in s1 now k ↔ ready_in s now k) as Hr by (intros k; by apply ready_same).
  eapply wp_mono; [apply IH, Hst1| |].
  - intros x s2 (Hst2 & Hsame2 & Hall). split; [by eapply stepped_trans|]. split.
    + intros k. by rewrite Hsame2.
    + constructor; [by exists obj|]. eapply Forall_impl; [exact Hall|]. intros k. by apply Hr.
  - intros e s2 (-> & Hst2 & Hex). split; [done|]. split; [by eapply stepped_trans|]. apply Exists_cons_tl.
    eapply Exists_impl; [exact Hex|]. intros k Hk Hk'. by apply Hk, Hr.
Qed.

(** An object is protected until the end of the read that holds it. *)
Lemma hold_spec until key s :
  store_ok s → is_Some (objects s !! to_string key) →
  wp (hold until key) (λ _ s', stepped S754_nan s s' ∧
    (∀ k, is_Some (objects s !! k) → is_Some (objects s' !! k)) ∧
    (until ≠ S754_nan → prot s' (to_string key) until)) no_raise s.
Proof.
  intros Hok [o Ho]. set (k := to_string key) in *. unfold hold. fold k. clearbody k. unfold update_object. do 4 wp_step.
  change (id ?x) with x. cbn [objects update_field]. rewrite lookup_alter_eq, Ho. cbn [fmap option_fmap option_map].
  pose (o' := o <| in_use_until ::= λ x, fmax x until |>).
  match goal with |- wp (when (is_offload_tier _ (Some (obj_tier ?x))) _) _ _ _ => change x with o' end.
  match goal with |- wp _ _ _ ?x => set (s1 := x) end.
  destruct (store_object s k o Hok Ho) as (Hk & _ & _ & Hlru & Htiers).
  pose proof (store_local s k Hok) as Hloc. rewrite Ho in Hloc. destruct Hloc as (? & ? & ? & ? & Htr & ? & ? & Hnan).
  assert (objects s1 !! k = Some o') as Ho1 by (cbn; by rewrite lookup_alter_eq, Ho).
  assert (∀ x, x ≠ k → objects s1 !! x = objects s !! x) as Hne by (intros; cbn; by rewrite lookup_alter_ne).
  assert (stepped S754_nan s s1) as Hst1.
  { pose proof (so_core _ Hok) as [? ? ? ? ? ?]. apply (key_step S754_nan k); try done.
    - by left.
    - rewrite Ho1. apply local_some; try done. by apply fmax_not_nan.
    - apply Hok.
    - intros d _ (x & Hx & Huse & Hpin). rewrite Ho in Hx. injection Hx as <-. exists o'. split; [done|].
      split; [|done]. eapply fleb_trans; [exact Huse|]. by apply fmax_left. }
  assert (∀ x, is_Some (objects s !! x) → is_Some (objects s1 !! x)) as Hdom.
  { intros x. destruct (decide (x = k)) as [->|]; [by rewrite Ho1|by rewrite Hne]. }
  change (obj_tier o') with (obj_tier o). change (obj_key o') with (obj_key o). rewrite Hk.
  unfold is_offload_tier. change (offload s1) with (offload s).
  destruct (offload s) as [t|] eqn:Ht; [destruct (decide (obj_tier o = tier_name t)) as [Hb|Hb];
    [rewrite bool_decide_eq_true_2 by congruence|rewrite bool_decide_eq_false_2 by congruence]|]; unfold when; cbv iota.
  2: wp_step; split; [done|]; split; [done|]; intros Hu; exists o'; split; [done|];
    split; [by apply fmax_right|]; by intros t0 [= <-] Htn.
  2: wp_step; split; [done|]; split; [done|]; intros Hu; exists o'; split; [done|];
    split; [by apply fmax_right|]; by intros t0.
  pose proof (st_ok _ _ _ Hst1) as Hok1.
  pose proof (store_tier s1 t Hok1 eq_refl) as Hgood.
  destruct (wp_ok_inv _ _ _ (pin_spec t k (in_use_until o') (tg_ok _ _ Hgood))) as (u & t' & Hpin & Htok & Hframe & Hbl & Hpr).
  unfold wp, on_offload. change (offload s1) with (Some t).
  cbv iota. rewrite Hpin.
  match goal with |- stepped _ _ ?x ∧ _ => set (s2 := x) end.
  assert (stepped S754_nan s1 s2) as Hst2.
  { apply (stepped_offload s1 t t'); try done. intros x n. rewrite Hpr. destruct (decide (x = k)) as [->|].
    - rewrite lookup_insert_eq. apply fmax_le_left.
    - by rewrite lookup_insert_ne. }
  split; [by eapply stepped_trans|]. split; [done|]. intros Hu. exists o'. split; [done|].
  split; [by apply fmax_right|]. intros t0 [= <-] _ n Hn. rewrite Hpr, lookup_insert_eq in Hn.
  cbn [default from_option] in Hn. assert (in_use_until o' ≠ S754_nan) as Hnan' by (by apply fmax_not_nan).
  pose proof (fmax_le_right _ _ _ Hnan' Hn) as Hle. eapply fleb_trans; [|exact Hle]. by apply fmax_right.
Qed.

(** The end of a read that starts at [now], waits [delay] and takes [seconds]. *)
Definition read_end (now delay seconds : pyfloat) : pyfloat := fadd (fadd now delay) seconds.

Lemma fleb_nan d : fleb d S754_nan = false.
Proof. destruct (fleb d S754_nan) eqn:E; [|done]. apply fleb_spec in E. tauto. Qed.

Lemma hold_all_spec until keys s :
  store_ok s → Forall (λ key, is_Some (objects s !! to_string key)) keys →
  wp (for_ keys (hold until)) (λ _ s', stepped S754_nan s s' ∧
    (until ≠ S754_nan → ∀ key, key ∈ keys → prot s' (to_string key) until)) no_raise s.
Proof.
  intros Hok Hall. rewrite Forall_forall in Hall.
  pose (I := λ (done_ : list PoolKey) s', stepped S754_nan s s' ∧
    (∀ k, is_Some (objects s !! k) → is_Some (objects s' !! k)) ∧
    (until ≠ S754_nan → ∀ key, key ∈ done_ → prot s' (to_string key) until)).
  eapply wp_mono; [apply (wp_for I)| |done].
  - split; [by apply stepped_refl|]. split; [done|]. by intros _ key Hk%elem_of_nil.
  - intros done_ key todo s1 -> (Hst & Hdom & Hprot).
    eapply wp_mono; [apply (hold_spec until key s1); [apply Hst|apply Hdom, Hall; set_solver]| |done].
    intros u s2 (Hst2 & Hdom2 & Hp2). split; [by eapply stepped_trans|]. split; [auto|].
    intros Hu k [Hk | ->%list_elem_of_singleton]%elem_of_app; [|by apply Hp2].
    apply (st_prot _ _ _ Hst2); [apply fleb_nan|by apply Hprot].
  - intros [] s' (Hst & _ & Hp). done.
Qed.

Lemma store_get_spec keys now delay s :
  store_ok s →
  wp (store_get keys now delay)
    (λ seconds s', stepped S754_nan s s' ∧ Forall (ready_in s now) keys ∧
       (read_end now delay seconds ≠ S754_nan →
        ∀ key, key ∈ keys → prot s' (to_string key) (read_end now delay seconds)))
    (λ e s', e = SimulationStateError ∧ stepped S754_nan s s' ∧ Exists (λ key, ~ ready_in s now key) keys) s.
Proof.
  intros Hok. unfold store_get. destruct keys as [|key0 keys0] eqn:Hkeys.
  { wp_step. split; [by apply stepped_refl|]. split; [constructor|]. by intros _ key Hk%elem_of_nil. }
  rewrite <- Hkeys. clear Hkeys key0 keys0. unfold count. do 2 wp_step. match goal with |- wp _ _ _ ?x => set (s0 := x) end.
  assert (stepped S754_nan s s0) as Hst0 by (apply (stepped_same S754_nan s); try done; apply Hok).
  wp_step. eapply wp_mono; [apply (get_loop_spec now keys f0 s0), Hst0| |].
  2: { intros e s1 (-> & Hst1 & Hex). split; [done|]. split; [by eapply stepped_trans|]. exact Hex. }
  intros seconds s1 (Hst1 & Hsame & Hall). wp_step.
  eapply wp_mono; [apply (hold_all_spec (read_end now delay seconds) keys s1); [apply Hst1|]| |done].
  - eapply Forall_impl; [exact Hall|]. intros key (o & Ho & _). specialize (Hsame (to_string key)).
    rewrite Ho in Hsame. destruct (objects s1 !! to_string key); [eauto|done].
  - intros u s2 (Hst2 & Hp). wp_step. split; [|split; [exact Hall|exact Hp]].
    eapply stepped_trans; [exact Hst0|]. by eapply stepped_trans.
Qed.

(** ** Lookups *)

(** The longest prefix of the keys that is resident and ready. *)
Fixpoint ready_prefix (s : MooncakeStore) (now : pyfloat) (keys : list PoolKey) : list PoolKey :=
  match keys with
  | [] => []
  | key :: keys =>
      match objects s !! to_string key with
      | None => []
      | Some o => if fltb now (ready_at o) then [] else key :: ready_prefix s now keys
      end
  end.

(** The slowest tier of a list of resident keys. *)
Definition slowest_of (s : MooncakeStore) (keys : list PoolKey) (start : option pystr) : option pystr :=
  foldl (λ slowest key,
    match objects s !! to_string key with
    | Some o => if is_offload_tier s (Some (obj_tier o)) then Some (obj_tier o)
                else match slowest with None => Some memory | Some _ => slowest end
    | None => slowest
    end) start keys.

Lemma offloaded_resident s k o :
  store_ok s → objects s !! k = Some o → is_offload_tier s (Some (obj_tier o)) = true →
  ∃ t, offload s = Some t ∧ contains (obj_key o) t = true ∧ obj_tier o = tier_name t.
Proof.
  intros Hok Ho. unfold is_offload_tier. destruct (offload s) as [t|] eqn:Ht; [|done].
  intros Hb%bool_decide_eq_true. injection Hb as Hb. exists t. split; [done|].
  destruct (store_object s k o Hok Ho) as (Hk & _ & _ & _ & [Hm|(t0 & Ht0 & _ & Hr)]).
  - pose proof (tg_name _ _ (store_tier s t Hok Ht)). congruence.
  - split; [|done]. rewrite Hk. unfold contains. apply bool_decide_eq_true_2. congruence.
Qed.

Lemma lookup_loop_spec s now keys hits slowest :
  store_ok s →
  lookup_loop s now keys hits slowest =
    (hits ++ ready_prefix s now keys, slowest_of s (ready_prefix s now keys) slowest).
Proof.
  intros Hok. revert hits slowest. induction keys as [|key keys IH]; intros hits slowest; cbn [lookup_loop ready_prefix].
  { by rewrite app_nil_r. }
  destruct (objects s !! to_string key) as [o|] eqn:Ho; [|by rewrite app_nil_r].
  destruct (fltb now (ready_at o)); [by rewrite app_nil_r|].
  assert (is_offload_tier s (Some (obj_tier o)) &&
    from_option (λ t, negb (contains (obj_key o) t)) false (offload s) = false) as ->.
  { destruct (is_offload_tier s (Some (obj_tier o))) eqn:Ht; [|done].
    destruct (offloaded_resident s _ o Hok Ho Ht) as (t & -> & Hc & _). cbn. by rewrite Hc. }
  rewrite IH, <- app_assoc. unfold slowest_of. cbn [foldl app]. by rewrite Ho.
Qed.

Definition lookup_hit (s : MooncakeStore) (now : pyfloat) (keys : list PoolKey) : StoreHit :=
  let hits := ready_prefix s now keys in
  mkHit hits (Z.of_nat (length hits)) (slowest_of s hits None).

Lemma store_lookup_spec keys now s :
  store_ok s →
  wp (store_lookup keys now) (λ hit s', hit = lookup_hit s now keys ∧ ∃ st, s' = s <| stats := st |> ∧
    metrics_ok (master_server_address (config s)) (offload s) st) no_raise s.
Proof.
  intros Hok. pose proof (so_metrics _ Hok) as Hmet. unfold store_lookup. destruct keys as [|key0 keys0] eqn:Hkeys.
  { wp_step. split; [done|]. exists (stats s). by destruct s. }
  rewrite <- Hkeys. clear Hkeys key0 keys0. do 2 wp_step. change (id s) with s.
  rewrite lookup_loop_spec by done. cbn [app]. wp_step.
  set (hits := ready_prefix s now keys). set (tier := slowest_of s hits None).
  eapply (wp_mono _ (λ _ s', ∃ st, s' = s <| stats := st |> ∧ metrics_ok (master_server_address (config s)) (offload s) st));
    [|intros u s' Hs'; wp_step; done|done].
  destruct hits as [|h hits']; [unfold count; wp_step; by eexists|]. unfold count. do 2 wp_step.
  destruct (is_offload_tier s tier) eqn:Ht; [|wp_step; by eexists]. do 2 wp_step.
  unfold is_offload_tier in Ht. destruct (offload s) as [t|] eqn:Hoff; [|done].
  match goal with |- wp (backend_stats ?f) _ _ ?x =>
    destruct (backend_stats_spec f x t (λ _, conj eq_refl eq_refl)) as (st & Hb & Hm) end;
    [done|by eapply metrics_same|].
  unfold wp. rewrite Hb. by exists st.
Qed.

Lemma missing_indices_spec keys s i :
  store_ok s → i ∈ missing_indices s keys ↔ ∃ key, keys !! i = Some key ∧ objects s !! to_string key = None.
Proof.
  intros Hok. unfold missing_indices. rewrite list_elem_of_fmap. split.
  - intros ([j key] & -> & [Hp Hin]%list_elem_of_filter). cbn in Hp |- *.
    apply list_elem_of_lookup in Hin as [x Hx]. rewrite list_lookup_imap in Hx.
    destruct (keys !! x) as [key'|] eqn:Hk; [|done]. injection Hx as -> ->. exists key. split; [done|].
    unfold is_present in Hp. destruct (objects s !! to_string key) as [o|] eqn:Ho; [|done]. exfalso.
    destruct (is_offload_tier s (Some (obj_tier o))) eqn:Ht; [|done].
    destruct (offloaded_resident s _ o Hok Ho Ht) as (t & Hoff & Hc & _). rewrite Hoff in Hp. cbn in Hp. congruence.
  - intros (key & Hk & Ho). exists (i, key). split; [done|]. apply list_elem_of_filter. split.
    + cbn. unfold is_present. by rewrite Ho.
    + apply (list_elem_of_lookup_2 _ i). by rewrite list_lookup_imap, Hk.
Qed.

(** C35 (functional).  [lookup] returns exactly the longest prefix of the keys whose
    objects are resident and ready, with the number of its blocks and its
    slowest tier, and changes only statistics: a stale offload copy never
    ends it early.  [missing_indices] returns exactly the indices of the
    absent keys. *)
Theorem lookup_exact keys now s :
  store_ok s →
  (∃ s', store_lookup keys now s =
     (Ok (mkHit (ready_prefix s now keys) (Z.of_nat (length (ready_prefix s now keys)))
        (slowest_of s (ready_prefix s now keys) None)), s') ∧
     store_ok s' ∧ objects s' = objects s ∧ memory_lru s' = memory_lru s ∧ offload s' = offload s) ∧
  ∀ i, i ∈ missing_indices s keys ↔ ∃ key, keys !! i = Some key ∧ objects s !! to_string key = None.
Proof.
  intros Hok. split; [|intros i; by apply missing_indices_spec].
  destruct (wp_ok_inv _ _ _ (store_lookup_spec keys now s Hok)) as (hit & s' & Hrun & -> & st & -> & Hm).
  eexists. split; [exact Hrun|]. split; [|done]. destruct Hok. by split.
Qed.
