(* ===== verification/StoreHistory.v ===== *)
(** * Histories of a shared Mooncake store

    Engines share one store through [MooncakeService]: they register the memory
    they contribute and then look up, read and write.  The theorems hold after
    any sequence of these operations, including reads that raise. *)

From stdpp Require Import gmap list strings sorting.
From Stdlib Require Import ZArith Lia SpecFloat.
From S2P Require Import Prelude.
From S2P Require Import Buckets.
From S2P Require Import PyFloat.
From S2P Require Import PrefixKeys.
From S2P Require Import OffloadTier.
From S2P Require Import OffloadSpec.
From S2P Require Import MooncakeStore.
From S2P Require Import StoreSpec.
From S2P Require Import StoreBatch.
From S2P Require Import PoolKeys.
From S2P Require Import StoreTheorems.

Open Scope Z_scope.
Open Scope tokensim_scope.

(** ** Capacity *)

(** An engine contributes a number of ranks with non-negative segments. *)
Definition valid_contributor (ranks : Z) (options : MooncakeConfig) : Prop :=
  0 <= ranks ∧ 0 <= global_segment_size options.

(** The capacity [register] computes. *)
Definition pool_capacity (sv : MooncakeService) (members : gmap Z (Z * MooncakeConfig)) : Z :=
  match memory_capacity_blocks (config (service_store sv)) with
  | Some blocks => blocks * service_block_bytes sv
  | None => if embedded (config (service_store sv)) then sum_over global_segment_size members
            else global_segment_size (config (service_store sv))
  end.

Lemma sum_over_insert f m c ranks options :
  m !! c = None → sum_over f (<[c := (ranks, options)]> m) = ranks * f options + sum_over f m.
Proof.
  intros Hc. unfold sum_over. rewrite map_fold_insert_L; [done| |done].
  intros j1 j2 [n1 o1] [n2 o2] y _ _ _. lia.
Qed.

(** What registering does: nothing when it raises, else the new capacity. *)
Lemma register_spec c ranks options sv :
  wp (register c ranks options) (λ _ sv', sv' = sv
      <| contributors := <[c := (ranks, options)]> (contributors sv) |>
      <| service_store ::= λ st, st <| memory_capacity_bytes :=
           pool_capacity sv (<[c := (ranks, options)]> (contributors sv)) |> |>)
    (λ e sv', e = ConfigurationError ∧ sv' = sv) sv.
Proof.
  unfold register. do 2 wp_step. unfold id. destruct (from_option _ _ _); [by wp_step|]. by wp_step.
Qed.

Lemma resize_ok s capacity :
  store_ok s → memory_used_bytes s <= capacity → store_ok (s <| memory_capacity_bytes := capacity |>).
Proof. intros [[] ? ?] ?. by split. Qed.

(** ** Histories *)

(** One operation of an engine at time [now].  A contributor that is already known
    registers again only with the same values. *)
Inductive service_step (sv : MooncakeService) (now : pyfloat) : MooncakeService → Prop :=
  | step_lookup keys res s' :
      store_lookup keys now (service_store sv) = (res, s') →
      service_step sv now (sv <| service_store := s' |>)
  | step_get keys delay res s' :
      store_get keys now delay (service_store sv) = (res, s') →
      service_step sv now (sv <| service_store := s' |>)
  | step_put keys blocks delay policy res s' :
      put_with_timing keys blocks now delay policy (service_store sv) = (res, s') →
      service_step sv now (sv <| service_store := s' |>)
  | step_register c ranks options res sv' :
      valid_contributor ranks options →
      (contributors sv !! c = None ∨ contributors sv !! c = Some (ranks, options)) →
      register c ranks options sv = (res, sv') → service_step sv now sv'.

(** Steps at the times of which [P] holds. *)
Definition steps_at (P : pyfloat → Prop) : MooncakeService → MooncakeService → Prop :=
  rtc (λ sv sv', ∃ now, P now ∧ service_step sv now sv').

(** [get_mooncake_service]: a new service with its first contributor. *)
Definition started (cfg : MooncakeConfig) (bytes : Z) (b : StorageBackend) (sv : MooncakeService) : Prop :=
  valid_capacity cfg ∧ usable_backend cfg bytes b ∧ 0 <= bytes ∧
  ∃ c ranks, valid_contributor ranks cfg ∧ register c ranks cfg (new_service cfg bytes b) = (Ok tt, sv).

Record service_ok (sv : MooncakeService) : Prop := {
  sv_store : store_ok (service_store sv);
  sv_capacity : memory_capacity_bytes (service_store sv) = pool_capacity sv (contributors sv);
}.

Lemma new_store_used cfg bytes b :
  valid_capacity cfg → usable_backend cfg bytes b → memory_used_bytes (new_store cfg bytes b) = 0.
Proof.
  intros Hv Hu. unfold new_store, register_storage_stats, gets, mbind, M_bind, backend_stats, count, modify. cbn.
  destruct (enable_offload cfg); [|done]. cbn -[instance new_tier]. by destruct (instance _ _ _ _ _) as [[] ?].
Qed.

Lemma new_store_config cfg bytes b : config (new_store cfg bytes b) = cfg.
Proof.
  unfold new_store, register_storage_stats, gets, mbind, M_bind, backend_stats, count, modify. cbn.
  destruct (enable_offload cfg); [|done]. cbn -[instance new_tier]. by destruct (instance _ _ _ _ _) as [[] ?].
Qed.

Lemma sum_over_nonneg f m : (∀ c ranks options, m !! c = Some (ranks, options) → 0 <= ranks * f options) → 0 <= sum_over f m.
Proof.
  induction m as [|c [ranks options] m Hc IH] using map_ind; intros Hm; [done|].
  rewrite sum_over_insert by done. pose proof (Hm c ranks options (lookup_insert_eq _ _ _)).
  enough (0 <= sum_over f m) by lia. apply IH. intros c' r' o' Hc'. apply (Hm c'). rewrite lookup_insert_ne; congruence.
Qed.

Lemma started_ok cfg bytes b sv : started cfg bytes b sv → service_ok sv.
Proof.
  intros (Hv & Hu & Hb & c & ranks & [Hr Hs] & Hreg). pose proof (register_spec c ranks cfg (new_service cfg bytes b)) as Hwp.
  unfold wp in Hwp. rewrite Hreg in Hwp. subst sv. split; [|done]. cbn.
  apply resize_ok; [by apply new_store_ok|]. rewrite new_store_used by done. unfold pool_capacity. cbn.
  rewrite new_store_config. destruct Hv as [? Hmem]. destruct (memory_capacity_blocks cfg); cbn in Hmem; [nia|].
  destruct (embedded cfg); [|done]. unfold new_service. cbn. rewrite sum_over_insert by apply lookup_empty.
  change (sum_over global_segment_size ∅) with 0. nia.
Qed.

(** A store operation seen from the service. *)
Lemma stepped_service now sv s' :
  service_ok sv → stepped now (service_store sv) s' →
  service_ok (sv <| service_store := s' |>) ∧
  ∀ k d, fleb d now = false → prot (service_store sv) k d → prot s' k d.
Proof.
  intros [Hst Hcap] [Hok Hcfg Hbb Hc Hp]. split; [|done]. split; [done|]. cbn. rewrite Hc, Hcap.
  unfold pool_capacity. cbn. by rewrite Hcfg.
Qed.

Lemma register_grows sv c ranks options :
  valid_contributor ranks options →
  (contributors sv !! c = None ∨ contributors sv !! c = Some (ranks, options)) →
  pool_capacity sv (contributors sv) <= pool_capacity sv (<[c := (ranks, options)]> (contributors sv)).
Proof.
  intros [Hr Hs] Hc. unfold pool_capacity. destruct (memory_capacity_blocks _); [done|].
  destruct (embedded _); [|done]. destruct Hc as [Hc|Hc].
  - rewrite sum_over_insert by done. nia.
  - by rewrite insert_id.
Qed.

Lemma service_step_ok now sv sv' :
  service_ok sv → service_step sv now sv' →
  service_ok sv' ∧ ∀ k d, fleb d now = false → prot (service_store sv) k d → prot (service_store sv') k d.
Proof.
  intros Hok Hstep. pose proof (sv_store _ Hok) as Hst.
  destruct Hstep as [keys res s' Hrun|keys delay res s' Hrun|keys blocks delay policy res s' Hrun|c ranks options res sv' Hv Hc Hrun].
  - apply stepped_service; [done|]. destruct (wp_ok_inv _ _ _ (store_lookup_spec keys now _ Hst))
      as (hit & s1 & Hrun' & _ & st & -> & Hm). rewrite Hrun in Hrun'. injection Hrun' as _ ->.
    by apply (stepped_same now (service_store sv)).
  - apply stepped_service; [done|]. pose proof (store_get_spec keys now delay _ Hst) as Hwp.
    unfold wp in Hwp. rewrite Hrun in Hwp. apply stepped_any. destruct res; tauto.
  - apply stepped_service; [done|]. pose proof (put_with_timing_spec keys blocks now delay policy _ Hst) as Hwp.
    unfold wp in Hwp. rewrite Hrun in Hwp. by destruct res.
  - pose proof (register_spec c ranks options sv) as Hwp. unfold wp in Hwp. rewrite Hrun in Hwp.
    destruct res as [u|e]; [|by destruct Hwp as [_ ->]]. subst sv'. split; [|done]. split; [|done]. cbn.
    apply resize_ok; [done|]. etrans; [apply (co_fits _ _ _ _ _ _ (so_core _ Hst))|].
    rewrite (sv_capacity _ Hok). by apply register_grows.
Qed.

Lemma steps_ok P sv sv' : steps_at P sv sv' → service_ok sv → service_ok sv'.
Proof. induction 1 as [|a b c (now & _ & Hs) _ IH]; [done|]. intros Hok. apply IH. by eapply service_step_ok. Qed.

Lemma steps_prot d k sv sv' :
  steps_at (λ now, fleb d now = false) sv sv' → service_ok sv →
  prot (service_store sv) k d → prot (service_store sv') k d.
Proof.
  induction 1 as [|a b c (now & Hd & Hs) _ IH]; [done|]. intros Hok Hp.
  destruct (service_step_ok now a b Hok Hs) as [Hok' Hprot]. apply IH; [done|]. by apply Hprot.
Qed.

(** ** Accounting *)

(** The objects in the DRAM tier. *)
Definition dram (s : MooncakeStore) : gmap pystr StoreObject :=
  filter (λ p, obj_tier p.2 = memory) (objects s).

Lemma dram_lru s : store_ok s → dom (dram s) = list_to_set (memory_lru s) ∧ size (dram s) = length (memory_lru s).
Proof.
  intros Hok. assert (dom (dram s) = list_to_set (memory_lru s)) as Hdom.
  { apply set_eq. intros k. rewrite elem_of_dom, elem_of_list_to_set. unfold dram. split.
    - intros [o Ho]. apply map_lookup_filter_Some in Ho as [Ho Hm]. cbn in Hm.
      by apply (store_object s k o Hok Ho).
    - intros Hk. destruct (lru_object s k Hok Hk) as (o & Ho & Hm). exists o. by apply map_lookup_filter_Some. }
  split; [done|]. rewrite <- size_dom, Hdom, size_list_to_set; [done|]. apply (co_nodup _ _ _ _ _ _ (so_core _ Hok)).
Qed.

(** C32 (invariant).  After any history of registrations, lookups, reads and writes of
    a shared store, failed reads included, the books balance: the bytes in use
    are those of the DRAM objects and never exceed the contributed capacity,
    the LRU order lists exactly the DRAM objects, the offload tier holds
    exactly the blocks it counts, within its capacity, every offloaded object
    has its copy there, and an object is marked persisted exactly when it has
    a copy. *)
Theorem store_accounting cfg bytes b sv0 sv :
  started cfg bytes b sv0 → steps_at (λ _, True) sv0 sv →
  let s := service_store sv in
  memory_used_bytes s = Z.of_nat (size (dram s)) * block_bytes s ∧
  memory_used_bytes s <= memory_capacity_bytes s ∧
  memory_capacity_bytes s = pool_capacity sv (contributors sv) ∧
  NoDup (memory_lru s) ∧ dom (dram s) = list_to_set (memory_lru s) ∧
  ∀ t, offload s = Some t →
    used_blocks t = total (tier_blocks t) ∧ used_blocks t <= capacity_blocks t ∧
    ∀ k o, objects s !! k = Some o →
      (obj_tier o = memory ∨ obj_tier o = tier_name t) ∧
      (obj_tier o = tier_name t → is_Some (tier_blocks t !! k)) ∧
      persisted o = bool_decide (is_Some (tier_blocks t !! k)).
Proof.
  intros Hstart Hsteps s. destruct (steps_ok _ _ _ Hsteps (started_ok _ _ _ _ Hstart)) as [Hok Hcap].
  fold s in Hok, Hcap. destruct (dram_lru s Hok) as [Hdom Hsize]. pose proof (so_core _ Hok) as [Hloc Hnd Hu Hf _ Ht].
  rewrite Hsize. do 5 (split; [done|]). intros t Hoff. destruct (Ht t Hoff) as [[] Hname _ _].
  split; [done|]. split; [done|]. intros k o Ho. specialize (Hloc k). rewrite Ho, Hoff in Hloc.
  destruct Hloc as (_ & _ & _ & _ & Htier & Hper & _). split; [|split].
  - destruct Htier as [?|[(t0 & [= <-] & ?) _]]; tauto.
  - destruct Htier as [?|[_ Hr]]; [congruence|]. intros _. exact Hr.
  - apply Hper. eauto.
Qed.

(** ** Reads are safe *)

(** C33 (safety).  A read is never undercut: once [get] has returned, its objects stay
    in the store, whatever lookups, reads, writes and evictions the engines
    perform, as long as these happen before the read ends; objects on the
    offload tier keep their copy there. *)
Theorem reads_protected cfg bytes b sv0 sv keys now delay seconds s1 sv2 :
  started cfg bytes b sv0 → steps_at (λ _, True) sv0 sv →
  store_get keys now delay (service_store sv) = (Ok seconds, s1) →
  read_end now delay seconds ≠ S754_nan →
  steps_at (λ time, fleb (read_end now delay seconds) time = false) (sv <| service_store := s1 |>) sv2 →
  ∀ key, key ∈ keys → ∃ o, objects (service_store sv2) !! to_string key = Some o ∧
    ∀ t, offload (service_store sv2) = Some t → obj_tier o = tier_name t → is_Some (tier_blocks t !! to_string key).
Proof.
  intros Hstart Hsteps Hget Hnan Hsteps2 key Hkey. pose proof (steps_ok _ _ _ Hsteps (started_ok _ _ _ _ Hstart)) as Hok.
  pose proof (store_get_spec keys now delay _ (sv_store _ Hok)) as Hwp. unfold wp in Hwp. rewrite Hget in Hwp.
  destruct Hwp as (Hst & _ & Hprot).
  destruct (stepped_service S754_nan sv s1 Hok Hst) as [Hok1 _].
  pose proof (sv_store _ (steps_ok _ _ _ Hsteps2 Hok1)) as Hok2.
  destruct (steps_prot _ (to_string key) _ _ Hsteps2 Hok1 (Hprot Hnan key Hkey)) as (o & Ho & _).
  exists o. split; [done|]. intros t Ht Htier.
  destruct (store_object _ _ _ Hok2 Ho) as (_ & _ & _ & _ & [Hm|(t0 & Ht0 & _ & Hr)]); [|congruence].
  pose proof (tg_name _ _ (store_tier _ t Hok2 Ht)). congruence.
Qed.

(** ** Written keys are found *)

Lemma ready_prefix_all s now keys : Forall (ready_in s now) keys → ready_prefix s now keys = keys.
Proof.
  induction 1 as [|key keys (o & Ho & Hr) _ IH]; [done|]. cbn [ready_prefix]. rewrite Ho, Hr. by f_equal.
Qed.

Lemma put_installed keys now delay s :
  store_ok s → offload s = None → admission (config s) = Always →
  NoDup (to_string <$> keys) → delay ≠ S754_zero true → fadd now delay ≠ S754_zero true →
  memory_used_bytes s + Z.of_nat (length (fresh_keys (objects s) (to_string <$> keys))) * block_bytes s
    <= memory_capacity_bytes s →
  ∃ s', put_with_timing keys None now delay None s = (Ok no_timing, s') ∧ store_ok s' ∧
    ∀ k, forget_access <$> objects s' !! k =
      match objects s !! k with
      | Some o => Some (forget_access o)
      | None => if bool_decide (k ∈ to_string <$> keys)
                then Some (forget_access (new_object s k (fadd now delay))) else None
      end.
Proof.
  intros Hok Hoff Hadm Hnd Hd Ht Hroom.
  destruct (wp_ok_inv _ _ _ (put_with_timing_spec keys None now delay None s Hok)) as (timing & s1 & Hput & Hst).
  exists s1. destruct keys as [|key0 keys0] eqn:Hkeys.
  { unfold put_with_timing, gets, mbind, M_bind in Hput. change (id s) with s in Hput. rewrite orb_true_r in Hput.
    injection Hput as <- <-. split; [|split; [apply Hst|]].
    - unfold put_with_timing, gets, mbind, M_bind. change (id s) with s. by rewrite orb_true_r.
    - intros k. cbn. by destruct (objects s !! k). }
  rewrite <- Hkeys in *. assert (length keys ≠ 0%nat) as Hlen by (by rewrite Hkeys). clear Hkeys.
  set (s0 := s <| stats ::= λ st, st <| put_count ::= Z.succ |> |>).
  assert (store_ok s0) as Hok0 by (by apply count_ok).
  assert (∀ s k, forget_access (new_object s k (fadd now (fadd delay f0)) <| ready_at ::= λ r, fadd r f0 |>) =
    forget_access (new_object s k (fadd now delay))) as Hready.
  { intros s' k. cbn. by rewrite (fadd_f0_r delay Hd), (fadd_f0_r _ Ht). }
  destruct (wp_ok_inv _ _ _ (put_loop_dram forget_access (λ _ _, eq_refl) now delay Hready keys s0 Hok0 Hoff Hnd Hroom))
    as (timing' & s2 & Hl & -> & Hin2 & _).
  destruct (wp_ok_inv _ _ _ (put_batch_dram forget_access (λ _ _, eq_refl) now delay Hready (λ _, eq_refl) (λ _, eq_refl)
    (to_string <$> keys) s0 Hok0 Hoff Hnd)) as (u & s3 & Hb & Hin3).
  assert (∃ x, put_with_timing keys None now delay None s = (Ok no_timing, x) ∧ (x = s2 ∨ x = s3)) as (x & Hx & Hx').
  { unfold put_with_timing, gets, mbind, M_bind, count, modify. change (id s) with s. cbn [default].
    rewrite Hadm, bool_decide_eq_false_2, bool_decide_eq_false_2 by done. cbn [orb]. fold s0. cbv zeta.
    rewrite slice_to_take, take_ge, from_keys_nodup by (done || lia).
    destruct (_ && (_ <=? _)); [|rewrite Hl; eauto].
    change (filter (λ k, objects s !! k = None) (to_string <$> keys)) with (fresh_keys (objects s0) (to_string <$> keys)).
    rewrite Hb. eauto. }
  rewrite Hx in Hput. injection Hput as <- <-. split; [done|]. split; [apply Hst|].
  intros k. destruct Hx' as [-> | ->]; [apply Hin2|apply Hin3].
Qed.

(** What is written is found: distinct keys that fit into a
    DRAM-only store are all stored, and a lookup at any time at which the earlier
    objects among them are ready and the transfer has arrived returns every one
    of them, on the bulk path as on the per-key path. *)
Theorem put_then_lookup keys now delay later s :
  store_ok s → offload s = None → admission (config s) = Always →
  NoDup (to_string <$> keys) → delay ≠ S754_zero true → fadd now delay ≠ S754_zero true →
  memory_used_bytes s + Z.of_nat (length (fresh_keys (objects s) (to_string <$> keys))) * block_bytes s
    <= memory_capacity_bytes s →
  (∀ key o, key ∈ keys → objects s !! to_string key = Some o → fltb later (ready_at o) = false) →
  fltb later (fadd now delay) = false →
  ∃ s1 s2 tier, put_with_timing keys None now delay None s = (Ok no_timing, s1) ∧
    store_lookup keys later s1 = (Ok (mkHit keys (Z.of_nat (length keys)) tier), s2) ∧ store_ok s2.
Proof.
  intros Hok Hoff Hadm Hnd Hd Ht Hroom Hold Hlater.
  destruct (put_installed keys now delay s Hok Hoff Hadm Hnd Hd Ht Hroom) as (s1 & Hput & Hok1 & Hobj).
  destruct (wp_ok_inv _ _ _ (store_lookup_spec keys later s1 Hok1)) as (hit & s2 & Hrun & -> & st & -> & Hm).
  assert (Forall (ready_in s1 later) keys) as Hall.
  { apply Forall_forall. intros key Hkey. specialize (Hobj (to_string key)).
    destruct (objects s !! to_string key) as [o|] eqn:Ho.
    - destruct (objects s1 !! to_string key) as [o1|] eqn:Ho1; [|done]. injection Hobj as _ _ _ _ _ _ _ Hr _.
      exists o1. split; [done|]. rewrite Hr. by eapply Hold.
    - rewrite bool_decide_eq_true_2 in Hobj by (apply list_elem_of_fmap; eauto).
      destruct (objects s1 !! to_string key) as [o1|] eqn:Ho1; [|done]. injection Hobj as _ _ _ _ _ _ _ Hr _.
      exists o1. split; [done|]. by rewrite Hr. }
  unfold lookup_hit in Hrun. rewrite ready_prefix_all in Hrun by done.
  eexists _, _, _. split; [exact Hput|]. split; [exact Hrun|]. destruct Hok1. by split.
Qed.

(** ** A small store *)

(** Two blocks of ten bytes, without an offload tier. *)
Definition demo_config : MooncakeConfig := mkConfig [] false 20 0 false None 1 Always LRU None None None.
Definition demo_store : MooncakeStore := new_store demo_config 10 (demo_backend 0).
Definition demo_service : MooncakeService := (register 0 1 demo_config (new_service demo_config 10 (demo_backend 0))).2.

Lemma demo_store_ok : store_ok demo_store.
Proof. apply new_store_ok; [by split|]. by intros ?. Qed.

Lemma demo_started : started demo_config 10 (demo_backend 0) demo_service.
Proof. split; [by split|]. split; [by intros ?|]. split; [lia|]. by exists 0, 1. Qed.

Lemma demo_keys_nodup : NoDup (to_string <$> [demo_key 0 "a"; demo_key 0 "b"]).
Proof.
  cbn [fmap list_fmap]. constructor; [|apply NoDup_singleton]. intros Hin%list_elem_of_singleton.
  apply to_string_inj in Hin; [discriminate|split; by apply str_valid_dec..].
Qed.

Lemma store_accounting_witness :
  ∃ sv, steps_at (λ _, True) demo_service sv ∧
    memory_used_bytes (service_store sv) = Z.of_nat (size (dram (service_store sv))) * block_bytes (service_store sv) ∧
    memory_used_bytes (service_store sv) <= memory_capacity_bytes (service_store sv).
Proof.
  destruct (put_with_timing [demo_key 0 "a"] None f0 f0 None (service_store demo_service)) as [res s] eqn:Hput.
  exists (demo_service <| service_store := s |>).
  assert (steps_at (λ _, True) demo_service (demo_service <| service_store := s |>)) as Hsteps.
  { apply rtc_once. exists f0. split; [done|]. by eapply step_put. }
  split; [exact Hsteps|].
  destruct (store_accounting demo_config 10 (demo_backend 0) demo_service _ demo_started Hsteps) as (Hu & Hf & _).
  split; [exact Hu|exact Hf].
Defined.

Lemma lookup_exact_witness :
  ∃ s', store_lookup [demo_key 0 "a"] f0 demo_store = (Ok (mkHit [] 0 None), s') ∧ store_ok s'.
Proof.
  destruct (lookup_exact [demo_key 0 "a"] f0 demo_store demo_store_ok) as [(s' & Hrun & Hok & _) _].
  exists s'. split; [exact Hrun|exact Hok].
Defined.

Lemma put_then_lookup_witness :
  let keys := [demo_key 0 "a"; demo_key 0 "b"] in
  ∃ s1 s2 tier, put_with_timing keys None f0 (fof 1) None demo_store = (Ok no_timing, s1) ∧
    store_lookup keys (fof 2) s1 = (Ok (mkHit keys 2 tier), s2).
Proof.
  intros keys.
  destruct (put_then_lookup keys f0 (fof 1) (fof 2) demo_store demo_store_ok eq_refl eq_refl demo_keys_nodup)
    as (s1 & s2 & tier & Hput & Hlook & _); try done.
  exists s1, s2, tier. split; [exact Hput|exact Hlook].
Defined.

(** A hundred blocks, for a batch that takes the bulk path. *)
Definition demo_large : MooncakeStore :=
  new_store (mkConfig [] false 1000 0 false None 1 Always LRU None None None) 10 (demo_backend 0).

Definition demo_batch : list PoolKey := (λ i, demo_key i "a") <$> seqZ 0 70.

Lemma demo_batch_nodup : NoDup (to_string <$> demo_batch).
Proof.
  unfold demo_batch. rewrite <- list_fmap_compose. apply NoDup_fmap_2_strong; [|apply NoDup_seqZ].
  intros i j _ _ Heq. apply to_string_inj in Heq; [by injection Heq|split; by apply str_valid_dec..].
Qed.

Lemma bulk_put_equiv_witness :
  eviction_policy_allows_batch demo_large (Z.of_nat (length demo_batch)) = true ∧
  ∃ res s1 s2, put_with_timing demo_batch None f0 (fof 1) None demo_large = (res, s1) ∧
    put_each demo_batch None f0 (fof 1) None demo_large = (res, s2) ∧ memory_lru s2 = memory_lru s1.
Proof.
  split; [reflexivity|].
  assert (store_ok demo_large) as Hok by (apply new_store_ok; [by split|by intros ?]).
  destruct (bulk_put_equiv demo_batch None f0 (fof 1) None demo_large Hok demo_batch_nodup)
    as (res & s1 & s2 & H1 & H2 & (_ & _ & _ & _ & Hlru & _)); [done..|].
  exists res, s1, s2. split; [exact H1|]. split; [exact H2|exact Hlru].
Defined.

(** While [a] is read until time 5, a write at time 1 that needs room evicts [b]. *)
Definition demo_put (key : string) (now : pyfloat) (s : MooncakeStore) : MooncakeStore :=
  (put_with_timing [demo_key 0 key] None now f0 None s).2.

Lemma pair_first {A B} (p : A * B) a : p.1 = a → p = (a, p.2).
Proof. by destruct p; intros <-. Qed.

Lemma demo_put_steps (P : pyfloat → Prop) key now sv :
  P now → steps_at P sv (sv <| service_store := demo_put key now (service_store sv) |>).
Proof.
  intros HP. apply rtc_once. exists now. split; [done|]. eapply (step_put sv now). apply surjective_pairing.
Qed.

Definition demo_two : MooncakeStore := demo_put "b" f0 (demo_put "a" f0 (service_store demo_service)).
Definition demo_read : outcome pyfloat * MooncakeStore := store_get [demo_key 0 "a"] f0 (fof 5) demo_two.

Lemma demo_two_steps : steps_at (λ _, True) demo_service (demo_service <| service_store := demo_two |>).
Proof.
  etrans; [by apply (demo_put_steps _ "a" f0)|]. exact (demo_put_steps _ "b" f0 _ I).
Qed.

Lemma demo_read_ok : demo_read.1 = Ok f0.
Proof. vm_compute. reflexivity. Qed.

Lemma reads_protected_witness :
  is_Some (objects (demo_put "c" (fof 1) demo_read.2) !! to_string (demo_key 0 "a")) ∧
  objects (demo_put "c" (fof 1) demo_read.2) !! to_string (demo_key 0 "b") = None.
Proof.
  split; [|vm_compute; reflexivity].
  assert (∀ s1 s2, steps_at (λ _, True) demo_service (demo_service <| service_store := s1 |>) →
    store_get [demo_key 0 "a"] f0 (fof 5) s1 = (Ok f0, s2) →
    is_Some (objects (demo_put "c" (fof 1) s2) !! to_string (demo_key 0 "a"))) as Hgen.
  { intros s1 s2 Hsteps Hget.
    destruct (reads_protected demo_config 10 (demo_backend 0) demo_service _ [demo_key 0 "a"] f0 (fof 5) f0 s2
      _ demo_started Hsteps Hget ltac:(discriminate) (demo_put_steps _ "c" (fof 1) _ eq_refl) (demo_key 0 "a")
      (list_elem_of_here _ _)) as (o & Ho & _).
    exists o. exact Ho. }
  apply (Hgen demo_two); [exact demo_two_steps|]. exact (pair_first demo_read _ demo_read_ok).
Defined.
