(* ===== verification/HybridLayout.v ===== *)
(** * Grouped KV layout ([TokenSim/block/hybrid/kv_layout.py])

    A model with compressed attention stores several kinds of cache pages: full
    pages over the whole context, and window pages for sliding windows and
    compressor states.  [hybrid_kv_layout] registers the pages of every layer and
    packs them into groups that share one physical pool.  The theorems show that
    the packing loses no page and that every group fits the common slot. *)

From stdpp Require Import gmap list list_numbers strings pretty.
From Stdlib Require Import ZArith Lia.
From S2P Require Import Prelude.
From S2P Require Import PyFloat.
From S2P Require Import Buckets.

Open Scope Z_scope.

Definition cdiv (value divisor : Z) : Z := (value + divisor - 1) / divisor.

(** ** Pages and groups *)

(** The literals of [kind] *)
Inductive page_kind := Full | Window.

#[global] Instance page_kind_eq_dec : EqDecision page_kind.
Proof. solve_decision. Defined.

Record CacheLayerPage := mkPage {
  page_name : string;
  page_kind_of : page_kind;
  page_block_tokens : Z;
  state_bytes : Z;
  tokens_per_state : Z;
  page_window_tokens : Z;
  alignment : Z;
  draft : bool;
}.

Definition payload_bytes (p : CacheLayerPage) : Z :=
  page_block_tokens p / tokens_per_state p * state_bytes p.

Definition page_bytes (p : CacheLayerPage) : Z :=
  cdiv (payload_bytes p) (alignment p) * alignment p.

Definition uniform_key (p : CacheLayerPage) : page_kind * Z * Z :=
  (page_kind_of p, page_block_tokens p, page_window_tokens p).

Record CacheGroup := mkGroup {
  group_id : Z;
  layers : list CacheLayerPage;
  eagle : bool;
}.

Section Group.
Variable g : CacheGroup.

(** The properties of a group are those of its first page; [layers[0]] raises on a
    group without pages, which [hybrid_kv_layout] does not build. *)
Definition block_tokens : Z := default 0 (page_block_tokens <$> head (layers g)).

Definition window_tokens : Z := default 0 (page_window_tokens <$> head (layers g)).

Definition group_kind : option page_kind := page_kind_of <$> head (layers g).

Definition group_bytes : Z := zsum (page_bytes <$> layers g).

Definition group_max_request_slots (max_context in_flight_tokens : Z) : Z :=
  if window_tokens =? 0 then cdiv max_context block_tokens
  else cdiv (Z.min max_context (window_tokens - 1 + in_flight_tokens)) block_tokens + 1.

Definition hit_tail_slots : Z :=
  if window_tokens =? 0 then 0
  else cdiv (window_tokens - 1) block_tokens + Z.b2z (eagle g).
End Group.

Record HybridKVLayout := mkLayout {
  groups : list CacheGroup;
  logical_block_tokens : Z;
  physical_slot_bytes : Z;
  retention_interval : Z;
  lay_speculative_tokens : Z;
  max_in_flight_tokens : Z;
  lay_max_model_len : Z;
}.

Section Layout.
Variable l : HybridKVLayout.

(** [next(group for group in self.groups if group.kind == "full")]; [None] when it
    raises *)
Definition full_group : option CacheGroup :=
  list_find (λ g, group_kind g = Some Full) (groups l) ≫= λ x, Some x.2.

Definition max_request_slots (context_tokens : option Z) : Z :=
  let length := default (lay_max_model_len l) context_tokens in
  zsum ((λ g, group_max_request_slots g length (max_in_flight_tokens l)) <$> groups l).

Definition equivalent_tokens (pool_slots : Z) : Z :=
  pool_slots * lay_max_model_len l / max_request_slots None.
End Layout.

(** [min(range(minimum, max(values) + 1), key=lambda size: (padding, -size))]: the
    least padding, and the largest size among those. *)
Definition repeat_padding (values : list Z) (size : Z) : Z :=
  zsum ((λ v, (size - v mod size) mod size) <$> values).

Definition better_size (values : list Z) (best size : Z) : Z :=
  if repeat_padding values size <=? repeat_padding values best then size else best.

Definition zmax (l : list Z) : Z := foldr Z.max 0 l.

Definition approximate_group_repeats (values : list Z) (minimum : Z) : option Z :=
  match zrange minimum (zmax values + 1) with
  | [] => None
  | size :: sizes => Some (foldl (better_size values) size sizes)
  end.

(** ** The model's part of the layout *)

(** [hardware/device/dtypes.py]: canonical storage types and their bytes *)
Inductive dtype :=
  | fp32 | tf32 | fp16 | bf16 | fp8 | fp8_block | int8 | int8_wo | int8_sq
  | int4 | int4_wo | nvfp4 | int4_a8 | mxfp4 | mxfp4_wo.

#[global] Instance dtype_eq_dec : EqDecision dtype.
Proof. solve_decision. Defined.

Definition dtype_bytes (d : dtype) : pyfloat :=
  match d with
  | fp32 | tf32 => fof 4
  | fp16 | bf16 => fof 2
  | fp8 | fp8_block | int8 | int8_wo | int8_sq => fof 1
  | int4 | int4_wo | nvfp4 | int4_a8 | mxfp4 | mxfp4_wo => fdiv (fof 1) (fof 2)
  end.

(** [ModelLayerSpec], as far as the layout reads it *)
Record ModelLayerSpec := mkLayer {
  layer_id : Z;
  compress_ratio : Z;
  is_mtp : bool;
}.

(** [TransformerComponents], as far as the layout reads it *)
Record TransformerComponents := mkComponents {
  compress_ratios : list Z;
  index_head_dim : Z;
  indexed_compress_ratio : Z;
  expert_scale_group_size : Z;
  indexer_cache_dtype : dtype;
}.

(** [ModelSpec], as far as the layout reads it *)
Record ModelSpec := mkModel {
  num_layers : Z;
  head_dim : Z;
  kv_cache_dtype : dtype;
  sliding_window : Z;
  max_position_embeddings : Z;
  components : option TransformerComponents;
}.

(** [TransformerComponents.layers] *)
Definition component_layers (spec : TransformerComponents) (num_layers : Z) :
    list ModelLayerSpec :=
  imap (λ i ratio, mkLayer (Z.of_nat i) ratio (num_layers <=? Z.of_nat i)) (compress_ratios spec).

(** [ModelSpec.layer_specs] of a model with components *)
Definition layer_specs (m : ModelSpec) (spec : TransformerComponents) (include_mtp : bool) :
    list ModelLayerSpec :=
  let layers := component_layers spec (num_layers m) in
  if include_mtp then layers else slice_to (num_layers m) layers.

(** [index_state] *)
Definition index_state (spec : TransformerComponents) : Z :=
  if decide (indexer_cache_dtype spec = mxfp4)
  then index_head_dim spec / 2 + cdiv (index_head_dim spec) (expert_scale_group_size spec)
  else index_head_dim spec + 4.

(** The pages one layer registers, in order. *)
Definition layer_pages (m : ModelSpec) (spec : TransformerComponents) (block_size kv_state : Z)
    (layer : ModelLayerSpec) : list CacheLayerPage :=
  let prefix := ((if is_mtp layer then "mtp" else "layers") +:+ "." +:+ pretty (layer_id layer))%string in
  let indexed := compress_ratio layer =? indexed_compress_ratio spec in
  let coff := if indexed then 2 else 1 in
  (if indexed then
     [mkPage (prefix +:+ ".indexer") Full block_size (index_state spec)
        (indexed_compress_ratio spec) 0 512 false;
      mkPage (prefix +:+ ".indexer_state") Window 4 (2 * 2 * index_head_dim spec * 4) 1 8 512 false]
   else []) ++
  [mkPage (prefix +:+ ".swa") Window 64 kv_state 1 (sliding_window m) 512 (is_mtp layer)] ++
  (if 1 <? compress_ratio layer then
     [mkPage (prefix +:+ ".compressed") Full block_size kv_state (compress_ratio layer) 0 512 false;
      mkPage (prefix +:+ ".compressor_state") Window (if coff =? 2 then 4 else 8)
        (2 * coff * head_dim m * 4) 1 (coff * compress_ratio layer) 512 false]
   else []).

(** [zip] of lists, as long as the shortest *)
Fixpoint zip_with_tail {A} (xs : list A) (rows : list (list A)) : list (list A) :=
  match xs, rows with
  | x :: xs, row :: rows => (x :: row) :: zip_with_tail xs rows
  | _, _ => []
  end.

Fixpoint zip_lists {A} (ls : list (list A)) : list (list A) :=
  match ls with
  | [] => []
  | [l] => (λ x, [x]) <$> l
  | l :: ls => zip_with_tail l (zip_lists ls)
  end.

(** [l[skip::count]] *)
Fixpoint stride {A} (skip count : nat) (l : list A) : list A :=
  match l with
  | [] => []
  | x :: l => match skip with
              | O => x :: stride (pred count) count l
              | S skip => stride skip count l
              end
  end.

(** An entry of [details]. *)
Record detail := mkDetail {
  bucket : list CacheLayerPage;
  by_page : list (Z * list CacheLayerPage);
}.

Definition counts (d : detail) : list Z := (λ x, Z.of_nat (length x.2)) <$> by_page d.

(** [len(set(counts)) == 1] *)
Definition balanced (d : detail) : bool :=
  match counts d with
  | [] => false
  | c :: cs => forallb (Z.eqb c) cs
  end.

Definition max_count (d : detail) : Z := zmax (counts d).

Definition layout_details (pages : list CacheLayerPage) : list detail :=
  (λ x, mkDetail x.2 (group_by page_bytes x.2)) <$> group_by uniform_key pages.

Definition minimum_repeats (details : list detail) : Z :=
  zmax (max_count <$> filter (λ d, balanced d && (1 <? length (by_page d))%nat = true) details).

(** [repeats]: [None] when there is no balanced bucket with several page sizes *)
Definition layout_repeats (details : list detail) : option Z :=
  let minimum := minimum_repeats details in
  if minimum =? 0 then None
  else approximate_group_repeats (max_count <$> filter (λ d, balanced d = true) details) minimum.

Section Pack.
Variable repeats : option Z.

Definition group_count (d : detail) : Z :=
  match repeats with
  | Some r => if balanced d && negb (r =? 0) then cdiv (max_count d) r else 1
  | None => 1
  end.

Definition is_window_page (p : option CacheLayerPage) : bool :=
  match p with Some p => bool_decide (page_kind_of p = Window) | None => false end.

Definition state_bucket (d : detail) : bool :=
  bool_decide (repeats = None) && is_window_page (head (bucket d)).

Definition layout_anchor (details : list detail) : Z :=
  zmax ((λ d, zsum ((λ x, cdiv (Z.of_nat (length x.2))
    (if state_bucket d then Z.of_nat (length (bucket d)) else group_count d) * x.1) <$> by_page d))
    <$> details).

(** The number of groups of a bucket. *)
Definition split_count (anchor : Z) (d : detail) : outcome Z :=
  if state_bucket d then
    let size := default 0 (page_bytes <$> head (bucket d)) in
    if size =? 0 then Raise ZeroDivisionError
    else Ok (Z.max (group_count d)
      (cdiv (Z.of_nat (length (bucket d))) (Z.max (anchor / size) 1)))
  else Ok (group_count d).

(** The groups of one bucket. *)
Definition split_bucket (anchor : Z) (d : detail) : outcome (list (list CacheLayerPage)) :=
  count ← split_count anchor d;
  Ok (if count =? 1 then [bucket d]
      else
        let patterns := zip_lists (by_page d).*2 in
        (λ i, concat (stride i (Z.to_nat count) patterns)) <$> seq 0 (Z.to_nat count)).
End Pack.

Fixpoint split_buckets (repeats : option Z) (anchor : Z) (ds : list detail) :
    outcome (list (list CacheLayerPage)) :=
  match ds with
  | [] => Ok []
  | d :: ds =>
      now ← split_bucket repeats anchor d;
      rest ← split_buckets repeats anchor ds;
      Ok (now ++ rest)
  end.

Definition draft_group (speculative_tokens : Z) (pages : list CacheLayerPage) : bool :=
  negb (speculative_tokens =? 0) && existsb draft pages.

Record layout_args := mkLayoutArgs {
  arg_block_size : Z;
  arg_max_num_batched : Z;
  arg_max_concurrent_batches : Z;
  arg_retention_interval : Z;
  arg_speculative_tokens : Z;
  arg_include_mtp : bool;
}.

(** The pages of all layers; [None] when [int] raises on the size of an entry *)
Definition model_pages (m : ModelSpec) (spec : TransformerComponents) (a : layout_args) :
    option (list CacheLayerPage) :=
  kv_state ← ftrunc (fmul (fof (head_dim m)) (dtype_bytes (kv_cache_dtype m)));
  Some (layer_specs m spec (arg_include_mtp a) ≫= layer_pages m spec (arg_block_size a) kv_state).

(** The packing of the registered pages. *)
Definition pack_layout (pages : list CacheLayerPage) (m : ModelSpec) (a : layout_args) :
    outcome HybridKVLayout :=
  let details := layout_details pages in
  match details with
  | [] => Raise ValueError
  | _ =>
      let repeats := layout_repeats details in
      grouped ← split_buckets repeats (layout_anchor repeats details) details;
      let gs := imap (λ i pages, mkGroup (Z.of_nat i) pages
                  (draft_group (arg_speculative_tokens a) pages)) grouped in
      Ok (mkLayout gs (foldr Z.lcm 1 (block_tokens <$> gs)) (zmax (group_bytes <$> gs))
        (arg_retention_interval a) (arg_speculative_tokens a)
        (arg_max_concurrent_batches a * arg_max_num_batched a) (max_position_embeddings m))
  end.

Definition hybrid_kv_layout (m : ModelSpec) (a : layout_args) : outcome HybridKVLayout :=
  match components m with
  | None => Raise ConfigurationError
  | Some spec =>
      if (arg_block_size a <=? 0) || negb (arg_block_size a mod 128 =? 0) ||
         (arg_max_num_batched a <=? 0) || (arg_max_concurrent_batches a <=? 0)
      then Raise ConfigurationError
      else if (arg_retention_interval a <? 0) ||
              negb (arg_retention_interval a mod arg_block_size a =? 0)
      then Raise ConfigurationError
      else if (arg_speculative_tokens a <? 0) || (arg_block_size a <? arg_speculative_tokens a)
      then Raise ConfigurationError
      else
        match model_pages m spec a with
        | None => Raise ValueError
        | Some pages => pack_layout pages m a
        end
  end.

Lemma stride_perm {A} (c : nat) (l : list A) :
  (0 < c)%nat → concat ((λ i, stride i c l) <$> seq 0 c) ≡ₚ l.
Proof.
  intros Hc. induction l as [|x l IH].
  { clear Hc. generalize (seq 0 c). induction l as [|i l IH]; csimpl; done. }
  destruct c as [|c]; [lia|]. change (seq 0 (S c)) with (0%nat :: seq 1 c).
  rewrite <- fmap_S_seq, fmap_cons, <- list_fmap_compose. csimpl. f_equiv.
  rewrite <- IH at 2. rewrite seq_S, fmap_app, concat_app. csimpl. rewrite app_nil_r.
  by rewrite Permutation_app_comm.
Qed.

Lemma stride_nonempty {A} (i c : nat) (l : list A) : (i < length l)%nat → stride i c l ≠ [].
Proof.
  revert i. induction l as [|x l IH]; intros [|i] Hi; cbn in *; try lia; [done|].
  apply IH. lia.
Qed.

Lemma elem_of_stride {A} (i c : nat) (l : list A) x : x ∈ stride i c l → x ∈ l.
Proof.
  revert i. induction l as [|y l IH]; intros [|i]; cbn; [set_solver..|].
  intros ?%IH. set_solver.
Qed.

Lemma zip_with_tail_spec {A} (xs : list A) (rows : list (list A)) :
  length xs = length rows →
  length (zip_with_tail xs rows) = length xs ∧
  concat (zip_with_tail xs rows) ≡ₚ xs ++ concat rows ∧
  Forall (λ r, r ≠ []) (zip_with_tail xs rows).
Proof.
  revert rows. induction xs as [|x xs IH]; intros [|row rows]; try done. intros [= Hl].
  destruct (IH rows Hl) as (H1 & H2 & H3). csimpl. split; [by rewrite H1|]. split.
  - rewrite H2. f_equiv. rewrite !app_assoc. by rewrite (Permutation_app_comm row).
  - by constructor.
Qed.

Lemma zip_lists_spec {A} (n : nat) (ls : list (list A)) :
  ls ≠ [] → Forall (λ l, length l = n) ls →
  length (zip_lists ls) = n ∧ concat (zip_lists ls) ≡ₚ concat ls ∧
  Forall (λ r, r ≠ []) (zip_lists ls).
Proof.
  induction ls as [|l [|l' ls] IH]; intros Hne Hls; [done| |].
  - apply Forall_cons in Hls as [<- _]. cbn [zip_lists]. rewrite length_fmap. split; [done|].
    rewrite Forall_fmap, Forall_forall. split; [|by intros]. csimpl. rewrite app_nil_r.
    clear. induction l as [|x l IH]; csimpl; [done|]. by rewrite IH.
  - apply Forall_cons in Hls as [Hl Hls]. destruct IH as (H1 & H2 & H3); [done..|].
    change (zip_lists (l :: l' :: ls)) with (zip_with_tail l (zip_lists (l' :: ls))).
    destruct (zip_with_tail_spec l (zip_lists (l' :: ls))) as (E1 & E2 & E3); [congruence|].
    split; [congruence|]. split; [|done]. rewrite E2, H2. done.
Qed.

(** ** The packing *)

Definition detail_of (b : list CacheLayerPage) : detail := mkDetail b (group_by page_bytes b).

Lemma zmax_ge l x : x ∈ l → x <= zmax l.
Proof. unfold zmax. induction 1; cbn; lia. Qed.

Lemma zmax_nonneg l : 0 <= zmax l.
Proof. unfold zmax. induction l; cbn; lia. Qed.

Lemma zmax_all c l : 0 <= c → l ≠ [] → Forall (c =.) l → zmax l = c.
Proof.
  intros Hc Hne Hl. destruct l as [|x l]; [done|]. apply Forall_cons in Hl as [<- Hl]. clear Hne.
  unfold zmax in *. cbn. assert (foldr Z.max 0 l <= c); [|lia]. induction Hl as [|y l Hy Hl IH]; cbn; lia.
Qed.

Lemma zmax_filter_le (P Q : detail → Prop) `{∀ d, Decision (P d), ∀ d, Decision (Q d)} ds :
  (∀ d, P d → Q d) → zmax (max_count <$> filter P ds) <= zmax (max_count <$> filter Q ds).
Proof.
  intros HPQ. unfold zmax in *. induction ds as [|d ds IH]; [done|]. rewrite !filter_cons.
  destruct (decide (P d)) as [HP|].
  - rewrite decide_True by auto. csimpl. cbn. lia.
  - case_decide; csimpl; cbn; lia.
Qed.

Lemma cdiv_bounds n k : 1 <= n → 1 <= k → 1 <= cdiv n k <= n.
Proof.
  intros Hn Hk. unfold cdiv. split.
  - apply Z.div_le_lower_bound; lia.
  - apply Z.div_le_upper_bound; nia.
Qed.

Section Detail.
Variable b : list CacheLayerPage.
Hypothesis Hb : b ≠ [].
Let d := detail_of b.

Lemma detail_classes_nonempty : by_page d ≠ [].
Proof.
  destruct b as [|p b'] eqn:Eb; [done|].
  pose proof (bo_key _ _ _ (group_by_spec page_bytes b) p ltac:(rewrite Eb; left)) as Hk.
  unfold d, detail_of. rewrite <- Eb. cbn [by_page].
  intros Hnil. rewrite Hnil in Hk. by apply elem_of_nil in Hk.
Qed.

Lemma counts_pos : Forall (λ c, 1 <= c) (counts d).
Proof.
  apply Forall_fmap, Forall_forall. intros [s l] Hl. cbn.
  pose proof (bo_nonempty _ _ _ (group_by_spec page_bytes b) s l Hl).
  destruct l; [done|]. cbn [length]. lia.
Qed.

Lemma max_count_pos : 1 <= max_count d.
Proof.
  pose proof counts_pos as Hp. unfold max_count. pose proof detail_classes_nonempty as Hne.
  destruct (counts d) as [|c cs] eqn:Hc.
  { unfold counts in Hc. by destruct (by_page d). }
  apply Forall_cons in Hp as [? _]. pose proof (zmax_ge (c :: cs) c ltac:(left)). lia.
Qed.

Lemma balanced_lengths :
  balanced d = true → Forall (λ l, length l = Z.to_nat (max_count d)) (by_page d).*2.
Proof.
  intros Hbal. pose proof max_count_pos as Hmc. unfold balanced in Hbal. unfold max_count in *.
  destruct (counts d) as [|c cs] eqn:Hc; [done|].
  assert (Forall (c =.) (c :: cs)) as Hall.
  { constructor; [done|]. apply Forall_forall. intros x Hx.
    rewrite forallb_forall in Hbal. apply Z.eqb_eq, Hbal. by apply list_elem_of_In. }
  assert (1 <= c) as Hc1.
  { pose proof counts_pos as Hp. rewrite Hc in Hp. by apply Forall_cons in Hp as [? _]. }
  rewrite (zmax_all c) by (done || lia). rewrite <- Hc in Hall. unfold counts in Hall.
  apply Forall_fmap. eapply Forall_impl; [exact (proj1 (Forall_fmap _ _ _) Hall)|].
  intros [s l]. cbn. lia.
Qed.

(** A bucket split into [n] groups along its patterns. *)
Lemma strided_spec (n : nat) :
  balanced d = true → (0 < n)%nat → Z.of_nat n <= max_count d →
  let gs := (λ i, concat (stride i n (zip_lists (by_page d).*2))) <$> seq 0 n in
  concat gs ≡ₚ b ∧ Forall (λ g, g ≠ []) gs.
Proof.
  intros Hbal Hn Hle gs.
  assert ((by_page d).*2 ≠ []) as Hne.
  { pose proof detail_classes_nonempty. by destruct (by_page d). }
  destruct (zip_lists_spec (Z.to_nat (max_count d)) (by_page d).*2 Hne (balanced_lengths Hbal))
    as (Hl & Hp & Hrows). set (rows := zip_lists (by_page d).*2) in *. split.
  - transitivity (concat (concat ((λ i, stride i n rows) <$> seq 0 n))).
    { unfold gs. generalize (seq 0 n) as idx. induction idx as [|i idx IH]; csimpl; [done|].
      rewrite concat_app, IH. done. }
    rewrite (concat_perm _ rows) by by apply stride_perm. rewrite Hp. apply group_by_perm.
  - unfold gs. apply Forall_fmap, Forall_forall. intros i Hi. apply elem_of_seq in Hi.
    pose proof (stride_nonempty i n rows ltac:(lia)) as Hs.
    destruct (stride i n rows) as [|row rest] eqn:Hst; [done|].
    assert (row ∈ rows) as Hrow by (apply (elem_of_stride i n); rewrite Hst; left).
    rewrite Forall_forall in Hrows. specialize (Hrows row Hrow).
    unfold compose. rewrite Hst. by destruct row.
Qed.

Lemma single_class_count : length (by_page d) = 1%nat → max_count d = Z.of_nat (length b).
Proof.
  intros Hl. pose proof (group_by_perm page_bytes b) as Hp. unfold max_count, counts.
  change (group_by page_bytes b) with (by_page d) in Hp.
  destruct (by_page d) as [|[s l] [|]]; [done| |done]. cbn in *.
  rewrite app_nil_r in Hp. rewrite Hp. lia.
Qed.

(** The groups of a bucket hold its pages, and none is empty. *)
Lemma split_bucket_spec repeats anchor gs :
  (state_bucket repeats d = true → balanced d = true ∧ length (by_page d) = 1%nat) →
  (∀ r, repeats = Some r → 1 <= r) →
  split_bucket repeats anchor d = Ok gs →
  concat gs ≡ₚ b ∧ Forall (λ g, g ≠ []) gs.
Proof.
  intros Hstate Hr. unfold split_bucket. cbn [mbind outcome_bind].
  destruct (split_count repeats anchor d) as [n|] eqn:Hcount; [|done].
  cbn [mbind outcome_bind]. intros [= <-].
  assert (n = 1 ∨ balanced d = true ∧ 1 <= n <= max_count d) as Hn.
  { pose proof max_count_pos as Hmc. unfold split_count in Hcount.
    destruct (state_bucket repeats d) eqn:Hs.
    - destruct (Hstate eq_refl) as [Hbal Hone]. right. split; [done|].
      destruct (_ =? 0); [done|]. injection Hcount as <-.
      assert (group_count repeats d = 1) as ->.
      { unfold state_bucket in Hs. apply andb_true_iff in Hs as [Hs _].
        apply bool_decide_eq_true in Hs. by rewrite Hs. }
      rewrite (single_class_count Hone) in *.
      change (bucket d) with b.
      match goal with |- context [cdiv _ ?k] =>
        pose proof (cdiv_bounds (Z.of_nat (length b)) k ltac:(lia) ltac:(lia)) end. lia.
    - injection Hcount as <-. unfold group_count. destruct repeats as [r|]; [|by left].
      specialize (Hr r eq_refl). destruct (balanced d); [|by left]. cbn [andb].
      rewrite (proj2 (Z.eqb_neq r 0)) by lia. cbn [negb]. right. split; [done|].
      by apply cdiv_bounds. }
  destruct (n =? 1) eqn:H1.
  { cbn. rewrite app_nil_r. split; [done|]. by constructor. }
  apply Z.eqb_neq in H1. destruct Hn as [?|[Hbal Hn]]; [lia|]. apply strided_spec; [done|lia|lia].
Qed.
End Detail.

(** *** Window buckets are balanced *)

Lemma length_filter_bind {A B} (f : A → list B) (P Q : B → Prop)
    `{∀ x, Decision (P x), ∀ x, Decision (Q x)} (l : list A) :
  (∀ x, length (filter P (f x)) = length (filter Q (f x))) →
  length (filter P (l ≫= f)) = length (filter Q (l ≫= f)).
Proof.
  intros Hf. induction l as [|x l IH]; csimpl; [done|].
  rewrite !filter_app, !length_app, IH, Hf. done.
Qed.

Section ModelPages.
Variables (m : ModelSpec) (spec : TransformerComponents) (bs kv : Z).
Let pages := layer_pages m spec bs kv.

(** The bytes of the three kinds of state pages of at most 8 tokens. *)
Let index_bytes := cdiv (4 * (2 * 2 * index_head_dim spec * 4)) 512 * 512.
Let indexed_bytes := cdiv (4 * (2 * 2 * head_dim m * 4)) 512 * 512.
Let plain_bytes := cdiv (8 * (2 * 1 * head_dim m * 4)) 512 * 512.
Let swa_bytes := cdiv (64 * kv) 512 * 512.

Lemma window_page_cases layer p :
  p ∈ pages layer → page_kind_of p = Window →
  let indexed := compress_ratio layer =? indexed_compress_ratio spec in
  (page_block_tokens p = 64 ∧ page_bytes p = swa_bytes) ∨
  (page_block_tokens p = 8 ∧ page_bytes p = plain_bytes) ∨
  (page_block_tokens p = 4 ∧ indexed = true ∧
    (page_window_tokens p = 8 ∧ page_bytes p = index_bytes ∨
     page_window_tokens p = 2 * indexed_compress_ratio spec ∧ 1 < indexed_compress_ratio spec ∧
       page_bytes p = indexed_bytes)).
Proof.
  unfold pages, layer_pages. intros Hin Hw. cbv zeta.
  destruct (compress_ratio layer =? indexed_compress_ratio spec) eqn:Hix;
    destruct (1 <? compress_ratio layer) eqn:H1; cbn in Hin; rewrite ?elem_of_cons, elem_of_nil in Hin;
    apply Z.ltb_lt in H1 || apply Z.ltb_ge in H1; apply Z.eqb_eq in Hix || clear Hix;
    repeat (destruct Hin as [->|Hin]); try done; cbn in *; try discriminate;
    unfold page_bytes, payload_bytes; cbn; rewrite ?Z.div_1_r; auto 10.
  all: right; right; split; [done|]; split; [done|]; right; rewrite <- Hix; auto.
Qed.

Lemma state_class_length s layer :
  indexed_compress_ratio spec = 4 →
  length (filter (λ p, page_bytes p = s ∧ uniform_key p = (Window, 4, 8)) (pages layer)) =
    if compress_ratio layer =? indexed_compress_ratio spec
    then ((if decide (index_bytes = s) then 1 else 0) + (if decide (indexed_bytes = s) then 1 else 0))%nat
    else 0%nat.
Proof.
  intros Hir. unfold pages, layer_pages.
  destruct (compress_ratio layer =? indexed_compress_ratio spec) eqn:Hix; cbn [app].
  - apply Z.eqb_eq in Hix. rewrite (proj2 (Z.ltb_lt 1 (compress_ratio layer))) by lia.
    rewrite Hix, Hir, !filter_cons, !filter_nil. unfold uniform_key, page_bytes, payload_bytes. cbn.
    change (4 / 1) with 4. change (64 / 1) with 64. fold index_bytes indexed_bytes.
    repeat case_decide; cbn; intuition (congruence || done).
  - destruct (1 <? compress_ratio layer); rewrite ?filter_app, !filter_cons, !filter_nil;
      unfold uniform_key; cbn; repeat case_decide; cbn; intuition congruence.
Qed.

(** In one bucket of window pages, all page sizes occur equally often. *)
Lemma window_classes_equal t w s1 s2 ls :
  let class s := filter (λ p, page_bytes p = s) (filter (λ p, uniform_key p = (Window, t, w)) (ls ≫= pages)) in
  class s1 ≠ [] → class s2 ≠ [] → length (class s1) = length (class s2).
Proof.
  intros class H1 H2. destruct (decide (s1 = s2)) as [<-|Hne]; [done|].
  assert (∀ s, class s ≠ [] → ∃ layer p, p ∈ pages layer ∧ uniform_key p = (Window, t, w) ∧ page_bytes p = s)
    as Hex.
  { intros s Hs. unfold class in *. destruct (filter _ _) as [|p l] eqn:Hf in Hs; [done|].
    assert (p ∈ class s) as Hp by (unfold class; rewrite Hf; left).
    apply list_elem_of_filter in Hp as [Hps [Hpk Hp]%list_elem_of_filter].
    apply list_elem_of_bind in Hp as (layer & Hp & _). eauto. }
  destruct (Hex s1 H1) as (l1 & p1 & Hp1 & Hk1 & Hs1). destruct (Hex s2 H2) as (l2 & p2 & Hp2 & Hk2 & Hs2).
  unfold uniform_key in Hk1, Hk2. injection Hk1 as Hk1 Ht1 Hw1. injection Hk2 as Hk2 Ht2 Hw2.
  pose proof (window_page_cases l1 p1 Hp1 Hk1) as C1. pose proof (window_page_cases l2 p2 Hp2 Hk2) as C2.
  cbv zeta in C1, C2.
  assert (t = 4 ∧ w = 8 ∧ 2 * indexed_compress_ratio spec = 8 ∧
    ((s1 = index_bytes ∧ s2 = indexed_bytes) ∨ (s1 = indexed_bytes ∧ s2 = index_bytes)))
    as (-> & -> & Hir & Hs).
  { destruct C1 as [[]|[[]|(? & _ & [[]|(? & ? & ?)])]], C2 as [[]|[[]|(? & _ & [[]|(? & ? & ?)])]];
      simplify_eq; try lia; try congruence; (split; [lia|split; [lia|split; [lia|]]]); auto. }
  unfold class. rewrite !list_filter_filter. apply length_filter_bind. intros layer.
  rewrite !state_class_length by lia. destruct (compress_ratio layer =? indexed_compress_ratio spec); [|done].
  destruct Hs as [[-> ->]|[-> ->]]; repeat case_decide; first [done|congruence|lia].
Qed.
End ModelPages.

(** *** The groups of a layout *)

Lemma balanced_intro (b : list CacheLayerPage) :
  b ≠ [] →
  (∀ s1 s2, filter (λ p, page_bytes p = s1) b ≠ [] → filter (λ p, page_bytes p = s2) b ≠ [] →
     length (filter (λ p, page_bytes p = s1) b) = length (filter (λ p, page_bytes p = s2) b)) →
  balanced (detail_of b) = true.
Proof.
  intros Hb Heq. pose proof (detail_classes_nonempty b Hb) as Hne. unfold balanced, counts.
  assert (∀ s l, (s, l) ∈ by_page (detail_of b) → l = filter (λ p, page_bytes p = s) b ∧ l ≠ []) as Hcl.
  { intros s l Hl. split; [by apply (bo_bucket _ _ _ (group_by_spec page_bytes b))|].
    by apply (bo_nonempty _ _ _ (group_by_spec page_bytes b) s). }
  destruct (by_page (detail_of b)) as [|[s l] cs]; [done|]. csimpl. apply forallb_forall.
  intros c Hc%list_elem_of_In. apply list_elem_of_fmap in Hc as ([s' l'] & -> & Hl').
  apply Z.eqb_eq. f_equal. cbn [snd].
  destruct (Hcl s l) as [El Hl]; [left|]. destruct (Hcl s' l') as [El' Hne']; [by right|].
  rewrite El, El' in *. by apply Heq.
Qed.

Lemma elem_of_details pages d :
  d ∈ layout_details pages →
  ∃ k b, d = detail_of b ∧ b = filter (λ p, uniform_key p = k) pages ∧ b ≠ [].
Proof.
  unfold layout_details. intros ([k b] & -> & Hin)%list_elem_of_fmap. exists k, b. split; [done|].
  split; [by apply (bo_bucket _ _ _ (group_by_spec uniform_key pages))|].
  by apply (bo_nonempty _ _ _ (group_by_spec uniform_key pages) k).
Qed.

Lemma layout_repeats_pos ds r : layout_repeats ds = Some r → 1 <= r.
Proof.
  unfold layout_repeats. destruct (minimum_repeats ds =? 0) eqn:H0; [done|].
  apply Z.eqb_neq in H0. pose proof (zmax_nonneg
    (max_count <$> filter (λ d, balanced d && (1 <? length (by_page d))%nat = true) ds)) as Hp.
  fold (minimum_repeats ds) in Hp. unfold approximate_group_repeats.
  destruct (zrange _ _) as [|x xs] eqn:Hr; [done|]. intros [= <-].
  assert (∀ y, y ∈ x :: xs → 1 <= y) as Hall.
  { intros y Hy. rewrite <- Hr in Hy. apply elem_of_zrange in Hy. lia. }
  clear Hr. assert (1 <= x) as Hx by (apply Hall; left).
  assert (∀ y, y ∈ xs → 1 <= y) as Hxs by (intros; apply Hall; by right). clear Hall.
  revert x Hx. induction xs as [|y xs IH]; intros x Hx; [done|]. cbn [foldl]. apply IH.
  - intros z Hz. apply Hxs. by right.
  - unfold better_size. destruct (_ <=? _); [apply Hxs; left|done].
Qed.

(** Without a number of repeats, no balanced bucket has several page sizes. *)
Lemma no_repeats_single ds d :
  layout_repeats ds = None → d ∈ ds → 1 <= max_count d → by_page d ≠ [] →
  balanced d = true → length (by_page d) = 1%nat.
Proof.
  unfold layout_repeats. intros Hn Hd Hmc Hne Hbal.
  set (multi d := balanced d && (1 <? length (by_page d))%nat = true) in *.
  destruct (decide (length (by_page d) = 1%nat)) as [|Hl]; [done|exfalso].
  assert (max_count d <= minimum_repeats ds) as Hmin.
  { apply zmax_ge, list_elem_of_fmap. exists d. split; [done|]. apply list_elem_of_filter. split; [|done].
    rewrite Hbal. apply Nat.ltb_lt. destruct (by_page d) as [|? [|]]; cbn in *; [done|done|lia]. }
  rewrite (proj2 (Z.eqb_neq _ _)) in Hn by lia. unfold approximate_group_repeats in Hn.
  destruct (zrange _ _) eqn:Hr; [|done].
  assert (minimum_repeats ds ∈ zrange (minimum_repeats ds)
    (zmax (max_count <$> filter (λ d, balanced d = true) ds) + 1)) as Hin.
  { apply elem_of_zrange. split; [lia|]. apply Z.lt_succ_r, zmax_filter_le.
    by intros d' [? _]%andb_true_iff. }
  rewrite Hr in Hin. by apply elem_of_nil in Hin.
Qed.

Lemma split_buckets_spec repeats anchor ds grouped :
  (∀ d, d ∈ ds → ∀ gs, split_bucket repeats anchor d = Ok gs →
     concat gs ≡ₚ bucket d ∧ Forall (λ g, g ≠ []) gs) →
  split_buckets repeats anchor ds = Ok grouped →
  concat grouped ≡ₚ concat (bucket <$> ds) ∧ Forall (λ g, g ≠ []) grouped ∧
  ∀ g, g ∈ grouped → ∃ d, d ∈ ds ∧ ∀ p, p ∈ g → p ∈ bucket d.
Proof.
  revert grouped. induction ds as [|d ds IH]; intros grouped Hd; cbn [split_buckets].
  { intros [= <-]. split; [done|]. split; [constructor|]. set_solver. }
  cbn [mbind outcome_bind]. destruct (split_bucket repeats anchor d) as [gs|] eqn:Hs; [|done].
  cbn [mbind outcome_bind]. destruct (split_buckets repeats anchor ds) as [rest|] eqn:Hr; [|done].
  cbn [mbind outcome_bind]. intros [= <-].
  destruct (Hd d ltac:(left) gs Hs) as [Hp Hne].
  destruct (IH rest) as (Hp' & Hne' & Hsub); [intros d' ?; apply Hd; by right|done|].
  csimpl. rewrite concat_app, Hp, Hp'. split; [done|]. split; [by apply Forall_app|].
  intros g [Hg|Hg]%elem_of_app.
  - exists d. split; [left|]. intros p Hin. rewrite <- Hp. by apply (elem_of_concat p gs g).
  - destruct (Hsub g Hg) as (d' & ? & ?). exists d'. split; [by right|done].
Qed.

(** The packing of any pages whose window buckets are balanced. *)
Lemma pack_layout_spec pages m a L :
  (∀ k b, b = filter (λ p, uniform_key p = k) pages → b ≠ [] → k.1.1 = Window →
     balanced (detail_of b) = true) →
  pack_layout pages m a = Ok L →
  concat (layers <$> groups L) ≡ₚ pages ∧
  ∀ i g, groups L !! i = Some g →
    group_id g = Z.of_nat i ∧ layers g ≠ [] ∧
    (∀ p, p ∈ layers g → uniform_key p = (default Full (group_kind g), block_tokens g, window_tokens g)) ∧
    group_bytes g <= physical_slot_bytes L ∧ (block_tokens g | logical_block_tokens L).
Proof.
  intros Hbal. unfold pack_layout. destruct (layout_details pages) as [|d0 ds0] eqn:Hds; [done|].
  rewrite <- Hds. set (ds := layout_details pages) in *. cbn [mbind outcome_bind].
  destruct (split_buckets _ _ ds) as [grouped|] eqn:Hg; [|done]. cbn [mbind outcome_bind].
  set (gs := imap _ grouped). intros [= <-]. cbn [groups].
  destruct (split_buckets_spec (layout_repeats ds) (layout_anchor (layout_repeats ds) ds) ds grouped) as (Hperm & Hne & Hsub); [|done|].
  { intros d Hd sub Hs. destruct (elem_of_details pages d Hd) as (k & b & -> & Hb & Hbne).
    apply (split_bucket_spec b Hbne (layout_repeats ds) (layout_anchor (layout_repeats ds) ds));
      [|apply layout_repeats_pos|done].
    intros Hst. unfold state_bucket in Hst. apply andb_true_iff in Hst as [Hrep Hw].
    apply bool_decide_eq_true in Hrep. cbn [bucket detail_of] in Hw.
    assert (balanced (detail_of b) = true) as Hbal'.
    { apply (Hbal k); [done..|]. destruct b as [|p b]; [done|]. cbn in Hw.
      apply bool_decide_eq_true in Hw. assert (p ∈ filter (λ p, uniform_key p = k) pages) as Hp
        by (rewrite <- Hb; left). apply list_elem_of_filter in Hp as [<- _]. done. }
    split; [done|]. apply (no_repeats_single ds); [done|done| |by apply detail_classes_nonempty|done].
    by apply max_count_pos. }
  assert (layers <$> gs = grouped) as Hlay.
  { unfold gs. rewrite fmap_imap. apply list_eq. intros i. rewrite list_lookup_imap.
    by destruct (grouped !! i). }
  split.
  { rewrite Hlay, Hperm. unfold ds, layout_details. rewrite <- list_fmap_compose. apply group_by_perm. }
  intros i g Hi. pose proof (list_elem_of_lookup_2 _ _ _ Hi) as Hin.
  assert (group_bytes g <= zmax (group_bytes <$> gs)) as Hmax.
  { apply zmax_ge, list_elem_of_fmap. eauto. }
  assert ((block_tokens g | foldr Z.lcm 1 (block_tokens <$> gs))) as Hdiv.
  { clear -Hin. induction Hin as [|g0 g gs _ IH]; csimpl; [apply Z.divide_lcm_l|].
    etransitivity; [exact IH|apply Z.divide_lcm_r]. }
  unfold gs in Hi. rewrite list_lookup_imap in Hi. destruct (grouped !! i) as [lays|] eqn:Hlk; [|done].
  injection Hi as <-. cbn [group_id layers]. split; [done|].
  pose proof (list_elem_of_lookup_2 _ _ _ Hlk) as Hlin.
  rewrite Forall_forall in Hne. split; [by apply Hne|]. split; [|by split].
  destruct (Hsub lays Hlin) as (d & Hd & Hdsub).
  destruct (elem_of_details pages d Hd) as (k & b & -> & -> & _).
  assert (∀ p, p ∈ lays → uniform_key p = k) as Hk.
  { intros p Hp%Hdsub. by apply list_elem_of_filter in Hp as [? _]. }
  intros p Hp. rewrite (Hk p Hp). specialize (Hne lays Hlin).
  unfold group_kind, block_tokens, window_tokens. cbn. destruct lays as [|q lays]; [done|]. cbn.
  rewrite <- (Hk q) by left. done.
Qed.

Lemma hybrid_layout_groups m a spec pages L :
  components m = Some spec → model_pages m spec a = Some pages →
  hybrid_kv_layout m a = Ok L →
  concat (layers <$> groups L) ≡ₚ pages ∧
  ∀ i g, groups L !! i = Some g →
    group_id g = Z.of_nat i ∧ layers g ≠ [] ∧
    (∀ p, p ∈ layers g → uniform_key p = (default Full (group_kind g), block_tokens g, window_tokens g)) ∧
    group_bytes g <= physical_slot_bytes L ∧ (block_tokens g | logical_block_tokens L).
Proof.
  intros Hc Hp Hl. unfold hybrid_kv_layout in Hl. rewrite Hc, Hp in Hl.
  apply (pack_layout_spec pages m a).
  - intros [[kind t] w] b Hb Hne Hk. cbn in Hk. subst kind. unfold model_pages in Hp.
    destruct (ftrunc _) as [kv|]; [|done]. injection Hp as <-.
    apply balanced_intro; [done|]. intros s1 s2. rewrite Hb. apply window_classes_equal.
  - repeat (case_match; [done|]). done.
Qed.

(** *** What the manager relies on *)

(** Group ids are distinct, the pages of a full group have no window, and a group
    without window has no draft pages. *)
Record layout_ok (L : HybridKVLayout) : Prop := {
  lk_ids : NoDup (group_id <$> groups L);
  lk_full g : g ∈ groups L → group_kind g = Some Full → window_tokens g = 0;
  lk_eagle g : g ∈ groups L → window_tokens g = 0 → eagle g = false;
  lk_width : 0 <= logical_block_tokens L;
  lk_divide g : g ∈ groups L → (block_tokens g | logical_block_tokens L);
}.

Lemma layer_pages_full m spec bs kv layer p :
  0 < sliding_window m → p ∈ layer_pages m spec bs kv layer →
  (page_kind_of p = Full → page_window_tokens p = 0) ∧ (page_window_tokens p = 0 → draft p = false).
Proof.
  intros Hw. unfold layer_pages. rewrite !elem_of_app.
  intros [Hp|[Hp|Hp]]; repeat case_match; rewrite ?Z.ltb_lt in *; set_unfold;
    destruct_or? Hp; subst; cbn in *; (split; [done || lia|intros; done || lia]).
Qed.

Lemma pack_layout_eagle pages m a L g :
  pack_layout pages m a = Ok L → g ∈ groups L → eagle g = draft_group (arg_speculative_tokens a) (layers g).
Proof.
  unfold pack_layout. destruct (layout_details pages) eqn:Hd; [done|]. rewrite <- Hd. clear Hd.
  cbn [mbind outcome_bind]. destruct (split_buckets _ _ _) as [grouped|]; [|done]. cbn [mbind outcome_bind].
  intros [= <-]. cbn [groups]. by intros (i & lays & -> & _)%elem_of_lookup_imap_1.
Qed.

Lemma pack_layout_width pages m a L : pack_layout pages m a = Ok L → 0 <= logical_block_tokens L.
Proof.
  unfold pack_layout. destruct (layout_details pages) eqn:Hd; [done|]. rewrite <- Hd. clear Hd.
  cbn [mbind outcome_bind]. destruct (split_buckets _ _ _) as [grouped|]; [|done]. cbn [mbind outcome_bind].
  intros [= <-]. cbn [logical_block_tokens]. generalize (block_tokens <$> imap (λ i pages, mkGroup (Z.of_nat i) pages
    (draft_group (arg_speculative_tokens a) pages)) grouped). intros [|t ts]; cbn; [lia|apply Z.lcm_nonneg].
Qed.

Lemma hybrid_layout_ok m a L : 0 < sliding_window m → hybrid_kv_layout m a = Ok L → layout_ok L.
Proof.
  intros Hsw HL. destruct (components m) as [spec|] eqn:Hc; [|unfold hybrid_kv_layout in HL; by rewrite Hc in HL].
  assert (∃ pages, model_pages m spec a = Some pages ∧ pack_layout pages m a = Ok L) as (pages & Hp & HP).
  { revert HL. unfold hybrid_kv_layout. rewrite Hc. repeat (case_match; [done|]).
    destruct (model_pages m spec a) as [pages|]; [|done]. by exists pages. }
  destruct (hybrid_layout_groups m a spec pages L Hc Hp HL) as [Hperm Hg].
  assert (∀ g p, g ∈ groups L → p ∈ layers g →
    (page_kind_of p = Full → page_window_tokens p = 0) ∧ (page_window_tokens p = 0 → draft p = false)) as Hpage.
  { intros g p Hin Hpg. assert (p ∈ pages) as Hpp.
    { rewrite <- Hperm. apply (elem_of_concat p _ (layers g)); [done|]. by apply list_elem_of_fmap_2. }
    unfold model_pages in Hp. destruct (ftrunc _) as [kv|]; [|done]. injection Hp as <-.
    apply list_elem_of_bind in Hpp as (layer & Hpp & _). by eapply layer_pages_full. }
  split.
  - assert (group_id <$> groups L = Z.of_nat <$> seq 0 (length (groups L))) as ->.
    { apply list_eq. intros i. rewrite !list_lookup_fmap. destruct (groups L !! i) as [g|] eqn:Hi; cbn.
      - rewrite lookup_seq_lt by by eapply lookup_lt_Some. cbn. f_equal. by apply Hg.
      - rewrite lookup_seq_ge by by apply lookup_ge_None. done. }
    apply NoDup_fmap; [apply _|apply NoDup_seq].
  - intros g [i Hi]%list_elem_of_lookup Hk. destruct (Hg i g Hi) as (_ & Hne & Hkey & _).
    destruct (layers g) as [|p ps] eqn:Hl; [done|]. unfold window_tokens. rewrite Hl. cbn.
    apply (Hpage g p); [by eapply list_elem_of_lookup_2|rewrite Hl; left|].
    specialize (Hkey p ltac:(left)). rewrite Hk in Hkey. unfold uniform_key in Hkey. cbn in Hkey. congruence.
  - intros g Hin Hk. rewrite (pack_layout_eagle _ _ _ _ _ HP Hin). unfold draft_group. apply andb_false_iff. right.
    apply not_true_iff_false. intros (p & Hpi & Hd)%existsb_exists. apply list_elem_of_In in Hpi.
    destruct (Hpage g p Hin Hpi) as [_ Hdr]. apply list_elem_of_lookup in Hin as [i Hi].
    destruct (Hg i g Hi) as (_ & _ & Hkey & _). specialize (Hkey p Hpi). unfold uniform_key in Hkey.
    assert (page_window_tokens p = 0) as H0 by congruence. rewrite (Hdr H0) in Hd. done.
  - by eapply pack_layout_width.
  - intros g [i Hi]%list_elem_of_lookup. by apply (Hg i g Hi).
Qed.

(** C23 (functional): packing a model's cache pages loses none and duplicates none:
    the groups of a layout hold exactly the pages the layers registered, each group
    has one kind, block width and window, fits the physical slot shared by all
    groups, and has a block width that divides the logical block. *)
Theorem layout_packs_pages m a spec pages L :
  components m = Some spec → model_pages m spec a = Some pages →
  hybrid_kv_layout m a = Ok L →
  concat (layers <$> groups L) ≡ₚ pages ∧
  ∀ i g, groups L !! i = Some g →
    group_id g = Z.of_nat i ∧ layers g ≠ [] ∧
    (∀ p, p ∈ layers g → uniform_key p = (default Full (group_kind g), block_tokens g, window_tokens g)) ∧
    group_bytes g <= physical_slot_bytes L ∧ (block_tokens g | logical_block_tokens L).
Proof. apply hybrid_layout_groups. Qed.

(** A model with indexed, compressed, plain and draft layers. *)
Definition demo_components : TransformerComponents :=
  mkComponents [1; 4; 128; 4; 128; 4; 1] 128 4 32 mxfp4.

Definition demo_model : ModelSpec := mkModel 6 512 fp8 128 65536 (Some demo_components).

Definition demo_layout_args : layout_args := mkLayoutArgs 256 8192 2 32768 3 true.

Definition demo_pages : list CacheLayerPage :=
  default [] (model_pages demo_model demo_components demo_layout_args).

Definition demo_layout : HybridKVLayout :=
  match hybrid_kv_layout demo_model demo_layout_args with
  | Ok l => l
  | Raise _ => mkLayout [] 0 0 0 0 0 0
  end.

Lemma layout_packs_pages_witness :
  length demo_pages = 23%nat ∧ length (groups demo_layout) = 6%nat ∧
  concat (layers <$> groups demo_layout) ≡ₚ demo_pages.
Proof.
  split; [vm_compute; reflexivity|]. split; [vm_compute; reflexivity|].
  apply (layout_packs_pages demo_model demo_layout_args demo_components demo_pages demo_layout);
    vm_compute; reflexivity.
Defined.
