(* ===== verification/HybridState.v ===== *)
(** * State of the hybrid block manager ([TokenSim/block/hybrid/manager.py])

    [HybridKVBlockManager] keeps one pool of slots for all cache groups.  A slot's
    block object is created once, at the index of its number, so a slot is its
    number.  Python dictionaries whose insertion order the code reads (the page
    tables of a request, the LRU of cached free slots, the copies of a page) are
    association lists; the others are finite maps.  [X] is the state of the objects
    behind [publish_callbacks]. *)

From stdpp Require Import gmap list list_numbers.
From Stdlib Require Import ZArith Lia.
From S2P Require Import Prelude.
From S2P Require Import Block.
From S2P Require Import PrefixKeys.
From S2P Require Import PyFloat.
From S2P Require Import Request.
From S2P Require Import HybridLayout.

Open Scope Z_scope.

(** ** Dictionaries with integer keys, in insertion order *)

Section Dict.
Context {V : Type}.
Implicit Types (k : Z) (v : V) (d : list (Z * V)).

Fixpoint dict_get k d : option V :=
  match d with
  | [] => None
  | (k', v) :: d => if k =? k' then Some v else dict_get k d
  end.

(** [d[k] = v]: an existing key keeps its place *)
Fixpoint dict_set k v d : list (Z * V) :=
  match d with
  | [] => [(k, v)]
  | (k', v') :: d => if k =? k' then (k', v) :: d else (k', v') :: dict_set k v d
  end.

(** [d.pop(k)] *)
Definition dict_pop k d : list (Z * V) := filter (λ x, x.1 ≠ k) d.

(** [d.update(items)] *)
Definition dict_update (items d : list (Z * V)) : list (Z * V) :=
  foldl (λ d x, dict_set x.1 x.2 d) d items.

Definition dict_has k d : bool := bool_decide (k ∈ d.*1).
End Dict.

(** [d[k]]: a missing key raises. *)
Definition require {S A} (e : error) (x : option A) : M S A :=
  match x with Some a => mret a | None => raise e end.

(** Append to an ordered set; a member keeps its place. *)
Definition set_add (b : nat) (l : list nat) : list nat := if decide (b ∈ l) then l else l ++ [b].

(** [l.remove(b)]: the first occurrence; [None] when there is none *)
Fixpoint remove_first (b : nat) (l : list nat) : option (list nat) :=
  match l with
  | [] => None
  | x :: l => if decide (x = b) then Some l else cons x <$> remove_first b l
  end.

(** [l[i]]: a negative index counts from the end *)
Definition list_at {A} (i : Z) (l : list A) : option A :=
  let j := if i <? 0 then Z.of_nat (length l) + i else i in
  if j <? 0 then None else l !! Z.to_nat j.

(** ** The objects *)

(** A slot of the pool; [block.block_number]. *)
Abbreviation slot := nat.

(** [(group_id, key, ordinal)], the identity of a cached page *)
Abbreviation slot_key := (Z * cache_key * Z)%type.

Abbreviation hblock := (PhysicalTokenBlock slot_key).

#[global] Instance hblock_inhabited : Inhabited hblock := populate (new_block GPU 0 0).

(** The pages a request holds of one group: page index to slot. *)
Abbreviation page_table := (list (Z * slot)).

(** [_GroupSpec]: the constants of a group *)
Record GroupSpec := mkSpec {
  sp_group : CacheGroup;
  sp_group_id : Z;
  sp_block_tokens : Z;
  sp_window_tokens : Z;
  sp_eagle : Z;
  sp_need : Z;
  sp_max_request_slots : Z;
}.

Definition group_spec (l : HybridKVLayout) (g : CacheGroup) : GroupSpec :=
  mkSpec g (group_id g) (block_tokens g) (window_tokens g) (Z.b2z (eagle g)) (hit_tail_slots g)
    (group_max_request_slots g (lay_max_model_len l) (max_in_flight_tokens l)).

Definition is_window (s : GroupSpec) : bool := negb (sp_window_tokens s =? 0).

Record HybridReusePlan := mkHybridPlan {
  hp_request_id : Z;
  hp_input_keys : list cache_key;
  hp_full_input_blocks : Z;
  hp_total_logical_blocks : Z;
  hp_has_hash_ids : bool;
  hp_hit_tokens : Z;
  hp_effective_prefill_tokens : Z;
  hp_hit_blocks : list slot;
  hp_group_hits : list (Z * list (Z * slot));
}.

Definition hp_reuse_miss_blocks (p : HybridReusePlan) : Z :=
  if hp_has_hash_ids p
  then Z.max 0 (hp_full_input_blocks p - Z.of_nat (length (hp_hit_blocks p))) else 0.

(** The next position at which window pages must be checked again: at once
    ([None]), at a position, or never ([inf]). *)
Inductive threshold := Recheck | NextAt (position : Z) | NoNext.

Record hybrid (X : Type) := mkHybrid {
  h_layout : HybridKVLayout;
  h_model : pystr;
  h_num_slots : Z;                                   (* [num_total_gpu_blocks] *)
  h_watermark_blocks : Z;
  h_specs : list GroupSpec;                          (* [groups] *)
  h_full : GroupSpec;                                (* [full_spec] *)
  h_blocks : list hblock;
  h_free_uncached : list slot;                       (* a stack, top last *)
  h_free_cached : list slot;                         (* least recently released first *)
  h_cache : gmap slot_key slot;
  h_duplicates : gmap slot_key (list slot);
  h_cached_progress : gmap Z Z;
  h_tables : gmap Z (list (Z * page_table));         (* request, group id, page index *)
  h_requests : gset Z;
  h_keys : gmap Z (list cache_key);
  h_fine_keys : gmap Z (list cache_key);
  h_transfer : gmap slot Z;                          (* [transfer_references] *)
  h_allocation_count : Z;
  h_release_count : Z;
  h_eviction_count : Z;
  h_peak_used_slots : Z;
  h_cache_version : Z;
  h_plans : gmap Z ((Z * Z * Z * Z) * HybridReusePlan);
  h_committed : gmap Z ((Z * Z * list Z) * threshold);
  h_spans : gmap Z (list (option (Z * Z)));
  h_reqs : gmap Z Request;                           (* the request objects *)
  h_chains : ChainCache;
  h_ext : X;
}.
Arguments mkHybrid {X}.
Arguments h_layout {X}.
Arguments h_model {X}.
Arguments h_num_slots {X}.
Arguments h_watermark_blocks {X}.
Arguments h_specs {X}.
Arguments h_full {X}.
Arguments h_blocks {X}.
Arguments h_free_uncached {X}.
Arguments h_free_cached {X}.
Arguments h_cache {X}.
Arguments h_duplicates {X}.
Arguments h_cached_progress {X}.
Arguments h_tables {X}.
Arguments h_requests {X}.
Arguments h_keys {X}.
Arguments h_fine_keys {X}.
Arguments h_transfer {X}.
Arguments h_allocation_count {X}.
Arguments h_release_count {X}.
Arguments h_eviction_count {X}.
Arguments h_peak_used_slots {X}.
Arguments h_cache_version {X}.
Arguments h_plans {X}.
Arguments h_committed {X}.
Arguments h_spans {X}.
Arguments h_reqs {X}.
Arguments h_chains {X}.
Arguments h_ext {X}.

#[global] Instance eta_hybrid {X} : Eta (hybrid X) := λ h,
  mkHybrid (h_layout h) (h_model h) (h_num_slots h) (h_watermark_blocks h) (h_specs h) (h_full h)
    (h_blocks h) (h_free_uncached h) (h_free_cached h) (h_cache h) (h_duplicates h)
    (h_cached_progress h) (h_tables h) (h_requests h) (h_keys h) (h_fine_keys h) (h_transfer h)
    (h_allocation_count h) (h_release_count h) (h_eviction_count h) (h_peak_used_slots h)
    (h_cache_version h) (h_plans h) (h_committed h) (h_spans h) (h_reqs h) (h_chains h) (h_ext h).

(** [HybridKVBlockManager.__init__], beside the requests, the chain cache and the
    callbacks' objects *)
Definition new_hybrid {X} (reqs : gmap Z Request) (chains : ChainCache) (ext : X)
    (l : HybridKVLayout) (num_slots : Z) (model : pystr) (watermark : pyfloat) :
    outcome (hybrid X) :=
  if num_slots <? 2 then Raise OutOfBlocksError
  else
    match ftrunc (fmul (fof num_slots) watermark) with
    | None => Raise ValueError
    | Some watermark_blocks =>
        match full_group l with
        | None => Raise StopIteration
        | Some full =>
            let bs := logical_block_tokens l in
            let n := Z.to_nat num_slots in
            let block i := new_block GPU (Z.of_nat i) bs in
            Ok (mkHybrid l model num_slots watermark_blocks (group_spec l <$> groups l)
              (group_spec l full)
              ((block 0%nat) <| ref_count := 1 |> :: (block <$> seq 1 (n - 1)))
              (reverse (seq 1 (n - 1))) [] ∅ ∅ ∅ ∅ ∅ ∅ ∅ ∅ 0 0 0 1 0 ∅ ∅ ∅ reqs chains ext)
        end
    end.

(** ** Access *)

Section Access.
Context {X : Type}.
Implicit Types (h : hybrid X) (b : slot).

Definition hblk h b : hblock := h_blocks h !!! b.
Definition hreq h (r : Z) : Request := h_reqs h !!! r.

(** [self.block_size] *)
Definition h_block_size h : Z := logical_block_tokens (h_layout h).

Definition set_hblk b (f : hblock → hblock) : M (hybrid X) unit :=
  modify (λ h, h <| h_blocks ::= alter f b |>).

Definition set_hreq (r : Z) (f : Request → Request) : M (hybrid X) unit :=
  modify (λ h, h <| h_reqs ::= λ m, <[r := f (m !!! r)]> m |>).

(** [self._full_growth]: id and block width of the groups without a window *)
Definition full_growth h : list (Z * Z) :=
  (λ s, (sp_group_id s, sp_block_tokens s)) <$> filter (λ s, is_window s = false) (h_specs h).

(** [self._window_growth]: position, id, block width and history of the others *)
Definition window_growth h : list (nat * Z * Z * Z) :=
  omap (λ x, if is_window x.2
             then Some (x.1, sp_group_id x.2, sp_block_tokens x.2, sp_window_tokens x.2 - 1)
             else None)
    (imap pair (h_specs h)).

(** [self._tails_fit_segments] *)
Definition tails_fit_segments h : bool :=
  (retention_interval (h_layout h) =? 0) ||
  forallb (λ s, sp_need s * sp_block_tokens s <=? retention_interval (h_layout h)) (h_specs h).

(** [_HybridBlockTable.get_blocks] *)
Definition h_get_blocks (r : Z) h : list slot :=
  match h_tables h !! r with
  | None => []
  | Some tables => tables ≫= λ t, t.2.*2
  end.

Definition h_table_num_blocks (r : Z) h : Z := Z.of_nat (length (h_get_blocks r h)).

Definition h_num_free_blocks h : Z :=
  Z.of_nat (length (h_free_uncached h)) + Z.of_nat (length (h_free_cached h)).

Definition h_num_allocated_blocks h : Z := h_num_slots h - h_num_free_blocks h.

(** [get_gpu_status] *)
Definition h_gpu_status h : Z * Z * Z :=
  (h_num_free_blocks h, h_num_allocated_blocks h, h_num_slots h).
End Access.

#[global] Arguments hblk : simpl never.
#[global] Arguments hreq : simpl never.
