(* ===== verification/HybridManager.v ===== *)
(** * Operations of the hybrid block manager ([TokenSim/block/hybrid/allocator.py],
      [prefix_cache.py], [external_cache.py])

    [publish_callbacks] are methods of connectors and a page store is looked up
    through its [lookup] method; both are parameters here. *)

From stdpp Require Import gmap list list_numbers sorting.
From Stdlib Require Import ZArith Lia.
From S2P Require Import Prelude.
From S2P Require Import Buckets.
From S2P Require Import Block.
From S2P Require Import PrefixKeys.
From S2P Require Import PyFloat.
From S2P Require Import Request.
From S2P Require Import HybridLayout.
From S2P Require Import HybridState.

Open Scope Z_scope.

Section Slots.
Context {X : Type}.

(** ** Slots ([SlotAllocatorMixin]) *)

(** [_note_usage] *)
Definition note_usage : M (hybrid X) unit :=
  modify (λ h, h <| h_peak_used_slots ::= Z.max (h_num_slots h - h_num_free_blocks h) |>).

(** [_evict] *)
Definition h_evict (b : slot) : M (hybrid X) unit :=
  h ← gets id;
  (match block_hash (hblk h b) with
   | None => mret tt
   | Some key =>
       let copies := default [] (h_duplicates h !! key) in
       copies ← (if bool_decide (h_cache h !! key = Some b) then
                   match copies with
                   | first :: copies =>
                       modify (λ h, h <| h_cache ::= <[key := first]> |>) ;; mret copies
                   | [] => modify (λ h, h <| h_cache ::= delete key |>) ;; mret []
                   end
                 else mret (filter (.≠ b) copies));
       modify (λ h, h <| h_duplicates ::=
         match copies with [] => delete key | _ => <[key := copies]> end |>) ;;
       modify (λ h, h <| h_eviction_count ::= Z.succ |> <| h_cache_version ::= Z.succ |>)
   end) ;;
  set_hblk b clear_cache_metadata.

(** [_acquire] *)
Definition h_acquire (b : slot) : M (hybrid X) unit :=
  h ← gets id;
  (if ref_count (hblk h b) =? 0 then
     if bool_decide (b ∈ h_free_cached h)
     then modify (λ h, h <| h_free_cached ::= filter (.≠ b) |>)
     else match remove_first b (h_free_uncached h) with
          | Some stack => modify (λ h, h <| h_free_uncached := stack |>)
          | None => raise ValueError
          end
   else mret tt) ;;
  set_hblk b (λ o, o <| ref_count ::= Z.succ |>) ;;
  note_usage.

(** The loop of [_allocate_many] over the slots taken from the queue *)
Definition take_slot (b : slot) : M (hybrid X) unit :=
  h ← gets id;
  let o := hblk h b in
  if negb (ref_count o =? 0) then raise SimulationStateError
  else
    when (bool_decide (is_Some (block_hash o)) || cached o) (h_evict b) ;;
    set_hblk b (λ o, o <| ref_count := 1 |>).

(** [_allocate_many] *)
Definition allocate_many (count : Z) : M (hybrid X) (list slot) :=
  if count <=? 0 then mret []
  else
    h ← gets id;
    let stack := h_free_uncached h in
    if h_num_free_blocks h <? count then raise OutOfBlocksError
    else
      let n := (Z.to_nat count `min` length stack)%nat in
      let keep := (length stack - n)%nat in
      let rest := (Z.to_nat count - n)%nat in
      let blocks := reverse (drop keep stack) ++ take rest (h_free_cached h) in
      modify (λ h, h <| h_free_uncached := take keep stack |> <| h_free_cached ::= drop rest |>) ;;
      for_ blocks take_slot ;;
      modify (λ h, h <| h_allocation_count ::= Z.add count |>) ;;
      note_usage ;;
      mret blocks.

(** [_allocate] *)
Definition allocate_one : M (hybrid X) slot :=
  bs ← allocate_many 1;
  require IndexError (head bs).

(** The loop of [_release_many]; returns the uncached slots that became free. *)
Fixpoint release_loop (bs uncached : list slot) : M (hybrid X) (list slot) :=
  match bs with
  | [] => mret uncached
  | b :: bs =>
      h ← gets id;
      let o := hblk h b in
      if bool_decide (b = 0%nat) || (ref_count o <=? 0) then raise SimulationStateError
      else
        set_hblk b (λ o, o <| ref_count ::= Z.pred |>) ;;
        if ref_count o =? 1 then
          match block_hash o with
          | Some _ => modify (λ h, h <| h_free_cached ::= set_add b |>) ;; release_loop bs uncached
          | None => release_loop bs (uncached ++ [b])
          end
        else release_loop bs uncached
  end.

(** [_release_many] *)
Definition release_many (bs : list slot) : M (hybrid X) unit :=
  uncached ← release_loop bs [];
  modify (λ h, h <| h_release_count ::= Z.add (Z.of_nat (length bs)) |>
    <| h_free_uncached ::= λ stack, stack ++ reverse uncached |>).

(** [_release] *)
Definition release_one (b : slot) : M (hybrid X) unit := release_many [b].
End Slots.

Section Keys.
Context {X : Type} `{Digest}.

(** ** Prefix identities ([PrefixCacheMixin]) *)

(** [build_prefix_keys(...)] on the module-level chain cache *)
Definition h_build_keys (hashes : list hash_id) (r : Z) : M (hybrid X) (list PrefixCacheKey) := λ h,
  let '(keys, chains) :=
    build_prefix_keys hashes (h_model h) (cache_salt (hreq h r)) (reuse_group (hreq h r)) (h_chains h) in
  (Ok keys, h <| h_chains := chains |>).

(** The keys [_extend_context_keys] appends to reach [blocks] keys. *)
Definition local_keys (identity block_tokens blocks : Z) (extra : pystr) (keys : list cache_key) :
    list cache_key :=
  let parent := last (shared_keys keys) in
  (λ index, LocalKey (mkLocalKey identity block_tokens index parent extra)) <$>
    zrange (Z.of_nat (length keys)) blocks.

(** [_extend_context_keys] on the memo [cache] of the manager *)
Definition extend_context_keys (r : Z) (memo : hybrid X → gmap Z (list cache_key))
    (put : list cache_key → hybrid X → hybrid X) (block_tokens : Z) : M (hybrid X) (list cache_key) :=
  h ← gets id;
  keys ← require KeyError (memo h !! r);
  if block_tokens =? 0 then raise ZeroDivisionError
  else
    let q := hreq h r in
    let blocks := context_len q / block_tokens in
    if Z.of_nat (length keys) <? blocks then
      let extra := make_extra_hash (h_model h) (cache_salt q) (reuse_group q) in
      let keys := keys ++ local_keys (cache_identity q) block_tokens blocks extra keys in
      modify (put keys) ;;
      mret keys
    else mret keys.

Definition put_keys (r : Z) (keys : list cache_key) (h : hybrid X) : hybrid X :=
  h <| h_keys ::= <[r := keys]> |>.

Definition put_fine_keys (r : Z) (keys : list cache_key) (h : hybrid X) : hybrid X :=
  h <| h_fine_keys ::= <[r := keys]> |>.

(** [_input_keys] *)
Definition h_input_keys (r : Z) : M (hybrid X) (list cache_key) :=
  h ← gets id;
  (match h_keys h !! r with
   | Some _ => mret tt
   | None =>
       if h_block_size h =? 0 then raise ZeroDivisionError
       else
         let q := hreq h r in
         keys ← h_build_keys (slice_to (prefill_len q / h_block_size h) (default [] (hash_ids q))) r;
         modify (put_keys r (SharedKey <$> keys))
   end) ;;
  extend_context_keys r h_keys (put_keys r) (h_block_size h).

(** [_fine_input_keys] of a request with trace hashes *)
Definition fine_input_keys (r : Z) (hashes : list hash_id) : M (hybrid X) (list cache_key) :=
  h ← gets id;
  let q := hreq h r in
  trace_size ← require TypeError (trace_block_size q);
  (match h_fine_keys h !! r with
   | Some _ => mret tt
   | None =>
       if trace_size =? 0 then raise ZeroDivisionError
       else
         keys ← h_build_keys (slice_to (prefill_len q / trace_size) hashes) r;
         modify (put_fine_keys r (SharedKey <$> keys))
   end) ;;
  extend_context_keys r h_fine_keys (put_fine_keys r) trace_size.

(** [_coarse_slot_key] and [_fine_slot_key]: the two differ in the keys and in the
    width [size] of a key *)
Definition sized_slot_key (size group_id block_tokens index : Z) (keys : list cache_key) :
    M (hybrid X) (option slot_key) :=
  if size =? 0 then raise ZeroDivisionError
  else
    let containing := ((index + 1) * block_tokens - 1) / size in
    if Z.of_nat (length keys) <=? containing then mret None
    else
      key ← require IndexError (list_at containing keys);
      if (block_tokens =? 0) || (size / block_tokens =? 0) then raise ZeroDivisionError
      else mret (Some (group_id, key, index mod (size / block_tokens))).

(** [_slot_key], also the [key_for] of [_slot_key_function]: the latter keeps the
    trace keys it asked for first, which [fine_input_keys] remembers anyway *)
Definition h_slot_key (r : Z) (s : GroupSpec) (index : Z) (keys : list cache_key) :
    M (hybrid X) (option slot_key) :=
  h ← gets id;
  let bs := h_block_size h in
  match trace_hash_ids (hreq h r) with
  | Some hashes =>
      if sp_block_tokens s <? bs then
        fine ← fine_input_keys r hashes;
        size ← require TypeError (trace_block_size (hreq h r));
        sized_slot_key size (sp_group_id s) (sp_block_tokens s) index fine
      else sized_slot_key bs (sp_group_id s) (sp_block_tokens s) index keys
  | None => sized_slot_key bs (sp_group_id s) (sp_block_tokens s) index keys
  end.

(** ** Reuse plans *)

(** [self.cache.get(key)] *)
Definition cache_get (key : option slot_key) (h : hybrid X) : option slot := key ≫= (h_cache h !!.).

(** [[(index, get(key_for(spec, index))) for index in indices]] for the [get] of
    the prefix map or of an external store *)
Fixpoint page_hits {P} (get : option slot_key → M (hybrid X) (option P)) (r : Z) (s : GroupSpec)
    (keys : list cache_key) (indices : list Z) : M (hybrid X) (list (Z * option P)) :=
  match indices with
  | [] => mret []
  | index :: indices =>
      key ← h_slot_key r s index keys;
      page ← get key;
      rest ← page_hits get r s keys indices;
      mret ((index, page) :: rest)
  end.

(** [pairs], unless a page is missing *)
Definition all_present {P} (pairs : list (Z * option P)) : option (list (Z * P)) :=
  mapM (λ x, (λ p, (x.1, p)) <$> x.2) pairs.

(** [pairs[:-1] if spec.eagle else pairs] *)
Definition drop_eagle {P} (s : GroupSpec) (pairs : list P) : list P :=
  if sp_eagle s =? 0 then pairs else removelast pairs.

(** The pages of a group that resuming at [blocks] logical blocks needs *)
Definition needed_pages (bs start blocks : Z) (s : GroupSpec) : list Z :=
  if is_window s then
    let stop := blocks * bs / sp_block_tokens s + sp_eagle s in
    zrange (Z.max 0 (stop - sp_need s)) stop
  else zrange start blocks.

(** [for spec in self.groups: ... else]: the hits of every group, unless one group
    rejects the boundary.  [skip] is the group whose pages were found already. *)
Fixpoint boundary_hits {P} (get : option slot_key → M (hybrid X) (option P)) (r : Z)
    (skip : option Z) (keys : list cache_key) (bs start blocks : Z) (specs : list GroupSpec) :
    M (hybrid X) (option (list (option (Z * list (Z * P))))) :=
  match specs with
  | [] => mret (Some [])
  | s :: specs =>
      if bool_decide (skip = Some (sp_group_id s)) then
        rest ← boundary_hits get r skip keys bs start blocks specs;
        mret (cons None <$> rest)
      else
        pairs ← page_hits get r s keys (needed_pages bs start blocks s);
        match all_present pairs with
        | None => mret None
        | Some pairs =>
            rest ← boundary_hits get r skip keys bs start blocks specs;
            mret (cons (Some (sp_group_id s, drop_eagle s pairs)) <$> rest)
        end
  end.

(** The longest run of full pages in the prefix map *)
Fixpoint full_run (h : hybrid X) (keys : list cache_key) : list slot :=
  match keys with
  | [] => []
  | key :: keys =>
      match h_cache h !! (sp_group_id (h_full h), key, 0) with
      | None => []
      | Some b => b :: full_run h keys
      end
  end.

(** [for blocks in range(contiguous, 0, -1)], over the candidates left *)
Fixpoint longest_boundary (r : Z) (keys : list cache_key) (found : list slot) (candidates : list Z) :
    M (hybrid X) (Z * list (Z * list (Z * slot))) :=
  match candidates with
  | [] => mret (0, [])
  | blocks :: candidates =>
      h ← gets id;
      hits ← boundary_hits (λ key, gets (cache_get key)) r (Some (sp_group_id (h_full h))) keys
        (h_block_size h) 0 blocks (h_specs h);
      match hits with
      | None => longest_boundary r keys found candidates
      | Some hits =>
          let pairs := zip (zrange 0 blocks) (take (Z.to_nat blocks) found) in
          let full_hit := (sp_group_id (h_full h), drop_eagle (h_full h) pairs) in
          mret (blocks * h_block_size h, default full_hit <$> hits)
      end
  end.

(** [_plan_reuse] *)
Definition fresh_plan (r : Z) : M (hybrid X) HybridReusePlan :=
  keys ← h_input_keys r;
  h ← gets id;
  let q := hreq h r in
  let bs := h_block_size h in
  if bs =? 0 then raise ZeroDivisionError
  else
    let maximum := Z.min (Z.of_nat (length keys)) (Z.max 0 ((context_len q - 1) / bs)) in
    let found := full_run h (slice_to maximum keys) in
    let contiguous := Z.of_nat (length found) in
    '(matched, hits) ← longest_boundary r keys found (reverse (zrange 1 (contiguous + 1)));
    when (matched <? contiguous * bs)
      (set_hreq r (λ q, q <| shared_prefix_boundaries := [contiguous * bs] |>)) ;;
    let full_hits :=
      default [] (snd <$> head (filter (λ x, x.1 = sp_group_id (h_full h)) hits)) in
    mret (mkHybridPlan r keys (prefill_len q / bs) (num_logical_token_blocks q)
      (match hash_ids q with None | Some [] => false | Some _ => true end)
      matched (Z.max 0 (prefill_len q - matched)) full_hits.*2 hits).

(** [plan_reuse] *)
Definition h_plan_reuse (r : Z) : M (hybrid X) HybridReusePlan :=
  h ← gets id;
  let q := hreq h r in
  let state := (context_len q, num_logical_token_blocks q, h_cache_version h,
                Z.of_nat (size (h_cache h))) in
  let fill :=
    plan ← fresh_plan r;
    modify (λ h, h <| h_plans ::= <[r := (state, plan)]> |>) ;;
    mret plan in
  match h_plans h !! r with
  | Some (memo, plan) => if bool_decide (memo = state) then mret plan else fill
  | None => fill
  end.

Definition h_forget_request (r : Z) : M (hybrid X) unit :=
  modify (λ h, h <| h_keys ::= delete r |> <| h_fine_keys ::= delete r |> <| h_plans ::= delete r |>).
End Keys.

(** ** Page tables *)

Section Tables.
Context {X : Type}.

(** [self.tables[req.id][gid]] *)
Definition get_table (r gid : Z) : M (hybrid X) page_table :=
  h ← gets id;
  tables ← require KeyError (h_tables h !! r);
  require KeyError (dict_get gid tables).

(** Assignments to that table *)
Definition edit_table (r gid : Z) (f : page_table → page_table) : M (hybrid X) unit :=
  modify (λ h, h <| h_tables ::= alter
    (fmap (λ t, if t.1 =? gid then (t.1, f t.2) else t)) r |>).

(** [self._spans[req.id][position]] *)
Definition get_span (r : Z) (position : nat) : M (hybrid X) (option (Z * Z)) :=
  h ← gets id;
  spans ← require KeyError (h_spans h !! r);
  require IndexError (spans !! position).

Definition set_span (r : Z) (position : nat) (span : option (Z * Z)) : M (hybrid X) unit :=
  modify (λ h, h <| h_spans ::= alter (<[position := span]>) r |>).

(** [self._committed.pop(req.id, None)] *)
Definition drop_committed (r : Z) : M (hybrid X) unit :=
  modify (λ h, h <| h_committed ::= delete r |>).

(** [_span] *)
Definition table_span (t : page_table) : option (Z * Z) :=
  match t.*1 with
  | [] => Some (0, 0)
  | first :: _ =>
      let top := first + Z.of_nat (length t) in
      if bool_decide (t.*1 = zrange first top) then Some (first, top) else None
  end.

(** [_window_spans] *)
Definition window_spans (specs : list GroupSpec) (tables : list (Z * page_table)) :
    list (option (Z * Z)) :=
  (λ s, if is_window s then table_span (default [] (dict_get (sp_group_id s) tables)) else None) <$> specs.

Definition refresh_spans (r : Z) : M (hybrid X) unit :=
  h ← gets id;
  tables ← require KeyError (h_tables h !! r);
  modify (λ h, h <| h_spans ::= <[r := window_spans (h_specs h) tables]> |>).

(** [[table.pop(index) for index in indices]] *)
Fixpoint pop_pages (r gid : Z) (indices : list Z) : M (hybrid X) (list slot) :=
  match indices with
  | [] => mret []
  | index :: indices =>
      t ← get_table r gid;
      b ← require KeyError (dict_get index t);
      edit_table r gid (dict_pop index) ;;
      rest ← pop_pages r gid indices;
      mret (b :: rest)
  end.

(** The first page of a window at [computed] tokens. *)
Definition window_low (computed history bt : Z) : Z :=
  if history <? computed then (computed - history) / bt else 0.

Definition pages_for (tokens bt : Z) : Z := (tokens + bt - 1) / bt.

Definition slots_end (r tokens lookahead : Z) (h : hybrid X) : Z :=
  Z.min (lay_max_model_len (h_layout h)) (num_computed_tokens (hreq h r) + tokens + lookahead).

(** The missing indices of a window *)
Definition missing_pages (t : page_table) (low high : Z) : list Z :=
  filter (λ i, dict_has i t = false) (zrange low high).

(** The first loop of [can_ensure_slots] *)
Fixpoint full_needs (r stop : Z) (gs : list (Z * Z)) : M (hybrid X) Z :=
  match gs with
  | [] => mret 0
  | (gid, bt) :: gs =>
      t ← get_table r gid;
      rest ← full_needs r stop gs;
      mret (Z.max 0 (pages_for stop bt - Z.of_nat (length t)) + rest)
  end.

Definition sole_owner (h : hybrid X) (b : slot) : Prop := ref_count (hblk h b) = 1.

#[global] Instance sole_owner_dec h b : Decision (sole_owner h b).
Proof. apply Z.eq_dec. Defined.

Definition count_sole (h : hybrid X) (bs : list slot) : Z :=
  Z.of_nat (length (filter (sole_owner h) bs)).

(** The second loop: [(needed, reclaimable)] *)
Fixpoint window_needs (r computed stop : Z) (ws : list (nat * Z * Z * Z)) : M (hybrid X) (Z * Z) :=
  match ws with
  | [] => mret (0, 0)
  | (position, gid, bt, history) :: ws =>
      t ← get_table r gid;
      h ← gets id;
      let high := pages_for stop bt in
      let low := window_low computed history bt in
      span ← get_span r position;
      '(needed, old) ←
        (match span with
         | None =>
             mret (Z.of_nat (length (missing_pages t low high)), (filter (λ x, x.1 < low) t).*2)
         | Some (first, top) =>
             let overlap := Z.min high top - Z.max low first in
             old ← mapM (λ i, require KeyError (dict_get i t)) (zrange first (Z.min low top));
             mret (if low <? high then high - low - Z.max 0 overlap else 0, old)
         end);
      '(needed', reclaimable') ← window_needs r computed stop ws;
      mret (needed + needed', count_sole h old + reclaimable')
  end.

Definition h_can_ensure_slots (r tokens lookahead : Z) : M (hybrid X) bool :=
  h ← gets id;
  let stop := slots_end r tokens lookahead h in
  full ← full_needs r stop (full_growth h);
  '(needed, reclaimable) ←
    window_needs r (num_computed_tokens (hreq h r)) stop (window_growth h);
  mret (full + needed <=? h_num_free_blocks h + reclaimable).

(** Release of the pages that fell out of one window *)
Definition reclaim_window (r computed : Z) (w : nat * Z * Z * Z) : M (hybrid X) unit :=
  let '(position, gid, bt, history) := w in
  t ← get_table r gid;
  span ← get_span r position;
  let low := window_low computed history bt in
  match span with
  | None =>
      match filter (λ i, i < low) (reverse t.*1) with
      | [] => mret tt
      | skipped => bs ← pop_pages r gid skipped; release_many bs
      end
  | Some (first, top) =>
      let cut := Z.min low top in
      if first <? cut then
        bs ← pop_pages r gid (reverse (zrange first cut));
        release_many bs ;;
        set_span r position (Some (cut, top))
      else mret tt
  end.

(** Allocate the pages [indices] of a table *)
Definition grow_table (r gid : Z) (indices : list Z) : M (hybrid X) unit :=
  bs ← allocate_many (Z.of_nat (length indices));
  edit_table r gid (dict_update (zip indices bs)).

(** Growth of a window whose pages may have gaps *)
Definition grow_scattered (r computed : Z) (position : nat) (gid bt : Z) (missing : list Z) :
    M (hybrid X) unit :=
  match missing with
  | [] => mret tt
  | first_missing :: _ =>
      grow_table r gid missing ;;
      when (first_missing * bt <? computed) (drop_committed r)
  end ;;
  t ← get_table r gid;
  set_span r position (table_span t).

(** Growth of one group *)
Definition grow_group (r computed stop : Z) (ps : nat * GroupSpec) : M (hybrid X) unit :=
  let '(position, s) := ps in
  let gid := sp_group_id s in
  let bt := sp_block_tokens s in
  t ← get_table r gid;
  let high := pages_for stop bt in
  if negb (is_window s) then
    let len := Z.of_nat (length t) in
    if len <? high then grow_table r gid (zrange len high) else mret tt
  else
    let low := window_low computed (sp_window_tokens s - 1) bt in
    span ← get_span r position;
    match span with
    | Some (first, top) =>
        if (first =? top) || (first =? low) then
          let start := if first =? top then low else Z.max low top in
          if start <? high then
            grow_table r gid (zrange start high) ;;
            set_span r position (Some (if first =? top then low else first, high)) ;;
            when (start * bt <? computed) (drop_committed r)
          else mret tt
        else grow_scattered r computed position gid bt (missing_pages t low high)
    | None => grow_scattered r computed position gid bt (missing_pages t low high)
    end.

(** [ensure_slots] *)
Definition h_ensure_slots (r tokens lookahead : Z) : M (hybrid X) unit :=
  h ← gets id;
  let computed := num_computed_tokens (hreq h r) in
  let stop := slots_end r tokens lookahead h in
  for_ (window_growth h) (reclaim_window r computed) ;;
  for_ (imap pair (h_specs h)) (grow_group r computed stop).

Definition h_can_append_slot (r : Z) : M (hybrid X) bool :=
  h ← gets id;
  h_can_ensure_slots r 1 (lay_speculative_tokens (h_layout h)).

Definition h_append_slot (r : Z) : M (hybrid X) unit :=
  h ← gets id;
  h_ensure_slots r 1 (lay_speculative_tokens (h_layout h)).

(** [release_request_blocks] *)
Definition h_release_request_blocks (r : Z) : M (hybrid X) unit :=
  h ← gets id;
  let tables := h_tables h !! r in
  modify (λ h, h <| h_tables ::= delete r |>) ;;
  for_ (default [] tables) (λ t, release_many (reverse t.2.*2)) ;;
  when (bool_decide (is_Some tables)) (set_hreq r (λ q, q <| physical_token_blocks := [] |>)) ;;
  modify (λ h, h <| h_requests ::= (.∖ {[r]}) |> <| h_cached_progress ::= delete r |>
    <| h_keys ::= delete r |> <| h_fine_keys ::= delete r |> <| h_plans ::= delete r |>
    <| h_committed ::= delete r |> <| h_spans ::= delete r |>).

(** [remaining_admission_slots] *)
Definition required_slots (s : GroupSpec) (tokens : Z) : Z :=
  let required := cdiv tokens (sp_block_tokens s) in
  if is_window s then Z.min required (sp_max_request_slots s) else required.

Fixpoint admission_slots (r tokens : Z) (specs : list GroupSpec) : M (hybrid X) Z :=
  match specs with
  | [] => mret 0
  | s :: specs =>
      t ← get_table r (sp_group_id s);
      rest ← admission_slots r tokens specs;
      mret (Z.max 0 (required_slots s tokens - (foldr Z.max (-1) t.*1 + 1)) + rest)
  end.

Definition h_remaining_admission_slots (r : Z) : M (hybrid X) Z :=
  h ← gets id;
  match h_tables h !! r with
  | None => mret 0
  | Some _ =>
      admission_slots r (Z.min (context_len (hreq h r)) (lay_max_model_len (h_layout h))) (h_specs h)
  end.

(** [validate_conservation] *)
Definition all_table_slots (h : hybrid X) : list slot :=
  (map_to_list (h_tables h)).*2 ≫= λ tables, tables ≫= λ t, t.2.*2.

(** [references.get(slot, 0)] *)
Definition slot_references (h : hybrid X) (b : slot) : Z :=
  default 0 (h_transfer h !! b) + occ b (all_table_slots h).

Definition check_slot (h : hybrid X) (b : slot) : bool :=
  let free := h_free_uncached h ++ h_free_cached h in
  (ref_count (hblk h b) =? slot_references h b) &&
  Bool.eqb (ref_count (hblk h b) =? 0) (bool_decide (b ∈ free)).

Definition check_spans (h : hybrid X) (r : Z) (spans : list (option (Z * Z))) : M (hybrid X) unit :=
  for_ (zip spans (h_specs h)) (λ x,
    match x.1 with
    | None => mret tt
    | Some (first, top) =>
        t ← get_table r (sp_group_id x.2);
        if bool_decide (t.*1 = zrange first top) then mret tt else raise SimulationStateError
    end).

Definition check_page (h : hybrid X) (key : slot_key) (b : slot) : bool :=
  cached (hblk h b) && bool_decide (block_hash (hblk h b) = Some key).

Definition check_cached (h : hybrid X) (x : slot_key * slot) : bool :=
  check_page h x.1 x.2 && forallb (check_page h x.1) (default [] (h_duplicates h !! x.1)).

Definition validate_conservation : M (hybrid X) bool :=
  h ← gets id;
  if negb (bool_decide (NoDup (h_free_uncached h ++ h_free_cached h))) then raise SimulationStateError
  else if negb (forallb (check_slot h) (seq 1 (Z.to_nat (h_num_slots h) - 1)))
  then raise SimulationStateError
  else
    for_ (map_to_list (h_spans h)) (λ x, check_spans h x.1 x.2) ;;
    if negb (forallb (check_cached h) (map_to_list (h_cache h))) then raise SimulationStateError
    else mret true.
End Tables.

(** ** Publication *)

Section Publish.
Context {X : Type} `{Digest}.
Variable publish_callbacks : list (CacheGroup → Z → slot → Z → M (hybrid X) unit).

(** [_publish]; false when the page's key is not known yet *)
Definition h_publish (r : Z) (s : GroupSpec) (index : Z) (b : slot) (keys : list cache_key) :
    M (hybrid X) bool :=
  key ← h_slot_key r s index keys;
  match key with
  | None => mret false
  | Some key =>
      h ← gets id;
      when (negb (bool_decide (block_hash (hblk h b) = Some key))) (h_evict b) ;;
      h ← gets id;
      let existing := h_cache h !! key in
      (match existing with
       | Some e => when (negb (bool_decide (e = b)))
           (modify (λ h, h <| h_duplicates ::= λ d, <[key := set_add b (default [] (d !! key))]> d |>))
       | None => mret tt
       end) ;;
      set_hblk b (λ o, o <| block_hash := Some key |> <| cached := true |> <| is_full := true |>) ;;
      when (bool_decide (existing = None))
        (modify (λ h, h <| h_cache ::= <[key := b]> |> <| h_cache_version ::= Z.succ |>)) ;;
      for_ publish_callbacks (λ callback, callback (sp_group s) index b r) ;;
      mret true
  end.

(** [_retained] *)
Definition in_tail (s : GroupSpec) (index boundary : Z) : bool :=
  let stop := boundary / sp_block_tokens s + sp_eagle s in
  (Z.max 0 (stop - sp_need s) <=? index) && (index <? stop).

Definition retained (interval : Z) (s : GroupSpec) (index computed : Z) (extra : list Z) : bool :=
  let boundaries :=
    if interval =? 0 then extra
    else
      let boundary := (index - sp_eagle s) * sp_block_tokens s / interval * interval + interval in
      if (0 <? boundary) && (boundary <=? computed) then extra ++ [boundary] else extra in
  existsb (in_tail s index) boundaries.

(** The indices of the retained tails from [lowest] on, in ascending order *)
Definition segment_ends (interval : Z) (s : GroupSpec) (lowest computed : Z) : list Z :=
  let first := Z.max 1 (- (- (lowest - sp_eagle s + 1) * sp_block_tokens s / interval)) in
  (λ k, k * interval) <$> zrange first (computed / interval + 1).

Definition retained_candidates (interval : Z) (s : GroupSpec) (lowest computed : Z) (extra : list Z) :
    list Z :=
  let boundaries :=
    if interval =? 0 then extra else extra ++ segment_ends interval s lowest computed in
  merge_sort Z.le (remove_dups (boundaries ≫= λ boundary,
    let stop := boundary / sp_block_tokens s + sp_eagle s in
    zrange (Z.max lowest (stop - sp_need s)) stop)).

(** [_window_threshold] *)
Definition lower_threshold (computed : Z) (t : threshold) (value : Z) : threshold :=
  match t with
  | Recheck => Recheck
  | NoNext => if computed <? value then NextAt value else NoNext
  | NextAt v => if (computed <? value) && (value <? v) then NextAt value else NextAt v
  end.

Definition threshold_values (interval computed : Z) (boundaries : list Z) (specs : list GroupSpec) :
    list Z :=
  let candidates :=
    if interval =? 0 then boundaries
    else
      let segment := computed / interval * interval in
      boundaries ++ [segment; segment + interval] in
  filter (λ s, is_window s = true) specs ≫= λ s,
    let extension := if sp_eagle s =? 0 then 0 else sp_block_tokens s in
    candidates ≫= λ boundary, [boundary; boundary + extension].

Definition window_threshold (computed : Z) (boundaries : list Z) (h : hybrid X) : threshold :=
  foldl (lower_threshold computed) NoNext
    (threshold_values (retention_interval (h_layout h)) computed boundaries (h_specs h)).

(** [not block.cached and (index + 1) * bt <= computed], then publish; true when the
    page is deferred *)
Definition visit_page (r : Z) (s : GroupSpec) (computed : Z) (keys : list cache_key) (x : Z * slot) :
    M (hybrid X) bool :=
  h ← gets id;
  if negb (cached (hblk h x.2)) && ((x.1 + 1) * sp_block_tokens s <=? computed) then
    ok ← h_publish r s x.1 x.2 keys;
    mret (negb ok)
  else mret false.

Fixpoint visit_pages (r : Z) (s : GroupSpec) (computed : Z) (keys : list cache_key)
    (pages : list (Z * slot)) : M (hybrid X) bool :=
  match pages with
  | [] => mret false
  | x :: pages =>
      now ← visit_page r s computed keys x;
      rest ← visit_pages r s computed keys pages;
      mret (now || rest)
  end.

(** The pages of a window table to visit *)
Definition window_candidates (h : hybrid X) (s : GroupSpec) (t : page_table) (computed : Z)
    (extra : list Z) : list (Z * slot) :=
  let interval := retention_interval (h_layout h) in
  if negb (tails_fit_segments h)
  then filter (λ x, retained interval s x.1 computed extra = true) t
  else
    match t with
    | [] => []
    | (lowest, _) :: _ =>
        omap (λ i, (λ b, (i, b)) <$> dict_get i t) (retained_candidates interval s lowest computed extra)
    end.

(** One group of [_publish_computed] *)
Definition publish_group (r computed : Z) (windows : bool) (keys : list cache_key) (extra : list Z)
    (s : GroupSpec) : M (hybrid X) bool :=
  t ← get_table r (sp_group_id s);
  if negb (is_window s) then
    let stop := Z.min (computed / sp_block_tokens s) (Z.of_nat (length keys)) in
    h ← gets id;
    start ← require KeyError (h_cached_progress h !! r);
    modify (λ h, h <| h_cached_progress ::= <[r := stop]> |>) ;;
    for_ (zrange start stop) (λ index,
      b ← require KeyError (dict_get index t);
      h ← gets id;
      when (negb (cached (hblk h b))) (h_publish r s index b keys ;; mret tt)) ;;
    mret false
  else if negb windows then mret false
  else
    h ← gets id;
    visit_pages r s computed keys (window_candidates h s t computed extra).

Fixpoint publish_groups (r computed : Z) (windows : bool) (keys : list cache_key) (extra : list Z)
    (specs : list GroupSpec) : M (hybrid X) bool :=
  match specs with
  | [] => mret false
  | s :: specs =>
      now ← publish_group r computed windows keys extra s;
      rest ← publish_groups r computed windows keys extra specs;
      mret (now || rest)
  end.

(** [all_boundaries] *)
Definition retention_boundaries (q : Request) (bs : Z) : list Z :=
  filter (.≠ 0) (shared_prefix_boundaries q ++ [Z.max 0 (prefill_len q - 1) / bs * bs]).

(** [_publish_computed] *)
Definition publish_computed (r computed : Z) (windows : bool) : M (hybrid X) threshold :=
  keys ← h_input_keys r;
  h ← gets id;
  let all := retention_boundaries (hreq h r) (h_block_size h) in
  let extra := filter (λ b, b <= computed) all in
  deferred ← publish_groups r computed windows keys extra (h_specs h);
  mret (if negb windows then Recheck
        else if deferred || negb (tails_fit_segments h) then Recheck
        else window_threshold computed all h).

(** Whether [cache_computed] looks at the window pages *)
Definition check_windows (entry : option ((Z * Z * list Z) * threshold)) (computed : Z)
    (shared : list Z) : bool :=
  match entry with
  | None => true
  | Some ((_, _, shared'), t) =>
      negb (bool_decide (shared' = shared)) ||
      match t with
      | Recheck => true
      | NextAt v => v <=? computed
      | NoNext => false
      end
  end.

Definition h_cache_computed (r : Z) : M (hybrid X) unit :=
  h ← gets id;
  match h_tables h !! r with
  | None => mret tt
  | Some _ =>
      let q := hreq h r in
      let computed := num_computed_tokens q in
      let shared := shared_prefix_boundaries q in
      let state := (computed, context_len q, shared) in
      let entry := h_committed h !! r in
      (if bool_decide (fst <$> entry = Some state) then mret tt
       else
         let windows := check_windows entry computed shared in
         t ← publish_computed r computed windows;
         modify (λ h, h <| h_committed ::=
           <[r := (state, if windows then t else default Recheck (snd <$> entry))]> |>)) ;;
      set_hreq r (λ q, q <| input_cache_committed := negb (is_prefill q) |>)
  end.

(** [commit_input_cache] *)
Definition h_commit_input_cache (r : Z) : M (hybrid X) unit := h_cache_computed r.

(** [free] *)
Definition h_free (r : Z) : M (hybrid X) unit :=
  h_cache_computed r ;; h_release_request_blocks r.
End Publish.

(** ** Admission *)

Section Admission.
Context {X : Type} `{Digest}.

(** [can_allocate] *)
Definition needed_slots (specs : list GroupSpec) (context hit : Z) : Z :=
  zsum ((λ s, Z.max 0 (required_slots s context - hit / sp_block_tokens s)) <$> specs).

Definition zero_ref_slots (h : hybrid X) (hits : list (Z * list (Z * slot))) : Z :=
  Z.of_nat (length (filter (λ b, ref_count (hblk h b) = 0) (hits ≫= λ x, x.2.*2))).

Definition h_watermark (h : hybrid X) (has_scheduled_requests : bool) : Z :=
  if has_scheduled_requests then h_watermark_blocks h else 0.

Definition h_can_allocate (r : Z) (has_scheduled_requests : bool) : M (hybrid X) bool :=
  plan ← h_plan_reuse r;
  h ← gets id;
  mret (needed_slots (h_specs h) (context_len (hreq h r)) (hp_hit_tokens plan) +
          h_watermark h has_scheduled_requests
        <=? h_num_free_blocks h - zero_ref_slots h (hp_group_hits plan)).

(** Install one cached page in a table *)
Definition install_page (r gid : Z) (x : Z * slot) : M (hybrid X) unit :=
  h_acquire x.2 ;;
  edit_table r gid (dict_set x.1 x.2).

(** The request after an admission *)
Definition admit_hybrid (bs : Z) (plan : HybridReusePlan) (q : Request) : Request :=
  let cached := Z.min (prefill_len q) (hp_hit_tokens plan) in
  q <| cached_prefill_tokens := cached |> <| cached_prefill_blocks := cached / bs |>
    <| gpu_cached_context_tokens := hp_hit_tokens plan |>
    <| effective_prefill_tokens := Some (hp_effective_prefill_tokens plan) |>
    <| reuse_hit_blocks := cached / bs |> <| reuse_miss_blocks := hp_reuse_miss_blocks plan |>
    <| input_cache_keys := hp_input_keys plan |> <| input_cache_committed := false |>.

(** [allocate] *)
Definition h_allocate (r : Z) : M (hybrid X) unit :=
  h ← gets id;
  if bool_decide (is_Some (h_tables h !! r)) then raise SimulationStateError
  else
    plan ← h_plan_reuse r;
    modify (λ h, h <| h_tables ::= <[r := (λ s, (sp_group_id s, [])) <$> h_specs h]> |>
      <| h_requests ::= ({[r]} ∪.) |>
      <| h_cached_progress ::= <[r := hp_hit_tokens plan / h_block_size h]> |>
      <| h_committed ::= delete r |>) ;;
    for_ (hp_group_hits plan) (λ x, for_ x.2 (install_page r x.1)) ;;
    refresh_spans r ;;
    set_hreq r (admit_hybrid (h_block_size h) plan).
End Admission.

(** ** External pages ([ExternalCacheMixin]) *)

Section External.
Context {X P : Type} `{Digest}.
(** [store.lookup] and [page.key] of an external store with pages [P] *)
Variable lookup_page : option slot_key → M (hybrid X) (option P).
Variable page_key : P → slot_key.

Abbreviation ext_hits := (list (Z * list (Z * P))).

(** [while contiguous < maximum and lookup(...) is not None] *)
Fixpoint external_run (full_id : Z) (keys : list cache_key) : M (hybrid X) Z :=
  match keys with
  | [] => mret 0
  | key :: keys =>
      page ← lookup_page (Some (full_id, key, 0));
      match page with
      | None => mret 0
      | Some _ => n ← external_run full_id keys; mret (n + 1)
      end
  end.

Fixpoint external_boundary (r local_tokens start : Z) (keys : list cache_key) (candidates : list Z) :
    M (hybrid X) (Z * ext_hits) :=
  match candidates with
  | [] => mret (local_tokens, [])
  | blocks :: candidates =>
      h ← gets id;
      hits ← boundary_hits lookup_page r None keys (h_block_size h) start blocks (h_specs h);
      match hits with
      | None => external_boundary r local_tokens start keys candidates
      | Some hits => mret (blocks * h_block_size h, omap (λ x, x) hits)
      end
  end.

(** [plan_external_reuse] *)
Definition plan_external_reuse (r local_tokens : Z) : M (hybrid X) (Z * ext_hits) :=
  keys ← h_input_keys r;
  h ← gets id;
  let bs := h_block_size h in
  if bs =? 0 then raise ZeroDivisionError
  else
    let start := local_tokens / bs in
    let maximum := Z.min (Z.of_nat (length keys)) (Z.max 0 ((context_len (hreq h r) - 1) / bs)) in
    n ← external_run (sp_group_id (h_full h)) (drop (Z.to_nat start) (slice_to maximum keys));
    external_boundary r local_tokens start keys (reverse (zrange (start + 1) (start + n + 1))).

(** The slots of the request's pages that an import replaces *)
Definition replaced_slots (tables : list (Z * page_table)) (hits : ext_hits) : list slot :=
  hits ≫= λ x, omap (λ p, dict_get x.1 tables ≫= dict_get p.1) x.2.

(** [external_import_slots] *)
Definition external_import_slots (r : Z) (hits : ext_hits) : M (hybrid X) Z :=
  h ← gets id;
  let tables := default [] (h_tables h !! r) in
  (if forallb (λ x, bool_decide (is_Some (dict_get x.1 tables)) || bool_decide (x.2 = [])) hits
   then mret tt else raise KeyError) ;;
  mret (Z.of_nat (length (hits ≫= snd)) - count_sole h (replaced_slots tables hits)).

(** The two loops of [allocate_external_destinations] *)
Definition drop_page (r gid : Z) (p : Z * P) : M (hybrid X) unit :=
  t ← get_table r gid;
  match dict_get p.1 t with
  | None => mret tt
  | Some b => edit_table r gid (dict_pop p.1) ;; release_one b
  end.

Fixpoint target_pages (r gid : Z) (pairs : list (Z * P)) : M (hybrid X) (list (Z * Z * P * slot)) :=
  match pairs with
  | [] => mret []
  | (index, page) :: pairs =>
      b ← allocate_one;
      edit_table r gid (dict_set index b) ;;
      rest ← target_pages r gid pairs;
      mret ((gid, index, page, b) :: rest)
  end.

Fixpoint target_groups (r : Z) (hits : ext_hits) : M (hybrid X) (list (Z * Z * P * slot)) :=
  match hits with
  | [] => mret []
  | (gid, pairs) :: hits =>
      get_table r gid ;;
      now ← target_pages r gid pairs;
      rest ← target_groups r hits;
      mret (now ++ rest)
  end.

Definition allocate_external_destinations (r : Z) (hits : ext_hits) :
    M (hybrid X) (list (Z * Z * P * slot)) :=
  needed ← external_import_slots r hits;
  h ← gets id;
  if h_num_free_blocks h <? needed then raise OutOfBlocksError
  else
    for_ hits (λ x, get_table r x.1 ;; for_ x.2 (drop_page r x.1)) ;;
    destinations ← target_groups r hits;
    drop_committed r ;;
    refresh_spans r ;;
    mret destinations.

(** One page of [finish_external_import] *)
Definition import_page (x : Z * Z * P * slot) : M (hybrid X) unit :=
  let key := page_key x.1.2 in
  let b := x.2 in
  h ← gets id;
  set_hblk b (λ o, o <| block_hash := Some key |> <| cached := true |> <| is_full := true |>) ;;
  match h_cache h !! key with
  | None => modify (λ h, h <| h_cache ::= <[key := b]> |>)
  | Some e => when (negb (bool_decide (e = b)))
      (modify (λ h, h <| h_duplicates ::= λ d, <[key := set_add b (default [] (d !! key))]> d |>))
  end.

Definition finish_external_import (r : Z) (destinations : list (Z * Z * P * slot)) (hit_tokens : Z) :
    M (hybrid X) unit :=
  for_ destinations import_page ;;
  modify (λ h, h <| h_cached_progress ::= <[r := hit_tokens / h_block_size h]> |>
    <| h_cache_version ::= Z.succ |>) ;;
  drop_committed r.

(** [can_allocate_external] *)
Definition h_can_allocate_external (r : Z) (plan : HybridReusePlan) (boundary : Z) (hits : ext_hits)
    (reserved_blocks : Z) (has_scheduled_requests : bool) : M (hybrid X) bool :=
  h ← gets id;
  let local := hp_group_hits plan in
  let destinations := Z.of_nat (length (hits ≫= snd)) in
  let reclaimed := Z.of_nat (length (filter (λ b, ref_count (hblk h b) = 0) (replaced_slots local hits))) in
  let future := needed_slots (h_specs h) (context_len (hreq h r)) boundary in
  let initial := zero_ref_slots h local + destinations - reclaimed in
  let watermark := h_watermark h has_scheduled_requests in
  let free := h_num_free_blocks h in
  mret ((initial + future + watermark <=? free) && (initial + watermark <=? free - reserved_blocks)).

(** [pin_transfer] *)
Definition pin_transfer (b : slot) : M (hybrid X) unit :=
  h_acquire b ;;
  modify (λ h, h <| h_transfer ::= λ t, <[b := default 0 (t !! b) + 1]> t |>).

(** [unpin_transfer] *)
Definition unpin_transfer (b : slot) : M (hybrid X) unit :=
  h ← gets id;
  let count := default 0 (h_transfer h !! b) in
  if count <=? 0 then raise SimulationStateError
  else
    modify (λ h, h <| h_transfer ::= if count =? 1 then delete b else <[b := count - 1]> |>) ;;
    release_one b.
End External.
