(* ===== verification/HybridInv.v ===== *)
(** * Invariant of the hybrid block manager

    [HInv limbo ext h]: a slot's reference count is the number of page-table
    entries, transfer references and references in [ext] (held by a running
    operation) that point to it; the free queue and [limbo] (slots an operation
    took out or is about to put back) are exactly the unreferenced slots; cached
    metadata and the prefix map agree.  The invariant of the page tables is in
    [HybridTables]. *)

From stdpp Require Import gmap list list_numbers.
From Stdlib Require Import ZArith Lia.
From S2P Require Import Prelude.
From S2P Require Import Block.
From S2P Require Import PrefixKeys.
From S2P Require Import PyFloat.
From S2P Require Import Request.
From S2P Require Import HybridLayout.
From S2P Require Import HybridState.
From S2P Require Import HybridManager.

Open Scope Z_scope.

Section Inv.
Context {X : Type}.
Implicit Types (h : hybrid X) (b : slot) (k : slot_key).

(** ** The invariant *)

(** A usable slot: not the null slot. *)
Definition usable h b : Prop := (0 < b < length (h_blocks h))%nat.

Definition free_slots h : list slot := h_free_uncached h ++ h_free_cached h.

Definition transfers h b : Z := default 0 (h_transfer h !! b).

Record cache_ok h : Prop := {
  co_cache k b : h_cache h !! k = Some b → usable h b ∧ block_hash (hblk h b) = Some k;
  co_copies k l : h_duplicates h !! k = Some l →
    NoDup l ∧ l ≠ [] ∧ (∃ b, h_cache h !! k = Some b ∧ b ∉ l) ∧
    ∀ b, b ∈ l → usable h b ∧ block_hash (hblk h b) = Some k;
  co_meta b : usable h b → cached (hblk h b) = bool_decide (is_Some (block_hash (hblk h b)));
}.

Record HInv (limbo ext : list slot) h : Prop := {
  hv_len : Z.of_nat (length (h_blocks h)) = h_num_slots h;
  hv_refs b : usable h b →
    ref_count (hblk h b) = occ b (all_table_slots h ++ ext) + transfers h b;
  hv_transfer b n : h_transfer h !! b = Some n → 0 < n ∧ usable h b;
  hv_held b : b ∈ all_table_slots h ++ ext → usable h b;
  hv_nodup : NoDup (free_slots h ++ limbo);
  hv_free b : b ∈ free_slots h ++ limbo ↔ usable h b ∧ ref_count (hblk h b) = 0;
  hv_cache : cache_ok h;
}.

(** What the operations on slots leave alone. *)
Record slot_frame h h' : Prop := {
  sf_layout : h_layout h' = h_layout h;
  sf_model : h_model h' = h_model h;
  sf_num_slots : h_num_slots h' = h_num_slots h;
  sf_watermark : h_watermark_blocks h' = h_watermark_blocks h;
  sf_specs : h_specs h' = h_specs h;
  sf_full : h_full h' = h_full h;
  sf_len : length (h_blocks h') = length (h_blocks h);
  sf_progress : h_cached_progress h' = h_cached_progress h;
  sf_tables : h_tables h' = h_tables h;
  sf_requests : h_requests h' = h_requests h;
  sf_keys : h_keys h' = h_keys h;
  sf_fine : h_fine_keys h' = h_fine_keys h;
  sf_transfer : h_transfer h' = h_transfer h;
  sf_plans : h_plans h' = h_plans h;
  sf_committed : h_committed h' = h_committed h;
  sf_spans : h_spans h' = h_spans h;
  sf_reqs : h_reqs h' = h_reqs h;
  sf_chains : h_chains h' = h_chains h;
  sf_ext : h_ext h' = h_ext h;
  (* the prefix map changes under a new version only *)
  sf_version : h_cache_version h <= h_cache_version h';
  sf_cache : h_cache_version h' = h_cache_version h → h_cache h' = h_cache h;
}.

#[global] Instance slot_frame_preorder : PreOrder slot_frame.
Proof.
  split; [by intros h; split|]. intros h1 h2 h3 F1 F2. destruct F1, F2. split; try congruence; [lia|].
  intros Hv. rewrite sf_cache1 by lia. apply sf_cache0. lia.
Qed.

Lemma frame_slots h h' : slot_frame h h' → all_table_slots h' = all_table_slots h.
Proof. intros F. unfold all_table_slots. by rewrite (sf_tables _ _ F). Qed.

Lemma frame_usable h h' b : slot_frame h h' → usable h' b ↔ usable h b.
Proof. intros F. unfold usable. by rewrite (sf_len _ _ F). Qed.

Lemma frame_req h h' r : slot_frame h h' → hreq h' r = hreq h r.
Proof. intros F. unfold hreq. by rewrite (sf_reqs _ _ F). Qed.

(** ** Blocks *)

Lemma hblk_alter h b b' f :
  usable h b →
  hblk (h <| h_blocks ::= alter f b |>) b' = if decide (b = b') then f (hblk h b) else hblk h b'.
Proof.
  intros [_ Hb]. unfold hblk. cbn. rewrite !list_lookup_total_alt.
  destruct (decide (b = b')) as [<-|Hne].
  - rewrite list_lookup_alter_eq. apply lookup_lt_is_Some_2 in Hb as [o Ho]. by rewrite Ho.
  - by rewrite list_lookup_alter_ne.
Qed.

Lemma usable_alter h b b' f : usable (h <| h_blocks ::= alter f b |>) b' ↔ usable h b'.
Proof. unfold usable. cbn. by rewrite length_alter. Qed.

Lemma frame_alter_block h b f : slot_frame h (h <| h_blocks ::= alter f b |>).
Proof. split; try done. cbn. by rewrite length_alter. Qed.

Lemma wp_set_hblk b f (Q : unit → hybrid X → Prop) E h :
  Q tt (h <| h_blocks ::= alter f b |>) → wp (set_hblk b f) Q E h.
Proof. done. Qed.

(** The facts of the invariant that do not mention metadata depend on the
    reference counts, the queue and the references only. *)
Lemma inv_intro L E L' E' h h' :
  HInv L E h → slot_frame h h' → cache_ok h' →
  (∀ b, usable h b → ref_count (hblk h' b) - ref_count (hblk h b) = occ b E' - occ b E) →
  (∀ b, b ∈ E' → usable h b) →
  NoDup (free_slots h' ++ L') →
  (∀ b, b ∈ free_slots h' ++ L' ↔ usable h b ∧ ref_count (hblk h' b) = 0) →
  HInv L' E' h'.
Proof.
  intros [] F Hc Hr HE Hnd Hfree. pose proof (frame_slots _ _ F) as Hs.
  assert (∀ b, usable h' b ↔ usable h b) as Hu by (intros; by apply frame_usable).
  split.
  - by rewrite (sf_len _ _ F), (sf_num_slots _ _ F).
  - intros b Hb. rewrite Hu in Hb. specialize (Hr b Hb). unfold transfers. rewrite (sf_transfer _ _ F), Hs.
    pose proof (hv_refs0 b Hb) as Hb'. rewrite occ_app in *. unfold transfers in *. lia.
  - intros b n. rewrite (sf_transfer _ _ F), Hu. apply hv_transfer0.
  - intros b. rewrite Hs, Hu, elem_of_app. intros [?|?]; [|by apply HE].
    apply hv_held0, elem_of_app. by left.
  - done.
  - intros b. by rewrite Hu.
  - done.
Qed.

(** Counters do not matter. *)
Definition bookkeeping h h' : Prop :=
  slot_frame h h' ∧ h_blocks h' = h_blocks h ∧ h_free_uncached h' = h_free_uncached h ∧
  h_free_cached h' = h_free_cached h ∧ h_cache h' = h_cache h ∧ h_duplicates h' = h_duplicates h.

Lemma cache_ok_same h h' :
  h_blocks h' = h_blocks h → h_cache h' = h_cache h → h_duplicates h' = h_duplicates h →
  cache_ok h → cache_ok h'.
Proof.
  intros Hb Hc Hd []. split; unfold usable, hblk in *; rewrite ?Hb, ?Hc, ?Hd; auto.
Qed.

Lemma inv_bookkeeping L E h h' : HInv L E h → bookkeeping h h' → HInv L E h'.
Proof.
  intros Hi (F & Hb & Hu & Hc & Hca & Hd). pose proof (cache_ok_same h h' Hb Hca Hd (hv_cache _ _ _ Hi)).
  destruct (Hi). assert (free_slots h' = free_slots h) as Hf by (unfold free_slots; by rewrite Hu, Hc).
  eapply inv_intro; [exact Hi|exact F|done|..].
  - intros b _. unfold hblk. rewrite Hb. lia.
  - intros b HbE. apply hv_held0, elem_of_app. by right.
  - by rewrite Hf.
  - intros b. rewrite Hf. unfold hblk. rewrite Hb. apply hv_free0.
Qed.

Lemma note_usage_spec h (Q : unit → hybrid X → Prop) E :
  (∀ h', bookkeeping h h' → Q tt h') → wp note_usage Q E h.
Proof. intros HQ. apply HQ. split; [split; done|done]. Qed.

(** ** Eviction *)

Record evicted b h h' : Prop := {
  ev_frame : slot_frame h h';
  ev_blocks : h_blocks h' = alter clear_cache_metadata b (h_blocks h);
  ev_uncached : h_free_uncached h' = h_free_uncached h;
  ev_cached : h_free_cached h' = h_free_cached h;
  ev_cache_ok : cache_ok h';
}.

Lemma evicted_blk b h h' b' :
  usable h b → evicted b h h' →
  hblk h' b' = if decide (b = b') then clear_cache_metadata (hblk h b) else hblk h b'.
Proof.
  intros Hb []. rewrite <- hblk_alter by done. unfold hblk. by rewrite ev_blocks0.
Qed.

Lemma evicted_ref b h h' b' :
  usable h b → evicted b h h' → ref_count (hblk h' b') = ref_count (hblk h b').
Proof. intros Hb He. rewrite (evicted_blk b h h') by done. by case_decide; subst. Qed.

Lemma evicted_inv L E b h h' : HInv L E h → usable h b → evicted b h h' → HInv L E h'.
Proof.
  intros Hi Hb He. destruct (Hi).
  assert (free_slots h' = free_slots h) as Hf
    by (unfold free_slots; by rewrite (ev_uncached _ _ _ He), (ev_cached _ _ _ He)).
  eapply inv_intro; [exact Hi|apply He|apply He|..].
  - intros b' _. rewrite (evicted_ref b h h') by done. lia.
  - intros b' HbE. apply hv_held0, elem_of_app. by right.
  - by rewrite Hf.
  - intros b'. rewrite Hf, (evicted_ref b h h') by done. apply hv_free0.
Qed.

(** The metadata part of an eviction: [cache'] and [dups'] drop [b]. *)
Lemma cache_ok_evict b h h' :
  usable h b → cache_ok h →
  h_blocks h' = alter clear_cache_metadata b (h_blocks h) →
  (∀ k b', h_cache h' !! k = Some b' →
     b' ≠ b ∧ (h_cache h !! k = Some b' ∨ ∃ l, h_duplicates h !! k = Some l ∧ b' ∈ l)) →
  (∀ k l', h_duplicates h' !! k = Some l' →
     NoDup l' ∧ l' ≠ [] ∧ (b ∉ l') ∧ (∃ b', h_cache h' !! k = Some b' ∧ b' ∉ l') ∧
     ∃ l, h_duplicates h !! k = Some l ∧ ∀ b', b' ∈ l' → b' ∈ l) →
  cache_ok h'.
Proof.
  intros Hb Hc Hbl Hcache Hdups.
  assert (∀ b', usable h' b' ↔ usable h b') as Hu
    by (intros; unfold usable; by rewrite Hbl, length_alter).
  assert (∀ b', hblk h' b' = if decide (b = b') then clear_cache_metadata (hblk h b) else hblk h b') as Hk.
  { intros b'. rewrite <- hblk_alter by done. unfold hblk. by rewrite Hbl. }
  assert (∀ k b', h_cache h !! k = Some b' ∨ (∃ l, h_duplicates h !! k = Some l ∧ b' ∈ l) →
    usable h b' ∧ block_hash (hblk h b') = Some k) as Hold.
  { intros k b' [Hl|(l & Hl & Hin)]; [by apply (co_cache _ Hc)|].
    by apply (co_copies _ Hc k l Hl). }
  split.
  - intros k b' [Hne Hor]%Hcache. rewrite Hu, Hk, decide_False by done. by apply Hold.
  - intros k l' (Hnd & Hne & Hbl' & Hex & l & Hl & Hsub)%Hdups. split; [done|]. split; [done|].
    split; [done|]. intros b' Hb'. rewrite Hu, Hk, decide_False by (intros ->; done).
    apply Hold. right. eauto.
  - intros b'. rewrite Hu, Hk. case_decide; [done|]. apply (co_meta _ Hc).
Qed.

Lemma h_evict_spec b h :
  usable h b → cache_ok h → wp (h_evict b) (λ _ h', evicted b h h') no_raise h.
Proof.
  intros Hb Hc. unfold h_evict. wp_steps. unid.
  destruct (block_hash (hblk h b)) as [key|] eqn:Hkey.
  2: { wp_steps. apply wp_set_hblk. split; try done; [apply frame_alter_block|].
       apply (cache_ok_evict b h); [done..| |].
       - intros k b' Hl. split; [|by left]. intros ->. apply (co_cache _ Hc) in Hl as [_ Hh]. congruence.
       - intros k l' Hl. destruct (co_copies _ Hc k l' Hl) as (H1 & H2 & H3 & H4).
         repeat split; try done; [|eauto]. intros [_ Hin]%H4. congruence. }
  set (copies := default [] (h_duplicates h !! key)).
  assert (∀ b', b' ∈ copies → ∃ l, h_duplicates h !! key = Some l ∧ b' ∈ l) as Hcop.
  { unfold copies. intros b'. destruct (h_duplicates h !! key) as [l|]; cbn; [eauto|set_solver]. }
  assert (NoDup copies) as Hnd.
  { unfold copies. destruct (h_duplicates h !! key) as [l|] eqn:Hl; cbn; [|constructor].
    by apply (co_copies _ Hc key l). }
  (* the map with the copies left, after the new entry of [key] *)
  assert (∀ cache' rest ev ver,
    (∀ k, k ≠ key → cache' !! k = h_cache h !! k) →
    (∀ b', cache' !! key = Some b' → b' ≠ b ∧ (h_cache h !! key = Some b' ∨ b' ∈ copies)) →
    (rest ≠ [] → ∃ b', cache' !! key = Some b' ∧ b' ∉ rest) →
    NoDup rest → b ∉ rest → (∀ b', b' ∈ rest → b' ∈ copies) →
    h_cache_version h < ver →
    evicted b h (h <| h_cache := cache' |>
      <| h_duplicates ::= match rest with [] => delete key | _ => <[key := rest]> end |>
      <| h_eviction_count := ev |> <| h_cache_version := ver |>
      <| h_blocks ::= alter clear_cache_metadata b |>)) as Hgen.
  { intros cache' rest ev ver Hoth Hnew Hhead Hndr Hbr Hsub Hver. split; try done.
    { split; try done; cbn; [by rewrite length_alter|lia|lia]. }
    apply (cache_ok_evict b h); [done..| |]; cbn [h_cache h_duplicates update_field].
    - intros k b' Hl. destruct (decide (k = key)) as [->|Hne].
      + destruct (Hnew b' Hl) as [? [?|?]]; [by auto|]. split; [done|]. right. by apply Hcop.
      + rewrite Hoth in Hl by done. split; [|by left]. intros ->.
        apply (co_cache _ Hc) in Hl as [_ Hh]. congruence.
    - intros k l' Hl. destruct (decide (k = key)) as [->|Hne].
      + assert (l' = rest ∧ rest ≠ []) as [-> Hrne].
        { destruct rest as [|x rest]; [by rewrite lookup_delete_eq in Hl|].
          rewrite lookup_insert_eq in Hl. by injection Hl as <-. }
        split; [done|]. split; [done|]. split; [done|]. split; [by apply Hhead|].
        destruct rest as [|x rest]; [done|]. destruct (Hcop x) as (l & Hl' & _); [apply Hsub; left|].
        exists l. split; [done|]. intros b' Hb'%Hsub. apply Hcop in Hb' as (l'' & ? & ?). congruence.
      + assert (h_duplicates h !! k = Some l') as Hl'.
        { destruct rest; [by rewrite lookup_delete_ne in Hl|by rewrite lookup_insert_ne in Hl]. }
        destruct (co_copies _ Hc k l' Hl') as (H1 & H2 & (b0 & H3 & H3') & H4).
        split; [done|]. split; [done|]. split; [intros [_ Hin]%H4; congruence|].
        split; [|by eauto]. exists b0. by rewrite Hoth. }
  case_bool_decide as Hown.
  - destruct copies as [|first rest] eqn:Hcp.
    + wp_steps. apply wp_set_hblk.
      apply (Hgen (delete key (h_cache h)) []); try done; cbn; [by intros; rewrite lookup_delete_ne| |set_solver|lia].
      intros b'. by rewrite lookup_delete_eq.
    + apply NoDup_cons in Hnd as [Hfr Hndr]. wp_steps. apply wp_set_hblk.
      assert (b ∉ first :: rest) as Hbn.
      { intros Hin. destruct (Hcop b Hin) as (l & Hl & Hbl).
        destruct (co_copies _ Hc key l Hl) as (_ & _ & (b0 & Hb0 & Hn) & _).
        rewrite Hown in Hb0. injection Hb0 as ->. done. }
      apply (Hgen (<[key := first]> (h_cache h)) rest); try done; cbn.
      * intros; by rewrite lookup_insert_ne.
      * intros b'. rewrite lookup_insert_eq. intros [= <-]. split; [set_solver|]. right. left.
      * intros _. exists first. by rewrite lookup_insert_eq.
      * set_solver.
      * intros; by right.
      * lia.
  - wp_steps. apply wp_set_hblk.
    apply (Hgen (h_cache h) (filter (.≠ b) copies)); try done; cbn.
    + intros b' Hl. split; [congruence|by left].
    + intros Hne. destruct (filter (.≠ b) copies) as [|x l] eqn:Hf; [done|].
      assert (x ∈ filter (.≠ b) copies) as [_ Hx]%list_elem_of_filter by (rewrite Hf; left).
      destruct (Hcop x Hx) as (l0 & Hl0 & _).
      destruct (co_copies _ Hc key l0 Hl0) as (_ & _ & (b0 & Hb0 & Hn) & _).
      exists b0. split; [done|]. rewrite <- Hf. intros [_ Hin]%list_elem_of_filter.
      apply Hcop in Hin as (? & ? & ?). congruence.
    + by apply NoDup_filter.
    + intros [? _]%list_elem_of_filter. done.
    + intros b' [_ ?]%list_elem_of_filter. done.
    + lia.
Qed.

(** ** Reference counts *)

(** Changing a count and the queue together. *)
Lemma cache_ok_ref b f h h' :
  usable h b → (∀ o, block_hash (f o) = block_hash o ∧ cached (f o) = cached o) →
  h_blocks h' = alter f b (h_blocks h) → h_cache h' = h_cache h → h_duplicates h' = h_duplicates h →
  cache_ok h → cache_ok h'.
Proof.
  intros Hb Hf Hbl Hc Hd [].
  assert (∀ b', usable h' b' ↔ usable h b') as Hu
    by (intros; unfold usable; by rewrite Hbl, length_alter).
  assert (∀ b', block_hash (hblk h' b') = block_hash (hblk h b') ∧
    cached (hblk h' b') = cached (hblk h b')) as Hk.
  { intros b'. assert (hblk h' b' = hblk (h <| h_blocks ::= alter f b |>) b') as ->
      by (unfold hblk; by rewrite Hbl). rewrite hblk_alter by done. case_decide; subst; [apply Hf|done]. }
  split.
  - intros k b'. rewrite Hc, Hu, (proj1 (Hk b')). apply co_cache0.
  - intros k l. rewrite Hc, Hd. intros (H1 & H2 & H3 & H4)%co_copies0. split_and!; try done.
    intros b' Hb'. rewrite Hu, (proj1 (Hk b')). by apply H4.
  - intros b'. rewrite Hu, (proj1 (Hk b')), (proj2 (Hk b')). apply co_meta0.
Qed.

Lemma remove_first_perm b l l' : remove_first b l = Some l' → l ≡ₚ b :: l'.
Proof.
  revert l'. induction l as [|x l IH]; intros l'; cbn; [done|]. case_decide; [by intros [= ->]; subst|].
  destruct (remove_first b l) as [k|]; [|done]. intros [= <-]. rewrite (IH k) by done.
  apply Permutation_swap.
Qed.

Lemma remove_first_Some b l : b ∈ l → ∃ l', remove_first b l = Some l'.
Proof.
  induction l as [|x l IH]; [by intros ?%elem_of_nil|]. rewrite elem_of_cons. cbn [remove_first].
  intros Hin. case_decide; [eauto|]. destruct IH as [k ->]; [naive_solver|]. eauto.
Qed.

Lemma filter_ne_perm b (l : list slot) : b ∈ l → NoDup l → l ≡ₚ b :: filter (.≠ b) l.
Proof.
  induction l as [|x l IH]; [by intros ?%elem_of_nil|].
  rewrite elem_of_cons. intros Hin [Hx Hnd]%NoDup_cons. destruct (decide (x = b)) as [->|Hne].
  - rewrite filter_cons_False by naive_solver. rewrite filter_all; [done|].
    apply Forall_forall. intros y Hy ->. done.
  - rewrite filter_cons_True by done. rewrite IH at 1 by naive_solver. apply Permutation_swap.
Qed.

(** An increment of [b] whose slot leaves the queue when it was unreferenced. *)
Lemma inv_increment L E b h h' :
  HInv L E h → usable h b → b ∉ L → slot_frame h h' →
  h_blocks h' = alter (λ o, o <| ref_count ::= Z.succ |>) b (h_blocks h) →
  h_cache h' = h_cache h → h_duplicates h' = h_duplicates h →
  (if decide (ref_count (hblk h b) = 0) then free_slots h ≡ₚ b :: free_slots h'
   else free_slots h' = free_slots h) →
  HInv L (b :: E) h'.
Proof.
  intros Hi Hb HbL F Hbl Hc Hd Hfree. destruct (Hi).
  assert (∀ b', ref_count (hblk h' b') = ref_count (hblk h b') + if decide (b' = b) then 1 else 0) as Hr.
  { intros b'. assert (hblk h' b' = hblk (h <| h_blocks ::= alter (λ o, o <| ref_count ::= Z.succ |>) b |>) b')
      as -> by (unfold hblk; by rewrite Hbl). rewrite hblk_alter by done.
    destruct (decide (b = b')) as [<-|]; [rewrite decide_True by done|rewrite decide_False by done];
      cbn; lia. }
  assert (0 <= ref_count (hblk h b)) as Hpos.
  { rewrite hv_refs0 by done. pose proof (occ_nonneg b (all_table_slots h ++ E)).
    unfold transfers. destruct (h_transfer h !! b) as [n|] eqn:Hn; cbn; [apply hv_transfer0 in Hn; lia|lia]. }
  eapply inv_intro; [exact Hi|exact F| |..].
  - eapply (cache_ok_ref b (λ o, o <| ref_count ::= Z.succ |>) h); try done.
  - intros b' _. rewrite Hr, occ_cons. case_decide; lia.
  - intros b'. rewrite elem_of_cons. intros [->|HE]; [done|]. apply hv_held0, elem_of_app. by right.
  - destruct (decide (ref_count (hblk h b) = 0)).
    + rewrite Hfree in hv_nodup0. by apply NoDup_cons in hv_nodup0 as [_ ?].
    + by rewrite Hfree.
  - intros b'. rewrite Hr. specialize (hv_free0 b'). destruct (decide (ref_count (hblk h b) = 0)) as [H0|H0].
    + rewrite Hfree in hv_free0. cbn in hv_free0. rewrite elem_of_cons in hv_free0.
      destruct (decide (b' = b)) as [->|Hne].
      * split; [|lia]. intros Hin. rewrite Hfree in hv_nodup0. by apply NoDup_cons in hv_nodup0 as [? _].
      * rewrite Z.add_0_r, <- hv_free0. split; [by right|]. by intros [?|?].
    + rewrite Hfree, hv_free0. destruct (decide (b' = b)) as [->|Hne]; [|by rewrite Z.add_0_r].
      split; [intros [_ ?]; lia|intros [_ ?]; lia].
Qed.

Lemma h_acquire_spec L E b h :
  HInv L E h → usable h b → b ∉ L →
  wp (h_acquire b) (λ _ h', HInv L (b :: E) h' ∧ slot_frame h h' ∧ h_cache h' = h_cache h ∧
    (∀ b', block_hash (hblk h' b') = block_hash (hblk h b'))) no_raise h.
Proof.
  intros Hi Hb HbL. unfold h_acquire. wp_steps. unid.
  (* what remains once the queue is [h1] *)
  assert (∀ h1, slot_frame h h1 → h_blocks h1 = h_blocks h → h_cache h1 = h_cache h →
    h_duplicates h1 = h_duplicates h →
    (if decide (ref_count (hblk h b) = 0) then free_slots h ≡ₚ b :: free_slots h1
     else free_slots h1 = free_slots h) →
    wp (set_hblk b (λ o, o <| ref_count ::= Z.succ |>) ;; note_usage)
      (λ _ h', HInv L (b :: E) h' ∧ slot_frame h h' ∧ h_cache h' = h_cache h ∧
        (∀ b', block_hash (hblk h' b') = block_hash (hblk h b'))) no_raise h1) as Hrest.
  { intros h1 F Hbl Hc Hd Hfree. wp_step. apply wp_set_hblk.
    set (h2 := h1 <| h_blocks ::= alter (λ o, o <| ref_count ::= Z.succ |>) b |>).
    assert (usable h1 b) as Hb1 by by rewrite (frame_usable h).
    assert (HInv L (b :: E) h2) as Hi2.
    { eapply inv_increment; try done; [exact (transitivity F (frame_alter_block h1 b _))|].
      unfold h2. cbn. by rewrite Hbl. }
    apply note_usage_spec. intros h' Hbk. split; [by eapply inv_bookkeeping|].
    destruct Hbk as (F' & Hbl' & _ & _ & Hc' & _).
    split; [exact (transitivity F (transitivity (frame_alter_block h1 b _) F'))|].
    split; [by rewrite Hc'|]. intros b'. unfold hblk at 1. rewrite Hbl'. fold (hblk h2 b'). unfold h2.
    rewrite hblk_alter by done. unfold hblk. rewrite Hbl. by destruct (decide (b = b')) as [<-|]. }
  destruct (ref_count (hblk h b) =? 0) eqn:H0.
  - apply Z.eqb_eq in H0. destruct (Hi).
    assert (b ∈ free_slots h ++ L) as Hin by by apply hv_free0.
    apply elem_of_app in Hin as [Hin|?]; [|done].
    pose proof (proj1 (NoDup_app _ _) hv_nodup0) as (Hnd & _ & _).
    unfold free_slots in *.
    pose proof (proj1 (NoDup_app _ _) Hnd) as (Hndu & Hdis & Hndc).
    case_bool_decide as Hca.
    + wp_step. apply Hrest; try done. rewrite decide_True by done. cbn.
      rewrite (filter_ne_perm b (h_free_cached h)) at 1 by done. by rewrite <- Permutation_middle.
    + apply elem_of_app in Hin as [Hun|?]; [|done].
      destruct (remove_first_Some b _ Hun) as [stack Hst]. rewrite Hst. wp_step. apply Hrest; try done.
      rewrite decide_True by done. cbn. by rewrite (remove_first_perm b _ _ Hst).
  - apply Z.eqb_neq in H0. wp_step. apply Hrest; try done. by rewrite decide_False.
Qed.

Lemma inv_perm L L' E E' h : L ≡ₚ L' → E ≡ₚ E' → HInv L E h → HInv L' E' h.
Proof.
  intros HL HE []. split; try done.
  - intros b Hb. rewrite hv_refs0 by done. by rewrite HE.
  - intros b. rewrite <- HE. apply hv_held0.
  - by rewrite <- HL.
  - intros b. rewrite <- HL. apply hv_free0.
Qed.

(** ** Allocation *)

(** A slot got a fresh reference and its old contents are forgotten. *)
Record fresh_slots (bs : list slot) h h' : Prop := {
  fs_frame : slot_frame h h';
  fs_fresh b : b ∈ bs → block_hash (hblk h' b) = None ∧ ref_count (hblk h' b) = 1;
  fs_other b : usable h b → b ∉ bs → hblk h' b = hblk h b;
}.

Lemma inv_take L E b h :
  HInv (b :: L) E h → usable h b → HInv L (b :: E) (h <| h_blocks ::= alter (λ o, o <| ref_count := 1 |>) b |>).
Proof.
  intros Hi Hb. destruct (Hi).
  assert (ref_count (hblk h b) = 0) as H0 by (apply hv_free0; set_solver).
  assert (b ∉ free_slots h ++ L) as Hn.
  { rewrite <- Permutation_middle in hv_nodup0. by apply NoDup_cons in hv_nodup0 as [? _]. }
  eapply inv_intro; [exact Hi|apply frame_alter_block| |..].
  - eapply (cache_ok_ref b (λ o, o <| ref_count := 1 |>) h); try done.
  - intros b' _. rewrite hblk_alter, occ_cons by done. destruct (decide (b = b')) as [<-|Hne].
    + rewrite decide_True by done. cbn. lia.
    + rewrite decide_False by done. lia.
  - intros b'. rewrite elem_of_cons. intros [->|HE]; [done|]. apply hv_held0, elem_of_app. by right.
  - rewrite <- Permutation_middle in hv_nodup0. by apply NoDup_cons in hv_nodup0 as [_ ?].
  - intros b'. rewrite hblk_alter by done. specialize (hv_free0 b').
    rewrite <- Permutation_middle, elem_of_cons in hv_free0. unfold free_slots in *. cbn.
    destruct (decide (b = b')) as [<-|Hne]; [split; [done|cbn; lia]|].
    rewrite <- hv_free0. split; [by right|]. by intros [?|?].
Qed.

Lemma take_slot_spec L E b h :
  HInv (b :: L) E h →
  wp (take_slot b) (λ _ h', HInv L (b :: E) h' ∧ fresh_slots [b] h h' ∧
    free_slots h' = free_slots h) no_raise h.
Proof.
  intros Hi. assert (usable h b ∧ ref_count (hblk h b) = 0) as [Hb H0]
    by (apply (hv_free _ _ _ Hi); set_solver).
  unfold take_slot. wp_steps. unid. rewrite H0. cbn [Z.eqb negb].
  (* once the metadata is gone *)
  assert (∀ h1, HInv (b :: L) E h1 → slot_frame h h1 → block_hash (hblk h1 b) = None →
    (∀ b', b' ≠ b → hblk h1 b' = hblk h b') → free_slots h1 = free_slots h →
    wp (set_hblk b (λ o, o <| ref_count := 1 |>)) (λ _ h', HInv L (b :: E) h' ∧ fresh_slots [b] h h' ∧
      free_slots h' = free_slots h) no_raise h1) as Hrest.
  { intros h1 Hi1 F Hh Hoth Hf. assert (usable h1 b) as Hb1 by by rewrite (frame_usable h).
    apply wp_set_hblk. split; [by apply inv_take|]. split; [|done]. split.
    - exact (transitivity F (frame_alter_block h1 b _)).
    - intros b' ->%list_elem_of_singleton. rewrite hblk_alter, decide_True by done. done.
    - intros b' _ Hne. rewrite hblk_alter, decide_False by (done || set_solver). apply Hoth. set_solver. }
  wp_step. unfold when. destruct (bool_decide (is_Some (block_hash (hblk h b))) || cached (hblk h b)) eqn:Hm.
  - eapply wp_mono; [by apply h_evict_spec; [|apply Hi]| |done]. intros u h1 He. apply Hrest.
    + by eapply evicted_inv.
    + apply He.
    + rewrite (evicted_blk b h h1) by done. by rewrite decide_True.
    + intros b' Hne. rewrite (evicted_blk b h h1) by done. by rewrite decide_False.
    + unfold free_slots. by rewrite (ev_uncached _ _ _ He), (ev_cached _ _ _ He).
  - apply orb_false_iff in Hm as [Hm _]. apply bool_decide_eq_false in Hm. wp_step. apply Hrest; try done.
    destruct (block_hash (hblk h b)); [|done]. exfalso. by apply Hm.
Qed.

Lemma take_slots_spec L E bs h :
  HInv (bs ++ L) E h →
  wp (for_ bs take_slot) (λ _ h', HInv L (bs ++ E) h' ∧ fresh_slots bs h h' ∧
    free_slots h' = free_slots h) no_raise h.
Proof.
  revert E h. induction bs as [|b bs IH]; intros E h Hi.
  { cbn [for_]. wp_step. split; [done|]. split; [|done]. split; [done|..]; set_solver. }
  cbn [for_]. wp_step. eapply wp_mono; [by apply (take_slot_spec (bs ++ L) E b)| |done].
  intros _ h1 (Hi1 & Hf1 & Hq1). eapply wp_mono; [by apply (IH (b :: E))| |done].
  intros _ h2 (Hi2 & Hf2 & Hq2). split; [by eapply inv_perm; [| |exact Hi2]; [|rewrite <- Permutation_middle]|].
  split; [|congruence].
  assert (b ∉ bs) as Hnb.
  { pose proof (hv_nodup _ _ _ Hi) as Hnd. rewrite NoDup_app in Hnd. destruct Hnd as (_ & _ & Hnd).
    apply NoDup_cons in Hnd as [Hnd _]. set_solver. }
  assert (usable h b) as Hb by (apply (hv_free _ _ _ Hi); set_solver).
  split.
  - exact (transitivity (fs_frame _ _ _ Hf1) (fs_frame _ _ _ Hf2)).
  - intros b' [->|Hin]%elem_of_cons; [|by apply (fs_fresh _ _ _ Hf2)].
    rewrite (fs_other _ _ _ Hf2); [|by rewrite (frame_usable h) by apply Hf1|done].
    apply (fs_fresh _ _ _ Hf1). set_solver.
  - intros b' Hb' Hn. rewrite (fs_other _ _ _ Hf2); [|by rewrite (frame_usable h) by apply Hf1|set_solver].
    apply (fs_other _ _ _ Hf1); [done|set_solver].
Qed.

Lemma allocate_many_spec L E count h :
  HInv L E h →
  wp (allocate_many count)
    (λ bs h', HInv L (bs ++ E) h' ∧ fresh_slots bs h h' ∧ Z.of_nat (length bs) = Z.max 0 count ∧
       free_slots h ≡ₚ bs ++ free_slots h')
    (λ e h', e = OutOfBlocksError ∧ h' = h ∧ h_num_free_blocks h < count) h.
Proof.
  intros Hi. unfold allocate_many. destruct (count <=? 0) eqn:Hc.
  { wp_step. split; [done|]. split; [split; [done|..]; set_solver|]. apply Z.leb_le in Hc. split; [cbn; lia|done]. }
  wp_steps. unid. apply Z.leb_gt in Hc.
  destruct (Z.ltb_spec (h_num_free_blocks h) count) as [Hn|Hn]; [by wp_step|].
  set (n := (Z.to_nat count `min` length (h_free_uncached h))%nat).
  set (keep := (length (h_free_uncached h) - n)%nat). set (rest := (Z.to_nat count - n)%nat).
  set (bs := reverse (drop keep (h_free_uncached h)) ++ take rest (h_free_cached h)).
  assert (free_slots h ≡ₚ bs ++ take keep (h_free_uncached h) ++ drop rest (h_free_cached h)) as Hperm.
  { unfold free_slots, bs. rewrite <- (take_drop keep (h_free_uncached h)) at 1.
    rewrite <- (take_drop rest (h_free_cached h)) at 1. rewrite reverse_Permutation.
    rewrite <- !app_assoc. rewrite Permutation_app_comm, <- !app_assoc. apply Permutation_app_head.
    rewrite (Permutation_app_comm (drop rest _)), app_assoc. done. }
  unfold h_num_free_blocks in Hn.
  assert (Z.of_nat (length bs) = count) as Hlen.
  { unfold bs. rewrite length_app, length_reverse, length_drop, length_take. unfold rest, keep, n. lia. }
  wp_step. wp_step.
  set (h1 := h <| h_free_uncached := take keep (h_free_uncached h) |> <| h_free_cached ::= drop rest |>).
  wp_step.
  assert ((take keep (h_free_uncached h) ++ drop rest (h_free_cached h)) ++ bs ++ L ≡ₚ
    (h_free_uncached h ++ h_free_cached h) ++ L) as Hq.
  { rewrite app_assoc. f_equiv. fold (free_slots h). rewrite Hperm. apply Permutation_app_comm. }
  assert (HInv (bs ++ L) E h1) as Hi1.
  { destruct (Hi). split; try done; unfold free_slots in *; cbn in *.
    - by rewrite Hq.
    - intros b. rewrite Hq. exact (hv_free0 b).
    - eapply cache_ok_same; [..|exact hv_cache0]; done. }
  eapply wp_mono; [by apply (take_slots_spec L E bs)| |done].
  intros _ h2 (Hi2 & Hf2 & Hq2). wp_steps. apply note_usage_spec. intros h3 Hbk. wp_steps.
  assert (bookkeeping h2 h3) as Hbk'.
  { destruct Hbk as (F & Hrest). split; [|done]. destruct F. by split. }
  split; [by eapply inv_bookkeeping|]. destruct Hbk' as (F3 & Hb3 & Hu3 & Hc3 & _ & _). split; [|split].
  - destruct Hf2 as [F2 Hfr Hot]. split.
    + etransitivity; [|exact F3]. destruct F2. by split.
    + intros b Hb. unfold hblk. rewrite Hb3. by apply Hfr.
    + intros b Hb Hnb. unfold hblk. rewrite Hb3. by apply Hot.
  - lia.
  - rewrite Hperm. f_equiv. unfold free_slots in *. rewrite Hu3, Hc3. by rewrite Hq2.
Qed.

(** ** Release *)

(** Only reference counts and the queue change. *)
Record counts_only h h' : Prop := {
  cn_frame : slot_frame h h';
  cn_cache : h_cache h' = h_cache h;
  cn_dups : h_duplicates h' = h_duplicates h;
  cn_hash b : block_hash (hblk h' b) = block_hash (hblk h b);
  cn_cached b : cached (hblk h' b) = cached (hblk h b);
}.

#[global] Instance counts_only_preorder : PreOrder counts_only.
Proof.
  split; [by intros h; split|]. intros h1 h2 h3 [] []. split; try congruence.
  by etransitivity.
Qed.

(** A decrement of [b]; the slot joins the queue or the limbo when it was the last. *)
Lemma inv_decrement L L' E b h h' :
  HInv L (b :: E) h → counts_only h h' →
  h_blocks h' = alter (λ o, o <| ref_count ::= Z.pred |>) b (h_blocks h) →
  (if decide (ref_count (hblk h b) = 1) then free_slots h' ++ L' ≡ₚ b :: free_slots h ++ L
   else free_slots h' ++ L' = free_slots h ++ L) →
  HInv L' E h'.
Proof.
  intros Hi HC Hbl Hfree. pose proof (hv_held _ _ _ Hi b ltac:(set_solver)) as Hb. destruct (Hi).
  assert (∀ b', ref_count (hblk h' b') = ref_count (hblk h b') - if decide (b' = b) then 1 else 0) as Hr.
  { intros b'. assert (hblk h' b' = hblk (h <| h_blocks ::= alter (λ o, o <| ref_count ::= Z.pred |>) b |>) b')
      as -> by (unfold hblk; by rewrite Hbl). rewrite hblk_alter by done.
    destruct (decide (b = b')) as [<-|]; [rewrite decide_True by done|rewrite decide_False by done];
      cbn; lia. }
  assert (1 <= ref_count (hblk h b)) as Hpos.
  { rewrite hv_refs0 by done. rewrite occ_app, occ_cons, decide_True by done.
    pose proof (occ_nonneg b (all_table_slots h)). pose proof (occ_nonneg b E).
    unfold transfers. destruct (h_transfer h !! b) as [n|] eqn:Hn; cbn; [apply hv_transfer0 in Hn; lia|lia]. }
  eapply inv_intro; [exact Hi|apply HC| |..].
  - apply (cache_ok_ref b (λ o, o <| ref_count ::= Z.pred |>) h);
      [done|done|done|apply (cn_cache _ _ HC)|apply (cn_dups _ _ HC)|done].
  - intros b' _. rewrite Hr, occ_cons. case_decide; lia.
  - intros b' HE. apply hv_held0, elem_of_app. right. by right.
  - destruct (decide (ref_count (hblk h b) = 1)) as [H1|].
    + rewrite Hfree. apply NoDup_cons. split; [|done]. rewrite hv_free0. lia.
    + by rewrite Hfree.
  - intros b'. rewrite Hr. specialize (hv_free0 b').
    destruct (decide (ref_count (hblk h b) = 1)) as [H1|H1]; rewrite Hfree.
    + rewrite elem_of_cons, hv_free0. destruct (decide (b' = b)) as [->|Hne].
      * split; [|by left]. intros _. split; [done|lia].
      * rewrite Z.sub_0_r. split; [by intros [?|?]|by right].
    + rewrite hv_free0. destruct (decide (b' = b)) as [->|Hne]; [|by rewrite Z.sub_0_r].
      split; intros [? ?]; lia.
Qed.

Lemma occ_two b l : b ∈ l → 2 <= occ b (b :: l).
Proof. intros Hin. rewrite occ_cons, decide_True by done. apply occ_pos in Hin. lia. Qed.

Lemma count_sole_cons h b bs :
  count_sole h (b :: bs) = (if decide (sole_owner h b) then 1 else 0) + count_sole h bs.
Proof. unfold count_sole. rewrite filter_cons. case_decide; cbn; lia. Qed.

Lemma count_sole_mono h h' bs :
  (∀ b, b ∈ bs → sole_owner h b → sole_owner h' b) → count_sole h bs <= count_sole h' bs.
Proof.
  intros Hs. induction bs as [|b bs IH]; [done|]. rewrite !count_sole_cons.
  assert (∀ b, b ∈ bs → sole_owner h b → sole_owner h' b) as Hs' by (intros; apply Hs; [by right|done]).
  specialize (IH Hs'). destruct (decide (sole_owner h b)) as [Hb|].
  - rewrite decide_True by (apply Hs; [left|done]). lia.
  - case_decide; lia.
Qed.

(** A reference that occurs once more elsewhere is not the only one. *)
Lemma sole_not_elsewhere L E b bs h :
  HInv L (b :: bs ++ E) h → sole_owner h b → b ∉ bs.
Proof.
  intros Hi Hs Hin. pose proof (hv_held _ _ _ Hi b ltac:(set_solver)) as Hb.
  pose proof (hv_refs _ _ _ Hi b Hb) as Hr. unfold sole_owner in Hs.
  rewrite occ_app, app_comm_cons, occ_app in Hr. pose proof (occ_two b bs Hin).
  pose proof (occ_nonneg b (all_table_slots h)). pose proof (occ_nonneg b E).
  unfold transfers in Hr. destruct (h_transfer h !! b) as [n|] eqn:Hn; cbn in Hr;
    [apply (hv_transfer _ _ _ Hi) in Hn; lia|lia].
Qed.

Lemma release_loop_spec L E bs h :
  HInv L (bs ++ E) h →
  wp (release_loop bs L) (λ u h', HInv u E h' ∧ counts_only h h' ∧
    Z.of_nat (length (free_slots h ++ L)) + count_sole h bs <= Z.of_nat (length (free_slots h' ++ u)))
    no_raise h.
Proof.
  revert L h. induction bs as [|b bs IH]; intros L h Hi.
  { cbn [release_loop]. wp_step. split; [done|]. split; [done|]. unfold count_sole. rewrite filter_nil. cbn [length]. lia. }
  pose proof (hv_held _ _ _ Hi b ltac:(set_solver)) as Hb.
  assert (1 <= ref_count (hblk h b)) as Hpos.
  { rewrite (hv_refs _ _ _ Hi) by done. cbn [app]. rewrite occ_app, occ_cons, decide_True by done.
    pose proof (occ_nonneg b (all_table_slots h)). pose proof (occ_nonneg b (bs ++ E)).
    unfold transfers. destruct (h_transfer h !! b) as [n|] eqn:Hn; cbn;
      [apply (hv_transfer _ _ _ Hi) in Hn; lia|lia]. }
  cbn [release_loop]. wp_steps. unid.
  rewrite bool_decide_false by (destruct Hb; lia). cbn [orb].
  rewrite (proj2 (Z.leb_gt _ _)) by lia. wp_step. apply wp_set_hblk.
  set (h1 := h <| h_blocks ::= alter (λ o, o <| ref_count ::= Z.pred |>) b |>).
  assert (counts_only h h1) as HC1.
  { split; try done; [apply frame_alter_block|..]; intros b'; unfold h1; rewrite hblk_alter by done;
      by destruct (decide (b = b')) as [<-|]. }
  (* the rest of the loop from a state that differs from [h1] in the queue *)
  assert (∀ h2 L2, counts_only h1 h2 → h_blocks h2 = h_blocks h1 →
    (if decide (ref_count (hblk h b) = 1) then free_slots h2 ++ L2 ≡ₚ b :: free_slots h ++ L
     else free_slots h2 ++ L2 = free_slots h ++ L) →
    wp (release_loop bs L2) (λ u h', HInv u E h' ∧ counts_only h h' ∧
      Z.of_nat (length (free_slots h ++ L)) + count_sole h (b :: bs) <=
        Z.of_nat (length (free_slots h' ++ u))) no_raise h2) as Hrest.
  { intros h2 L2 HC2 Hbl Hfree. eapply wp_mono; [apply (IH L2)| |done].
    { eapply (inv_decrement L L2 (bs ++ E) b h); [exact Hi|exact (transitivity HC1 HC2)| |done].
      by rewrite Hbl. }
    intros u h' (Hi' & HC' & Hlen). split; [done|].
    split; [exact (transitivity HC1 (transitivity HC2 HC'))|].
    assert (count_sole h bs <= count_sole h2 bs) as Hmono.
    { apply count_sole_mono. intros b' Hb' Hs. unfold sole_owner, hblk in *. rewrite Hbl.
      fold (hblk h1 b'). unfold h1. rewrite hblk_alter by done. destruct (decide (b = b')) as [<-|]; [|done].
      exfalso. by apply (sole_not_elsewhere L E b bs h). }
    rewrite count_sole_cons. unfold sole_owner at 1. destruct (decide (ref_count (hblk h b) = 1)).
    - apply Permutation_length in Hfree. cbn in Hfree. lia.
    - rewrite Hfree in Hlen. lia. }
  destruct (Z.eqb_spec (ref_count (hblk h b)) 1) as [H1|H1].
  - destruct (block_hash (hblk h b)) as [key|].
    + wp_steps. apply Hrest; [by split| done|]. rewrite decide_True by done. unfold free_slots. cbn.
      assert (b ∉ h_free_cached h) as Hn.
      { intros Hin. pose proof (proj1 (hv_free _ _ _ Hi b)) as Hf. unfold free_slots in Hf.
        rewrite !elem_of_app in Hf. destruct Hf; [by auto|lia]. }
      unfold set_add. rewrite decide_False by done. rewrite <- !app_assoc. cbn.
      rewrite (app_assoc (h_free_uncached h)). by rewrite <- Permutation_middle, app_assoc.
    + apply Hrest; [done..|]. rewrite decide_True by done.
      change (free_slots h1) with (free_slots h). rewrite app_assoc.
      by rewrite Permutation_app_comm.
  - apply Hrest; [done..|]. by rewrite decide_False.
Qed.

Lemma release_many_spec E bs h :
  HInv [] (bs ++ E) h →
  wp (release_many bs) (λ _ h', HInv [] E h' ∧ counts_only h h' ∧
    h_num_free_blocks h + count_sole h bs <= h_num_free_blocks h') no_raise h.
Proof.
  intros Hi. unfold release_many. wp_step. eapply wp_mono; [by apply (release_loop_spec [] E)| |done].
  intros u h1 (Hi1 & HC1 & Hlen). wp_step.
  set (h2 := h1 <| h_release_count ::= _ |> <| h_free_uncached ::= λ stack, stack ++ reverse u |>).
  assert (free_slots h2 ≡ₚ free_slots h1 ++ u) as Hp.
  { unfold free_slots, h2. cbn. rewrite reverse_Permutation, <- !app_assoc.
    by rewrite (Permutation_app_comm u). }
  split; [|split].
  - destruct (Hi1). split; try done.
    + by rewrite app_nil_r, Hp.
    + intros b. rewrite app_nil_r, Hp. exact (hv_free0 b).
    + eapply cache_ok_same; [..|exact hv_cache0]; done.
  - destruct HC1. split; try done. destruct cn_frame0. by split.
  - unfold h_num_free_blocks. apply Permutation_length in Hp. unfold free_slots in *.
    rewrite !length_app in *. cbn in Hlen. lia.
Qed.
End Inv.
