(* ===== verification/HybridTables.v ===== *)
(** * Page tables of the hybrid block manager

    The tables of a request have one entry per group, in the order of the groups;
    the table of a group without a window holds the pages [0 .. n-1], and the span
    recorded for a window group lists the pages of its table in order. *)

From stdpp Require Import gmap list list_numbers.
From Stdlib Require Import ZArith Lia.
From S2P Require Import Prelude.
From S2P Require Import Block.
From S2P Require Import PrefixKeys.
From S2P Require Import PyFloat.
From S2P Require Import Request.
From S2P Require Import HybridLayout.
From S2P Require Import HybridState.
From S2P Require Import HybridManager.
From S2P Require Import HybridInv.

Open Scope Z_scope.

Lemma wp_require {S A} e (x : option A) a (Q : A → S → Prop) E s :
  x = Some a → Q a s → wp (require e x) Q E s.
Proof. intros -> HQ. exact HQ. Qed.

(** ** Dictionaries *)

Section DictFacts.
Context {V : Type}.
Implicit Types (k : Z) (v : V) (d : list (Z * V)).

Lemma dict_get_elem k v d : dict_get k d = Some v → (k, v) ∈ d.
Proof.
  induction d as [|[k' v'] d IH]; cbn; [done|]. destruct (Z.eqb_spec k k') as [->|].
  - intros [= ->]. left.
  - intros ?%IH. by right.
Qed.

Lemma dict_get_None k d : dict_get k d = None ↔ k ∉ d.*1.
Proof.
  induction d as [|[k' v'] d IH]; csimpl; [set_solver|]. destruct (Z.eqb_spec k k') as [->|Hne].
  - split; [done|]. intros Hn. exfalso. apply Hn. left.
  - rewrite IH, not_elem_of_cons. naive_solver.
Qed.

Lemma dict_get_Some k d : k ∈ d.*1 → ∃ v, dict_get k d = Some v.
Proof.
  intros Hin. destruct (dict_get k d) as [v|] eqn:Hd; [eauto|]. by apply dict_get_None in Hd.
Qed.

Lemma dict_get_lookup i k v d : NoDup d.*1 → d !! i = Some (k, v) → dict_get k d = Some v.
Proof.
  revert i. induction d as [|[k' v'] d IH]; intros [|i]; csimpl; intros Hnd; try done.
  - intros [= -> ->]. by rewrite Z.eqb_refl.
  - apply NoDup_cons in Hnd as [Hk Hnd]. intros Hi. destruct (Z.eqb_spec k k') as [->|]; [|by eapply IH].
    exfalso. apply Hk. apply list_elem_of_fmap. exists (k', v). split; [done|]. by eapply list_elem_of_lookup_2.
Qed.

Lemma elem_of_dict k v d : (k, v) ∈ d → k ∈ d.*1.
Proof. intros Hin. apply list_elem_of_fmap. by exists (k, v). Qed.

Lemma dict_get_NoDup k v d : NoDup d.*1 → (k, v) ∈ d → dict_get k d = Some v.
Proof. intros Hnd [i Hi]%list_elem_of_lookup. by eapply dict_get_lookup. Qed.

Lemma dict_set_new k v d : k ∉ d.*1 → dict_set k v d = d ++ [(k, v)].
Proof.
  induction d as [|[k' v'] d IH]; csimpl; [done|]. intros [Hne Hd]%not_elem_of_cons.
  rewrite (proj2 (Z.eqb_neq _ _)) by done. by rewrite IH.
Qed.

Lemma dict_update_new items d :
  NoDup items.*1 → (∀ k, k ∈ items.*1 → k ∉ d.*1) → dict_update items d = d ++ items.
Proof.
  unfold dict_update. revert d. induction items as [|[k v] items IH]; intros d; csimpl; [by rewrite app_nil_r|].
  intros [Hk Hnd]%NoDup_cons Hd. rewrite dict_set_new by (apply Hd; left).
  rewrite IH; [by rewrite <- app_assoc|done|]. intros k' Hk'. rewrite fmap_app, not_elem_of_app. split.
  - apply Hd. by right.
  - cbn. rewrite list_elem_of_singleton. intros ->. done.
Qed.

Lemma dict_pop_perm k v d :
  NoDup d.*1 → dict_get k d = Some v → d ≡ₚ (k, v) :: dict_pop k d.
Proof.
  unfold dict_pop. induction d as [|[k' v'] d IH]; csimpl; [done|]. intros [Hk Hnd]%NoDup_cons.
  destruct (Z.eqb_spec k k') as [->|Hne].
  - intros [= ->]. rewrite filter_cons_False by naive_solver. rewrite filter_all; [done|].
    apply Forall_forall. intros [k1 v1] Hin. cbn. intros ->. apply Hk. by eapply elem_of_dict.
  - intros Hg. rewrite filter_cons_True by (cbn; congruence). rewrite IH at 1 by done.
    apply Permutation_swap.
Qed.

Lemma dict_has_spec k d : dict_has k d = false ↔ k ∉ d.*1.
Proof. unfold dict_has. by rewrite bool_decide_eq_false. Qed.
End DictFacts.

Lemma fmap_filter_fst {V} (P : Z → Prop) `{∀ k, Decision (P k)} (d : list (Z * V)) :
  (filter (λ x, P x.1) d).*1 = filter P d.*1.
Proof.
  induction d as [|x d IH]; [done|]. rewrite filter_cons, fmap_cons, filter_cons.
  case_decide; csimpl; by rewrite IH.
Qed.

Lemma filter_none {A} (P : A → Prop) `{∀ x, Decision (P x)} (l : list A) :
  (∀ x, x ∈ l → ¬ P x) → filter P l = [].
Proof.
  induction l as [|x l IH]; intros HP; [done|]. rewrite filter_cons_False by (apply HP; left).
  apply IH. intros y Hy. apply HP. by right.
Qed.

Lemma filter_iff_in {A} (P Q : A → Prop) `{∀ x, Decision (P x)} `{∀ x, Decision (Q x)} (l : list A) :
  (∀ x, x ∈ l → P x ↔ Q x) → filter P l = filter Q l.
Proof.
  induction l as [|x l IH]; intros HPQ; [done|]. rewrite !filter_cons.
  rewrite IH by (intros y Hy; apply HPQ; by right). specialize (HPQ x ltac:(left)).
  destruct (decide (P x)), (decide (Q x)); tauto.
Qed.

Lemma filter_zrange_ge lo hi low :
  filter (λ i, low <= i) (zrange lo hi) = zrange (Z.max lo low) hi.
Proof.
  destruct (decide (hi <= Z.max lo low)) as [Hle|Hgt].
  - rewrite (zrange_nil (Z.max lo low)) by done. apply filter_none.
    intros i Hi%elem_of_zrange. lia.
  - rewrite (zrange_app lo (Z.max lo low) hi) by lia. rewrite filter_app.
    rewrite filter_none, app_nil_l.
    + apply filter_all, Forall_forall. intros i Hi%elem_of_zrange. lia.
    + intros i Hi%elem_of_zrange. lia.
Qed.

Lemma dict_pop_keys {V} k (d : list (Z * V)) : (dict_pop k d).*1 = filter (.≠ k) d.*1.
Proof.
  unfold dict_pop. induction d as [|[k' v] d IH]; [done|]. rewrite filter_cons, fmap_cons, filter_cons.
  cbn [fst]. case_decide; csimpl; by rewrite IH.
Qed.

(** ** Well-formed tables *)

Definition table_ok (s : GroupSpec) (t : page_table) : Prop :=
  NoDup t.*1 ∧ (is_window s = false → t.*1 ≡ₚ zrange 0 (Z.of_nat (length t))).

Definition tables_ok (specs : list GroupSpec) (ts : list (Z * page_table)) : Prop :=
  Forall2 (λ s x, x.1 = sp_group_id s ∧ table_ok s x.2) specs ts.

Definition span_ok (s : GroupSpec) (t : page_table) (o : option (Z * Z)) : Prop :=
  match o with
  | None => True
  | Some (first, top) => is_window s = true ∧ first <= top ∧ t.*1 = zrange first top
  end.

Record spans_ok (specs : list GroupSpec) (ts : list (Z * page_table)) (sp : list (option (Z * Z))) :
    Prop := {
  so_length : length sp = length specs;
  so_span i s x o :
    specs !! i = Some s → ts !! i = Some x → sp !! i = Some o → span_ok s x.2 o;
}.

Lemma table_span_ok s t : is_window s = true → NoDup t.*1 → span_ok s t (table_span t).
Proof.
  intros Hw Hnd. unfold table_span. destruct (t.*1) as [|first rest] eqn:Ht; cbn.
  { split; [done|]. split; [done|]. rewrite Ht. done. }
  case_bool_decide as Hr; [|done]. cbn. split; [done|]. split; [lia|]. by rewrite Ht.
Qed.

(** The slots of a request *)
Definition request_slots (ts : list (Z * page_table)) : list slot := ts ≫= λ t, t.2.*2.

Section Tables.
Context {X : Type}.
Implicit Types (h : hybrid X) (b : slot).

Record TabInv h : Prop := {
  ti_ids : NoDup (sp_group_id <$> h_specs h);
  ti_tables r ts : h_tables h !! r = Some ts → tables_ok (h_specs h) ts;
  ti_spans r ts : h_tables h !! r = Some ts →
    ∃ sp, h_spans h !! r = Some sp ∧ spans_ok (h_specs h) ts sp;
  ti_none r : h_tables h !! r = None → h_spans h !! r = None;
}.

(** Group [i] of request [r] has spec [s], table [t] and span [o]. *)
Record group_at h (r : Z) (i : nat) (s : GroupSpec) (t : page_table) (o : option (Z * Z)) : Prop := {
  ga_spec : h_specs h !! i = Some s;
  ga_table : ∃ ts, h_tables h !! r = Some ts ∧ ts !! i = Some (sp_group_id s, t);
  ga_span : ∃ sp, h_spans h !! r = Some sp ∧ sp !! i = Some o;
}.

Lemma tables_ok_ids specs ts : tables_ok specs ts → ts.*1 = sp_group_id <$> specs.
Proof. induction 1 as [|s x specs ts [Hx _] _ IH]; csimpl; [done|]. by rewrite Hx, IH. Qed.

Lemma tabinv_ids h r ts : TabInv h → h_tables h !! r = Some ts → NoDup ts.*1.
Proof. intros [] Ht. by rewrite (tables_ok_ids (h_specs h)) by eauto. Qed.

Lemma group_at_intro h r i s ts :
  TabInv h → h_tables h !! r = Some ts → h_specs h !! i = Some s →
  ∃ t o, group_at h r i s t o ∧ table_ok s t ∧ span_ok s t o.
Proof.
  intros Hinv Ht Hs. destruct (ti_spans _ Hinv r ts Ht) as (sp & Hsp & Hso).
  pose proof (ti_tables _ Hinv r ts Ht) as Hok.
  destruct (Forall2_lookup_l _ _ _ _ _ Hok Hs) as ([gid t] & Hti & Hgid & Htok). cbn in *.
  destruct (lookup_lt_is_Some_2 sp i) as [o Ho].
  { rewrite (so_length _ _ _ Hso). by eapply lookup_lt_Some. }
  exists t, o. split; [|split; [done|by apply (so_span _ _ _ Hso i s (gid, t) o)]].
  split; [done|exists ts; by rewrite Hti, Hgid|by exists sp].
Qed.

Lemma group_at_ok h r i s t o :
  TabInv h → group_at h r i s t o → table_ok s t ∧ span_ok s t o.
Proof.
  intros Hinv [Hs (ts & Ht & Hti) (sp & Hsp & Ho)].
  pose proof (ti_tables _ Hinv r ts Ht) as Hok.
  destruct (Forall2_lookup_lr _ _ _ _ _ _ Hok Hs Hti) as [_ Htok]. split; [done|].
  destruct (ti_spans _ Hinv r ts Ht) as (sp' & Hsp' & Hso). rewrite Hsp in Hsp'. injection Hsp' as <-.
  by apply (so_span _ _ _ Hso i s (sp_group_id s, t) o).
Qed.

(** *** Reading *)

Lemma get_table_spec r i s t ts (Q : page_table → hybrid X → Prop) E h :
  NoDup ts.*1 → h_tables h !! r = Some ts → ts !! i = Some (sp_group_id s, t) → Q t h →
  wp (get_table r (sp_group_id s)) Q E h.
Proof.
  intros Hnd Ht Hi HQ. unfold get_table. wp_steps. unid. eapply wp_require; [done|].
  eapply wp_require; [by eapply dict_get_lookup|done].
Qed.

Lemma get_span_spec r i o sp (Q : option (Z * Z) → hybrid X → Prop) E h :
  h_spans h !! r = Some sp → sp !! i = Some o → Q o h → wp (get_span r i) Q E h.
Proof.
  intros Hs Hi HQ. unfold get_span. wp_steps. unid. eapply wp_require; [done|]. by eapply wp_require.
Qed.

(** *** Writing one table *)

Definition put_table (r : Z) (i : nat) (gid : Z) (t : page_table) (ts : list (Z * page_table)) h :
    hybrid X :=
  h <| h_tables := <[r := <[i := (gid, t)]> ts]> (h_tables h) |>.

Lemma edit_entry gid f (ts : list (Z * page_table)) i t :
  NoDup ts.*1 → ts !! i = Some (gid, t) →
  (λ x, if x.1 =? gid then (x.1, f x.2) else x) <$> ts = <[i := (gid, f t)]> ts.
Proof.
  revert i. induction ts as [|[g t'] ts IH]; intros [|i]; csimpl; intros Hnd; try done.
  - intros [= -> ->]. rewrite Z.eqb_refl. f_equal. apply NoDup_cons in Hnd as [Hg _].
    rewrite <- (list_fmap_id ts) at 2. apply list_fmap_ext. intros j [g' t'] Hj. cbn.
    destruct (Z.eqb_spec g' gid) as [->|]; [|done]. exfalso. apply Hg.
    apply list_elem_of_fmap. exists (gid, t'). split; [done|]. by eapply list_elem_of_lookup_2.
  - apply NoDup_cons in Hnd as [Hg Hnd]. intros Hi. destruct (Z.eqb_spec g gid) as [->|].
    + exfalso. apply Hg. apply list_elem_of_fmap. exists (gid, t). split; [done|].
      by eapply list_elem_of_lookup_2.
    + f_equal. by apply IH.
Qed.

Lemma edit_table_spec r gid f ts i t (Q : unit → hybrid X → Prop) E h :
  NoDup ts.*1 → h_tables h !! r = Some ts → ts !! i = Some (gid, t) →
  Q tt (put_table r i gid (f t) ts h) → wp (edit_table r gid f) Q E h.
Proof.
  intros Hnd Ht Hi HQ. unfold edit_table. wp_step.
  assert (alter (fmap (λ x, if x.1 =? gid then (x.1, f x.2) else x)) r (h_tables h) =
    <[r := <[i := (gid, f t)]> ts]> (h_tables h)) as Heq.
  { apply map_eq. intros r'. destruct (decide (r = r')) as [<-|Hne].
    - rewrite lookup_alter_eq, lookup_insert_eq, Ht. cbn. f_equal. by apply edit_entry.
    - by rewrite lookup_alter_ne, lookup_insert_ne by done. }
  unfold put_table in HQ. rewrite <- Heq in HQ. exact HQ.
Qed.

Lemma slots_split h r ts i gid t :
  h_tables h !! r = Some ts → ts !! i = Some (gid, t) →
  ∃ rest, all_table_slots h ≡ₚ t.*2 ++ rest ∧
    ∀ gid' t', all_table_slots (put_table r i gid' t' ts h) ≡ₚ t'.*2 ++ rest.
Proof.
  intros Ht Hi. unfold all_table_slots.
  set (others := (map_to_list (delete r (h_tables h))).*2 ≫= λ ts, ts ≫= λ t : Z * page_table, t.2.*2).
  set (slots := λ ts : list (Z * page_table), ts ≫= λ t, t.2.*2).
  assert (∀ ts', (map_to_list (<[r := ts']> (h_tables h))).*2 ≫= slots ≡ₚ slots ts' ++ others) as Hput.
  { intros ts'. rewrite <- insert_delete_eq, map_to_list_insert by apply lookup_delete_eq. csimpl. done. }
  exists (slots (take i ts) ++ slots (drop (S i) ts) ++ others).
  assert (∀ x, slots (<[i := x]> ts) ≡ₚ x.2.*2 ++ slots (take i ts) ++ slots (drop (S i) ts)) as Hent.
  { intros x. rewrite insert_take_drop by by eapply lookup_lt_Some. unfold slots. rewrite bind_app. csimpl.
    rewrite !app_assoc. f_equiv. apply Permutation_app_comm. }
  split.
  - rewrite <- (insert_id (h_tables h) r ts) at 1 by done. rewrite Hput.
    rewrite <- (list_insert_id ts i (gid, t)) at 1 by done. by rewrite Hent, <- !app_assoc.
  - intros gid' t'. cbn. rewrite Hput, Hent, <- !app_assoc. done.
Qed.

(** References move between a table and the running operation. *)
Lemma inv_put_table L E E' h r ts i gid t t' :
  HInv L E h → h_tables h !! r = Some ts → ts !! i = Some (gid, t) →
  t'.*2 ++ E' ≡ₚ t.*2 ++ E → HInv L E' (put_table r i gid t' ts h).
Proof.
  intros Hi Ht Hti Hp. destruct (slots_split h r ts i gid t Ht Hti) as (rest & H1 & H2).
  assert (all_table_slots (put_table r i gid t' ts h) ++ E' ≡ₚ all_table_slots h ++ E) as Hs.
  { rewrite H2, H1, <- !app_assoc, (Permutation_app_comm rest), (Permutation_app_comm rest).
    rewrite !app_assoc. by rewrite Hp. }
  split.
  - apply (hv_len _ _ _ Hi).
  - intros b Hb. rewrite Hs. exact (hv_refs _ _ _ Hi b Hb).
  - apply (hv_transfer _ _ _ Hi).
  - intros b Hb. rewrite Hs in Hb. exact (hv_held _ _ _ Hi b Hb).
  - apply (hv_nodup _ _ _ Hi).
  - apply (hv_free _ _ _ Hi).
  - eapply cache_ok_same; [..|exact (hv_cache _ _ _ Hi)]; done.
Qed.
End Tables.
