(* ===== verification/HybridGrow.v ===== *)
(** * Window growth of the hybrid block manager

    [ensure_slots] first releases the pages that fell out of every window and then
    allocates the missing pages of every group.  This file has one step of each loop:
    what a reclaimed window gives back and what the growth of one group needs and
    leaves; [HybridEnsure] composes them. *)

From stdpp Require Import gmap list list_numbers.
From Stdlib Require Import ZArith Lia.
From S2P Require Import Prelude.
From S2P Require Import Block.
From S2P Require Import PrefixKeys.
From S2P Require Import PyFloat.
From S2P Require Import Request.
From S2P Require Import HybridLayout.
From S2P Require Import HybridState.
From S2P Require Import HybridManager.
From S2P Require Import HybridInv.
From S2P Require Import HybridTables.

Open Scope Z_scope.

Section Grow.
Context {X : Type}.
Implicit Types (h : hybrid X) (b : slot).

(** ** What an operation on the tables of [r] leaves alone *)

Record tab_frame (r : Z) h h' : Prop := {
  tf_layout : h_layout h' = h_layout h;
  tf_model : h_model h' = h_model h;
  tf_num_slots : h_num_slots h' = h_num_slots h;
  tf_watermark : h_watermark_blocks h' = h_watermark_blocks h;
  tf_specs : h_specs h' = h_specs h;
  tf_full : h_full h' = h_full h;
  tf_len : length (h_blocks h') = length (h_blocks h);
  tf_progress : h_cached_progress h' = h_cached_progress h;
  tf_requests : h_requests h' = h_requests h;
  tf_keys : h_keys h' = h_keys h;
  tf_fine : h_fine_keys h' = h_fine_keys h;
  tf_transfer : h_transfer h' = h_transfer h;
  tf_plans : h_plans h' = h_plans h;
  tf_reqs : h_reqs h' = h_reqs h;
  tf_chains : h_chains h' = h_chains h;
  tf_ext : h_ext h' = h_ext h;
  tf_version : h_cache_version h <= h_cache_version h';
  tf_cache : h_cache_version h' = h_cache_version h → h_cache h' = h_cache h;
  tf_tables r' : r' ≠ r → h_tables h' !! r' = h_tables h !! r';
  tf_spans r' : r' ≠ r → h_spans h' !! r' = h_spans h !! r';
}.

#[global] Instance tab_frame_preorder r : PreOrder (tab_frame r).
Proof.
  split; [by intros h; split|]. intros h1 h2 h3 F1 F2. destruct F1, F2. split; try congruence; [lia| | |].
  - intros Hv. rewrite tf_cache1 by lia. apply tf_cache0. lia.
  - intros r' Hne. by rewrite tf_tables1, tf_tables0.
  - intros r' Hne. by rewrite tf_spans1, tf_spans0.
Qed.

Lemma slot_tab_frame r h h' : slot_frame h h' → tab_frame r h h'.
Proof. intros []. split; try done; intros; congruence. Qed.

Lemma put_tab_frame r i gid t ts h : tab_frame r h (put_table r i gid t ts h).
Proof. split; try done. intros r' Hne. cbn. by rewrite lookup_insert_ne. Qed.

Lemma tab_frame_usable r h h' b : tab_frame r h h' → usable h' b ↔ usable h b.
Proof. intros F. unfold usable. by rewrite (tf_len _ _ _ F). Qed.

(** The slots an operation for [r] may use: its own and the free ones.  It takes no
    others, and it gives no slot an identity. *)
Definition avail (r : Z) h : list slot :=
  request_slots (default [] (h_tables h !! r)) ++ free_slots h.

Record shrink (r : Z) h h' : Prop := {
  sh_avail b : b ∈ avail r h' → b ∈ avail r h;
  sh_none b : usable h b → block_hash (hblk h b) = None → block_hash (hblk h' b) = None;
  sh_len : length (h_blocks h') = length (h_blocks h);
}.

#[global] Instance shrink_preorder r : PreOrder (shrink r).
Proof.
  split; [by intros h; split|]. intros h1 h2 h3 [A1 N1 L1] [A2 N2 L2]. split; [by auto| |congruence].
  intros b Hb Hn. apply N2; [unfold usable in *; by rewrite L1|auto].
Qed.

(** The fields it reads *)
Lemma shrink_same r h h1 h' :
  shrink r h h1 → h_tables h' !! r = h_tables h1 !! r → h_blocks h' = h_blocks h1 →
  h_free_uncached h' = h_free_uncached h1 → h_free_cached h' = h_free_cached h1 → shrink r h h'.
Proof.
  intros [A N L] Ht Hb Hu Hc. split; unfold avail, free_slots, hblk in *; rewrite ?Ht, ?Hb, ?Hu, ?Hc; done.
Qed.

Lemma request_slots_insert ts i gid t t' b :
  ts !! i = Some (gid, t) → b ∈ request_slots (<[i := (gid, t')]> ts) → b ∈ t'.*2 ∨ b ∈ request_slots ts.
Proof.
  intros Hi (x & Hb & [j Hj]%list_elem_of_lookup)%list_elem_of_bind.
  destruct (decide (i = j)) as [<-|Hne].
  - rewrite list_lookup_insert_eq in Hj by by eapply lookup_lt_Some. injection Hj as <-. by left.
  - rewrite list_lookup_insert_ne in Hj by done. right. apply list_elem_of_bind. exists x. split; [done|].
    by eapply list_elem_of_lookup_2.
Qed.

Lemma table_slots_request ts i gid t b : ts !! i = Some (gid, t) → b ∈ t.*2 → b ∈ request_slots ts.
Proof.
  intros Hi Hb. apply list_elem_of_bind. exists (gid, t). split; [done|]. by eapply list_elem_of_lookup_2.
Qed.

(** ** Writing the table and the span of one group *)

Lemma tables_ok_insert specs ts i s x :
  tables_ok specs ts → specs !! i = Some s → x.1 = sp_group_id s → table_ok s x.2 →
  tables_ok specs (<[i := x]> ts).
Proof.
  intros Hok Hs Hx Ht. apply Forall2_same_length_lookup_2.
  { rewrite length_insert. by eapply Forall2_length. }
  intros j s' x' Hj Hx'. destruct (decide (i = j)) as [<-|Hne].
  - rewrite list_lookup_insert_eq in Hx' by (erewrite <- Forall2_length by done; by eapply lookup_lt_Some).
    injection Hx' as <-. rewrite Hs in Hj. by injection Hj as <-.
  - rewrite list_lookup_insert_ne in Hx' by done. exact (Forall2_lookup_lr _ _ _ _ _ _ Hok Hj Hx').
Qed.

(** The state after table and span of group [i] became [t'] and [o']. *)
Lemma tabinv_update h h' r i s t o t' o' :
  TabInv h → group_at h r i s t o → tab_frame r h h' → table_ok s t' → span_ok s t' o' →
  (∃ ts, h_tables h !! r = Some ts ∧ h_tables h' !! r = Some (<[i := (sp_group_id s, t')]> ts)) →
  (∃ sp, h_spans h !! r = Some sp ∧ h_spans h' !! r = Some (<[i := o']> sp)) →
  TabInv h' ∧ group_at h' r i s t' o' ∧
  ∀ j s1 t1 o1, j ≠ i → group_at h r j s1 t1 o1 → group_at h' r j s1 t1 o1.
Proof.
  intros Hinv Hga F Htok Hsok (ts & Hts & Hts') (sp & Hsp & Hsp').
  destruct (Hga) as [Hs (ts0 & Hts0 & Hi) (sp0 & Hsp0 & Ho)]. rewrite Hts in Hts0. rewrite Hsp in Hsp0.
  injection Hts0 as <-. injection Hsp0 as <-.
  pose proof (lookup_lt_Some _ _ _ Hi) as Hlt. pose proof (lookup_lt_Some _ _ _ Ho) as Hlo.
  pose proof (ti_tables _ Hinv r ts Hts) as Hok. destruct (ti_spans _ Hinv r ts Hts) as (sp1 & Hsp1 & Hso).
  rewrite Hsp in Hsp1. injection Hsp1 as <-. split; [|split].
  - split.
    + rewrite (tf_specs _ _ _ F). apply (ti_ids _ Hinv).
    + intros r' ts'. rewrite (tf_specs _ _ _ F). destruct (decide (r' = r)) as [->|Hne].
      * rewrite Hts'. intros [= <-]. by eapply tables_ok_insert.
      * rewrite (tf_tables _ _ _ F) by done. apply (ti_tables _ Hinv).
    + intros r' ts'. rewrite (tf_specs _ _ _ F). destruct (decide (r' = r)) as [->|Hne].
      * rewrite Hts', Hsp'. intros [= <-]. eexists. split; [done|]. split.
        { rewrite length_insert. apply Hso. }
        intros j s1 x1 o1 Hj Hx1 Ho1. destruct (decide (i = j)) as [<-|Hij].
        -- rewrite list_lookup_insert_eq in Hx1 by done. rewrite list_lookup_insert_eq in Ho1 by done. rewrite Hs in Hj. by simplify_eq.
        -- rewrite list_lookup_insert_ne in Hx1 by done. rewrite list_lookup_insert_ne in Ho1 by done. by eapply (so_span _ _ _ Hso).
      * rewrite (tf_tables _ _ _ F), (tf_spans _ _ _ F) by done. apply (ti_spans _ Hinv).
    + intros r'. destruct (decide (r' = r)) as [->|Hne]; [by rewrite Hts'|].
      rewrite (tf_tables _ _ _ F), (tf_spans _ _ _ F) by done. apply (ti_none _ Hinv).
  - split; [by rewrite (tf_specs _ _ _ F)|exists (<[i := (sp_group_id s, t')]> ts)|exists (<[i := o']> sp)];
      (split; [done|]); by rewrite list_lookup_insert_eq.
  - intros j s1 t1 o1 Hne [Hs1 (ts1 & Ht1 & Hj) (sp1 & Hp1 & Hoj)]. rewrite Hts in Ht1. rewrite Hsp in Hp1.
    simplify_eq. split; [by rewrite (tf_specs _ _ _ F)|exists (<[i := (sp_group_id s, t')]> ts1)|
      exists (<[i := o']> sp1)]; (split; [done|]); by rewrite list_lookup_insert_ne.
Qed.

(** ** Popping pages *)

Lemma pop_pages_spec E r i s t ts indices h :
  HInv [] E h → NoDup ts.*1 → NoDup t.*1 → h_tables h !! r = Some ts → ts !! i = Some (sp_group_id s, t) →
  NoDup indices → (∀ k, k ∈ indices → k ∈ t.*1) →
  wp (pop_pages r (sp_group_id s) indices)
    (λ bs h', let t' := filter (λ x, x.1 ∉ indices) t in
       h' = put_table r i (sp_group_id s) t' ts h ∧ HInv [] (bs ++ E) h' ∧ t.*2 ≡ₚ bs ++ t'.*2)
    no_raise h.
Proof.
  revert t ts h E. induction indices as [|k indices IH]; intros t ts h E Hi Hids Hnd Ht Hti Hndi Hsub.
  { cbn [pop_pages]. wp_step. cbv zeta. rewrite filter_all by (apply Forall_forall; set_solver).
    assert (put_table r i (sp_group_id s) t ts h = h) as ->.
    { unfold put_table. rewrite list_insert_id by done. rewrite insert_id by done. by destruct h. }
    done. }
  apply NoDup_cons in Hndi as [Hk Hndi]. destruct (dict_get_Some k t) as [b Hb]; [apply Hsub; left|].
  pose proof (dict_pop_perm k b t Hnd Hb) as Hperm.
  cbn [pop_pages]. wp_step. eapply get_table_spec; [done..|]. wp_step. eapply wp_require; [done|].
  wp_step. eapply edit_table_spec; [done..|].
  set (t1 := dict_pop k t). set (h1 := put_table r i (sp_group_id s) t1 ts h).
  assert (HInv [] (b :: E) h1) as Hi1.
  { eapply inv_put_table; [done..|]. rewrite Hperm. csimpl. by rewrite <- Permutation_middle. }
  assert (<[i := (sp_group_id s, t1)]> ts !! i = Some (sp_group_id s, t1)) as Hti1
    by (apply list_lookup_insert_eq; by eapply lookup_lt_Some).
  assert ((<[i := (sp_group_id s, t1)]> ts).*1 = ts.*1) as Hids1.
  { rewrite list_fmap_insert. cbn. apply list_insert_id. by rewrite list_lookup_fmap, Hti. }
  wp_step. eapply wp_mono; [eapply (IH t1 (<[i := (sp_group_id s, t1)]> ts) h1 (b :: E))| |done]; try done.
  - by rewrite Hids1.
  - unfold t1. rewrite dict_pop_keys. by apply NoDup_filter.
  - unfold h1. cbn. by rewrite lookup_insert_eq.
  - intros k' Hk'. unfold t1. rewrite dict_pop_keys. apply list_elem_of_filter.
    split; [intros ->; done|]. apply Hsub. by right.
  - intros bs h' (-> & Hi' & Hp). wp_step. cbv zeta.
    assert (filter (λ x, x.1 ∉ indices) t1 = filter (λ x, x.1 ∉ k :: indices) t) as Hf.
    { unfold t1, dict_pop. rewrite list_filter_filter. apply list_filter_iff. intros x.
      rewrite not_elem_of_cons. naive_solver. }
    rewrite <- Hf. split; [|split].
    + unfold h1, put_table. cbn. by rewrite list_insert_insert_eq, insert_insert_eq.
    + eapply inv_perm; [reflexivity| |exact Hi']. cbn. by rewrite <- Permutation_middle.
    + rewrite Hperm. csimpl. fold t1. by rewrite Hp.
Qed.

(** ** Reclaimed slots *)

Lemma count_sole_app h bs bs' : count_sole h (bs ++ bs') = count_sole h bs + count_sole h bs'.
Proof. unfold count_sole. rewrite filter_app, length_app. lia. Qed.

#[global] Instance count_sole_proper h : Proper ((≡ₚ) ==> (=)) (count_sole h).
Proof. intros bs bs' Hp. unfold count_sole. by rewrite Hp. Qed.

(** Between [h] and [h'] the references [R] left the tables and were released. *)
Record reclaimed (R : list slot) h h' : Prop := {
  rc_slots : all_table_slots h ≡ₚ R ++ all_table_slots h';
  rc_free : h_num_free_blocks h + count_sole h R <= h_num_free_blocks h';
  rc_transfer : h_transfer h' = h_transfer h;
  rc_len : length (h_blocks h') = length (h_blocks h);
}.

#[global] Instance reclaimed_proper : Proper ((≡ₚ) ==> (=) ==> (=) ==> iff) reclaimed.
Proof.
  intros R R' HR h ? <- h' ? <-. split; intros []; split; try done; (by rewrite HR) || by rewrite <- HR.
Qed.

Lemma reclaimed_refl h : reclaimed [] h h.
Proof. split; try done. unfold count_sole. rewrite filter_nil. cbn. lia. Qed.

(** A sole reference that a later step gives back was not given back before. *)
Lemma reclaimed_sole E R h h' b :
  HInv [] E h → HInv [] E h' → reclaimed R h h' → b ∈ all_table_slots h' →
  sole_owner h b → sole_owner h' b.
Proof.
  intros Hi Hi' [] Hin Hs. unfold sole_owner in *.
  pose proof (hv_held _ _ _ Hi' b ltac:(set_solver)) as Hb'.
  assert (usable h b) as Hb by (unfold usable in *; by rewrite <- rc_len0).
  rewrite (hv_refs _ _ _ Hi b Hb) in Hs. rewrite (hv_refs _ _ _ Hi' b Hb').
  unfold transfers in *. rewrite rc_transfer0. rewrite occ_app, rc_slots0, occ_app in Hs. rewrite occ_app.
  apply occ_pos in Hin. pose proof (occ_nonneg b R). pose proof (occ_nonneg b E).
  destruct (h_transfer h !! b) as [n|] eqn:Hn; cbn in *; [apply (hv_transfer _ _ _ Hi) in Hn|]; lia.
Qed.

Lemma reclaimed_trans E R1 R2 h h1 h2 :
  HInv [] E h → HInv [] E h1 → reclaimed R1 h h1 → reclaimed R2 h1 h2 → reclaimed (R1 ++ R2) h h2.
Proof.
  intros Hi Hi1 H1 H2. split.
  - rewrite (rc_slots _ _ _ H1), (rc_slots _ _ _ H2). by rewrite app_assoc.
  - rewrite count_sole_app. pose proof (rc_free _ _ _ H1). pose proof (rc_free _ _ _ H2).
    assert (count_sole h R2 <= count_sole h1 R2); [|lia]. apply count_sole_mono. intros b Hb.
    eapply reclaimed_sole; [done..|]. rewrite (rc_slots _ _ _ H2), elem_of_app. by left.
  - by rewrite (rc_transfer _ _ _ H2), (rc_transfer _ _ _ H1).
  - by rewrite (rc_len _ _ _ H2), (rc_len _ _ _ H1).
Qed.

(** Slots that became free were given back. *)
Lemma reclaimed_shrink E r R ts h h' :
  HInv [] E h → HInv [] E h' → reclaimed R h h' → h_tables h !! r = Some ts →
  (∀ b, b ∈ R → b ∈ request_slots ts) →
  (∃ ts', h_tables h' !! r = Some ts' ∧ ∀ b, b ∈ request_slots ts' → b ∈ request_slots ts) →
  (∀ b, block_hash (hblk h' b) = block_hash (hblk h b)) → shrink r h h'.
Proof.
  intros Hi Hi' Hrc Ht HR (ts' & Ht' & Hsub) Hh. split; [|by intros b _; rewrite Hh|apply Hrc].
  intros b. unfold avail. rewrite Ht, Ht'. cbn [default]. rewrite !elem_of_app. intros [Hb|Hb]; [by auto|].
  assert (usable h' b ∧ ref_count (hblk h' b) = 0) as [Hu' H0] by (apply (hv_free _ _ _ Hi'); rewrite app_nil_r; done).
  assert (usable h b) as Hu by (unfold usable in *; by rewrite <- (rc_len _ _ _ Hrc)).
  destruct (decide (b ∈ R)) as [HbR|HbR]; [by auto|]. right.
  assert (ref_count (hblk h b) = 0) as H0'.
  { rewrite (hv_refs _ _ _ Hi b Hu). rewrite (hv_refs _ _ _ Hi' b Hu') in H0. unfold transfers in *.
    rewrite (rc_transfer _ _ _ Hrc) in H0. rewrite occ_app, (rc_slots _ _ _ Hrc), occ_app. rewrite occ_app in H0.
    assert (occ b R = 0); [|lia]. destruct (decide (occ b R = 0)); [done|]. exfalso. apply HbR, occ_pos.
    pose proof (occ_nonneg b R). lia. }
  assert (b ∈ free_slots h ++ []) as Hin by by apply (hv_free _ _ _ Hi). by rewrite app_nil_r in Hin.
Qed.

(** Pages are popped from a table and released. *)
Lemma release_popped E r i s t ts indices h :
  HInv [] E h → NoDup ts.*1 → NoDup t.*1 → h_tables h !! r = Some ts → ts !! i = Some (sp_group_id s, t) →
  NoDup indices → (∀ k, k ∈ indices → k ∈ t.*1) →
  wp (pop_pages r (sp_group_id s) indices) (λ bs h1, wp (release_many bs)
    (λ _ h', let t' := filter (λ x, x.1 ∉ indices) t in
       HInv [] E h' ∧ tab_frame r h h' ∧ h_tables h' !! r = Some (<[i := (sp_group_id s, t')]> ts) ∧
       h_spans h' = h_spans h ∧ shrink r h h' ∧
       reclaimed (filter (λ x, x.1 ∈ indices) t).*2 h h') no_raise h1) no_raise h.
Proof.
  intros Hi Hids Hnd Ht Hti Hndi Hsub.
  eapply wp_mono; [by eapply (pop_pages_spec E r i s t ts)| |done].
  intros bs h1 (-> & Hi1 & Hp). set (t' := filter (λ x, x.1 ∉ indices) t) in *.
  set (h1 := put_table r i (sp_group_id s) t' ts h) in *.
  assert (bs ≡ₚ (filter (λ x, x.1 ∈ indices) t).*2) as Hbs.
  { apply (Permutation_app_inv_r t'.*2). rewrite <- Hp. rewrite <- fmap_app. f_equiv.
    clear. induction t as [|x t IH]; [done|]. unfold t'. rewrite !filter_cons.
    destruct (decide (x.1 ∈ indices)); [rewrite decide_False by tauto|rewrite decide_True by done].
    - cbn. by rewrite <- IH.
    - rewrite <- Permutation_middle. by rewrite <- IH. }
  eapply wp_mono; [by apply (release_many_spec E)| |done].
  intros _ h2 (Hi2 & HC & Hfree). cbv zeta. pose proof (cn_frame _ _ HC) as F. split; [done|].
  split; [exact (transitivity (put_tab_frame r i _ t' ts h) (slot_tab_frame r _ _ F))|].
  split; [by rewrite (sf_tables _ _ F); unfold h1, put_table; cbn; rewrite lookup_insert_eq|].
  split; [by rewrite (sf_spans _ _ F)|].
  destruct (slots_split h r ts i (sp_group_id s) t Ht Hti) as (rest & Hs1 & Hs2). rewrite <- Hbs.
  assert (reclaimed bs h h2) as Hrc; [|split; [|done]].
  2: { eapply (reclaimed_shrink E r bs ts); try done.
       - intros b Hb. eapply table_slots_request; [exact Hti|]. rewrite Hp. set_solver.
       - rewrite (sf_tables _ _ F). unfold h1, put_table. cbn. rewrite lookup_insert_eq. eexists. split; [done|].
         intros b [Hb|Hb]%(request_slots_insert _ _ _ t); [|done|done]. eapply table_slots_request; [exact Hti|].
         rewrite Hp. set_solver.
       - intros b. exact (cn_hash _ _ HC b). }
  split.
  - rewrite Hs1, Hp, <- app_assoc. f_equiv. rewrite (frame_slots _ _ F). unfold h1. by rewrite Hs2.
  - change (h_num_free_blocks h) with (h_num_free_blocks h1).
    change (count_sole h bs) with (count_sole h1 bs). done.
  - by rewrite (sf_transfer _ _ F).
  - by rewrite (sf_len _ _ F).
Qed.

(** ** The first loop: pages that fell out of a window *)

(** The page table of a group. *)
Definition table_of h (r gid : Z) : page_table := default [] (h_tables h !! r ≫= dict_get gid).

Lemma group_at_table h r i s t o : TabInv h → group_at h r i s t o → table_of h r (sp_group_id s) = t.
Proof.
  intros Hinv [_ (ts & Ht & Hi) _]. unfold table_of. rewrite Ht. cbn.
  by rewrite (dict_get_lookup i (sp_group_id s) t) by (done || by eapply tabinv_ids).
Qed.

(** An operation on group [i] of [r] that leaves it with table [t']. *)
Record group_step E r i s (t' : page_table) h h' : Prop := {
  gs_inv : HInv [] E h';
  gs_tab : TabInv h';
  gs_frame : tab_frame r h h';
  gs_group : ∃ o', group_at h' r i s t' o';
  gs_other j s1 t1 o1 : j ≠ i → group_at h r j s1 t1 o1 → group_at h' r j s1 t1 o1;
  gs_shrink : shrink r h h';
}.

Lemma group_step_refl E r i s t o h :
  HInv [] E h → TabInv h → group_at h r i s t o → group_step E r i s t h h.
Proof. intros. split; try done. by exists o. Qed.

(** The first page a group must hold at [computed] tokens. *)
Definition first_page (computed : Z) (s : GroupSpec) : Z :=
  if is_window s then window_low computed (sp_window_tokens s - 1) (sp_block_tokens s) else 0.

Lemma wp_set_span r i o (Q : unit → hybrid X → Prop) E h :
  Q tt (h <| h_spans ::= alter (<[i := o]>) r |>) → wp (set_span r i o) Q E h.
Proof. done. Qed.

Lemma span_frame r i o h : tab_frame r h (h <| h_spans ::= alter (<[i := o]>) r |>).
Proof. split; try done. intros r' Hne. cbn. by rewrite lookup_alter_ne. Qed.

(** The fields the invariant reads. *)
Lemma inv_same L E h h' :
  HInv L E h → h_blocks h' = h_blocks h → h_num_slots h' = h_num_slots h → h_tables h' = h_tables h →
  h_transfer h' = h_transfer h → h_free_uncached h' = h_free_uncached h →
  h_free_cached h' = h_free_cached h → h_cache h' = h_cache h → h_duplicates h' = h_duplicates h →
  HInv L E h'.
Proof.
  intros Hi H1 H2 H3 H4 H5 H6 H7 H8. pose proof (cache_ok_same h h' H1 H7 H8 (hv_cache _ _ _ Hi)).
  destruct Hi. split; unfold usable, hblk, all_table_slots, transfers, free_slots in *;
    rewrite ?H1, ?H2, ?H3, ?H4, ?H5, ?H6; done.
Qed.

Lemma reclaim_window_spec E r computed i s t o h :
  HInv [] E h → TabInv h → group_at h r i s t o → is_window s = true →
  let low := first_page computed s in
  wp (reclaim_window r computed (i, sp_group_id s, sp_block_tokens s, sp_window_tokens s - 1))
    (λ _ h', group_step E r i s (filter (λ x, low <= x.1) t) h h' ∧
       reclaimed (filter (λ x, x.1 < low) t).*2 h h') no_raise h.
Proof.
  intros Hi Hinv Hga Hw low. pose proof (group_at_ok _ _ _ _ _ _ Hinv Hga) as [Htok Hsok].
  destruct (Hga) as [Hs (ts & Hts & Hti) (sp & Hsp & Ho)]. destruct Htok as [Hnd _].
  pose proof (tabinv_ids h r ts Hinv Hts) as Hids.
  unfold reclaim_window. wp_step. eapply get_table_spec; [done..|]. wp_step.
  eapply get_span_spec; [done..|]. unfold low, first_page in *. rewrite Hw in *.
  set (low' := window_low computed (sp_window_tokens s - 1) (sp_block_tokens s)) in *. clear low.
  (* nothing to release *)
  assert ((∀ k, k ∈ t.*1 → low' <= k) →
    group_step E r i s (filter (λ x, low' <= x.1) t) h h ∧
    reclaimed (filter (λ x, x.1 < low') t).*2 h h) as Hkeep.
  { intros Hall. rewrite filter_all, filter_none; [split; [by eapply group_step_refl|apply reclaimed_refl]| |].
    - intros x Hx. apply (list_elem_of_fmap_2 fst), Hall in Hx. lia.
    - apply Forall_forall. intros x Hx. by apply (list_elem_of_fmap_2 fst), Hall in Hx. }
  (* the pages [indices] are released and the span becomes [o'] *)
  assert (∀ indices h' h'' o', NoDup indices → (∀ k, k ∈ t.*1 → k ∈ indices ↔ k < low') →
    span_ok s (filter (λ x, low' <= x.1) t) o' →
    (let t' := filter (λ x, x.1 ∉ indices) t in
       HInv [] E h' ∧ tab_frame r h h' ∧ h_tables h' !! r = Some (<[i := (sp_group_id s, t')]> ts) ∧
       h_spans h' = h_spans h ∧ shrink r h h' ∧
       reclaimed (filter (λ x, x.1 ∈ indices) t).*2 h h') →
    (h'' = h' ∧ o = o' ∨ h'' = h' <| h_spans ::= alter (<[i := o']>) r |>) →
    group_step E r i s (filter (λ x, low' <= x.1) t) h h'' ∧
    reclaimed (filter (λ x, x.1 < low') t).*2 h h'') as Hdrop.
  { intros indices h' h'' o' Hndi Hiff Hso (Hi' & F & Ht' & Hsp' & Hsh & Hrc) Hor.
    assert (filter (λ x, x.1 ∉ indices) t = filter (λ x, low' <= x.1) t) as Hf1.
    { apply filter_iff_in. intros x Hx. apply (list_elem_of_fmap_2 fst) in Hx.
      rewrite Hiff by done. lia. }
    assert (filter (λ x, x.1 ∈ indices) t = filter (λ x, x.1 < low') t) as Hf2.
    { apply filter_iff_in. intros x Hx. apply (list_elem_of_fmap_2 fst) in Hx. by rewrite Hiff. }
    rewrite Hf1 in Ht'. rewrite Hf2 in Hrc.
    assert (tab_frame r h h'' ∧ HInv [] E h'' ∧ h_tables h'' = h_tables h' ∧ shrink r h h'' ∧
      h_spans h'' !! r = Some (<[i := o']> sp)) as (F'' & Hi'' & Ht'' & Hsh'' & Hsp'').
    { destruct Hor as [[-> <-]| ->].
      - split_and!; try done. rewrite Hsp', Hsp. f_equal. by rewrite list_insert_id.
      - split; [exact (transitivity F (span_frame _ _ _ _))|]. split; [by eapply inv_same|].
        split; [done|]. split; [by eapply shrink_same|]. cbn. by rewrite lookup_alter_eq, Hsp', Hsp. }
    assert (table_ok s (filter (λ x, low' <= x.1) t)) as Htok'.
    { split; [|by rewrite Hw]. rewrite (fmap_filter_fst (λ k, low' <= k)). by apply NoDup_filter. }
    destruct (tabinv_update h h'' r i s t o (filter (λ x, low' <= x.1) t) o') as (H1 & H2 & H3); try done.
    - exists ts. by rewrite Ht''.
    - by exists sp.
    - split; [split; try done; by exists o'|]. destruct Hrc. split; try done.
      + unfold all_table_slots in *. by rewrite Ht''.
      + destruct Hor as [[-> _]| ->]; done.
      + by rewrite (tf_transfer _ _ _ F'').
      + by rewrite (tf_len _ _ _ F''). }
  destruct o as [[first top]|].
  - destruct Hsok as (_ & Hle & Hzr). destruct (Z.ltb_spec first (Z.min low' top)) as [Hlt|Hge].
    + wp_step. eapply wp_mono; [eapply (release_popped E r i s t ts (reverse (zrange first (Z.min low' top))))| |done];
        try done.
      { rewrite reverse_Permutation. apply NoDup_zrange. }
      { intros k. rewrite elem_of_reverse, Hzr, !elem_of_zrange. lia. }
      intros bs h1 Hrel. wp_step. eapply wp_mono; [exact Hrel| |done]. intros u h2 Hpost.
      apply wp_set_span. eapply Hdrop; [..|exact Hpost|by right].
      * rewrite reverse_Permutation. apply NoDup_zrange.
      * intros k. rewrite Hzr, elem_of_reverse, !elem_of_zrange. lia.
      * split; [done|]. split; [lia|]. rewrite (fmap_filter_fst (λ k, low' <= k)), Hzr, filter_zrange_ge.
        destruct (decide (low' <= top)); [f_equal; lia|]. rewrite !zrange_nil by lia. done.
    + wp_step. apply Hkeep. intros k. rewrite Hzr, elem_of_zrange. lia.
  - set (skipped := filter (λ k, k < low') (reverse t.*1)).
    assert (∀ k, k ∈ t.*1 → k ∈ skipped ↔ k < low') as Hsk.
    { intros k Hk. unfold skipped. rewrite list_elem_of_filter, elem_of_reverse. naive_solver. }
    assert (NoDup skipped) as Hnds by (apply NoDup_filter; by rewrite reverse_Permutation).
    assert (wp (bs ← pop_pages r (sp_group_id s) skipped; release_many bs)
      (λ _ h', group_step E r i s (filter (λ x, low' <= x.1) t) h h' ∧
         reclaimed (filter (λ x, x.1 < low') t).*2 h h') no_raise h) as Hwp.
    { assert (∀ k, k ∈ skipped → k ∈ t.*1) as Hsub.
      { intros k. unfold skipped. rewrite list_elem_of_filter, elem_of_reverse. by intros [_ ?]. }
      wp_step. eapply wp_mono; [by eapply (release_popped E r i s t ts skipped)| |done].
      intros bs h1 Hrel. eapply wp_mono; [exact Hrel| |done]. intros u h2 Hpost.
      eapply Hdrop; [..|exact Hpost|by left]; done. }
    destruct skipped as [|k0 skipped']; [|exact Hwp]. wp_step. apply Hkeep. intros k Hk.
    destruct (decide (low' <= k)); [done|]. exfalso. apply (not_elem_of_nil k), Hsk; [done|lia].
Qed.

(** ** The second loop: missing pages *)

Lemma grow_table_spec E r i s t ts indices h :
  HInv [] E h → NoDup ts.*1 → h_tables h !! r = Some ts → ts !! i = Some (sp_group_id s, t) →
  NoDup indices → (∀ k, k ∈ indices → k ∉ t.*1) →
  wp (grow_table r (sp_group_id s) indices)
    (λ _ h', ∃ bs, length bs = length indices ∧ HInv [] E h' ∧ tab_frame r h h' ∧
       h_tables h' !! r = Some (<[i := (sp_group_id s, t ++ zip indices bs)]> ts) ∧
       h_spans h' = h_spans h ∧ shrink r h h' ∧
       h_num_free_blocks h' = h_num_free_blocks h - Z.of_nat (length indices))
    (λ e h', e = OutOfBlocksError ∧ h' = h ∧ h_num_free_blocks h < Z.of_nat (length indices)) h.
Proof.
  intros Hi Hids Ht Hti Hnd Hnew. unfold grow_table. wp_step.
  eapply wp_mono; [by apply (allocate_many_spec [] E)| |done].
  intros bs h1 (Hi1 & [F Hfr Hot] & Hlen & Hfree).
  assert (length bs = length indices) as Hl by lia.
  eapply (edit_table_spec _ _ _ ts i t); [done|by rewrite (sf_tables _ _ F)|done|].
  assert (dict_update (zip indices bs) t = t ++ zip indices bs) as ->.
  { apply dict_update_new; rewrite fst_zip by lia; done. }
  exists bs. split; [done|]. split.
  { eapply inv_put_table; [exact Hi1|by rewrite (sf_tables _ _ F)|done|].
    rewrite fmap_app, snd_zip by lia. by rewrite <- app_assoc. }
  split; [exact (transitivity (slot_tab_frame r _ _ F) (put_tab_frame r i _ _ ts h1))|].
  split; [unfold put_table; cbn; by rewrite lookup_insert_eq|].
  split; [exact (sf_spans _ _ F)|].
  split; [split|].
  { intros b. unfold avail, put_table. cbn [h_tables update_field].
    change (free_slots (h1 <| h_tables := _ |>)) with (free_slots h1).
    rewrite lookup_insert_eq, Ht. cbn [from_option id]. rewrite !elem_of_app, Hfree, elem_of_app.
    intros [Hb|Hb]; [|by right; right]. apply (request_slots_insert _ _ _ t) in Hb as [Hb|Hb]; [|by left|done].
    rewrite fmap_app, snd_zip, elem_of_app in Hb by lia. destruct Hb as [Hb|Hb]; [|by right; left].
    left. by eapply table_slots_request. }
  { intros b Hb Hn. change (hblk (put_table r i (sp_group_id s) (t ++ zip indices bs) ts h1) b) with (hblk h1 b).
    destruct (decide (b ∈ bs)); [by apply Hfr|]. by rewrite Hot. }
  { cbn. apply (sf_len _ _ F). }
  apply Permutation_length in Hfree. unfold h_num_free_blocks, free_slots in *. cbn.
  rewrite !length_app in Hfree. lia.
Qed.

Lemma elem_of_missing t low high k : k ∈ missing_pages t low high ↔ low <= k < high ∧ k ∉ t.*1.
Proof.
  unfold missing_pages. rewrite list_elem_of_filter, dict_has_spec, elem_of_zrange. naive_solver.
Qed.

Lemma NoDup_missing t low high : NoDup (missing_pages t low high).
Proof. apply NoDup_filter, NoDup_zrange. Qed.

(** The pages missing from a contiguous table. *)
Lemma missing_zrange t low top high :
  low <= top → (∀ k, k ∈ t.*1 ↔ low <= k < top) → missing_pages t low high = zrange top high.
Proof.
  intros Hle Hk. unfold missing_pages. destruct (decide (high <= top)) as [Hh|Hh].
  - rewrite (zrange_nil top) by done. apply filter_none. intros k. rewrite elem_of_zrange.
    intros Hin ?%dict_has_spec. apply H. apply Hk. lia.
  - rewrite (zrange_app low top high) by lia. rewrite filter_app, filter_none, app_nil_l.
    + apply filter_all, Forall_forall. intros k Hin%elem_of_zrange. apply dict_has_spec.
      rewrite Hk. lia.
    + intros k Hin%elem_of_zrange ?%dict_has_spec. apply H. apply Hk. lia.
Qed.

(** The end of a growth: the span of the group becomes [o']. *)
Lemma grown_group E r i s t o ts bs indices h h' h'' o' :
  TabInv h → group_at h r i s t o → h_tables h !! r = Some ts →
  NoDup indices → (∀ k, k ∈ indices → k ∉ t.*1) → length bs = length indices →
  HInv [] E h'' → tab_frame r h h' → tab_frame r h' h'' →
  h_tables h'' !! r = Some (<[i := (sp_group_id s, t ++ zip indices bs)]> ts) →
  (is_window s = false → ∃ n, indices = zrange (Z.of_nat (length t)) n) →
  span_ok s (t ++ zip indices bs) o' →
  (∃ sp, h_spans h !! r = Some sp ∧ h_spans h'' !! r = Some (<[i := o']> sp)) → shrink r h h'' →
  group_step E r i s (t ++ zip indices bs) h h''.
Proof.
  intros Hinv Hga Hts Hnd Hnew Hl Hi F1 F2 Ht Hfull Hso Hsp Hsh.
  pose proof (group_at_ok _ _ _ _ _ _ Hinv Hga) as [[Hndt Hcont] _].
  pose proof (transitivity F1 F2) as F.
  assert (table_ok s (t ++ zip indices bs)) as Htok.
  { split.
    - rewrite fmap_app, fst_zip by lia. apply NoDup_app. split_and!; [done|set_solver|done].
    - intros Hw. destruct (Hfull Hw) as [n ->]. rewrite fmap_app, fst_zip by lia. rewrite (Hcont Hw).
      rewrite length_app, length_zip, Hl, Nat.min_id. destruct (decide (Z.of_nat (length t) <= n)) as [Hle|Hle].
      + rewrite <- zrange_app by lia. rewrite length_zrange. f_equiv. lia.
      + rewrite (zrange_nil _ n) by lia. cbn. rewrite app_nil_r. f_equiv. lia. }
  destruct (tabinv_update h h'' r i s t o (t ++ zip indices bs) o') as (H1 & H2 & H3); try done.
  { by exists ts. }
  split; try done. by exists o'.
Qed.

Definition group_high (stop : Z) (s : GroupSpec) : Z := pages_for stop (sp_block_tokens s).

(** The pages a group misses. *)
Definition group_missing (computed stop : Z) (s : GroupSpec) (t : page_table) : list Z :=
  missing_pages t (first_page computed s) (group_high stop s).

(** The growth of a group adds exactly its missing pages. *)
Definition grown E r computed stop i s t h h' : Prop :=
  ∃ bs, let miss := group_missing computed stop s t in
    length bs = length miss ∧ group_step E r i s (t ++ zip miss bs) h h' ∧
    h_num_free_blocks h' = h_num_free_blocks h - Z.of_nat (length miss).

Lemma grown_none E r computed stop i s t o h :
  HInv [] E h → TabInv h → group_at h r i s t o → group_missing computed stop s t = [] →
  grown E r computed stop i s t h h.
Proof.
  intros Hi Hinv Hga Hm. exists []. rewrite Hm. cbn. split; [done|]. rewrite app_nil_r.
  split; [by eapply group_step_refl|lia].
Qed.

Lemma committed_frame r f h : tab_frame r h (h <| h_committed ::= f |>).
Proof. by split. Qed.

(** Growth by the missing pages, then a new span [f t'] and perhaps a forgotten
    commit, in the order the code has for the branch. *)
Lemma grow_missing E r computed stop i s t o h (k : M (hybrid X) unit) :
  HInv [] E h → TabInv h → group_at h r i s t o →
  (∀ bs h' ts, length bs = length (group_missing computed stop s t) →
     h_tables h !! r = Some ts → NoDup ts.*1 → ts !! i = Some (sp_group_id s, t) →
     h_tables h' !! r = Some (<[i := (sp_group_id s, t ++ zip (group_missing computed stop s t) bs)]> ts) →
     h_spans h' = h_spans h →
     wp k (λ _ h'', ∃ o' g, h'' = (h' <| h_committed ::= g |>) <| h_spans ::= alter (<[i := o']>) r |> ∧
       span_ok s (t ++ zip (group_missing computed stop s t) bs) o') no_raise h') →
  (is_window s = false → ∃ n, group_missing computed stop s t = zrange (Z.of_nat (length t)) n) →
  wp (grow_table r (sp_group_id s) (group_missing computed stop s t) ;; k)
    (λ _ h', grown E r computed stop i s t h h')
    (λ e h', e = OutOfBlocksError ∧ h' = h ∧
       h_num_free_blocks h < Z.of_nat (length (group_missing computed stop s t))) h.
Proof.
  intros Hi Hinv Hga Hk Hfull. destruct (Hga) as [Hs (ts & Hts & Hti) (sp & Hsp & Ho)].
  pose proof (tabinv_ids h r ts Hinv Hts) as Hids. set (miss := group_missing computed stop s t) in *.
  assert (∀ k, k ∈ miss → k ∉ t.*1) as Hnew by (intros k0 Hk0%elem_of_missing; tauto).
  assert (NoDup miss) as Hnd by apply NoDup_missing.
  wp_step. eapply wp_mono; [by eapply (grow_table_spec E r i s t ts miss)| |done].
  intros _ h1 (bs & Hl & Hi1 & F1 & Ht1 & Hsp1 & Hsh & Hfree).
  eapply wp_mono; [by eapply (Hk bs h1 ts)| |done]. intros _ h2 (o' & g & -> & Hso).
  set (h2 := (h1 <| h_committed ::= g |>) <| h_spans ::= alter (<[i := o']>) r |>).
  exists bs. fold miss. split; [done|]. split; [|done].
  eapply (grown_group E r i s t o ts bs miss h h1 h2 o'); try done.
  - by eapply inv_same.
  - exact (transitivity (committed_frame r g h1) (span_frame r i o' _)).
  - exists sp. split; [done|]. unfold h2. cbn. by rewrite lookup_alter_eq, Hsp1, Hsp.
  - by eapply shrink_same.
Qed.

Lemma span_full s t o : is_window s = false → span_ok s t o → o = None.
Proof. intros Hw. destruct o as [[first top]|]; [|done]. intros (Hw' & _). congruence. Qed.

Lemma wp_when_committed r (c : bool) h (Q : unit → hybrid X → Prop) E :
  (∀ g, Q tt (h <| h_committed ::= g |>)) → wp (when c (drop_committed r)) Q E h.
Proof.
  intros HQ. unfold when. destruct c; [apply HQ|]. specialize (HQ (λ m, m)).
  assert (h <| h_committed ::= λ m, m |> = h) as Heq by by destruct h. rewrite Heq in HQ. exact HQ.
Qed.

Lemma grow_full_spec E r computed stop i s t o h :
  HInv [] E h → TabInv h → group_at h r i s t o → is_window s = false →
  let high := group_high stop s in
  wp (if Z.of_nat (length t) <? high then grow_table r (sp_group_id s) (zrange (Z.of_nat (length t)) high)
      else mret tt) (λ _ h', grown E r computed stop i s t h h')
    (λ e h', e = OutOfBlocksError ∧ h' = h ∧
       h_num_free_blocks h < Z.of_nat (length (group_missing computed stop s t))) h.
Proof.
  intros Hi Hinv Hga Hw high. pose proof (group_at_ok _ _ _ _ _ _ Hinv Hga) as [[Hnd Hcont] Hso].
  assert (group_missing computed stop s t = zrange (Z.of_nat (length t)) high) as Hm.
  { unfold group_missing, first_page. rewrite Hw. apply missing_zrange; [lia|].
    intros k. by rewrite (Hcont Hw), elem_of_zrange. }
  destruct (Z.ltb_spec (Z.of_nat (length t)) high) as [Hlt|Hge].
  - destruct (Hga) as [Hs (ts & Hts & Hti) (sp & Hsp & Ho)].
    pose proof (tabinv_ids h r ts Hinv Hts) as Hids. rewrite <- Hm.
    assert (∀ k, k ∈ group_missing computed stop s t → k ∉ t.*1) as Hnew
      by (intros k0 Hk0%elem_of_missing; tauto).
    assert (NoDup (group_missing computed stop s t)) as Hndm by apply NoDup_missing.
    eapply wp_mono; [by eapply (grow_table_spec E r i s t ts)| |done].
    intros _ h1 (bs & Hl & Hi1 & F1 & Ht1 & Hsp1 & Hsh & Hfree). exists bs. cbv zeta. split; [done|]. split; [|done].
    apply (grown_group E r i s t o ts bs _ h h1 h1 o); try done; [by eexists| |].
    + by rewrite (span_full s t o).
    + exists sp. by rewrite Hsp1, list_insert_id.
  - wp_step. eapply grown_none; [done..|]. rewrite Hm. by apply zrange_nil.
Qed.

Lemma zip_keys {A B} (t : list (A * B)) (l : list A) (k : list B) :
  length k = length l → (t ++ zip l k).*1 = t.*1 ++ l.
Proof. intros Hl. rewrite fmap_app, fst_zip by lia. done. Qed.

Lemma grow_scattered_spec E r computed stop i s t o h :
  HInv [] E h → TabInv h → group_at h r i s t o → is_window s = true →
  wp (grow_scattered r computed i (sp_group_id s) (sp_block_tokens s) (group_missing computed stop s t))
    (λ _ h', grown E r computed stop i s t h h')
    (λ e h', e = OutOfBlocksError ∧ h' = h ∧
       h_num_free_blocks h < Z.of_nat (length (group_missing computed stop s t))) h.
Proof.
  intros Hi Hinv Hga Hw. pose proof (group_at_ok _ _ _ _ _ _ Hinv Hga) as [[Hnd Hcont] Hso].
  destruct (Hga) as [Hs (ts & Hts & Hti) (sp & Hsp & Ho)].
  pose proof (tabinv_ids h r ts Hinv Hts) as Hids.
  unfold grow_scattered. destruct (group_missing computed stop s t) as [|m0 ms] eqn:Hm.
  - do 3 wp_step. eapply get_table_spec; [done..|]. apply wp_set_span.
    set (h2 := h <| h_spans ::= alter (<[i := table_span t]>) r |>).
    assert (group_step E r i s t h h2) as Hst.
    { destruct (tabinv_update h h2 r i s t o t (table_span t)) as (H1 & H2 & H3); try done.
      - apply span_frame.
      - by apply table_span_ok.
      - exists ts. split; [done|]. cbn. by rewrite list_insert_id.
      - exists sp. split; [done|]. cbn. by rewrite lookup_alter_eq, Hsp.
      - split; [by eapply inv_same|done|apply span_frame|by eexists|done|by eapply (shrink_same r h h)]. }
    exists []. rewrite Hm. cbn [length zip zip_with]. rewrite app_nil_r. split; [done|]. split; [done|].
    unfold h2, h_num_free_blocks. cbn. lia.
  - rewrite <- Hm. apply wp_bind, wp_bind.
    assert (wp (grow_table r (sp_group_id s) (group_missing computed stop s t) ;;
        (when (m0 * sp_block_tokens s <? computed) (drop_committed r) ;;
         t ← get_table r (sp_group_id s); set_span r i (table_span t)))
      (λ _ h', grown E r computed stop i s t h h')
      (λ e h', e = OutOfBlocksError ∧ h' = h ∧
        h_num_free_blocks h < Z.of_nat (length (group_missing computed stop s t))) h) as Hwp.
    { eapply grow_missing; [done..| |by rewrite Hw].
      intros bs h' ts' Hl Hts' _ _ Ht' Hsp'. rewrite Hts in Hts'. injection Hts' as <-.
      wp_step. apply wp_when_committed. intros g. wp_step.
      eapply (get_table_spec r i s _ (<[i := (sp_group_id s, t ++ zip (group_missing computed stop s t) bs)]> ts)).
      + rewrite list_fmap_insert. cbn. rewrite list_insert_id; [done|]. by rewrite list_lookup_fmap, Hti.
      + done.
      + apply list_lookup_insert_eq. by eapply lookup_lt_Some.
      + apply wp_set_span. eexists _, g. split; [done|]. apply table_span_ok; [done|].
        rewrite zip_keys by done. apply NoDup_app. split_and!; [done| |apply NoDup_missing].
        intros k Hk Hk'%elem_of_missing. tauto. }
    apply wp_bind in Hwp. eapply wp_mono; [exact Hwp| |done]. cbn beta. intros [] h' Hk.
    apply wp_bind in Hk. exact Hk.
Qed.

Lemma grow_group_spec E r computed stop i s t o h :
  HInv [] E h → TabInv h → group_at h r i s t o →
  wp (grow_group r computed stop (i, s)) (λ _ h', grown E r computed stop i s t h h')
    (λ e h', e = OutOfBlocksError ∧ h' = h ∧
       h_num_free_blocks h < Z.of_nat (length (group_missing computed stop s t))) h.
Proof.
  intros Hi Hinv Hga. pose proof (group_at_ok _ _ _ _ _ _ Hinv Hga) as [[Hnd Hcont] Hso].
  destruct (Hga) as [Hs (ts & Hts & Hti) (sp & Hsp & Ho)].
  pose proof (tabinv_ids h r ts Hinv Hts) as Hids.
  unfold grow_group. wp_step. eapply get_table_spec; [done..|]. destruct (is_window s) eqn:Hw; cbn [negb].
  2: { by apply (grow_full_spec E r computed stop i s t o h). }
  assert (window_low computed (sp_window_tokens s - 1) (sp_block_tokens s) = first_page computed s) as ->
    by (unfold first_page; by rewrite Hw).
  change (pages_for stop (sp_block_tokens s)) with (group_high stop s).
  set (low := first_page computed s) in *. set (high := group_high stop s) in *.
  change (missing_pages t low high) with (group_missing computed stop s t).
  pose proof (grow_scattered_spec E r computed stop i s t o h Hi Hinv Hga Hw) as Hscat.
  wp_step. eapply get_span_spec; [done..|]. destruct o as [[first top]|]; [|exact Hscat].
  destruct ((first =? top) || (first =? low)) eqn:Hc; [|exact Hscat].
  destruct Hso as (_ & Hle & Hzr). set (start := if first =? top then low else Z.max low top).
  set (first' := if first =? top then low else first).
  assert (t.*1 = zrange first' start ∧ first' = low ∧ first' <= start) as (Hzr' & Hf' & Hle').
  { unfold first', start. rewrite Hzr. destruct (Z.eqb_spec first top) as [->|Hne].
    - rewrite !zrange_nil by lia. split; [done|lia].
    - cbn in Hc. apply Z.eqb_eq in Hc. split; [f_equal|]; lia. }
  assert (group_missing computed stop s t = zrange start high) as Hm.
  { apply missing_zrange; [fold low; lia|]. intros k. fold low. by rewrite Hzr', elem_of_zrange, Hf'. }
  destruct (Z.ltb_spec start high) as [Hlt|Hge].
  - rewrite <- Hm. eapply grow_missing; [done..| |by rewrite Hw].
    intros bs h' ts' Hl Hts' _ _ Ht' Hsp'. wp_step. apply wp_set_span. apply wp_when_committed. intros g.
    eexists _, g. split; [reflexivity|]. split; [done|]. fold first'. split; [lia|].
    rewrite zip_keys by done. rewrite Hm, Hzr'. rewrite <- zrange_app by lia. done.
  - wp_step. eapply grown_none; [done..|]. rewrite Hm. by apply zrange_nil.
Qed.
End Grow.
