(* ===== verification/HybridEnsure.v ===== *)
(** * Growth of the page tables ([ensure_slots] and [can_ensure_slots])

    The two loops of [ensure_slots] over the groups of a request, and the checks of
    [can_ensure_slots], which reads the same tables.  A positive check is kept: the
    slots it promises are enough for every group's missing pages. *)

From stdpp Require Import gmap list list_numbers.
From Stdlib Require Import ZArith Lia.
From S2P Require Import Prelude.
From S2P Require Import Buckets.
From S2P Require Import Block.
From S2P Require Import PrefixKeys.
From S2P Require Import PyFloat.
From S2P Require Import Request.
From S2P Require Import HybridLayout.
From S2P Require Import HybridState.
From S2P Require Import HybridManager.
From S2P Require Import HybridInv.
From S2P Require Import HybridTables.
From S2P Require Import HybridGrow.

Open Scope Z_scope.

Section Ensure.
Context {X : Type}.
Implicit Types (h : hybrid X) (b : slot) (T : nat → page_table).

(** ** The tables of a request, by position of the group *)

Definition tables_are h (r : Z) T : Prop :=
  ∀ i s, h_specs h !! i = Some s → ∃ o, group_at h r i s (T i) o.

Lemma tables_are_intro h r ts :
  TabInv h → h_tables h !! r = Some ts → tables_are h r (λ i, (ts !!! i).2).
Proof.
  intros Hinv Ht i s Hs. destruct (group_at_intro h r i s ts Hinv Ht Hs) as (t & o & Hga & _).
  exists o. destruct (Hga) as [_ (ts' & Ht' & Hi) _]. rewrite Ht in Ht'. injection Ht' as <-.
  by rewrite list_lookup_total_alt, Hi.
Qed.

Lemma tables_are_step E r i s t' h h' T :
  h_specs h !! i = Some s → tables_are h r T → group_step E r i s t' h h' →
  tables_are h' r (λ j, if decide (j = i) then t' else T j).
Proof.
  intros Hs HT [_ _ F Hg Ho _] j s1. rewrite (tf_specs _ _ _ F). intros Hj. case_decide as Hji.
  - subst j. rewrite Hs in Hj. injection Hj as <-. done.
  - destruct (HT j s1 Hj) as [o Hga]. exists o. by apply Ho.
Qed.

(** Positions and groups, as [enumerate] lists them. *)
Definition listed h (ps : list (nat * GroupSpec)) : Prop :=
  NoDup ps.*1 ∧ ∀ x, x ∈ ps → h_specs h !! x.1 = Some x.2.

Lemma listed_cons h x ps : listed h (x :: ps) → h_specs h !! x.1 = Some x.2 ∧ (x.1 ∉ ps.*1) ∧ listed h ps.
Proof.
  intros [Hnd Hl]. apply NoDup_cons in Hnd as [? ?]. split; [apply Hl; left|]. split; [done|].
  split; [done|]. intros y Hy. apply Hl. by right.
Qed.

Lemma listed_frame r h h' ps : tab_frame r h h' → listed h ps → listed h' ps.
Proof. intros F [? Hl]. split; [done|]. by rewrite (tf_specs _ _ _ F). Qed.

Lemma imap_pair_lookup {A} (l : list A) x : x ∈ imap pair l → l !! x.1 = Some x.2.
Proof. intros (i & a & -> & Hi)%elem_of_lookup_imap. done. Qed.

Lemma imap_pair_fst {A} (l : list A) : (imap pair l).*1 = seq 0 (length l).
Proof.
  apply list_eq. intros i. rewrite list_lookup_fmap, list_lookup_imap.
  destruct (l !! i) as [a|] eqn:Hi; cbn.
  - symmetry. apply lookup_seq. split; [done|]. by eapply lookup_lt_Some.
  - symmetry. apply lookup_seq_ge. by apply lookup_ge_None.
Qed.

Lemma listed_all h : listed h (imap pair (h_specs h)).
Proof.
  split; [rewrite imap_pair_fst; apply NoDup_seq|]. apply imap_pair_lookup.
Qed.

Lemma listed_filter h (P : nat * GroupSpec → Prop) `{∀ x, Decision (P x)} ps :
  listed h ps → listed h (filter P ps).
Proof.
  intros [Hnd Hl]. split.
  - eapply sublist_NoDup; [exact Hnd|]. by apply fmap_sublist, sublist_filter.
  - intros x [_ Hx]%list_elem_of_filter. by apply Hl.
Qed.

(** ** The first loop *)

Definition window_entry (x : nat * GroupSpec) : nat * Z * Z * Z :=
  (x.1, sp_group_id x.2, sp_block_tokens x.2, sp_window_tokens x.2 - 1).

Definition window_list h : list (nat * GroupSpec) :=
  filter (λ x, is_window x.2 = true) (imap pair (h_specs h)).

Lemma window_growth_eq h : window_growth h = window_entry <$> window_list h.
Proof.
  unfold window_growth, window_list. induction (imap pair (h_specs h)) as [|[i s] l IH]; [done|].
  cbn [omap list_omap]. rewrite filter_cons. cbn [fst snd] in *. destruct (is_window s); [rewrite decide_True by done|];
    cbn; by rewrite IH.
Qed.

Definition outside_window (computed : Z) (s : GroupSpec) (t : page_table) : list slot :=
  (filter (λ x, x.1 < first_page computed s) t).*2.

Lemma reclaim_loop E r computed ps h T :
  HInv [] E h → TabInv h → tables_are h r T → listed h ps → (∀ x, x ∈ ps → is_window x.2 = true) →
  wp (for_ (window_entry <$> ps) (reclaim_window r computed))
    (λ _ h', HInv [] E h' ∧ TabInv h' ∧ tab_frame r h h' ∧ shrink r h h' ∧
       reclaimed (ps ≫= λ x, outside_window computed x.2 (T x.1)) h h' ∧
       ∃ T', tables_are h' r T' ∧ (∀ i, i ∉ ps.*1 → T' i = T i) ∧
         ∀ x, x ∈ ps → T' x.1 = filter (λ y, first_page computed x.2 <= y.1) (T x.1)) no_raise h.
Proof.
  revert h T. induction ps as [|[i s] ps IH]; intros h T Hi Hinv HT Hl Hw.
  { cbn. wp_step. split_and!; try done; [apply reclaimed_refl|]. exists T. set_solver. }
  apply listed_cons in Hl as (Hs & Hni & Hl). cbn [fst snd] in Hs, Hni. destruct (HT i s Hs) as [o Hga].
  rewrite fmap_cons. cbn [for_]. wp_step.
  eapply wp_mono; [by apply (reclaim_window_spec E r computed i s (T i) o h Hi Hinv Hga), (Hw (i, s)); left| |done].
  intros _ h1 (Hst & Hrc). pose proof (tables_are_step _ _ _ _ _ _ _ _ Hs HT Hst) as HT1.
  destruct (Hst) as [Hi1 Hinv1 F1 _ _ Hsh1].
  eapply wp_mono; [eapply (IH h1); [done..|by eapply listed_frame|by intros x Hx; apply Hw; right]| |done].
  intros _ h2 (Hi2 & Hinv2 & F2 & Hsh2 & Hrc2 & T' & HT' & Hout & Hin).
  split; [done|]. split; [done|]. split; [exact (transitivity F1 F2)|].
  split; [exact (transitivity Hsh1 Hsh2)|]. split.
  - cbn. eapply (reclaimed_trans E); [exact Hi|exact Hi1|exact Hrc|].
    assert ((ps ≫= λ x, outside_window computed x.2 (T x.1)) =
      (ps ≫= λ x, outside_window computed x.2 (if decide (x.1 = i) then
        filter (λ y, first_page computed s <= y.1) (T i) else T x.1))) as ->; [|exact Hrc2].
    clear -Hni. induction ps as [|x ps IHp]; [done|]. csimpl in *. apply not_elem_of_cons in Hni as [? ?].
    rewrite decide_False by congruence. by rewrite <- IHp.
  - exists T'. split; [done|]. split.
    + intros j Hj. csimpl in Hj. apply not_elem_of_cons in Hj as [? ?]. rewrite Hout by done. by rewrite decide_False by done.
    + intros x [->|Hx]%elem_of_cons; cbn [fst snd].
      * rewrite Hout by done. by rewrite decide_True.
      * rewrite (Hin x Hx). rewrite decide_False; [done|]. intros <-. apply Hni. by apply list_elem_of_fmap_2.
Qed.

(** ** The second loop *)

Definition missing_count (computed stop : Z) (s : GroupSpec) (t : page_table) : Z :=
  Z.of_nat (length (group_missing computed stop s t)).

Definition total_missing (computed stop : Z) T (ps : list (nat * GroupSpec)) : Z :=
  zsum ((λ x, missing_count computed stop x.2 (T x.1)) <$> ps).

Lemma total_missing_cons computed stop T x ps :
  total_missing computed stop T (x :: ps) =
    missing_count computed stop x.2 (T x.1) + total_missing computed stop T ps.
Proof. done. Qed.

Lemma total_missing_ext computed stop T T' ps :
  (∀ x, x ∈ ps → group_missing computed stop x.2 (T x.1) = group_missing computed stop x.2 (T' x.1)) →
  total_missing computed stop T ps = total_missing computed stop T' ps.
Proof.
  intros Heq. induction ps as [|x ps IH]; [done|]. rewrite !total_missing_cons. unfold missing_count.
  rewrite (Heq x) by left. rewrite IH; [done|]. intros y Hy. apply Heq. by right.
Qed.

Lemma total_missing_nonneg computed stop T ps : 0 <= total_missing computed stop T ps.
Proof.
  induction ps as [|x ps IH]; [done|]. rewrite total_missing_cons. unfold missing_count. lia.
Qed.

Lemma grow_loop E r computed stop ps h T :
  HInv [] E h → TabInv h → tables_are h r T → listed h ps →
  wp (for_ ps (grow_group r computed stop))
    (λ _ h', HInv [] E h' ∧ TabInv h' ∧ tab_frame r h h' ∧ shrink r h h' ∧
       h_num_free_blocks h' = h_num_free_blocks h - total_missing computed stop T ps ∧
       ∃ T', tables_are h' r T' ∧ (∀ i, i ∉ ps.*1 → T' i = T i) ∧
         ∀ x, x ∈ ps → (T' x.1).*1 = (T x.1).*1 ++ group_missing computed stop x.2 (T x.1))
    (λ e h', e = OutOfBlocksError ∧ HInv [] E h' ∧ TabInv h' ∧ tab_frame r h h' ∧ shrink r h h' ∧
       h_num_free_blocks h < total_missing computed stop T ps) h.
Proof.
  revert h T. induction ps as [|[i s] ps IH]; intros h T Hi Hinv HT Hl.
  { cbn. wp_step. split_and!; try done; [unfold total_missing; cbn; lia|]. exists T. set_solver. }
  apply listed_cons in Hl as (Hs & Hni & Hl). cbn [fst snd] in Hs, Hni. destruct (HT i s Hs) as [o Hga].
  cbn [for_]. wp_step. rewrite total_missing_cons. cbn [fst snd].
  eapply wp_mono; [by apply (grow_group_spec E r computed stop i s (T i) o h)| |].
  2: { intros e h' (-> & -> & Hlt). pose proof (total_missing_nonneg computed stop T ps).
       split_and!; try done. unfold missing_count. lia. }
  intros _ h1 (bs & Hlen & Hst & Hfree). pose proof (tables_are_step _ _ _ _ _ _ _ _ Hs HT Hst) as HT1.
  destruct (Hst) as [Hi1 Hinv1 F1 _ _ Hsh1].
  set (T1 := λ j, if decide (j = i) then T i ++ zip (group_missing computed stop s (T i)) bs else T j) in *.
  assert (∀ x, x ∈ ps → T1 x.1 = T x.1) as HT1e.
  { intros x Hx. unfold T1. rewrite decide_False; [done|]. intros <-. apply Hni. by apply list_elem_of_fmap_2. }
  assert (total_missing computed stop T ps = total_missing computed stop T1 ps) as Htot.
  { apply total_missing_ext. intros x Hx. by rewrite HT1e. }
  eapply wp_mono; [eapply (IH h1 T1); [done..|by eapply listed_frame]| |].
  - intros _ h2 (Hi2 & Hinv2 & F2 & Hsh2 & Hf2 & T' & HT' & Hout & Hin).
    split; [done|]. split; [done|]. split; [exact (transitivity F1 F2)|].
    split; [exact (transitivity Hsh1 Hsh2)|].
    split; [unfold missing_count; lia|]. exists T'. split; [done|]. split.
    + intros j Hj. csimpl in Hj. apply not_elem_of_cons in Hj as [? ?]. rewrite Hout by done.
      unfold T1. by rewrite decide_False.
    + intros x [->|Hx]%elem_of_cons; cbn [fst snd].
      * rewrite Hout by done. unfold T1. rewrite decide_True by done. by apply zip_keys.
      * rewrite (Hin x Hx). by rewrite HT1e.
  - intros e h2 (-> & Hi2 & Hinv2 & F2 & Hsh2 & Hlt).
    split_and!; try done; [exact (transitivity F1 F2)|exact (transitivity Hsh1 Hsh2)|].
    unfold missing_count. lia.
Qed.

(** ** The whole of [ensure_slots] *)

(** Pages before the window do not count. *)
Lemma missing_cut t low low' high :
  low' <= low → missing_pages (filter (λ y, low' <= y.1) t) low high = missing_pages t low high.
Proof.
  intros Hle. apply filter_iff_in. intros k Hk%elem_of_zrange. rewrite !dict_has_spec.
  rewrite (fmap_filter_fst (λ k, low' <= k)), list_elem_of_filter. naive_solver lia.
Qed.

(** What the tables of [r] hold after the growth *)
Definition grown_table (computed stop : Z) (s : GroupSpec) (t t' : page_table) : Prop :=
  (∀ k, k ∈ t'.*1 ↔ (k ∈ t.*1 ∧ (is_window s = true → first_page computed s <= k)) ∨
     first_page computed s <= k < group_high stop s).

Lemma h_ensure_slots_spec E r tokens lookahead h T :
  HInv [] E h → TabInv h → tables_are h r T →
  let computed := num_computed_tokens (hreq h r) in
  let stop := slots_end r tokens lookahead h in
  let reclaimable := count_sole h (window_list h ≫= λ x, outside_window computed x.2 (T x.1)) in
  let needed := total_missing computed stop T (imap pair (h_specs h)) in
  wp (h_ensure_slots r tokens lookahead)
    (λ _ h', HInv [] E h' ∧ TabInv h' ∧ tab_frame r h h' ∧ shrink r h h' ∧
       ∃ T', tables_are h' r T' ∧ ∀ i s, h_specs h !! i = Some s → grown_table computed stop s (T i) (T' i))
    (λ e h', e = OutOfBlocksError ∧ HInv [] E h' ∧ TabInv h' ∧ tab_frame r h h' ∧ shrink r h h' ∧
       h_num_free_blocks h + reclaimable < needed) h.
Proof.
  intros Hi Hinv HT computed stop reclaimable needed. unfold h_ensure_slots. wp_steps. unid.
  fold computed stop. rewrite window_growth_eq.
  eapply wp_mono; [apply (reclaim_loop E r computed (window_list h) h T Hi Hinv HT)| |done].
  { apply listed_filter, listed_all. }
  { by intros x [? _]%list_elem_of_filter. }
  intros _ h1 (Hi1 & Hinv1 & F1 & Hsh1 & Hrc & T1 & HT1 & Hout & Hin).
  assert (∀ i s, h_specs h !! i = Some s →
    (is_window s = true ∧ T1 i = filter (λ y, first_page computed s <= y.1) (T i)) ∨
    (is_window s = false ∧ T1 i = T i)) as Hcut.
  { intros i s Hs. destruct (is_window s) eqn:Hw; [left|right]; (split; [done|]).
    - apply (Hin (i, s)). apply list_elem_of_filter. split; [done|].
      by apply (elem_of_lookup_imap_2 pair).
    - apply Hout. intros ([j s'] & -> & [Hw' Hl]%list_elem_of_filter)%list_elem_of_fmap.
      apply imap_pair_lookup in Hl. cbn in *. congruence. }
  assert (total_missing computed stop T1 (imap pair (h_specs h)) = needed) as Htot.
  { apply total_missing_ext. intros x Hx%imap_pair_lookup. destruct (Hcut _ _ Hx) as [[_ ->]|[_ ->]]; [|done].
    by apply missing_cut. }
  rewrite <- (tf_specs _ _ _ F1).
  eapply wp_mono; [apply (grow_loop E r computed stop _ h1 T1 Hi1 Hinv1 HT1), listed_all| |].
  - intros _ h2 (Hi2 & Hinv2 & F2 & Hsh2 & _ & T' & HT' & _ & Hnew).
    split; [done|]. split; [done|]. split; [exact (transitivity F1 F2)|].
    split; [exact (transitivity Hsh1 Hsh2)|]. exists T'. split; [done|].
    intros i s Hs k. specialize (Hnew (i, s)). cbn [fst snd] in Hnew.
    rewrite Hnew by by apply (elem_of_lookup_imap_2 pair). rewrite (tf_specs _ _ _ F1) in Hs.
    rewrite elem_of_app. unfold group_missing. rewrite elem_of_missing. fold (group_high stop s).
    destruct (Hcut _ _ Hs) as [[Hw ->]|[Hw ->]].
    + rewrite (fmap_filter_fst (λ k, first_page computed s <= k)), list_elem_of_filter.
      destruct (decide (k ∈ (T i).*1)); naive_solver.
    + rewrite Hw. destruct (decide (k ∈ (T i).*1)); naive_solver.
  - intros e h2 (-> & Hi2 & Hinv2 & F2 & Hsh2 & Hlt).
    split_and!; try done; [exact (transitivity F1 F2)|exact (transitivity Hsh1 Hsh2)|].
    rewrite (tf_specs _ _ _ F1), Htot in Hlt. pose proof (rc_free _ _ _ Hrc). unfold reclaimable. lia.
Qed.

(** ** The check *)

Lemma filter_zrange_lt lo hi low : filter (λ i, i < low) (zrange lo hi) = zrange lo (Z.min low hi).
Proof.
  destruct (decide (Z.min low hi <= lo)) as [Hle|Hgt].
  - rewrite (zrange_nil lo (Z.min low hi)) by done. apply filter_none. intros i Hi%elem_of_zrange. lia.
  - rewrite (zrange_app lo (Z.min low hi) hi) by lia. rewrite filter_app.
    rewrite (filter_none _ (zrange (Z.min low hi) hi)), app_nil_r.
    + apply filter_all, Forall_forall. intros i Hi%elem_of_zrange. lia.
    + intros i Hi%elem_of_zrange. lia.
Qed.

Lemma filter_zrange_between lo hi (a b : Z) :
  filter (λ i, a <= i < b) (zrange lo hi) = zrange (Z.max lo a) (Z.min b hi).
Proof.
  transitivity (filter (λ i, a <= i) (filter (λ i, i < b) (zrange lo hi))).
  - rewrite list_filter_filter. apply filter_iff_in. lia.
  - by rewrite filter_zrange_lt, filter_zrange_ge.
Qed.

Lemma length_filter_split {A} (P : A → Prop) `{∀ x, Decision (P x)} (l : list A) :
  (length (filter P l) + length (filter (λ x, ¬ P x) l) = length l)%nat.
Proof.
  induction l as [|x l IH]; [done|]. rewrite !filter_cons.
  destruct (decide (P x)); [rewrite decide_False by tauto|rewrite decide_True by done]; cbn; lia.
Qed.

(** The count of [can_ensure_slots] for a contiguous window *)
Lemma missing_overlap t first top low high :
  t.*1 = zrange first top →
  Z.of_nat (length (missing_pages t low high)) =
    (if low <? high then high - low - Z.max 0 (Z.min high top - Z.max low first) else 0).
Proof.
  intros Ht. pose proof (length_filter_split (λ i, first <= i < top) (zrange low high)) as Hlen.
  rewrite filter_zrange_between, !length_zrange in Hlen.
  assert (missing_pages t low high = filter (λ i, ¬ (first <= i < top)) (zrange low high)) as Hm.
  { apply filter_iff_in. intros k _. by rewrite dict_has_spec, Ht, elem_of_zrange. }
  rewrite Hm. destruct (Z.ltb_spec low high); lia.
Qed.

Lemma mapM_require (t d : page_table) h :
  NoDup t.*1 → (∀ x, x ∈ d → x ∈ t) →
  wp (mapM (λ i, require KeyError (dict_get i t)) d.*1) (λ old h', old = d.*2 ∧ h' = h) no_raise h.
Proof.
  intros Hnd. induction d as [|[k v] d IH]; intros Hd; [done|]. csimpl. wp_step.
  eapply wp_require; [apply (dict_get_NoDup k v); [done|apply Hd; left]|]. wp_step.
  eapply wp_mono; [apply IH; intros x Hx; apply Hd; by right| |done].
  intros old h' [-> ->]. by wp_step.
Qed.

Definition full_list h : list (nat * GroupSpec) :=
  filter (λ x, is_window x.2 = false) (imap pair (h_specs h)).

Lemma filter_imap_snd {A} (P : A → Prop) `{∀ x, Decision (P x)} (l : list A) n :
  (filter (λ x, P x.2) (imap (λ i, pair (n + i)%nat) l)).*2 = filter P l.
Proof.
  revert n. induction l as [|a l IH]; intros n; [done|]. cbn [imap].
  assert (imap ((λ i, pair (n + i)%nat) ∘ S) l = imap (λ i, pair (S n + i)%nat) l) as Heq.
  { apply imap_ext. intros. cbn. f_equal. lia. }
  rewrite Heq, !filter_cons. cbn [snd]. case_decide; rewrite ?fmap_cons; by rewrite (IH (S n)).
Qed.

Lemma full_growth_eq h :
  full_growth h = (λ x, (sp_group_id x.2, sp_block_tokens x.2)) <$> full_list h.
Proof.
  unfold full_growth, full_list. rewrite <- (filter_imap_snd _ (h_specs h) 0).
  by rewrite <- list_fmap_compose.
Qed.

Lemma full_needs_spec r computed stop ps h T :
  TabInv h → tables_are h r T → listed h ps → (∀ x, x ∈ ps → is_window x.2 = false) →
  wp (full_needs r stop ((λ x, (sp_group_id x.2, sp_block_tokens x.2)) <$> ps))
    (λ n h', n = total_missing computed stop T ps ∧ h' = h) no_raise h.
Proof.
  intros Hinv HT. induction ps as [|[i s] ps IH]; intros Hl Hw; [done|].
  apply listed_cons in Hl as (Hs & _ & Hl). cbn [fst snd] in Hs. destruct (HT i s Hs) as [o Hga].
  destruct (group_at_ok _ _ _ _ _ _ Hinv Hga) as [[_ Hcont] _].
  destruct (Hga) as [_ (ts & Hts & Hti) _]. pose proof (tabinv_ids h r ts Hinv Hts) as Hids.
  rewrite fmap_cons. cbn [full_needs fst snd]. wp_step. eapply get_table_spec; [done..|]. wp_step.
  eapply wp_mono; [apply IH; [done|by intros x Hx; apply Hw; right]| |done].
  intros n h' [-> ->]. wp_step. split; [|done]. rewrite total_missing_cons. cbn [fst snd]. f_equal.
  specialize (Hw (i, s) ltac:(left)). cbn in Hw. unfold missing_count, group_missing, first_page. rewrite Hw.
  rewrite (missing_zrange _ 0 (Z.of_nat (length (T i)))).
  - rewrite length_zrange. unfold group_high. lia.
  - lia.
  - intros k. by rewrite (Hcont Hw), elem_of_zrange.
Qed.

Lemma window_needs_spec r computed stop ps h T :
  TabInv h → tables_are h r T → listed h ps → (∀ x, x ∈ ps → is_window x.2 = true) →
  wp (window_needs r computed stop (window_entry <$> ps))
    (λ n h', n = (total_missing computed stop T ps,
       count_sole h (ps ≫= λ x, outside_window computed x.2 (T x.1))) ∧ h' = h) no_raise h.
Proof.
  intros Hinv HT. induction ps as [|[i s] ps IH]; intros Hl Hw; [done|].
  apply listed_cons in Hl as (Hs & _ & Hl). cbn [fst snd] in Hs. destruct (HT i s Hs) as [o Hga].
  destruct (group_at_ok _ _ _ _ _ _ Hinv Hga) as [[Hnd _] Hso].
  destruct (Hga) as [_ (ts & Hts & Hti) (sp & Hsp & Ho)].
  pose proof (tabinv_ids h r ts Hinv Hts) as Hids. specialize (Hw (i, s) ltac:(left)) as Hws. cbn in Hws.
  rewrite fmap_cons. cbn [window_needs window_entry fst snd]. wp_step. eapply get_table_spec; [done..|].
  wp_step. wp_step. unid. wp_step. eapply get_span_spec; [done..|].
  assert (window_low computed (sp_window_tokens s - 1) (sp_block_tokens s) = first_page computed s) as ->
    by (unfold first_page; by rewrite Hws).
  change (pages_for stop (sp_block_tokens s)) with (group_high stop s).
  assert (∀ n, wp (let '(needed, old) := (n, outside_window computed s (T i)) in
      '(needed', reclaimable') ← window_needs r computed stop (window_entry <$> ps);
      mret (needed + needed', count_sole h old + reclaimable'))
    (λ x h', x = (n + total_missing computed stop T ps,
       count_sole h (((i, s) :: ps) ≫= λ x, outside_window computed x.2 (T x.1))) ∧ h' = h) no_raise h) as Hrest.
  { intros n. wp_step. eapply wp_mono; [apply IH; [done|by intros x Hx; apply Hw; right]| |done].
    intros [a b] h' [[= -> ->] ->]. wp_step. split; [|done]. f_equal. csimpl. by rewrite count_sole_app. }
  rewrite total_missing_cons. cbn [fst snd]. destruct o as [[first top]|].
  - destruct Hso as (_ & Hle & Hzr). wp_step.
    assert (zrange first (Z.min (first_page computed s) top) =
      (filter (λ x, x.1 < first_page computed s) (T i)).*1) as ->.
    { etransitivity; [|symmetry; exact (fmap_filter_fst (λ k, k < first_page computed s) (T i))].
      by rewrite Hzr, filter_zrange_lt. }
    wp_step. eapply wp_mono; [apply mapM_require; [done|by intros x [_ ?]%list_elem_of_filter]| |done].
    intros old h' [-> ->]. wp_step. rewrite <- (missing_overlap (T i)) by done. apply Hrest.
  - wp_step. wp_step. apply Hrest.
Qed.

(** [can_ensure_slots] changes nothing and compares the two sums of the loops. *)
Lemma h_can_ensure_slots_spec r tokens lookahead h T :
  TabInv h → tables_are h r T →
  let computed := num_computed_tokens (hreq h r) in
  let stop := slots_end r tokens lookahead h in
  let reclaimable := count_sole h (window_list h ≫= λ x, outside_window computed x.2 (T x.1)) in
  let needed := total_missing computed stop T (imap pair (h_specs h)) in
  wp (h_can_ensure_slots r tokens lookahead)
    (λ ok h', ok = (needed <=? h_num_free_blocks h + reclaimable) ∧ h' = h) no_raise h.
Proof.
  intros Hinv HT computed stop reclaimable needed. unfold h_can_ensure_slots. wp_steps. unid. fold stop computed.
  rewrite full_growth_eq, window_growth_eq.
  eapply wp_mono; [apply (full_needs_spec r computed); [done|exact HT|apply listed_filter, listed_all|
    by intros x [? _]%list_elem_of_filter]| |done].
  intros n h' [-> ->]. wp_step.
  eapply wp_mono; [apply window_needs_spec; [done|exact HT|apply listed_filter, listed_all|
    by intros x [? _]%list_elem_of_filter]| |done].
  intros m h' [-> ->]. wp_step. split; [|done]. f_equal.
  unfold needed, total_missing, full_list, window_list. symmetry. apply zsum_partition.
  intros x. destruct (is_window x.2); naive_solver.
Qed.
End Ensure.
