(* ===== verification/HybridPlans.v ===== *)
(** * Reuse plans of the hybrid block manager

    A plan lists pages of the prefix map, group by group, in the shape of the tables
    of a request; a remembered plan is only used while the prefix map is the one it
    was made for. *)

From stdpp Require Import gmap list list_numbers.
From Stdlib Require Import ZArith Lia.
From S2P Require Import Prelude.
From S2P Require Import Block.
From S2P Require Import PrefixKeys.
From S2P Require Import PyFloat.
From S2P Require Import Request.
From S2P Require Import HybridLayout.
From S2P Require Import HybridState.
From S2P Require Import HybridManager.
From S2P Require Import HybridInv.
From S2P Require Import HybridTables.
From S2P Require Import HybridGrow.

Open Scope Z_scope.

Section Plans.
Context {X : Type} `{Digest}.
Implicit Types (h : hybrid X) (b : slot) (k : slot_key).

(** ** Frames *)

(** What every operation keeps, and how the prefix map changes. *)
Record evolve h h' : Prop := {
  ev_layout : h_layout h' = h_layout h;
  ev_model : h_model h' = h_model h;
  ev_num_slots : h_num_slots h' = h_num_slots h;
  ev_watermark : h_watermark_blocks h' = h_watermark_blocks h;
  ev_specs : h_specs h' = h_specs h;
  ev_full : h_full h' = h_full h;
  ev_len : length (h_blocks h') = length (h_blocks h);
  ev_version : h_cache_version h <= h_cache_version h';
  ev_cache : h_cache_version h' = h_cache_version h → h_cache h' = h_cache h;
}.

#[global] Instance evolve_preorder : PreOrder evolve.
Proof.
  split; [by intros h; split|]. intros h1 h2 h3 F1 F2. destruct F1, F2. split; try congruence; [lia|].
  intros Hv. rewrite ev_cache1 by lia. apply ev_cache0. lia.
Qed.

Lemma slot_evolve h h' : slot_frame h h' → evolve h h'.
Proof. by intros []. Qed.

Lemma tab_evolve r h h' : tab_frame r h h' → evolve h h'.
Proof. by intros []. Qed.

Lemma evolve_usable h h' b : evolve h h' → usable h' b ↔ usable h b.
Proof. intros F. unfold usable. by rewrite (ev_len _ _ F). Qed.

(** Only memos, requests and progress change. *)
Record meta_frame h h' : Prop := {
  mf_evolve : evolve h h';
  mf_blocks : h_blocks h' = h_blocks h;
  mf_uncached : h_free_uncached h' = h_free_uncached h;
  mf_cached : h_free_cached h' = h_free_cached h;
  mf_cache : h_cache h' = h_cache h;
  mf_version : h_cache_version h' = h_cache_version h;
  mf_dups : h_duplicates h' = h_duplicates h;
  mf_tables : h_tables h' = h_tables h;
  mf_transfer : h_transfer h' = h_transfer h;
  mf_spans : h_spans h' = h_spans h;
  mf_ext : h_ext h' = h_ext h;
}.

#[global] Instance meta_frame_preorder : PreOrder meta_frame.
Proof.
  split; [by intros h; split|]. intros h1 h2 h3 [] []. split; try congruence. by etransitivity.
Qed.

Lemma meta_inv L E h h' : meta_frame h h' → HInv L E h → HInv L E h'.
Proof. intros [] Hi. eapply inv_same; try done. apply mf_evolve0. Qed.

(** The fields the invariant of the tables reads. *)
Lemma tab_same h h' :
  h_specs h' = h_specs h → h_tables h' = h_tables h → h_spans h' = h_spans h → TabInv h → TabInv h'.
Proof. intros Hs Ht Hsp []. split; rewrite ?Hs, ?Ht, ?Hsp; done. Qed.

Lemma meta_tab h h' : meta_frame h h' → TabInv h → TabInv h'.
Proof. intros F. apply tab_same; apply F. Qed.

(** ** Plans *)

Definition plan_slots (p : HybridReusePlan) : list slot := hp_group_hits p ≫= λ x, x.2.*2.

(** The hits of a group without window hold the pages from [lo] to [n]. *)
Definition full_pages {P} (lo n : Z) (s : GroupSpec) (x : Z * list (Z * P)) : Prop :=
  is_window s = false → sp_eagle s = 0 → x.2.*1 = zrange lo n.

(** A plan reuses [hit] tokens in whole logical blocks. *)
Definition hits_at h (hit : Z) (hits : list (Z * page_table)) : Prop :=
  (hits = [] ∧ hit = 0) ∨
  ∃ n, 0 <= n ∧ hit = n * h_block_size h ∧ Forall2 (full_pages 0 n) (h_specs h) hits.

(** The hits have the shape of the tables of a request. *)
Definition hits_shape (specs : list GroupSpec) (hits : list (Z * page_table)) : Prop :=
  hits = [] ∨ tables_ok specs hits.

Record memo_ok h (context version : Z) (p : HybridReusePlan) : Prop := {
  mo_hits : hits_at h (hp_hit_tokens p) (hp_group_hits p);
  mo_bound : hp_hit_tokens p <= Z.max 0 (context - 1);
  mo_shape : hits_shape (h_specs h) (hp_group_hits p);
  mo_usable b : b ∈ plan_slots p → usable h b;
  mo_version : version <= h_cache_version h;
  mo_cached b : version = h_cache_version h → b ∈ plan_slots p → ∃ k, h_cache h !! k = Some b;
}.

Definition PlanInv h : Prop :=
  ∀ r context blocks version n p,
    h_plans h !! r = Some ((context, blocks, version, n), p) → memo_ok h context version p.

Lemma memo_evolve h h' context version p :
  evolve h h' → memo_ok h context version p → memo_ok h' context version p.
Proof.
  intros F []. split.
  - unfold hits_at, h_block_size in *. by rewrite (ev_specs _ _ F), (ev_layout _ _ F).
  - done.
  - by rewrite (ev_specs _ _ F).
  - intros b Hb. rewrite (evolve_usable h) by done. auto.
  - pose proof (ev_version _ _ F). lia.
  - intros b Hv Hb. pose proof (ev_version _ _ F). assert (version = h_cache_version h) as Hv' by lia.
    rewrite (ev_cache _ _ F) by lia. auto.
Qed.

(** Plans are forgotten or kept. *)
Lemma plan_inv_evolve h h' :
  evolve h h' → (∀ r x, h_plans h' !! r = Some x → h_plans h !! r = Some x) → PlanInv h → PlanInv h'.
Proof. intros F Hsub HP r c n v m p Hp. eapply memo_evolve; [done|]. eapply HP. by apply Hsub. Qed.

(** ** Keys *)

(** The sizes of the requests, which plans depend on *)
Definition same_lengths h h' : Prop := ∀ r,
  context_len (hreq h' r) = context_len (hreq h r) ∧
  num_logical_token_blocks (hreq h' r) = num_logical_token_blocks (hreq h r) ∧
  req_block_size (hreq h' r) = req_block_size (hreq h r) ∧
  prefill_len (hreq h' r) = prefill_len (hreq h r).

#[global] Instance same_lengths_preorder : PreOrder same_lengths.
Proof.
  split; [by intros h r|]. intros h1 h2 h3 H1 H2 r. destruct (H1 r) as (<- & <- & <- & <-). apply H2.
Qed.

Lemma same_lengths_edit r f h h' :
  (∀ q, context_len (f q) = context_len q ∧ num_logical_token_blocks (f q) = num_logical_token_blocks q ∧
    req_block_size (f q) = req_block_size q ∧ prefill_len (f q) = prefill_len q) →
  h_reqs h' = <[r := f (h_reqs h !!! r)]> (h_reqs h) → same_lengths h h'.
Proof.
  intros Hf Hr r'. unfold hreq. rewrite Hr. destruct (decide (r' = r)) as [->|Hne].
  - rewrite lookup_total_insert_eq. apply Hf.
  - by rewrite lookup_total_insert_ne.
Qed.

(** A request may be edited. *)
Definition edit_step h h' : Prop := meta_frame h h' ∧ h_plans h' = h_plans h.

Definition keys_step h h' : Prop := edit_step h h' ∧ same_lengths h h'.

#[global] Instance edit_step_preorder : PreOrder edit_step.
Proof.
  split; [by intros h|]. intros h1 h2 h3 [F1 H1] [F2 H2]. split; [exact (transitivity F1 F2)|congruence].
Qed.

#[global] Instance keys_step_preorder : PreOrder keys_step.
Proof.
  split; [by intros h|]. intros h1 h2 h3 [F1 H1] [F2 H2].
  split; [exact (transitivity F1 F2)|exact (transitivity H1 H2)].
Qed.

Lemma keys_frame h h' : keys_step h h' → meta_frame h h'.
Proof. by intros [[]]. Qed.

(** Sound for any outcome. *)
Abbreviation keeps m h := (wp m (λ _ h', keys_step h h') (λ _ h', keys_step h h') h).

Lemma keeps_bind {A B} (m : M (hybrid X) A) (f : A → M (hybrid X) B) h :
  keeps m h → (∀ a h', keys_step h h' → keeps (f a) h') → keeps (m ≫= f) h.
Proof.
  intros Hm Hf. apply wp_bind. eapply wp_mono; [exact Hm| |done]. intros a h' Hh.
  eapply wp_mono; [by apply Hf| |]; intros ? h'' Hh'; exact (transitivity Hh Hh').
Qed.

Lemma keeps_require {A} e (x : option A) h : keeps (require e x) h.
Proof. unfold require. destruct x; by wp_step. Qed.

Lemma h_build_keys_keeps hashes r h : keeps (h_build_keys hashes r) h.
Proof.
  unfold wp, h_build_keys. destruct (build_prefix_keys _ _ _ _ _) as [keys chains]. done.
Qed.

Lemma extend_context_keys_keeps r memo put bt h :
  (∀ l h, keys_step h (put l h)) → keeps (extend_context_keys r memo put bt) h.
Proof.
  intros Hput. unfold extend_context_keys. wp_steps. unid.
  eapply wp_mono; [apply keeps_require| |done]. intros keys h1 Hs.
  destruct (bt =? 0); [by wp_step|]. destruct (_ <? _); wp_steps; [|done].
  exact (transitivity Hs (Hput _ h1)).
Qed.

Lemma h_input_keys_keeps r h : keeps (h_input_keys r) h.
Proof.
  unfold h_input_keys. wp_step. wp_step. unid. apply keeps_bind.
  - destruct (h_keys h !! r); [by wp_step|]. destruct (h_block_size h =? 0); [by wp_step|].
    apply keeps_bind; [apply h_build_keys_keeps|]. intros keys h' Hs. by wp_step.
  - intros [] h' Hs. by apply extend_context_keys_keeps.
Qed.

Lemma fine_input_keys_keeps r hashes h : keeps (fine_input_keys r hashes) h.
Proof.
  unfold fine_input_keys. wp_step. wp_step. unid. apply keeps_bind; [apply keeps_require|].
  intros size h1 Hs1. apply keeps_bind.
  - destruct (h_fine_keys h !! r); [by wp_step|]. destruct (size =? 0); [by wp_step|].
    apply keeps_bind; [apply h_build_keys_keeps|]. intros keys h' Hs. by wp_step.
  - intros [] h' Hs. by apply extend_context_keys_keeps.
Qed.

Lemma sized_slot_key_keeps size gid bt index keys h : keeps (sized_slot_key (X:=X) size gid bt index keys) h.
Proof.
  unfold sized_slot_key. destruct (size =? 0); [by wp_step|]. cbv zeta.
  destruct (_ <=? _); [by wp_step|]. apply keeps_bind; [apply keeps_require|].
  intros key h' _. destruct (_ || _); by wp_step.
Qed.

Lemma h_slot_key_keeps r s index keys h : keeps (h_slot_key r s index keys) h.
Proof.
  unfold h_slot_key. wp_step. wp_step. unid. destruct (trace_hash_ids _) as [hashes|];
    [|apply sized_slot_key_keeps].
  destruct (_ <? _); [|apply sized_slot_key_keeps].
  apply keeps_bind; [apply fine_input_keys_keeps|]. intros fine h1 _.
  apply keeps_bind; [apply keeps_require|]. intros size h2 _. apply sized_slot_key_keeps.
Qed.

(** ** Looking up pages *)

Definition in_cache h b : Prop := ∃ k, h_cache h !! k = Some b.

Abbreviation cached_page := (λ key, gets (cache_get (X:=X) key)).

Lemma page_hits_spec r s keys indices h :
  wp (page_hits cached_page r s keys indices)
    (λ pairs h', keys_step h h' ∧ pairs.*1 = indices ∧ ∀ i b, (i, Some b) ∈ pairs → in_cache h b)
    (λ _ h', keys_step h h') h.
Proof.
  revert h. induction indices as [|i indices IH]; intros h; cbn [page_hits].
  { wp_step. split; [done|]. split; [done|]. set_solver. }
  wp_step. eapply wp_mono; [apply h_slot_key_keeps| |done]. intros key h1 Hs1. wp_steps.
  eapply wp_mono; [apply IH| |]; [|intros e h2 Hs2; exact (transitivity Hs1 Hs2)].
  intros pairs h2 (Hs2 & Hk & Hin). wp_step. split; [exact (transitivity Hs1 Hs2)|]. csimpl. split; [by rewrite Hk|].
  pose proof (mf_cache _ _ (keys_frame _ _ Hs1)) as Hc. unfold in_cache in *. rewrite Hc in Hin. intros j b [Heq|Hb]%elem_of_cons; [|by eapply Hin].
  injection Heq as -> Hb. unfold cache_get in Hb. rewrite Hc in Hb. destruct key as [key|]; [|done]. by exists key.
Qed.

Lemma all_present_spec {P} (pairs : list (Z * option P)) l :
  all_present pairs = Some l → l.*1 = pairs.*1 ∧ ∀ i (p : P), (i, p) ∈ l → (i, Some p) ∈ pairs.
Proof.
  unfold all_present. intros Hm%mapM_Some. induction Hm as [|[i o] [j b] pairs l Hx _ IH]; [set_solver|].
  destruct o as [b'|]; [|done]. cbn in Hx. injection Hx as -> ->. destruct IH as [IH1 IH2]. csimpl. split; [by rewrite IH1|].
  intros i' b'. rewrite !elem_of_cons. intros [[= -> ->]|Hin]; [by left|right; auto].
Qed.

Lemma drop_eagle_take {P} s (l : list P) : ∃ n, drop_eagle s l = take n l.
Proof.
  unfold drop_eagle. destruct (sp_eagle s =? 0).
  - exists (length l). by rewrite take_ge.
  - exists (pred (length l)). apply removelast_firstn_len.
Qed.

Lemma take_zrange n lo hi : take n (zrange lo hi) = zrange lo (Z.min hi (lo + Z.of_nat n)).
Proof.
  apply list_eq. intros i. unfold zrange. destruct (decide (i < n)%nat).
  - rewrite lookup_take_lt by done. destruct (decide (Z.of_nat i < hi - lo)).
    + rewrite !lookup_seqZ_lt by lia. done.
    + rewrite !lookup_seqZ_ge by lia. done.
  - rewrite lookup_take_ge by lia. rewrite lookup_seqZ_ge by lia. done.
Qed.

(** The hits of one group as a table. *)
Lemma eagle_table_ok s (l : page_table) hi :
  NoDup l.*1 → (is_window s = false → l.*1 = zrange 0 hi) → table_ok s (drop_eagle s l).
Proof.
  intros Hnd Hfull. destruct (drop_eagle_take s l) as [n ->]. unfold table_ok. rewrite fmap_take. split.
  - eapply sublist_NoDup; [exact Hnd|]. apply sublist_take.
  - intros Hw. pose proof (f_equal length (Hfull Hw)) as Hl. rewrite length_fmap, length_zrange in Hl.
    rewrite (Hfull Hw), take_zrange, length_take, Hl.
    destruct (decide (hi < 0)); [by rewrite !zrange_nil by lia|]. f_equiv. lia.
Qed.

Lemma drop_eagle_elem {P} s (l : list P) x : x ∈ drop_eagle s l → x ∈ l.
Proof.
  destruct (drop_eagle_take s l) as [n ->]. intros Hx. eapply elem_of_sublist; [apply sublist_take|exact Hx].
Qed.

(** The hits of one group: a table of cached pages. *)
Definition group_hit h (n : Z) s (x : Z * page_table) : Prop :=
  x.1 = sp_group_id s ∧ table_ok s x.2 ∧ (∀ b, b ∈ x.2.*2 → in_cache h b) ∧ full_pages 0 n s x.

Lemma needed_pages_nodup bs start blocks s : NoDup (needed_pages bs start blocks s).
Proof. unfold needed_pages. destruct (is_window s); apply NoDup_zrange. Qed.

Lemma boundary_hits_spec r skip keys bs blocks specs h :
  wp (boundary_hits cached_page r skip keys bs 0 blocks specs)
    (λ hits h', keys_step h h' ∧ ∀ l, hits = Some l →
       Forall2 (λ s o, match o with
                       | None => skip = Some (sp_group_id s)
                       | Some x => group_hit h blocks s x
                       end) specs l)
    (λ _ h', keys_step h h') h.
Proof.
  revert h. induction specs as [|s specs IH]; intros h; cbn [boundary_hits].
  { wp_step. split; [done|]. intros l [= <-]. constructor. }
  assert (∀ h1 x, keys_step h h1 → match x with
      | None => skip = Some (sp_group_id s) | Some x => group_hit h blocks s x end →
    wp (rest ← boundary_hits cached_page r skip keys bs 0 blocks specs; mret (cons x <$> rest))
      (λ hits h', keys_step h h' ∧ ∀ l, hits = Some l →
         Forall2 (λ s o, match o with
                         | None => skip = Some (sp_group_id s)
                         | Some x => group_hit h blocks s x
                         end) (s :: specs) l)
      (λ _ h', keys_step h h') h1) as Hrest.
  { intros h1 x Hs1 Hx. wp_step. eapply wp_mono; [apply IH| |].
    2: { intros e h2 Hs2. exact (transitivity Hs1 Hs2). }
    intros rest h2 [Hs2 Hr]. wp_step. split; [exact (transitivity Hs1 Hs2)|]. intros l Hl.
    destruct rest as [rest|]; [|done]. injection Hl as <-. constructor; [done|].
    specialize (Hr rest eq_refl). unfold group_hit, in_cache in *.
    by rewrite (mf_cache _ _ (keys_frame _ _ Hs1)) in Hr. }
  case_bool_decide as Hsk; [by apply Hrest|].
  wp_step. eapply wp_mono; [apply page_hits_spec| |done]. intros pairs h1 (Hs1 & Hk & Hin).
  destruct (all_present pairs) as [l|] eqn:Hall; [|by wp_step].
  apply all_present_spec in Hall as [Hlk Hlin]. apply Hrest; [done|]. split; [done|]. split.
  { apply (eagle_table_ok s l blocks); rewrite Hlk, Hk; [apply needed_pages_nodup|].
    intros Hw. unfold needed_pages. by rewrite Hw. }
  split.
  - intros b ([i b'] & -> & Hb)%list_elem_of_fmap. apply drop_eagle_elem in Hb. cbn. by eapply Hin, Hlin.
  - intros Hw He. cbn [snd]. unfold drop_eagle. rewrite He. cbn. rewrite Hlk, Hk. unfold needed_pages. by rewrite Hw.
Qed.

Lemma full_run_cached h keys b : b ∈ full_run h keys → in_cache h b.
Proof.
  induction keys as [|key keys IH]; cbn; [set_solver|].
  destruct (h_cache h !! _) as [b'|] eqn:Hc; [|set_solver].
  intros [->|Hb]%elem_of_cons; [by eexists|auto].
Qed.

(** The groups of a manager are distinct and its primary group is one of them. *)
Record SpecsOk h : Prop := {
  sk_ids : NoDup (sp_group_id <$> h_specs h);
  sk_full : h_full h ∈ h_specs h;
  sk_full_kind : is_window (h_full h) = false;
  sk_width : 0 <= h_block_size h;
  sk_eagle s : s ∈ h_specs h → is_window s = false → sp_eagle s = 0;
}.

Lemma specs_ok_evolve h h' : evolve h h' → SpecsOk h → SpecsOk h'.
Proof. intros F []. split; unfold h_block_size in *; rewrite ?(ev_specs _ _ F), ?(ev_full _ _ F), ?(ev_layout _ _ F); done. Qed.

Lemma same_group (specs : list GroupSpec) s s' :
  NoDup (sp_group_id <$> specs) → s ∈ specs → s' ∈ specs → sp_group_id s = sp_group_id s' → s = s'.
Proof.
  intros Hnd [i Hi]%list_elem_of_lookup [j Hj]%list_elem_of_lookup Heq.
  assert (i = j) as <-; [|congruence].
  eapply NoDup_lookup; [exact Hnd| |]; rewrite list_lookup_fmap, ?Hi, ?Hj; cbn; [done|by rewrite Heq].
Qed.

Lemma longest_boundary_spec r keys found candidates h :
  SpecsOk h → (∀ b, b ∈ found → in_cache h b) →
  (∀ n, n ∈ candidates → 0 <= n <= Z.of_nat (length found)) →
  wp (longest_boundary r keys found candidates)
    (λ x h', keys_step h h' ∧ hits_shape (h_specs h) x.2 ∧ (∀ b, b ∈ (x.2 ≫= λ x, x.2.*2) → in_cache h b) ∧
       hits_at h x.1 x.2 ∧ (x.1 = 0 ∨ ∃ n, n ∈ candidates ∧ x.1 = n * h_block_size h))
    (λ _ h', keys_step h h') h.
Proof.
  revert h. induction candidates as [|n candidates IH]; intros h Hok Hfound Hcand; cbn [longest_boundary].
  { wp_step. split; [done|]. split; [by left|]. split; [cbn; set_solver|]. by split; left. }
  wp_steps. unid. eapply wp_mono; [apply boundary_hits_spec| |done].
  intros hits h1 [Hs1 Hhits]. pose proof (keys_frame _ _ Hs1) as F1. destruct hits as [hits|].
  - wp_step. specialize (Hhits hits eq_refl). split; [done|]. cbn [snd].
    set (full_hit := (sp_group_id (h_full h),
      drop_eagle (h_full h) (zip (zrange 0 n) (take (Z.to_nat n) found)))).
    specialize (Hcand n ltac:(left)).
    assert (group_hit h n (h_full h) full_hit) as Hfh.
    { unfold full_hit. split; [done|]. cbn [snd].
      assert ((zip (zrange 0 n) (take (Z.to_nat n) found)).*1 = zrange 0 n) as Hz.
      { apply fst_zip. rewrite length_zrange, length_take. lia. }
      split; [apply (eagle_table_ok _ _ n); [rewrite Hz; apply NoDup_zrange|done]|].
      split; [|by intros _ He; cbn [snd]; unfold drop_eagle; rewrite He].
      intros b ([i b'] & -> & Hb%drop_eagle_elem)%list_elem_of_fmap. cbn. apply Hfound.
      apply (list_elem_of_fmap_2 snd) in Hb. cbn in Hb. rewrite snd_zip in Hb
        by (rewrite length_zrange, length_take; lia).
      eapply elem_of_sublist; [apply sublist_take|exact Hb]. }
    assert (Forall2 (group_hit h n) (h_specs h) (default full_hit <$> hits)) as Hall.
    { apply Forall2_fmap_r, Forall2_same_length_lookup_2; [by eapply Forall2_length|].
      intros i s o Hs Ho. pose proof (Forall2_lookup_lr _ _ _ _ _ _ Hhits Hs Ho) as Hx. destruct o as [x|]; [done|].
      cbn. injection Hx as Hid. apply list_elem_of_lookup_2 in Hs.
      by rewrite (same_group (h_specs h) s (h_full h)) by (done || apply Hok). }
    split; [right; eapply Forall2_impl; [exact Hall|]; by intros s x (? & ? & _)|].
    split.
    + intros b (x & Hb & Hx)%list_elem_of_bind. apply list_elem_of_lookup in Hx as [i Hi].
      destruct (Forall2_lookup_r _ _ _ _ _ Hall Hi) as (s & _ & _ & _ & Hc & _). by apply Hc.
    + split; right; exists n; (split; [lia || by left|]); [|done]. split; [done|].
      eapply Forall2_impl; [exact Hall|]. by intros s x (_ & _ & _ & ?).
  - eapply wp_mono; [apply IH| |].
    + eapply specs_ok_evolve; [apply F1|done].
    + unfold in_cache in *. by rewrite (mf_cache _ _ F1).
    + intros m Hm. apply Hcand. by right.
    + intros x h2 (Hs2 & Hsh & Hc & Hat & Hn). split; [exact (transitivity Hs1 Hs2)|].
      unfold hits_at, h_block_size, in_cache in *. rewrite (ev_specs _ _ (mf_evolve _ _ F1)) in Hsh, Hat.
      rewrite (ev_layout _ _ (mf_evolve _ _ F1)) in Hat, Hn. rewrite (mf_cache _ _ F1) in Hc.
      split_and!; try done. destruct Hn as [?|(m & Hm & ?)]; [by left|right]. exists m. split; [by right|done].
    + intros e h2 Hs2. exact (transitivity Hs1 Hs2).
Qed.

(** *** [plan_reuse] *)

Lemma full_run_length h keys : (length (full_run h keys) <= length keys)%nat.
Proof. induction keys as [|key keys IH]; cbn; [done|]. destruct (h_cache h !! _); cbn; lia. Qed.

(** At most the blocks before the last token are found. *)
Lemma full_run_short h r keys :
  let bs := h_block_size h in
  let maximum := Z.min (Z.of_nat (length keys)) (Z.max 0 ((context_len (hreq h r) - 1) / bs)) in
  let n := Z.of_nat (length (full_run h (slice_to maximum keys))) in
  0 < n → n * bs <= Z.max 0 (context_len (hreq h r) - 1).
Proof.
  intros bs maximum n Hn. assert (n <= maximum) as Hm.
  { assert (0 <= maximum) as H0 by (unfold maximum; lia). pose proof (full_run_length h (slice_to maximum keys)) as Hf.
    rewrite (slice_to_take _ _ H0), length_take in Hf. subst n. rewrite (slice_to_take _ _ H0). lia. }
  destruct (Z.lt_total 0 bs) as [Hbs|[<-|Hbs]]; [|lia|nia].
  pose proof (Z.mul_div_le (context_len (hreq h r) - 1) bs Hbs). unfold maximum in Hm. nia.
Qed.

Lemma fresh_plan_spec r h :
  SpecsOk h → cache_ok h →
  wp (fresh_plan r) (λ p h', keys_step h h' ∧ memo_ok h (context_len (hreq h r)) (h_cache_version h) p)
    (λ _ h', keys_step h h') h.
Proof.
  intros Hok Hc. unfold fresh_plan. wp_step. eapply wp_mono; [apply h_input_keys_keeps| |done].
  intros keys h1 Hs1. pose proof (keys_frame _ _ Hs1) as F1. wp_steps. unid.
  destruct (h_block_size h1 =? 0); [by wp_step|].
  set (found := full_run h1 _). wp_step.
  eapply wp_mono; [apply longest_boundary_spec| |].
  - eapply specs_ok_evolve; [apply F1|done].
  - apply full_run_cached.
  - intros n. rewrite elem_of_reverse, elem_of_zrange. lia.
  - intros [matched hits] h2 (Hs2 & Hsh & Hin & Hat & Hn). cbn [fst snd] in *. wp_step.
    unfold hits_at, in_cache in Hat, Hn, Hin. unfold h_block_size in Hat, Hn. rewrite (ev_specs _ _ (mf_evolve _ _ F1)) in Hsh, Hat.
    rewrite (ev_layout _ _ (mf_evolve _ _ F1)) in Hat, Hn. rewrite (mf_cache _ _ F1) in Hin.
    set (c := matched <? _).
    assert (∀ h3, keys_step h2 h3 → keys_step h h3) as Hend.
    { intros h3 Hs3. exact (transitivity Hs1 (transitivity Hs2 Hs3)). }
    assert (wp (when c (set_hreq r (λ q, q <| shared_prefix_boundaries := [Z.of_nat (length found) * h_block_size h1] |>)))
      (λ _ h', keys_step h2 h') no_raise h2) as Hw.
    { unfold when, set_hreq. destruct c; wp_step; [|done]. split; [by split|].
      by apply (same_lengths_edit r (λ q, q <| shared_prefix_boundaries := [Z.of_nat (length found) * h_block_size h1] |>)). }
    eapply wp_mono; [exact Hw| |done]. intros u h3 Hs3. wp_step. split; [by apply Hend|]. split; try done; cbn [hp_hit_tokens].
    + destruct Hn as [->|(n & Hn & ->)]; [lia|]. rewrite elem_of_reverse, elem_of_zrange in Hn.
      pose proof (full_run_short h1 r keys) as Hlen. rewrite <- (proj1 (proj2 Hs1 r)).
      cbv zeta in Hlen. fold found in Hlen. specialize (Hlen ltac:(lia)).
      assert (logical_block_tokens (h_layout h) = h_block_size h1) as -> by (unfold h_block_size; symmetry; f_equal; apply F1).
      destruct (Z.le_gt_cases 0 (h_block_size h1)); [|nia].
      etransitivity; [|exact Hlen]. apply Z.mul_le_mono_nonneg_r; lia.
    + intros b Hb. destruct (Hin b Hb) as [k Hk]. by apply (co_cache _ Hc k b).
    + intros b _ Hb. by apply Hin.
  - intros e h2 Hs2. exact (transitivity Hs1 Hs2).
Qed.

(** The state a remembered plan is valid for *)
Definition plan_state (r : Z) h : Z * Z * Z * Z :=
  (context_len (hreq h r), num_logical_token_blocks (hreq h r), h_cache_version h, Z.of_nat (size (h_cache h))).

Lemma plan_state_same r h h' :
  h_cache_version h' = h_cache_version h → h_cache h' = h_cache h → same_lengths h h' →
  plan_state r h' = plan_state r h.
Proof. intros Hv Hc Hl. destruct (Hl r) as (Hx & Hn & _). unfold plan_state. by rewrite Hx, Hn, Hv, Hc. Qed.

(** A plan that is still valid is not made again. *)
Lemma plan_remembered r p h : h_plans h !! r = Some (plan_state r h, p) → h_plan_reuse r h = (Ok p, h).
Proof.
  intros Hp. unfold h_plan_reuse, gets. cbv [mbind M_bind mret M_ret]. unid. rewrite Hp. fold (plan_state r h).
  by rewrite bool_decide_true.
Qed.

(** A plan names cached pages, whether it is new or remembered. *)
Lemma h_plan_reuse_spec r h :
  SpecsOk h → cache_ok h → PlanInv h →
  wp (h_plan_reuse r)
    (λ p h', meta_frame h h' ∧ PlanInv h' ∧ memo_ok h (context_len (hreq h r)) (h_cache_version h) p ∧
       same_lengths h h' ∧ h_plans h' !! r = Some (plan_state r h', p))
    (λ _ h', keys_step h h') h.
Proof.
  intros Hok Hc HP. unfold h_plan_reuse. wp_steps. unid.
  fold (plan_state r h). set (state := plan_state r h). set (Q := λ p h', meta_frame h h' ∧ PlanInv h' ∧ memo_ok h (context_len (hreq h r)) (h_cache_version h) p ∧
    same_lengths h h' ∧ h_plans h' !! r = Some (plan_state r h', p)).
  assert (wp (plan ← fresh_plan r; modify (λ h, h <| h_plans ::= <[r := (state, plan)]> |>) ;; mret plan)
    Q (λ _ h', keys_step h h') h) as Hfill.
  { wp_step. eapply wp_mono; [by apply fresh_plan_spec| |done]. intros p h1 [[[F1 Hp1] Hl1] Hm]. wp_steps.
    set (h2 := h1 <| h_plans ::= <[r := (state, p)]> |>).
    assert (meta_frame h h2) as F2 by (destruct F1 as [[] ]; by split).
    split; [done|]. split; [|split; [done|]].
    2: { split; [done|]. assert (plan_state r h2 = state) as ->; [apply (plan_state_same r h h2); [apply (mf_version _ _ F2)|apply (mf_cache _ _ F2)|exact Hl1]|].
         change (<[r := (state, p)]> (h_plans h1) !! r = Some (state, p)). apply lookup_insert_eq. }
    intros r' c n v m p' Hl. unfold h2 in Hl. cbn in Hl. rewrite Hp1 in Hl.
    destruct (decide (r = r')) as [<-|Hne].
    - rewrite lookup_insert_eq in Hl. injection Hl as <- <- <- <- <-. eapply memo_evolve; [apply F2|done].
    - rewrite lookup_insert_ne in Hl by done. eapply memo_evolve; [apply F2|]. by eapply HP. }
  destruct (h_plans h !! r) as [[memo p]|] eqn:Hl; [|exact Hfill].
  case_bool_decide as Hst; [|exact Hfill]. subst memo. wp_step. split; [done|]. split; [done|].
  split; [by eapply HP|]. by split.
Qed.
End Plans.
