(* ===== verification/HybridAdmit.v ===== *)
(** * Admission and release in the hybrid block manager

    [allocate] fills the tables of a new request with the pages of its plan;
    [release_request_blocks] gives the references of a request back.  Both keep the
    state [Good]: counts, queue, prefix map, tables, spans and remembered plans. *)

From stdpp Require Import gmap list list_numbers.
From Stdlib Require Import ZArith Lia.
From S2P Require Import Prelude.
From S2P Require Import Block.
From S2P Require Import PrefixKeys.
From S2P Require Import PyFloat.
From S2P Require Import Request.
From S2P Require Import HybridLayout.
From S2P Require Import HybridState.
From S2P Require Import HybridManager.
From S2P Require Import HybridInv.
From S2P Require Import HybridTables.
From S2P Require Import HybridGrow.
From S2P Require Import HybridPlans.

Open Scope Z_scope.

Section Admit.
Context {X : Type} `{Digest}.
Implicit Types (h : hybrid X) (b : slot).

(** ** The invariant of the manager *)

Record Good h : Prop := {
  gd_inv : HInv [] [] h;
  gd_tab : TabInv h;
  gd_plans : PlanInv h;
  gd_specs : SpecsOk h;
}.

(** The state of transfers and of the connectors, which most operations keep. *)
Definition same_ext h h' : Prop := h_transfer h' = h_transfer h ∧ h_ext h' = h_ext h.

#[global] Instance same_ext_preorder : PreOrder same_ext.
Proof. split; [by intros h|]. intros h1 h2 h3 [] []. split; congruence. Qed.

Lemma meta_good h h' : meta_frame h h' → PlanInv h' → Good h → Good h'.
Proof.
  intros F HP []. split; [by eapply meta_inv|by eapply meta_tab|done|].
  eapply specs_ok_evolve; [apply F|done].
Qed.

Lemma meta_back h h' : meta_frame h h' → evolve h' h.
Proof. intros [[] ]. split; try done. lia. Qed.

Lemma edit_step_good h h' : edit_step h h' → Good h → Good h'.
Proof.
  intros [F Hp] Hg. apply (meta_good h); [done| |done].
  eapply plan_inv_evolve; [apply F| |apply Hg]. by rewrite Hp.
Qed.

Lemma keys_step_good h h' : keys_step h h' → Good h → Good h'.
Proof. intros [Hs _]. by apply edit_step_good. Qed.

(** ** Installing cached pages *)

(** No slot changes its identity. *)
Definition same_hash h h' : Prop := ∀ b, block_hash (hblk h' b) = block_hash (hblk h b).

#[global] Instance same_hash_preorder : PreOrder same_hash.
Proof. split; [by intros h b|]. intros h1 h2 h3 H1 H2 b. by rewrite H2, H1. Qed.

Lemma dict_set_fst {V} k (v : V) (d : list (Z * V)) : k ∈ d.*1 → (dict_set k v d).*1 = d.*1.
Proof.
  induction d as [|[k' v'] d IH]; csimpl; [set_solver|]. intros [->|Hin]%elem_of_cons.
  - by rewrite Z.eqb_refl.
  - destruct (k =? k'); csimpl; [done|]. by rewrite IH.
Qed.

Lemma insert_ids (ts : list (Z * page_table)) i gid t t' :
  ts !! i = Some (gid, t) → (<[i := (gid, t')]> ts).*1 = ts.*1.
Proof.
  intros Hi. rewrite list_fmap_insert. cbn. apply list_insert_id. by rewrite list_lookup_fmap, Hi.
Qed.

Lemma install_pages_spec E r i gid ts done_ todo h :
  HInv [] E h → h_tables h !! r = Some ts → NoDup ts.*1 → ts !! i = Some (gid, done_) →
  NoDup (done_ ++ todo).*1 → (∀ b, b ∈ todo.*2 → usable h b) →
  wp (for_ todo (install_page r gid))
    (λ _ h', HInv [] E h' ∧ tab_frame r h h' ∧ same_hash h h' ∧
       h_tables h' !! r = Some (<[i := (gid, done_ ++ todo)]> ts)) no_raise h.
Proof.
  revert done_ ts h. induction todo as [|[k b] todo IH]; intros done_ ts h Hi Ht Hids Hti Hnd Hus.
  { cbn [for_]. wp_step. rewrite app_nil_r, list_insert_id by done. done. }
  assert (usable h b) as Hb by (apply Hus; left).
  cbn [for_]. wp_step. unfold install_page at 1. cbn [fst snd]. wp_step.
  eapply wp_mono; [apply (h_acquire_spec [] E b); [done|done|apply not_elem_of_nil]| |done].
  intros _ h1 (Hi1 & F1 & _ & Hh1).
  assert (dict_set k b done_ = done_ ++ [(k, b)]) as Hset.
  { apply dict_set_new. rewrite fmap_app in Hnd. apply NoDup_app in Hnd as (_ & Hd & _).
    intros Hk. apply (Hd k Hk). left. }
  eapply edit_table_spec; [done|by rewrite (sf_tables _ _ F1)|done|]. rewrite Hset.
  set (ts1 := <[i := (gid, done_ ++ [(k, b)])]> ts).
  set (h2 := put_table r i gid (done_ ++ [(k, b)]) ts h1).
  assert (tab_frame r h h2) as F2
    by exact (transitivity (slot_tab_frame r _ _ F1) (put_tab_frame r i gid _ ts h1)).
  assert (ts1 !! i = Some (gid, done_ ++ [(k, b)])) as Hti1
    by (apply list_lookup_insert_eq; by eapply lookup_lt_Some).
  eapply wp_mono; [eapply (IH (done_ ++ [(k, b)]) ts1 h2)| |done].
  - eapply inv_put_table; [exact Hi1|by rewrite (sf_tables _ _ F1)|done|].
    rewrite fmap_app. cbn. by rewrite <- app_assoc.
  - cbn. by rewrite lookup_insert_eq.
  - unfold ts1. by erewrite insert_ids.
  - done.
  - by rewrite <- app_assoc.
  - intros b' Hb'. rewrite (tab_frame_usable r h) by done. apply Hus. by right.
  - intros _ h3 (Hi3 & F3 & Hc3 & Ht3). split; [done|]. split; [exact (transitivity F2 F3)|].
    split; [exact (transitivity (Hh1 : same_hash h h1) Hc3)|]. rewrite Ht3. unfold ts1. by rewrite list_insert_insert_eq, <- app_assoc.
Qed.

Lemma install_groups_spec E r specs hits pre h :
  HInv [] E h → tables_ok specs hits → NoDup (pre.*1 ++ (sp_group_id <$> specs)) →
  h_tables h !! r = Some (pre ++ ((λ s, (sp_group_id s, [])) <$> specs)) →
  (∀ b, b ∈ (hits ≫= λ x, x.2.*2) → usable h b) →
  wp (for_ hits (λ x, for_ x.2 (install_page r x.1)))
    (λ _ h', HInv [] E h' ∧ tab_frame r h h' ∧ same_hash h h' ∧
       h_tables h' !! r = Some (pre ++ hits)) no_raise h.
Proof.
  intros Hi Hok. revert pre h Hi. induction Hok as [|s [gid t] specs hits [Hgid [Hnd _]] Hok IH];
    intros pre h Hi Hids Ht Hus.
  { cbn [for_]. by wp_step. }
  cbn [fst snd] in *. subst gid. cbn [for_ snd fst]. wp_step.
  set (ts := pre ++ ((λ s, (sp_group_id s, [])) <$> s :: specs)) in *.
  assert (ts !! length pre = Some (sp_group_id s, [])) as Hti.
  { unfold ts. rewrite lookup_app_r by lia. by rewrite Nat.sub_diag. }
  assert (NoDup ts.*1) as Hnds.
  { unfold ts. rewrite fmap_app, <- list_fmap_compose. exact Hids. }
  eapply wp_mono; [eapply (install_pages_spec E r (length pre) (sp_group_id s) ts [] t); try done| |done].
  { intros b Hb. apply Hus. csimpl. apply elem_of_app. by left. }
  intros _ h1 (Hi1 & F1 & Hc1 & Ht1). cbn [app] in Ht1.
  assert (<[length pre := (sp_group_id s, t)]> ts =
    (pre ++ [(sp_group_id s, t)]) ++ ((λ s, (sp_group_id s, [])) <$> specs)) as Hts.
  { unfold ts. rewrite insert_app_r_alt by lia. rewrite Nat.sub_diag, <- app_assoc. done. }
  rewrite Hts in Ht1.
  eapply wp_mono; [apply (IH (pre ++ [(sp_group_id s, t)]) h1 Hi1)| |done].
  - rewrite fmap_app, <- app_assoc. done.
  - done.
  - intros b Hb. rewrite (tab_frame_usable r h) by done. apply Hus. csimpl. apply elem_of_app. by right.
  - intros _ h2 (Hi2 & F2 & Hc2 & Ht2). split; [done|]. split; [exact (transitivity F1 F2)|].
    split; [exact (transitivity Hc1 Hc2)|]. by rewrite Ht2, <- app_assoc.
Qed.

(** ** Spans *)

Lemma window_spans_ok specs ts :
  NoDup (sp_group_id <$> specs) → tables_ok specs ts → spans_ok specs ts (window_spans specs ts).
Proof.
  intros Hnd Hok. split; [apply length_fmap|]. intros i s x o Hs Hx Ho.
  unfold window_spans in Ho. rewrite list_lookup_fmap, Hs in Ho. injection Ho as <-.
  destruct (Forall2_lookup_lr _ _ _ _ _ _ Hok Hs Hx) as [Hid [Hndt _]]. destruct x as [gid t]. cbn in *. subst gid.
  destruct (is_window s) eqn:Hw; [|done]. rewrite (dict_get_lookup i (sp_group_id s) t); [|by rewrite (tables_ok_ids specs)|done].
  cbn. by apply table_span_ok.
Qed.

(** The tables of [r] are [ts] and its spans were computed from them. *)
Lemma tabinv_refreshed r ts h h' :
  TabInv h → h_specs h' = h_specs h → tables_ok (h_specs h) ts →
  (∀ r', r' ≠ r → h_tables h' !! r' = h_tables h !! r') →
  (∀ r', r' ≠ r → h_spans h' !! r' = h_spans h !! r') →
  h_tables h' !! r = Some ts → h_spans h' !! r = Some (window_spans (h_specs h) ts) → TabInv h'.
Proof.
  intros Hinv Hsp Hok Ht Hs Htr Hsr. split; rewrite ?Hsp.
  - apply Hinv.
  - intros r' ts'. destruct (decide (r' = r)) as [->|Hne]; [rewrite Htr; by intros [= <-]|].
    rewrite Ht by done. apply Hinv.
  - intros r' ts'. destruct (decide (r' = r)) as [->|Hne].
    + rewrite Htr, Hsr. intros [= <-]. eexists. split; [done|]. apply window_spans_ok; [apply Hinv|done].
    + rewrite Ht, Hs by done. apply Hinv.
  - intros r'. destruct (decide (r' = r)) as [->|Hne]; [by rewrite Htr|]. rewrite Ht, Hs by done. apply Hinv.
Qed.

Lemma refresh_spans_spec r ts (Q : unit → hybrid X → Prop) E h :
  h_tables h !! r = Some ts → Q tt (h <| h_spans ::= <[r := window_spans (h_specs h) ts]> |>) →
  wp (refresh_spans r) Q E h.
Proof. intros Ht HQ. unfold refresh_spans. wp_steps. unid. by eapply wp_require. Qed.

(** ** Whole requests *)

Lemma slots_insert h h' r ts :
  h_tables h !! r = None → h_tables h' = <[r := ts]> (h_tables h) →
  all_table_slots h' ≡ₚ request_slots ts ++ all_table_slots h.
Proof. intros Hn Ht. unfold all_table_slots. rewrite Ht, map_to_list_insert by done. done. Qed.

Lemma slots_delete h h' r ts :
  h_tables h !! r = Some ts → h_tables h' = delete r (h_tables h) →
  all_table_slots h ≡ₚ request_slots ts ++ all_table_slots h'.
Proof.
  intros Hs Ht. apply (slots_insert h' h r ts).
  - by rewrite Ht, lookup_delete_eq.
  - by rewrite Ht, insert_delete_id.
Qed.

(** References move between the tables and the running operation. *)
Lemma inv_retable L E E' h h' :
  HInv L E h → h_blocks h' = h_blocks h → h_num_slots h' = h_num_slots h →
  h_transfer h' = h_transfer h → h_free_uncached h' = h_free_uncached h →
  h_free_cached h' = h_free_cached h → h_cache h' = h_cache h → h_duplicates h' = h_duplicates h →
  all_table_slots h' ++ E' ≡ₚ all_table_slots h ++ E → HInv L E' h'.
Proof.
  intros Hi H1 H2 H3 H4 H5 H6 H7 Hs. pose proof (cache_ok_same h h' H1 H6 H7 (hv_cache _ _ _ Hi)).
  destruct Hi. unfold usable, hblk, transfers, free_slots in *. split; unfold usable, hblk, transfers, free_slots;
    rewrite ?H1, ?H2, ?H3, ?H4, ?H5; try done.
  - intros b Hb. rewrite Hs. auto.
  - intros b. rewrite Hs. auto.
Qed.

Definition empty_tables (specs : list GroupSpec) : list (Z * page_table) :=
  (λ s, (sp_group_id s, [])) <$> specs.

Lemma empty_tables_slots specs : request_slots (empty_tables specs) = [].
Proof. unfold request_slots, empty_tables. by induction specs. Qed.

Lemma empty_tables_ok specs : tables_ok specs (empty_tables specs).
Proof.
  unfold tables_ok, empty_tables. induction specs as [|s specs IH]; csimpl; constructor; [|done].
  split; [done|]. split; [constructor|done].
Qed.

(** The tables an admission installs *)
Definition plan_tables (specs : list GroupSpec) (p : HybridReusePlan) : list (Z * page_table) :=
  match hp_group_hits p with [] => empty_tables specs | hits => hits end.

Lemma plan_tables_ok h context version p :
  memo_ok h context version p → tables_ok (h_specs h) (plan_tables (h_specs h) p).
Proof.
  intros Hm. unfold plan_tables. destruct (mo_shape _ _ _ _ Hm) as [->|Hok]; [apply empty_tables_ok|].
  destruct (hp_group_hits p); [apply empty_tables_ok|done].
Qed.

Lemma h_allocate_spec r h :
  Good h →
  wp (h_allocate r)
    (λ _ h', Good h' ∧ same_ext h h' ∧ evolve h h' ∧ h_tables h !! r = None ∧
       (∀ r', r' ≠ r → h_tables h' !! r' = h_tables h !! r') ∧ same_hash h h' ∧
       same_lengths h h' ∧
       ∃ p, memo_ok h (context_len (hreq h r)) (h_cache_version h) p ∧ (h_plan_reuse r h).1 = Ok p ∧
         h_tables h' !! r = Some (plan_tables (h_specs h) p))
    (λ e h', Good h' ∧ same_ext h h' ∧ evolve h h' ∧ h_tables h' = h_tables h ∧ same_hash h h' ∧
       (is_Some (h_tables h !! r) ∨ (h_plan_reuse r h).1 = Raise e)) h.
Proof.
  intros Hg. unfold h_allocate. wp_steps. unid. case_bool_decide as Ht; [wp_step; split_and!; try done; by left|].
  rewrite <- eq_None_not_Some in Ht. wp_step.
  eapply wp_mono; [apply wp_outcome, h_plan_reuse_spec; apply Hg| |].
  2: { intros e h1 [He Hs1]. split; [exact (keys_step_good h h1 Hs1 Hg)|]. apply keys_frame in Hs1 as F1.
       split; [split; apply F1|]. split; [apply F1|]. split; [apply F1|]. split; [|by right].
       intros b. unfold hblk. by rewrite (mf_blocks _ _ F1). }
  intros p h1 (Hout & F1 & HP1 & Hm & Hl1 & _). pose proof (meta_good _ _ F1 HP1 Hg) as Hg1. wp_step. wp_step.
  match goal with |- wp _ _ _ ?h0 => set (h2 := h0) end.
  assert (h_specs h1 = h_specs h) as Hsp by apply F1.
  assert (h_tables h1 = h_tables h) as Ht1 by apply F1.
  assert (h_tables h2 = <[r := empty_tables (h_specs h)]> (h_tables h)) as Ht2.
  { unfold h2. cbn. by rewrite Ht1, Hsp. }
  assert (HInv [] [] h2) as Hi2.
  { eapply (inv_retable [] [] [] h1); try done; [apply Hg1|]. rewrite !app_nil_r.
    rewrite (slots_insert h1 h2 r (empty_tables (h_specs h))).
    - by rewrite empty_tables_slots.
    - by rewrite Ht1.
    - by rewrite Ht2, Ht1. }
  assert (evolve h h2) as E2 by (destruct F1 as [[] ]; by split).
  assert (same_ext h h2) as S2 by (destruct F1; by split).
  wp_step.
  assert (wp (for_ (hp_group_hits p) (λ x, for_ x.2 (install_page r x.1)))
    (λ _ h', HInv [] [] h' ∧ tab_frame r h2 h' ∧ same_hash h2 h' ∧
      h_tables h' !! r = Some (plan_tables (h_specs h) p)) no_raise h2) as Hloop.
  { unfold plan_tables. destruct (mo_shape _ _ _ _ Hm) as [->|Hok].
    - cbn [for_]. wp_step. split_and!; try done. by rewrite Ht2, lookup_insert_eq.
    - eapply wp_mono; [apply (install_groups_spec [] r (h_specs h) _ [] h2 Hi2 Hok)| |done].
      + apply Hg.
      + cbn [app]. by rewrite Ht2, lookup_insert_eq.
      + intros b Hb. rewrite (evolve_usable h) by done. by apply (mo_usable _ _ _ _ Hm).
      + intros _ h3 (Hi3 & F3 & Hc3 & Ht3). split_and!; try done. rewrite Ht3. cbn [app].
        destruct (hp_group_hits p) eqn:Hh; [|done]. by inversion Hok. }
  eapply wp_mono; [exact Hloop| |done]. intros u h3 (Hi3 & F3 & Hc3 & Ht3).
  wp_step. eapply refresh_spans_spec; [done|].
  match goal with |- wp _ _ _ ?h0 => set (h4 := h0) end.
  unfold set_hreq. wp_step.
  match goal with |- _ ∧ same_ext _ ?h0 ∧ _ => set (h5 := h0) end.
  pose proof (transitivity E2 (tab_evolve r _ _ F3)) as E3.
  assert (evolve h h5) as E5 by (destruct E3; by split).
  assert (same_ext h h5) as S5.
  { destruct S2. destruct F3. split; cbn; congruence. }
  assert (∀ r', r' ≠ r → h_tables h5 !! r' = h_tables h !! r') as Hoth.
  { intros r' Hne. unfold h5, h4. cbn. rewrite (tf_tables _ _ _ F3), Ht2 by done. by rewrite lookup_insert_ne. }
  assert (same_hash h h5) as Hh5.
  { intros b. transitivity (block_hash (hblk h2 b)); [exact (Hc3 b)|]. unfold h2, hblk. cbn. by rewrite (mf_blocks _ _ F1). }
  assert (same_lengths h h5) as Hl5.
  { transitivity h1; [exact Hl1|]. apply (same_lengths_edit r (admit_hybrid (h_block_size h) p)); [done|].
    unfold h5, h4. cbn. by rewrite (tf_reqs _ _ _ F3). }
  split; [|split_and!; try done; by exists p].
  split.
  - by eapply inv_same.
  - apply (tabinv_refreshed r (plan_tables (h_specs h) p) h h5); try done; [apply Hg|apply E5|by eapply plan_tables_ok| |].
    + intros r' Hne. unfold h5, h4. cbn. rewrite lookup_insert_ne by done.
      rewrite (tf_spans _ _ _ F3) by done. unfold h2. cbn. by rewrite (mf_spans _ _ F1).
    + unfold h5, h4. cbn. by rewrite lookup_insert_eq, (ev_specs _ _ E3).
  - pose proof (transitivity (meta_back _ _ F1) E5) as E15.
    eapply plan_inv_evolve; [exact E15| |exact HP1]. intros r' x. unfold h5, h4. cbn.
    by rewrite (tf_plans _ _ _ F3).
  - eapply specs_ok_evolve; [exact E5|apply Hg].
Qed.

(** ** Release of a request *)

Lemma release_tables_spec E ts h :
  HInv [] (request_slots ts ++ E) h →
  wp (for_ ts (λ t, release_many (reverse t.2.*2))) (λ _ h', HInv [] E h' ∧ counts_only h h') no_raise h.
Proof.
  revert h. induction ts as [|t ts IH]; intros h Hi; cbn [for_]; [by wp_step|].
  wp_step. eapply wp_mono; [apply (release_many_spec (request_slots ts ++ E))| |done].
  { eapply inv_perm; [reflexivity| |exact Hi]. unfold request_slots. csimpl.
    by rewrite reverse_Permutation, <- app_assoc. }
  intros _ h1 (Hi1 & C1 & _). eapply wp_mono; [by apply IH| |done].
  intros _ h2 (Hi2 & C2). split; [done|]. exact (transitivity C1 C2).
Qed.

Lemma tabinv_delete r h h' :
  TabInv h → h_specs h' = h_specs h → h_tables h' = delete r (h_tables h) →
  h_spans h' = delete r (h_spans h) → TabInv h'.
Proof.
  intros [] Hsp Ht Hs. split; rewrite ?Hsp, ?Ht, ?Hs; [done|..].
  - intros r' ts [_ Hl]%lookup_delete_Some. eauto.
  - intros r' ts [Hne Hl]%lookup_delete_Some. rewrite lookup_delete_ne by done. eauto.
  - intros r' [->|Hl]%lookup_delete_None; [by rewrite lookup_delete_eq|].
    destruct (decide (r = r')) as [<-|]; [by rewrite lookup_delete_eq|].
    rewrite lookup_delete_ne by done. auto.
Qed.

Lemma h_release_request_blocks_spec r h :
  Good h →
  wp (h_release_request_blocks r)
    (λ _ h', Good h' ∧ same_ext h h' ∧ evolve h h' ∧ h_tables h' = delete r (h_tables h) ∧
       h_cache h' = h_cache h ∧ ∀ b, block_hash (hblk h' b) = block_hash (hblk h b)) no_raise h.
Proof.
  intros Hg. unfold h_release_request_blocks. wp_steps. unid.
  set (h1 := h <| h_tables ::= delete r |>).
  assert (HInv [] (request_slots (default [] (h_tables h !! r)) ++ []) h1) as Hi1.
  { eapply (inv_retable [] [] _ h); try done; [apply Hg|]. rewrite !app_nil_r.
    destruct (h_tables h !! r) as [ts|] eqn:Ht; cbn [default].
    - rewrite (slots_delete h h1 r ts) by done. by rewrite Permutation_app_comm.
    - rewrite app_nil_r. unfold all_table_slots, h1. cbn. by rewrite delete_id. }
  eapply wp_mono; [by apply release_tables_spec| |done]. intros _ h2 (Hi2 & C2).
  pose proof (cn_frame _ _ C2) as F2. wp_step.
  set (c := bool_decide _).
  assert (wp (when c (set_hreq r (λ q, q <| physical_token_blocks := [] |>)))
    (λ _ h', meta_frame h2 h' ∧ h_plans h' = h_plans h2 ∧ h_tables h' = h_tables h2) no_raise h2) as Hw
    by (unfold when; by destruct c).
  eapply wp_mono; [exact Hw| |done]. intros u h3 (F3 & Hp3 & Ht3). wp_step.
  match goal with |- _ ∧ same_ext _ ?h0 ∧ _ => set (h4 := h0) end.
  assert (evolve h h4) as E4.
  { assert (evolve h h1) as E1 by by split.
    pose proof (transitivity E1 (transitivity (slot_evolve _ _ F2) (mf_evolve _ _ F3))) as E3. destruct E3; by split. }
  assert (h_tables h4 = delete r (h_tables h)) as Ht4.
  { unfold h4. cbn. by rewrite Ht3, (sf_tables _ _ F2). }
  split; [|split; [|split; [done|split; [done|]]]].
  - split.
    + apply (meta_inv _ _ _ _ F3) in Hi2. by eapply (inv_same _ _ h3).
    + eapply (tabinv_delete r h); [apply Hg|apply E4|done|]. unfold h4. cbn.
      by rewrite (mf_spans _ _ F3), (sf_spans _ _ F2).
    + eapply plan_inv_evolve; [exact E4| |apply Hg]. intros r' x. unfold h4. cbn. rewrite Hp3, (sf_plans _ _ F2).
      by intros [_ ?]%lookup_delete_Some.
    + eapply specs_ok_evolve; [exact E4|apply Hg].
  - split; unfold h4; cbn; [rewrite (mf_transfer _ _ F3), (sf_transfer _ _ F2)|
      rewrite (mf_ext _ _ F3), (sf_ext _ _ F2)]; done.
  - split; [unfold h4; cbn; by rewrite (mf_cache _ _ F3), (cn_cache _ _ C2)|].
    intros b. etransitivity; [|exact (cn_hash _ _ C2 b)]. unfold h4, hblk. cbn. by rewrite (mf_blocks _ _ F3).
Qed.
End Admit.
