(* ===== verification/HybridStart.v ===== *)
(** * The grouped cache at its start, and its own check

    A manager built for a layout of [hybrid_kv_layout] starts in a [Good] state; in
    every [Good] state [validate_conservation] returns true and changes nothing. *)

From stdpp Require Import gmap list list_numbers.
From Stdlib Require Import ZArith Lia.
From S2P Require Import Prelude.
From S2P Require Import Block.
From S2P Require Import PrefixKeys.
From S2P Require Import PyFloat.
From S2P Require Import Request.
From S2P Require Import HybridLayout.
From S2P Require Import HybridState.
From S2P Require Import HybridManager.
From S2P Require Import HybridInv.
From S2P Require Import HybridTables.
From S2P Require Import HybridGrow.
From S2P Require Import HybridEnsure.
From S2P Require Import HybridPlans.
From S2P Require Import HybridAdmit.

Open Scope Z_scope.

Section Start.
Context {X : Type} `{Digest}.
Implicit Types (h : hybrid X) (b : slot).

(** ** The first state *)

Lemma full_group_found L g : full_group L = Some g → g ∈ groups L ∧ group_kind g = Some Full.
Proof.
  unfold full_group. intros ([i g'] & Hf & [= ->])%bind_Some. apply list_find_Some in Hf as (Hi & Hk & _).
  split; [by eapply list_elem_of_lookup_2|done].
Qed.

Lemma new_hybrid_specs reqs chains (ext : X) L n model w h :
  layout_ok L → new_hybrid reqs chains ext L n model w = Ok h → SpecsOk h.
Proof.
  intros [Hids Hfull Heag Hwidth _]. unfold new_hybrid. destruct (n <? 2); [done|]. destruct (ftrunc _); [|done].
  destruct (full_group L) as [g|] eqn:Hg; [|done]. intros [= <-]. apply full_group_found in Hg as [Hin Hk].
  split; cbn.
  - by rewrite <- list_fmap_compose.
  - by apply list_elem_of_fmap_2.
  - unfold is_window. cbn. by rewrite (Hfull g Hin Hk).
  - exact Hwidth.
  - intros s (g' & -> & Hg')%list_elem_of_fmap. unfold is_window. cbn. intros H0%negb_false_iff%Z.eqb_eq.
    by rewrite (Heag g' Hg' H0).
Qed.

Lemma new_blocks_lookup bs (n : nat) b :
  (0 < b < n)%nat →
  ((new_block GPU 0 bs) <| ref_count := 1 |> :: ((λ i, new_block GPU (Z.of_nat i) bs) <$> seq 1 (n - 1))) !! b =
  Some (new_block (K:=slot_key) GPU (Z.of_nat b) bs).
Proof.
  intros Hb. rewrite lookup_cons_ne_0 by lia. rewrite list_lookup_fmap, lookup_seq_lt by lia. cbn. do 2 f_equal. lia.
Qed.

Lemma new_hybrid_good reqs chains (ext : X) L n model w h :
  layout_ok L → new_hybrid reqs chains ext L n model w = Ok h →
  Good h ∧ h_tables h = ∅ ∧ h_transfer h = ∅ ∧ h_ext h = ext.
Proof.
  intros HL Hnew. pose proof (new_hybrid_specs _ _ _ _ _ _ _ _ HL Hnew) as Hsp. revert Hnew.
  unfold new_hybrid. destruct (Z.ltb_spec n 2) as [|Hn]; [done|]. destruct (ftrunc _); [|done].
  destruct (full_group L) as [g|]; [|done]. intros [= <-]. split; [|done].
  match goal with |- Good ?h0 => set (h := h0) in * end.
  assert (length (h_blocks h) = Z.to_nat n) as Hlen.
  { unfold h. cbn. rewrite length_fmap, length_seq. lia. }
  assert (∀ b, usable h b → hblk h b = new_block GPU (Z.of_nat b) (logical_block_tokens L)) as Hblk.
  { intros b [Hb0 Hb]. rewrite Hlen in Hb. unfold hblk. apply list_lookup_total_correct.
    by apply (new_blocks_lookup _ (Z.to_nat n)). }
  split; [| | |done].
  - split.
    + rewrite Hlen. unfold h. cbn. lia.
    + intros b Hb. by rewrite Hblk.
    + done.
    + intros b Hb. by apply elem_of_nil in Hb.
    + rewrite app_nil_r. unfold free_slots, h. cbn. rewrite app_nil_r, reverse_Permutation. apply NoDup_seq.
    + intros b. rewrite app_nil_r. unfold free_slots, h. cbn [h_free_uncached h_free_cached].
      rewrite app_nil_r, elem_of_reverse, elem_of_seq. fold h.
      assert (usable h b ↔ (1 ≤ b < 1 + (Z.to_nat n - 1))%nat) as Hu by (unfold usable; rewrite Hlen; lia).
      rewrite <- Hu. split; [|by intros []]. intros Hb. by rewrite Hblk.
    + split; [done|done|]. intros b Hb. by rewrite Hblk.
  - by split; [apply Hsp| | |].
  - done.
Qed.

(** ** [validate_conservation] *)

Lemma for_unchanged {S A} (body : A → M S unit) (l : list A) s :
  (∀ x, x ∈ l → body x s = (Ok tt, s)) → for_ l body s = (Ok tt, s).
Proof.
  induction l as [|x l IH]; intros Hb; [done|]. cbn [for_]. cbv [mbind M_bind].
  rewrite Hb by left. apply IH. intros y Hy. apply Hb. by right.
Qed.
Lemma check_slots_ok h : HInv [] [] h → forallb (check_slot h) (seq 1 (Z.to_nat (h_num_slots h) - 1)) = true.
Proof.
  intros Hi. apply forallb_forall. intros b Hb%list_elem_of_In%elem_of_seq.
  assert (usable h b) as Hu by (pose proof (hv_len _ _ _ Hi); unfold usable; lia).
  unfold check_slot, slot_references. apply andb_true_iff. split.
  - apply Z.eqb_eq. rewrite (hv_refs _ _ _ Hi b Hu), app_nil_r. unfold transfers. lia.
  - fold (free_slots h). pose proof (hv_free _ _ _ Hi b) as Hf. rewrite app_nil_r in Hf.
    case_bool_decide as Hin; [apply Hf in Hin as [_ ->]; done|].
    destruct (Z.eqb_spec (ref_count (hblk h b)) 0); [|done]. by destruct Hin; apply Hf.
Qed.

Lemma check_spans_ok h r spans : TabInv h → h_spans h !! r = Some spans → check_spans h r spans h = (Ok tt, h).
Proof.
  intros Hi Hsp. destruct (h_tables h !! r) as [ts|] eqn:Ht; [|by rewrite (ti_none _ Hi r Ht) in Hsp].
  destruct (ti_spans _ Hi r ts Ht) as (sp & Hsp' & Hok). simplify_eq.
  pose proof (ti_tables _ Hi r ts Ht) as Hts. apply for_unchanged.
  intros [o s] Hx. apply list_elem_of_lookup in Hx as [i Hi']. apply lookup_zip_Some in Hi' as [Ho Hs]. cbn.
  destruct o as [[first top]|]; [|done]. destruct (Forall2_lookup_l _ _ _ _ _ Hts Hs) as ([gid t] & Hti & Hg & _).
  cbn in Hg. subst gid. destruct (so_span _ _ _ Hok i s _ _ Hs Hti Ho) as (_ & _ & Heq). cbn in Heq.
  unfold get_table, gets, require. cbv [mbind M_bind mret M_ret]. cbn. rewrite Ht. cbn.
  erewrite dict_get_lookup; [|by eapply tabinv_ids|exact Hti]. cbn. by rewrite bool_decide_true.
Qed.

Lemma check_page_ok h k b : cache_ok h → usable h b → block_hash (hblk h b) = Some k → check_page h k b = true.
Proof.
  intros Hc Hu Hk. unfold check_page. rewrite (co_meta _ Hc b Hu), Hk. by rewrite !bool_decide_true.
Qed.

Lemma check_cached_ok h : cache_ok h → forallb (check_cached h) (map_to_list (h_cache h)) = true.
Proof.
  intros Hc. apply forallb_forall. intros [k b] Hx%list_elem_of_In%elem_of_map_to_list.
  destruct (co_cache _ Hc k b Hx) as [Hu Hk]. unfold check_cached. cbn.
  rewrite (check_page_ok h k b) by done. cbn. apply forallb_forall. intros b' Hb'%list_elem_of_In.
  destruct (h_duplicates h !! k) as [l|] eqn:Hd; cbn in Hb'; [|by apply elem_of_nil in Hb'].
  destruct (co_copies _ Hc k l Hd) as (_ & _ & _ & Hall). destruct (Hall b' Hb').
  by apply check_page_ok.
Qed.

Lemma validate_conservation_ok h : Good h → validate_conservation h = (Ok true, h).
Proof.
  intros [Hi Ht _ _]. unfold validate_conservation, gets. cbv [mbind M_bind mret M_ret]. cbn.
  pose proof (hv_nodup _ _ _ Hi) as Hnd. rewrite app_nil_r in Hnd.
  rewrite bool_decide_true by done. cbn [negb]. rewrite (check_slots_ok h Hi). cbn [negb].
  rewrite for_unchanged; [by rewrite (check_cached_ok h (hv_cache _ _ _ Hi))|].
  intros [r spans] Hx%elem_of_map_to_list. by apply check_spans_ok.
Qed.
End Start.
