(* ===== verification/HybridPublish.v ===== *)
(** * Publication of computed pages in the hybrid block manager

    [cache_computed] publishes the complete pages a request retains.  The connectors
    behind [publish_callbacks] are known by what they promise: [callback_ok]. *)

From stdpp Require Import gmap list list_numbers.
From Stdlib Require Import ZArith Lia.
From S2P Require Import Prelude.
From S2P Require Import Block.
From S2P Require Import PrefixKeys.
From S2P Require Import PyFloat.
From S2P Require Import Request.
From S2P Require Import HybridLayout.
From S2P Require Import HybridState.
From S2P Require Import HybridManager.
From S2P Require Import HybridInv.
From S2P Require Import HybridTables.
From S2P Require Import HybridGrow.
From S2P Require Import HybridPlans.
From S2P Require Import HybridAdmit.

Open Scope Z_scope.

Section Metadata.
Context {X : Type}.
Implicit Types (h : hybrid X) (b : slot) (k : slot_key).

(** ** Metadata of one slot *)

Definition mark_cached (key : slot_key) (o : hblock) : hblock :=
  o <| block_hash := Some key |> <| cached := true |> <| is_full := true |>.

(** The prefix map after a page [b] with [key] joined it *)
Definition joined (key : slot_key) b h h' : Prop :=
  match h_cache h !! key with
  | None => h_cache h' = <[key := b]> (h_cache h) ∧ h_duplicates h' = h_duplicates h
  | Some e => h_cache h' = h_cache h ∧
      h_duplicates h' = if decide (e = b) then h_duplicates h
                        else <[key := set_add b (default [] (h_duplicates h !! key))]> (h_duplicates h)
  end.

Lemma elem_of_set_add b b' l : b' ∈ set_add b l ↔ b' = b ∨ b' ∈ l.
Proof. unfold set_add. case_decide; set_solver. Qed.

Lemma NoDup_set_add b l : NoDup l → NoDup (set_add b l).
Proof.
  intros Hnd. unfold set_add. case_decide; [done|]. apply NoDup_app. split_and!; [done|set_solver|apply NoDup_singleton].
Qed.

Lemma cache_ok_join key b h h' :
  cache_ok h → usable h b → block_hash (hblk h b) = None ∨ block_hash (hblk h b) = Some key →
  h_blocks h' = alter (mark_cached key) b (h_blocks h) → joined key b h h' → cache_ok h'.
Proof.
  intros Hc Hb Hold Hbl Hj.
  assert (∀ b', usable h' b' ↔ usable h b') as Hu
    by (intros; unfold usable; by rewrite Hbl, length_alter).
  assert (∀ b', hblk h' b' = if decide (b = b') then mark_cached key (hblk h b) else hblk h b') as Hk.
  { intros b'. rewrite <- hblk_alter by done. unfold hblk. by rewrite Hbl. }
  (* a slot filed under [k] before keeps its key *)
  assert (∀ k b', usable h b' ∧ block_hash (hblk h b') = Some k →
    usable h' b' ∧ block_hash (hblk h' b') = Some k) as Hkeep.
  { intros k b' [Hb' Hh]. rewrite Hu, Hk. split; [done|]. destruct (decide (b = b')) as [<-|]; [|done].
    destruct Hold as [?|?]; cbn; congruence. }
  assert (usable h' b ∧ block_hash (hblk h' b) = Some key) as Hnew.
  { rewrite Hu, Hk, decide_True by done. done. }
  assert (∀ k l, h_duplicates h !! k = Some l → NoDup l ∧ l ≠ [] ∧
    (∃ b0, h_cache h !! k = Some b0 ∧ b0 ∉ l) ∧ ∀ b', b' ∈ l → usable h' b' ∧ block_hash (hblk h' b') = Some k) as Hdup.
  { intros k l (H1 & H2 & H3 & H4)%(co_copies _ Hc). split_and!; try done. intros b' Hb'%H4. by apply Hkeep. }
  unfold joined in Hj. split.
  - intros k b' Hl. destruct (h_cache h !! key) as [e|] eqn:He; destruct Hj as [Hca _]; rewrite Hca in Hl.
    + apply Hkeep. by apply (co_cache _ Hc).
    + destruct (decide (k = key)) as [->|Hne].
      * rewrite lookup_insert_eq in Hl. by injection Hl as <-.
      * rewrite lookup_insert_ne in Hl by done. apply Hkeep. by apply (co_cache _ Hc).
  - intros k l Hl. destruct (h_cache h !! key) as [e|] eqn:He; destruct Hj as [Hca Hd]; rewrite Hd in Hl; rewrite Hca.
    + destruct (decide (e = b)) as [->|Hne]; [by apply Hdup|].
      destruct (decide (k = key)) as [->|Hk']; [|rewrite lookup_insert_ne in Hl by done; by apply Hdup].
      rewrite lookup_insert_eq in Hl. injection Hl as <-. split; [|split; [|split]].
      * apply NoDup_set_add. destruct (h_duplicates h !! key) eqn:Hl; cbn; [by apply Hdup in Hl as [? _]|constructor].
      * intros Heq. assert (b ∈ set_add b (default [] (h_duplicates h !! key))) as Hin by (apply elem_of_set_add; by left).
        rewrite Heq in Hin. by apply elem_of_nil in Hin.
      * exists e. split; [done|]. rewrite elem_of_set_add. intros [?|Hin]; [done|].
        destruct (h_duplicates h !! key) eqn:Hl; cbn in Hin; [|by apply elem_of_nil in Hin].
        apply Hdup in Hl as (_ & _ & (b0 & Hb0 & Hn) & _). congruence.
      * intros b'. rewrite elem_of_set_add. intros [->|Hin]; [done|].
        destruct (h_duplicates h !! key) eqn:Hl; cbn in Hin; [|by apply elem_of_nil in Hin].
        apply Hdup in Hl as (_ & _ & _ & Hl). by apply Hl.
    + destruct (Hdup k l Hl) as (H1 & H2 & (b0 & Hb0 & Hn) & H4). split_and!; try done.
      exists b0. split; [|done]. rewrite lookup_insert_ne by congruence. done.
  - intros b'. rewrite Hu, Hk. destruct (decide (b = b')) as [<-|]; [done|]. apply (co_meta _ Hc).
Qed.

(** Metadata does not matter to the counts and the queue. *)
Lemma inv_metadata L E b f h h' :
  HInv L E h → usable h b → (∀ o, ref_count (f o) = ref_count o) →
  h_blocks h' = alter f b (h_blocks h) → h_num_slots h' = h_num_slots h → h_tables h' = h_tables h →
  h_transfer h' = h_transfer h → h_free_uncached h' = h_free_uncached h →
  h_free_cached h' = h_free_cached h → cache_ok h' → HInv L E h'.
Proof.
  intros Hi Hb Hf Hbl Hn Ht Htr Hu Hca Hc.
  assert (∀ b', usable h' b' ↔ usable h b') as Hus
    by (intros; unfold usable; by rewrite Hbl, length_alter).
  assert (∀ b', ref_count (hblk h' b') = ref_count (hblk h b')) as Hr.
  { intros b'. assert (hblk h' b' = hblk (h <| h_blocks ::= alter f b |>) b') as ->
      by (unfold hblk; by rewrite Hbl). rewrite hblk_alter by done.
    destruct (decide (b = b')) as [<-|]; [apply Hf|done]. }
  split; try done.
  - by rewrite Hbl, length_alter, Hn, (hv_len _ _ _ Hi).
  - intros b' Hb'%Hus. rewrite Hr, (hv_refs _ _ _ Hi) by done. unfold all_table_slots, transfers. by rewrite Ht, Htr.
  - intros b' n. rewrite Htr, Hus. apply (hv_transfer _ _ _ Hi).
  - intros b'. rewrite Hus. unfold all_table_slots. rewrite Ht. apply (hv_held _ _ _ Hi).
  - unfold free_slots. rewrite Hu, Hca. apply Hi.
  - intros b'. rewrite Hus, Hr. unfold free_slots. rewrite Hu, Hca. apply (hv_free _ _ _ Hi).
Qed.
End Metadata.

Section Publish.
Context {X : Type} `{Digest}.
Implicit Types (h : hybrid X) (b : slot) (k : slot_key).

(** ** What a publication may change *)

(** [B]: the slots whose metadata may change *)
Record pub_frame (B : list slot) h h' : Prop := {
  pf_evolve : evolve h h';
  pf_tables : h_tables h' = h_tables h;
  pf_spans : h_spans h' = h_spans h;
  pf_plans : h_plans h' = h_plans h;
  pf_hash b : b ∉ B → block_hash (hblk h' b) = block_hash (hblk h b);
}.

#[global] Instance pub_frame_preorder B : PreOrder (pub_frame B).
Proof.
  split; [by intros h; split|]. intros h1 h2 h3 F1 F2. split.
  - exact (transitivity (pf_evolve _ _ _ F1) (pf_evolve _ _ _ F2)).
  - by rewrite (pf_tables _ _ _ F2), (pf_tables _ _ _ F1).
  - by rewrite (pf_spans _ _ _ F2), (pf_spans _ _ _ F1).
  - by rewrite (pf_plans _ _ _ F2), (pf_plans _ _ _ F1).
  - intros b Hb. by rewrite (pf_hash _ _ _ F2), (pf_hash _ _ _ F1).
Qed.

Lemma pub_frame_mono B B' h h' : (∀ b, b ∈ B → b ∈ B') → pub_frame B h h' → pub_frame B' h h'.
Proof. intros Hsub []. split; try done. intros b Hb. apply pf_hash0. auto. Qed.

Lemma edit_pub_frame B h h' : edit_step h h' → pub_frame B h h'.
Proof. intros [F Hp]. split; try apply F; [done|]. intros b _. unfold hblk. by rewrite (mf_blocks _ _ F). Qed.

(** [J]: an invariant of the transfer counts and the connectors' objects *)
Variable J : gmap slot Z → X → Prop.

Definition Pub (B : list slot) h h' : Prop :=
  HInv [] [] h' ∧ J (h_transfer h') (h_ext h') ∧ pub_frame B h h'.

Abbreviation publishes B m h := (wp m (λ _ h', Pub B h h') (λ _ h', Pub B h h') h).

(** What a connector promises when it is told of a published page *)
Definition callback_ok (callback : CacheGroup → Z → slot → Z → M (hybrid X) unit) : Prop :=
  ∀ g index b r h, HInv [] [] h → J (h_transfer h) (h_ext h) → usable h b →
    is_Some (block_hash (hblk h b)) → publishes [] (callback g index b r) h.

Variable publish_callbacks : list (CacheGroup → Z → slot → Z → M (hybrid X) unit).
Hypothesis callbacks_ok : Forall callback_ok publish_callbacks.

Lemma pub_trans B h h' h'' : Pub B h h' → Pub B h' h'' → Pub B h h''.
Proof. intros (_ & _ & F1) (Hi & HJ & F2). split; [done|]. split; [done|]. exact (transitivity F1 F2). Qed.

Lemma pub_refl B h : HInv [] [] h → J (h_transfer h) (h_ext h) → Pub B h h.
Proof. by intros. Qed.

Lemma pub_mono B B' h h' : (∀ b, b ∈ B → b ∈ B') → Pub B h h' → Pub B' h h'.
Proof. intros Hsub (? & ? & ?). split; [done|]. split; [done|]. by eapply pub_frame_mono. Qed.

Lemma pub_edit B h h' : HInv [] [] h → J (h_transfer h) (h_ext h) → edit_step h h' → Pub B h h'.
Proof.
  intros Hi HJ Hs. pose proof (proj1 Hs) as F. split; [by eapply meta_inv|]. split.
  - by rewrite (mf_transfer _ _ F), (mf_ext _ _ F).
  - by apply edit_pub_frame.
Qed.

Lemma publishes_bind {A C} B (m : M (hybrid X) A) (f : A → M (hybrid X) C) h :
  publishes B m h → (∀ a h', Pub B h h' → publishes B (f a) h') → publishes B (m ≫= f) h.
Proof.
  intros Hm Hf. apply wp_bind. eapply wp_mono; [exact Hm| |done]. intros a h' Hh.
  eapply wp_mono; [by apply Hf| |]; intros ? h'' Hh'; exact (pub_trans B _ _ _ Hh Hh').
Qed.

Lemma publishes_edit {A} B (m : M (hybrid X) A) h :
  HInv [] [] h → J (h_transfer h) (h_ext h) →
  wp m (λ _ h', edit_step h h') (λ _ h', edit_step h h') h → publishes B m h.
Proof. intros Hi HJ Hm. eapply wp_mono; [exact Hm|..]; intros ? h' Hs; exact (pub_edit B h h' Hi HJ Hs). Qed.

Lemma publishes_keys {A} B (m : M (hybrid X) A) h :
  HInv [] [] h → J (h_transfer h) (h_ext h) →
  wp m (λ _ h', keys_step h h') (λ _ h', keys_step h h') h → publishes B m h.
Proof.
  intros Hi HJ Hm. apply publishes_edit; [done|done|]. eapply wp_mono; [exact Hm|..]; by intros ? h' [? _].
Qed.

Lemma callbacks_publish B g index b r (callbacks : list (CacheGroup → Z → slot → Z → M (hybrid X) unit)) h :
  Forall callback_ok callbacks → HInv [] [] h → J (h_transfer h) (h_ext h) → usable h b →
  is_Some (block_hash (hblk h b)) →
  publishes B (for_ callbacks (λ callback, callback g index b r)) h.
Proof.
  intros Hcb. revert h. induction Hcb as [|cb cbs Hcb _ IH]; intros h Hi HJ Hb Hh; cbn [for_].
  { wp_step. by apply pub_refl. }
  apply wp_bind. eapply wp_mono; [by apply Hcb|..].
  2: { intros ? h' HP. eapply pub_mono; [|exact HP]. set_solver. }
  intros [] h' HP. destruct (HP) as (Hi' & HJ' & F). eapply wp_mono; [apply IH; try done|..].
  - by rewrite (evolve_usable h) by apply F.
  - rewrite (pf_hash _ _ _ F) by apply not_elem_of_nil. done.
  - intros ? h'' HP'. eapply pub_trans; [|exact HP']. eapply pub_mono; [|exact HP]. set_solver.
  - intros ? h'' HP'. eapply pub_trans; [|exact HP']. eapply pub_mono; [|exact HP]. set_solver.
Qed.

(** ** One page *)

(** A page joins the prefix map. *)
Lemma pub_join B key b h h' :
  HInv [] [] h → J (h_transfer h) (h_ext h) → usable h b → b ∈ B →
  block_hash (hblk h b) = None ∨ block_hash (hblk h b) = Some key →
  h_blocks h' = alter (mark_cached key) b (h_blocks h) → joined key b h h' →
  slot_frame h h' → h_free_uncached h' = h_free_uncached h → h_free_cached h' = h_free_cached h →
  Pub B h h' ∧ usable h' b ∧ is_Some (block_hash (hblk h' b)).
Proof.
  intros Hi HJ Hb HB Hold Hbl Hj F Hu Hca.
  assert (∀ b', hblk h' b' = if decide (b = b') then mark_cached key (hblk h b) else hblk h b') as Hk.
  { intros b'. rewrite <- hblk_alter by done. unfold hblk. by rewrite Hbl. }
  split; [|split; [by rewrite (frame_usable h)|]; rewrite Hk, decide_True by done; by eexists].
  split; [|split; [by rewrite (sf_transfer _ _ F), (sf_ext _ _ F)|]].
  - eapply (inv_metadata _ _ b (mark_cached key) h); try done; try apply F.
    eapply cache_ok_join; try done. apply Hi.
  - split; [by apply slot_evolve|apply F..|]. intros b' Hb'. rewrite Hk, decide_False; [done|]. by intros ->.
Qed.

Lemma pub_evicted B b h h' :
  HInv [] [] h → J (h_transfer h) (h_ext h) → usable h b → b ∈ B → evicted b h h' → Pub B h h'.
Proof.
  intros Hi HJ Hb HB He. pose proof (ev_frame _ _ _ He) as F. split; [by eapply evicted_inv|].
  split; [by rewrite (sf_transfer _ _ F), (sf_ext _ _ F)|]. split; [by apply slot_evolve|apply F..|].
  intros b' Hb'. rewrite (evicted_blk b h h'), decide_False by (done || by intros ->). done.
Qed.

Lemma h_publish_spec B r s index b keys h :
  HInv [] [] h → J (h_transfer h) (h_ext h) → usable h b → b ∈ B →
  publishes B (h_publish publish_callbacks r s index b keys) h.
Proof.
  intros Hi HJ Hb HB. unfold h_publish. apply publishes_bind.
  { apply publishes_keys; [done|done|]. apply h_slot_key_keeps. }
  intros key h1 (Hi1 & HJ1 & F1). destruct key as [key|]; [|wp_step; by apply pub_refl].
  assert (usable h1 b) as Hb1 by by rewrite (evolve_usable h) by apply F1.
  wp_steps. unid.
  (* the state once the old identity of the slot is gone *)
  assert (wp (when (negb (bool_decide (block_hash (hblk h1 b) = Some key))) (h_evict b))
    (λ _ h2, Pub B h1 h2 ∧ (block_hash (hblk h2 b) = None ∨ block_hash (hblk h2 b) = Some key)) no_raise h1) as Hev.
  { unfold when. case_bool_decide as Hh; cbn [negb].
    - wp_step. split; [by apply pub_refl|by right].
    - eapply wp_mono; [by apply h_evict_spec; [|apply Hi1]| |done]. intros u h2 He. split; [by eapply pub_evicted|].
      left. rewrite (evicted_blk b h1 h2), decide_True by done. done. }
  eapply wp_mono; [exact Hev| |done]. intros u h2 [P2 Hold]. destruct (P2) as (Hi2 & HJ2 & F2).
  assert (usable h2 b) as Hb2 by by rewrite (evolve_usable h1) by apply F2.
  wp_steps. unid.
  (* what remains once the map holds the page *)
  assert (∀ h3, Pub B h2 h3 ∧ usable h3 b ∧ is_Some (block_hash (hblk h3 b)) →
    wp (for_ publish_callbacks (λ callback, callback (sp_group s) index b r) ;; mret true)
      (λ _ h', Pub B h1 h') (λ _ h', Pub B h1 h') h3) as Hrest.
  { intros h3 (P3 & Hb3 & Hh3). pose proof (pub_trans B _ _ _ P2 P3) as P13. destruct P3 as (Hi3 & HJ3 & _).
    wp_step. eapply wp_mono; [by apply (callbacks_publish B)| |].
    - intros [] h4 P4. wp_step. exact (pub_trans B _ _ _ P13 P4).
    - intros e h4 P4. exact (pub_trans B _ _ _ P13 P4). }
  unfold when. destruct (h_cache h2 !! key) as [e|] eqn:He.
  - destruct (decide (e = b)) as [->|Hne].
    + rewrite (bool_decide_true (b = b)) by done. cbn [negb]. wp_step. wp_step. apply wp_set_hblk.
      rewrite bool_decide_false by done. do 2 wp_step. apply Hrest.
      eapply (pub_join B key b h2); try done; [unfold joined; rewrite He; by rewrite decide_True|].
      apply frame_alter_block.
    + rewrite (bool_decide_false (e = b)) by done. cbn [negb]. do 2 wp_step. apply wp_set_hblk.
      rewrite bool_decide_false by done. do 2 wp_step. apply Hrest.
      eapply (pub_join B key b h2); try done; [unfold joined; rewrite He; by rewrite decide_False|].
      split; try done. cbn. by rewrite length_alter.
  - do 2 wp_step. apply wp_set_hblk. rewrite bool_decide_true by done. do 2 wp_step. apply Hrest.
    eapply (pub_join B key b h2); try done; [unfold joined; by rewrite He|].
    split; try done; cbn; [by rewrite length_alter|lia|lia].
Qed.

(** ** The pages of a request *)

(** The slots [B] are usable; kept by publications. *)
Definition all_usable (B : list slot) h : Prop := ∀ b, b ∈ B → usable h b.

Lemma pub_usable B B' h h' : Pub B h h' → all_usable B' h → all_usable B' h'.
Proof. intros (_ & _ & F) HB b Hb. rewrite (evolve_usable h) by apply F. auto. Qed.

Lemma visit_pages_spec B r s computed keys pages h :
  HInv [] [] h → J (h_transfer h) (h_ext h) → all_usable B h → (∀ x, x ∈ pages → x.2 ∈ B) →
  publishes B (visit_pages publish_callbacks r s computed keys pages) h.
Proof.
  revert h. induction pages as [|x pages IH]; intros h Hi HJ HB Hin; cbn [visit_pages].
  { wp_step. by apply pub_refl. }
  assert (x.2 ∈ B) as Hx by (apply Hin; left).
  apply publishes_bind.
  - unfold visit_page. do 2 wp_step. unid. destruct (_ && _); [|wp_step; by apply pub_refl].
    apply publishes_bind; [apply h_publish_spec; auto|]. intros ok h' (Hi' & HJ' & _). wp_step. by apply pub_refl.
  - intros now h1 P1. destruct (P1) as (Hi1 & HJ1 & _). apply publishes_bind.
    + apply IH; [done|done|by eapply pub_usable|]. intros y Hy. apply Hin. by right.
    + intros rest h2 (Hi2 & HJ2 & _). wp_step. by apply pub_refl.
Qed.

Lemma publish_range_spec B r s t keys (l : list Z) h :
  HInv [] [] h → J (h_transfer h) (h_ext h) → all_usable B h → (∀ b, b ∈ t.*2 → b ∈ B) →
  publishes B (for_ l (λ index,
      b ← require KeyError (dict_get index t);
      h ← gets id;
      when (negb (cached (hblk h b))) (h_publish publish_callbacks r s index b keys ;; mret tt))) h.
Proof.
  intros Hi HJ HB Ht. revert h Hi HJ HB. induction l as [|i l IH]; intros h Hi HJ HB; cbn [for_].
  { wp_step. by apply pub_refl. }
  apply publishes_bind.
  - destruct (dict_get i t) as [b|] eqn:Hb.
    2: { wp_step. unfold require. wp_step. by apply pub_refl. }
    wp_step. eapply wp_require; [done|]. do 2 wp_step. unid. apply dict_get_elem, (list_elem_of_fmap_2 snd) in Hb.
    unfold when. destruct (negb _); [|wp_step; by apply pub_refl].
    apply publishes_bind; [apply h_publish_spec; auto|]. intros ok h' (Hi' & HJ' & _). wp_step. by apply pub_refl.
  - intros [] h1 P1. destruct (P1) as (Hi1 & HJ1 & _). apply IH; [done|done|by eapply pub_usable].
Qed.

Lemma window_candidates_table h s t computed extra x :
  x ∈ window_candidates h s t computed extra → x ∈ t.
Proof.
  unfold window_candidates. destruct (negb _); [by intros [_ ?]%list_elem_of_filter|].
  destruct t as [|[lowest b0] t']; [set_solver|]. set (t := (lowest, b0) :: t').
  intros (i & _ & Hi)%list_elem_of_omap. destruct (dict_get i t) as [b|] eqn:Hb; [|done].
  injection Hi as <-. by apply dict_get_elem.
Qed.

Lemma publish_groups_spec B r computed windows keys extra specs ts h :
  HInv [] [] h → J (h_transfer h) (h_ext h) → all_usable B h → h_tables h !! r = Some ts →
  (∀ b, b ∈ request_slots ts → b ∈ B) →
  publishes B (publish_groups publish_callbacks r computed windows keys extra specs) h.
Proof.
  revert h. induction specs as [|s specs IH]; intros h Hi HJ HB Ht Hts; cbn [publish_groups].
  { wp_step. by apply pub_refl. }
  apply publishes_bind.
  2: { intros now h1 P1. destruct (P1) as (Hi1 & HJ1 & F1). apply publishes_bind.
       - apply IH; [done|done|by eapply pub_usable|by rewrite (pf_tables _ _ _ F1)|done].
       - intros rest h2 (Hi2 & HJ2 & _). wp_step. by apply pub_refl. }
  unfold publish_group. unfold get_table. wp_steps. unid. eapply wp_require; [done|].
  unfold require at 1. destruct (dict_get (sp_group_id s) ts) as [t|] eqn:Hg; [wp_step|wp_step; by apply pub_refl].
  assert (∀ b, b ∈ t.*2 → b ∈ B) as HtB.
  { intros b Hb. apply Hts. unfold request_slots. apply list_elem_of_bind. exists (sp_group_id s, t).
    split; [done|]. by apply dict_get_elem. }
  destruct (negb (is_window s)).
  - do 2 wp_step. unid. apply publishes_bind; [apply publishes_keys; [done|done|apply keeps_require]|].
    intros start h1 P1. destruct (P1) as (Hi1 & HJ1 & F1).
    apply publishes_bind; [by apply publishes_keys; [done|done|wp_step]|].
    intros [] h2 P2. pose proof (pub_usable _ _ _ _ P1 HB) as HB1. pose proof (pub_usable _ _ _ _ P2 HB1) as HB2.
    destruct P2 as (Hi2 & HJ2 & F2). apply publishes_bind; [by apply publish_range_spec|].
    intros [] h3 (Hi3 & HJ3 & _). wp_step. by apply pub_refl.
  - destruct (negb windows); [wp_step; by apply pub_refl|]. do 2 wp_step. unid.
    apply visit_pages_spec; [done..|]. intros x Hx%window_candidates_table. apply HtB. by apply list_elem_of_fmap_2.
Qed.

Lemma request_slots_held h r ts b :
  h_tables h !! r = Some ts → b ∈ request_slots ts → b ∈ all_table_slots h.
Proof.
  intros Ht Hb. unfold all_table_slots. apply list_elem_of_bind. exists ts. split; [done|].
  apply list_elem_of_fmap. exists (r, ts). split; [done|]. by apply elem_of_map_to_list.
Qed.

Lemma h_cache_computed_spec r h :
  HInv [] [] h → J (h_transfer h) (h_ext h) →
  publishes (request_slots (default [] (h_tables h !! r))) (h_cache_computed publish_callbacks r) h.
Proof.
  intros Hi HJ. unfold h_cache_computed. do 2 wp_step. unid.
  destruct (h_tables h !! r) as [ts|] eqn:Ht; [|wp_step; by apply pub_refl]. cbn [default].
  set (B := request_slots ts).
  assert (all_usable B h) as HB.
  { intros b Hb. apply (hv_held _ _ _ Hi). rewrite app_nil_r. by eapply request_slots_held. }
  apply publishes_bind.
  2: { intros [] h1 (Hi1 & HJ1 & _). by apply publishes_edit. }
  case_bool_decide as Hst; [wp_step; by apply pub_refl|].
  apply publishes_bind.
  2: { intros t h1 (Hi1 & HJ1 & _). by apply publishes_edit; [done|done|wp_step]. }
  unfold publish_computed. apply publishes_bind; [apply publishes_keys; [done|done|apply h_input_keys_keeps]|].
  intros keys h1 P1. pose proof (pub_usable _ _ _ _ P1 HB) as HB1. destruct P1 as (Hi1 & HJ1 & F1).
  do 2 wp_step. unid. apply publishes_bind.
  - apply (publish_groups_spec B r _ _ _ _ _ ts); try done. by rewrite (pf_tables _ _ _ F1).
  - intros deferred h2 (Hi2 & HJ2 & _). wp_step. by apply pub_refl.
Qed.
End Publish.
