(* ===== verification/HybridExternal.v ===== *)
(** * External pages in the hybrid block manager

    An import replaces pages of a request by private slots that a transfer fills;
    when the transfer is done the slots join the prefix map.  Transfers hold their
    own references. *)

From stdpp Require Import gmap list list_numbers.
From Stdlib Require Import ZArith Lia.
From S2P Require Import Prelude.
From S2P Require Import Block.
From S2P Require Import PrefixKeys.
From S2P Require Import PyFloat.
From S2P Require Import Request.
From S2P Require Import HybridLayout.
From S2P Require Import HybridState.
From S2P Require Import HybridManager.
From S2P Require Import HybridInv.
From S2P Require Import HybridTables.
From S2P Require Import HybridGrow.
From S2P Require Import HybridPlans.
From S2P Require Import HybridAdmit.
From S2P Require Import HybridPublish.

Open Scope Z_scope.

Section External.
Context {X P : Type}.
Implicit Types (h : hybrid X) (b : slot) (pairs : list (Z * P)).

(** ** Dropping the replaced pages *)

Lemma dict_get_pop {V} k k' (d : list (Z * V)) : k ≠ k' → dict_get k (dict_pop k' d) = dict_get k d.
Proof.
  intros Hne. unfold dict_pop. induction d as [|[k1 v] d IH]; [done|]. rewrite filter_cons. cbn [fst].
  destruct (decide (k1 ≠ k')) as [Hk|Hk].
  - cbn. by rewrite IH.
  - apply dec_stable in Hk as ->. cbn. by rewrite (proj2 (Z.eqb_neq _ _)).
Qed.

Definition replaced_in (t : page_table) pairs : list slot := omap (λ p, dict_get p.1 t) pairs.

Definition drop_keys (ks : list Z) (t : page_table) : page_table := filter (λ x, x.1 ∉ ks) t.

Lemma drop_keys_cons k ks t : drop_keys (k :: ks) t = drop_keys ks (dict_pop k t).
Proof.
  unfold drop_keys, dict_pop. rewrite list_filter_filter. apply list_filter_iff. intros x.
  rewrite not_elem_of_cons. tauto.
Qed.

Lemma drop_keys_absent k ks t : k ∉ t.*1 → drop_keys (k :: ks) t = drop_keys ks t.
Proof.
  intros Hk. apply filter_iff_in. intros x Hx%(list_elem_of_fmap_2 fst). rewrite not_elem_of_cons.
  split; [tauto|]. intros ?. split; [|done]. congruence.
Qed.

Lemma drop_pages_spec E r i gid ts t pairs h :
  HInv [] E h → h_tables h !! r = Some ts → NoDup ts.*1 → ts !! i = Some (gid, t) → NoDup t.*1 →
  NoDup pairs.*1 →
  wp (for_ pairs (drop_page r gid))
    (λ _ h', HInv [] E h' ∧ tab_frame r h h' ∧ shrink r h h' ∧ reclaimed (replaced_in t pairs) h h' ∧
       h_tables h' !! r = Some (<[i := (gid, drop_keys pairs.*1 t)]> ts)) no_raise h.
Proof.
  revert ts t h. induction pairs as [|[k p] pairs IH]; intros ts t h Hi Ht Hids Hti Hndt Hnd; cbn [for_].
  { wp_step. unfold drop_keys. rewrite filter_all by (apply Forall_forall; set_solver).
    rewrite list_insert_id by done. split_and!; try done. apply reclaimed_refl. }
  csimpl in Hnd. apply NoDup_cons in Hnd as [Hk Hnd]. wp_step. unfold drop_page at 1. cbn [fst]. wp_step.
  unfold get_table. wp_steps. unid. eapply wp_require; [done|]. eapply wp_require; [by eapply dict_get_lookup|].
  unfold replaced_in. csimpl. destruct (dict_get k t) as [b|] eqn:Hb.
  - wp_step. eapply edit_table_spec; [done..|].
    pose proof (dict_pop_perm k b t Hndt Hb) as Hperm.
    set (t1 := dict_pop k t). set (h1 := put_table r i gid t1 ts h).
    assert (HInv [] (b :: E) h1) as Hi1.
    { eapply inv_put_table; [done..|]. rewrite Hperm. csimpl. by rewrite <- Permutation_middle. }
    unfold release_one. eapply wp_mono; [by apply (release_many_spec E [b] h1)| |done].
    intros _ h2 (Hi2 & C2 & Hfree). pose proof (cn_frame _ _ C2) as F2.
    assert (tab_frame r h h2) as F02
      by exact (transitivity (put_tab_frame r i gid t1 ts h) (slot_tab_frame r _ _ F2)).
    assert (reclaimed [b] h h2) as Hrc.
    { destruct (slots_split h r ts i gid t Ht Hti) as (rest & Hs1 & Hs2). split.
      - rewrite Hs1, Hperm. rewrite (frame_slots _ _ F2). unfold h1. rewrite Hs2. done.
      - exact Hfree.
      - by rewrite (sf_transfer _ _ F2).
      - by rewrite (sf_len _ _ F2). }
    assert (shrink r h h2) as Hsh.
    { eapply (reclaimed_shrink E r [b] ts); try done.
      - intros b' ->%list_elem_of_singleton. eapply table_slots_request; [exact Hti|]. rewrite Hperm. csimpl. set_solver.
      - rewrite (sf_tables _ _ F2). unfold h1, put_table. cbn. rewrite lookup_insert_eq. eexists. split; [done|].
        intros b' [Hb'|Hb']%(request_slots_insert _ _ _ t); [|done|done]. eapply table_slots_request; [exact Hti|].
        rewrite Hperm. csimpl. set_solver.
      - intros b'. exact (cn_hash _ _ C2 b'). }
    set (ts1 := <[i := (gid, t1)]> ts).
    eapply wp_mono; [eapply (IH ts1 t1 h2)| |done].
    + done.
    + rewrite (sf_tables _ _ F2). unfold h1, put_table. cbn. by rewrite lookup_insert_eq.
    + unfold ts1. by erewrite insert_ids.
    + unfold ts1. apply list_lookup_insert_eq. by eapply lookup_lt_Some.
    + unfold t1. rewrite dict_pop_keys. by apply NoDup_filter.
    + done.
    + intros _ h3 (Hi3 & F3 & Hsh3 & Hrc3 & Ht3). split; [done|]. split; [exact (transitivity F02 F3)|].
      split; [exact (transitivity Hsh Hsh3)|]. split.
      * assert (omap (λ p : Z * P, dict_get p.1 t) pairs = replaced_in t1 pairs) as ->.
        { apply omap_ext_in. intros x Hx. unfold t1. symmetry. apply dict_get_pop. intros <-. apply Hk.
          by apply list_elem_of_fmap_2. }
        exact (reclaimed_trans E [b] _ h h2 h3 Hi Hi2 Hrc Hrc3).
      * rewrite Ht3. unfold ts1. rewrite list_insert_insert_eq. by rewrite drop_keys_cons.
  - wp_step. eapply wp_mono; [by eapply (IH ts t h)| |done]. intros _ h1 (Hi1 & F1 & Hsh & Hrc & Ht1).
    split_and!; try done. rewrite drop_keys_absent; [done|]. by apply dict_get_None.
Qed.

(** ** Private slots *)

(** [bs] were free and are held once; the other slots are as before. *)
Record taken (bs : list slot) h h' : Prop := {
  tk_free : free_slots h ≡ₚ bs ++ free_slots h';
  tk_fresh b : b ∈ bs → block_hash (hblk h' b) = None ∧ ref_count (hblk h' b) = 1;
  tk_other b : usable h b → b ∉ bs → hblk h' b = hblk h b;
}.

Lemma taken_refl h : taken [] h h.
Proof. split; [done|set_solver|done]. Qed.

Lemma taken_trans E bs bs' h h1 h2 :
  HInv [] E h → length (h_blocks h1) = length (h_blocks h) →
  taken bs h h1 → taken bs' h1 h2 → taken (bs ++ bs') h h2.
Proof.
  intros Hi Hlen [Hf1 Hn1 Ho1] [Hf2 Hn2 Ho2].
  assert (∀ b, b ∈ bs → usable h1 b ∧ b ∉ bs') as Hbs.
  { intros b Hb. pose proof (hv_nodup _ _ _ Hi) as Hnd. rewrite app_nil_r, Hf1 in Hnd.
    apply NoDup_app in Hnd as (_ & Hd & _). split.
    - unfold usable. rewrite Hlen. apply (hv_free _ _ _ Hi). rewrite app_nil_r, Hf1. set_solver.
    - intros Hb'. apply (Hd b Hb). rewrite Hf2. set_solver. }
  split.
  - by rewrite Hf1, Hf2, app_assoc.
  - intros b [Hb|Hb]%elem_of_app; [|by apply Hn2]. destruct (Hbs b Hb). rewrite Ho2 by done. by apply Hn1.
  - intros b Hb [Hb1 Hb2]%not_elem_of_app. rewrite Ho2; [by apply Ho1| |done]. unfold usable in *. by rewrite Hlen.
Qed.

Lemma taken_none bs h h' b :
  taken bs h h' → usable h b → block_hash (hblk h b) = None → block_hash (hblk h' b) = None.
Proof.
  intros Htk Hb Hn. destruct (decide (b ∈ bs)); [by apply (tk_fresh _ _ _ Htk)|]. by rewrite (tk_other _ _ _ Htk).
Qed.

Lemma num_free_slots h : h_num_free_blocks h = Z.of_nat (length (free_slots h)).
Proof. unfold h_num_free_blocks, free_slots. rewrite length_app. lia. Qed.

Lemma allocate_one_spec E h :
  HInv [] E h → 1 <= h_num_free_blocks h →
  wp allocate_one (λ b h', HInv [] (b :: E) h' ∧ slot_frame h h' ∧ taken [b] h h') no_raise h.
Proof.
  intros Hi Hn. unfold allocate_one. wp_step. eapply wp_mono; [by apply (allocate_many_spec [] E)| |].
  2: { intros e h' (_ & _ & Hlt). lia. }
  intros bs h' (Hi' & [F Hfr Hot] & Hlen & Hfree). destruct bs as [|b [|b' bs]]; cbn in Hlen; try lia.
  eapply wp_require; [done|]. split; [done|]. split; [done|]. split; [done| |].
  - intros b' Hb'. by apply Hfr.
  - done.
Qed.

Definition targets (gid : Z) pairs (bs : list slot) : list (Z * Z * P * slot) :=
  zip_with (λ x b, (gid, x.1, x.2, b)) pairs bs.

Lemma target_pages_spec E r i gid ts t pairs h :
  HInv [] E h → h_tables h !! r = Some ts → NoDup ts.*1 → ts !! i = Some (gid, t) →
  NoDup (t.*1 ++ pairs.*1) → Z.of_nat (length pairs) <= h_num_free_blocks h →
  wp (target_pages r gid pairs)
    (λ ds h', HInv [] E h' ∧ tab_frame r h h' ∧ shrink r h h' ∧ ∃ bs, length bs = length pairs ∧
       ds = targets gid pairs bs ∧ taken bs h h' ∧
       h_tables h' !! r = Some (<[i := (gid, t ++ zip pairs.*1 bs)]> ts)) no_raise h.
Proof.
  revert ts t h. induction pairs as [|[k p] pairs IH]; intros ts t h Hi Ht Hids Hti Hnd Hfree; cbn [target_pages].
  { wp_step. split; [done|]. split; [done|]. split; [done|]. exists []. rewrite app_nil_r, list_insert_id by done.
    split_and!; try done. apply taken_refl. }
  csimpl in Hnd. cbn [length] in Hfree.
  wp_step. eapply wp_mono; [apply (allocate_one_spec E); [done|lia]| |done].
  intros b h1 (Hi1 & F1 & Htk1). wp_step.
  assert (k ∉ t.*1) as Hk by (apply NoDup_app in Hnd as (_ & Hd & _); intros Hk; apply (Hd k Hk); left).
  eapply edit_table_spec; [done|by rewrite (sf_tables _ _ F1)|done|]. rewrite dict_set_new by done.
  set (ts1 := <[i := (gid, t ++ [(k, b)])]> ts). set (h2 := put_table r i gid (t ++ [(k, b)]) ts h1).
  assert (tab_frame r h h2) as F2
    by exact (transitivity (slot_tab_frame r _ _ F1) (put_tab_frame r i gid _ ts h1)).
  assert (taken [b] h h2) as Htk2 by (destruct Htk1; by split).
  assert (shrink r h h2) as Hsh2.
  { split; [|intros b'; by apply (taken_none [b])|apply F2]. intros b'. unfold avail. change (free_slots h2) with (free_slots h1).
    unfold h2, put_table. cbn [h_tables update_field].
    rewrite lookup_insert_eq, Ht. cbn [from_option id]. rewrite !elem_of_app, (tk_free _ _ _ Htk1), elem_of_app.
    intros [Hb|Hb]; [|by right; right]. apply (request_slots_insert _ _ _ t) in Hb as [Hb|Hb]; [|by left|done].
    rewrite fmap_app, elem_of_app in Hb. destruct Hb as [Hb|Hb]; [|by right; left].
    left. by eapply table_slots_request. }
  wp_step. eapply wp_mono; [eapply (IH ts1 (t ++ [(k, b)]) h2)| |done].
  - eapply inv_put_table; [exact Hi1|by rewrite (sf_tables _ _ F1)|done|]. rewrite fmap_app. cbn. by rewrite <- app_assoc.
  - cbn. by rewrite lookup_insert_eq.
  - unfold ts1. by erewrite insert_ids.
  - unfold ts1. apply list_lookup_insert_eq. by eapply lookup_lt_Some.
  - rewrite fmap_app, <- app_assoc. done.
  - rewrite num_free_slots in Hfree. rewrite num_free_slots. pose proof (tk_free _ _ _ Htk2) as Hp. apply Permutation_length in Hp.
    rewrite length_app in Hp. cbn [length] in Hp. lia.
  - intros ds h3 (Hi3 & F3 & Hsh3 & bs & Hlen & -> & Htk3 & Ht3). wp_step. split; [done|].
    split; [exact (transitivity F2 F3)|]. split; [exact (transitivity Hsh2 Hsh3)|]. exists (b :: bs). cbn [length]. split; [by rewrite Hlen|]. split; [done|].
    split; [exact (taken_trans E [b] bs h h2 h3 Hi (tf_len _ _ _ F2) Htk2 Htk3)|].
    rewrite Ht3. unfold ts1. rewrite list_insert_insert_eq. csimpl. by rewrite <- app_assoc.
Qed.

(** ** All groups *)

Abbreviation ext_hits := (list (Z * list (Z * P))).

Definition drop_hit (x : Z * list (Z * P)) (t : Z * page_table) : Z * page_table :=
  (t.1, drop_keys x.2.*1 t.2).

Definition same_ids (hits : ext_hits) (ts : list (Z * page_table)) : Prop :=
  Forall2 (λ x t, x.1 = t.1 ∧ NoDup x.2.*1 ∧ NoDup t.2.*1) hits ts.

Definition replaced_all (hits : ext_hits) (ts : list (Z * page_table)) : list slot :=
  concat (zip_with (λ x t, replaced_in t.2 x.2) hits ts).

Lemma drop_groups_spec E r hits pre ts h :
  HInv [] E h → same_ids hits ts → NoDup (pre ++ ts).*1 → h_tables h !! r = Some (pre ++ ts) →
  wp (for_ hits (λ x, get_table r x.1 ;; for_ x.2 (drop_page r x.1)))
    (λ _ h', HInv [] E h' ∧ tab_frame r h h' ∧ shrink r h h' ∧ reclaimed (replaced_all hits ts) h h' ∧
       h_tables h' !! r = Some (pre ++ zip_with drop_hit hits ts)) no_raise h.
Proof.
  intros Hi Hs. revert pre h Hi. induction Hs as [|[gid pairs] [gid' t] hits ts (Hg & Hnd & Hndt) Hs IH];
    intros pre h Hi Hids Ht; cbn [for_].
  { wp_step. split_and!; try done. apply reclaimed_refl. }
  cbn [fst snd] in *. subst gid'.
  assert ((pre ++ (gid, t) :: ts) !! length pre = Some (gid, t)) as Hti
    by (rewrite lookup_app_r by lia; by rewrite Nat.sub_diag).
  wp_step. wp_step. unfold get_table at 1. wp_steps. unid. eapply wp_require; [done|].
  eapply wp_require; [by eapply dict_get_lookup|].
  eapply wp_mono; [by eapply (drop_pages_spec E r (length pre) gid _ t pairs h)| |done].
  intros _ h1 (Hi1 & F1 & Hsh1 & Hrc1 & Ht1). rewrite insert_app_r_alt in Ht1 by lia. rewrite Nat.sub_diag in Ht1. cbn in Ht1.
  set (t1 := drop_keys pairs.*1 t) in *.
  eapply wp_mono; [apply (IH (pre ++ [(gid, t1)]) h1 Hi1)| |done].
  - rewrite fmap_app in Hids. rewrite !fmap_app, <- app_assoc. exact Hids.
  - by rewrite <- app_assoc.
  - intros _ h2 (Hi2 & F2 & Hsh2 & Hrc2 & Ht2). split; [done|]. split; [exact (transitivity F1 F2)|].
    split; [exact (transitivity Hsh1 Hsh2)|].
    split; [exact (reclaimed_trans E _ _ h h1 h2 Hi Hi1 Hrc1 Hrc2)|]. by rewrite Ht2, <- app_assoc.
Qed.

Definition hit_pages (hits : ext_hits) : list P := hits ≫= λ x, x.2.*2.

(** Table [t'] is [t] with the pages of [x] added. *)
Definition added (x : Z * list (Z * P)) (t t' : Z * page_table) : Prop :=
  t'.1 = t.1 ∧ t'.2.*1 = t.2.*1 ++ x.2.*1.

Lemma targets_slots gid pairs bs : length bs = length pairs → (targets gid pairs bs).*2 = bs.
Proof.
  revert bs. induction pairs as [|x pairs IH]; intros [|b bs]; cbn; try done. intros [= Hl]. f_equal. by apply IH.
Qed.

Lemma targets_pages gid pairs bs :
  length bs = length pairs → (targets gid pairs bs).*1.*2 = pairs.*2.
Proof.
  revert bs. induction pairs as [|x pairs IH]; intros [|b bs]; cbn; try done. intros [= Hl]. f_equal. by apply IH.
Qed.

Lemma target_groups_spec E r hits pre ts h :
  HInv [] E h → Forall2 (λ x t, x.1 = t.1 ∧ NoDup (t.2.*1 ++ x.2.*1)) hits ts →
  NoDup (pre ++ ts).*1 → h_tables h !! r = Some (pre ++ ts) →
  Z.of_nat (length (hit_pages hits)) <= h_num_free_blocks h →
  wp (target_groups r hits)
    (λ ds h', HInv [] E h' ∧ tab_frame r h h' ∧ shrink r h h' ∧ ∃ ts',
       h_tables h' !! r = Some (pre ++ ts') ∧ Forall3 added hits ts ts' ∧ taken ds.*2 h h' ∧
       ds.*1.*2 = hit_pages hits ∧ ∀ b, b ∈ ds.*2 → b ∈ request_slots ts') no_raise h.
Proof.
  intros Hi Hs. revert pre h Hi. induction Hs as [|[gid pairs] [gid' t] hits ts (Hg & Hnd) Hs IH];
    intros pre h Hi Hids Ht Hfree; cbn [target_groups].
  { wp_step. split_and!; try done. exists []. split_and!; try done; [constructor|apply taken_refl]. }
  cbn [fst snd] in *. subst gid'.
  assert ((pre ++ (gid, t) :: ts) !! length pre = Some (gid, t)) as Hti
    by (rewrite lookup_app_r by lia; by rewrite Nat.sub_diag).
  unfold hit_pages in Hfree. csimpl in Hfree. rewrite length_app, length_fmap in Hfree.
  wp_step. unfold get_table at 1. wp_steps. unid. eapply wp_require; [done|].
  eapply wp_require; [by eapply dict_get_lookup|]. wp_step.
  eapply wp_mono; [eapply (target_pages_spec E r (length pre) gid _ t pairs h); try done; lia| |done].
  intros ds h1 (Hi1 & F1 & Hsh1 & bs & Hlen & -> & Htk1 & Ht1).
  rewrite insert_app_r_alt in Ht1 by lia. rewrite Nat.sub_diag in Ht1. cbn in Ht1.
  set (t1 := t ++ zip pairs.*1 bs) in *. wp_step.
  eapply wp_mono; [apply (IH (pre ++ [(gid, t1)]) h1 Hi1)| |done].
  - rewrite fmap_app in Hids. rewrite !fmap_app, <- app_assoc. exact Hids.
  - by rewrite <- app_assoc.
  - pose proof (tk_free _ _ _ Htk1) as Hp. apply Permutation_length in Hp. rewrite length_app in Hp.
    rewrite num_free_slots in Hfree. rewrite num_free_slots. unfold hit_pages. lia.
  - intros ds2 h2 (Hi2 & F2 & Hsh2 & ts' & Ht2 & Hadd & Htk2 & Hpg & Hin). wp_step. split; [done|].
    split; [exact (transitivity F1 F2)|]. split; [exact (transitivity Hsh1 Hsh2)|]. exists ((gid, t1) :: ts'). rewrite !fmap_app.
    rewrite targets_slots, targets_pages by done. split_and!.
    + by rewrite Ht2, <- app_assoc.
    + constructor; [|done]. split; [done|]. unfold t1. cbn. rewrite fmap_app, fst_zip; [done|].
      rewrite length_fmap. lia.
    + exact (taken_trans E bs ds2.*2 h h1 h2 Hi (tf_len _ _ _ F1) Htk1 Htk2).
    + unfold hit_pages. csimpl. by rewrite Hpg.
    + intros b. unfold request_slots. csimpl. rewrite !elem_of_app. intros [Hb|Hb]; [left|by right; apply Hin].
      unfold t1. rewrite fmap_app, snd_zip by (rewrite length_fmap; lia). set_solver.
Qed.

(** ** The import *)

(** Hits that [plan_external_reuse] makes for tables [ts] *)
Definition import_hits (specs : list GroupSpec) (hits : ext_hits) (ts : list (Z * page_table)) : Prop :=
  hits = [] ∨ Forall3 (λ s x t, x.1 = t.1 ∧ NoDup x.2.*1 ∧
    (is_window s = false → ∃ a n, x.2.*1 = zrange a n ∧ 0 <= a <= Z.of_nat (length t.2))) specs hits ts.

Lemma drop_keys_fst ks t : (drop_keys ks t).*1 = filter (.∉ ks) t.*1.
Proof.
  unfold drop_keys. induction t as [|x t IH]; [done|]. rewrite filter_cons, fmap_cons, filter_cons.
  case_decide; csimpl; by rewrite IH.
Qed.

(** A contiguous table stays one when a run that starts inside it is replaced. *)
Lemma contiguous_replace (t t' : page_table) a n :
  0 <= a <= Z.of_nat (length t) → t.*1 ≡ₚ zrange 0 (Z.of_nat (length t)) →
  t'.*1 = (drop_keys (zrange a n) t).*1 ++ zrange a n → t'.*1 ≡ₚ zrange 0 (Z.of_nat (length t')).
Proof.
  intros Ha Ht Ht'. set (m := Z.max (Z.of_nat (length t)) n).
  assert (t'.*1 ≡ₚ zrange 0 m) as Hp.
  { apply NoDup_Permutation.
    - rewrite Ht', drop_keys_fst. apply NoDup_app. split_and!.
      + apply NoDup_filter. rewrite Ht. apply NoDup_zrange.
      + intros k [? _]%list_elem_of_filter. done.
      + apply NoDup_zrange.
    - apply NoDup_zrange.
    - intros k. rewrite Ht', drop_keys_fst, elem_of_app, list_elem_of_filter, Ht, !elem_of_zrange. unfold m. lia. }
  rewrite Hp. f_equiv. apply Permutation_length in Hp. rewrite length_fmap, length_zrange in Hp. unfold m in *. lia.
Qed.

Lemma import_tables specs hits ts :
  Forall3 (λ s x t, x.1 = t.1 ∧ NoDup x.2.*1 ∧
    (is_window s = false → ∃ a n, x.2.*1 = zrange a n ∧ 0 <= a <= Z.of_nat (length t.2))) specs hits ts →
  tables_ok specs ts →
  same_ids hits ts ∧
  Forall2 (λ x t, x.1 = t.1 ∧ NoDup (t.2.*1 ++ x.2.*1)) hits (zip_with drop_hit hits ts) ∧
  (zip_with drop_hit hits ts).*1 = ts.*1 ∧
  ∀ ts', Forall3 added hits (zip_with drop_hit hits ts) ts' → tables_ok specs ts'.
Proof.
  intros H3. induction H3 as [|s x t specs hits ts (Hid & Hnd & Hfull) H3 IH]; intros Hok.
  { split; [constructor|]. split; [constructor|]. split; [done|]. intros ts' Ha. inversion Ha. constructor. }
  inversion Hok as [|? ? ? ? [Hgid [Hndt Hcont]] Hok' E1 E2]. subst.
  destruct (IH Hok') as (IH1 & IH2 & IH3 & IH4).
  assert (NoDup ((drop_keys x.2.*1 t.2).*1 ++ x.2.*1)) as Hnd'.
  { rewrite drop_keys_fst. apply NoDup_app. split_and!; [by apply NoDup_filter| |done].
    by intros k [? _]%list_elem_of_filter. }
  split; [by constructor|]. split; [by constructor|]. split; [csimpl; by rewrite IH3|].
  intros ts' Ha. inversion Ha as [|? ? t' ? ? ts'' [Ht1 Ht2] Ha']. subst. constructor; [|by apply IH4].
  split; [by rewrite Ht1|]. unfold table_ok. cbn in Ht2. split; [by rewrite Ht2|].
  intros Hw. destruct (Hfull Hw) as (a & n & Hk & Ha1). rewrite Hk in Ht2.
  exact (contiguous_replace t.2 t'.2 a n Ha1 (Hcont Hw) Ht2).
Qed.

Lemma replaced_slots_eq (tables pre ts : list (Z * page_table)) hits :
  same_ids hits ts → NoDup tables.*1 → tables = pre ++ ts →
  replaced_slots tables hits = replaced_all hits ts ∧
  forallb (λ x, bool_decide (is_Some (dict_get x.1 tables)) || bool_decide (x.2 = [])) hits = true.
Proof.
  intros Hs Hnd. revert pre. induction Hs as [|x t hits ts (Hid & _ & _) Hs IH]; intros pre Htab; [done|].
  destruct (IH (pre ++ [t])) as [IH1 IH2]; [by rewrite <- app_assoc|].
  assert (dict_get x.1 tables = Some t.2) as Hg.
  { rewrite Hid. apply (dict_get_lookup (length pre)); [done|]. rewrite Htab, lookup_app_r, Nat.sub_diag by lia.
    by destruct t. }
  unfold replaced_slots, replaced_all in *. csimpl. rewrite IH1, Hg.
  rewrite bool_decide_true by by eexists. split; [done|]. exact IH2.
Qed.

(** What an import leaves in the tables of [r] *)
Record imported (r : Z) (hits : ext_hits) (ds : list (Z * Z * P * slot)) h h' : Prop := {
  im_tables : ∃ ts', h_tables h' !! r = Some ts' ∧ ∀ b, b ∈ ds.*2 → b ∈ request_slots ts';
  im_other r' : r' ≠ r → h_tables h' !! r' = h_tables h !! r';
  im_pages : ds.*1.*2 = hit_pages hits;
  im_nodup : NoDup ds.*2;
  im_shrink : shrink r h h';
  im_private b : b ∈ ds.*2 → usable h' b ∧ block_hash (hblk h' b) = None ∧ ref_count (hblk h' b) = 1;
  im_reqs : h_reqs h' = h_reqs h;
}.

Lemma import_finish r ts ts' h h1 (Q : unit → hybrid X → Prop) E :
  Good h → tab_frame r h h1 → HInv [] [] h1 → h_tables h1 !! r = Some ts' → tables_ok (h_specs h) ts' →
  h_tables h !! r = Some ts →
  (∀ h', Good h' → same_ext h h' → evolve h h' → h_tables h' = h_tables h1 → h_blocks h' = h_blocks h1 →
     h_reqs h' = h_reqs h1 → (shrink r h h1 → shrink r h h') → Q tt h') →
  wp (drop_committed r ;; refresh_spans r) Q E h1.
Proof.
  intros Hg F Hi Ht' Hok Ht HQ. wp_step. unfold drop_committed. wp_step.
  eapply refresh_spans_spec; [exact Ht'|].
  match goal with |- Q tt ?h0 => set (h2 := h0) end.
  assert (evolve h h2) as E2 by (pose proof (tab_evolve _ _ _ F) as []; by split).
  apply HQ; try done; [|by split; apply F|by intros Hs; eapply shrink_same]. split.
  - by eapply inv_same.
  - apply (tabinv_refreshed r ts' h h2); try done; [apply Hg|apply E2|..].
    + intros r' Hne. unfold h2. cbn. by apply F.
    + intros r' Hne. unfold h2. cbn. rewrite lookup_insert_ne by done. by apply F.
    + unfold h2. cbn. rewrite lookup_insert_eq. by rewrite (tf_specs _ _ _ F).
  - eapply plan_inv_evolve; [exact E2| |apply Hg]. intros r' x. unfold h2. cbn. by rewrite (tf_plans _ _ _ F).
  - eapply specs_ok_evolve; [exact E2|apply Hg].
Qed.

Lemma length_hit_pages hits : length (hits ≫= snd) = length (hit_pages hits).
Proof.
  unfold hit_pages. induction hits as [|x hits IH]; [done|]. csimpl. rewrite !length_app, length_fmap. by rewrite IH.
Qed.

(** The pool cannot hold the pages beside those they replace. *)
Definition import_short h (ts : list (Z * page_table)) (hits : ext_hits) : Prop :=
  h_num_free_blocks h < Z.of_nat (length (hits ≫= snd)) - count_sole h (replaced_slots ts hits).

Lemma allocate_external_destinations_spec r hits ts h :
  Good h → h_tables h !! r = Some ts → import_hits (h_specs h) hits ts →
  wp (allocate_external_destinations r hits)
    (λ ds h', Good h' ∧ same_ext h h' ∧ evolve h h' ∧ imported r hits ds h h')
    (λ e h', e = OutOfBlocksError ∧ h' = h ∧ import_short h ts hits) h.
Proof.
  intros Hg Ht Hhits. pose proof (ti_tables _ (gd_tab _ Hg) r ts Ht) as Hok.
  pose proof (tabinv_ids h r ts (gd_tab _ Hg) Ht) as Hids. pose proof (gd_inv _ Hg) as Hi.
  unfold allocate_external_destinations. wp_step. unfold external_import_slots. wp_steps. unid.
  rewrite Ht. change (default [] (Some ts)) with ts.
  destruct Hhits as [->|H3].
  { cbn [forallb]. wp_steps. unid. match goal with |- context [?n <? ?m] => destruct (Z.ltb_spec n m) as [Hlt|_] end; [by wp_step|]. cbn [for_ target_groups]. do 4 wp_step.
    assert (wp (drop_committed r ;; refresh_spans r) (λ _ h', Good h' ∧ same_ext h h' ∧ evolve h h' ∧
      imported r [] [] h h') no_raise h) as Hw.
    { eapply (import_finish r ts ts h h); try done. intros h' Hg' S' E' Ht' _ Hrq' Hsh'. split_and!; try done.
      split; try done; [exists ts; rewrite Ht'; split; [done|]|intros r' _; by rewrite Ht'|constructor|by apply Hsh'|]; intros b Hb; cbn in Hb; by apply elem_of_nil in Hb. }
    apply wp_bind in Hw. wp_step. eapply wp_mono; [exact Hw| |done]. cbn beta. intros [] h1 Hr. wp_step.
    eapply wp_mono; [exact Hr| |done]. intros [] h2 Hpost. by wp_step. }
  destruct (import_tables _ _ _ H3 Hok) as (Hs & Hdrop & Hids' & Hok').
  destruct (replaced_slots_eq ts [] ts hits Hs Hids eq_refl) as [Hrep ->]. wp_steps. unid.
  rewrite Hrep, length_hit_pages.
  destruct (Z.ltb_spec (h_num_free_blocks h) (Z.of_nat (length (hit_pages hits)) - count_sole h (replaced_all hits ts)))
    as [Hlt|Hle]; [wp_step; split_and!; try done; unfold import_short; by rewrite Hrep, length_hit_pages|].
  wp_step. eapply wp_mono; [by apply (drop_groups_spec [] r hits [] ts h)| |done].
  intros _ h1 (Hi1 & F1 & Hsh1 & Hrc & Ht1). cbn [app] in Ht1. pose proof (rc_free _ _ _ Hrc) as Hfree.
  wp_step. eapply wp_mono; [apply (target_groups_spec [] r hits [] (zip_with drop_hit hits ts) h1); try done| |done].
  { cbn [app]. by rewrite Hids'. }
  { lia. }
  intros ds h2 (Hi2 & F2 & Hsh2 & ts' & Ht2 & Hadd & Htk & Hpg & Hin). cbn [app] in Ht2.
  pose proof (transitivity F1 F2) as F. specialize (Hok' ts' Hadd).
  assert (wp (drop_committed r ;; refresh_spans r) (λ _ h', Good h' ∧ same_ext h h' ∧ evolve h h' ∧
    imported r hits ds h h') no_raise h2) as Hw.
  { eapply (import_finish r ts ts' h h2); try done. intros h' Hg' S' E' Ht' Hbl' Hrq' Hsh'. split_and!; try done.
    pose proof (hv_nodup _ _ _ Hi1) as Hnd. rewrite app_nil_r, (tk_free _ _ _ Htk) in Hnd.
    apply NoDup_app in Hnd as (Hnd & Hdis & _). split; try done.
    - exists ts'. by rewrite Ht'.
    - intros r' Hne. rewrite Ht'. by apply F.
    - apply Hsh'. exact (transitivity Hsh1 Hsh2).
    - intros b Hb. assert (usable h1 b ∧ ref_count (hblk h1 b) = 0) as [Hb1 H0].
      { apply (hv_free _ _ _ Hi1). rewrite app_nil_r, (tk_free _ _ _ Htk). set_solver. }
      assert (usable h2 b) as Hb2 by by rewrite (tab_frame_usable r h1).
      unfold usable, hblk in *. rewrite Hbl'. split; [done|]. by apply (tk_fresh _ _ _ Htk).
    - rewrite Hrq'. apply F. }
  apply wp_bind in Hw. wp_step. eapply wp_mono; [exact Hw| |done]. cbn beta. intros [] h3 Hr. wp_step.
  eapply wp_mono; [exact Hr| |done]. intros [] h4 Hpost. by wp_step.
Qed.

(** ** The end of a transfer *)

(** Only the prefix map and the metadata of [B] change. *)
Record map_frame (B : list slot) h h' : Prop := {
  mp_layout : h_layout h' = h_layout h;
  mp_model : h_model h' = h_model h;
  mp_num_slots : h_num_slots h' = h_num_slots h;
  mp_watermark : h_watermark_blocks h' = h_watermark_blocks h;
  mp_specs : h_specs h' = h_specs h;
  mp_full : h_full h' = h_full h;
  mp_len : length (h_blocks h') = length (h_blocks h);
  mp_version : h_cache_version h' = h_cache_version h;
  mp_tables : h_tables h' = h_tables h;
  mp_spans : h_spans h' = h_spans h;
  mp_plans : h_plans h' = h_plans h;
  mp_ext : same_ext h h';
  mp_hash b : b ∉ B → block_hash (hblk h' b) = block_hash (hblk h b);
}.

#[global] Instance map_frame_preorder B : PreOrder (map_frame B).
Proof.
  split; [by intros h; split|]. intros h1 h2 h3 F1 F2. pose proof (transitivity (mp_ext _ _ _ F1) (mp_ext _ _ _ F2)) as S.
  destruct F1 as [? ? ? ? ? ? ? ? ? ? ? _ Hh1], F2 as [? ? ? ? ? ? ? ? ? ? ? _ Hh2].
  split; try congruence. intros b Hb. by rewrite Hh2, Hh1.
Qed.

Lemma map_frame_mono B B' h h' : (∀ b, b ∈ B → b ∈ B') → map_frame B h h' → map_frame B' h h'.
Proof. intros Hsub []. split; try done. intros b Hb. apply mp_hash0. auto. Qed.

Variable page_key : P → slot_key.

(** One page is filed in the prefix map. *)
Definition filed (d : Z * Z * P * slot) h h' : Prop :=
  HInv [] [] h' ∧ map_frame [d.2] h h' ∧ block_hash (hblk h' d.2) = Some (page_key d.1.2).

Lemma import_page_spec d h :
  HInv [] [] h → usable h d.2 → block_hash (hblk h d.2) = None →
  wp (import_page page_key d) (λ _ h', filed d h h') no_raise h.
Proof.
  intros Hi Hb Hn. set (key := page_key d.1.2). set (b := d.2) in *.
  assert (∀ cache' dups', (match h_cache h !! key with
      | None => cache' = <[key := b]> (h_cache h) ∧ dups' = h_duplicates h
      | Some e => cache' = h_cache h ∧ dups' = if decide (e = b) then h_duplicates h
          else <[key := set_add b (default [] (h_duplicates h !! key))]> (h_duplicates h) end) →
    filed d h (h <| h_blocks ::= alter (mark_cached key) b |> <| h_cache := cache' |> <| h_duplicates := dups' |>)) as Hfile.
  { intros cache' dups' Hj.
    match goal with |- filed d h ?h0 => set (h1 := h0) end.
    assert (∀ b', hblk h1 b' = if decide (b = b') then mark_cached key (hblk h b) else hblk h b') as Hk
      by (intros b'; by rewrite <- hblk_alter).
    split; [|split].
    - eapply (inv_metadata _ _ b (mark_cached key) h); try done.
      eapply (cache_ok_join key b h); [apply Hi|done|by left|done|exact Hj].
    - split; try done; [cbn; by rewrite length_alter|]. intros b' Hb'. rewrite Hk, decide_False; [done|]. set_solver.
    - rewrite Hk, decide_True by done. done. }
  unfold import_page. cbv zeta. fold key b. do 2 wp_step. unid. wp_step. apply wp_set_hblk. unfold when.
  destruct (h_cache h !! key) as [e|] eqn:He.
  - destruct (decide (e = b)) as [->|Hne].
    + rewrite bool_decide_true by done. cbn [negb]. wp_step. by apply (Hfile (h_cache h) (h_duplicates h)).
    + rewrite bool_decide_false by done. cbn [negb]. wp_step.
      by apply (Hfile (h_cache h) (<[key := set_add b (default [] (h_duplicates h !! key))]> (h_duplicates h))).
  - wp_step. exact (Hfile (<[key := b]> (h_cache h)) (h_duplicates h) (conj eq_refl eq_refl)).
Qed.

Lemma import_pages_spec ds h :
  HInv [] [] h → NoDup ds.*2 → (∀ b, b ∈ ds.*2 → usable h b ∧ block_hash (hblk h b) = None) →
  wp (for_ ds (import_page page_key)) (λ _ h', HInv [] [] h' ∧ map_frame ds.*2 h h' ∧
    ∀ d, d ∈ ds → block_hash (hblk h' d.2) = Some (page_key d.1.2)) no_raise h.
Proof.
  revert h. induction ds as [|d ds IH]; intros h Hi Hnd Hus; cbn [for_].
  { wp_step. split_and!; try done. set_solver. }
  csimpl in *. apply NoDup_cons in Hnd as [Hd Hnd]. destruct (Hus d.2 ltac:(left)) as [Hb Hn].
  wp_step. eapply wp_mono; [by apply import_page_spec| |done]. intros _ h1 (Hi1 & M1 & Hh1).
  eapply wp_mono; [apply (IH h1 Hi1 Hnd)| |done].
  - intros b' Hb'. unfold usable. rewrite (mp_len _ _ _ M1), (mp_hash _ _ _ M1); [apply Hus; by right|].
    intros ->%list_elem_of_singleton. done.
  - intros _ h2 (Hi2 & M2 & Hds). split; [done|]. split.
    + etransitivity; [eapply map_frame_mono; [|exact M1]|eapply map_frame_mono; [|exact M2]]; set_solver.
    + intros d' [->|Hd']%elem_of_cons; [|by apply Hds]. by rewrite (mp_hash _ _ _ M2).
Qed.

Lemma finish_external_import_spec r ds tokens h :
  Good h → NoDup ds.*2 → (∀ b, b ∈ ds.*2 → usable h b ∧ block_hash (hblk h b) = None) →
  wp (finish_external_import page_key r ds tokens)
    (λ _ h', Good h' ∧ same_ext h h' ∧ evolve h h' ∧ h_tables h' = h_tables h ∧
       (∀ b, b ∉ ds.*2 → block_hash (hblk h' b) = block_hash (hblk h b)) ∧
       ∀ d, d ∈ ds → block_hash (hblk h' d.2) = Some (page_key d.1.2)) no_raise h.
Proof.
  intros Hg Hnd Hus. unfold finish_external_import. wp_step.
  eapply wp_mono; [apply import_pages_spec; [apply Hg|done|done]| |done].
  intros _ h1 (Hi1 & M1 & Hds). do 2 wp_step. unfold drop_committed. wp_step.
  match goal with |- Good ?h0 ∧ _ => set (h2 := h0) end.
  assert (evolve h h2) as E2.
  { destruct M1. split; try done; cbn; lia. }
  split; [|split_and!; try done; [apply M1|apply M1|by intros b Hb; apply M1]]. split.
  - by eapply inv_same.
  - apply (tab_same h); [apply M1..|apply Hg].
  - eapply plan_inv_evolve; [exact E2| |apply Hg]. intros r' x. unfold h2. cbn. by rewrite (mp_plans _ _ _ M1).
  - eapply specs_ok_evolve; [exact E2|apply Hg].
Qed.
End External.

(** ** Transfer references *)

Section Transfers.
Context {X : Type}.
Implicit Types (h : hybrid X) (b : slot).

(** A reference of the running operation becomes one of a transfer, or back. *)
Lemma inv_transfer L E E' h h' m :
  HInv L E h → (∀ b n, m !! b = Some n → 0 < n ∧ usable h b) →
  (∀ b, usable h b → occ b E' + default 0 (m !! b) = occ b E + transfers h b) →
  (∀ b, b ∈ E' → usable h b) →
  h' = h <| h_transfer := m |> → HInv L E' h'.
Proof.
  intros Hi Hm Ho HE ->. split; try done; try apply Hi.
  - intros b Hb. change (hblk (h <| h_transfer := m |>) b) with (hblk h b). rewrite (hv_refs _ _ _ Hi b Hb), !occ_app.
    change (transfers (h <| h_transfer := m |>) b) with (default 0 (m !! b)). specialize (Ho b Hb).
    change (all_table_slots (h <| h_transfer := m |>)) with (all_table_slots h). lia.
  - intros b [Hb|Hb]%elem_of_app; [|by apply HE]. apply (hv_held _ _ _ Hi), elem_of_app. by left.
  - eapply cache_ok_same; [..|exact (hv_cache _ _ _ Hi)]; done.
Qed.

Lemma pin_transfer_spec b h :
  HInv [] [] h → usable h b →
  wp (pin_transfer b) (λ _ h', HInv [] [] h' ∧ pub_frame [] h h' ∧ h_ext h' = h_ext h ∧
    (h_cache h' = h_cache h ∧ h_reqs h' = h_reqs h) ∧
    h_transfer h' = <[b := transfers h b + 1]> (h_transfer h)) no_raise h.
Proof.
  intros Hi Hb. unfold pin_transfer. wp_step.
  eapply wp_mono; [apply (h_acquire_spec [] [] b); [done|done|apply not_elem_of_nil]| |done].
  intros _ h1 (Hi1 & F1 & Hc1 & Hh1). wp_step.
  match goal with |- HInv _ _ ?h0 ∧ _ => set (h2 := h0) end.
  assert (h_transfer h1 = h_transfer h) as Ht1 by apply F1.
  assert (usable h1 b) as Hb1 by by rewrite (frame_usable h).
  assert (transfers h1 b = transfers h b) as Htr by (unfold transfers; by rewrite Ht1).
  split; [|split; [|split_and!]].
  - eapply (inv_transfer [] [b] [] h1 h2 (<[b := transfers h1 b + 1]> (h_transfer h1))); try done.
    + intros b' n. destruct (decide (b = b')) as [<-|Hne].
      * rewrite lookup_insert_eq. intros [= <-]. split; [|done]. unfold transfers.
        destruct (h_transfer h1 !! b) as [n|] eqn:Hn; cbn; [apply (hv_transfer _ _ _ Hi1) in Hn; lia|lia].
      * rewrite lookup_insert_ne by done. apply (hv_transfer _ _ _ Hi1).
    + intros b' _. rewrite occ_nil, occ_cons, occ_nil. unfold transfers.
      destruct (decide (b = b')) as [<-|Hne].
      * rewrite lookup_insert_eq, decide_True by done. cbn. lia.
      * rewrite lookup_insert_ne, decide_False by done. lia.
    + set_solver.
  - split; [|by rewrite <- ?(sf_tables _ _ F1)|apply F1..|]; [destruct (slot_evolve _ _ F1); by split|].
    intros b' _. apply Hh1.
  - apply F1.
  - exact Hc1.
  - apply F1.
  - unfold h2. cbn. unfold transfers. by rewrite Ht1.
Qed.

Lemma unpin_transfer_spec b h :
  HInv [] [] h → 0 < transfers h b →
  wp (unpin_transfer b) (λ _ h', HInv [] [] h' ∧ pub_frame [] h h' ∧ h_ext h' = h_ext h ∧
    h_cache h' = h_cache h ∧
    h_transfer h' = (if transfers h b =? 1 then delete b else <[b := transfers h b - 1]>) (h_transfer h))
    no_raise h.
Proof.
  intros Hi Hpos. unfold unpin_transfer. do 2 wp_step. unid. fold (transfers h b).
  rewrite (proj2 (Z.leb_gt _ _)) by lia. do 2 wp_step.
  set (m := (if transfers h b =? 1 then delete b else <[b := transfers h b - 1]>) (h_transfer h)).
  match goal with |- wp _ _ _ ?h0 => set (h1 := h0) end.
  assert (∃ n, h_transfer h !! b = Some n ∧ transfers h b = n) as (n & Hn & Hn').
  { unfold transfers in *. destruct (h_transfer h !! b) as [n|]; [by exists n|cbn in *; lia]. }
  assert (usable h b) as Hb by by eapply (hv_transfer _ _ _ Hi).
  assert (∀ b', default 0 (m !! b') = transfers h b' - if decide (b' = b) then 1 else 0) as Hm.
  { intros b'. unfold m. destruct (Z.eqb_spec (transfers h b) 1) as [H1|H1]; destruct (decide (b' = b)) as [->|Hne].
    - rewrite lookup_delete_eq. cbn. lia.
    - rewrite lookup_delete_ne by done. unfold transfers. lia.
    - rewrite lookup_insert_eq. cbn. lia.
    - rewrite lookup_insert_ne by done. unfold transfers. lia. }
  assert (HInv [] [b] h1) as Hi1.
  { eapply (inv_transfer [] [] [b] h h1 m); try done.
    - intros b' n' Hl. unfold m in Hl. destruct (Z.eqb_spec (transfers h b) 1) as [H1|H1].
      + apply lookup_delete_Some in Hl as [_ Hl]. by apply (hv_transfer _ _ _ Hi).
      + apply lookup_insert_Some in Hl as [[<- <-]|[_ Hl]]; [split; [lia|done]|]. by apply (hv_transfer _ _ _ Hi).
    - intros b' _. rewrite Hm, occ_cons, occ_nil. case_decide; lia.
    - intros b' ->%list_elem_of_singleton. done. }
  unfold release_one. eapply wp_mono; [by apply (release_many_spec [] [b])| |done].
  intros _ h2 (Hi2 & C2 & _). pose proof (cn_frame _ _ C2) as F2. split; [done|].
  assert (evolve h h1) as E1 by by split. split; [|split_and!].
  - split; [exact (transitivity E1 (slot_evolve _ _ F2))|apply F2..|]. intros b' _. apply (cn_hash _ _ C2).
  - by rewrite (sf_ext _ _ F2).
  - by rewrite (cn_cache _ _ C2).
  - by rewrite (sf_transfer _ _ F2).
Qed.
End Transfers.
