(* ===== verification/NativeStore.v ===== *)
(** * The native page store ([TokenSim/kv_transfer/native_storage.py])

    [NativePageStore] is a bounded LRU of pages outside the accelerator.  A page is
    an object that the connectors hold on to: the store finds its pages by identity,
    so the model keeps a heap of page objects and a page is its position there.

    [StoreInv held st]: the references of every page object are the occurrences of
    the page in [held], what the running transfers hold; a held page is resident; the
    byte count, the capacity and the LRU agree with the resident pages. *)

From stdpp Require Import gmap list list_numbers.
From Stdlib Require Import ZArith Lia.
From S2P Require Import Prelude.
From S2P Require Import Buckets.
From S2P Require Import Block.
From S2P Require Import PrefixKeys.
From S2P Require Import HybridLayout.
From S2P Require Import HybridState.
From S2P Require Import HybridTables.

Open Scope Z_scope.

(** ** The store *)

(** A page object *)
Abbreviation page := nat.

Section Model.
Context {K : Type} `{Countable K}.

Record StoredPage := mkPage {
  pg_key : K;
  pg_bytes : Z;
  pg_references : Z;
  pg_ready : bool;
}.

#[global] Instance eta_page : Eta StoredPage := λ p,
  mkPage (pg_key p) (pg_bytes p) (pg_references p) (pg_ready p).

Record NativePageStore := mkStore {
  st_capacity : Z;
  st_unit : option Z;                       (* [allocation_unit] *)
  st_pages : gmap K page;
  st_lru : list K;                          (* least recently used first *)
  st_used : Z;
  st_evictions : Z;
  st_peak : Z;
  st_heap : list StoredPage;
}.

#[global] Instance eta_store : Eta NativePageStore := λ s,
  mkStore (st_capacity s) (st_unit s) (st_pages s) (st_lru s) (st_used s) (st_evictions s)
    (st_peak s) (st_heap s).

(** [integer(value, name, minimum=1)] *)
Definition positive_integer {S} (v : Z) : M S unit :=
  if v <? 1 then raise ConfigurationError else mret tt.

(** [NativePageStore.__init__] *)
Definition new_store (capacity : Z) (unit_bytes : option Z) : outcome NativePageStore :=
  if capacity <? 1 then Raise ConfigurationError
  else
    match unit_bytes with
    | Some u => if u <? 1 then Raise ConfigurationError
                else Ok (mkStore capacity unit_bytes ∅ [] 0 0 0 [])
    | None => Ok (mkStore capacity unit_bytes ∅ [] 0 0 0 [])
    end.

(** Attributes of a page object *)
Definition get_page (p : page) : M NativePageStore StoredPage :=
  s ← gets id;
  require KeyError (st_heap s !! p).

Definition set_page (p : page) (f : StoredPage → StoredPage) : M NativePageStore unit :=
  modify (λ s, s <| st_heap ::= alter f p |>).

Definition allocation_bytes (payload : Z) (s : NativePageStore) : Z :=
  match st_unit s with
  | Some u => if u =? 0 then payload else u
  | None => payload
  end.

(** [self.lru.move_to_end(key)] *)
Definition move_to_end (key : K) : M NativePageStore unit :=
  s ← gets id;
  if bool_decide (key ∈ st_lru s)
  then modify (λ s, s <| st_lru ::= λ l, filter (.≠ key) l ++ [key] |>)
  else raise KeyError.

(** [lookup] *)
Definition page_lookup (key : K) : M NativePageStore (option page) :=
  s ← gets id;
  match st_pages s !! key with
  | None => mret None
  | Some p =>
      o ← get_page p;
      if negb (pg_ready o) then mret None
      else move_to_end key ;; mret (Some p)
  end.

(** [next((k for k in self.lru if self.pages[k].references == 0), None)] *)
Fixpoint candidate (keys : list K) : M NativePageStore (option K) :=
  match keys with
  | [] => mret None
  | k :: keys =>
      s ← gets id;
      p ← require KeyError (st_pages s !! k);
      o ← get_page p;
      if pg_references o =? 0 then mret (Some k) else candidate keys
  end.

(** One eviction of [reserve_write] *)
Definition evict_page (k : K) : M NativePageStore unit :=
  s ← gets id;
  p ← require KeyError (st_pages s !! k);
  o ← get_page p;
  modify (λ s, s <| st_pages ::= delete k |> <| st_lru ::= filter (.≠ k) |>
    <| st_used ::= λ u, u - pg_bytes o |> <| st_evictions ::= Z.succ |>).

(** The [while] loop: true once there is room for [size] bytes.  Every round takes
    a key out of the LRU, so [fuel] rounds are enough when it has that many keys. *)
Fixpoint make_room (size : Z) (fuel : nat) : M NativePageStore bool :=
  s ← gets id;
  if st_used s + size <=? st_capacity s then mret true
  else
    match fuel with
    | O => mret false
    | S fuel =>
        k ← candidate (st_lru s);
        match k with
        | None => mret false
        | Some k => evict_page k ;; make_room size fuel
        end
    end.

Definition reserve_write (key : K) (payload : Z) : M NativePageStore (option page) :=
  positive_integer payload ;;
  s ← gets id;
  match st_pages s !! key with
  | Some _ => mret None
  | None =>
      let size := allocation_bytes payload s in
      if st_capacity s <? size then mret None
      else
        room ← make_room size (length (st_lru s));
        if negb room then mret None
        else
          s ← gets id;
          let p := length (st_heap s) in
          modify (λ s, s <| st_heap ::= λ h, h ++ [mkPage key size 1 false] |>
            <| st_pages ::= <[key := p]> |> <| st_lru ::= λ l, l ++ [key] |>
            <| st_used ::= Z.add size |>) ;;
          modify (λ s, s <| st_peak ::= Z.max (st_used s) |>) ;;
          mret (Some p)
  end.

(** [self.pages.get(page.key) is page] *)
Definition resident (p : page) (key : K) (s : NativePageStore) : bool :=
  bool_decide (st_pages s !! key = Some p).

(** [release] *)
Definition page_release (p : page) : M NativePageStore unit :=
  o ← get_page p;
  if pg_references o <=? 0 then raise SimulationStateError
  else set_page p (λ o, o <| pg_references ::= Z.pred |>).

Definition finish_write (p : page) : M NativePageStore unit :=
  o ← get_page p;
  s ← gets id;
  if negb (resident p (pg_key o) s) then raise SimulationStateError
  else
    set_page p (λ o, o <| pg_ready := true |>) ;;
    page_release p.

(** [acquire] *)
Definition page_acquire (p : page) : M NativePageStore unit :=
  o ← get_page p;
  s ← gets id;
  if negb (resident p (pg_key o) s) || negb (pg_ready o) then raise SimulationStateError
  else
    set_page p (λ o, o <| pg_references ::= Z.succ |>) ;;
    move_to_end (pg_key o).

(** [sum(p.bytes for p in self.pages.values())] *)
Definition page_size (heap : list StoredPage) (p : page) : Z := default 0 (pg_bytes <$> heap !! p).

Definition stored_bytes (pages : gmap K page) (heap : list StoredPage) : Z :=
  zsum (page_size heap <$> (map_to_list pages).*2).

Definition validate : M NativePageStore bool :=
  s ← gets id;
  if negb (st_used s =? stored_bytes (st_pages s) (st_heap s)) || (st_capacity s <? st_used s)
  then raise SimulationStateError
  else if negb (bool_decide (dom (st_pages s) =@{gset K} list_to_set (st_lru s))) ||
      existsb (λ p, match st_heap s !! p with
                    | Some o => pg_references o <? 0
                    | None => false
                    end) (map_to_list (st_pages s)).*2
  then raise SimulationStateError
  else mret true.
End Model.
Arguments StoredPage : clear implicits.
Arguments NativePageStore K {_ _}.

(** ** The invariant *)

Section Inv.
Context {K : Type} `{Countable K}.
Implicit Types (s : NativePageStore K) (k : K) (p : page) (held : list page).

Record StoreInv held s : Prop := {
  sv_pages k p : st_pages s !! k = Some p →
    ∃ o, st_heap s !! p = Some o ∧ pg_key o = k ∧ 0 < pg_bytes o;
  sv_refs p o : st_heap s !! p = Some o → pg_references o = occ p held;
  sv_held p : p ∈ held → ∃ o, st_heap s !! p = Some o ∧ st_pages s !! pg_key o = Some p;
  sv_used : st_used s = stored_bytes (st_pages s) (st_heap s);
  sv_cap : st_used s <= st_capacity s;
  sv_lru : NoDup (st_lru s);
  sv_dom k : k ∈ st_lru s ↔ is_Some (st_pages s !! k);
  sv_unit u : st_unit s = Some u → 0 < u;
}.

(** Sums over the resident pages *)

Definition sum_pages (w : page → Z) (pages : gmap K page) : Z := zsum (w <$> (map_to_list pages).*2).

Lemma sum_pages_insert w pages k p :
  pages !! k = None → sum_pages w (<[k := p]> pages) = w p + sum_pages w pages.
Proof.
  intros Hk. unfold sum_pages. rewrite (zsum_perm _ (w <$> ((k, p) :: map_to_list pages).*2)); [done|].
  by rewrite map_to_list_insert.
Qed.

Lemma sum_pages_delete w pages k p :
  pages !! k = Some p → sum_pages w pages = w p + sum_pages w (delete k pages).
Proof.
  intros Hk. rewrite <- (insert_delete_id pages k p) at 1 by done.
  apply sum_pages_insert, lookup_delete_eq.
Qed.

Lemma sum_pages_le w w' pages :
  (∀ k p, pages !! k = Some p → w p <= w' p) → sum_pages w pages <= sum_pages w' pages.
Proof.
  intros Hw. unfold sum_pages, zsum.
  assert (∀ p, p ∈ (map_to_list pages).*2 → w p <= w' p) as Hl.
  { intros p ([k p'] & -> & Hin%elem_of_map_to_list)%list_elem_of_fmap. by eapply Hw. }
  induction (map_to_list pages).*2 as [|p l IH]; [done|]. csimpl.
  pose proof (Hl p ltac:(left)). assert (∀ p, p ∈ l → w p <= w' p) by (intros; apply Hl; by right). specialize (IH ltac:(done)). lia.
Qed.

Lemma sum_pages_ext w w' pages :
  (∀ k p, pages !! k = Some p → w p = w' p) → sum_pages w pages = sum_pages w' pages.
Proof.
  intros Hw. apply Z.le_antisymm; apply sum_pages_le; intros k p Hp; rewrite (Hw k p Hp); lia.
Qed.

Lemma sum_pages_nonneg w pages :
  (∀ k p, pages !! k = Some p → 0 <= w p) → 0 <= sum_pages w pages.
Proof.
  intros Hw. transitivity (sum_pages (λ _, 0) pages); [|by apply sum_pages_le].
  unfold sum_pages, zsum. induction (map_to_list pages).*2; csimpl; [done|lia].
Qed.

(** Bytes that cannot be evicted *)
Definition pinned_size s p : Z :=
  match st_heap s !! p with
  | Some o => if pg_references o =? 0 then 0 else pg_bytes o
  | None => 0
  end.

Definition pinned_bytes s : Z := sum_pages (pinned_size s) (st_pages s).

Lemma page_size_pos held s k p :
  StoreInv held s → st_pages s !! k = Some p → 0 <= pinned_size s p <= page_size (st_heap s) p.
Proof.
  intros Hi Hk. destruct (sv_pages _ _ Hi k p Hk) as (o & Ho & _ & Hb). unfold pinned_size, page_size. rewrite Ho. cbn.
  case_match; lia.
Qed.

Lemma pinned_le_used held s : StoreInv held s → 0 <= pinned_bytes s <= st_used s.
Proof.
  intros Hi. rewrite (sv_used _ _ Hi). split.
  - apply sum_pages_nonneg. intros k p Hk. by eapply page_size_pos.
  - apply sum_pages_le. intros k p Hk. by eapply page_size_pos.
Qed.

Lemma wp_get_page p o s (Q : StoredPage K → NativePageStore K → Prop) E :
  st_heap s !! p = Some o → Q o s → wp (get_page p) Q E s.
Proof. intros Ho HQ. unfold get_page. wp_steps. unid. by eapply wp_require. Qed.

(** ** Reading *)

(** The resident pages stay; the order of the LRU may change. *)
Record same_pages s s' : Prop := {
  sa_capacity : st_capacity s' = st_capacity s;
  sa_unit : st_unit s' = st_unit s;
  sa_pages : st_pages s' = st_pages s;
  sa_used : st_used s' = st_used s;
  sa_lru : st_lru s' ≡ₚ st_lru s;
}.

Lemma filter_move k (l : list K) : k ∈ l → NoDup l → filter (.≠ k) l ++ [k] ≡ₚ l.
Proof.
  intros Hin Hnd. rewrite Permutation_app_comm. cbn. symmetry. clear -Hin Hnd.
  induction l as [|x l IH]; [by apply elem_of_nil in Hin|].
  apply NoDup_cons in Hnd as [Hx Hnd]. destruct (decide (x = k)) as [->|Hne].
  - rewrite filter_cons_False by naive_solver. rewrite filter_all; [done|]. apply Forall_forall. intros y Hy ->. done.
  - rewrite filter_cons_True by done. rewrite IH at 1; [|set_solver|done]. apply Permutation_swap.
Qed.

Lemma inv_same_pages held s s' :
  StoreInv held s → same_pages s s' → st_heap s' = st_heap s → StoreInv held s'.
Proof.
  intros [] [] Hh. split; rewrite ?sa_capacity0, ?sa_unit0, ?sa_pages0, ?sa_used0, ?Hh; try done.
  - by rewrite sa_lru0.
  - intros k. rewrite sa_lru0. done.
Qed.

Lemma move_to_end_spec held k s :
  StoreInv held s → is_Some (st_pages s !! k) →
  wp (move_to_end k) (λ _ s', same_pages s s' ∧ st_heap s' = st_heap s) no_raise s.
Proof.
  intros Hi Hk. unfold move_to_end. do 2 wp_step. unid.
  assert (k ∈ st_lru s) as Hin by by apply (sv_dom _ _ Hi). rewrite bool_decide_true by done.
  wp_step. split; [|done]. split; try done. cbn. apply filter_move; [done|apply Hi].
Qed.

Lemma page_lookup_spec held k s :
  StoreInv held s →
  wp (page_lookup k) (λ r s', StoreInv held s' ∧ st_heap s' = st_heap s ∧ st_pages s' = st_pages s ∧
    r = (p ← st_pages s !! k; o ← st_heap s !! p; if pg_ready o then Some p else None)) no_raise s.
Proof.
  intros Hi. unfold page_lookup. do 2 wp_step. unid. destruct (st_pages s !! k) as [p|] eqn:Hk; [|by wp_step].
  destruct (sv_pages _ _ Hi k p Hk) as (o & Ho & Hkey & _). wp_step. eapply wp_get_page; [done|]. cbn. rewrite Ho. cbn.
  destruct (pg_ready o); cbn [negb]; [|by wp_step].
  wp_step. eapply wp_mono; [by apply (move_to_end_spec held); [|eexists]| |done].
  intros _ s' [Hs Hh]. wp_step. split; [by eapply inv_same_pages|]. split; [done|]. split; [apply Hs|done].
Qed.

(** ** Eviction *)

Definition unpinned s k : Prop :=
  ∃ p o, st_pages s !! k = Some p ∧ st_heap s !! p = Some o ∧ pg_references o = 0.

(** The candidate is the least recently used page without references. *)
Lemma candidate_spec held keys s :
  StoreInv held s → (∀ k, k ∈ keys → k ∈ st_lru s) →
  wp (candidate keys) (λ r s', s' = s ∧
    match r with
    | None => ∀ k, k ∈ keys → ¬ unpinned s k
    | Some k => unpinned s k ∧ ∃ older newer, keys = older ++ k :: newer ∧ ∀ k', k' ∈ older → ¬ unpinned s k'
    end) no_raise s.
Proof.
  intros Hi. induction keys as [|k keys IH]; intros Hsub; cbn [candidate].
  { wp_step. split; [done|]. set_solver. }
  assert (is_Some (st_pages s !! k)) as [p Hp] by (apply (sv_dom _ _ Hi), Hsub; left).
  destruct (sv_pages _ _ Hi k p Hp) as (o & Ho & _ & _).
  do 3 wp_step. unid. eapply wp_require; [done|]. wp_step. eapply wp_get_page; [done|].
  destruct (Z.eqb_spec (pg_references o) 0) as [Hz|Hz].
  - wp_step. split; [done|]. split; [by exists p, o|]. exists [], keys. split; [done|set_solver].
  - assert (¬ unpinned s k) as Hn by (intros (p' & o' & ? & ? & ?); congruence).
    eapply wp_mono; [apply IH; intros; apply Hsub; by right| |done]. intros r s' [-> Hr]. split; [done|].
    destruct r as [k'|].
    + destruct Hr as (Hu & older & newer & -> & Hold). split; [done|]. exists (k :: older), newer.
      split; [done|]. intros k1 [->|?]%elem_of_cons; auto.
    + intros k1 [->|?]%elem_of_cons; auto.
Qed.

(** What eviction keeps: page objects, the pinned pages and the settings. *)
Record evicting s s' : Prop := {
  eg_capacity : st_capacity s' = st_capacity s;
  eg_unit : st_unit s' = st_unit s;
  eg_heap : st_heap s' = st_heap s;
  eg_pages k p : st_pages s' !! k = Some p → st_pages s !! k = Some p;
  eg_kept k p : st_pages s !! k = Some p → ¬ unpinned s k → st_pages s' !! k = Some p;
}.

#[global] Instance evicting_preorder : PreOrder evicting.
Proof.
  split; [by intros s; split|]. intros s1 s2 s3 E1 E2. split.
  - by rewrite (eg_capacity _ _ E2), (eg_capacity _ _ E1).
  - by rewrite (eg_unit _ _ E2), (eg_unit _ _ E1).
  - by rewrite (eg_heap _ _ E2), (eg_heap _ _ E1).
  - intros k p Hk. by apply (eg_pages _ _ E1), (eg_pages _ _ E2).
  - intros k p Hk Hn. apply (eg_kept _ _ E2); [by apply (eg_kept _ _ E1)|]. intros (p' & o & H1 & H2 & H3).
    apply Hn. exists p', o. split; [by apply (eg_pages _ _ E1)|]. by rewrite (eg_heap _ _ E1) in H2.
Qed.

Lemma evict_page_spec held k s :
  StoreInv held s → unpinned s k →
  wp (evict_page k) (λ _ s', StoreInv held s' ∧ evicting s s' ∧ pinned_bytes s' = pinned_bytes s ∧
    st_lru s' = filter (.≠ k) (st_lru s)) no_raise s.
Proof.
  intros Hi (p & o & Hp & Ho & Hz). unfold evict_page. do 3 wp_step. unid. eapply wp_require; [done|].
  wp_step. eapply wp_get_page; [done|]. wp_step.
  match goal with |- StoreInv _ ?s0 ∧ _ => set (s1 := s0) end.
  assert (stored_bytes (st_pages s) (st_heap s) = pg_bytes o + stored_bytes (delete k (st_pages s)) (st_heap s)) as Hsum.
  { unfold stored_bytes. fold (sum_pages (page_size (st_heap s)) (st_pages s)).
    rewrite (sum_pages_delete _ _ k p Hp). unfold page_size at 1. by rewrite Ho. }
  destruct (sv_pages _ _ Hi k p Hp) as (o' & Ho' & Hkey & Hb). rewrite Ho in Ho'. injection Ho' as <-.
  assert (occ p held = 0) as Hocc by (rewrite <- (sv_refs _ _ Hi p o Ho); done).
  split; [|split; [|split; [|done]]].
  - split; cbn.
    + intros k' p' [_ Hl]%lookup_delete_Some. by apply (sv_pages _ _ Hi).
    + apply (sv_refs _ _ Hi).
    + intros p' Hh. destruct (sv_held _ _ Hi p' Hh) as (o' & Ho' & Hr). exists o'. split; [done|].
      rewrite lookup_delete_ne; [done|]. intros ->. rewrite Hp in Hr. injection Hr as ->.
      apply occ_pos in Hh. lia.
    + rewrite (sv_used _ _ Hi), Hsum. lia.
    + pose proof (sv_cap _ _ Hi). lia.
    + apply NoDup_filter, Hi.
    + intros k'. rewrite list_elem_of_filter, (sv_dom _ _ Hi). destruct (decide (k' = k)) as [->|Hne].
      * rewrite lookup_delete_eq. split; [by intros []|by intros []].
      * rewrite lookup_delete_ne by done. tauto.
    + apply (sv_unit _ _ Hi).
  - split; try done; cbn.
    + by intros k' p' [_ Hl]%lookup_delete_Some.
    + intros k' p' Hk' Hn. rewrite lookup_delete_ne; [done|]. intros <-. apply Hn. by exists p, o.
  - unfold pinned_bytes. rewrite (sum_pages_delete (pinned_size s) (st_pages s) k p Hp).
    unfold pinned_size at 2. rewrite Ho, Hz. cbn. done.
Qed.

Lemma pinned_all held s :
  StoreInv held s → (∀ k, k ∈ st_lru s → ¬ unpinned s k) → pinned_bytes s = st_used s.
Proof.
  intros Hi Hall. rewrite (sv_used _ _ Hi). apply sum_pages_ext. intros k p Hk.
  destruct (sv_pages _ _ Hi k p Hk) as (o & Ho & _). unfold pinned_size, page_size. rewrite Ho. cbn.
  destruct (Z.eqb_spec (pg_references o) 0); [|done]. exfalso. apply (Hall k); [|by exists p, o].
  apply (sv_dom _ _ Hi). by eexists.
Qed.

(** The loop makes room exactly when the pinned pages leave it. *)
Lemma make_room_spec held size fuel s :
  StoreInv held s → (length (st_lru s) <= fuel)%nat →
  wp (make_room size fuel) (λ r s', StoreInv held s' ∧ evicting s s' ∧
    r = (pinned_bytes s + size <=? st_capacity s) ∧ (r = true → st_used s' + size <= st_capacity s')) no_raise s.
Proof.
  revert s. induction fuel as [|fuel IH]; intros s Hi Hlen; cbn [make_room]; do 2 wp_step; unid;
    pose proof (pinned_le_used held s Hi) as Hpin;
    (destruct (Z.leb_spec (st_used s + size) (st_capacity s)) as [Hle|Hgt];
      [wp_step; split; [done|]; split; [done|]; split; [symmetry; apply Z.leb_le; lia|done]|]).
  - wp_step. split; [done|]. split; [done|]. split; [|done].
    assert (st_lru s = []) as Hnil by (by apply nil_length_inv; lia).
    rewrite (pinned_all held s Hi) by (rewrite Hnil; set_solver). symmetry. apply Z.leb_gt. lia.
  - wp_step. eapply wp_mono; [by apply (candidate_spec held)| |done]. intros r s' [-> Hr]. destruct r as [k|].
    + destruct Hr as [Hu _]. wp_step. eapply wp_mono; [by apply (evict_page_spec held)| |done].
      intros _ s1 (Hi1 & E1 & Hpin1 & Hl1). eapply wp_mono; [apply (IH s1 Hi1)| |done].
      * rewrite Hl1. assert (k ∈ st_lru s) as Hk.
        { destruct Hu as (p & o & Hp & _). apply (sv_dom _ _ Hi). by eexists. }
        pose proof (Permutation_length (filter_move k (st_lru s) Hk (sv_lru _ _ Hi))) as Hlf.
        rewrite length_app in Hlf. cbn in Hlf. lia.
      * intros r s2 (Hi2 & E2 & -> & Hroom). split; [done|]. split; [exact (transitivity E1 E2)|].
        rewrite Hpin1, (eg_capacity _ _ E1) in *. done.
    + wp_step. split; [done|]. split; [done|]. split; [|done].
      rewrite (pinned_all held s Hi) by done. symmetry. apply Z.leb_gt. lia.
Qed.

(** ** Writes *)

Lemma allocation_bytes_pos held payload s :
  StoreInv held s → 0 < payload → 0 < allocation_bytes payload s.
Proof.
  intros Hi Hp. unfold allocation_bytes. destruct (st_unit s) as [u|] eqn:Hu; [|done].
  apply (sv_unit _ _ Hi) in Hu. by rewrite (proj2 (Z.eqb_neq _ _)) by lia.
Qed.

Lemma stored_bytes_ext pages (heap heap' : list (StoredPage K)) :
  (∀ k p, pages !! k = Some p → page_size heap' p = page_size heap p) →
  stored_bytes pages heap' = stored_bytes pages heap.
Proof. apply sum_pages_ext. Qed.

(** A new page object joins the store. *)
Lemma inv_new_page held k size s s' :
  StoreInv held s → st_pages s !! k = None → 0 < size → st_used s + size <= st_capacity s →
  st_capacity s' = st_capacity s → st_unit s' = st_unit s →
  st_heap s' = st_heap s ++ [mkPage k size 1 false] →
  st_pages s' = <[k := length (st_heap s)]> (st_pages s) → st_lru s' = st_lru s ++ [k] →
  st_used s' = size + st_used s → StoreInv (length (st_heap s) :: held) s'.
Proof.
  intros Hi Hk Hsz Hroom Hc Hu Hh Hp Hl Hus. set (p := length (st_heap s)).
  assert (∀ p', is_Some (st_heap s !! p') → p' ≠ p ∧ st_heap s' !! p' = st_heap s !! p') as Hold.
  { intros p' Hp'. apply lookup_lt_is_Some in Hp'. split; [unfold p; lia|]. rewrite Hh. by apply lookup_app_l. }
  assert (st_heap s' !! p = Some (mkPage k size 1 false)) as Hnew.
  { rewrite Hh. unfold p. rewrite lookup_app_r, Nat.sub_diag by lia. done. }
  assert (∀ p', p' ∈ held → p' ≠ p) as Hhp.
  { intros p' Hin. destruct (sv_held _ _ Hi p' Hin) as (o & Ho & _). apply Hold. by eexists. }
  assert (¬ p ∈ held) as Hnp by (intros Hin; by apply (Hhp p)).
  split.
  - intros k' p' Hl'. rewrite Hp in Hl'. apply lookup_insert_Some in Hl' as [[<- <-]|[_ Hl']]; [by eexists|].
    destruct (sv_pages _ _ Hi k' p' Hl') as (o & Ho & ?). exists o.
    rewrite (proj2 (Hold p' ltac:(by eexists))). done.
  - intros p' o Ho. rewrite occ_cons. destruct (decide (p' = p)) as [->|Hne].
    + rewrite Hnew in Ho. injection Ho as <-. cbn. destruct (decide (occ p held = 0)); [lia|].
      exfalso. apply Hnp, occ_pos. pose proof (occ_nonneg p held). lia.
    + rewrite Hh, lookup_app_l in Ho.
      * by rewrite (sv_refs _ _ Hi p' o Ho).
      * apply lookup_lt_Some in Ho. rewrite length_app in Ho. cbn in Ho. unfold p in Hne. lia.
  - intros p' [->|Hin]%elem_of_cons.
    + exists (mkPage k size 1 false). split; [done|]. rewrite Hp. by rewrite lookup_insert_eq.
    + destruct (sv_held _ _ Hi p' Hin) as (o & Ho & Hr). exists o.
      rewrite (proj2 (Hold p' ltac:(by eexists))). split; [done|]. rewrite Hp, lookup_insert_ne; [done|congruence].
  - assert (stored_bytes (<[k := p]> (st_pages s)) (st_heap s') =
      page_size (st_heap s') p + stored_bytes (st_pages s) (st_heap s')) as Hins by by apply sum_pages_insert.
    rewrite Hus, Hp, (sv_used _ _ Hi). fold p. rewrite Hins. unfold page_size at 1. rewrite Hnew. cbn. f_equal.
    symmetry. apply stored_bytes_ext. intros k' p' Hk'.
    destruct (sv_pages _ _ Hi k' p' Hk') as (o & Ho & _). unfold page_size.
    by rewrite (proj2 (Hold p' ltac:(by eexists))).
  - rewrite Hus, Hc. lia.
  - rewrite Hl. apply NoDup_app. split_and!; [apply Hi| |apply NoDup_singleton].
    intros k' Hk' ->%list_elem_of_singleton. apply (sv_dom _ _ Hi) in Hk' as [? ?]. congruence.
  - intros k'. rewrite Hl, Hp, elem_of_app, list_elem_of_singleton, (sv_dom _ _ Hi).
    destruct (decide (k' = k)) as [->|Hne]; [rewrite lookup_insert_eq; naive_solver|].
    rewrite lookup_insert_ne by done. naive_solver.
  - rewrite Hu. apply Hi.
Qed.

Lemma reserve_write_spec held k payload s :
  StoreInv held s → 0 < payload →
  let size := allocation_bytes payload s in
  wp (reserve_write k payload) (λ r s',
    match r with
    | None => StoreInv held s' ∧ st_heap s' = st_heap s ∧
        (is_Some (st_pages s !! k) ∨ st_capacity s < pinned_bytes s + size)
    | Some p => StoreInv (p :: held) s' ∧ p = length (st_heap s) ∧
        st_heap s' = st_heap s ++ [mkPage k size 1 false] ∧
        st_pages s !! k = None ∧ pinned_bytes s + size <= st_capacity s
    end) no_raise s.
Proof.
  intros Hi Hpay size. pose proof (allocation_bytes_pos held payload s Hi Hpay) as Hsz. fold size in Hsz.
  pose proof (pinned_le_used held s Hi) as Hpin.
  unfold reserve_write. wp_step. unfold positive_integer. rewrite (proj2 (Z.ltb_ge _ _)) by lia. do 3 wp_step. unid.
  destruct (st_pages s !! k) as [p0|] eqn:Hk; [by wp_step; split; [|split; [|left]]|]. fold size.
  destruct (Z.ltb_spec (st_capacity s) size) as [Hbig|Hfit].
  { wp_step. split; [done|]. split; [done|]. right. lia. }
  wp_step. eapply wp_mono; [by apply (make_room_spec held size _ s Hi)| |done].
  intros r s1 (Hi1 & E1 & Hr & Hroom). destruct r; cbn [negb].
  - specialize (Hroom eq_refl). wp_steps. unid.
    symmetry in Hr. apply Z.leb_le in Hr. rewrite <- (eg_heap _ _ E1). split; [|by split_and!].
    eapply (inv_new_page held k size s1); try done.
    destruct (st_pages s1 !! k) eqn:Hk1; [|done]. apply (eg_pages _ _ E1) in Hk1. congruence.
  - wp_step. split; [done|]. split; [apply E1|]. right. symmetry in Hr. apply Z.leb_gt in Hr. lia.
Qed.

(** ** References *)

Lemma alter_lookup_Some {A} (f : A → A) (l : list A) i j x :
  alter f i l !! j = Some x ↔ ∃ y, l !! j = Some y ∧ x = if decide (i = j) then f y else y.
Proof.
  rewrite list_lookup_alter. destruct (decide (i = j)) as [<-|]; [|naive_solver].
  destruct (l !! i) as [y|]; cbn; naive_solver.
Qed.

(** The attributes of a page object change; [held] changes with its references. *)
Lemma inv_set_page held held' p f s s' :
  StoreInv held s →
  (∀ o, pg_key (f o) = pg_key o ∧ pg_bytes (f o) = pg_bytes o) →
  (∀ o, st_heap s !! p = Some o → pg_references (f o) - pg_references o = occ p held' - occ p held) →
  (∀ p', p' ≠ p → occ p' held' = occ p' held) →
  (p ∈ held' → ∃ o, st_heap s !! p = Some o ∧ st_pages s !! pg_key o = Some p) →
  same_pages s s' → st_heap s' = alter f p (st_heap s) → StoreInv held' s'.
Proof.
  intros Hi Hf Hp Hoth Hres Hs Hh.
  assert (∀ p', page_size (st_heap s') p' = page_size (st_heap s) p') as Hsize.
  { intros p'. unfold page_size. rewrite Hh, list_lookup_alter. case_decide; subst; [|done].
    destruct (st_heap s !! p') as [o|]; [|done]. cbn. apply Hf. }
  assert (∀ p' o, st_heap s !! p' = Some o → ∃ o', st_heap s' !! p' = Some o' ∧ pg_key o' = pg_key o ∧
    pg_bytes o' = pg_bytes o) as Hkeep.
  { intros p' o Ho. rewrite Hh, list_lookup_alter. destruct (decide (p = p')) as [<-|]; rewrite Ho; cbn;
      eexists; (split; [done|]); [apply Hf|done]. }
  split.
  - intros k p'. rewrite (sa_pages _ _ Hs). intros Hk. destruct (sv_pages _ _ Hi k p' Hk) as (o & Ho & Hko & Hb).
    destruct (Hkeep p' o Ho) as (o' & Ho' & H1 & H2). exists o'. rewrite H1, H2. done.
  - intros p' o'. rewrite Hh. intros (o & Ho & ->)%alter_lookup_Some. destruct (decide (p = p')) as [<-|Hne].
    + specialize (Hp o Ho). rewrite (sv_refs _ _ Hi p o Ho) in Hp. lia.
    + rewrite Hoth by done. by apply Hi.
  - intros p' Hin. assert (∃ o, st_heap s !! p' = Some o ∧ st_pages s !! pg_key o = Some p') as (o & Ho & Hr).
    { destruct (decide (p' = p)) as [->|Hne]; [by apply Hres|]. apply (sv_held _ _ Hi).
      apply occ_pos in Hin. rewrite Hoth in Hin by done. by apply occ_pos. }
    destruct (Hkeep p' o Ho) as (o' & Ho' & H1 & _). exists o'. split; [done|]. by rewrite H1, (sa_pages _ _ Hs).
  - rewrite (sa_used _ _ Hs), (sv_used _ _ Hi), (sa_pages _ _ Hs). symmetry. apply stored_bytes_ext. intros; apply Hsize.
  - rewrite (sa_used _ _ Hs), (sa_capacity _ _ Hs). apply Hi.
  - rewrite (sa_lru _ _ Hs). apply Hi.
  - intros k. rewrite (sa_lru _ _ Hs), (sa_pages _ _ Hs). apply Hi.
  - rewrite (sa_unit _ _ Hs). apply Hi.
Qed.

Lemma same_pages_heap s h : same_pages s (s <| st_heap := h |>).
Proof. by split. Qed.

Lemma occ_cons_ne p p' held : p' ≠ p → occ p' (p :: held) = occ p' held.
Proof. intros Hne. by rewrite occ_cons, decide_False. Qed.

Lemma occ_cons_eq p held : occ p (p :: held) = occ p held + 1.
Proof. rewrite occ_cons, decide_True by done. lia. Qed.

Lemma page_release_spec held p s :
  StoreInv (p :: held) s →
  wp (page_release p) (λ _ s', StoreInv held s' ∧
    ∃ f, st_heap s' = alter f p (st_heap s) ∧ st_pages s' = st_pages s ∧
      ∀ o, pg_key (f o) = pg_key o ∧ pg_ready (f o) = pg_ready o) no_raise s.
Proof.
  intros Hi. destruct (sv_held _ _ Hi p ltac:(left)) as (o & Ho & Hr).
  unfold page_release. wp_step. eapply wp_get_page; [done|].
  pose proof (sv_refs _ _ Hi p o Ho) as Href. rewrite occ_cons_eq in Href. pose proof (occ_nonneg p held).
  rewrite (proj2 (Z.leb_gt _ _)) by lia. unfold set_page. wp_step. split; [|by eexists].
  eapply (inv_set_page (p :: held) held p (λ o, o <| pg_references ::= Z.pred |>)); [done|done| | | |by split|done].
  - intros o' Ho'. rewrite occ_cons_eq. cbn. lia.
  - intros p' Hne. by rewrite occ_cons_ne.
  - intros _. by exists o.
Qed.

Lemma finish_write_spec held p s :
  StoreInv (p :: held) s →
  wp (finish_write p) (λ _ s', StoreInv held s' ∧ st_pages s' = st_pages s ∧
    ∃ f, st_heap s' = alter f p (st_heap s) ∧ ∀ o, pg_key (f o) = pg_key o ∧ pg_ready (f o) = true) no_raise s.
Proof.
  intros Hi. destruct (sv_held _ _ Hi p ltac:(left)) as (o & Ho & Hr).
  unfold finish_write. wp_step. eapply wp_get_page; [done|]. do 2 wp_step. unid.
  unfold resident. rewrite bool_decide_true by done. cbn [negb]. unfold set_page at 1. do 2 wp_step.
  match goal with |- wp _ _ _ ?s0 => set (s1 := s0) end.
  assert (StoreInv (p :: held) s1) as Hi1.
  { eapply (inv_set_page (p :: held) (p :: held) p (λ o, o <| pg_ready := true |>)); [done|done| |done| |by split|done].
    - intros o' Ho'. cbn. lia.
    - intros _. by exists o. }
  eapply wp_mono; [by apply (page_release_spec held)| |done]. intros _ s2 (Hi2 & f & Hh & Hp & Hf).
  split; [done|]. split; [by rewrite Hp|]. exists (f ∘ (λ o, o <| pg_ready := true |>)). split.
  - rewrite Hh. apply list_eq. intros i. unfold s1. cbn.
    destruct (decide (p = i)) as [<-|]; [|by rewrite !list_lookup_alter_ne].
    rewrite !list_lookup_alter_eq. by destruct (st_heap s !! p).
  - intros o'. cbn. destruct (Hf (o' <| pg_ready := true |>)) as [H1 H2]. done.
Qed.

Lemma page_acquire_spec held p o s :
  StoreInv held s → st_heap s !! p = Some o → st_pages s !! pg_key o = Some p → pg_ready o = true →
  wp (page_acquire p) (λ _ s', StoreInv (p :: held) s' ∧ st_pages s' = st_pages s ∧
    ∃ f, st_heap s' = alter f p (st_heap s) ∧ ∀ o, pg_key (f o) = pg_key o ∧ pg_ready (f o) = pg_ready o) no_raise s.
Proof.
  intros Hi Ho Hr Hrd. unfold page_acquire. wp_step. eapply wp_get_page; [done|]. do 2 wp_step. unid.
  unfold resident. rewrite bool_decide_true by done. rewrite Hrd. cbn [negb orb]. unfold set_page. do 2 wp_step.
  match goal with |- wp _ _ _ ?s0 => set (s1 := s0) end.
  assert (StoreInv (p :: held) s1) as Hi1.
  { eapply (inv_set_page held (p :: held) p (λ o, o <| pg_references ::= Z.succ |>)); [done|done| | | |by split|done].
    - intros o' Ho'. rewrite occ_cons_eq. cbn. lia.
    - intros p' Hne. by rewrite occ_cons_ne.
    - intros _. by exists o. }
  eapply wp_mono; [apply (move_to_end_spec (p :: held)); [done|by eexists]| |done]. intros _ s2 [Hs Hh].
  split; [by eapply inv_same_pages|]. split; [by rewrite (sa_pages _ _ Hs)|].
  exists (λ o, o <| pg_references ::= Z.succ |>). by rewrite Hh.
Qed.

(** [validate] accepts every state of the invariant. *)
Lemma validate_ok held s : StoreInv held s → validate s = (Ok true, s).
Proof.
  intros Hi. unfold validate, mbind, M_bind, gets. unid. cbn beta iota.
  rewrite (proj2 (Z.eqb_eq _ _) (sv_used _ _ Hi)). cbn [negb orb]. pose proof (sv_cap _ _ Hi).
  rewrite (proj2 (Z.ltb_ge _ _)) by lia.
  rewrite bool_decide_true.
  2: { apply set_eq. intros k. by rewrite elem_of_dom, elem_of_list_to_set, (sv_dom _ _ Hi). }
  cbn [negb orb]. match goal with |- context [existsb ?f ?l] => destruct (existsb f l) eqn:Hex end; [|done].
  apply existsb_exists in Hex as (p & _ & Hp). destruct (st_heap s !! p) as [o|] eqn:Ho; [|done].
  apply Z.ltb_lt in Hp. rewrite (sv_refs _ _ Hi p o Ho) in Hp. pose proof (occ_nonneg p held). lia.
Qed.
End Inv.
