(* ===== verification/OffloadConnector.v ===== *)
(** * The asynchronous offload connector
      ([TokenSim/kv_transfer/connectors/simple_cpu.py])

    [AsyncOffloadConnector] copies published pages to a page store and loads stored
    pages into private slots, while the manager goes on.  Its state is the [X] of the
    manager's state, so a step of the system is a computation on [hybrid Connector].
    A process that waits for a link is a record of what it still has to do; the
    moment it resumes is a step of its own.  Links, statistics and notifications are
    not modelled: they decide when a step happens, not what it does. *)

From stdpp Require Import gmap list list_numbers.
From Stdlib Require Import ZArith Lia.
From S2P Require Import Prelude.
From S2P Require Import Buckets.
From S2P Require Import Block.
From S2P Require Import PrefixKeys.
From S2P Require Import PyFloat.
From S2P Require Import Request.
From S2P Require Import HybridLayout.
From S2P Require Import HybridState.
From S2P Require Import HybridManager.
From S2P Require Import NativeStore.

Open Scope Z_scope.

(** ** State *)

Inductive kv_role := kv_producer | kv_consumer | kv_both.

#[global] Instance kv_role_eq_dec : EqDecision kv_role.
Proof. solve_decision. Defined.

(** A page as the plans hold it: the object and its key, which never changes *)
Abbreviation stored_page := (page * slot_key)%type.

(** [(gid, index, page, block)] *)
Abbreviation target := (Z * Z * stored_page * slot)%type.

Definition target_page (t : target) : page := t.1.2.1.

(** A process of [_load] that waits for the read link *)
Record Load := mkLoad {
  ld_req : Z;
  ld_targets : list target;
  ld_boundary : Z;
}.

Record Connector := mkConnector {
  c_role : kv_role;
  c_store : NativePageStore slot_key;
  c_inflight : list Load;
  c_loads : gset Z;                        (* [self.loads] *)
  c_pending : list (page * slot);          (* [self.pending_writes] *)
  c_saves : list (list (page * slot));     (* processes of [_save] *)
  c_write_jobs : Z;
  c_loading : gset Z;                      (* [self.scheduler.loading] *)
  c_loaded_waiting : list Z;               (* [self.scheduler.loaded_waiting] *)
}.

#[global] Instance eta_connector : Eta Connector := λ c,
  mkConnector (c_role c) (c_store c) (c_inflight c) (c_loads c) (c_pending c) (c_saves c)
    (c_write_jobs c) (c_loading c) (c_loaded_waiting c).

Abbreviation system := (hybrid Connector).

(** The connector after [bind_runtime], with a store of its own *)
Definition new_connector (role : kv_role) (store : NativePageStore slot_key) : Connector :=
  mkConnector role store [] ∅ [] [] 0 ∅ [].

(** [bind_runtime]: the byte budget of a rank is cut into slots; both pools reserve
    slot zero *)
Definition cpu_store (capacity : Z) (layout : HybridKVLayout) : outcome (NativePageStore slot_key) :=
  let stride := physical_slot_bytes layout in
  if stride =? 0 then Raise ZeroDivisionError
  else
    let slots := capacity / stride in
    if slots <? 2 then Raise ConfigurationError
    else new_store ((slots - 1) * stride) (Some stride).

(** A method of the store *)
Definition on_store {A} (m : M (NativePageStore slot_key) A) : M system A := λ h,
  let '(r, s) := m (c_store (h_ext h)) in
  (r, h <| h_ext ::= λ c, c <| c_store := s |> |>).

Definition set_conn (f : Connector → Connector) : M system unit := modify (λ h, h <| h_ext ::= f |>).

(** ** Loads *)

Section Loads.
Context `{Digest}.

(** [self.store.lookup] as the manager calls it: an unknown key has no page *)
Definition lookup_stored (key : option slot_key) : M system (option stored_page) :=
  match key with
  | None => mret None
  | Some key =>
      p ← on_store (page_lookup key);
      mret ((λ p, (p, key)) <$> p)
  end.

Definition probe (r : Z) (local_plan : HybridReusePlan) : M system (Z * list (Z * list (Z * stored_page))) :=
  h ← gets id;
  if bool_decide (c_role (h_ext h) = kv_producer) then mret (hp_hit_tokens local_plan, [])
  else plan_external_reuse lookup_stored r (hp_hit_tokens local_plan).
End Loads.

(** The request once its load has begun *)
Definition begin_load_request (boundary : Z) (q : Request) : Request :=
  let external := boundary - gpu_cached_context_tokens q in
  let gpu := Z.min (prefill_len q) (gpu_cached_context_tokens q) in
  let cached := Z.min (prefill_len q) boundary in
  q <| external_cached_context_tokens := external |> <| gpu_cached_prefill_tokens := gpu |>
    <| external_cached_prefill_tokens := Z.min external (Z.max 0 (prefill_len q - gpu)) |>
    <| cached_prefill_tokens := cached |> <| cached_prefill_blocks := cached / req_block_size q |>
    <| effective_prefill_tokens := Some (Z.max 0 (prefill_len q - boundary)) |>
    <| status := WAITING_FOR_KV |>.

(** [begin_load] *)
Definition begin_load (r boundary : Z) (hits : list (Z * list (Z * stored_page))) : M system unit :=
  let pages := hits ≫= λ x, x.2.*2 in
  for_ pages (λ p, on_store (page_acquire p.1)) ;;
  targets ← catch (allocate_external_destinations r hits)
    (λ e, for_ pages (λ p, on_store (page_release p.1)) ;; raise e);
  for_ targets (λ t, pin_transfer t.2) ;;
  h ← gets id;
  (if req_block_size (hreq h r) =? 0 then raise ZeroDivisionError
   else set_hreq r (begin_load_request boundary)) ;;
  set_conn (λ c, c <| c_loading ::= ({[r]} ∪.) |> <| c_loads ::= ({[r]} ∪.) |>
    <| c_inflight ::= λ l, l ++ [mkLoad r targets boundary] |>).

(** The request once its load has ended *)
Definition end_load_request (boundary : Z) (q : Request) : Request :=
  let q := if needs_recompute q
           then q <| recompute_tokens := Z.max 0 (context_len q - boundary) |> else q in
  (start_context_build boundary q) <| status := WAITING |>.

(** [_load] from the moment its transfer is done *)
Definition end_load (l : Load) : M system unit :=
  let r := ld_req l in
  h ← gets id;
  (if negb (cancel_requested (hreq h r)) && bool_decide (is_Some (h_tables h !! r)) then
     finish_external_import snd r (ld_targets l) (ld_boundary l) ;;
     set_hreq r (end_load_request (ld_boundary l)) ;;
     set_conn (λ c, c <| c_loaded_waiting ::= λ w, w ++ [r] |>)
   else mret tt) ;;
  for_ (ld_targets l) (λ t, on_store (page_release (target_page t)) ;; unpin_transfer t.2) ;;
  h ← gets id;
  when (cancel_requested (hreq h r)) (set_conn (λ c, c <| c_loading ::= (.∖ {[r]}) |>)) ;;
  set_conn (λ c, c <| c_loads ::= (.∖ {[r]}) |>).

(** The process [i] resumes and ends. *)
Definition resume_load (i : nat) : M system unit :=
  h ← gets id;
  l ← require IndexError (c_inflight (h_ext h) !! i);
  end_load l ;;
  set_conn (λ c, c <| c_inflight ::= delete i |>).

(** ** Saves *)

(** [_queue_write], the callback of a publication, which has given the page its key *)
Definition queue_write (g : CacheGroup) (index : Z) (b : slot) (r : Z) : M system unit :=
  h ← gets id;
  if bool_decide (c_role (h_ext h) = kv_consumer) then mret tt
  else
    key ← require TypeError (block_hash (hblk h b));
    p ← on_store (reserve_write key (group_bytes g));
    match p with
    | None => mret tt
    | Some p => pin_transfer b ;; set_conn (λ c, c <| c_pending ::= λ l, l ++ [(p, b)] |>)
    end.

Definition wait_for_save : M system unit :=
  set_conn (λ c,
    match c_pending c with
    | [] => c
    | batch => c <| c_pending := [] |> <| c_write_jobs ::= Z.succ |> <| c_saves ::= λ l, l ++ [batch] |>
    end).

(** [_save] from the moment its transfer is done *)
Definition end_save (batch : list (page * slot)) : M system unit :=
  for_ batch (λ x, on_store (finish_write x.1) ;; unpin_transfer x.2) ;;
  set_conn (λ c, c <| c_write_jobs ::= Z.pred |>).

Definition resume_save (i : nat) : M system unit :=
  h ← gets id;
  batch ← require IndexError (c_saves (h_ext h) !! i);
  end_save batch ;;
  set_conn (λ c, c <| c_saves ::= delete i |>).

(** [request_finished]: the blocks are not kept *)
Definition request_finished (r : Z) : M system unit :=
  set_conn (λ c, c <| c_loading ::= (.∖ {[r]}) |>).

(** [LLMPagedAttnScheduler.cancel_request] on the state modelled here *)
Definition cancel_loading (r : Z) : M system unit :=
  set_conn (λ c, c <| c_loading ::= (.∖ {[r]}) |> <| c_loaded_waiting ::= filter (.≠ r) |>) ;;
  request_finished r ;;
  h_release_request_blocks r.

(** ** Admission of a request whose prefix may be stored
      ([LLMPagedAttnScheduler._admit], [PagedScheduling._admit_waiting]) *)

Section Admission.
Context `{Digest}.

(** A method of the request *)
Definition on_request {A} (r : Z) (m : M Request A) : M system A := λ h,
  let '(a, q) := m (hreq h r) in
  (a, h <| h_reqs ::= <[r := q]> |>).

Definition admitted_request (hit : Z) (q : Request) : Request :=
  q <| gpu_cached_context_tokens := hit |> <| gpu_cached_prefill_tokens := Z.min (prefill_len q) hit |>
    <| external_cached_prefill_tokens := 0 |> <| external_cached_context_tokens := 0 |>.

(** The request when nothing is loaded *)
Definition local_request (hit : Z) (q : Request) : Request :=
  let q := if needs_recompute q then q <| recompute_tokens := Z.max 0 (context_len q - hit) |> else q in
  start_context_build hit q.

(** [_admit] for a connector with [async_offload], beside [inflight_prefills] *)
Definition admit_async (r : Z) (external : Z * list (Z * list (Z * stored_page))) : M system unit :=
  local_plan ← h_plan_reuse r;
  h_allocate r ;;
  set_hreq r (admitted_request (hp_hit_tokens local_plan)) ;;
  match external.2 with
  | [] =>
      set_hreq r (local_request (hp_hit_tokens local_plan)) ;;
      on_request r (record_context_admission (hp_hit_tokens local_plan) 0) ;;
      set_hreq r (λ q, q <| status := RUNNING |>)
  | _ =>
      begin_load r external.1 external.2 ;;
      h ← gets id;
      on_request r (record_context_admission (hp_hit_tokens local_plan)
        (external_cached_context_tokens (hreq h r)))
  end.

(** [can_allocate], the gate on the pool's free slots; [reserved] is the slots kept
    for the prefills under way. *)
Definition can_admit (r reserved : Z) (running : bool) (local_plan : HybridReusePlan)
    (external : Z * list (Z * list (Z * stored_page))) : M system bool :=
  match external.2 with
  | [] => h_can_allocate r running
  | _ => h_can_allocate_external r local_plan external.1 external.2 reserved running
  end.

(** [_admit_waiting] up to the admission, past the gates on the step's budget *)
Definition admit_waiting (r reserved : Z) (running : bool) : M system bool :=
  local_plan ← h_plan_reuse r;
  external ← probe r local_plan;
  can_allocate ← can_admit r reserved running local_plan external;
  if (can_allocate : bool) then admit_async r external ;; mret true else mret false.
End Admission.
