(* ===== verification/OffloadSystem.v ===== *)
(** * The manager with its offload connector

    [SysInv]: the manager is [Good]; every reference a transfer holds on a slot or a
    stored page is one of the writes that wait, of the saves under way or of the
    loads under way; the targets of a load are unpublished slots that only its request
    holds. *)

From stdpp Require Import gmap list list_numbers.
From Stdlib Require Import ZArith Lia.
From S2P Require Import Prelude.
From S2P Require Import Buckets.
From S2P Require Import Block.
From S2P Require Import PrefixKeys.
From S2P Require Import PyFloat.
From S2P Require Import Request.
From S2P Require Import HybridLayout.
From S2P Require Import HybridState.
From S2P Require Import HybridManager.
From S2P Require Import HybridInv.
From S2P Require Import HybridTables.
From S2P Require Import HybridGrow.
From S2P Require Import HybridEnsure.
From S2P Require Import HybridPlans.
From S2P Require Import HybridAdmit.
From S2P Require Import HybridPublish.
From S2P Require Import HybridExternal.
From S2P Require Import NativeStore.
From S2P Require Import OffloadConnector.

Open Scope Z_scope.

Section System.
Context `{Digest}.
Implicit Types (h : system) (b : slot) (c : Connector) (l : Load).

(** ** References of the transfers *)

Definition saving c : list (page * slot) := c_pending c ++ concat (c_saves c).
Definition loading c : list target := c_inflight c ≫= ld_targets.

(** Slots and stored pages the transfers hold *)
Definition pins c : list slot := (saving c).*2 ++ (loading c).*2.
Definition held c : list page := (saving c).*1 ++ (target_page <$> loading c).

Record pins_ok (t : gmap slot Z) c : Prop := {
  po_slots b : default 0 (t !! b) = occ b (pins c);
  po_pages : StoreInv (held c) (c_store c);
}.

Lemma store_perm (held held' : list page) (s : NativePageStore slot_key) :
  held ≡ₚ held' → StoreInv held s → StoreInv held' s.
Proof.
  intros Hp []. split; try done.
  - intros p o Ho. rewrite <- Hp. auto.
  - intros p. rewrite <- Hp. auto.
Qed.

Lemma wp_on_store {A} (m : M (NativePageStore slot_key) A) (Q : A → system → Prop) E h :
  wp m (λ a s, Q a (h <| h_ext ::= λ c, c <| c_store := s |> |>))
    (λ e s, E e (h <| h_ext ::= λ c, c <| c_store := s |> |>)) (c_store (h_ext h)) →
  wp (on_store m) Q E h.
Proof. unfold wp, on_store. by destruct (m (c_store (h_ext h))) as [[a|e] s]. Qed.

(** Loads under way are those of [I]. *)
Definition link_inv (I : list Load) (t : gmap slot Z) c : Prop := pins_ok t c ∧ c_inflight c = I.

(** Only the connector's state changes. *)
Definition conn_step h h' : Prop := ∃ f, h' = h <| h_ext ::= f |>.

Lemma conn_pub B I f h :
  HInv [] [] h → link_inv I (h_transfer h) (f (h_ext h)) → Pub (link_inv I) B h (h <| h_ext ::= f |>).
Proof. intros Hi HJ. split; [by eapply inv_same|]. split; [done|]. by split. Qed.

Lemma pins_store t c s : pins_ok t c → StoreInv (held c) s → pins_ok t (c <| c_store := s |>).
Proof. intros [] Hs. by split. Qed.

(** *** The callback *)

Lemma pins_pending c p b : pins (c <| c_pending ::= λ w, w ++ [(p, b)] |>) ≡ₚ b :: pins c.
Proof.
  unfold pins, saving, loading. cbn. rewrite !fmap_app. cbn. rewrite <- !app_assoc. cbn.
  by rewrite <- Permutation_middle.
Qed.

Lemma held_pending c p b : held (c <| c_pending ::= λ w, w ++ [(p, b)] |>) ≡ₚ p :: held c.
Proof.
  unfold held, saving, loading. cbn. rewrite !fmap_app. cbn. rewrite <- !app_assoc. cbn.
  by rewrite <- Permutation_middle.
Qed.

Lemma queue_write_ok I : callback_ok (link_inv I) queue_write.
Proof.
  intros g index b r h Hi [[Hsl Hst] HI] Hb [key Hk]. unfold queue_write. do 2 wp_step. unid.
  assert (Pub (link_inv I) [] h h) as Hrefl by by apply pub_refl.
  case_bool_decide as Hrole; [by wp_step|]. wp_step. eapply wp_require; [done|]. wp_step. apply wp_on_store.
  destruct (decide (0 < group_bytes g)) as [Hpos|Hneg].
  2: { (* a group without bytes: the store refuses the write *)
       unfold reserve_write. wp_step. unfold positive_integer. rewrite (proj2 (Z.ltb_lt _ _)) by lia. wp_step.
       apply conn_pub; [done|]. split; [|done]. by apply pins_store. }
  eapply wp_mono; [by apply (reserve_write_spec (held (h_ext h)))| |done].
  intros [p|] s'; cbn beta iota.
  - intros (Hst' & _). set (h1 := h <| h_ext ::= λ c, c <| c_store := s' |> |>).
    assert (HInv [] [] h1) as Hi1 by by eapply inv_same. wp_step.
    eapply wp_mono; [by apply pin_transfer_spec| |done].
    intros _ h2 (Hi2 & F2 & Hx2 & _ & Ht2). unfold set_conn. wp_step.
    set (f := λ c : Connector, c <| c_pending ::= λ w, w ++ [(p, b)] |>).
    split; [by eapply inv_same|]. split.
    + change (link_inv I (h_transfer h2) (f (h_ext h2))). rewrite Ht2, Hx2. split; [|done].
      change (h_ext h1) with ((h_ext h) <| c_store := s' |>). unfold f. split.
      * intros b'. rewrite pins_pending, occ_cons. change (transfers h1 b) with (default 0 (h_transfer h !! b)).
        change (h_transfer h1) with (h_transfer h).
        change (pins ((h_ext h) <| c_store := s' |>)) with (pins (h_ext h)).
        destruct (decide (b' = b)) as [->|Hne].
        -- rewrite lookup_insert_eq. cbn. rewrite Hsl. lia.
        -- rewrite lookup_insert_ne by done. rewrite Hsl. lia.
      * eapply store_perm; [symmetry; apply held_pending|]. exact Hst'.
    + assert (pub_frame [] h h1) as F1 by by split. pose proof (transitivity F1 F2) as F. destruct F as [Fe ? ? ? ?].
      split; try done. destruct Fe. by split.
  - intros (Hst' & _). wp_step. apply conn_pub; [done|]. split; [|done]. by apply pins_store.
Qed.

(** ** Targets of the loads *)

Definition slots_of (r : Z) h : list slot := request_slots (default [] (h_tables h !! r)).

Definition busy c (r : Z) : Prop := r ∈ ld_req <$> c_inflight c.

(** Slot [b] belongs to [r] alone and has no identity. *)
Record private (r : Z) b h : Prop := {
  pv_own : b ∈ slots_of r h;
  pv_hash : block_hash (hblk h b) = None;
  pv_other r' : r' ≠ r → b ∉ slots_of r' h;
}.

Record LoadsOk h : Prop := {
  lo_reqs : NoDup (ld_req <$> c_inflight (h_ext h));
  lo_nodup l : l ∈ c_inflight (h_ext h) → NoDup (ld_targets l).*2;
  lo_private l b : l ∈ c_inflight (h_ext h) → is_Some (h_tables h !! ld_req l) →
    b ∈ (ld_targets l).*2 → private (ld_req l) b h;
}.

Record SysInv h : Prop := {
  si_good : Good h;
  si_pins : pins_ok (h_transfer h) (h_ext h);
  si_loads : LoadsOk h;
}.

Abbreviation safe m h := (wp m (λ _ h', SysInv h') (λ _ h', SysInv h') h).

Lemma slots_usable r b h : Good h → b ∈ slots_of r h → usable h b ∧ 0 < ref_count (hblk h b).
Proof.
  intros Hg Hb. pose proof (gd_inv _ Hg) as Hi. unfold slots_of in Hb.
  destruct (h_tables h !! r) as [ts|] eqn:Ht; cbn in Hb; [|by apply elem_of_nil in Hb].
  assert (b ∈ all_table_slots h) as Hall by by eapply request_slots_held.
  assert (usable h b) as Hu by (apply (hv_held _ _ _ Hi); rewrite app_nil_r; done). split; [done|].
  rewrite (hv_refs _ _ _ Hi b Hu), app_nil_r. apply occ_pos in Hall. unfold transfers.
  destruct (h_transfer h !! b) as [n|] eqn:Hn; cbn; [apply (hv_transfer _ _ _ Hi) in Hn; lia|lia].
Qed.

(** An operation for a request [r] without a load leaves the targets alone when it
    takes no slot that another request holds unpublished. *)
Lemma loads_step r h h' :
  Good h → LoadsOk h → ¬ busy (h_ext h) r → c_inflight (h_ext h') = c_inflight (h_ext h) →
  (∀ r', r' ≠ r → h_tables h' !! r' = h_tables h !! r') →
  (∀ b, usable h b → b ∉ slots_of r h → block_hash (hblk h b) = None → block_hash (hblk h' b) = None) →
  (∀ b, b ∈ slots_of r h' → b ∈ avail r h ∨ block_hash (hblk h b) ≠ None) → LoadsOk h'.
Proof.
  intros Hg [Hnd Hnds Hpr] Hbusy HI Ht Hnone Hslots. split; rewrite ?HI; [done|done|].
  intros l b Hl Hs Hb. assert (ld_req l ≠ r) as Hne.
  { intros <-. apply Hbusy. by apply list_elem_of_fmap_2. }
  rewrite Ht in Hs by done. destruct (Hpr l b Hl Hs Hb) as [Hown Hhash Hoth].
  destruct (slots_usable _ _ _ Hg Hown) as [Hu Href].
  assert (b ∉ slots_of r h) as Hnr by by apply Hoth.
  split.
  - unfold slots_of. by rewrite Ht.
  - by apply Hnone.
  - intros r' Hne'. destruct (decide (r' = r)) as [->|Hr']; [|unfold slots_of; rewrite Ht by done; by apply Hoth].
    intros [Hav|Hh]%Hslots; [|done]. unfold avail in Hav. apply elem_of_app in Hav as [?|Hfree]; [done|].
    assert (usable h b ∧ ref_count (hblk h b) = 0) as [_ H0]; [|lia].
    apply (hv_free _ _ _ (gd_inv _ Hg)). by rewrite app_nil_r.
Qed.

(** Tables disappear or stay, and no slot changes its identity. *)
Lemma loads_mono h h' :
  LoadsOk h → c_inflight (h_ext h') = c_inflight (h_ext h) →
  (∀ r ts, h_tables h' !! r = Some ts → h_tables h !! r = Some ts) → same_hash h h' → LoadsOk h'.
Proof.
  intros [Hnd Hnds Hpr] HI Ht Hh. split; rewrite ?HI; [done|done|].
  intros l b Hl [ts Hts] Hb. destruct (Hpr l b Hl ltac:(eauto) Hb) as [Hown Hhash Hoth].
  assert (∀ r, slots_of r h' = slots_of r h ∨ slots_of r h' = []) as Hs.
  { intros r. unfold slots_of. destruct (h_tables h' !! r) as [ts'|] eqn:Hr; [left|by right].
    by rewrite (Ht _ _ Hr). }
  split.
  - unfold slots_of in *. rewrite Hts. by rewrite (Ht _ _ Hts) in Hown.
  - by rewrite Hh.
  - intros r' Hne. destruct (Hs r') as [->| ->]; [by apply Hoth|apply not_elem_of_nil].
Qed.

(** ** Operations of the manager *)

Lemma sys_meta h h' : SysInv h → meta_frame h h' → PlanInv h' → SysInv h'.
Proof.
  intros [Hg Hp Hl] F HP. split.
  - by eapply meta_good.
  - by rewrite (mf_transfer _ _ F), (mf_ext _ _ F).
  - apply (loads_mono h); [done|by rewrite (mf_ext _ _ F)|by rewrite (mf_tables _ _ F)|].
    intros b. unfold hblk. by rewrite (mf_blocks _ _ F).
Qed.

Lemma sys_edit h h' : SysInv h → edit_step h h' → SysInv h'.
Proof.
  intros Hs [F Hp]. eapply sys_meta; [exact Hs|done|]. eapply plan_inv_evolve; [apply F| |apply Hs]. by rewrite Hp.
Qed.

Lemma sys_plan r h : SysInv h → safe (h_plan_reuse r) h.
Proof.
  intros Hs. eapply wp_mono; [apply h_plan_reuse_spec; apply Hs| |].
  - intros p h' (F & HP & _). by eapply sys_meta.
  - intros e h' [Hk _]. by eapply sys_edit.
Qed.

Lemma sys_allocate r h : SysInv h → ¬ busy (h_ext h) r → safe (h_allocate r) h.
Proof.
  intros [Hg Hp Hl] Hb. eapply wp_mono; [by apply h_allocate_spec| |].
  - intros _ h' (Hg' & [Ht Hx] & F & Hn & Hoth & Hh & _ & p & Hm & _ & Htab). split; [done|by rewrite Ht, Hx|].
    apply (loads_step r h); try done; [by rewrite Hx|intros b _ _; by rewrite Hh|].
    intros b Hb'. right. unfold slots_of in Hb'. rewrite Htab in Hb'. cbn in Hb'.
    assert (b ∈ plan_slots p) as Hps.
    { unfold plan_tables in Hb'. unfold plan_slots. destruct (hp_group_hits p); [|exact Hb'].
      by rewrite empty_tables_slots in Hb'. }
    destruct (mo_cached _ _ _ _ Hm b eq_refl Hps) as [k Hk].
    apply (co_cache _ (hv_cache _ _ _ (gd_inv _ Hg))) in Hk as [_ Hk]. by rewrite Hk.
  - intros e h' (Hg' & [Ht Hx] & F & Htab & Hh & _). split; [done|by rewrite Ht, Hx|].
    apply (loads_mono h); [done|by rewrite Hx|by rewrite Htab|done].
Qed.

Lemma tab_good r h h' : Good h → HInv [] [] h' → TabInv h' → tab_frame r h h' → Good h'.
Proof.
  intros [] Hi Ht F. split; [done|done| |].
  - eapply plan_inv_evolve; [by eapply tab_evolve| |done]. by rewrite (tf_plans _ _ _ F).
  - eapply specs_ok_evolve; [by eapply tab_evolve|done].
Qed.

Lemma sys_shrink r h h' :
  SysInv h → ¬ busy (h_ext h) r → Good h' → same_ext h h' → shrink r h h' →
  (∀ r', r' ≠ r → h_tables h' !! r' = h_tables h !! r') → SysInv h'.
Proof.
  intros [Hg Hp Hl] Hb Hg' [Ht Hx] Hsh Hoth. split; [done|by rewrite Ht, Hx|].
  apply (loads_step r h); try done; [by rewrite Hx|intros b Hu _; by apply (sh_none _ _ _ Hsh)|].
  intros b Hb'. left. apply (sh_avail _ _ _ Hsh). unfold avail, slots_of in *. apply elem_of_app. by left.
Qed.

Lemma sys_ensure r tokens lookahead h :
  SysInv h → ¬ busy (h_ext h) r → is_Some (h_tables h !! r) → safe (h_ensure_slots r tokens lookahead) h.
Proof.
  intros Hs Hb [ts Ht]. destruct (Hs) as [Hg _ _].
  eapply wp_mono; [eapply (h_ensure_slots_spec [] r tokens lookahead h);
    [apply Hg|apply Hg|by eapply tables_are_intro; [apply Hg|]]| |].
  - intros _ h' (Hi & Htab & F & Hsh & _). eapply (sys_shrink r h); try done; [by eapply tab_good|by split; apply F|apply F].
  - intros e h' (_ & Hi & Htab & F & Hsh & _).
    eapply (sys_shrink r h); try done; [by eapply tab_good|by split; apply F|apply F].
Qed.

Lemma pub_good J B h h' : Good h → Pub J B h h' → Good h'.
Proof.
  intros Hg (Hi & _ & F). split; [done| | |].
  - apply (tab_same h); [apply F..|apply Hg].
  - eapply plan_inv_evolve; [apply F| |apply Hg]. by rewrite (pf_plans _ _ _ F).
  - eapply specs_ok_evolve; [apply F|apply Hg].
Qed.

Lemma sys_pub r B h h' :
  SysInv h → (∀ b, b ∈ B → b ∈ slots_of r h) → ¬ busy (h_ext h) r ∨ B = [] →
  Pub (link_inv (c_inflight (h_ext h))) B h h' → SysInv h'.
Proof.
  intros [Hg Hp Hl] HB Hb HP. pose proof (pub_good _ _ _ _ Hg HP) as Hg'. destruct HP as (_ & [Hp' HI] & F).
  split; [done|done|]. destruct Hb as [Hb| ->].
  - apply (loads_step r h); try done; [by rewrite (pf_tables _ _ _ F)| |].
    + intros b _ Hn Hh. rewrite (pf_hash _ _ _ F); [done|]. auto.
    + intros b. unfold slots_of, avail. rewrite (pf_tables _ _ _ F). intros ?. left. apply elem_of_app. by left.
  - apply (loads_mono h); [done|done|by rewrite (pf_tables _ _ _ F)|].
    intros b. by rewrite (pf_hash _ _ _ F) by apply not_elem_of_nil.
Qed.

Lemma sys_link h : SysInv h → link_inv (c_inflight (h_ext h)) (h_transfer h) (h_ext h).
Proof. intros []. by split. Qed.

Lemma sys_publish r h : SysInv h → ¬ busy (h_ext h) r → safe (h_cache_computed [queue_write] r) h.
Proof.
  intros Hs Hb. eapply wp_mono; [apply (h_cache_computed_spec (link_inv (c_inflight (h_ext h))))| |].
  - constructor; [apply queue_write_ok|constructor].
  - apply Hs.
  - by apply sys_link.
  - intros u h' HP. apply (sys_pub r (slots_of r h) h); [done|done|by left|exact HP].
  - intros e h' HP. apply (sys_pub r (slots_of r h) h); [done|done|by left|exact HP].
Qed.

Lemma sys_release r h : SysInv h → wp (h_release_request_blocks r) (λ _ h', SysInv h') no_raise h.
Proof.
  intros [Hg Hp Hl]. eapply wp_mono; [by apply h_release_request_blocks_spec| |done].
  intros _ h' (Hg' & [Ht Hx] & F & Htab & _ & Hh). split; [done|by rewrite Ht, Hx|].
  apply (loads_mono h); [done|by rewrite Hx| |done]. rewrite Htab. by intros r' ts [_ ?]%lookup_delete_Some.
Qed.

Lemma sys_free r h : SysInv h → ¬ busy (h_ext h) r → safe (h_free [queue_write] r) h.
Proof.
  intros Hs Hb. unfold h_free. wp_step. eapply wp_mono; [by apply sys_publish| |done].
  intros u h1 Hs1. eapply wp_mono; [by apply sys_release|done|done].
Qed.

(** The connector's bookkeeping *)
Lemma good_conn f h : Good h → Good (h <| h_ext ::= f |>).
Proof.
  intros Hg. assert (evolve h (h <| h_ext ::= f |>)) as F by by split. split.
  - eapply inv_same; [apply Hg|done..].
  - apply (tab_same h); [done..|apply Hg].
  - eapply plan_inv_evolve; [exact F|done|apply Hg].
  - eapply specs_ok_evolve; [exact F|apply Hg].
Qed.

Lemma sys_conn f h :
  SysInv h → c_store (f (h_ext h)) = c_store (h_ext h) → saving (f (h_ext h)) ≡ₚ saving (h_ext h) →
  c_inflight (f (h_ext h)) = c_inflight (h_ext h) → SysInv (h <| h_ext ::= f |>).
Proof.
  intros [Hg [Hsl Hpg] Hl] Hst Hsv HI. split; [by apply good_conn| |by apply (loads_mono h)].
  change (pins_ok (h_transfer h) (f (h_ext h))). split.
  - intros b. rewrite Hsl. unfold pins, loading. by rewrite Hsv, HI.
  - rewrite Hst. eapply store_perm; [|exact Hpg]. unfold held, loading. by rewrite Hsv, HI.
Qed.

Lemma sys_cancel r h : SysInv h → safe (cancel_loading r) h.
Proof.
  intros Hs. unfold cancel_loading, request_finished, set_conn. wp_steps.
  eapply wp_mono; [apply sys_release|done|done]. apply sys_conn; [by apply sys_conn|done..].
Qed.

Lemma sys_wait_for_save h : SysInv h → safe wait_for_save h.
Proof.
  intros Hs. unfold wait_for_save, set_conn. wp_step. apply sys_conn; [done|..];
    destruct (c_pending (h_ext h)) as [|x batch] eqn:Hpd; try done; unfold saving; cbn.
  rewrite Hpd, concat_app. cbn. rewrite app_nil_r. by rewrite Permutation_app_comm.
Qed.

(** ** The end of a transfer *)

(** The connector's store changed and nothing else of the connector. *)
Definition store_only c c' : Prop := c' = c <| c_store := c_store c' |>.

Lemma store_only_trans c1 c2 c3 : store_only c1 c2 → store_only c2 c3 → store_only c1 c3.
Proof. unfold store_only. intros H1 H2. rewrite H2, H1. by destruct c1. Qed.

Lemma store_only_fields c c' :
  store_only c c' → c_inflight c' = c_inflight c ∧ c_pending c' = c_pending c ∧ c_saves c' = c_saves c.
Proof. unfold store_only. intros ->. done. Qed.

(** Every transferred page loses a reference in the store and one on its slot. *)
Lemma unpin_loop {A} (pg : A → page) (sl : A → slot) (m : page → M (NativePageStore slot_key) unit)
    (l : list A) (P : list slot) (H' : list page) h :
  (∀ H p s, StoreInv (p :: H) s → wp (m p) (λ _ s', StoreInv H s') no_raise s) →
  HInv [] [] h → (∀ b, transfers h b = occ b ((sl <$> l) ++ P)) →
  StoreInv ((pg <$> l) ++ H') (c_store (h_ext h)) →
  wp (for_ l (λ x, on_store (m (pg x)) ;; unpin_transfer (sl x)))
    (λ _ h', HInv [] [] h' ∧ (∀ b, transfers h' b = occ b P) ∧ StoreInv H' (c_store (h_ext h')) ∧
       pub_frame [] h h' ∧ h_cache h' = h_cache h ∧ store_only (h_ext h) (h_ext h')) no_raise h.
Proof.
  intros Hm. revert h. induction l as [|x l IH]; intros h Hi Ht Hs; cbn [for_].
  { wp_step. split_and!; try done. unfold store_only. by destruct (h_ext h). }
  csimpl in *. wp_step. wp_step. apply wp_on_store.
  eapply wp_mono; [by apply (Hm ((pg <$> l) ++ H'))| |done]. intros u s1 Hs1.
  set (h1 := h <| h_ext ::= λ c, c <| c_store := s1 |> |>).
  assert (HInv [] [] h1) as Hi1 by by eapply inv_same.
  assert (transfers h1 (sl x) = transfers h (sl x)) as Htx by done.
  eapply wp_mono; [apply unpin_transfer_spec; [done|]| |done].
  { rewrite Htx, Ht, occ_cons_eq. pose proof (occ_nonneg (sl x) ((sl <$> l) ++ P)). lia. }
  intros _ h2 (Hi2 & F2 & Hx2 & Hc2 & Ht2).
  eapply wp_mono; [apply (IH h2 Hi2)| |done].
  - intros b. unfold transfers. rewrite Ht2. change (h_transfer h1) with (h_transfer h). rewrite Htx.
    specialize (Ht b) as Htb. rewrite occ_cons in Htb. unfold transfers in Htb.
    destruct (decide (b = sl x)) as [->|Hne].
    + unfold transfers. destruct (Z.eqb_spec (default 0 (h_transfer h !! sl x)) 1) as [H1|H1].
      * rewrite lookup_delete_eq. cbn. lia.
      * rewrite lookup_insert_eq. cbn. lia.
    + destruct (_ =? 1); [rewrite lookup_delete_ne by done|rewrite lookup_insert_ne by done]; lia.
  - rewrite Hx2. done.
  - intros _ h3 (Hi3 & Ht3 & Hs3 & F3 & Hc3 & Hx3). split_and!; try done.
    + assert (pub_frame [] h h1) as F1 by by split. exact (transitivity F1 (transitivity F2 F3)).
    + by rewrite Hc3, Hc2.
    + eapply store_only_trans; [|exact Hx3]. rewrite Hx2. done.
Qed.

Lemma page_release_keeps (H' : list page) (p : page) (s : NativePageStore slot_key) :
  StoreInv (p :: H') s → wp (page_release p) (λ _ s', StoreInv H' s') no_raise s.
Proof. intros Hs. eapply wp_mono; [by apply page_release_spec| |done]. by intros _ s' [? _]. Qed.

Lemma finish_write_keeps (H' : list page) (p : page) (s : NativePageStore slot_key) :
  StoreInv (p :: H') s → wp (finish_write p) (λ _ s', StoreInv H' s') no_raise s.
Proof. intros Hs. eapply wp_mono; [by apply finish_write_spec| |done]. by intros _ s' [? _]. Qed.

(** *** Saves *)

Lemma concat_delete {A} (ls : list (list A)) (i : nat) (x : list A) :
  ls !! i = Some x → concat ls ≡ₚ x ++ concat (delete i ls).
Proof.
  intros Hi. rewrite <- (take_drop_middle ls i x Hi) at 1. rewrite delete_take_drop, !concat_app. cbn.
  rewrite !app_assoc. f_equiv. apply Permutation_app_comm.
Qed.

Lemma sys_resume_save i batch h :
  SysInv h → c_saves (h_ext h) !! i = Some batch →
  wp (resume_save i) (λ _ h', SysInv h' ∧ c_inflight (h_ext h') = c_inflight (h_ext h) ∧
    c_pending (h_ext h') = c_pending (h_ext h) ∧ c_saves (h_ext h') = delete i (c_saves (h_ext h))) no_raise h.
Proof.
  intros Hs Hb. unfold resume_save. do 2 wp_step. unid.
  wp_step. eapply wp_require; [done|]. unfold end_save, set_conn. do 2 wp_step.
  set (c1 := (h_ext h) <| c_saves ::= delete i |>). destruct (Hs) as [Hg [Hsl Hpg] Hl].
  assert (saving (h_ext h) ≡ₚ batch ++ saving c1) as Hsv.
  { unfold saving, c1. cbn. rewrite (concat_delete _ _ _ Hb). rewrite !app_assoc. f_equiv. apply Permutation_app_comm. }
  eapply wp_mono; [apply (unpin_loop fst snd finish_write batch (pins c1) (held c1)); [apply finish_write_keeps|apply Hg|..]| |done].
  - intros b. unfold transfers. rewrite Hsl. unfold pins. rewrite Hsv, fmap_app, <- app_assoc. done.
  - eapply store_perm; [|exact Hpg]. unfold held. rewrite Hsv, fmap_app, <- app_assoc. done.
  - intros _ h1 (Hi1 & Ht1 & Hs1 & F1 & _ & Hx1). wp_steps.
    match goal with |- SysInv ?h0 ∧ _ => set (h2 := h0) end.
    destruct (store_only_fields _ _ Hx1) as (HI & Hpd & Hsav).
    split; [|unfold h2; cbn; by rewrite HI, Hpd, Hsav].
    assert (Pub (link_inv (c_inflight (h_ext h))) [] h h2) as HP; [|eapply (sys_pub 0 []); [done|set_solver|by right|exact HP]].
    split; [by eapply inv_same|]. split.
    + split; [split|exact HI].
      * intros b. specialize (Ht1 b). unfold pins, saving, loading, c1 in Ht1. cbn in Ht1.
        unfold pins, saving, loading, h2. cbn. by rewrite HI, Hpd, Hsav.
      * unfold held, saving, loading, c1 in Hs1. cbn in Hs1.
        unfold held, saving, loading, h2. cbn. by rewrite HI, Hpd, Hsav.
    + destruct F1 as [Fe ? ? ? ?]. split; try done. destruct Fe. by split.
Qed.

(** *** Loads *)

Lemma loading_delete c i l :
  c_inflight c !! i = Some l → loading c ≡ₚ ld_targets l ++ loading (c <| c_inflight ::= delete i |>).
Proof.
  intros Hi. unfold loading. cbn. rewrite <- (take_drop_middle _ i l Hi) at 1.
  rewrite delete_take_drop, !bind_app. csimpl. rewrite !app_assoc. f_equiv. apply Permutation_app_comm.
Qed.

Lemma elem_of_delete {A} (xs : list A) (i : nat) (x y : A) :
  xs !! i = Some x → y ∈ delete i xs → ∃ j, j ≠ i ∧ xs !! j = Some y.
Proof.
  intros Hi [j Hj]%list_elem_of_lookup. destruct (decide (j < i)%nat).
  - exists j. rewrite list_lookup_delete_lt in Hj by lia. split; [lia|done].
  - exists (S j). rewrite list_lookup_delete_ge in Hj by lia. split; [lia|done].
Qed.

(** Two loads have different requests and no target in common. *)
Lemma loads_disjoint h i j l l' b :
  LoadsOk h → c_inflight (h_ext h) !! i = Some l → c_inflight (h_ext h) !! j = Some l' → j ≠ i →
  is_Some (h_tables h !! ld_req l) → is_Some (h_tables h !! ld_req l') →
  b ∈ (ld_targets l').*2 → b ∉ (ld_targets l).*2.
Proof.
  intros [Hnd _ Hpr] Hi Hj Hne Ht Ht' Hb' Hb.
  assert (ld_req l' ≠ ld_req l) as Hr.
  { intros Heq. apply Hne. eapply NoDup_lookup; [exact Hnd| |]; rewrite list_lookup_fmap, ?Hi, ?Hj; cbn; [done|by rewrite Heq]. }
  destruct (Hpr l' b) as [_ _ Hoth]; [by eapply list_elem_of_lookup_2|done|done|].
  apply (Hoth (ld_req l)); [done|]. apply (Hpr l b); [by eapply list_elem_of_lookup_2|done|done].
Qed.

(** The page of a load that ended is dropped from the list; the other loads are as
    before when the tables are kept and only targets of the load changed. *)
Lemma loads_end h h' i l :
  LoadsOk h → c_inflight (h_ext h) !! i = Some l →
  c_inflight (h_ext h') = delete i (c_inflight (h_ext h)) → h_tables h' = h_tables h →
  (∀ b, b ∉ (ld_targets l).*2 ∨ ¬ is_Some (h_tables h !! ld_req l) →
     block_hash (hblk h' b) = block_hash (hblk h b)) → LoadsOk h'.
Proof.
  intros Hl Hi HI Ht Hh. destruct (Hl) as [Hnd Hnds Hpr]. split; rewrite ?HI.
  - eapply sublist_NoDup; [exact Hnd|]. apply fmap_sublist, sublist_delete.
  - intros l' Hl'. apply Hnds. destruct (elem_of_delete _ _ _ _ Hi Hl') as (j & _ & Hj). by eapply list_elem_of_lookup_2.
  - intros l' b Hl' Hs Hb. destruct (elem_of_delete _ _ _ _ Hi Hl') as (j & Hne & Hj). rewrite Ht in Hs.
    destruct (Hpr l' b) as [Hown Hhash Hoth]; [by eapply list_elem_of_lookup_2|done|done|].
    assert (block_hash (hblk h' b) = block_hash (hblk h b)) as Hsame.
    { apply Hh. destruct (decide (is_Some (h_tables h !! ld_req l))) as [Hs'|Hs']; [left|by right].
      by eapply (loads_disjoint h i j l l'). }
    split; unfold slots_of; rewrite ?Ht; [done|by rewrite Hsame|done].
Qed.

(** The request was cancelled or has released its slots. *)
Definition abandoned (r : Z) h : Prop := cancel_requested (hreq h r) = true ∨ h_tables h !! r = None.

(** The import at the end of a load, or nothing when the request is gone *)
Lemma end_load_import l i h :
  SysInv h → c_inflight (h_ext h) !! i = Some l →
  let r := ld_req l in
  wp (if negb (cancel_requested (hreq h r)) && bool_decide (is_Some (h_tables h !! r)) then
        finish_external_import snd r (ld_targets l) (ld_boundary l) ;;
        set_hreq r (end_load_request (ld_boundary l)) ;;
        set_conn (λ c, c <| c_loaded_waiting ::= λ w, w ++ [r] |>)
      else mret tt)
    (λ _ h', Good h' ∧ h_transfer h' = h_transfer h ∧ h_tables h' = h_tables h ∧
       (∃ w, h_ext h' = (h_ext h) <| c_loaded_waiting := w |>) ∧
       (abandoned r h → h' = h) ∧
       ∀ b, b ∉ (ld_targets l).*2 ∨ ¬ is_Some (h_tables h !! r) →
         block_hash (hblk h' b) = block_hash (hblk h b)) no_raise h.
Proof.
  intros [Hg Hp [Hnd Hnds Hpr]] Hi r.
  assert (∃ w, h_ext h = (h_ext h) <| c_loaded_waiting := w |>) as Hw.
  { exists (c_loaded_waiting (h_ext h)). by destruct (h_ext h). }
  destruct (_ && _) eqn:Hc; [|by wp_step]. apply andb_true_iff in Hc as [Hcr%negb_true_iff Hs].
  apply bool_decide_eq_true in Hs. assert (l ∈ c_inflight (h_ext h)) as Hl by by eapply list_elem_of_lookup_2.
  wp_step. eapply wp_mono; [apply finish_external_import_spec; [done|by apply Hnds|]| |done].
  { intros b Hb. destruct (Hpr l b Hl Hs Hb) as [Hown Hh _]. split; [|done]. by eapply slots_usable. }
  intros _ h1 (Hg1 & [Ht1 Hx1] & _ & Htab & Hoth & _). unfold set_conn, set_hreq. wp_steps.
  match goal with |- Good ?h0 ∧ _ => set (h2 := h0) end.
  split; [|split_and!; try done].
  - apply good_conn. apply (edit_step_good h1); [|done]. by split.
  - exists (c_loaded_waiting (h_ext h1) ++ [r]). unfold h2. cbn. by rewrite Hx1.
  - intros [Hx|Hx]; [by rewrite Hcr in Hx|by destruct Hs as [? Hs]; rewrite Hx in Hs].
  - intros b [Hb|Hn]; [|by destruct Hn]. exact (Hoth b Hb).
Qed.

Lemma sys_resume_load i l h :
  SysInv h → c_inflight (h_ext h) !! i = Some l →
  wp (resume_load i) (λ _ h', SysInv h' ∧ c_inflight (h_ext h') = delete i (c_inflight (h_ext h)) ∧
    c_pending (h_ext h') = c_pending (h_ext h) ∧ c_saves (h_ext h') = c_saves (h_ext h) ∧
    (abandoned (ld_req l) h → h_cache h' = h_cache h ∧ same_hash h h')) no_raise h.
Proof.
  intros Hs Hi. unfold resume_load. do 2 wp_step. unid.
  wp_step. eapply wp_require; [done|]. unfold end_load. do 3 wp_step. unid. wp_step.
  eapply wp_mono; [by apply (end_load_import l i)| |done].
  intros _ h1 (Hg1 & Ht1 & Htab1 & [w Hx1] & Hab & Hh1).
  destruct (Hs) as [Hg [Hsl Hpg] Hl]. set (c1 := (h_ext h) <| c_inflight ::= delete i |>).
  pose proof (loading_delete _ _ _ Hi) as Hld. fold c1 in Hld.
  wp_step. eapply wp_mono; [apply (unpin_loop target_page snd page_release (ld_targets l) (pins c1) (held c1));
    [apply page_release_keeps|apply Hg1|..]| |done].
  - intros b. unfold transfers. rewrite Ht1, Hsl. unfold pins. rewrite Hld, fmap_app.
    change (saving c1) with (saving (h_ext h)). rewrite !app_assoc.
    by rewrite (Permutation_app_comm (saving (h_ext h)).*2 (ld_targets l).*2).
  - rewrite Hx1. eapply store_perm; [|exact Hpg]. unfold held. rewrite Hld, fmap_app.
    change (saving c1) with (saving (h_ext h)). rewrite !app_assoc.
    by rewrite (Permutation_app_comm (saving (h_ext h)).*1 (target_page <$> ld_targets l)).
  - intros _ h2 (Hi2 & Ht2 & Hs2 & F2 & Hc2 & Hx2). do 3 wp_step. unid.
    destruct (store_only_fields _ _ Hx2) as (HI & Hpd & Hsav). rewrite Hx1 in HI, Hpd, Hsav. cbn in HI, Hpd, Hsav.
    assert (∀ f, c_store (f (h_ext h2)) = c_store (h_ext h2) → c_pending (f (h_ext h2)) = c_pending (h_ext h2) →
      c_saves (f (h_ext h2)) = c_saves (h_ext h2) →
      c_inflight (f (h_ext h2)) = delete i (c_inflight (h_ext h2)) →
      let h' := h2 <| h_ext ::= f |> in
      SysInv h' ∧ c_inflight (h_ext h') = delete i (c_inflight (h_ext h)) ∧
      c_pending (h_ext h') = c_pending (h_ext h) ∧ c_saves (h_ext h') = c_saves (h_ext h) ∧
      (abandoned (ld_req l) h → h_cache h' = h_cache h ∧ same_hash h h')) as Hend.
    { intros f H1 H2 H3 H4. assert (Good h2) as Hg2.
      { apply (pub_good (λ _ _, True) [] h1 h2 Hg1). by split. }
      split; [|cbn; rewrite H2, H3, H4, HI, Hpd, Hsav; split_and!; try done].
      2: { intros ->%Hab. split; [done|]. intros b. apply (pf_hash _ _ _ F2). apply not_elem_of_nil. }
      split; [by apply good_conn| |].
      - change (pins_ok (h_transfer h2) (f (h_ext h2))). split.
        + intros b. specialize (Ht2 b). unfold pins, saving, loading, c1 in Ht2. cbn in Ht2.
          unfold pins, saving, loading. by rewrite H2, H3, H4, HI, Hpd, Hsav.
        + rewrite H1. unfold held, saving, loading, c1 in Hs2. cbn in Hs2.
          unfold held, saving, loading. by rewrite H2, H3, H4, HI, Hpd, Hsav.
      - apply (loads_end h _ i l); [done|done| | |].
        + change (c_inflight (f (h_ext h2)) = delete i (c_inflight (h_ext h))). by rewrite H4, HI.
        + change (h_tables h2 = h_tables h). by rewrite (pf_tables _ _ _ F2).
        + intros b Hb. change (block_hash (hblk h2 b) = block_hash (hblk h b)).
          rewrite (pf_hash _ _ _ F2) by apply not_elem_of_nil. by apply Hh1. }
    unfold set_conn, when. destruct (cancel_requested _); wp_steps.
    + pose proof (Hend (λ c, c <| c_loading ::= (.∖ {[ld_req l]}) |> <| c_loads ::= (.∖ {[ld_req l]}) |>
        <| c_inflight ::= delete i |>)) as He. cbn in He. cbn. by apply He.
    + pose proof (Hend (λ c, c <| c_loads ::= (.∖ {[ld_req l]}) |> <| c_inflight ::= delete i |>)) as He. cbn in He. cbn. by apply He.
Qed.
End System.

(** Operation [m] keeps the invariant, also when it raises. *)
Abbreviation safe m h := (wp m (λ _ h', SysInv h') (λ _ h', SysInv h') h).
