(* ===== verification/OffloadLoads.v ===== *)
(** * The start of a load

    [begin_load] keeps [SysInv]: the stored pages it acquires and the slots it pins are
    the references of the new load, and the targets are private to the request.  When
    the manager has no room, the references are given back and nothing else changed. *)

From stdpp Require Import gmap list list_numbers.
From Stdlib Require Import ZArith Lia.
From S2P Require Import Prelude.
From S2P Require Import Block.
From S2P Require Import PrefixKeys.
From S2P Require Import PyFloat.
From S2P Require Import Request.
From S2P Require Import HybridLayout.
From S2P Require Import HybridState.
From S2P Require Import HybridManager.
From S2P Require Import HybridInv.
From S2P Require Import HybridTables.
From S2P Require Import HybridGrow.
From S2P Require Import HybridEnsure.
From S2P Require Import HybridPlans.
From S2P Require Import HybridAdmit.
From S2P Require Import HybridPublish.
From S2P Require Import HybridExternal.
From S2P Require Import NativeStore.
From S2P Require Import OffloadConnector.
From S2P Require Import OffloadSystem.

Open Scope Z_scope.

Section Begin.
Context `{Digest}.
Implicit Types (h : system) (b : slot) (c : Connector) (l : Load).

(** The store of the connector is [s]. *)
Definition with_store (s : NativePageStore slot_key) h : system := h <| h_ext ::= λ c, c <| c_store := s |> |>.

Lemma with_store_same h : with_store (c_store (h_ext h)) h = h.
Proof. destruct h as []. unfold with_store. cbn. f_equal. by destruct h_ext. Qed.

(** Page [x] is resident under its key and complete. *)
Definition stored (s : NativePageStore slot_key) (x : stored_page) : Prop :=
  ∃ o, st_heap s !! x.1 = Some o ∧ pg_key o = x.2 ∧ st_pages s !! x.2 = Some x.1 ∧ pg_ready o = true.

Lemma stored_alter (s s' : NativePageStore slot_key) (p : page) f x :
  st_pages s' = st_pages s → st_heap s' = alter f p (st_heap s) →
  (∀ o, pg_key (f o) = pg_key o ∧ pg_ready (f o) = pg_ready o) → stored s x → stored s' x.
Proof.
  intros Hp Hh Hf (o & Ho & Hk & Hr & Hrd). destruct (decide (p = x.1)) as [->|Hne].
  - exists (f o). rewrite Hh, list_lookup_alter_eq, Ho, Hp. destruct (Hf o) as [-> ->]. done.
  - exists o. by rewrite Hh, list_lookup_alter_ne, Hp.
Qed.

Lemma acquire_pages_loop (pages : list stored_page) (H' : list page) h :
  StoreInv H' (c_store (h_ext h)) → (∀ x, x ∈ pages → stored (c_store (h_ext h)) x) →
  wp (for_ pages (λ x, on_store (page_acquire x.1)))
    (λ _ h', ∃ s', h' = with_store s' h ∧ StoreInv (pages.*1 ++ H') s') no_raise h.
Proof.
  revert H' h. induction pages as [|x pages IH]; intros H' h Hs Hst; cbn [for_].
  { wp_step. exists (c_store (h_ext h)). by rewrite with_store_same. }
  wp_step. apply wp_on_store. destruct (Hst x ltac:(left)) as (o & Ho & Hk & Hr & Hrd). rewrite <- Hk in Hr.
  eapply wp_mono; [by eapply (page_acquire_spec H')| |done].
  intros _ s1 (Hs1 & Hp1 & f & Hh1 & Hf1). fold (with_store s1 h).
  eapply wp_mono; [apply (IH (x.1 :: H') (with_store s1 h)); [done|]| |done].
  { intros y Hy. eapply stored_alter; [exact Hp1|exact Hh1|done|]. apply Hst. by right. }
  intros _ h2 (s2 & -> & Hs2). exists s2. split; [done|]. eapply store_perm; [|exact Hs2].
  csimpl. by rewrite Permutation_middle.
Qed.

Lemma release_pages_loop (pages : list stored_page) (H' : list page) h :
  StoreInv (pages.*1 ++ H') (c_store (h_ext h)) →
  wp (for_ pages (λ x, on_store (page_release x.1)))
    (λ _ h', ∃ s', h' = with_store s' h ∧ StoreInv H' s') no_raise h.
Proof.
  revert h. induction pages as [|x pages IH]; intros h Hs; cbn [for_].
  { wp_step. exists (c_store (h_ext h)). by rewrite with_store_same. }
  csimpl in *. wp_step. apply wp_on_store. eapply wp_mono; [by apply (page_release_keeps (pages.*1 ++ H'))| |done].
  intros u s1 Hs1. fold (with_store s1 h). eapply wp_mono; [by apply (IH (with_store s1 h))| |done].
  intros _ h2 (s2 & -> & Hs2). by exists s2.
Qed.

Lemma pin_loop {A} (sl : A → slot) (xs : list A) h :
  HInv [] [] h → (∀ x, x ∈ xs → usable h (sl x)) →
  wp (for_ xs (λ x, pin_transfer (sl x)))
    (λ _ h', HInv [] [] h' ∧ pub_frame [] h h' ∧ h_ext h' = h_ext h ∧
       h_reqs h' = h_reqs h ∧ ∀ b, transfers h' b = occ b (sl <$> xs) + transfers h b) no_raise h.
Proof.
  revert h. induction xs as [|x xs IH]; intros h Hi Hu; cbn [for_].
  { wp_step. done. }
  wp_step. eapply wp_mono; [apply pin_transfer_spec; [done|apply Hu; left]| |done].
  intros _ h1 (Hi1 & F1 & Hx1 & [_ Hq1] & Ht1). eapply wp_mono; [apply (IH h1 Hi1)| |done].
  { intros y Hy. rewrite (evolve_usable h) by apply F1. apply Hu. by right. }
  intros _ h2 (Hi2 & F2 & Hx2 & Hq2 & Ht2). split_and!; [done|exact (transitivity F1 F2)|by rewrite Hx2|by rewrite Hq2|].
  intros b. rewrite Ht2. csimpl. rewrite occ_cons. unfold transfers. rewrite Ht1. unfold transfers.
  case_decide as Hb; [subst b; rewrite lookup_insert_eq; cbn; lia|rewrite lookup_insert_ne by done; lia].
Qed.

(** A slot with one reference belongs to one request. *)
Lemma sole_reference r r' b h :
  Good h → b ∈ slots_of r h → ref_count (hblk h b) = 1 → r' ≠ r → b ∉ slots_of r' h.
Proof.
  intros Hg Hb H1 Hne Hb'. pose proof (gd_inv _ Hg) as Hi. destruct (slots_usable _ _ _ Hg Hb) as [Hu _].
  unfold slots_of in Hb, Hb'.
  destruct (h_tables h !! r) as [ts|] eqn:Ht; cbn in Hb; [|by apply elem_of_nil in Hb].
  destruct (h_tables h !! r') as [ts'|] eqn:Ht'; cbn in Hb'; [|by apply elem_of_nil in Hb'].
  set (h' := h <| h_tables ::= delete r |>).
  assert (b ∈ all_table_slots h') as Hall.
  { apply (request_slots_held h' r' ts'); [|done]. unfold h'. cbn. by rewrite lookup_delete_ne. }
  pose proof (hv_refs _ _ _ Hi b Hu) as Hr. rewrite app_nil_r in Hr.
  rewrite (slots_delete h h' r ts Ht eq_refl), occ_app in Hr.
  apply occ_pos in Hb, Hall. unfold transfers in Hr.
  destruct (h_transfer h !! b) as [n|] eqn:Hn; cbn in Hr; [apply (hv_transfer _ _ _ Hi) in Hn|]; unfold request_slots in *; lia.
Qed.

(** ** [begin_load] *)

(** What the plan of a load gives: the request has tables and no load, the hits fit
    the tables, and the store holds the pages complete. *)
Record loadable (r : Z) (hits : list (Z * list (Z * stored_page))) (ts : list (Z * page_table)) h : Prop := {
  la_idle : ¬ busy (h_ext h) r;
  la_size : req_block_size (hreq h r) ≠ 0;
  la_tables : h_tables h !! r = Some ts;
  la_hits : import_hits (h_specs h) hits ts;
  la_pages x : x ∈ hit_pages hits → stored (c_store (h_ext h)) x;
}.

(** A load of [r] joins those under way. *)
Lemma loads_begin r targets boundary h h' :
  Good h' → LoadsOk h → ¬ busy (h_ext h) r → h_tables h' = h_tables h →
  h_blocks h' = h_blocks h →
  c_inflight (h_ext h') = c_inflight (h_ext h) ++ [mkLoad r targets boundary] → NoDup targets.*2 →
  (∀ b, b ∈ targets.*2 → private r b h) → LoadsOk h'.
Proof.
  intros Hg [Hnd Hnds Hpr] Hb Ht Hbl HI Hndt Htp.
  assert (∀ r b, private r b h → private r b h') as Hkeep.
  { intros r0 b []. split; unfold slots_of, hblk in *; by rewrite ?Ht, ?Hbl. }
  split; rewrite ?HI, ?fmap_app.
  - apply NoDup_app. split_and!; [done| |apply NoDup_singleton].
    intros r0 Hr0 ->%list_elem_of_singleton. exact (Hb Hr0).
  - intros l [?| ->%list_elem_of_singleton]%elem_of_app; [auto|done].
  - rewrite Ht. intros l b [?| ->%list_elem_of_singleton]%elem_of_app Hs Hbt; apply Hkeep; auto.
Qed.

Lemma sys_begin_load r boundary hits ts h :
  SysInv h → loadable r hits ts h →
  wp (begin_load r boundary hits)
    (λ _ h', SysInv h' ∧ hreq h' r = begin_load_request boundary (hreq h r))
    (λ e h', SysInv h' ∧ e = OutOfBlocksError ∧ import_short h ts hits) h.
Proof.
  intros [Hg [Hsl Hpg] Hl] [Hidle Hsize Hts Himp Hst]. unfold begin_load. fold (hit_pages hits).
  wp_step. eapply wp_mono; [by apply (acquire_pages_loop (hit_pages hits) (held (h_ext h)))| |done].
  intros _ h1 (s1 & -> & Hs1).
  assert (Good (with_store s1 h)) as Hg1 by by apply good_conn.
  do 2 wp_step. eapply wp_mono; [apply (allocate_external_destinations_spec r hits ts); [exact Hg1|exact Hts|exact Himp]| |].
  2: { intros e h2 (-> & -> & Hshort). wp_step. eapply wp_mono; [by apply (release_pages_loop _ (held (h_ext h)))| |done].
       intros _ h3 (s3 & -> & Hs3). wp_step. split; [|by split]. change (SysInv (with_store s3 h)).
       split; [by apply good_conn| |by apply (loads_mono h)]. split; [exact Hsl|exact Hs3]. }
  intros ds h2 (Hg2 & [Htr2 Hx2] & E2 & [(ts2 & Hts2 & Hin) Hoth Hpages Hnd Hsh Hpriv Hq2]).
  assert (LoadsOk h2) as Hl2.
  { apply (loads_step r (with_store s1 h)); [exact Hg1|by apply (loads_mono h)|exact Hidle|by rewrite Hx2|exact Hoth| |].
    - intros b Hu _. by apply (sh_none _ _ _ Hsh).
    - intros b Hb. left. apply (sh_avail _ _ _ Hsh). apply elem_of_app. by left. }
  assert (∀ b, b ∈ ds.*2 → b ∈ slots_of r h2) as Hown.
  { intros b Hb. unfold slots_of. rewrite Hts2. by apply Hin. }
  wp_step. eapply wp_mono; [apply (pin_loop snd ds h2); [apply Hg2|]| |done].
  { intros x Hx. apply (Hpriv x.2). by apply list_elem_of_fmap_2. }
  intros _ h3 (Hi3 & F3 & Hx3 & Hq3 & Ht3).
  assert (Good h3) as Hg3 by (apply (pub_good (λ _ _, True) [] h2 h3 Hg2); by split).
  assert (LoadsOk h3) as Hl3.
  { apply (loads_mono h2); [done|by rewrite Hx3|by rewrite (pf_tables _ _ _ F3)|].
    intros b. apply (pf_hash _ _ _ F3). apply not_elem_of_nil. }
  assert (∀ b, b ∈ ds.*2 → private r b h3) as Hpv.
  { intros b Hb. destruct (Hpriv b Hb) as (_ & Hh & H1). split.
    - unfold slots_of. rewrite (pf_tables _ _ _ F3). by apply Hown.
    - by rewrite (pf_hash _ _ _ F3) by apply not_elem_of_nil.
    - intros r' Hne. unfold slots_of. rewrite (pf_tables _ _ _ F3). by apply (sole_reference r); [|apply Hown|..]. }
  do 2 wp_step. unid. assert ((req_block_size (hreq h3 r) =? 0) = false) as ->.
  { apply Z.eqb_neq. unfold hreq. by rewrite Hq3, Hq2. }
  unfold set_hreq, set_conn. wp_steps. match goal with |- SysInv ?h0 ∧ _ => set (h4 := h0) end.
  split; [|unfold h4, hreq; cbn; by rewrite lookup_total_insert_eq, Hq3, Hq2].
  assert (h_ext h3 = (h_ext h) <| c_store := s1 |>) as Hx by (rewrite Hx3, Hx2; done).
  assert (loading (h_ext h4) = loading (h_ext h) ++ ds) as Hld.
  { unfold h4, loading. cbn. rewrite Hx, bind_app. cbn. by rewrite app_nil_r. }
  assert (saving (h_ext h4) = saving (h_ext h)) as Hsv by (unfold h4, saving; cbn; by rewrite Hx).
  assert (Good h4) as Hg4 by (apply good_conn, (edit_step_good h3); [by split|done]).
  split; [done| |].
  - split.
    + intros b. change (transfers h3 b = occ b (pins (h_ext h4))). rewrite Ht3. unfold transfers. rewrite Htr2.
      change (h_transfer (with_store s1 h)) with (h_transfer h). rewrite Hsl. unfold pins.
      rewrite Hld, Hsv, fmap_app, !occ_app. lia.
    + assert (c_store (h_ext h4) = s1) as -> by (unfold h4; cbn; by rewrite Hx).
      assert ((hit_pages hits).*1 = target_page <$> ds) as Hpd by by rewrite <- Hpages, <- !list_fmap_compose.
      eapply store_perm; [|exact Hs1]. unfold held. rewrite Hld, Hsv, fmap_app, Hpd.
      by rewrite (Permutation_app_comm (target_page <$> ds)), app_assoc.
  - apply (loads_begin r ds boundary h3); try done.
    by rewrite Hx.
Qed.
End Begin.
