(* ===== verification/OffloadProbe.v ===== *)
(** * The lookup of stored prefixes

    [probe] changes nothing but the order of the store's pages and the memoised keys of
    the request ([probed]).  What it returns is either nothing or, for each group, the
    pages a load needs, each of them complete in the store. *)

From stdpp Require Import gmap list list_numbers.
From Stdlib Require Import ZArith Lia.
From S2P Require Import Prelude.
From S2P Require Import Block.
From S2P Require Import PrefixKeys.
From S2P Require Import PyFloat.
From S2P Require Import Request.
From S2P Require Import HybridLayout.
From S2P Require Import HybridState.
From S2P Require Import HybridManager.
From S2P Require Import HybridInv.
From S2P Require Import HybridTables.
From S2P Require Import HybridGrow.
From S2P Require Import HybridEnsure.
From S2P Require Import HybridPlans.
From S2P Require Import HybridAdmit.
From S2P Require Import HybridPublish.
From S2P Require Import HybridExternal.
From S2P Require Import NativeStore.
From S2P Require Import OffloadConnector.
From S2P Require Import OffloadSystem.
From S2P Require Import OffloadLoads.

Open Scope Z_scope.

Section Probe.
Context `{Digest}.
Implicit Types (h : system) (b : slot) (c : Connector).

(** The pages that the transfers hold *)
Variable I : list page.

Abbreviation store_of h := (c_store (h_ext h)).

Definition same_contents (s s' : NativePageStore slot_key) : Prop :=
  st_heap s' = st_heap s ∧ st_pages s' = st_pages s.

(** Only the order of the store and memoised keys change. *)
Definition probed h h' : Prop :=
  ∃ s, keys_step (with_store s h) h' ∧ same_contents (store_of h) s ∧ StoreInv I s.

Lemma keys_step_store s1 s2 h h' : keys_step (with_store s1 h) h' → keys_step (with_store s2 h) (with_store s2 h').
Proof.
  intros [[[] Hp] Hl]. split; [split; [|done]|exact Hl]. destruct mf_evolve. split; try done. cbn. by rewrite mf_ext.
Qed.

Lemma probed_trans h1 h2 h3 : probed h1 h2 → probed h2 h3 → probed h1 h3.
Proof.
  intros (s1 & K1 & [H1 P1] & _) (s2 & K2 & [H2 P2] & Hi). exists s2.
  assert (store_of h2 = s1) as Hs by (rewrite (mf_ext _ _ (keys_frame _ _ K1)); done). rewrite Hs in H2, P2.
  split; [exact (transitivity (keys_step_store s1 s2 _ _ K1) K2)|]. split; [|done]. split; congruence.
Qed.

Lemma probed_store h h' : probed h h' → same_contents (store_of h) (store_of h') ∧ StoreInv I (store_of h').
Proof. intros (s & K & Hs & Hi). by rewrite (mf_ext _ _ (keys_frame _ _ K)). Qed.

Lemma probed_keys h h' : StoreInv I (store_of h) → keys_step h h' → probed h h'.
Proof. intros Hi Hk. exists (store_of h). by rewrite with_store_same. Qed.

Lemma stored_same s s' x : same_contents s s' → stored s x → stored s' x.
Proof. intros [Hh Hp]. unfold stored. by rewrite Hh, Hp. Qed.

(** ** Lookups *)

Lemma lookup_stored_spec key h :
  StoreInv I (store_of h) →
  wp (lookup_stored key) (λ o h', probed h h' ∧ ∀ x, o = Some x → stored (store_of h) x) no_raise h.
Proof.
  intros Hi. unfold lookup_stored. destruct key as [key|]; wp_step.
  2: { split; [by apply probed_keys|done]. }
  apply wp_on_store. eapply wp_mono; [by apply (page_lookup_spec I)| |done].
  intros o s (Hs & Hh & Hp & ->). wp_step. split; [by exists s|].
  intros x (p & (p' & Hk & Hx)%bind_Some & ->)%fmap_Some. apply bind_Some in Hx as (o & Ho & Hx).
  destruct (pg_ready o) eqn:Hr; [|done]. injection Hx as <-.
  destruct (sv_pages _ _ Hi key p' Hk) as (o' & Ho' & Hkey & _). simplify_eq. by exists o.
Qed.

Lemma page_hits_stored r s keys indices h :
  StoreInv I (store_of h) →
  wp (page_hits lookup_stored r s keys indices)
    (λ pairs h', probed h h' ∧ pairs.*1 = indices ∧ ∀ i x, (i, Some x) ∈ pairs → stored (store_of h) x)
    (λ _ h', probed h h') h.
Proof.
  revert h. induction indices as [|i indices IH]; intros h Hi; cbn [page_hits].
  { wp_step. split; [by apply probed_keys|]. split; [done|]. set_solver. }
  wp_step. eapply wp_mono; [apply h_slot_key_keeps| |intros e h1 Hk; by apply probed_keys].
  intros key h1 Hk1. apply (probed_keys _ _ Hi) in Hk1. destruct (probed_store _ _ Hk1) as [S1 Hi1].
  wp_step. eapply wp_mono; [by apply lookup_stored_spec| |done]. intros o h2 [P2 Ho].
  pose proof (probed_trans _ _ _ Hk1 P2) as P12. destruct (probed_store _ _ P12) as [S2 Hi2].
  wp_step. eapply wp_mono; [by apply IH| |intros e h3 P3; by eapply probed_trans].
  intros pairs h3 (P3 & Hidx & Hin). wp_step. split; [by eapply probed_trans|]. csimpl. split; [by rewrite Hidx|].
  intros j x [[= -> Hx]|Hx]%elem_of_cons.
  - eapply stored_same; [|by apply Ho]. destruct S1. by split.
  - eapply stored_same; [|by eapply Hin]. destruct S2. by split.
Qed.

(** The hits of one group: pages of the store, without gaps when the group has no
    window and no draft layer *)
Record external_hit (st : NativePageStore slot_key) (start n : Z) (s : GroupSpec)
    (x : Z * list (Z * stored_page)) : Prop := {
  eh_group : x.1 = sp_group_id s;
  eh_nodup : NoDup x.2.*1;
  eh_full : full_pages start n s x;
  eh_stored p : p ∈ x.2.*2 → stored st p;
}.

Lemma external_hit_same st st' start n s x :
  same_contents st st' → external_hit st start n s x → external_hit st' start n s x.
Proof. intros Hs []. split; try done. intros p Hp. eapply stored_same; [exact Hs|auto]. Qed.

Lemma drop_eagle_keys {P} s (l : list (Z * P)) : NoDup l.*1 → NoDup (drop_eagle s l).*1.
Proof.
  intros Hnd. destruct (drop_eagle_take s l) as [n ->]. rewrite fmap_take.
  eapply sublist_NoDup; [exact Hnd|apply sublist_take].
Qed.

Lemma boundary_hits_stored r keys bs start n specs h :
  StoreInv I (store_of h) →
  wp (boundary_hits lookup_stored r None keys bs start n specs)
    (λ hits h', probed h h' ∧ ∀ l, hits = Some l →
       Forall2 (λ s o, ∃ x, o = Some x ∧ external_hit (store_of h) start n s x) specs l)
    (λ _ h', probed h h') h.
Proof.
  revert h. induction specs as [|s specs IH]; intros h Hi; cbn [boundary_hits].
  { wp_step. split; [by apply probed_keys|]. intros l [= <-]. constructor. }
  rewrite bool_decide_false by done. wp_step. eapply wp_mono; [by apply page_hits_stored| |done].
  intros pairs h1 (P1 & Hidx & Hin). destruct (probed_store _ _ P1) as [S1 Hi1].
  destruct (all_present pairs) as [l|] eqn:Hall; [|by wp_step].
  apply all_present_spec in Hall as [Hlk Hlin]. wp_step.
  eapply wp_mono; [by apply IH| |intros e h2 P2; by eapply probed_trans].
  intros rest h2 [P2 Hrest]. wp_step. split; [by eapply probed_trans|].
  intros l' Hl'. destruct rest as [rest|]; [|done]. injection Hl' as <-. constructor.
  - eexists. split; [done|]. split; cbn [fst snd].
    + done.
    + apply drop_eagle_keys. rewrite Hlk, Hidx. apply needed_pages_nodup.
    + intros Hw He. cbn [snd]. unfold drop_eagle. rewrite He. cbn. rewrite Hlk, Hidx. unfold needed_pages. by rewrite Hw.
    + intros x ([i x'] & -> & Hx)%list_elem_of_fmap. apply drop_eagle_elem in Hx. cbn. by eapply Hin, Hlin.
  - eapply Forall2_impl; [by apply Hrest|]. intros s' o (x & -> & Hx). exists x. split; [done|].
    eapply external_hit_same; [|exact Hx]. destruct S1. by split.
Qed.

Lemma external_run_stored gid keys h :
  StoreInv I (store_of h) →
  wp (external_run lookup_stored gid keys) (λ n h', probed h h' ∧ 0 <= n <= Z.of_nat (length keys))
    (λ _ h', probed h h') h.
Proof.
  revert h. induction keys as [|key keys IH]; intros h Hi; cbn [external_run length].
  { wp_step. split; [by apply probed_keys|lia]. }
  wp_step. eapply wp_mono; [by apply lookup_stored_spec| |done]. intros o h1 [P1 _].
  destruct (probed_store _ _ P1) as [_ Hi1]. destruct o; [|wp_step; split; [done|lia]].
  wp_step. eapply wp_mono; [by apply IH| |intros e h2 P2; by eapply probed_trans].
  intros n h2 [P2 Hn]. wp_step. split; [by eapply probed_trans|lia].
Qed.

Lemma external_boundary_stored r local start keys candidates h :
  StoreInv I (store_of h) →
  wp (external_boundary lookup_stored r local start keys candidates)
    (λ x h', probed h h' ∧ ((x.2 = [] ∧ x.1 = local) ∨
       ∃ n, n ∈ candidates ∧ x.1 = n * h_block_size h ∧
         Forall2 (external_hit (store_of h) start n) (h_specs h) x.2))
    (λ _ h', probed h h') h.
Proof.
  revert h. induction candidates as [|n candidates IH]; intros h Hi; cbn [external_boundary].
  { wp_step. split; [by apply probed_keys|]. by left. }
  do 2 wp_step. unid. wp_step. eapply wp_mono; [by apply boundary_hits_stored| |done].
  intros hits h1 [P1 Hhits]. destruct (probed_store _ _ P1) as [S1 Hi1]. destruct hits as [hits|].
  - wp_step. split; [done|]. right. exists n. split; [left|]. split; [done|]. cbn [snd].
    specialize (Hhits hits eq_refl). clear -Hhits. induction Hhits as [|s o specs hits (x & -> & Hx) _ IH]; [constructor|].
    by constructor.
  - eapply wp_mono; [by apply IH| |intros e h2 P2; by eapply probed_trans].
    intros x h2 [P2 Hx]. split; [by eapply probed_trans|]. destruct Hx as [?|(m & Hm & Hb & Hx)]; [by left|right].
    exists m. split; [by right|]. destruct P1 as (s & K1 & _). pose proof (mf_evolve _ _ (keys_frame _ _ K1)) as E1.
    unfold h_block_size in *. rewrite (ev_layout _ _ E1) in Hb. rewrite (ev_specs _ _ E1) in Hx. split; [exact Hb|].
    eapply Forall2_impl; [exact Hx|]. intros s' y. apply external_hit_same. destruct S1. by split.
Qed.

(** What [probe] returns: nothing to load, or a boundary behind the local one. *)
Definition external_found (r local : Z) (x : Z * list (Z * list (Z * stored_page))) h : Prop :=
  (x.2 = [] ∧ x.1 = local) ∨
  ∃ n, let start := local / h_block_size h in
    h_block_size h ≠ 0 ∧ start < n ∧ x.1 = n * h_block_size h ∧
    (0 < h_block_size h → x.1 <= Z.max 0 (context_len (hreq h r) - 1)) ∧
    Forall2 (external_hit (store_of h) start n) (h_specs h) x.2.

Lemma probe_spec r plan h :
  StoreInv I (store_of h) →
  wp (probe r plan) (λ x h', probed h h' ∧ external_found r (hp_hit_tokens plan) x h) (λ _ h', probed h h') h.
Proof.
  intros Hi. unfold probe. do 2 wp_step. unid. set (local := hp_hit_tokens plan).
  case_bool_decide; [wp_step; split; [by apply probed_keys|by left]|].
  unfold plan_external_reuse. wp_step. eapply wp_mono; [apply h_input_keys_keeps| |intros e h1 Hk; by apply probed_keys].
  intros keys h1 Hk1. pose proof (proj1 (proj2 Hk1 r)) as Hctx. pose proof (mf_evolve _ _ (keys_frame _ _ Hk1)) as E1.
  pose proof (mf_ext _ _ (keys_frame _ _ Hk1)) as Hx1.
  apply (probed_keys _ _ Hi) in Hk1. destruct (probed_store _ _ Hk1) as [S1 Hi1].
  do 2 wp_step. unid. assert (h_block_size h1 = h_block_size h) as Hbs by (unfold h_block_size; by rewrite (ev_layout _ _ E1)).
  rewrite Hbs, Hctx. destruct (Z.eqb_spec (h_block_size h) 0) as [|Hb0]; [by wp_step|]. wp_step.
  set (bs := h_block_size h) in *. set (start := local / bs).
  set (maximum := Z.min (Z.of_nat (length keys)) (Z.max 0 ((context_len (hreq h r) - 1) / bs))).
  eapply wp_mono; [by apply external_run_stored| |intros e h2 P2; by eapply probed_trans].
  intros n h2 [P2 Hn]. pose proof (probed_trans _ _ _ Hk1 P2) as P12. destruct (probed_store _ _ P12) as [S2 Hi2].
  eapply wp_mono; [by apply external_boundary_stored| |intros e h3 P3; by eapply probed_trans].
  intros x h3 [P3 Hx]. split; [by eapply probed_trans|]. destruct Hx as [?|(m & Hm & Hb & Hx)]; [by left|right].
  rewrite elem_of_reverse, elem_of_zrange in Hm. destruct P12 as (s & K2 & _).
  pose proof (mf_evolve _ _ (keys_frame _ _ K2)) as E2. 
  assert (h_block_size h2 = bs) as Hbs2 by (unfold bs, h_block_size; by rewrite (ev_layout _ _ E2)).
  rewrite Hbs2 in Hb. rewrite (ev_specs _ _ E2) in Hx. exists m. cbv zeta. fold bs start.
  split; [done|]. split; [lia|]. split; [done|]. split.
  - intros Hpos. rewrite length_drop, slice_to_take, length_take in Hn by (unfold maximum; lia).
    assert (m <= maximum ∧ 1 <= maximum) as [Hmm Hm1] by lia. rewrite Hb.
    pose proof (Z.mul_div_le (context_len (hreq h r) - 1) bs Hpos). unfold maximum in Hmm, Hm1. nia.
  - eapply Forall2_impl; [exact Hx|]. intros s' y. apply external_hit_same. destruct S2. by split.
Qed.
End Probe.
