(* ===== verification/OffloadAdmit.v ===== *)
(** * Admission of a request whose prefix may be stored

    The hits of [probe] fit the tables that [h_allocate] installs for the same plan, so
    [admit_waiting] keeps [SysInv] whatever the outcome, and an admission that
    [can_allocate_external] lets through finds room for every page it loads. *)

From stdpp Require Import gmap list list_numbers.
From Stdlib Require Import ZArith Lia.
From S2P Require Import Prelude.
From S2P Require Import Buckets.
From S2P Require Import Block.
From S2P Require Import PrefixKeys.
From S2P Require Import PyFloat.
From S2P Require Import Request.
From S2P Require Import HybridLayout.
From S2P Require Import HybridState.
From S2P Require Import HybridManager.
From S2P Require Import HybridInv.
From S2P Require Import HybridTables.
From S2P Require Import HybridGrow.
From S2P Require Import HybridEnsure.
From S2P Require Import HybridPlans.
From S2P Require Import HybridAdmit.
From S2P Require Import HybridPublish.
From S2P Require Import HybridExternal.
From S2P Require Import NativeStore.
From S2P Require Import OffloadConnector.
From S2P Require Import OffloadSystem.
From S2P Require Import OffloadLoads.
From S2P Require Import OffloadProbe.

Open Scope Z_scope.

Lemma Forall3_lookup_intro {A B C} (P : A → B → C → Prop) l k j :
  length l = length k → length l = length j →
  (∀ i x y z, l !! i = Some x → k !! i = Some y → j !! i = Some z → P x y z) → Forall3 P l k j.
Proof.
  revert k j. induction l as [|x l IH]; intros [|y k] [|z j] Hk Hj HP; try done; constructor.
  - by apply (HP 0%nat).
  - apply IH; [by injection Hk|by injection Hj|]. intros i. apply (HP (S i)).
Qed.

Section Admit.
Context `{Digest}.
Implicit Types (h : system) (b : slot) (c : Connector).

(** ** The probe keeps the invariant *)

Lemma sys_probed h h' : SysInv h → probed (held (h_ext h)) h h' → SysInv h'.
Proof.
  intros [Hg [Hsl Hpg] Hl] (s & K & Hsame & Hs). pose proof (keys_frame _ _ K) as F. split.
  - eapply keys_step_good; [exact K|]. by apply good_conn.
  - rewrite (mf_transfer _ _ F), (mf_ext _ _ F). by split.
  - apply (loads_mono h); [done|by rewrite (mf_ext _ _ F)|by rewrite (mf_tables _ _ F)|].
    intros b. unfold hblk. by rewrite (mf_blocks _ _ F).
Qed.

Lemma sys_probe_spec r plan h :
  SysInv h →
  wp (probe r plan)
    (λ x h', SysInv h' ∧ probed (held (h_ext h)) h h' ∧ external_found r (hp_hit_tokens plan) x h)
    (λ _ h', SysInv h') h.
Proof.
  intros Hs. pose proof (po_pages _ _ (si_pins _ Hs)) as Hp.
  eapply wp_mono; [by apply (probe_spec (held (h_ext h)))| |].
  - intros x h' [HP Hx]. split; [by eapply sys_probed|done].
  - intros e h' HP. by eapply sys_probed.
Qed.

Lemma probed_plan r p h h' I :
  probed I h h' → h_plans h !! r = Some (plan_state r h, p) → h_plans h' !! r = Some (plan_state r h', p).
Proof.
  intros (s & [[F Hp] Hl] & _) Hr. rewrite Hp.
  rewrite (plan_state_same r (with_store s h) h'); [exact Hr|by rewrite (mf_version _ _ F)|by rewrite (mf_cache _ _ F)|done].
Qed.

(** ** Hits that fit the tables of their plan *)

Lemma hits_at_tables h context version p i s t :
  SpecsOk h → h_block_size h ≠ 0 → memo_ok h context version p →
  h_specs h !! i = Some s → plan_tables (h_specs h) p !! i = Some t → is_window s = false →
  t.2.*1 = zrange 0 (hp_hit_tokens p / h_block_size h) ∧ 0 <= hp_hit_tokens p / h_block_size h.
Proof.
  intros Hok Hb Hm Hs Ht Hw. pose proof (sk_eagle _ Hok s ltac:(by eapply list_elem_of_lookup_2) Hw) as He.
  destruct (mo_hits _ _ _ _ Hm) as [[Hh H0]|(n & Hn & Heq & Hall)].
  - unfold plan_tables in Ht. rewrite Hh in Ht. unfold empty_tables in Ht. rewrite list_lookup_fmap, Hs in Ht.
    injection Ht as <-. by rewrite H0, Zdiv_0_l.
  - rewrite Heq, Z.div_mul by done. split; [|done]. unfold plan_tables in Ht.
    destruct (hp_group_hits p) as [|x l] eqn:Hh.
    + inversion Hall as [Hnil|]. rewrite <- Hnil in Hs. done.
    + by apply (Forall2_lookup_lr _ _ _ _ _ _ Hall Hs Ht).
Qed.

Lemma found_fits r h context version p x :
  SpecsOk h → memo_ok h context version p → external_found r (hp_hit_tokens p) x h →
  import_hits (h_specs h) x.2 (plan_tables (h_specs h) p).
Proof.
  intros Hok Hm [[-> _]|(n & Hb & Hn & _ & _ & Hall)]; [by left|right].
  pose proof (plan_tables_ok h context version p Hm) as Htab. apply Forall3_lookup_intro.
  - by eapply Forall2_length.
  - by eapply Forall2_length.
  - intros i s y t Hs Hy Ht. destruct (Forall2_lookup_lr _ _ _ _ _ _ Hall Hs Hy) as [Hid Hnd Hfull _].
    destruct (Forall2_lookup_lr _ _ _ _ _ _ Htab Hs Ht) as [Hid' _]. split; [congruence|]. split; [done|].
    intros Hw. destruct (hits_at_tables h context version p i s t Hok Hb Hm Hs Ht Hw) as [Hk H0].
    exists (hp_hit_tokens p / h_block_size h), n. split.
    + apply Hfull; [done|]. apply (sk_eagle _ Hok); [by eapply list_elem_of_lookup_2|done].
    + rewrite <- (length_fmap fst t.2), Hk, length_zrange. lia.
Qed.

Lemma found_stored r local x h y : external_found r local x h → y ∈ hit_pages x.2 → stored (c_store (h_ext h)) y.
Proof.
  intros [[-> _]|(n & _ & _ & _ & _ & Hall)]; [by intros ?%elem_of_nil|].
  intros (g & Hy & Hg)%list_elem_of_bind. apply list_elem_of_lookup in Hg as [i Hi].
  destruct (Forall2_lookup_r _ _ _ _ _ Hall Hi) as (s & _ & Hx). by apply (eh_stored _ _ _ _ _ Hx).
Qed.

(** ** Room for the pages of a load *)

(** An admission takes the references of its plan and the free slots among them. *)
Record admitted (p : HybridReusePlan) h h' : Prop := {
  ad_refs b : usable h b → ref_count (hblk h' b) = ref_count (hblk h b) + occ b (plan_slots p);
  ad_free : NoDup (plan_slots p) → h_num_free_blocks h = h_num_free_blocks h' + zero_ref_slots h (hp_group_hits p);
}.

Lemma plan_tables_slots specs p : request_slots (plan_tables specs p) = plan_slots p.
Proof.
  unfold plan_tables, plan_slots. destruct (hp_group_hits p); [apply empty_tables_slots|done].
Qed.

Lemma free_length h : h_num_free_blocks h = Z.of_nat (length (free_slots h)).
Proof. unfold h_num_free_blocks, free_slots. rewrite length_app. lia. Qed.

Lemma refs_nonneg b h : HInv [] [] h → usable h b → 0 <= ref_count (hblk h b).
Proof.
  intros Hi Hb. rewrite (hv_refs _ _ _ Hi b Hb), app_nil_r. pose proof (occ_nonneg b (all_table_slots h)).
  unfold transfers. destruct (h_transfer h !! b) as [n|] eqn:Hn; cbn; [apply (hv_transfer _ _ _ Hi) in Hn|]; lia.
Qed.

Lemma allocate_admitted r context version p h h' :
  HInv [] [] h → HInv [] [] h' → same_ext h h' → evolve h h' → memo_ok h context version p →
  h_tables h !! r = None → h_tables h' !! r = Some (plan_tables (h_specs h) p) →
  (∀ r', r' ≠ r → h_tables h' !! r' = h_tables h !! r') → admitted p h h'.
Proof.
  intros Hi Hi' [Ht _] E Hm Hn Hr Hoth.
  assert (h_tables h' = <[r := plan_tables (h_specs h) p]> (h_tables h)) as Htab.
  { apply map_eq. intros r'. destruct (decide (r' = r)) as [->|Hne]; [by rewrite lookup_insert_eq|].
    by rewrite lookup_insert_ne, Hoth. }
  pose proof (slots_insert h h' r _ Hn Htab) as Hall. rewrite plan_tables_slots in Hall.
  assert (∀ b, usable h b → ref_count (hblk h' b) = ref_count (hblk h b) + occ b (plan_slots p)) as Hrefs.
  { intros b Hb. assert (usable h' b) as Hb' by by rewrite (evolve_usable h).
    rewrite (hv_refs _ _ _ Hi b Hb), (hv_refs _ _ _ Hi' b Hb'), !app_nil_r, Hall, occ_app.
    unfold transfers. rewrite Ht. lia. }
  split; [done|]. intros Hnd. rewrite !free_length. unfold zero_ref_slots. fold (plan_slots p).
  rewrite <- Nat2Z.inj_add, <- length_app. f_equal. apply Permutation_length.
  pose proof (hv_nodup _ _ _ Hi) as N. pose proof (hv_nodup _ _ _ Hi') as N'. rewrite app_nil_r in N, N'.
  assert (∀ b, b ∈ free_slots h' ↔ usable h b ∧ ref_count (hblk h b) = 0 ∧ b ∉ plan_slots p) as Hfree'.
  { intros b. pose proof (hv_free _ _ _ Hi' b) as Hf. rewrite app_nil_r in Hf. rewrite Hf, (evolve_usable h) by done.
    split; [intros [Hb H0]|intros (Hb & H0 & Hp)]; (split; [done|]); rewrite Hrefs in * by done;
      pose proof (refs_nonneg b h Hi Hb); pose proof (occ_nonneg b (plan_slots p)).
    - split; [lia|]. apply occ_zero. lia.
    - apply occ_zero in Hp. lia. }
  apply NoDup_Permutation; [done| |].
  - apply NoDup_app. split; [done|]. split; [|by apply NoDup_filter].
    intros b (_ & _ & Hp)%Hfree' [_ ?]%list_elem_of_filter. done.
  - intros b. pose proof (hv_free _ _ _ Hi b) as Hf. rewrite app_nil_r in Hf.
    rewrite Hf, elem_of_app, Hfree', list_elem_of_filter. split; [|naive_solver eauto using mo_usable].
    intros [Hb H0]. destruct (decide (b ∈ plan_slots p)); [by right|by left].
Qed.

Lemma replaced_in (tables : list (Z * page_table)) (hits : list (Z * list (Z * stored_page))) b :
  b ∈ replaced_slots tables hits → b ∈ request_slots tables.
Proof.
  intros (x & Hb & _)%list_elem_of_bind. apply list_elem_of_omap in Hb as (p & _ & (t & Ht & Hb)%bind_Some).
  apply dict_get_elem in Ht, Hb. apply list_elem_of_bind. exists (x.1, t). split; [|done].
  by apply (list_elem_of_fmap_2 snd) in Hb.
Qed.

Lemma omap_nothing {A B} (f : A → option B) (l : list A) : (∀ x, f x = None) → omap f l = [].
Proof. intros Hf. induction l as [|x l IH]; [done|]. cbn. by rewrite Hf. Qed.

Lemma replaced_plan p specs (hits : list (Z * list (Z * stored_page))) :
  replaced_slots (plan_tables specs p) hits = replaced_slots (hp_group_hits p) hits.
Proof.
  unfold plan_tables. destruct (hp_group_hits p) as [|y l]; [|done]. unfold replaced_slots.
  induction hits as [|x hits IH]; [done|]. csimpl. rewrite IH. f_equal. rewrite !omap_nothing; [done|done|].
  intros k. destruct (dict_get x.1 (empty_tables specs)) as [t|] eqn:Ht; [|done]. cbn.
  apply dict_get_elem, list_elem_of_fmap in Ht as (s & [= _ ->] & _). done.
Qed.

Lemma needed_slots_nonneg specs context hit : 0 <= needed_slots specs context hit.
Proof. unfold needed_slots. induction specs as [|s specs IH]; cbn; [lia|]. unfold zsum in IH. lia. Qed.

Lemma NoDup_occ b (l : list slot) : NoDup l → occ b l <= 1.
Proof.
  induction 1 as [|x l Hx _ IH]; [by rewrite occ_nil|]. rewrite occ_cons. case_decide as Hb; [|lia].
  subst. apply occ_zero in Hx. lia.
Qed.

(** The gate of an external admission leaves room for the pages it loads. *)
Lemma import_fits r context version p boundary (hits : list (Z * list (Z * stored_page))) reserved running h h' :
  admitted p h h' → memo_ok h context version p → NoDup (plan_slots p) → 0 <= h_watermark h running →
  HInv [] [] h → (h_can_allocate_external r p boundary hits reserved running h).1 = Ok true →
  ¬ import_short h' (plan_tables (h_specs h) p) hits.
Proof.
  intros [Hrefs Hfree] Hm Hnd Hw Hi Hgate. unfold import_short.
  injection Hgate as [Hfit _]%andb_true_iff. apply Z.leb_le in Hfit. rewrite (Hfree Hnd) in Hfit.
  change (list_bind _ _ snd hits) with (hits ≫= snd) in Hfit.
  pose proof (needed_slots_nonneg (h_specs h) (context_len (hreq h r)) boundary) as Hneed.
  assert (count_sole h' (replaced_slots (plan_tables (h_specs h) p) hits) =
    Z.of_nat (length (filter (λ b, ref_count (hblk h b) = 0) (replaced_slots (hp_group_hits p) hits)))) as ->; [|lia].
  rewrite replaced_plan. unfold count_sole. f_equal. f_equal. apply filter_iff_in.
  intros b Hb%replaced_in. change (b ∈ plan_slots p) in Hb. unfold sole_owner.
  rewrite (Hrefs b (mo_usable _ _ _ _ Hm b Hb)). apply occ_pos in Hb as Hpos.
  assert (occ b (plan_slots p) = 1) as ->; [|lia].
  pose proof (NoDup_occ b (plan_slots p) Hnd). lia.
Qed.

(** ** [admit_async] *)

Lemma wp_eq {A} (m : M system A) a h (Q : A → system → Prop) E : m h = (Ok a, h) → Q a h → wp m Q E h.
Proof. intros Hm HQ. unfold wp. by rewrite Hm. Qed.

Lemma sys_set_hreq r f h : SysInv h → SysInv (h <| h_reqs ::= λ m, <[r := f (m !!! r)]> m |>).
Proof. intros Hs. apply (sys_edit h); [done|]. by split. Qed.

Lemma on_request_spec {A} r (m : M Request A) (Q : error → Prop) h :
  SysInv h → wp m (λ _ _, True) (λ e _, Q e) (hreq h r) →
  wp (on_request r m) (λ _ h', SysInv h') (λ e h', SysInv h' ∧ Q e) h.
Proof.
  intros Hs Hm. unfold wp, on_request in *.
  destruct (m (hreq h r)) as [[a|e] q]; [|split; [|done]]; (apply (sys_edit h); [done|by split]).
Qed.

(** When the accounting of an admission raises *)
Lemma record_context_admission_raises gpu cpu q :
  wp (record_context_admission gpu cpu) (λ _ _, True)
    (λ _ _, ¬ (0 <= gpu ∧ 0 <= cpu ∧ gpu + cpu < context_len q ∧ 0 <= prefill_len q)) q.
Proof.
  unfold record_context_admission. do 2 wp_step. unid.
  destruct (_ || _) eqn:Hc; [wp_step; apply orb_true_iff in Hc; lia|].
  wp_step. wp_step. unfold record_prefill_admission. do 2 wp_step. unid. cbn [prefill_len].
  match goal with |- context [if ?c then _ else _] => destruct c eqn:Hc' end.
  - wp_step. apply orb_true_iff in Hc'. apply orb_false_iff in Hc as [Hc1 Hc2]. cbn in Hc'. lia.
  - wp_step. match goal with |- context [first_prefill_source ?q] => destruct (first_prefill_source q) end; by wp_steps.
Qed.

(** What [admit_waiting] knows when it admits: the plan is remembered, the hits were
    found for it. *)
Record planned (r : Z) p (x : Z * list (Z * list (Z * stored_page))) h : Prop := {
  pl_memo : h_plans h !! r = Some (plan_state r h, p);
  pl_found : external_found r (hp_hit_tokens p) x h;
}.

(** The admission has room: the request has no tables, the slots of its plan are
    distinct, and the gate let the load through. *)
Record fits (r : Z) p (x : Z * list (Z * list (Z * stored_page))) reserved (running : bool) h : Prop := {
  ft_tables : h_tables h !! r = None;
  ft_prefill : 0 <= prefill_len (hreq h r);
  ft_context : 0 < context_len (hreq h r);
  ft_nodup : NoDup (plan_slots p);
  ft_watermark : 0 <= h_watermark h running;
  ft_gate : x.2 ≠ [] → (h_can_allocate_external r p x.1 x.2 reserved running h).1 = Ok true;
}.

Lemma planned_memo r p x h : Good h → planned r p x h → memo_ok h (context_len (hreq h r)) (h_cache_version h) p.
Proof. intros Hg [Hp _]. by eapply (gd_plans _ Hg). Qed.

Lemma plan_hit_bounds r p x h :
  Good h → planned r p x h → 0 <= hp_hit_tokens p ∧ hp_hit_tokens p <= Z.max 0 (context_len (hreq h r) - 1).
Proof.
  intros Hg Hp. pose proof (planned_memo _ _ _ _ Hg Hp) as Hm. split; [|by apply (mo_bound _ _ _ _ Hm)].
  pose proof (sk_width _ (gd_specs _ Hg)) as Hw.
  destruct (mo_hits _ _ _ _ Hm) as [[_ ->]|(n & Hn & -> & _)]; [done|]. by apply Z.mul_nonneg_nonneg.
Qed.

(** The loaded tokens lie behind the local hit and before the last token. *)
Lemma found_bounds r p x h :
  Good h → planned r p x h → x.2 ≠ [] → 0 <= x.1 - hp_hit_tokens p ∧ x.1 <= Z.max 0 (context_len (hreq h r) - 1).
Proof.
  intros Hg Hp Hx. pose proof (planned_memo _ _ _ _ Hg Hp) as Hm.
  pose proof (sk_width _ (gd_specs _ Hg)) as Hw. destruct (pl_found _ _ _ _ Hp) as [[? _]|(n & Hb & Hn & Hx1 & Hmax & _)]; [done|].
  split; [|apply Hmax; lia]. rewrite Hx1.
  assert (hp_hit_tokens p = hp_hit_tokens p / h_block_size h * h_block_size h) as Heq.
  { destruct (mo_hits _ _ _ _ Hm) as [[_ ->]|(k & _ & -> & _)]; [by rewrite Zdiv_0_l|by rewrite Z.div_mul]. }
  rewrite Heq, <- Z.mul_sub_distr_r. apply Z.mul_nonneg_nonneg; [lia|done].
Qed.

Lemma found_same r local x h h' :
  external_found r local x h → evolve h h' → same_lengths h h' → same_contents (c_store (h_ext h)) (c_store (h_ext h')) →
  external_found r local x h'.
Proof.
  intros Hf E Hl Hsame. destruct Hf as [?|(n & Hb & Hn & Hx & Hmax & Hall)]; [by left|right]. exists n.
  unfold h_block_size in *. rewrite (ev_layout _ _ E), (ev_specs _ _ E). destruct (Hl r) as (-> & _).
  split_and!; try done. eapply Forall2_impl; [exact Hall|]. intros s y. by apply external_hit_same.
Qed.

(** The state of [admit_async] past the tables *)
Lemma admit_load_spec r p x reserved running h h1 :
  SysInv h → planned r p x h → ¬ busy (h_ext h) r → req_block_size (hreq h r) ≠ 0 → x.2 ≠ [] →
  SysInv h1 → h_ext h1 = h_ext h → evolve h h1 → same_lengths h h1 → admitted p h h1 →
  h_tables h1 !! r = Some (plan_tables (h_specs h) p) → gpu_cached_context_tokens (hreq h1 r) = hp_hit_tokens p →
  wp (begin_load r x.1 x.2 ;; h ← gets id;
      on_request r (record_context_admission (hp_hit_tokens p) (external_cached_context_tokens (hreq h r))))
    (λ _ h', SysInv h') (λ _ h', SysInv h' ∧ ¬ fits r p x reserved running h) h1.
Proof.
  intros Hs Hp Hidle Hsize Hx Hs1 Hx1 E1 Hl1 Had Ht1 Hgpu. pose proof (si_good _ Hs) as Hg.
  pose proof (planned_memo _ _ _ _ Hg Hp) as Hm. destruct (Hl1 r) as (Hctx & _ & Hbs & Hpf).
  wp_step. eapply wp_mono; [apply (sys_begin_load r x.1 x.2 (plan_tables (h_specs h) p) h1 Hs1)| |].
  - split; [by rewrite Hx1|by rewrite Hbs|done| |].
    + rewrite (ev_specs _ _ E1). eapply found_fits; [apply Hg|exact Hm|apply Hp].
    + intros y Hy. rewrite Hx1. eapply found_stored; [apply Hp|exact Hy].
  - intros _ h2 [Hs2 Hr2]. do 2 wp_step. unid. apply on_request_spec; [done|].
    eapply wp_mono; [apply record_context_admission_raises|done|]. intros e q Hn Hfit. apply Hn.
    rewrite Hr2. cbn. rewrite Hgpu.
    change (context_len (begin_load_request x.1 (hreq h1 r))) with (context_len (hreq h1 r)).
    rewrite Hctx, Hpf. destruct (plan_hit_bounds _ _ _ _ Hg Hp). destruct (found_bounds _ _ _ _ Hg Hp Hx).
    destruct Hfit as [_ ? ? _ _ _]. lia.
  - intros e h2 (Hs2 & _ & Hshort). split; [done|]. intros [_ _ _ Hnd Hw Hgate].
    eapply import_fits; [exact Had|exact Hm|exact Hnd|exact Hw|apply Hg|by apply Hgate|exact Hshort].
Qed.

Lemma sys_admit_async r p x reserved running h :
  SysInv h → ¬ busy (h_ext h) r → req_block_size (hreq h r) ≠ 0 → planned r p x h →
  wp (admit_async r x) (λ _ h', SysInv h') (λ _ h', SysInv h' ∧ ¬ fits r p x reserved running h) h.
Proof.
  intros Hs Hidle Hsize Hp. pose proof (si_good _ Hs) as Hg. pose proof (plan_remembered _ _ _ (pl_memo _ _ _ _ Hp)) as Hplan.
  unfold admit_async. wp_step. eapply wp_eq; [exact Hplan|].
  wp_step. eapply wp_mono; [apply wp_and; [by apply sys_allocate|by apply h_allocate_spec]| |].
  2: { intros e h1 [Hs1 (_ & _ & _ & _ & _ & [Ht|He])]; (split; [done|]).
       - intros Hf. rewrite (ft_tables _ _ _ _ _ _ Hf) in Ht. by destruct Ht.
       - by rewrite Hplan in He. }
  intros _ h1 (Hs1 & _ & Hsx & E1 & Hn & Hoth & _ & Hl1 & p' & Hm & Hout & Ht1).
  rewrite Hplan in Hout. injection Hout as <-.
  assert (admitted p h h1) as Had.
  { eapply allocate_admitted; [apply Hg|apply Hs1|done|done|exact Hm|done|done|done]. }
  wp_step. unfold set_hreq at 1. wp_step. set (f := admitted_request (hp_hit_tokens p)).
  apply (sys_set_hreq r f) in Hs1 as Hs2. match type of Hs2 with SysInv ?h0 => set (h2 := h0) in * end.
  assert (same_lengths h h2) as Hl2.
  { transitivity h1; [exact Hl1|]. by apply (same_lengths_edit r f). }
  destruct (decide (x.2 = [])) as [Hx|Hx].
  - rewrite Hx. unfold set_hreq. do 2 wp_step. set (g := local_request (hp_hit_tokens p)).
    apply (sys_set_hreq r g) in Hs2 as Hs3. match type of Hs3 with SysInv ?h0 => set (h3 := h0) in * end.
    assert (same_lengths h h3) as Hl3.
    { transitivity h2; [exact Hl2|]. apply (same_lengths_edit r g); [|done]. intros q. unfold g, local_request.
      by destruct (needs_recompute q). }
    wp_step. eapply wp_mono; [apply (on_request_spec r _ (λ _, ¬ fits r p x reserved running h) _ Hs3)| |done].
    + eapply wp_mono; [apply record_context_admission_raises|done|]. intros e q Hno Hfit. apply Hno.
      destruct (Hl3 r) as (-> & _ & _ & ->). destruct (plan_hit_bounds _ _ _ _ Hg Hp). destruct Hfit as [_ ? ? _ _ _]. lia.
    + intros u h4 Hs4. wp_step. by apply sys_set_hreq.
  - destruct x as [boundary [|y hits]]; [done|]. cbn [fst snd].
    apply (admit_load_spec r p (boundary, y :: hits) reserved running h h2); try done.
    + by apply Hsx.
    + destruct E1. by split.
    + destruct Had as [Hr Hf]. by split.
    + unfold h2, hreq. cbn. by rewrite lookup_total_insert_eq.
Qed.

(** ** [admit_waiting] *)

(** The states between the probe and the admission *)
Record probed_for (r : Z) p (x : Z * list (Z * list (Z * stored_page))) h h' : Prop := {
  pf_inv : SysInv h';
  pf_planned : planned r p x h';
  pf_inflight : c_inflight (h_ext h') = c_inflight (h_ext h);
  pf_lengths : same_lengths h h';
  pf_tables' : h_tables h' = h_tables h;
}.

Lemma plan_probe {A} r (k : HybridReusePlan → _ → M system A) (Q : A → system → Prop) E h :
  SysInv h → (∀ p x h', probed_for r p x h h' → wp (k p x) Q E h') → (∀ e h', SysInv h' → E e h') →
  wp (p ← h_plan_reuse r; x ← probe r p; k p x) Q E h.
Proof.
  intros Hs Hk HE. pose proof (si_good _ Hs) as Hg. wp_step.
  eapply wp_mono; [apply wp_and; [by apply sys_plan|apply h_plan_reuse_spec; apply Hg]| |by intros e h1 [? _]; apply HE].
  intros p h1 (Hs1 & F1 & _ & _ & Hl1 & Hp1). wp_step. eapply wp_mono; [by apply sys_probe_spec| |done].
  intros x h2 (Hs2 & HP & Hf). apply Hk. destruct (probed_store _ _ _ HP) as [Hsame _].
  pose proof HP as (s & K & _). pose proof (keys_frame _ _ K) as F2. split; [done| | | |].
  - split; [by eapply probed_plan|]. eapply found_same; [exact Hf| | |done]; [|apply K].
    pose proof (mf_evolve _ _ F2) as []. by split.
  - rewrite (mf_ext _ _ F2). cbn. by rewrite (mf_ext _ _ F1).
  - transitivity h1; [exact Hl1|]. apply K.
  - by rewrite (mf_tables _ _ F2), <- (mf_tables _ _ F1).
Qed.

Lemma can_admit_spec r reserved running p x h :
  planned r p x h → ∃ ok : bool, can_admit r reserved running p x h = (Ok ok, h).
Proof.
  intros [Hp _]. unfold can_admit. destruct x.2; [|by eexists].
  unfold h_can_allocate. cbv [mbind M_bind]. rewrite (plan_remembered _ _ _ Hp). by eexists.
Qed.

Lemma sys_admit_waiting r reserved running h :
  SysInv h → ¬ busy (h_ext h) r → req_block_size (hreq h r) ≠ 0 → safe (admit_waiting r reserved running) h.
Proof.
  intros Hs Hidle Hsize. unfold admit_waiting. apply plan_probe; [done| |done].
  intros p x h1 [Hs1 Hp1 Hi1 Hl1 _]. wp_step. destruct (can_admit_spec r reserved running p x h1 Hp1) as [ok Hc].
  eapply wp_eq; [exact Hc|]. destruct ok; [|by wp_step]. wp_step.
  eapply wp_mono; [apply (sys_admit_async r p x reserved running); try done| |by intros e h2 [? _]].
  - unfold busy. by rewrite Hi1.
  - by destruct (Hl1 r) as (_ & _ & -> & _).
  - intros u h2 Hs2. by wp_step.
Qed.
End Admit.
