(* ===== verification/OffloadRun.v ===== *)
(** * Runs of the system

    A step runs one operation of the manager or the connector, to its result or to the
    exception it raises; [reachable] states are those of any sequence of steps from a
    new manager.  Every reachable state satisfies [SysInv].  The operations that only
    read ([can_ensure_slots], [validate_conservation], ...) are not steps. *)

From stdpp Require Import gmap list list_numbers relations.
From Stdlib Require Import ZArith Lia.
From S2P Require Import Prelude.
From S2P Require Import Block.
From S2P Require Import PrefixKeys.
From S2P Require Import PyFloat.
From S2P Require Import Request.
From S2P Require Import HybridLayout.
From S2P Require Import HybridState.
From S2P Require Import HybridManager.
From S2P Require Import HybridInv.
From S2P Require Import HybridTables.
From S2P Require Import HybridGrow.
From S2P Require Import HybridEnsure.
From S2P Require Import HybridPlans.
From S2P Require Import HybridAdmit.
From S2P Require Import HybridStart.
From S2P Require Import HybridPublish.
From S2P Require Import HybridExternal.
From S2P Require Import NativeStore.
From S2P Require Import OffloadConnector.
From S2P Require Import OffloadSystem.
From S2P Require Import OffloadLoads.
From S2P Require Import OffloadProbe.
From S2P Require Import OffloadAdmit.

Open Scope Z_scope.

(** ** Steps *)

Inductive sys_op :=
  | op_edit (r : Z) (f : Request → Request)     (* the scheduler's edits of a request *)
  | op_plan (r : Z)
  | op_can_allocate (r : Z) (has_scheduled_requests : bool)
  | op_forget (r : Z)
  | op_allocate (r : Z)
  | op_ensure (r tokens lookahead : Z)
  | op_append (r : Z)
  | op_publish (r : Z)
  | op_release (r : Z)
  | op_free (r : Z)
  | op_cancel (r : Z)
  | op_probe (r : Z) (local_plan : HybridReusePlan)
  | op_admit (r reserved : Z) (running : bool)
  | op_resume_load (i : nat)
  | op_wait_for_save
  | op_resume_save (i : nat).

Section Run.
Context `{Digest}.
Implicit Types (h : system) (b : slot).

(** [m] for its effect *)
Definition run {A} (m : M system A) : M system unit := m ;; mret tt.

(** The manager's callbacks are the connector's [_queue_write]. *)
Definition perform (o : sys_op) : M system unit :=
  match o with
  | op_edit r f => set_hreq r f
  | op_plan r => run (h_plan_reuse r)
  | op_can_allocate r scheduled => run (h_can_allocate r scheduled)
  | op_forget r => h_forget_request r
  | op_allocate r => h_allocate r
  | op_ensure r tokens lookahead => h_ensure_slots r tokens lookahead
  | op_append r => h_append_slot r
  | op_publish r => h_cache_computed [queue_write] r
  | op_release r => h_release_request_blocks r
  | op_free r => h_free [queue_write] r
  | op_cancel r => cancel_loading r
  | op_probe r plan => run (probe r plan)
  | op_admit r reserved running => run (admit_waiting r reserved running)
  | op_resume_load i => resume_load i
  | op_wait_for_save => wait_for_save
  | op_resume_save i => resume_save i
  end.

(** What the callers guarantee: a request whose load is under way is in neither queue,
    so it is at most cancelled or released; block sizes are positive. *)
Definition allowed (o : sys_op) h : Prop :=
  match o with
  | op_allocate r | op_ensure r _ _ | op_append r | op_publish r | op_free r => ¬ busy (h_ext h) r
  | op_admit r _ _ => ¬ busy (h_ext h) r ∧ req_block_size (hreq h r) ≠ 0
  | _ => True
  end.

Inductive sys_step h : system → Prop :=
  | sys_step_op o : allowed o h → sys_step h (perform o h).2.

(** A new manager and a new connector for a layout of [hybrid_kv_layout];
    [TransformerComponents.validate_model] refuses a window that is not positive. *)
Definition started h : Prop :=
  ∃ m a L capacity s reqs chains role n model w,
    0 < sliding_window m ∧ hybrid_kv_layout m a = Ok L ∧ cpu_store capacity L = Ok s ∧
    new_hybrid reqs chains (new_connector role s) L n model w = Ok h.

Definition reachable h : Prop := ∃ h0, started h0 ∧ rtc sys_step h0 h.

(** ** The invariant *)

Lemma new_store_inv (capacity : Z) (u : option Z) (s : NativePageStore slot_key) : new_store capacity u = Ok s → StoreInv [] s.
Proof.
  unfold new_store. destruct (Z.ltb_spec capacity 1); [done|]. intros Hs.
  assert (s = mkStore capacity u ∅ [] 0 0 0 [] ∧ ∀ u', u = Some u' → 0 < u') as [-> Hu].
  { destruct u as [u|]; [|by simplify_eq]. destruct (Z.ltb_spec u 1); simplify_eq.
    split; [done|]. intros u' [= <-]. lia. }
  split; cbn; try done; [by intros p ?%elem_of_nil|lia|apply NoDup_nil_2|].
  intros k. split; [by intros ?%elem_of_nil|by intros []].
Qed.

Lemma started_inv h : started h → SysInv h.
Proof.
  intros (m & a & L & capacity & s & reqs & chains & role & n & model & w & Hw & HL & Hs & Hn).
  destruct (new_hybrid_good _ _ _ _ _ _ _ _ (hybrid_layout_ok _ _ _ Hw HL) Hn) as (Hg & Ht & Htr & Hx).
  split; [done| |].
  - rewrite Htr, Hx. split; [done|]. unfold cpu_store in Hs. repeat (case_match; [done|]).
    by apply new_store_inv in Hs.
  - split; rewrite Hx; cbn; [apply NoDup_nil_2|by intros l ?%elem_of_nil|by intros l b ?%elem_of_nil].
Qed.

Lemma ensure_without_table r tokens lookahead h :
  h_tables h !! r = None → wp (h_ensure_slots r tokens lookahead) (λ _ h', h' = h) (λ _ h', h' = h) h.
Proof.
  intros Ht. unfold h_ensure_slots. wp_steps. unid.
  assert (∀ gid Q E, E KeyError h → wp (get_table r gid) Q E h) as Hget.
  { intros gid Q E HE. unfold get_table. do 2 wp_step. unid. rewrite Ht. unfold require. by wp_steps. }
  destruct (window_growth h) as [|[[[position gid] bt] history] ws]; cbn [for_ reclaim_window].
  - wp_step. destruct (imap pair (h_specs h)) as [|[position s] ps]; cbn [for_ grow_group]; [by wp_step|].
    do 2 wp_step. by apply Hget.
  - do 2 wp_step. by apply Hget.
Qed.

Lemma safe_run {A} (m : M system A) h : safe m h → safe (run m) h.
Proof. intros Hm. unfold run. wp_step. eapply wp_mono; [exact Hm| |done]. intros a h' Hs. by wp_step. Qed.

Lemma sys_forget r h : SysInv h → safe (h_forget_request r) h.
Proof.
  intros Hs. unfold h_forget_request. wp_step. eapply sys_meta; [exact Hs|by split|].
  apply (plan_inv_evolve h); [by split| |apply Hs].
  intros r' x. cbn. by intros [_ ?]%lookup_delete_Some.
Qed.

Lemma sys_can_allocate r scheduled h : SysInv h → safe (h_can_allocate r scheduled) h.
Proof.
  intros Hs. unfold h_can_allocate. wp_step. eapply wp_mono; [by apply sys_plan| |done].
  intros plan h' Hs'. by wp_steps.
Qed.

Lemma sys_ensure_any r tokens lookahead h :
  SysInv h → ¬ busy (h_ext h) r → safe (h_ensure_slots r tokens lookahead) h.
Proof.
  intros Hs Hb. destruct (h_tables h !! r) as [ts|] eqn:Ht; [by apply sys_ensure|].
  eapply wp_mono; [by apply ensure_without_table|by intros _ h' ->|by intros e h' ->].
Qed.

Lemma sys_perform o h : SysInv h → allowed o h → safe (perform o) h.
Proof.
  intros Hs Ha. destruct o; cbn [perform allowed] in *.
  - unfold set_hreq. wp_step. by apply sys_set_hreq.
  - by apply safe_run, sys_plan.
  - by apply safe_run, sys_can_allocate.
  - by apply sys_forget.
  - by apply sys_allocate.
  - by apply sys_ensure_any.
  - unfold h_append_slot. do 2 wp_step. by apply sys_ensure_any.
  - by apply sys_publish.
  - eapply wp_mono; [by apply sys_release|done|done].
  - by apply sys_free.
  - by apply sys_cancel.
  - apply safe_run. eapply wp_mono; [by apply sys_probe_spec|by intros x h' [? _]|done].
  - destruct Ha. by apply safe_run, sys_admit_waiting.
  - destruct (c_inflight (h_ext h) !! i) as [l|] eqn:Hi.
    + eapply wp_mono; [by apply (sys_resume_load i l)|by intros ? ? []|done].
    + unfold resume_load. do 2 wp_step. unid. rewrite Hi. unfold require. by wp_steps.
  - by apply sys_wait_for_save.
  - destruct (c_saves (h_ext h) !! i) as [batch|] eqn:Hi.
    + eapply wp_mono; [by apply (sys_resume_save i batch)|by intros ? ? []|done].
    + unfold resume_save. do 2 wp_step. unid. rewrite Hi. unfold require. by wp_steps.
Qed.

Lemma step_inv h h' : SysInv h → sys_step h h' → SysInv h'.
Proof.
  intros Hs [o Ha]. pose proof (sys_perform o h Hs Ha) as Hw. unfold wp in Hw.
  destruct (perform o h) as [[u|e] h'']; exact Hw.
Qed.

Lemma reachable_inv h : reachable h → SysInv h.
Proof.
  intros (h0 & Hst & Hr). apply started_inv in Hst. induction Hr as [h|h h1 h2 Hstep _ IH]; [done|].
  apply IH. by eapply step_inv.
Qed.

(** Reachability, step by step *)
Lemma reachable_start h : started h → reachable h.
Proof. intros Hs. by exists h. Qed.

Lemma reachable_step o h : reachable h → allowed o h → reachable (perform o h).2.
Proof. intros (h0 & Hs & Hr) Ha. exists h0. split; [done|]. eapply rtc_r; [exact Hr|by constructor]. Qed.
End Run.
