(* ===== verification/OffloadTheorems.v ===== *)
(** * What the grouped cache and its offload connector guarantee

    The theorems hold in every [reachable] state: after any sequence of operations of
    the manager and the connector, each run to its result or its exception. *)

From stdpp Require Import gmap list list_numbers.
From Stdlib Require Import ZArith Lia.
From S2P Require Import Prelude.
From S2P Require Import Block.
From S2P Require Import PrefixKeys.
From S2P Require Import PyFloat.
From S2P Require Import Request.
From S2P Require Import HybridLayout.
From S2P Require Import HybridState.
From S2P Require Import HybridManager.
From S2P Require Import HybridInv.
From S2P Require Import HybridTables.
From S2P Require Import HybridGrow.
From S2P Require Import HybridEnsure.
From S2P Require Import HybridPlans.
From S2P Require Import HybridAdmit.
From S2P Require Import HybridPublish.
From S2P Require Import HybridExternal.
From S2P Require Import NativeStore.
From S2P Require Import OffloadConnector.
From S2P Require Import OffloadSystem.
From S2P Require Import HybridStart.
From S2P Require Import OffloadLoads.
From S2P Require Import OffloadProbe.
From S2P Require Import OffloadAdmit.
From S2P Require Import OffloadRun.

Open Scope Z_scope.

Section Theorems.
Context `{Digest}.
Implicit Types (h : system) (b : slot).

(** Page indices that request [r] holds of a group *)
Definition group_pages h (r : Z) (s : GroupSpec) : list Z :=
  (default [] (h_tables h !! r ≫= dict_get (sp_group_id s))).*1.

Definition repeat_m (n : nat) (m : M system unit) : M system unit := for_ (replicate n tt) (λ _, m).

(** Every link delivers: the loads under way end, the writes that wait are issued, the
    saves under way end. *)
Definition drain : M system unit :=
  h ← gets id;
  repeat_m (length (c_inflight (h_ext h))) (resume_load 0) ;;
  wait_for_save ;;
  h ← gets id;
  repeat_m (length (c_saves (h_ext h))) (resume_save 0).

(** ** Draining *)

Lemma drain_loads n h :
  SysInv h → length (c_inflight (h_ext h)) = n →
  wp (repeat_m n (resume_load 0)) (λ _ h', SysInv h' ∧ c_inflight (h_ext h') = []) no_raise h.
Proof.
  unfold repeat_m. revert h. induction n as [|n IH]; intros h Hs Hn; cbn [replicate for_].
  { wp_step. split; [done|]. by apply nil_length_inv. }
  destruct (c_inflight (h_ext h)) as [|l ls] eqn:Hl; [done|]. wp_step.
  eapply wp_mono; [apply (sys_resume_load 0 l h Hs); by rewrite Hl| |done].
  intros _ h1 (Hs1 & HI & _). apply IH; [done|]. rewrite HI, Hl. cbn in *. lia.
Qed.

Lemma drain_saves n h :
  SysInv h → c_inflight (h_ext h) = [] → c_pending (h_ext h) = [] → length (c_saves (h_ext h)) = n →
  wp (repeat_m n (resume_save 0)) (λ _ h', SysInv h' ∧ pins (h_ext h') = [] ∧ held (h_ext h') = []) no_raise h.
Proof.
  unfold repeat_m. revert h. induction n as [|n IH]; intros h Hs HI HP Hn; cbn [replicate for_].
  { wp_step. apply nil_length_inv in Hn. split; [done|]. unfold pins, held, saving, loading. by rewrite HI, HP, Hn. }
  destruct (c_saves (h_ext h)) as [|x xs] eqn:Hx; [done|]. wp_step.
  eapply wp_mono; [apply (sys_resume_save 0 x h Hs); by rewrite Hx| |done].
  intros _ h1 (Hs1 & HI1 & HP1 & HS1). apply IH; [done|congruence|congruence|]. rewrite HS1, Hx. cbn in *. lia.
Qed.

Lemma wait_for_save_spec h :
  SysInv h → wp wait_for_save (λ _ h', SysInv h' ∧ c_inflight (h_ext h') = c_inflight (h_ext h) ∧
    c_pending (h_ext h') = []) no_raise h.
Proof.
  intros Hs. pose proof (sys_wait_for_save h Hs) as Hw. unfold wait_for_save, set_conn in *.
  apply wp_modify in Hw. wp_step. split; [exact Hw|]. cbn. by destruct (c_pending (h_ext h)) eqn:Hp.
Qed.

Lemma drain_spec h :
  SysInv h → wp drain (λ _ h', SysInv h' ∧ pins (h_ext h') = [] ∧ held (h_ext h') = []) no_raise h.
Proof.
  intros Hs. unfold drain. do 2 wp_step. unid. wp_step. eapply wp_mono; [by apply drain_loads| |done].
  intros _ h1 [Hs1 HI1]. wp_step. eapply wp_mono; [by apply wait_for_save_spec| |done].
  intros _ h2 (Hs2 & HI2 & HP2). do 2 wp_step. unid. apply drain_saves; [done|congruence|done|done].
Qed.

(** ** Theorems *)

(** C2 (invariant): the check the simulator makes of its own state never fails:
    whatever operations of the grouped cache and its offload connector ran before, also
    ones that raised, [validate_conservation] of the manager and [validate] of the page
    store return true and change nothing. *)
Theorem conservation_always h :
  reachable h →
  validate_conservation h = (Ok true, h) ∧ validate (c_store (h_ext h)) = (Ok true, c_store (h_ext h)).
Proof.
  intros Hr%reachable_inv. split; [apply validate_conservation_ok, Hr|].
  eapply validate_ok, (po_pages _ _ (si_pins _ Hr)).
Qed.

(** C7 (invariant): in every reachable state the transfer count of a slot is the
    number of waiting writes, saves and loads that name it, the reference count of a
    slot adds the page tables that hold it, and a stored page has one reference for
    each transfer of it. *)
Theorem transfers_counted h :
  reachable h →
  (∀ b, default 0 (h_transfer h !! b) = occ b (pins (h_ext h))) ∧
  (∀ b, (0 < b < length (h_blocks h))%nat →
     ref_count (hblk h b) = occ b (all_table_slots h) + occ b (pins (h_ext h))) ∧
  (∀ p o, st_heap (c_store (h_ext h)) !! p = Some o → pg_references o = occ p (held (h_ext h))).
Proof.
  intros Hr%reachable_inv. destruct (si_pins _ Hr) as [Hsl Hpg]. split; [done|]. split; [|apply Hpg].
  intros b Hb. rewrite (hv_refs _ _ _ (gd_inv _ (si_good _ Hr)) b Hb), app_nil_r. unfold transfers. by rewrite Hsl.
Qed.

(** C8 (safety): while a load is under way for a request that still has its slots, the
    slots it writes to belong to that request alone, have no identity, so no prefix
    lookup can hit them, and are not free. *)
Theorem load_targets_private h l b :
  reachable h → l ∈ c_inflight (h_ext h) → is_Some (h_tables h !! ld_req l) → b ∈ (ld_targets l).*2 →
  b ∈ slots_of (ld_req l) h ∧ block_hash (hblk h b) = None ∧ (∀ k, h_cache h !! k ≠ Some b) ∧
  (∀ r, r ≠ ld_req l → b ∉ slots_of r h) ∧ b ∉ h_free_uncached h ++ h_free_cached h.
Proof.
  intros Hr%reachable_inv Hl Ht Hb. destruct (lo_private _ (si_loads _ Hr) l b Hl Ht Hb) as [Hown Hh Hoth].
  pose proof (gd_inv _ (si_good _ Hr)) as Hi. split_and!; try done.
  - intros k Hk. destruct (co_cache _ (hv_cache _ _ _ Hi) k b Hk) as [_ Hk']. by rewrite Hh in Hk'.
  - intros Hf. destruct (slots_usable _ _ _ (si_good _ Hr) Hown) as [_ Hpos].
    assert (usable h b ∧ ref_count (hblk h b) = 0) as [_ H0]; [|lia].
    apply (hv_free _ _ _ Hi). by rewrite app_nil_r.
Qed.

(** C9 (safety): the end of a load whose request was cancelled, or has released its
    slots, returns and publishes nothing: the prefix map and the identity of every slot
    are as before. *)
Theorem abandoned_load_publishes_nothing h i l :
  reachable h → c_inflight (h_ext h) !! i = Some l →
  cancel_requested (hreq h (ld_req l)) = true ∨ h_tables h !! ld_req l = None →
  ∃ h', resume_load i h = (Ok tt, h') ∧ h_cache h' = h_cache h ∧
    (∀ b, block_hash (hblk h' b) = block_hash (hblk h b)) ∧
    c_inflight (h_ext h') = delete i (c_inflight (h_ext h)) ∧ validate_conservation h' = (Ok true, h').
Proof.
  intros Hr%reachable_inv Hl Hab.
  destruct (wp_ok_inv _ _ _ (sys_resume_load i l h Hr Hl)) as ([] & h' & Heq & Hs & HI & _ & _ & Hkeep).
  destruct (Hkeep Hab) as [Hc Hh]. exists h'. split_and!; try done. apply validate_conservation_ok, Hs.
Qed.

(** C10 (safety): an admission that [can_allocate_external] lets through never runs out
    of slots: with the plan and the stored prefix just found for a request without
    tables, [_admit] returns, and the state is accounted for.  No slot occurs twice in
    a plan unless prefix hashes collide. *)
Theorem external_admission_fits r reserved running p x h h1 h2 :
  reachable h → ¬ busy (h_ext h) r → req_block_size (hreq h r) ≠ 0 →
  0 <= prefill_len (hreq h r) → 0 < context_len (hreq h r) → h_tables h !! r = None →
  h_plan_reuse r h = (Ok p, h1) → probe r p h1 = (Ok x, h2) →
  NoDup (plan_slots p) → 0 <= h_watermark h2 running →
  can_admit r reserved running p x h2 = (Ok true, h2) →
  ∃ h3, admit_async r x h2 = (Ok tt, h3) ∧ validate_conservation h3 = (Ok true, h3).
Proof.
  intros Hr%reachable_inv Hidle Hsize Hpf Hctx Ht Hplan Hprobe Hnd Hw Hcan.
  assert (probed_for r p x h h2) as [Hs2 Hp2 HI2 Hl2 Ht2].
  { pose proof (plan_probe r (λ p x, mret (p, x)) (λ px h', probed_for r px.1 px.2 h h') (λ _ h', SysInv h') h Hr) as Hw0.
    unfold wp in Hw0. cbv [mbind M_bind mret M_ret] in Hw0. rewrite Hplan, Hprobe in Hw0. by apply Hw0. }
  destruct (Hl2 r) as (Hc & _ & Hb & Hf).
  pose proof (sys_admit_async r p x reserved running h2 Hs2) as Ha. unfold wp in Ha.
  destruct (admit_async r x h2) as [[[]|e] h3].
  - exists h3. split; [done|]. apply validate_conservation_ok, Ha; [by unfold busy; rewrite HI2|by rewrite Hb|done].
  - exfalso. destruct Ha as [_ Hno]; [by unfold busy; rewrite HI2|by rewrite Hb|done|]. apply Hno. split.
    + by rewrite Ht2.
    + by rewrite Hf.
    + by rewrite Hc.
    + done.
    + done.
    + intros Hx. unfold can_admit in Hcan. destruct x as [boundary [|y hits]]; [done|]. cbn [fst snd] in *. by rewrite Hcan.
Qed.

(** C11 (liveness): from every reachable state, when the links deliver, every load and
    save ends without an exception; then no transfer holds a slot, no stored page has a
    reference, and the state is accounted for. *)
Theorem transfers_drain h :
  reachable h →
  ∃ h', drain h = (Ok tt, h') ∧ validate_conservation h' = (Ok true, h') ∧
    (∀ b, h_transfer h' !! b = None) ∧
    (∀ p o, st_heap (c_store (h_ext h')) !! p = Some o → pg_references o = 0).
Proof.
  intros Hr%reachable_inv. destruct (wp_ok_inv _ _ _ (drain_spec h Hr)) as ([] & h' & Heq & Hs & Hp & Hh).
  destruct (si_pins _ Hs) as [Hsl Hpg]. exists h'. split; [done|]. split; [apply validate_conservation_ok, Hs|]. split.
  - intros b. specialize (Hsl b). rewrite Hp, occ_nil in Hsl. destruct (h_transfer h' !! b) as [n|] eqn:Hn; [|done].
    cbn in Hsl. apply (hv_transfer _ _ _ (gd_inv _ (si_good _ Hs))) in Hn. lia.
  - intros p o Ho. by rewrite (sv_refs _ _ Hpg p o Ho), Hh, occ_nil.
Qed.

Lemma group_pages_at h r i s t o :
  TabInv h → group_at h r i s t o → group_pages h r s = t.*1.
Proof.
  intros Hi [_ (ts & Ht & Hti) _]. unfold group_pages. rewrite Ht. cbn.
  by rewrite (dict_get_lookup i (sp_group_id s) t ts (tabinv_ids h r ts Hi Ht) Hti).
Qed.

(** C12 (safety): when [can_ensure_slots] answers yes, [ensure_slots] returns; then the
    request holds, of every group, all pages from the first one its window still needs
    to the last one of the scheduled tokens, and of a window no page below that. *)
Theorem can_ensure_suffices r tokens lookahead h h' :
  reachable h → is_Some (h_tables h !! r) → h_can_ensure_slots r tokens lookahead h = (Ok true, h') →
  let computed := num_computed_tokens (hreq h r) in
  let stop := slots_end r tokens lookahead h in
  ∃ h'', h_ensure_slots r tokens lookahead h = (Ok tt, h'') ∧
    ∀ s, s ∈ h_specs h →
      (∀ k, first_page computed s <= k < group_high stop s → k ∈ group_pages h'' r s) ∧
      (is_window s = true → ∀ k, k ∈ group_pages h'' r s → first_page computed s <= k).
Proof.
  intros Hr%reachable_inv [ts Ht] Hcan computed stop. pose proof (si_good _ Hr) as Hg.
  pose proof (tables_are_intro h r ts (gd_tab _ Hg) Ht) as HT. set (T := λ i, (ts !!! i).2) in HT.
  pose proof (h_can_ensure_slots_spec r tokens lookahead h T (gd_tab _ Hg) HT) as Hc. unfold wp in Hc.
  rewrite Hcan in Hc. destruct Hc as [Hle _]. symmetry in Hle. apply Z.leb_le in Hle.
  pose proof (h_ensure_slots_spec [] r tokens lookahead h T (gd_inv _ Hg) (gd_tab _ Hg) HT) as He. unfold wp in He.
  destruct (h_ensure_slots r tokens lookahead h) as [[[]|e] h'']; [|lia].
  destruct He as (_ & Htab & F & _ & T' & HT' & Hgrown). exists h''. split; [done|].
  intros s [i Hi]%list_elem_of_lookup. specialize (Hgrown i s Hi).
  destruct (HT' i s) as [o Ho]; [by rewrite (tf_specs _ _ _ F)|].
  rewrite (group_pages_at _ _ _ _ _ _ Htab Ho). split.
  - intros k Hk. apply Hgrown. by right.
  - intros Hw k Hk. apply Hgrown in Hk as [[_ Hk]|Hk]; [by apply Hk|apply Hk].
Qed.

(** C13 (type): in every reachable state the tables of a request have the shape of the
    layout: one table for each group in the order of the layout, distinct page indices,
    the pages of a group without window exactly an initial segment, and the remembered
    span of a window exactly its pages. *)
Theorem tables_well_formed h r ts :
  reachable h → h_tables h !! r = Some ts →
  ts.*1 = sp_group_id <$> h_specs h ∧
  ∀ i s t, h_specs h !! i = Some s → ts !! i = Some (sp_group_id s, t) →
    NoDup t.*1 ∧ (is_window s = false → t.*1 ≡ₚ zrange 0 (Z.of_nat (length t))) ∧
    ∀ sp first top, h_spans h !! r = Some sp → sp !! i = Some (Some (first, top)) → t.*1 = zrange first top.
Proof.
  intros Hr%reachable_inv Ht. pose proof (gd_tab _ (si_good _ Hr)) as Hi.
  pose proof (ti_tables _ Hi r ts Ht) as Hok. split; [by apply tables_ok_ids|].
  intros i s t Hs Hti. destruct (Forall2_lookup_lr _ _ _ _ _ _ Hok Hs Hti) as [_ [Hnd Hfull]].
  split; [done|]. split; [done|]. intros sp first top Hsp Hspi.
  destruct (ti_spans _ Hi r ts Ht) as (sp' & Hsp' & Hso). simplify_eq.
  by destruct (so_span _ _ _ Hso i s _ _ Hs Hti Hspi) as (_ & _ & ?).
Qed.

(** C14 (functional): in every reachable state a write into the page store never
    raises; it is refused exactly when the key is stored or the pages of the transfers
    leave too few bytes, its evictions spare every page of a transfer, and the store
    stays accounted for. *)
Theorem reserve_write_admits h k payload :
  reachable h → 0 < payload →
  let s := c_store (h_ext h) in
  ∃ r s', reserve_write k payload s = (Ok r, s') ∧ validate s' = (Ok true, s') ∧
    (r = None ↔ is_Some (st_pages s !! k) ∨ st_capacity s < pinned_bytes s + allocation_bytes payload s) ∧
    ∀ p, p ∈ held (h_ext h) → ∃ o, st_heap s' !! p = Some o ∧ st_pages s' !! pg_key o = Some p.
Proof.
  intros Hr%reachable_inv Hpay s. pose proof (po_pages _ _ (si_pins _ Hr)) as Hi. fold s in Hi.
  destruct (wp_ok_inv _ _ _ (reserve_write_spec (held (h_ext h)) k payload s Hi Hpay)) as (r & s' & Heq & Hpost).
  exists r, s'. split; [done|]. destruct r as [p|].
  - destruct Hpost as (Hi' & _ & _ & Hn & Hle). split; [by eapply validate_ok|]. split.
    + split; [done|]. intros [Hk|Hk]; [by rewrite Hn in Hk; destruct Hk|lia].
    + intros p' Hp'. apply (sv_held _ _ Hi'). by right.
  - destruct Hpost as (Hi' & _ & Hor). split; [by eapply validate_ok|]. split; [done|]. apply (sv_held _ _ Hi').
Qed.
End Theorems.
