(* ===== verification/OffloadWitness.v ===== *)
(** * A concrete run of the grouped cache

    Two layers, four cache groups, a pool of 16 slots.  Request 1 computes a prompt and
    its pages are saved; request 3 fills the pool and is cancelled; request 2 has the
    prompt of request 1 and loads the saved pages.  The theorems are applied to states of
    this run. *)

From stdpp Require Import gmap list list_numbers.
From Stdlib Require Import ZArith Lia.
From S2P Require Import Prelude.
From S2P Require Import Block.
From S2P Require Import PrefixKeys.
From S2P Require Import PyFloat.
From S2P Require Import Request.
From S2P Require Import HybridLayout.
From S2P Require Import HybridState.
From S2P Require Import HybridManager.
From S2P Require Import HybridInv.
From S2P Require Import HybridTables.
From S2P Require Import HybridGrow.
From S2P Require Import HybridEnsure.
From S2P Require Import HybridPlans.
From S2P Require Import HybridAdmit.
From S2P Require Import HybridPublish.
From S2P Require Import HybridExternal.
From S2P Require Import NativeStore.
From S2P Require Import OffloadConnector.
From S2P Require Import OffloadSystem.
From S2P Require Import OffloadLoads.
From S2P Require Import OffloadProbe.
From S2P Require Import OffloadAdmit.
From S2P Require Import OffloadRun.
From S2P Require Import OffloadTheorems.

Open Scope Z_scope.

(** A short digest that evaluates *)
#[local] Instance sum_digest : Digest := λ s, [(foldr N.add 0 s mod 997)%N].

Definition mini_model : ModelSpec :=
  mkModel 2 512 fp8 128 65536 (Some (mkComponents [1; 4] 128 4 32 mxfp4)).

Definition mini_layout : HybridKVLayout :=
  match hybrid_kv_layout mini_model (mkLayoutArgs 256 1024 1 0 0 false) with
  | Ok l => l
  | Raise _ => mkLayout [] 0 0 0 0 0 0
  end.

Definition mini_request (id first : Z) : Request :=
  new_request id 520 8 256 (Some [HInt first; HInt (first + 1); HInt (first + 2)]) None None None.

Definition mini_requests : gmap Z Request :=
  {[1 := mini_request 1 11; 2 := mini_request 2 11; 3 := mini_request 3 21]}.

Definition mini_store : NativePageStore slot_key :=
  match cpu_store (12 * physical_slot_bytes mini_layout) mini_layout with
  | Ok s => s
  | Raise _ => mkStore 0 None ∅ [] 0 0 0 []
  end.

Definition mini_connector : Connector := new_connector kv_both mini_store.

Definition mini_start : system :=
  match new_hybrid mini_requests new_chain_cache mini_connector mini_layout 17 [109%N] f0 with
  | Ok h => h
  | Raise _ => mkHybrid mini_layout [] 0 0 [] (group_spec mini_layout (mkGroup 0 [] false)) [] [] [] ∅ ∅ ∅ ∅ ∅ ∅
      ∅ ∅ 0 0 0 1 0 ∅ ∅ ∅ mini_requests new_chain_cache mini_connector
  end.

#[local] Instance busy_dec c r : Decision (busy c r).
Proof. unfold busy. apply _. Defined.

(** Steps, and the guards of all of them *)
Definition go (ops : list sys_op) (h : system) : system := foldl (λ h o, (perform o h).2) h ops.

Definition allowed_b (o : sys_op) (h : system) : bool :=
  match o with
  | op_allocate r | op_ensure r _ _ | op_append r | op_publish r | op_free r =>
      negb (bool_decide (busy (h_ext h) r))
  | op_admit r _ _ => negb (bool_decide (busy (h_ext h) r)) && negb (req_block_size (hreq h r) =? 0)
  | _ => true
  end.

Fixpoint guards (ops : list sys_op) (h : system) : bool :=
  match ops with
  | [] => true
  | o :: ops => allowed_b o h && guards ops (perform o h).2
  end.

Lemma allowed_b_ok o h : allowed_b o h = true → allowed o h.
Proof.
  destruct o; cbn; try done;
    rewrite ?andb_true_iff, ?negb_true_iff, ?bool_decide_eq_false, ?Z.eqb_neq; done.
Qed.

Lemma reachable_go ops h : reachable h → guards ops h = true → reachable (go ops h).
Proof.
  revert h. induction ops as [|o ops IH]; intros h Hr Hg; [done|].
  cbn in Hg. apply andb_true_iff in Hg as [Ho Hg]. apply IH; [|done].
  apply reachable_step; [done|by apply allowed_b_ok].
Qed.

Lemma mini_started : reachable mini_start.
Proof.
  apply reachable_start. exists mini_model, (mkLayoutArgs 256 1024 1 0 0 false), mini_layout,
    (12 * physical_slot_bytes mini_layout), mini_store, mini_requests, new_chain_cache, kv_both, 17, [109%N], f0.
  split; [done|]. split; [vm_compute; reflexivity|]. split; [vm_compute; reflexivity|].
  vm_compute. reflexivity.
Qed.

Definition computed_to (r n : Z) : sys_op := op_edit r (λ q, q <| num_computed_tokens := n |>).

(** The prompt of request 1 is computed and saved, and its pages leave the pool. *)
Definition saved_ops : list sys_op :=
  [op_allocate 1; computed_to 1 508; op_ensure 1 6 0; computed_to 1 514; op_publish 1;
   op_wait_for_save; op_resume_save 0; op_free 1;
   op_allocate 3; computed_to 3 508; op_ensure 3 6 0; op_cancel 3].

Definition mini_saved : system := go saved_ops mini_start.

(** Request 2 loads them. *)
Definition mini_loading : system := go [op_admit 2 0 false] mini_saved.
Definition mini_loaded : system := go [op_resume_load 0] mini_loading.
Definition mini_cancelled : system := go [op_cancel 2] mini_loading.

Lemma saved_reachable : reachable mini_saved.
Proof. apply reachable_go; [apply mini_started|]. vm_compute. reflexivity. Qed.

Lemma loading_reachable : reachable mini_loading.
Proof. apply reachable_go; [apply saved_reachable|]. vm_compute. reflexivity. Qed.

Lemma loaded_reachable : reachable mini_loaded.
Proof. apply reachable_go; [apply loading_reachable|]. vm_compute. reflexivity. Qed.

Lemma cancelled_reachable : reachable mini_cancelled.
Proof. apply reachable_go; [apply loading_reachable|]. vm_compute. reflexivity. Qed.

(** ** Witnesses *)

Lemma conservation_always_witness :
  c_inflight (h_ext mini_loading) ≠ [] ∧ validate_conservation mini_loading = (Ok true, mini_loading).
Proof.
  split; [vm_compute; discriminate|]. apply (conservation_always mini_loading loading_reachable).
Defined.

Lemma transfers_counted_witness :
  length (pins (h_ext mini_loading)) = 8%nat ∧
  ∀ b, default 0 (h_transfer mini_loading !! b) = occ b (pins (h_ext mini_loading)).
Proof.
  split; [vm_compute; reflexivity|]. apply (transfers_counted mini_loading loading_reachable).
Defined.

Definition ok_value {A} (d : A) (o : outcome A) : A := match o with Ok a => a | Raise _ => d end.

Definition returns {A} (x : outcome A * system) : bool := match x.1 with Ok _ => true | Raise _ => false end.

Lemma returns_ok {A} (d : A) (x : outcome A * system) : returns x = true → x = (Ok (ok_value d x.1), x.2).
Proof. by destruct x as [[a|e] h]. Qed.

Lemma pair_ok {A} (x : outcome A * system) (a : A) h : x.1 = Ok a → x.2 = h → x = (Ok a, h).
Proof. destruct x. by intros [= ->] [= ->]. Qed.

Lemma load_targets_private_witness :
  ∃ l b, l ∈ c_inflight (h_ext mini_loading) ∧ b ∈ (ld_targets l).*2 ∧
    b ∈ slots_of 2 mini_loading ∧ block_hash (hblk mini_loading b) = None.
Proof.
  assert ((λ l, (ld_req l, head (ld_targets l).*2)) <$> c_inflight (h_ext mini_loading) !! 0%nat = Some (2, Some 14%nat))
    as Hl by (vm_compute; reflexivity).
  destruct (c_inflight (h_ext mini_loading) !! 0%nat) as [l|] eqn:Hi; [|discriminate].
  injection Hl as Hr Hb. apply list_elem_of_lookup_2 in Hi.
  assert (14%nat ∈ (ld_targets l).*2) as Hin by (destruct (ld_targets l).*2; [done|injection Hb as ->; left]).
  assert (is_Some (h_tables mini_loading !! ld_req l)) as Ht
    by (rewrite Hr; apply (bool_decide_unpack _); vm_compute; exact I).
  pose proof (load_targets_private mini_loading l 14%nat loading_reachable Hi Ht Hin) as (Hown & Hh & _).
  rewrite Hr in Hown. exists l, 14%nat. split; [exact Hi|]. split; [exact Hin|]. split; [exact Hown|exact Hh].
Defined.

Lemma abandoned_load_publishes_nothing_witness :
  ∃ h', resume_load 0 mini_cancelled = (Ok tt, h') ∧ h_cache h' = h_cache mini_cancelled ∧
    validate_conservation h' = (Ok true, h').
Proof.
  assert (ld_req <$> c_inflight (h_ext mini_cancelled) !! 0%nat = Some 2) as Hr by (vm_compute; reflexivity).
  destruct (c_inflight (h_ext mini_cancelled) !! 0%nat) as [l|] eqn:Hl; [|discriminate]. injection Hr as Hr.
  destruct (abandoned_load_publishes_nothing mini_cancelled 0 l cancelled_reachable Hl) as (h' & Heq & Hc & _ & _ & Hv).
  - right. rewrite Hr. apply eq_None_not_Some. apply (bool_decide_unpack _). vm_compute. exact I.
  - exists h'. split; [exact Heq|]. split; [exact Hc|exact Hv].
Defined.

Lemma transfers_drain_witness :
  ∃ h', drain mini_loading = (Ok tt, h') ∧ ∀ b, h_transfer h' !! b = None.
Proof.
  destruct (transfers_drain mini_loading loading_reachable) as (h' & Heq & _ & Ht & _).
  exists h'. split; [exact Heq|exact Ht].
Defined.

Lemma can_ensure_suffices_witness :
  ∃ h', h_ensure_slots 2 8 0 mini_loaded = (Ok tt, h') ∧
    ∀ s, s ∈ h_specs mini_loaded → ∀ k, first_page 512 s <= k < group_high 520 s → k ∈ group_pages h' 2 s.
Proof.
  assert (num_computed_tokens (hreq mini_loaded 2) = 512) as Hc by (vm_compute; reflexivity).
  assert (slots_end 2 8 0 mini_loaded = 520) as Hs by (vm_compute; reflexivity).
  destruct (can_ensure_suffices 2 8 0 mini_loaded (h_can_ensure_slots 2 8 0 mini_loaded).2 loaded_reachable)
    as (h' & Heq & Hp).
  - apply (bool_decide_unpack _). vm_compute. exact I.
  - apply pair_ok; [vm_compute; reflexivity|exact eq_refl].
  - rewrite Hc, Hs in Hp. exists h'. split; [exact Heq|]. intros s Hin k Hk. exact (proj1 (Hp s Hin) k Hk).
Defined.

Lemma tables_well_formed_witness :
  ∃ ts, h_tables mini_loading !! 2 = Some ts ∧ ts.*1 = [0; 1; 2; 3].
Proof.
  assert (sp_group_id <$> h_specs mini_loading = [0; 1; 2; 3]) as Hids by (vm_compute; reflexivity).
  assert (bool_decide (is_Some (h_tables mini_loading !! 2)) = true) as [ts Ht]%bool_decide_eq_true
    by (vm_compute; reflexivity).
  exists ts. split; [exact Ht|]. destruct (tables_well_formed mini_loading 2 ts loading_reachable Ht) as [Heq _].
  rewrite Heq. exact Hids.
Defined.

Definition new_key : slot_key := (0, LocalKey (mkLocalKey 7 256 0 None []), 0).

(** A page the store does not have yet *)
Lemma reserve_write_admits_witness :
  ∃ p s', reserve_write new_key 1000 (c_store (h_ext mini_saved)) = (Ok (Some p), s') ∧ validate s' = (Ok true, s').
Proof.
  assert (bool_decide (is_Some (st_pages (c_store (h_ext mini_saved)) !! new_key)) = false) as Hn%bool_decide_eq_false
    by (vm_compute; reflexivity).
  assert ((st_capacity (c_store (h_ext mini_saved)) <? pinned_bytes (c_store (h_ext mini_saved)) +
    allocation_bytes 1000 (c_store (h_ext mini_saved))) = false) as Hc%Z.ltb_ge by (vm_compute; reflexivity).
  destruct (reserve_write_admits mini_saved new_key 1000 saved_reachable eq_refl) as (r & s' & Heq & Hv & Hr & _).
  destruct r as [p|]; [exists p, s'; split; [exact Heq|exact Hv]|]. exfalso. destruct Hr as [Hr _]. destruct (Hr eq_refl) as [Hk|Hk]; [exact (Hn Hk)|lia].
Defined.

(** The plan and the stored prefix of request 2 *)
Definition mini_plan : HybridReusePlan := ok_value (mkHybridPlan 0 [] 0 0 false 0 0 [] []) (h_plan_reuse 2 mini_saved).1.
Definition mini_planned : system := (h_plan_reuse 2 mini_saved).2.
Definition mini_found : Z * list (Z * list (Z * stored_page)) := ok_value (0, []) (probe 2 mini_plan mini_planned).1.
Definition mini_probed : system := (probe 2 mini_plan mini_planned).2.

Lemma mini_plan_ok : h_plan_reuse 2 mini_saved = (Ok mini_plan, mini_planned).
Proof. unfold mini_plan, mini_planned. apply returns_ok. vm_compute. reflexivity. Qed.

Lemma mini_probe_ok : probe 2 mini_plan mini_planned = (Ok mini_found, mini_probed).
Proof. unfold mini_found, mini_probed. apply returns_ok. vm_compute. reflexivity. Qed.

Lemma gate_keeps r reserved running p (x : Z * list (Z * list (Z * stored_page))) (h : system) :
  x.2 ≠ [] → (can_admit r reserved running p x h).2 = h.
Proof. intros Hx. unfold can_admit. by destruct x.2. Qed.

Lemma mini_gate_ok : can_admit 2 0 false mini_plan mini_found mini_probed = (Ok true, mini_probed).
Proof.
  apply pair_ok; [vm_compute; reflexivity|]. apply gate_keeps. vm_compute. discriminate.
Qed.

Lemma external_admission_fits_witness :
  mini_found.2 ≠ [] ∧
  ∃ h3, admit_async 2 mini_found mini_probed = (Ok tt, h3) ∧ validate_conservation h3 = (Ok true, h3).
Proof.
  split; [vm_compute; discriminate|].
  apply (external_admission_fits 2 0 false mini_plan mini_found mini_saved mini_planned mini_probed saved_reachable).
  - apply (bool_decide_unpack _). vm_compute. exact I.
  - vm_compute. discriminate.
  - vm_compute. discriminate.
  - vm_compute. reflexivity.
  - apply eq_None_not_Some, (bool_decide_unpack _). vm_compute. exact I.
  - exact mini_plan_ok.
  - exact mini_probe_ok.
  - apply (bool_decide_unpack _). vm_compute. exact I.
  - vm_compute. discriminate.
  - exact mini_gate_ok.
Defined.
