(* ===== verification/HybridFindings.v ===== *)
(** * Two defects of the grouped cache

    [_publish_computed] keeps one publication position per request for all groups
    without a window, so when a layout has two of them the second is never published
    and no prefix of any request can be reused.  Trace keys narrower than a page of a
    window group divide by zero. *)

From stdpp Require Import gmap list list_numbers strings.
From Stdlib Require Import ZArith Lia.
From S2P Require Import Prelude.
From S2P Require Import Block.
From S2P Require Import PrefixKeys.
From S2P Require Import PyFloat.
From S2P Require Import Request.
From S2P Require Import HybridLayout.
From S2P Require Import HybridState.
From S2P Require Import HybridManager.
From S2P Require Import OffloadRun.
From S2P Require Import OffloadWitness.

Open Scope Z_scope.

Section Findings.
Context {X : Type} `{Digest}.
Implicit Types (h : hybrid X).

(** A group without window whose turn comes when the position already is at the end
    of the computed pages publishes nothing, whatever it holds. *)
Theorem later_full_group_skipped callbacks r computed windows keys extra s t ts h :
  is_window s = false → h_tables h !! r = Some ts → dict_get (sp_group_id s) ts = Some t →
  let stop := Z.min (computed / sp_block_tokens s) (Z.of_nat (length keys)) in
  h_cached_progress h !! r = Some stop →
  publish_group callbacks r computed windows keys extra s h = (Ok false, h).
Proof.
  intros Hw Ht Hd stop Hp.
  unfold publish_group, get_table, require, gets, modify, raise, mret, M_ret, mbind, M_bind; cbn.
  rewrite Ht, Hd, Hw; cbn. rewrite Hp; cbn. fold stop. rewrite zrange_nil by lia; cbn.
  rewrite insert_id by done. by destruct h.
Qed.

(** The key of a page wider than the trace's hash blocks raises, once the trace covers
    the page. *)
Theorem narrow_trace_key_raises (size gid bt index : Z) keys h :
  0 < size < bt → 0 <= index → ((index + 1) * bt - 1) / size < Z.of_nat (length keys) →
  sized_slot_key size gid bt index keys h = (Raise ZeroDivisionError, h).
Proof.
  intros Hs Hi Hc. unfold sized_slot_key, require, raise, mret, M_ret, mbind, M_bind. rewrite (proj2 (Z.eqb_neq _ _)) by lia.
  rewrite (proj2 (Z.leb_gt _ _)) by lia.
  set (c := ((index + 1) * bt - 1) / size) in *.
  assert (0 <= c) as H0 by (apply Z.div_pos; nia).
  unfold list_at. rewrite (proj2 (Z.ltb_ge c 0)) by lia. cbv zeta. rewrite (proj2 (Z.ltb_ge c 0)) by lia.
  destruct (lookup_lt_is_Some_2 keys (Z.to_nat c)) as [k Hk]; [lia|].
  cbn. rewrite Hk. cbn. rewrite (Z.div_small size bt) by lia. by rewrite orb_true_r.
Qed.
End Findings.

(** ** A layout with two full groups *)

#[local] Existing Instance sum_digest.

(** The index keys and the compressed pages of its layers have the same size. *)
Definition even_model : ModelSpec :=
  mkModel 4 72 fp8 128 65536 (Some (mkComponents [4; 4; 4; 4] 128 4 32 mxfp4)).

Definition even_layout : HybridKVLayout :=
  match hybrid_kv_layout even_model (mkLayoutArgs 256 1024 1 0 0 false) with
  | Ok l => l
  | Raise _ => mini_layout
  end.

Definition even_start : hybrid unit :=
  match new_hybrid mini_requests new_chain_cache tt even_layout 65 [109%N] f0 with
  | Ok h => h
  | Raise _ => mkHybrid even_layout [] 0 0 [] (group_spec even_layout (mkGroup 0 [] false)) [] [] [] ∅ ∅ ∅ ∅ ∅ ∅
      ∅ ∅ 0 0 0 1 0 ∅ ∅ ∅ mini_requests new_chain_cache tt
  end.

(** Request 1 computes and publishes its whole prompt; request 2 has the same prompt. *)
Definition even_published : hybrid unit :=
  ((h_allocate 1 ;; set_hreq 1 (λ q, q <| num_computed_tokens := 508 |>) ;; h_ensure_slots 1 6 0 ;;
   set_hreq 1 (λ q, q <| num_computed_tokens := 514 |>) ;; h_cache_computed [] 1) even_start).2.

(** Pages of group 0 are published, those of group 1 are not, and the plan of request 2
    reuses nothing. *)
Example full_groups_never_reused :
  (λ g, (group_id g, group_kind g)) <$> take 2 (groups even_layout) = [(0, Some Full); (1, Some Full)] ∧
  length (filter (λ x, x.1.1.1 = 0) (map_to_list (h_cache even_published))) = 2%nat ∧
  length (filter (λ x, x.1.1.1 = 1) (map_to_list (h_cache even_published))) = 0%nat ∧
  match (h_plan_reuse 2 even_published).1 with Ok plan => hp_hit_tokens plan | Raise _ => -1 end = 0.
Proof. vm_compute. done. Qed.
