(* ===== verification/AfNodes.v ===== *)
(** * Execution nodes of attention-FFN plans
      ([TokenSim/af/planning/nodes.py], [TokenSim/af/providers/queries.py])

    A layer of a model whose attention and FFN run on different devices is a graph of
    [ExecutionNode]s.  Identifiers are strings, the literal types are inductives, so
    the tests that a value is one of the literals have no counterpart.  Python
    compares the weights 0.0 and -0.0 as equal; here an edge is equal to another when
    its weight is the same float. *)

From stdpp Require Import gmap list strings.
From Stdlib Require Import ZArith Lia.
From Stdlib Require Import SpecFloat.
From S2P Require Import Prelude.
From S2P Require Import PyFloat.

Open Scope Z_scope.

(** ** Literals *)

Inductive ForwardPhase := prefill | decode.

Inductive AFLayerType := dense | moe.

Inductive AFTensorLayout := sharded | replicated | partial.

Inductive NodeKind := compute | communication.

Inductive ExecutionStage :=
  | stage_a | router | expert | attention | dense_ffn | routed_expert | shared_expert
  | weighted_combine | residual | cast | encode_stage | decode_stage | layout.

#[global] Instance ForwardPhase_eq_dec : EqDecision ForwardPhase.
Proof. solve_decision. Defined.
#[global] Instance AFLayerType_eq_dec : EqDecision AFLayerType.
Proof. solve_decision. Defined.
#[global] Instance AFTensorLayout_eq_dec : EqDecision AFTensorLayout.
Proof. solve_decision. Defined.
#[global] Instance NodeKind_eq_dec : EqDecision NodeKind.
Proof. solve_decision. Defined.
#[global] Instance ExecutionStage_eq_dec : EqDecision ExecutionStage.
Proof. solve_decision. Defined.
#[global] Instance pyfloat_eq_dec : EqDecision pyfloat.
Proof. unfold pyfloat. solve_decision. Defined.

(** ** Records *)

Record AFRoutingEdge := mkEdge {
  ed_iteration_id : Z;
  ed_phase : ForwardPhase;
  ed_decode_step : Z;
  ed_layer_id : Z;
  ed_request_id : Z;
  ed_token_id : Z;
  ed_top_k_index : Z;
  ed_expert_id : Z;
  ed_routing_weight : pyfloat;
  ed_a_dp_rank : Z;
  ed_a_tp_rank : Z;
}.

#[global] Instance AFRoutingEdge_eq_dec : EqDecision AFRoutingEdge.
Proof. solve_decision. Defined.

Definition nonneg (z : Z) : bool := 0 <=? z.

(** A field that is absent or a non-negative integer *)
Definition opt_nonneg (z : option Z) : bool := match z with Some z => nonneg z | None => true end.

(** [math.isfinite(weight) and weight >= 0] *)
Definition valid_weight (w : pyfloat) : bool :=
  match w with
  | S754_zero _ => true
  | S754_finite s _ _ => negb s
  | _ => false
  end.

Definition valid_edge (e : AFRoutingEdge) : bool :=
  forallb nonneg [ed_iteration_id e; ed_decode_step e; ed_layer_id e; ed_request_id e;
    ed_token_id e; ed_top_k_index e; ed_expert_id e; ed_a_dp_rank e; ed_a_tp_rank e] &&
  valid_weight (ed_routing_weight e).

Record AFEndpoint := mkEndpoint {
  ep_domain : string;
  ep_domain_rank : Z;
  ep_physical_worker : string;
  ep_device_type : string;
  ep_dp_rank : Z;
  ep_tp_rank : Z;
  ep_ep_rank : Z;
}.

#[global] Instance AFEndpoint_eq_dec : EqDecision AFEndpoint.
Proof. solve_decision. Defined.

Definition nonempty (s : string) : bool := negb (bool_decide (s = "")).

Definition valid_endpoint (e : AFEndpoint) : bool :=
  forallb nonempty [ep_domain e; ep_physical_worker e; ep_device_type e] &&
  forallb nonneg [ep_domain_rank e; ep_dp_rank e; ep_tp_rank e; ep_ep_rank e].

Record AFTensorSlice := mkSlice {
  sl_tensor_item_id : string;
  sl_interval : Z * Z;
  sl_layout : AFTensorLayout;
  sl_owner_domain : option string;
  sl_owner_domain_rank : option Z;
  sl_owner_dp_rank : option Z;
  sl_owner_tp_rank : option Z;
  sl_owner_physical_worker : option string;
  sl_partial_id : option string;
  sl_canonical_producer : option string;
  sl_routing_weight : option pyfloat;
  sl_element_count : option Z;
  sl_payload_bytes : option Z;
}.

#[global] Instance AFTensorSlice_eq_dec : EqDecision AFTensorSlice.
Proof. solve_decision. Defined.

Definition valid_slice (s : AFTensorSlice) : bool :=
  nonempty (sl_tensor_item_id s) &&
  ((0 <=? (sl_interval s).1) && ((sl_interval s).1 <? (sl_interval s).2)) &&
  forallb opt_nonneg [sl_owner_domain_rank s; sl_owner_dp_rank s; sl_owner_tp_rank s] &&
  forallb opt_nonneg [sl_element_count s; sl_payload_bytes s] &&
  match sl_routing_weight s with Some w => valid_weight w | None => true end.

Record RankLocalWork := mkWork {
  wk_token_count : Z;
  wk_tensor_shape : list (string * Z);
  wk_expert_ids : list Z;
  wk_expert_workload : list (Z * Z);
  wk_original_token_count : option Z;
  wk_assignment_count : option Z;
  wk_input_edge_count : option Z;
  wk_output_token_count : option Z;
  wk_tensor_slices : list AFTensorSlice;
  wk_owner_endpoint : option AFEndpoint;
  wk_source_layout : option AFTensorLayout;
  wk_target_layout : option AFTensorLayout;
  wk_routing_edges : list AFRoutingEdge;
  wk_source_dtype : option string;
  wk_target_dtype : option string;
}.

#[global] Instance RankLocalWork_eq_dec : EqDecision RankLocalWork.
Proof. solve_decision. Defined.

Definition valid_work (w : RankLocalWork) : bool :=
  nonneg (wk_token_count w) &&
  forallb opt_nonneg [wk_original_token_count w; wk_assignment_count w; wk_input_edge_count w;
    wk_output_token_count w].

(** The values the planner stores in [metadata] *)
Inductive meta_value :=
  | MetaNone
  | MetaBool (b : bool)
  | MetaInt (z : Z)
  | MetaStr (s : string)
  | MetaIds (ids : list string).

#[global] Instance meta_value_eq_dec : EqDecision meta_value.
Proof. solve_decision. Defined.

(** [bool(value)] *)
Definition truthy (v : meta_value) : bool :=
  match v with
  | MetaNone => false
  | MetaBool b => b
  | MetaInt z => negb (z =? 0)
  | MetaStr s => nonempty s
  | MetaIds ids => match ids with [] => false | _ => true end
  end.

Record ExecutionNode := mkNode {
  node_id : string;
  operation : string;
  kind : NodeKind;
  predecessor_ids : list string;
  stage : option ExecutionStage;
  direction : option string;
  source_domain : string;
  target_domain : string;
  logical_participants : list string;
  domain_ranks : list Z;
  physical_workers : list string;
  dp_rank : Z;
  tp_rank : option Z;
  ep_rank : option Z;
  tp_group : list Z;
  ep_group : list Z;
  local_work : option RankLocalWork;
  network : option string;
  resource_group : option string;
  resource_lane : option string;
  payload_bytes : option Z;
  logical_input_bytes_per_rank : list (Z * Z);
  logical_output_bytes_per_rank : list (Z * Z);
  layer_type : option AFLayerType;
  logical_stage_id : option string;
  leg_id : option string;
  source_endpoint : option AFEndpoint;
  target_endpoint : option AFEndpoint;
  participant_endpoints : list AFEndpoint;
  input_producer_ids : list (string * string);
  tensor_slices : list AFTensorSlice;
  source_layout : option AFTensorLayout;
  target_layout : option AFTensorLayout;
  metadata : gmap string meta_value;
  routing_edges : list AFRoutingEdge;
}.

#[global] Instance eta_node : Eta ExecutionNode := λ n,
  mkNode (node_id n) (operation n) (kind n) (predecessor_ids n) (stage n) (direction n)
    (source_domain n) (target_domain n) (logical_participants n) (domain_ranks n)
    (physical_workers n) (dp_rank n) (tp_rank n) (ep_rank n) (tp_group n) (ep_group n)
    (local_work n) (network n) (resource_group n) (resource_lane n) (payload_bytes n)
    (logical_input_bytes_per_rank n) (logical_output_bytes_per_rank n) (layer_type n)
    (logical_stage_id n) (leg_id n) (source_endpoint n) (target_endpoint n)
    (participant_endpoints n) (input_producer_ids n) (tensor_slices n) (source_layout n)
    (target_layout n) (metadata n) (routing_edges n).

#[global] Instance ExecutionNode_eq_dec : EqDecision ExecutionNode.
Proof. solve_decision. Defined.

(** [metadata.get(key)] as a condition *)
Definition flagged (key : string) (n : ExecutionNode) : bool :=
  match metadata n !! key with Some v => truthy v | None => false end.

(** ** Checks of the constructor *)

Definition distinct `{EqDecision A} (l : list A) : bool := bool_decide (NoDup l).

(** [ExecutionNode.__post_init__] *)
Definition valid_node (n : ExecutionNode) : bool :=
  nonempty (node_id n) && nonempty (operation n) &&
  match kind n with
  | compute => bool_decide (length (physical_workers n) = 1%nat) && bool_decide (is_Some (stage n))
  | communication => true
  end &&
  match logical_stage_id n with Some s => nonempty s | None => true end &&
  opt_nonneg (payload_bytes n) &&
  match input_producer_ids n with
  | [] => negb (flagged "collective_input_binding_required" n)
  | bindings =>
      bool_decide (kind n = communication) &&
      bool_decide (bindings.*1 = physical_workers n) && distinct bindings.*1 &&
      forallb (λ b, bool_decide (b.2 ∈ predecessor_ids n)) bindings
  end.
