(* ===== verification/AfDag.v ===== *)
(** * Checks of an execution graph
      ([TokenSim/af/planning/dag.py], [TokenSim/af/planning/reuse_validation.py])

    [make_dag] is the constructor of [AFExecutionDAG]: the structure of the graph, then
    what a layer must do at run time.  Sets that are only compared or counted are lists
    without regard to order and repetition. *)

From stdpp Require Import gmap list strings.
From Stdlib Require Import ZArith Lia Ascii.
From S2P Require Import Prelude.
From S2P Require Import AfNodes.

Open Scope Z_scope.

(** ** Conditions *)

(** [if not b: raise ConfigurationError] *)
Definition expect (b : bool) : outcome unit := if b then Ok tt else Raise ConfigurationError.

(** [for x in l: body(x)] *)
Fixpoint each {A} (l : list A) (body : A → outcome unit) : outcome unit :=
  match l with
  | [] => Ok tt
  | x :: l => body x ;; each l body
  end.

(** [l[0]] *)
Definition first {A} (l : list A) : outcome A :=
  match l with x :: _ => Ok x | [] => Raise IndexError end.

Section Sets.
Context {A : Type} `{EqDecision A}.

Definition subset (l k : list A) : bool := forallb (λ x, bool_decide (x ∈ k)) l.

(** [set(l) == set(k)] *)
Definition same_set (l k : list A) : bool := subset l k && subset k l.

(** The element of [set(l)], unless it has none or several *)
Definition single (l : list A) : outcome A :=
  match remove_dups l with [x] => Ok x | _ => Raise ConfigurationError end.
End Sets.

(** ** Structure *)

Section Structure.
Implicit Types (nodes : list ExecutionNode) (n : ExecutionNode).

(** The loop over the nodes: every predecessor is the node of an earlier turn. *)
Fixpoint check_order (all_ids known : list string) nodes : outcome unit :=
  match nodes with
  | [] => Ok tt
  | n :: nodes =>
      expect (distinct (predecessor_ids n)) ;;
      expect (subset (predecessor_ids n) all_ids) ;;
      expect (subset (predecessor_ids n) known) ;;
      check_order all_ids (known ++ [node_id n]) nodes
  end.

Definition referenced nodes : list string := nodes ≫= predecessor_ids.

(** [sink_ids] *)
Definition sinks nodes : list string := filter (λ i, i ∉ referenced nodes) (node_id <$> nodes).

Definition check_terminals (ids sink_ids supplied : list string) : outcome unit :=
  match supplied with
  | [] => Ok tt
  | _ =>
      expect (distinct supplied) ;;
      expect (subset supplied ids) ;;
      expect (same_set supplied sink_ids)
  end.

Definition check_structure nodes (supplied : list string) : outcome (list string) :=
  let ids := node_id <$> nodes in
  expect (negb (bool_decide (nodes = []))) ;;
  expect (distinct ids) ;;
  check_order ids [] nodes ;;
  check_terminals ids (sinks nodes) supplied ;;
  Ok (sinks nodes).
End Structure.

(** ** Selections of nodes *)

Section Select.
Implicit Types (nodes : list ExecutionNode) (n : ExecutionNode).

(** [by_id[key]]; the last node of a repeated id wins *)
Definition by_id nodes (key : string) : outcome ExecutionNode :=
  match last (filter (λ n, node_id n = key) nodes) with
  | Some n => Ok n
  | None => Raise KeyError
  end.

Definition at_stage (s : ExecutionStage) nodes : list ExecutionNode :=
  filter (λ n, stage n = Some s) nodes.

Definition with_operation (operations : list string) nodes : list ExecutionNode :=
  filter (λ n, operation n ∈ operations) nodes.

Definition transfers : list string := ["af_a_to_f"; "af_f_to_a"].

(** [{node.domain_ranks[0] for node in nodes}] *)
Definition owner_ranks nodes : outcome (list Z) := mapM (λ n, first (domain_ranks n)) nodes.

Definition owner_workers nodes : outcome (list string) := mapM (λ n, first (physical_workers n)) nodes.

(** A work item that processes and produces the original tokens *)
Definition whole_work (original : Z) n : bool :=
  match local_work n with
  | None => false
  | Some w => (wk_token_count w =? original) &&
      bool_decide (wk_original_token_count w = Some original) &&
      bool_decide (wk_output_token_count w = Some original)
  end.
End Select.

(** ** Reuse of local dense replicas *)

Section Reuse.
Implicit Types (nodes attention reuse : list ExecutionNode) (n : ExecutionNode).

Definition reuse_flag : string := "colocated_dense_reuse".

(** [item.rsplit(":", 1)[0]] *)
Fixpoint has_colon (s : string) : bool :=
  match s with
  | EmptyString => false
  | String c s => bool_decide (c = ":"%char) || has_colon s
  end.

Fixpoint before_last_colon (s : string) : string :=
  match s with
  | EmptyString => EmptyString
  | String c s =>
      if bool_decide (c = ":"%char) && negb (has_colon s) then EmptyString
      else String c (before_last_colon s)
  end.

Definition sum_or_raise (l : list (option Z)) : outcome Z :=
  foldr (λ x acc, match x with Some z => s ← acc; Ok (z + s) | None => Raise TypeError end) (Ok 0) l.

(** One of the two stages of the branch: every attention rank exactly once *)
Definition check_branch nodes reuse (physical : list string) (count : nat) (s : ExecutionStage) :
    outcome unit :=
  let branch := at_stage s reuse in
  expect (bool_decide (length branch = count)) ;;
  workers ← owner_workers branch;
  expect (same_set workers physical) ;;
  expect (forallb (λ n, bool_decide (n ∈ branch)) (at_stage s nodes)).

(** The reduction that made the replica complete *)
Definition check_all_reduce nodes (upstream : ExecutionNode) (physical : list string) (count : nat)
    (full_bytes : Z) (expected : ExecutionStage) : outcome unit :=
  expect (bool_decide (operation upstream = "all_reduce") &&
    bool_decide (source_layout upstream = Some partial) &&
    bool_decide (target_layout upstream = Some replicated) &&
    same_set (physical_workers upstream) physical &&
    bool_decide (payload_bytes upstream = Some full_bytes) &&
    bool_decide (length (logical_output_bytes_per_rank upstream) = count) &&
    forallb (λ x, x.2 =? full_bytes) (logical_output_bytes_per_rank upstream)) ;;
  inputs ← mapM (by_id nodes) (predecessor_ids upstream);
  expect (bool_decide (length inputs = count) &&
    forallb (λ n, bool_decide (stage n = Some expected)) inputs) ;;
  workers ← owner_workers inputs;
  expect (same_set workers physical) ;;
  expect (bool_decide (
    (list_to_map (reverse (input_producer_ids upstream)) : gmap string string) =
    list_to_map (reverse (zip workers (node_id <$> inputs))))).

(** The domain and rank that own the producer's replica at [endpoint] *)
Definition replica_owner (producer : ExecutionNode) (endpoint : string) : outcome (string * Z) :=
  match kind producer with
  | communication =>
      match filter (λ e, ep_physical_worker e = endpoint) (participant_endpoints producer) with
      | [owner] => Ok (ep_domain owner, ep_domain_rank owner)
      | _ => Raise ConfigurationError
      end
  | compute =>
      rank ← first (domain_ranks producer);
      Ok (source_domain producer, rank)
  end.

Definition whole_slice (width : Z) (endpoint : string) (owner : string * Z) (item : AFTensorSlice) : bool :=
  bool_decide (sl_layout item = replicated) && bool_decide (sl_interval item = (0, width)) &&
  bool_decide (sl_element_count item = Some width) &&
  bool_decide (sl_owner_physical_worker item = Some endpoint) &&
  bool_decide (sl_canonical_producer item = Some endpoint) &&
  bool_decide (sl_owner_domain item = Some owner.1) &&
  bool_decide (sl_owner_domain_rank item = Some owner.2).

(** The layouts and the hidden width of a consumer *)
Definition check_layouts n (work : RankLocalWork) (count : nat) : outcome Z :=
  let shape : gmap string Z := list_to_map (reverse (wk_tensor_shape work)) in
  width ← (match shape !! "global_hidden_size" with
           | Some width => if width =? 0 then Raise ConfigurationError else Ok width
           | None => Raise ConfigurationError
           end);
  expect (bool_decide (shape !! "hidden_size" = Some width)) ;;
  expect (bool_decide (source_layout n = Some replicated) &&
    bool_decide (wk_source_layout work = Some replicated)) ;;
  let target := if bool_decide (stage n = Some dense_ffn) && (1 <? count)%nat
                then partial else replicated in
  expect (bool_decide (target_layout n = Some target) &&
    bool_decide (wk_target_layout work = Some target)) ;;
  Ok width.

(** The node a consumer's input comes from, and the stage that must have made it *)
Definition upstream_of nodes n (producer : ExecutionNode) (endpoint : string) :
    outcome (ExecutionNode * ExecutionStage) :=
  if bool_decide (stage n = Some dense_ffn) then
    expect (bool_decide (operation producer = "post_attention_norm") &&
      bool_decide (physical_workers producer = [endpoint])) ;;
    expect (bool_decide (length (predecessor_ids producer) = 1%nat)) ;;
    id ← first (predecessor_ids producer);
    upstream ← by_id nodes id;
    Ok (upstream, attention)
  else Ok (producer, dense_ffn).

(** One consumer; returns the tokens its slices name *)
Definition check_consumer nodes (physical : list string) (count : nat) n : outcome (list string) :=
  match kind n, local_work n with
  | compute, Some work =>
      expect (bool_decide (length (predecessor_ids n) = 1%nat)) ;;
      id ← first (predecessor_ids n);
      producer ← by_id nodes id;
      endpoint ← first (physical_workers n);
      width ← check_layouts n work count;
      '(upstream, expected) ← upstream_of nodes n producer endpoint;
      (if (1 <? count)%nat then
         full_bytes ← sum_or_raise (sl_payload_bytes <$> tensor_slices n);
         check_all_reduce nodes upstream physical count full_bytes expected
       else expect (bool_decide (stage upstream = Some expected) &&
              bool_decide (physical_workers upstream = [endpoint]))) ;;
      owner ← replica_owner producer endpoint;
      expect (bool_decide (tensor_slices n = wk_tensor_slices work) &&
        (Z.of_nat (length (tensor_slices n)) =? wk_token_count work)) ;;
      expect (forallb (whole_slice width endpoint owner) (tensor_slices n) &&
        distinct (sl_tensor_item_id <$> tensor_slices n)) ;;
      Ok (before_last_colon <$> (sl_tensor_item_id <$> tensor_slices n))
  | _, _ => Raise ConfigurationError
  end.

Definition validate_dense_reuse nodes : outcome unit :=
  let attention_nodes := at_stage attention nodes in
  let count := length attention_nodes in
  let reuse := filter (λ n, flagged reuse_flag n = true) nodes in
  expect (forallb (λ n, bool_decide (layer_type n = Some dense)) nodes) ;;
  expect (bool_decide (with_operation transfers nodes = [])) ;;
  expect (bool_decide (with_operation ["all_gather"] nodes = [])) ;;
  physical ← owner_workers attention_nodes;
  check_branch nodes reuse physical count dense_ffn ;;
  check_branch nodes reuse physical count residual ;;
  expect (bool_decide (length reuse = (2 * count)%nat)) ;;
  token_sets ← mapM (check_consumer nodes physical count) reuse;
  expect (match token_sets with
          | [] => true
          | tokens :: rest => forallb (same_set tokens) rest
          end).
End Reuse.

(** ** What a layer does at run time *)

Section Semantics.
Implicit Types (nodes combine : list ExecutionNode) (n : ExecutionNode).

(** [_key] of a physical copy *)
Definition copy_keys n :=
  (λ s, (logical_stage_id n, direction n, source_endpoint n, target_endpoint n,
         sl_tensor_item_id s, sl_interval s, sl_partial_id s)) <$> tensor_slices n.

(** Attention runs in one domain and agrees on the number of tokens; the residual runs
    once on every rank of it: the domain, its ranks and the tokens. *)
Definition check_attention nodes : outcome (string * list Z * Z) :=
  let attention_nodes := at_stage attention nodes in
  expect (negb (bool_decide (attention_nodes = []))) ;;
  a_domain ← single (source_domain <$> attention_nodes);
  count ← single (wk_original_token_count <$> omap local_work attention_nodes);
  original ← (match count with Some c => Ok c | None => Raise ConfigurationError end);
  let residual_nodes := at_stage residual nodes in
  expect (forallb (λ n, bool_decide (source_domain n = a_domain) &&
    bool_decide (target_domain n = a_domain)) residual_nodes) ;;
  attention_ranks ← owner_ranks attention_nodes;
  residual_ranks ← owner_ranks residual_nodes;
  expect (same_set residual_ranks attention_ranks && distinct residual_ranks) ;;
  expect (forallb (whole_work original) residual_nodes) ;;
  Ok (a_domain, attention_ranks, original).

Definition check_terminal nodes (a_domain : string) (id : string) : outcome unit :=
  terminal ← by_id nodes id;
  expect (bool_decide (source_domain terminal = a_domain) &&
    bool_decide (target_domain terminal = a_domain)) ;;
  expect (bool_decide (stage terminal = Some residual) || bool_decide (stage terminal = Some layout) ||
    bool_decide (operation terminal = "all_gather")).

(** One logical stage for each direction of the transfers *)
Definition check_transfer_stage nodes (op : string) : outcome unit :=
  id ← single (logical_stage_id <$> with_operation [op] nodes);
  expect (bool_decide (is_Some id)).

(** ** Mixture of experts *)

(** [pending] is the stack, its top first; every turn either drops the top or sees a
    node for the first time. *)
Fixpoint ancestors nodes (fuel : nat) (pending seen : list string) : outcome (list string) :=
  match pending, fuel with
  | [], _ => Ok seen
  | _, O => Ok seen
  | parent :: pending, S fuel =>
      if bool_decide (parent ∈ seen) then ancestors nodes fuel pending seen
      else
        n ← by_id nodes parent;
        ancestors nodes fuel (reverse (predecessor_ids n) ++ pending) (parent :: seen)
  end.

Definition ancestor_fuel nodes n : nat :=
  (length (predecessor_ids n) + length (referenced nodes))%nat.

Definition ancestors_of nodes n : outcome (list string) :=
  ancestors nodes (ancestor_fuel nodes n) (reverse (predecessor_ids n)) [].

Definition routed_edges n : list AFRoutingEdge :=
  match local_work n with Some w => wk_routing_edges w | None => [] end.

Definition check_routed n : outcome unit :=
  match local_work n with
  | None => Raise ConfigurationError
  | Some w =>
      expect (bool_decide (wk_assignment_count w = Some (Z.of_nat (length (wk_routing_edges w))))) ;;
      expect (distinct (wk_routing_edges w)) ;;
      expect (forallb (λ e, bool_decide (ed_expert_id e ∈ wk_expert_ids w)) (wk_routing_edges w))
  end.

(** [edge_consumers[edge]] *)
Definition consumers (routed_nodes : list ExecutionNode) (e : AFRoutingEdge) : list ExecutionNode :=
  filter (λ n, e ∈ routed_edges n) routed_nodes.

(** One assignment: once on every rank of one tensor-parallel group *)
Definition check_consumers (routed_nodes : list ExecutionNode) (e : AFRoutingEdge) : outcome unit :=
  group ← single (tp_group <$> consumers routed_nodes e);
  ranks ← owner_ranks (consumers routed_nodes e);
  expect (distinct ranks && same_set ranks group).

Definition check_shared (shared_nodes : list ExecutionNode) (original : Z) : outcome unit :=
  match shared_nodes with
  | [] => Ok tt
  | _ =>
      ranks ← owner_ranks shared_nodes;
      group ← single (tp_group <$> shared_nodes);
      expect (distinct ranks) ;;
      expect (same_set ranks group) ;;
      expect (forallb (whole_work original) shared_nodes)
  end.

Definition f_combine : string := "f_weighted_combine".

(** A combine on the F side precedes every return of hidden states. *)
Definition check_combine_domain nodes combine (router_node : ExecutionNode) (a_domain : string) n :
    outcome unit :=
  let on_f := bool_decide (operation n = f_combine) in
  let expected := if on_f then source_domain router_node else a_domain in
  expect (bool_decide (source_domain n = expected)) ;;
  if on_f then
    expect (negb (bool_decide (expected = a_domain)) && bool_decide (length combine = 1%nat)) ;;
    each (with_operation ["af_f_to_a"] nodes) (λ transfer,
      seen ← ancestors_of nodes transfer;
      expect (bool_decide (node_id n ∈ seen)))
  else Ok tt.

Definition combine_work (original : Z) (edges : list AFRoutingEdge) (input_edges : Z) n : bool :=
  match local_work n with
  | None => false
  | Some w =>
      bool_decide (wk_original_token_count w = Some original) &&
      bool_decide (wk_assignment_count w = Some (Z.of_nat (length edges))) &&
      bool_decide (wk_input_edge_count w = Some input_edges) &&
      bool_decide (wk_output_token_count w = Some original) &&
      bool_decide (length (wk_routing_edges w) = length edges) &&
      same_set (wk_routing_edges w) edges
  end.

Definition check_combine nodes (router_node : ExecutionNode) (a_domain : string)
    (attention_ranks : list Z) (original : Z) (edges : list AFRoutingEdge) (shared : bool) : outcome unit :=
  let combine := at_stage weighted_combine nodes in
  ranks ← owner_ranks combine;
  expected ← (if negb (bool_decide (combine = [])) &&
                 forallb (λ n, bool_decide (operation n = f_combine)) combine
              then rank ← first (domain_ranks router_node); Ok [rank]
              else Ok attention_ranks);
  expect (same_set ranks expected && distinct ranks) ;;
  each combine (check_combine_domain nodes combine router_node a_domain) ;;
  let input_edges := Z.of_nat (length edges) + if shared then original else 0 in
  expect (forallb (combine_work original edges input_edges) combine).

Definition check_moe nodes (a_domain : string) (attention_ranks : list Z) (original : Z) : outcome unit :=
  match at_stage router nodes with
  | [router_node] =>
      work ← (match local_work router_node with Some w => Ok w | None => Raise ConfigurationError end);
      expect (bool_decide (wk_original_token_count work = Some original)) ;;
      let edges := wk_routing_edges work in
      expect (distinct edges) ;;
      expect (bool_decide (wk_assignment_count work = Some (Z.of_nat (length edges)))) ;;
      let routed_nodes := at_stage routed_expert nodes in
      let consumed := routed_nodes ≫= routed_edges in
      each routed_nodes check_routed ;;
      expect (same_set consumed edges) ;;
      each (remove_dups consumed) (check_consumers routed_nodes) ;;
      let shared_nodes := at_stage shared_expert nodes in
      check_shared shared_nodes original ;;
      check_combine nodes router_node a_domain attention_ranks original edges
        (negb (bool_decide (shared_nodes = [])))
  | _ => Raise ConfigurationError
  end.

(** ** The constructor *)

Definition moe_only (s : ExecutionStage) : bool :=
  match s with
  | router | routed_expert | shared_expert | weighted_combine => true
  | _ => false
  end.

Definition validate_runtime_semantics nodes (terminal_ids : list string) : outcome unit :=
  let runtime_nodes := filter (λ n, is_Some (layer_type n)) nodes in
  if bool_decide (runtime_nodes = []) then Ok tt
  else
    expect (bool_decide (length runtime_nodes = length nodes)) ;;
    lt ← single (layer_type <$> runtime_nodes);
    '(a_domain, attention_ranks, original) ← check_attention runtime_nodes;
    each terminal_ids (check_terminal runtime_nodes a_domain) ;;
    expect (distinct (with_operation transfers runtime_nodes ≫= copy_keys)) ;;
    (if existsb (flagged reuse_flag) runtime_nodes then validate_dense_reuse runtime_nodes
     else each transfers (check_transfer_stage runtime_nodes)) ;;
    if bool_decide (lt = Some dense) then
      expect (forallb (λ n, match stage n with Some s => negb (moe_only s) | None => true end) runtime_nodes)
    else check_moe runtime_nodes a_domain attention_ranks original.
End Semantics.

Record AFExecutionDAG := mkDag {
  dag_nodes : list ExecutionNode;
  terminal_node_ids : list string;
}.

(** [AFExecutionDAG.__post_init__] *)
Definition make_dag (nodes : list ExecutionNode) (supplied : list string) : outcome AFExecutionDAG :=
  sink_ids ← check_structure nodes supplied;
  validate_runtime_semantics nodes sink_ids ;;
  Ok (mkDag nodes sink_ids).

Definition final_node_id (d : AFExecutionDAG) : outcome string :=
  match terminal_node_ids d with [id] => Ok id | _ => Raise ConfigurationError end.
