(* ===== verification/AfGraph.v ===== *)
(** * What the checks of an execution graph establish

    The checks of [AfDag] as propositions: the order of the nodes, the terminals, the
    ancestors of a node, and for a mixture of experts that every routing assignment is
    consumed once on every rank of its expert's group. *)

From stdpp Require Import gmap list strings relations.
From Stdlib Require Import ZArith Lia.
From S2P Require Import Prelude.
From S2P Require Import AfNodes.
From S2P Require Import AfDag.

Open Scope Z_scope.

(** ** Outcomes *)

Lemma bind_Ok {A B} (m : outcome A) (k : A → outcome B) b : m ≫= k = Ok b ↔ ∃ a, m = Ok a ∧ k a = Ok b.
Proof. destruct m as [a|e]; cbn; naive_solver. Qed.

Lemma expect_Ok b x : expect b = Ok x ↔ b = true.
Proof. destruct b, x; done. Qed.

Lemma each_Ok {A} (l : list A) body : each l body = Ok tt ↔ ∀ x, x ∈ l → body x = Ok tt.
Proof.
  induction l as [|x l IH]; cbn [each]; [set_solver|]. rewrite bind_Ok. split.
  - intros ([] & Hx & Hl) y [->|Hy]%elem_of_cons; [done|]. by apply IH.
  - intros Hall. exists tt. split; [apply Hall; left|]. apply IH. intros y Hy. apply Hall. by right.
Qed.

Lemma mapM_Ok {A B} (f : A → outcome B) l k : mapM f l = Ok k ↔ Forall2 (λ x y, f x = Ok y) l k.
Proof.
  revert k. induction l as [|x l IH]; intros k; cbn.
  { split; [by intros [= <-]|]. by intros ->%Forall2_nil_inv_l. }
  rewrite bind_Ok. split.
  - intros (y & Hy & (ys & Hys & [= <-])%bind_Ok). constructor; [done|]. by apply IH.
  - intros (y & ys & Hy & Hys & ->)%Forall2_cons_inv_l. exists y. split; [done|]. rewrite bind_Ok.
    exists ys. split; [by apply IH|done].
Qed.

Lemma mapM_total {A B} (f : A → outcome B) l : (∀ x, x ∈ l → ∃ y, f x = Ok y) → ∃ k, mapM f l = Ok k.
Proof.
  induction l as [|x l IH]; intros Hall; [by exists []|].
  destruct (Hall x (list_elem_of_here _ _)) as [y Hy]. destruct IH as [k Hk]; [set_solver|].
  exists (y :: k). cbn. rewrite Hy. cbn. by rewrite Hk.
Qed.

Section Sets.
Context {A : Type} `{EqDecision A}.
Implicit Types (l k : list A).

Lemma subset_true l k : subset l k = true ↔ ∀ x, x ∈ l → x ∈ k.
Proof.
  unfold subset. rewrite forallb_forall. split; intros Hall x Hx.
  - apply list_elem_of_In in Hx. apply Hall in Hx. by apply bool_decide_eq_true in Hx.
  - apply bool_decide_eq_true, Hall. by apply list_elem_of_In.
Qed.

Lemma same_set_true l k : same_set l k = true ↔ ∀ x, x ∈ l ↔ x ∈ k.
Proof. unfold same_set. rewrite andb_true_iff, !subset_true. naive_solver. Qed.

Lemma single_Ok l x : single l = Ok x ↔ x ∈ l ∧ ∀ y, y ∈ l → y = x.
Proof.
  unfold single. split.
  - destruct (remove_dups l) as [|y [|]] eqn:Hr; [done| |done]. intros [= ->].
    split; [by rewrite <- elem_of_remove_dups, Hr; left|].
    intros y. rewrite <- elem_of_remove_dups, Hr. by rewrite list_elem_of_singleton.
  - intros [Hx Hall]. pose proof (NoDup_remove_dups l) as Hnd.
    assert (∀ y, y ∈ remove_dups l ↔ y = x) as Heq
      by (intros y; rewrite elem_of_remove_dups; naive_solver).
    destruct (remove_dups l) as [|y [|z r]].
    + exfalso. by apply (not_elem_of_nil x), Heq.
    + f_equal. apply Heq. left.
    + exfalso. apply NoDup_cons in Hnd as [Hy _]. apply Hy.
      rewrite (proj1 (Heq y)), (proj1 (Heq z)) by set_solver. left.
Qed.
End Sets.

Lemma distinct_true `{EqDecision A} (l : list A) : distinct l = true ↔ NoDup l.
Proof. apply bool_decide_eq_true. Qed.

Lemma forallb_true {A} (f : A → bool) l : forallb f l = true ↔ ∀ x, x ∈ l → f x = true.
Proof. rewrite forallb_forall. by setoid_rewrite list_elem_of_In. Qed.

Lemma filter_ext_in {A} (P Q : A → Prop) `{∀ x, Decision (P x)} `{∀ x, Decision (Q x)} (l : list A) :
  (∀ x, x ∈ l → P x ↔ Q x) → filter P l = filter Q l.
Proof.
  induction l as [|x l IH]; intros Hall; [done|]. rewrite !filter_cons, IH by set_solver.
  specialize (Hall x (list_elem_of_here _ _)). destruct (decide (P x)), (decide (Q x)); tauto.
Qed.

(** Read one accepted check, or the value one computation returned. *)
Tactic Notation "checked" hyp(H) "as" simple_intropattern(p) :=
  apply bind_Ok in H as ([] & p%expect_Ok & H).
Tactic Notation "taken" hyp(H) "as" simple_intropattern(x) simple_intropattern(p) :=
  apply bind_Ok in H as (x & p & H).

(** ** Structure *)

Section Structure.
Implicit Types (nodes : list ExecutionNode) (n : ExecutionNode).

(** Every predecessor is the id of an earlier node. *)
Definition ordered nodes : Prop := ∀ i n, nodes !! i = Some n →
  NoDup (predecessor_ids n) ∧ ∀ p, p ∈ predecessor_ids n → ∃ j m, (j < i)%nat ∧ nodes !! j = Some m ∧ node_id m = p.

Record well_formed nodes : Prop := {
  wf_nonempty : nodes ≠ [];
  wf_ids : NoDup (node_id <$> nodes);
  wf_ordered : ordered nodes;
}.

Lemma check_order_Ok all_ids done nodes :
  (∀ x, x ∈ (node_id <$> done ++ nodes) → x ∈ all_ids) →
  check_order all_ids (node_id <$> done) nodes = Ok tt ↔
  ∀ i n, nodes !! i = Some n → NoDup (predecessor_ids n) ∧
    ∀ p, p ∈ predecessor_ids n → ∃ j m, (j < length done + i)%nat ∧ (done ++ nodes) !! j = Some m ∧ node_id m = p.
Proof.
  revert done. induction nodes as [|n nodes IH]; intros done Hall; cbn [check_order].
  { split; [done|]. by intros _. }
  assert ((node_id <$> done) ++ [node_id n] = node_id <$> (done ++ [n])) as -> by by rewrite fmap_app.
  assert (done ++ n :: nodes = (done ++ [n]) ++ nodes) as Happ by by rewrite <- app_assoc.
  rewrite !bind_Ok. setoid_rewrite bind_Ok. setoid_rewrite bind_Ok.
  setoid_rewrite expect_Ok. setoid_rewrite distinct_true. setoid_rewrite subset_true.
  rewrite Happ in *. setoid_rewrite (IH (done ++ [n]) Hall). rewrite length_app; cbn. split.
  - intros (_ & Hnd & _ & _ & _ & Hk & Hrest) [|i] m; cbn.
    + intros [= <-]. split; [done|]. intros p Hp. apply Hk in Hp as (m & -> & Hm)%list_elem_of_fmap.
      apply list_elem_of_lookup in Hm as [j Hj]. exists j, m.
      pose proof (lookup_lt_Some _ _ _ Hj). split; [lia|]. split; [|done].
      by rewrite <- app_assoc, lookup_app_l.
    + intros Hm. destruct (Hrest i m Hm) as [H1 H2]. split; [done|]. intros p Hp.
      destruct (H2 p Hp) as (j & m' & ? & ? & ?). exists j, m'. split; [lia|done].
  - intros Hspec. destruct (Hspec 0%nat n eq_refl) as [Hnd Hp].
    assert (∀ p, p ∈ predecessor_ids n → p ∈ node_id <$> done) as Hk.
    { intros p (j & m & Hj & Hm & <-)%Hp. rewrite <- app_assoc, lookup_app_l in Hm by lia.
      apply list_elem_of_fmap. exists m. split; [done|]. by eapply list_elem_of_lookup_2. }
    exists tt. split; [done|]. exists tt. split.
    { intros p ?%Hk. apply Hall. rewrite !fmap_app. set_solver. }
    exists tt. split; [done|]. intros i m Hm. destruct (Hspec (S i) m Hm) as [H1 H2]. split; [done|].
    intros p Hpp. destruct (H2 p Hpp) as (j & m' & ? & ? & ?). exists j, m'. split; [lia|done].
Qed.

(** The structural checks accept exactly the ordered lists of distinct nodes whose
    declared terminals, if any, are the nodes without a successor. *)
Lemma check_structure_Ok nodes supplied ids :
  check_structure nodes supplied = Ok ids ↔
  well_formed nodes ∧ ids = sinks nodes ∧
  (supplied = [] ∨ NoDup supplied ∧ ∀ x, x ∈ supplied ↔ x ∈ sinks nodes).
Proof.
  unfold check_structure. rewrite !bind_Ok. setoid_rewrite bind_Ok. setoid_rewrite bind_Ok.
  setoid_rewrite bind_Ok. setoid_rewrite expect_Ok. setoid_rewrite distinct_true.
  setoid_rewrite negb_true_iff. setoid_rewrite bool_decide_eq_false.
  pose proof (check_order_Ok (node_id <$> nodes) [] nodes (λ x H, H)) as [Hord1 Hord2]. cbn in Hord1, Hord2.
  assert (∀ t, check_terminals (node_id <$> nodes) (sinks nodes) supplied = Ok t ↔
    (supplied = [] ∨ NoDup supplied ∧ ∀ x, x ∈ supplied ↔ x ∈ sinks nodes)) as Ht.
  { intros []. unfold check_terminals. destruct supplied as [|s l]; [naive_solver|].
    rewrite !bind_Ok. setoid_rewrite bind_Ok. setoid_rewrite expect_Ok.
    setoid_rewrite distinct_true. setoid_rewrite subset_true. setoid_rewrite same_set_true. split.
    - naive_solver.
    - intros [|[Hnd Hs]]; [done|]. exists tt. split; [done|]. exists tt. split; [|done].
      intros x [_ Hx]%Hs%list_elem_of_filter. done. }
  split.
  - intros (_ & Hne & _ & Hnd & [] & Ho & t & Hterm & [= <-]). specialize (Hord1 Ho).
    split; [by split|]. split; [done|]. by apply (Ht t).
  - intros ([Hne Hnd Ho] & -> & Hterm). exists tt. split; [done|]. exists tt. split; [done|]. exists tt.
    split; [by apply Hord2|]. exists tt. split; [by apply Ht|done].
Qed.
End Structure.

(** ** Ancestors *)

Section Ancestors.
Variable nodes : list ExecutionNode.
Hypothesis Hwf : well_formed nodes.

(** [b] is a predecessor of the node [a]. *)
Definition depends (a b : string) : Prop := ∃ n, n ∈ nodes ∧ node_id n = a ∧ b ∈ predecessor_ids n.

Lemma same_id n m : n ∈ nodes → m ∈ nodes → node_id n = node_id m → n = m.
Proof.
  intros [i Hi]%list_elem_of_lookup [j Hj]%list_elem_of_lookup Heq.
  assert (i = j) as ->; [|congruence].
  eapply NoDup_lookup; [apply (wf_ids _ Hwf)|rewrite list_lookup_fmap, Hi; cbn; reflexivity|].
  rewrite list_lookup_fmap, Hj. cbn. by rewrite Heq.
Qed.

Lemma by_id_Ok k n : by_id nodes k = Ok n ↔ n ∈ nodes ∧ node_id n = k.
Proof.
  unfold by_id. split.
  - destruct (last _) as [m|] eqn:Hl; [|done]. intros [= <-].
    apply last_Some_elem_of, list_elem_of_filter in Hl. tauto.
  - intros [Hn Hk]. destruct (last _) as [m|] eqn:Hl.
    + apply last_Some_elem_of, list_elem_of_filter in Hl as [Hm Hin]. f_equal. apply same_id; congruence.
    + apply last_None in Hl. exfalso. apply (not_elem_of_nil n). rewrite <- Hl.
      by apply list_elem_of_filter.
Qed.

Lemma depends_known a b : depends a b → b ∈ node_id <$> nodes.
Proof.
  intros (n & [i Hi]%list_elem_of_lookup & _ & Hb).
  destruct (proj2 (wf_ordered _ Hwf i n Hi) b Hb) as (j & m & _ & Hm & <-).
  apply list_elem_of_fmap. exists m. split; [done|]. by eapply list_elem_of_lookup_2.
Qed.

(** The predecessor entries of the nodes not seen yet *)
Definition unseen (seen : list string) : nat :=
  length (referenced (filter (λ m, node_id m ∉ seen) nodes)).

Lemma length_referenced_cons n ns : length (referenced (n :: ns)) = (length (predecessor_ids n) + length (referenced ns))%nat.
Proof. unfold referenced. cbn. by rewrite length_app. Qed.

Lemma unseen_cons n seen :
  n ∈ nodes → node_id n ∉ seen → (length (predecessor_ids n) + unseen (node_id n :: seen) = unseen seen)%nat.
Proof.
  pose proof (wf_ids _ Hwf) as Hnd. unfold unseen. revert Hnd. clear Hwf.
  induction nodes as [|m ns IH]; [by intros _ ?%not_elem_of_nil|].
  rewrite fmap_cons. intros [Hm Hnd]%NoDup_cons Hn Hseen. apply elem_of_cons in Hn as [->|Hn].
  - rewrite filter_cons_False by (intros Hc; apply Hc; left). rewrite filter_cons_True by done.
    rewrite length_referenced_cons. do 3 f_equal. apply filter_ext_in. intros x Hx.
    assert (node_id x ≠ node_id m); [|rewrite not_elem_of_cons; naive_solver].
    intros Heq. apply Hm. rewrite <- Heq. apply list_elem_of_fmap. by exists x.
  - assert (node_id m ≠ node_id n) as Hmn.
    { intros Heq. apply Hm. rewrite Heq. apply list_elem_of_fmap. by exists n. }
    destruct (decide (node_id m ∈ seen)) as [Hs|Hs].
    + rewrite filter_cons_False by (intros Hc; apply Hc; by right).
      rewrite filter_cons_False by (intros Hc; by apply Hc). by apply IH.
    + rewrite filter_cons_True by (rewrite not_elem_of_cons; done). rewrite filter_cons_True by done.
      rewrite !length_referenced_cons.
      specialize (IH Hnd Hn Hseen). lia.
Qed.

Lemma ancestors_spec fuel pending seen :
  (∀ p, p ∈ pending → p ∈ node_id <$> nodes) →
  (∀ p q, p ∈ seen → depends p q → q ∈ seen ∨ q ∈ pending) →
  (length pending + unseen seen ≤ fuel)%nat →
  ∃ out, ancestors nodes fuel pending seen = Ok out ∧
    (∀ p, p ∈ seen ∨ p ∈ pending → p ∈ out) ∧ (∀ p q, p ∈ out → depends p q → q ∈ out) ∧
    ∀ S : string → Prop, (∀ p, p ∈ seen ∨ p ∈ pending → S p) → (∀ p q, S p → depends p q → S q) →
      ∀ p, p ∈ out → S p.
Proof.
  revert pending seen. induction fuel as [|fuel IH]; intros [|parent pending] seen Hp Hs Hf;
    cbn [ancestors length] in *; try lia.
  1, 2: exists seen; split; [done|]; set_solver.
  case_bool_decide as Hin.
  { destruct (IH pending seen) as (out & Heq & H1 & H2 & H3); [set_solver| |lia|].
    - intros p q Hpin Hd. destruct (Hs p q Hpin Hd) as [|[->|]%elem_of_cons]; auto.
    - exists out. split; [done|]. split; [set_solver|]. split; [done|].
      intros S HS Hcl. apply H3; [|done]. set_solver. }
  assert (parent ∈ node_id <$> nodes) as (n & Hid & Hn)%list_elem_of_fmap by (apply Hp; left).
  symmetry in Hid. rewrite (proj2 (by_id_Ok parent n)) by done. cbn.
  assert (∀ q, depends parent q ↔ q ∈ predecessor_ids n) as Hdep.
  { intros q. split; [|by exists n]. intros (m & Hm & Hmid & Hq).
    assert (n = m) as -> by (apply same_id; congruence). done. }
  destruct (IH (reverse (predecessor_ids n) ++ pending) (parent :: seen)) as (out & Heq & H1 & H2 & H3).
  - intros p [Hpn|]%elem_of_app; [|set_solver]. rewrite elem_of_reverse in Hpn.
    apply (depends_known parent), (proj2 (Hdep p) Hpn).
  - intros p q [->|Hpin]%elem_of_cons Hd.
    + right. apply elem_of_app. left. rewrite elem_of_reverse. by apply (proj1 (Hdep q)).
    + destruct (Hs p q Hpin Hd) as [|[->|]%elem_of_cons]; set_solver.
  - rewrite length_app, length_reverse. pose proof (unseen_cons n seen Hn). subst parent. specialize (H Hin). lia.
  - exists out. split; [done|]. split; [|split; [done|]].
    + intros p Hpp. apply H1. set_solver.
    + intros S HS Hcl. apply H3; [|done]. intros p [[->|]%elem_of_cons|[Hpn|]%elem_of_app]; [| |rewrite elem_of_reverse in Hpn|].
      * apply HS. set_solver.
      * apply HS. set_solver.
      * eapply Hcl; [apply (HS parent); set_solver|]. apply (proj2 (Hdep p) Hpn).
      * apply HS. set_solver.
Qed.

(** The search ends with exactly the nodes reached over one or more predecessors. *)
Lemma ancestors_of_spec n :
  n ∈ nodes → ∃ seen, ancestors_of nodes n = Ok seen ∧ ∀ p, p ∈ seen ↔ tc depends (node_id n) p.
Proof.
  intros Hn. unfold ancestors_of.
  destruct (ancestors_spec (ancestor_fuel nodes n) (reverse (predecessor_ids n)) []) as (out & Heq & H1 & H2 & H3).
  - intros p Hp. rewrite elem_of_reverse in Hp. apply (depends_known (node_id n)). by exists n.
  - set_solver.
  - rewrite length_reverse. unfold ancestor_fuel, unseen. rewrite filter_all by (apply Forall_forall; intros m _ ?%not_elem_of_nil; done). lia.
  - exists out. split; [done|]. intros p. split.
    + apply (H3 (tc depends (node_id n))).
      * intros q [Hq|Hq]; [set_solver|]. rewrite elem_of_reverse in Hq. apply tc_once. by exists n.
      * intros q r Hq Hr. by eapply tc_r.
    + revert p. apply tc_ind_r.
      * intros q (m & Hm & Hid & Hq). apply H1. right. rewrite elem_of_reverse.
        by rewrite <- (same_id m n).
      * intros q r _ Hqr Hq. by eapply H2.
Qed.
End Ancestors.

(** ** Mixture of experts *)

Lemma filter_full {A} (P : A → Prop) `{∀ x, Decision (P x)} (l : list A) :
  length (filter P l) = length l → filter P l = l.
Proof.
  induction l as [|x l IH]; [done|]. rewrite filter_cons. destruct (decide (P x)); cbn.
  - intros [= Hl]. f_equal. by apply IH.
  - intros Hl. pose proof (length_filter P l). lia.
Qed.

Section Moe.
Implicit Types (nodes : list ExecutionNode) (n : ExecutionNode) (e : AFRoutingEdge).

Lemma make_dag_Ok nodes supplied d :
  make_dag nodes supplied = Ok d ↔
  d = mkDag nodes (sinks nodes) ∧ well_formed nodes ∧
  (supplied = [] ∨ NoDup supplied ∧ ∀ x, x ∈ supplied ↔ x ∈ sinks nodes) ∧
  validate_runtime_semantics nodes (sinks nodes) = Ok tt.
Proof.
  unfold make_dag. rewrite bind_Ok. split.
  - intros (ids & (Hwf & -> & Hs)%check_structure_Ok & ([] & Hv & [= <-])%bind_Ok). done.
  - intros (-> & Hwf & Hs & Hv). exists (sinks nodes). split; [by apply check_structure_Ok|].
    apply bind_Ok. by exists tt.
Qed.

(** [n] processes the assignment [e] of its expert. *)
Definition consumes nodes e n : Prop :=
  n ∈ nodes ∧ stage n = Some routed_expert ∧ e ∈ routed_edges n.

Lemma elem_of_consumers nodes e n : n ∈ consumers (at_stage routed_expert nodes) e ↔ consumes nodes e n.
Proof. unfold consumers, at_stage, consumes. rewrite !list_elem_of_filter. tauto. Qed.

Lemma owner_ranks_lookup ns ranks n : owner_ranks ns = Ok ranks → n ∈ ns → ∃ i r,
  ns !! i = Some n ∧ ranks !! i = Some r ∧ head (domain_ranks n) = Some r.
Proof.
  intros Ho%mapM_Ok [i Hi]%list_elem_of_lookup. destruct (Forall2_lookup_l _ _ _ _ _ Ho Hi) as (r & Hr & Hf).
  exists i, r. split; [done|]. split; [done|]. destruct (domain_ranks n); [done|]. by injection Hf as ->.
Qed.

Lemma rank_owner ns ranks r : owner_ranks ns = Ok ranks → NoDup ranks → r ∈ ranks →
  ∃ n, n ∈ ns ∧ head (domain_ranks n) = Some r ∧ ∀ m, m ∈ ns → head (domain_ranks m) = Some r → m = n.
Proof.
  intros Ho Hnd [i Hi]%list_elem_of_lookup. pose proof Ho as Hall. apply mapM_Ok in Hall.
  destruct (Forall2_lookup_r _ _ _ _ _ Hall Hi) as (n & Hn & Hf).
  exists n. split; [by eapply list_elem_of_lookup_2|]. split.
  { destruct (domain_ranks n); [done|]. by injection Hf as ->. }
  intros m Hm Hr. destruct (owner_ranks_lookup _ _ _ Ho Hm) as (j & r' & Hj & Hrj & Hr').
  assert (r' = r) as -> by congruence. assert (j = i) as -> by (by eapply NoDup_lookup). congruence.
Qed.

(** What [check_moe] accepts: [r] is the only router, with work [w]. *)
Record moe_accepted nodes (r : ExecutionNode) (w : RankLocalWork) : Prop := {
  ma_router : at_stage router nodes = [r];
  ma_work : local_work r = Some w;
  ma_distinct : NoDup (wk_routing_edges w);
  ma_consumed e n : consumes nodes e n → e ∈ wk_routing_edges w ∧
    ∃ w', local_work n = Some w' ∧ ed_expert_id e ∈ wk_expert_ids w';
  ma_once e : e ∈ wk_routing_edges w → ∃ group,
    (∃ n, consumes nodes e n) ∧ (∀ n, consumes nodes e n → tp_group n = group) ∧
    (∀ n, consumes nodes e n → ∃ rank, head (domain_ranks n) = Some rank ∧ rank ∈ group) ∧
    ∀ rank, rank ∈ group → ∃ n, consumes nodes e n ∧ head (domain_ranks n) = Some rank ∧
      ∀ m, consumes nodes e m → head (domain_ranks m) = Some rank → m = n;
  ma_combine n w' e : n ∈ nodes → stage n = Some weighted_combine → local_work n = Some w' →
    e ∈ wk_routing_edges w' ↔ e ∈ wk_routing_edges w;
  ma_return n t : n ∈ nodes → stage n = Some weighted_combine → operation n = f_combine →
    t ∈ nodes → operation t = "af_f_to_a" → tc (depends nodes) (node_id t) (node_id n);
}.

Lemma check_consumers_Ok nodes e : check_consumers (at_stage routed_expert nodes) e = Ok tt →
  ∃ group, (∃ n, consumes nodes e n) ∧ (∀ n, consumes nodes e n → tp_group n = group) ∧
    (∀ n, consumes nodes e n → ∃ rank, head (domain_ranks n) = Some rank ∧ rank ∈ group) ∧
    ∀ rank, rank ∈ group → ∃ n, consumes nodes e n ∧ head (domain_ranks n) = Some rank ∧
      ∀ m, consumes nodes e m → head (domain_ranks m) = Some rank → m = n.
Proof.
  unfold check_consumers. intros H. apply bind_Ok in H as (group & Hg & H).
  apply bind_Ok in H as (ranks & Hr & H). apply expect_Ok, andb_true_iff in H as [Hnd Hs].
  apply distinct_true in Hnd. rewrite same_set_true in Hs. apply single_Ok in Hg as [Hin Hall].
  exists group. setoid_rewrite <- elem_of_consumers. split; [|split; [|split]].
  - apply list_elem_of_fmap in Hin as (n & _ & Hn). by exists n.
  - intros n Hn. apply Hall, list_elem_of_fmap. by exists n.
  - intros n Hn. destruct (owner_ranks_lookup _ _ _ Hr Hn) as (i & r & _ & Hri & Hh). exists r.
    split; [done|]. apply Hs. by eapply list_elem_of_lookup_2.
  - intros rank Hrank. apply (rank_owner _ ranks); [done..|]. by apply Hs.
Qed.

Lemma check_combine_domain_Ok nodes combine r a_domain n t :
  well_formed nodes → check_combine_domain nodes combine r a_domain n = Ok tt →
  operation n = f_combine → t ∈ nodes → operation t = "af_f_to_a" → tc (depends nodes) (node_id t) (node_id n).
Proof.
  unfold check_combine_domain. intros Hwf H Hop Ht Hopt. rewrite bool_decide_eq_true_2 in H by done.
  checked H as _. checked H as _. rewrite each_Ok in H.
  specialize (H t). destruct (ancestors_of_spec nodes Hwf t Ht) as (seen & Hseen & Hspec).
  rewrite Hseen in H. cbn in H. apply Hspec.
  assert (t ∈ with_operation ["af_f_to_a"] nodes) as Hin
    by (apply list_elem_of_filter; rewrite Hopt; set_solver).
  apply H, expect_Ok, bool_decide_eq_true in Hin. done.
Qed.

Lemma check_moe_Ok nodes a_domain ranks original :
  well_formed nodes → check_moe nodes a_domain ranks original = Ok tt → ∃ r w, moe_accepted nodes r w.
Proof.
  intros Hwf. unfold check_moe. destruct (at_stage router nodes) as [|r [|]] eqn:Hr; try done. intros H.
  taken H as w Hw. destruct (local_work r) as [w'|] eqn:Hwork; [|done]. injection Hw as ->.
  checked H as _. checked H as Hd. checked H as _. taken H as [] Hrouted. checked H as Hsame.
  taken H as [] Hcons. taken H as [] _. unfold check_combine in H. taken H as cranks _.
  taken H as expected _. checked H as _. taken H as [] Hdom. apply expect_Ok in H.
  rewrite distinct_true in Hd. rewrite each_Ok in Hrouted. rewrite each_Ok in Hcons. rewrite each_Ok in Hdom.
  rewrite same_set_true in Hsame.
  rewrite forallb_true in H.
  assert (∀ e, e ∈ at_stage routed_expert nodes ≫= routed_edges ↔ ∃ n, consumes nodes e n) as Hbind.
  { intros e. rewrite list_elem_of_bind. split.
    - intros (n & He & [Hs Hn]%list_elem_of_filter). by exists n.
    - intros (n & Hn & Hs & He). exists n. split; [done|]. by apply list_elem_of_filter. }
  assert (∀ n, stage n = Some weighted_combine → n ∈ nodes → n ∈ at_stage weighted_combine nodes) as Hcomb
    by (intros; by apply list_elem_of_filter).
  exists r, w. split; [done|done|done| | | |].
  - intros e n Hc. split; [apply Hsame, Hbind; by exists n|]. destruct Hc as (Hn & Hs & He).
    specialize (Hrouted n). unfold check_routed in Hrouted. unfold routed_edges in He.
    assert (n ∈ at_stage routed_expert nodes) as Hin by (by apply list_elem_of_filter).
    specialize (Hrouted Hin). destruct (local_work n) as [w'|]; [|done].
    checked Hrouted as _. checked Hrouted as _. apply expect_Ok in Hrouted. rewrite forallb_true in Hrouted.
    exists w'. split; [done|]. apply (bool_decide_eq_true_1 _ (Hrouted e He)).
  - intros e He. apply check_consumers_Ok, Hcons. apply elem_of_remove_dups. by apply Hsame.
  - intros n w' e Hn Hs Hw'. specialize (H n (Hcomb n Hs Hn)). unfold combine_work in H. rewrite Hw' in H.
    apply andb_true_iff in H as [_ H]. rewrite same_set_true in H. apply H.
  - intros n t Hn Hs Hop Ht Hopt. eapply check_combine_domain_Ok; [done|apply (Hdom n); by apply Hcomb|done..].
Qed.

(** The part of the run-time checks that concerns a mixture of experts *)
Lemma accepted_moe nodes ids :
  well_formed nodes → validate_runtime_semantics nodes ids = Ok tt →
  (∃ n, n ∈ nodes ∧ layer_type n = Some moe) → ∃ r w, moe_accepted nodes r w.
Proof.
  intros Hwf H (n & Hn & Hmoe). unfold validate_runtime_semantics in H.
  assert (n ∈ filter (λ n, is_Some (layer_type n)) nodes) as Hin
    by (apply list_elem_of_filter; rewrite Hmoe; split; [by eexists|done]).
  rewrite bool_decide_eq_false_2 in H by (intros Hnil; rewrite Hnil in Hin; by apply not_elem_of_nil in Hin).
  checked H as Hlen. apply bool_decide_eq_true, filter_full in Hlen. rewrite Hlen in *.
  taken H as lt Hlt. apply single_Ok in Hlt as [_ Hlt].
  assert (Some moe = lt) as <- by (apply Hlt, list_elem_of_fmap; by exists n).
  taken H as [[a_domain ranks] original] _. taken H as [] _. checked H as _. taken H as [] _.
  rewrite bool_decide_eq_false_2 in H by done. by eapply check_moe_Ok.
Qed.
End Moe.
