(* ===== verification/AfTraffic.v ===== *)
(** * Plans of collectives ([TokenSim/comm/traffic.py], [TokenSim/comm/traffic_types.py])

    A collective over ranks on several nodes is a plan of phases: ring exchanges inside
    the nodes and between them, and reorderings of local data.  A phase names the phases
    it follows.  Byte counts are integers; a dtype is the entry of the registry
    ([TokenSim/dtypes.py]) its name resolves to, so an unknown name has no counterpart;
    the bytes a rank sends, a float that the plans do not read, the transport backend of a
    phase, and the plans of point to point and all-to-all transfers are left out. *)

From stdpp Require Import gmap list list_numbers strings sorting pretty.
From Stdlib Require Import ZArith Lia.
From S2P Require Import Prelude.
From S2P Require Import Buckets.
From S2P Require Import AfNodes.
From S2P Require Import AfDag.
From S2P Require Import AfGraph.

Open Scope Z_scope.

(** ** Volumes *)

Inductive DType := fp32 | fp16 | bf16 | fp8 | int8.

(** [dtype_size_bytes] *)
Definition dtype_size_bytes (d : DType) : Z :=
  match d with fp32 => 4 | fp16 => 2 | bf16 => 2 | fp8 => 1 | int8 => 1 end.

Definition validated_bytes (value : Z) (dtype : option DType) : outcome Z :=
  expect (0 <=? value) ;;
  expect (match dtype with Some d => value `mod` dtype_size_bytes d =? 0 | None => true end) ;;
  mret value.

Record CollectiveVolume := mkVolume {
  cv_operation : string;
  cv_participants : Z;
  cv_input_bytes : Z;
  cv_output_bytes : Z;
  cv_rounds : Z;
}.

Definition is_op (operation name : string) : bool := bool_decide (operation = name).

Definition ring_volume (operation : string) (participants message_bytes : Z) (dtype : option DType) :
    outcome CollectiveVolume :=
  expect (1 <=? participants) ;;
  size ← validated_bytes message_bytes dtype;
  expect (is_op operation "all_reduce" || is_op operation "all_gather" || is_op operation "reduce_scatter") ;;
  (if (is_op operation "all_reduce" || is_op operation "reduce_scatter") && (1 <? participants) then
     let width := match dtype with Some d => dtype_size_bytes d | None => 1 end in
     expect (size `mod` (participants * width) =? 0)
   else mret tt) ;;
  let output :=
    if is_op operation "all_gather" then size * participants
    else if is_op operation "reduce_scatter" then size / participants else size in
  let rounds := (participants - 1) * (if is_op operation "all_reduce" then 2 else 1) in
  mret (mkVolume operation participants size output rounds).

(** ** Phases *)

Record Transmission := mkTransmission {
  tr_source : Z;
  tr_target : Z;
  wire_bytes : Z;
  source_node : Z;
  target_node : Z;
  shard : option (Z * Z);
}.

Record TrafficPhase := mkPhase {
  phase_id : string;
  ph_operation : string;
  participants : list Z;
  fan : Z;
  logical_input_bytes : Z;
  logical_output_bytes : Z;
  rounds : list (list Transmission);
  ph_predecessor_ids : list string;
  ph_dtype : DType;
  local_work_bytes : Z;
  layout_permutation : list Z;
}.

Record TrafficPlan := mkTraffic {
  tp_operation : string;
  tp_participants : list Z;
  input_bytes_per_rank : Z;
  output_bytes_per_rank : Z;
  phases : list TrafficPhase;
}.

Section Plans.
(** The node of a rank; the constructors below check that it has one. *)
Variable node_by_rank : gmap Z Z.
Variable dtype : DType.

Definition node_of (rank : Z) : Z := node_by_rank !!! rank.

Definition len {A} (l : list A) : Z := Z.of_nat (length l).

(** The shard that the rank at [index] sends in a step *)
Definition shard_index (operation : string) (count step index : Z) : Z :=
  if is_op operation "reduce_scatter" || (is_op operation "all_reduce" && (step <? count - 1))
  then (index - step - 1) `mod` count
  else if is_op operation "all_reduce" then (index - (step - (count - 1))) `mod` count
  else (index - step) `mod` count.

(** The messages of one step; the next rank of the ring always exists. *)
Definition ring_round (operation : string) (ranks : list Z) (chunk step : Z) : list Transmission :=
  let count := len ranks in
  imap (λ i source,
    let index := Z.of_nat i in
    let target := default source (ranks !! Z.to_nat ((index + 1) `mod` count)) in
    let s := shard_index operation count step index in
    mkTransmission source target chunk (node_of source) (node_of target) (Some (s * chunk, (s + 1) * chunk))) ranks.

Definition ring_phase (id operation : string) (ranks : list Z) (size : Z) (predecessors : list string) :
    outcome TrafficPhase :=
  volume ← ring_volume operation (len ranks) size (Some dtype);
  let count := len ranks in
  let steps :=
    if (1 <? count) && negb (size =? 0) then
      let chunk := if is_op operation "all_gather" then size else size / count in
      ring_round operation ranks chunk <$> seqZ 0 (cv_rounds volume)
    else [] in
  mret (mkPhase id operation ranks count size (cv_output_bytes volume) steps predecessors dtype 0 []).

(** [enumerate] *)
Definition enumerate {A} (l : list A) : list (nat * A) := imap pair l.

(** [f"{name}:{i}"] *)
Definition numbered (name : string) (i : nat) : string := name +:+ ":" +:+ pretty i.

(** [by_node], in the order of the nodes *)
Definition node_le (a b : Z * list Z) : Prop := a.1 <= b.1.
#[global] Instance node_le_dec a b : Decision (node_le a b).
Proof. unfold node_le. apply _. Defined.

Definition node_groups (ranks : list Z) : list (list Z) :=
  (merge_sort node_le (group_by node_of ranks)).*2.

(** [group[slot] for group in groups]; the groups have the same length. *)
Definition at_slot (groups : list (list Z)) (slot : nat) : list Z := omap (.!! slot) groups.

(** [order.index(rank)] for every rank *)
Definition permutation (order ranks : list Z) : list Z :=
  omap (λ r, (λ found : nat * Z, Z.of_nat found.1) <$> list_find (r =.) order) ranks.

Definition identity_permutation (ranks : list Z) : list Z := seqZ 0 (len ranks).

Definition reorder_phase (name : string) (bytes : Z) (predecessors : nat → list string) (perm : list Z)
    (group : nat * list Z) : TrafficPhase :=
  mkPhase (numbered name group.1) "data_reorder" group.2 (len group.2) bytes bytes [] (predecessors group.1) dtype bytes perm.

(** One ring per group, and one per slot of the groups *)
Definition local_rings (name operation : string) (size : Z) (predecessors : list string) (groups : list (list Z)) :
    outcome (list TrafficPhase) :=
  mapM (λ group : nat * list Z, ring_phase (numbered name group.1) operation group.2 size predecessors) (enumerate groups).

Definition slot_rings (name operation : string) (size : Z) (predecessors : list string) (groups : list (list Z))
    (local_count : nat) : outcome (list TrafficPhase) :=
  mapM (λ slot, ring_phase (numbered name slot) operation (at_slot groups slot) size predecessors) (seq 0 local_count).

Definition all_reduce_phases (size : Z) (groups : list (list Z)) (local_count : nat) : outcome (list TrafficPhase) :=
  scatter ← local_rings "local_rs" "reduce_scatter" size [] groups;
  between ← slot_rings "inter_ar" "all_reduce" (size / Z.of_nat local_count)
    (numbered "local_rs" <$> seq 0 (length groups)) groups local_count;
  gather ← local_rings "local_ag" "all_gather" (size / Z.of_nat local_count)
    (numbered "inter_ar" <$> seq 0 local_count) groups;
  mret (scatter ++ between ++ gather).

Definition all_gather_phases (ranks : list Z) (size output : Z) (groups : list (list Z)) (local_count : nat) :
    outcome (list TrafficPhase) :=
  between ← slot_rings "inter_ag" "all_gather" size [] groups local_count;
  gather ← local_rings "local_ag" "all_gather" (size * len groups) (numbered "inter_ag" <$> seq 0 local_count) groups;
  let perm := permutation (mjoin (at_slot groups <$> seq 0 local_count)) ranks in
  let reorder :=
    if negb (size =? 0) && negb (bool_decide (perm = identity_permutation ranks))
    then reorder_phase "layout" output (λ i, [numbered "local_ag" i]) perm <$> enumerate groups
    else [] in
  mret (between ++ gather ++ reorder).

Definition reduce_scatter_phases (ranks : list Z) (size : Z) (groups : list (list Z)) (local_count : nat) :
    outcome (list TrafficPhase) :=
  let grouped_order := mjoin groups in
  let reorder_input := negb (bool_decide (grouped_order = ranks)) && (0 <? size) in
  let reorder :=
    if reorder_input
    then reorder_phase "input_layout" size (λ _, []) (permutation ranks grouped_order) <$> enumerate groups
    else [] in
  let pairs := group ← enumerate groups; (λ destination, (group, destination)) <$> seq 0 (length groups) in
  scatter ← mapM (λ p : nat * list Z * nat,
    ring_phase (numbered (numbered "local_rs" p.1.1) p.2) "reduce_scatter" p.1.2 (size / len groups)
      (if reorder_input then [numbered "input_layout" p.1.1] else [])) pairs;
  between ← slot_rings "inter_rs" "reduce_scatter" (size / Z.of_nat local_count)
    (i ← seq 0 (length groups); numbered (numbered "local_rs" i) <$> seq 0 (length groups)) groups local_count;
  mret (reorder ++ scatter ++ between).

Definition collective_plan (operation : string) (ranks : list Z) (message_bytes : Z) : outcome TrafficPlan :=
  expect (negb (bool_decide (ranks = [])) && distinct ranks &&
    forallb (λ r, bool_decide (is_Some (node_by_rank !! r))) ranks) ;;
  size ← validated_bytes message_bytes (Some dtype);
  volume ← ring_volume operation (len ranks) size (Some dtype);
  let groups := node_groups ranks in
  let local_count := length (default [] (head groups)) in
  expect (forallb (λ g, (length g =? local_count)%nat) groups) ;;
  phases ← (
    if (length groups =? 1)%nat || (local_count =? 1)%nat then
      phase ← ring_phase "ring" operation ranks size [];
      mret [phase]
    else if is_op operation "all_reduce" then all_reduce_phases size groups local_count
    else if is_op operation "all_gather" then all_gather_phases ranks size (cv_output_bytes volume) groups local_count
    else reduce_scatter_phases ranks size groups local_count);
  mret (mkTraffic operation ranks size (cv_output_bytes volume) phases).

(** ** What a plan has *)

(** Phases follow phases that come before them. *)
Definition ordered_phases (l : list TrafficPhase) : Prop := ∀ k ph id,
  l !! k = Some ph → id ∈ ph_predecessor_ids ph → ∃ j ph', (j < k)%nat ∧ l !! j = Some ph' ∧ phase_id ph' = id.

(** Every rank takes part in a phase that follows no other. *)
Definition covers (ranks : list Z) (l : list TrafficPhase) : Prop :=
  ∀ r, r ∈ ranks → ∃ ph, ph ∈ l ∧ ph_predecessor_ids ph = [] ∧ r ∈ participants ph.

Definition within (ranks : list Z) (l : list TrafficPhase) : Prop := ∀ ph r, ph ∈ l → r ∈ participants ph → r ∈ ranks.

Lemma ordered_roots l : (∀ ph, ph ∈ l → ph_predecessor_ids ph = []) → ordered_phases l.
Proof. intros Hall k ph id Hk Hin. rewrite (Hall ph) in Hin; [by apply elem_of_nil in Hin|by eapply list_elem_of_lookup_2]. Qed.

Lemma ordered_app l l' : ordered_phases l →
  (∀ ph id, ph ∈ l' → id ∈ ph_predecessor_ids ph → ∃ ph', ph' ∈ l ∧ phase_id ph' = id) → ordered_phases (l ++ l').
Proof.
  intros Hl Hl' k ph id [Hk|[Hge Hk]]%lookup_app_Some Hin.
  - destruct (Hl k ph id Hk Hin) as (j & ph' & Hj & Hlj & Hid). exists j, ph'.
    rewrite lookup_app_l by (by eapply lookup_lt_Some). done.
  - destruct (Hl' ph id) as (ph' & [j Hj]%list_elem_of_lookup & Hid); [by eapply list_elem_of_lookup_2|done|].
    pose proof (lookup_lt_Some _ _ _ Hj). exists j, ph'. rewrite lookup_app_l by done. split; [lia|done].
Qed.

Lemma covers_app_l ranks l l' : covers ranks l → covers ranks (l ++ l').
Proof. intros Hl r Hr. destruct (Hl r Hr) as (ph & ? & ?). exists ph. rewrite elem_of_app. auto. Qed.

Lemma within_app ranks l l' : within ranks l → within ranks l' → within ranks (l ++ l').
Proof. intros H1 H2 ph r [?|?]%elem_of_app; eauto. Qed.

Lemma ring_phase_Ok id operation ranks size preds ph :
  ring_phase id operation ranks size preds = Ok ph →
  phase_id ph = id ∧ participants ph = ranks ∧ ph_predecessor_ids ph = preds.
Proof. unfold ring_phase. by intros (v & _ & [= <-])%bind_Ok. Qed.

Lemma elem_of_enumerate {A} (l : list A) i x : (i, x) ∈ enumerate l ↔ l !! i = Some x.
Proof.
  unfold enumerate. rewrite list_elem_of_lookup. setoid_rewrite list_lookup_imap. split.
  - intros (j & (y & Hj & [= -> ->])%fmap_Some). done.
  - intros Hi. exists i. by rewrite Hi.
Qed.

(** A list of rings, by what each was built from *)
Record rings {A} (l : list A) (id : A → string) (ranks : A → list Z) (preds : A → list string)
    (phs : list TrafficPhase) : Prop := {
  rg_phase ph : ph ∈ phs → ∃ x, x ∈ l ∧ phase_id ph = id x ∧ participants ph = ranks x ∧ ph_predecessor_ids ph = preds x;
  rg_all x : x ∈ l → ∃ ph, ph ∈ phs ∧ phase_id ph = id x ∧ participants ph = ranks x ∧ ph_predecessor_ids ph = preds x;
}.

Lemma rings_Ok {A} (l : list A) id operation ranks size preds phs :
  mapM (λ x, ring_phase (id x) operation (ranks x) size (preds x)) l = Ok phs → rings l id ranks preds phs.
Proof.
  intros Hall%mapM_Ok. split.
  - intros ph [k Hk]%list_elem_of_lookup. destruct (Forall2_lookup_r _ _ _ _ _ Hall Hk) as (x & Hx & Hph).
    exists x. split; [by eapply list_elem_of_lookup_2|]. by apply ring_phase_Ok in Hph.
  - intros x [k Hk]%list_elem_of_lookup. destruct (Forall2_lookup_l _ _ _ _ _ Hall Hk) as (ph & Hx & Hph).
    exists ph. split; [by eapply list_elem_of_lookup_2|]. by apply ring_phase_Ok in Hph.
Qed.

(** ** Groups of ranks *)

Section Groups.
Variables (ranks : list Z) (groups : list (list Z)) (local_count : nat).
Hypothesis Hgroups : mjoin groups ≡ₚ ranks.
Hypothesis Hlength : ∀ g, g ∈ groups → length g = local_count.

Lemma group_within i g r : groups !! i = Some g → r ∈ g → r ∈ ranks.
Proof. intros Hi Hr. rewrite <- Hgroups. apply list_elem_of_join. exists g. split; [done|]. by eapply list_elem_of_lookup_2. Qed.

Lemma slot_within slot r : r ∈ at_slot groups slot → r ∈ ranks.
Proof.
  intros (g & [i Hi]%list_elem_of_lookup & Hr)%list_elem_of_omap. eapply group_within; [exact Hi|].
  by eapply list_elem_of_lookup_2.
Qed.

Lemma rank_group r : r ∈ ranks → ∃ i g, groups !! i = Some g ∧ r ∈ g.
Proof. rewrite <- Hgroups. intros (g & Hr & [i Hi]%list_elem_of_lookup)%list_elem_of_join. eauto. Qed.

Lemma rank_slot r : r ∈ ranks → ∃ slot, slot ∈ seq 0 local_count ∧ r ∈ at_slot groups slot.
Proof.
  intros (i & g & Hi & [slot Hs]%list_elem_of_lookup)%rank_group. exists slot. split.
  - apply elem_of_seq. rewrite <- (Hlength g) by (by eapply list_elem_of_lookup_2). apply lookup_lt_Some in Hs. lia.
  - apply list_elem_of_omap. exists g. split; [by eapply list_elem_of_lookup_2|done].
Qed.

(** What is asked of the phases of a plan *)
Definition sound (l : list TrafficPhase) : Prop := ordered_phases l ∧ covers ranks l ∧ within ranks l.

Lemma local_within name preds phs :
  rings (enumerate groups) (λ g, numbered name g.1) snd preds phs → within ranks phs.
Proof.
  intros Hrg ph r Hph Hr. destruct (rg_phase _ _ _ _ _ Hrg ph Hph) as ([i g] & Hi%elem_of_enumerate & _ & Hp & _).
  rewrite Hp in Hr. by eapply group_within.
Qed.

Lemma slot_rings_within name preds phs :
  rings (seq 0 local_count) (numbered name) (at_slot groups) preds phs → within ranks phs.
Proof.
  intros Hrg ph r Hph Hr. destruct (rg_phase _ _ _ _ _ Hrg ph Hph) as (slot & _ & _ & Hp & _).
  rewrite Hp in Hr. by eapply slot_within.
Qed.

(** Phases that all name the same earlier rings *)
Lemma follow {A B} (l : list A) id (ranks' : A → list Z) preds (k : list B) id' ranks'' phs phs' :
  rings l id ranks' preds phs → rings k id' ranks'' (λ _, id <$> l) phs' →
  ∀ ph x, ph ∈ phs' → x ∈ ph_predecessor_ids ph → ∃ ph', ph' ∈ phs ∧ phase_id ph' = x.
Proof.
  intros H1 H2 ph x Hph Hx. destruct (rg_phase _ _ _ _ _ H2 ph Hph) as (b & _ & _ & _ & Hp). rewrite Hp in Hx.
  apply list_elem_of_fmap in Hx as (a & -> & Ha). destruct (rg_all _ _ _ _ _ H1 a Ha) as (ph' & ? & ? & _). eauto.
Qed.

Lemma indices_enumerate name :
  numbered name <$> seq 0 (length groups) = (λ g : nat * list Z, numbered name g.1) <$> enumerate groups.
Proof.
  apply list_eq. intros i. rewrite !list_lookup_fmap. unfold enumerate. rewrite list_lookup_imap.
  destruct (groups !! i) as [g|] eqn:Hg; cbn.
  - rewrite lookup_seq_lt by (by eapply lookup_lt_Some). done.
  - rewrite lookup_seq_ge by (by apply lookup_ge_None). done.
Qed.

Lemma local_roots_cover {name phs} : rings (enumerate groups) (λ g, numbered name g.1) snd (λ _, []) phs → covers ranks phs.
Proof.
  intros Hrg r (i & g & Hi & Hr)%rank_group.
  destruct (rg_all _ _ _ _ _ Hrg (i, g)) as (ph & Hph & _ & Hp & Hpre); [by apply elem_of_enumerate|].
  exists ph. rewrite Hp. done.
Qed.

Lemma roots_ordered {A} (l : list A) id ranks' phs : rings l id ranks' (λ _, []) phs → ordered_phases phs.
Proof. intros Hrg. apply ordered_roots. intros ph Hph. by destruct (rg_phase _ _ _ _ _ Hrg ph Hph) as (? & _ & _ & _ & ?). Qed.

Lemma all_reduce_sound size l : all_reduce_phases size groups local_count = Ok l → sound l.
Proof.
  unfold all_reduce_phases, local_rings, slot_rings.
  intros (rs & Hrs%rings_Ok & (ar & Har%rings_Ok & (ag & Hag%rings_Ok & [= <-])%bind_Ok)%bind_Ok)%bind_Ok.
  split; [|split].
  - rewrite app_assoc. apply ordered_app; [apply ordered_app|].
    + by eapply roots_ordered.
    + rewrite indices_enumerate in Har. by eapply follow.
    + intros ph id Hph Hid. assert (∃ ph', ph' ∈ ar ∧ phase_id ph' = id) as (ph' & ? & ?) by by eapply follow.
      exists ph'. rewrite elem_of_app. auto.
  - apply covers_app_l. by eapply local_roots_cover.
  - apply within_app; [|apply within_app]; [by eapply local_within|by eapply slot_rings_within|by eapply local_within].
Qed.

Lemma reorder_within name bytes preds perm : within ranks (reorder_phase name bytes preds perm <$> enumerate groups).
Proof. intros ph r ([i g] & -> & Hi%elem_of_enumerate)%list_elem_of_fmap Hr. by eapply group_within. Qed.

Lemma all_gather_sound size output l : all_gather_phases ranks size output groups local_count = Ok l → sound l.
Proof.
  unfold all_gather_phases, local_rings, slot_rings.
  intros (ig & Hig%rings_Ok & (ag & Hag%rings_Ok & [= <-])%bind_Ok)%bind_Ok.
  match goal with |- context [permutation ?a ?b] => set (perm := permutation a b) end.
  match goal with |- context [if ?c then ?x else ?y] => set (reorder := if c then x else y) end.
  assert (∀ ph, ph ∈ reorder → ph ∈ (reorder_phase "layout" output (λ i, [numbered "local_ag" i]) perm <$> enumerate groups)) as Hre.
  { unfold reorder. destruct (_ && _); [done|]. by intros ph Hph%elem_of_nil. }
  split; [|split].
  - rewrite app_assoc. apply ordered_app; [apply ordered_app|].
    + by eapply roots_ordered.
    + by eapply follow.
    + intros ph id ([i g] & -> & Hi)%Hre%list_elem_of_fmap Hid. cbn in Hid. apply list_elem_of_singleton in Hid as ->.
      destruct (rg_all _ _ _ _ _ Hag (i, g) Hi) as (ph' & ? & ? & _). exists ph'. rewrite elem_of_app. auto.
  - apply covers_app_l. intros r (slot & Hs & Hr)%rank_slot.
    destruct (rg_all _ _ _ _ _ Hig slot Hs) as (ph & Hph & _ & Hp & Hpre). exists ph. by rewrite Hp.
  - apply within_app; [by eapply slot_rings_within|]. apply within_app; [by eapply local_within|].
    intros ph r Hph%Hre. exact (reorder_within "layout" output _ perm ph r Hph).
Qed.

(** The pairs of a group and a destination *)
Definition scatter_pairs : list (nat * list Z * nat) :=
  group ← enumerate groups; (λ destination, (group, destination)) <$> seq 0 (length groups).

Lemma elem_of_scatter_pairs i g j :
  ((i, g), j) ∈ scatter_pairs ↔ groups !! i = Some g ∧ (j < length groups)%nat.
Proof.
  unfold scatter_pairs. rewrite list_elem_of_bind. split.
  - intros (x & (y & [= <- ->] & Hy%elem_of_seq)%list_elem_of_fmap & Hx%elem_of_enumerate). split; [done|lia].
  - intros [Hi Hj]. exists (i, g). split; [|by apply elem_of_enumerate]. apply list_elem_of_fmap. exists j.
    split; [done|]. apply elem_of_seq. lia.
Qed.

Lemma reduce_scatter_sound size l : groups ≠ [] → reduce_scatter_phases ranks size groups local_count = Ok l → sound l.
Proof.
  intros Hne. unfold reduce_scatter_phases, slot_rings. fold scatter_pairs.
  set (reordered := negb _ && _).
  intros (rs & Hrs%rings_Ok & (between & Hb%rings_Ok & [= <-])%bind_Ok)%bind_Ok.
  assert (within ranks rs) as Hwrs.
  { intros ph r Hph Hr. destruct (rg_phase _ _ _ _ _ Hrs ph Hph) as ([[i g] j] & [Hi _]%elem_of_scatter_pairs & _ & Hp & _).
    rewrite Hp in Hr. by eapply group_within. }
  assert (ordered_phases ((if reordered then reorder_phase "input_layout" size (λ _, []) (permutation ranks (mjoin groups)) <$> enumerate groups else []) ++ rs)) as Ho.
  { apply ordered_app.
    - destruct reordered; [|by apply ordered_roots; intros ph ?%elem_of_nil].
      apply ordered_roots. by intros ph (g & -> & _)%list_elem_of_fmap.
    - intros ph id Hph Hid. destruct (rg_phase _ _ _ _ _ Hrs ph Hph) as ([[i g] j] & [Hi _]%elem_of_scatter_pairs & _ & _ & Hpre).
      rewrite Hpre in Hid. destruct reordered; [|by apply elem_of_nil in Hid]. apply list_elem_of_singleton in Hid as ->.
      eexists. split; [apply list_elem_of_fmap; exists (i, g); split; [reflexivity|by apply elem_of_enumerate]|done]. }
  split; [|split].
  - rewrite app_assoc. apply ordered_app; [done|]. intros ph id Hph Hid.
    destruct (rg_phase _ _ _ _ _ Hb ph Hph) as (slot & _ & _ & _ & Hpre). rewrite Hpre in Hid.
    apply list_elem_of_bind in Hid as (i & (j & -> & Hj%elem_of_seq)%list_elem_of_fmap & Hi%elem_of_seq).
    destruct (lookup_lt_is_Some_2 groups i) as [g Hg]; [lia|].
    destruct (rg_all _ _ _ _ _ Hrs ((i, g), j)) as (ph' & ? & ? & _); [apply elem_of_scatter_pairs; split; [done|lia]|].
    exists ph'. rewrite elem_of_app. auto.
  - intros r (i & g & Hi & Hr)%rank_group. destruct reordered.
    + eexists. split; [apply elem_of_app; left; apply list_elem_of_fmap; exists (i, g); split; [reflexivity|by apply elem_of_enumerate]|done].
    + destruct (rg_all _ _ _ _ _ Hrs ((i, g), 0%nat)) as (ph & Hph & _ & Hp & Hpre).
      { apply elem_of_scatter_pairs. split; [done|]. apply lookup_lt_Some in Hi. lia. }
      exists ph. rewrite !elem_of_app, Hp. auto.
  - apply within_app; [|apply within_app]; [|done|by eapply slot_rings_within].
    destruct reordered; [apply reorder_within|]. by intros ph r ?%elem_of_nil.
Qed.
End Groups.

Lemma node_groups_perm ranks : mjoin (node_groups ranks) ≡ₚ ranks.
Proof.
  unfold node_groups. etransitivity; [|apply (group_by_perm node_of)].
  assert (∀ l : list (list Z), mjoin l = concat l) as -> by (intros l; induction l; csimpl; congruence).
  apply concat_perm, fmap_Permutation, merge_sort_Permutation.
Qed.

(** The phases of a collective follow earlier phases, take in every rank before they follow
    another phase, and concern no other rank. *)
Lemma collective_plan_sound operation ranks bytes plan :
  collective_plan operation ranks bytes = Ok plan → sound ranks (phases plan).
Proof.
  unfold collective_plan. intros H. checked H as H1. taken H as size H2. taken H as volume H3. checked H as H4.
  taken H as l H5. injection H as <-. cbn [phases].
  rewrite forallb_true in H4. set (groups := node_groups ranks) in *.
  set (local_count := length (default [] (head groups))) in *.
  assert (∀ g, g ∈ groups → length g = local_count) as Hlen by (intros g Hg; by apply Nat.eqb_eq, H4).
  pose proof (node_groups_perm ranks) as Hperm. fold groups in Hperm.
  assert (groups ≠ []) as Hne.
  { intros Heq. rewrite Heq in Hperm. apply Permutation_nil in Hperm. subst ranks. done. }
  destruct (_ || _).
  - apply bind_Ok in H5 as (ph & (Hid & Hp & Hpre)%ring_phase_Ok & [= <-]). split; [|split].
    + apply ordered_roots. by intros x ->%list_elem_of_singleton.
    + intros r Hr. exists ph. rewrite Hp. split; [left|done].
    + intros x r ->%list_elem_of_singleton Hr. by rewrite Hp in Hr.
  - destruct (is_op operation "all_reduce"); [by eapply all_reduce_sound|].
    destruct (is_op operation "all_gather"); [by eapply all_gather_sound|by eapply reduce_scatter_sound].
Qed.
End Plans.

(** ** Plans of the transfer provider ([TokenSim/af/providers/traffic.py]) *)

(** A [dict] built from a list of items: the last one of a key counts. *)
Definition dict_of {A} (items : list (string * A)) : gmap string A := list_to_map (reverse items).

Lemma dict_of_Some {A} (items : list (string * A)) k a : dict_of items !! k = Some a → (k, a) ∈ items.
Proof. unfold dict_of. intros Hk%elem_of_list_to_map_2. by rewrite elem_of_reverse in Hk. Qed.

Lemma dict_of_is_Some {A} (items : list (string * A)) k : k ∈ items.*1 → is_Some (dict_of items !! k).
Proof.
  intros Hk. destruct (dict_of items !! k) eqn:Hn; [by eexists|]. exfalso.
  unfold dict_of in Hn. apply not_elem_of_list_to_map in Hn. apply Hn. rewrite fmap_reverse. by rewrite elem_of_reverse.
Qed.

Lemma dict_of_nodup {A} (items : list (string * A)) k a : NoDup items.*1 → (k, a) ∈ items → dict_of items !! k = Some a.
Proof.
  intros Hnd Hin. unfold dict_of. apply elem_of_list_to_map_1; [by rewrite fmap_reverse, reverse_Permutation|].
  by rewrite elem_of_reverse.
Qed.

(** The identity of the physical worker of every worker that has one, and the nodes *)
Record TransferProvider := mkProvider {
  worker_refs : list (option string);
  node_by_worker : gmap Z Z;
}.

(** [_worker_ids] *)
Definition worker_ids (p : TransferProvider) : gmap string Z :=
  dict_of (omap (λ w : nat * option string, (λ identity, (identity, Z.of_nat w.1)) <$> w.2) (enumerate (worker_refs p))).

(** [resources.worker(rank).physical_worker_ref.identity] *)
Definition worker_identity (p : TransferProvider) (rank : Z) : string :=
  default ""%string (mjoin (worker_refs p !! Z.to_nat rank)).

(** [metadata.get("collective_algorithm", "ring")] *)
Definition ring_algorithm (n : ExecutionNode) : bool :=
  bool_decide (default (MetaStr "ring") (metadata n !! "collective_algorithm"%string) = MetaStr "ring").

(** [communication_plan] for the query of a node that is a ring collective, with the dtype of
    its transfer: the phases.  All-to-all and endpoint legs have other plans. *)
Definition ring_collective_phases (p : TransferProvider) (dtype : DType) (n : ExecutionNode) :
    outcome (list TrafficPhase) :=
  expect (ring_algorithm n) ;;
  let endpoints := physical_workers n in
  expect (negb (bool_decide (endpoints = [])) && distinct endpoints &&
    forallb (λ e, bool_decide (is_Some (worker_ids p !! e))) endpoints) ;;
  let ranks := omap (worker_ids p !!.) endpoints in
  let operation := if is_op (operation n) "tp_collective" then "all_reduce"%string else operation n in
  expect (Z.max 1 (len (domain_ranks n)) =? len ranks) ;;
  expect (bool_decide (domain_ranks n = []) || distinct (domain_ranks n)) ;;
  expect (bool_decide (domain_ranks n = []) || (len (domain_ranks n) =? len ranks)) ;;
  payload ← match payload_bytes n with Some bytes => validated_bytes bytes None | None => Raise ConfigurationError end;
  plan ← collective_plan (node_by_worker p) dtype operation ranks payload;
  mret (phases plan).

Lemma worker_ids_identity p e r : worker_ids p !! e = Some r → worker_identity p r = e.
Proof.
  unfold worker_ids. intros ([i w] & Hi%elem_of_enumerate & (e' & He & [= -> ->])%fmap_Some)%dict_of_Some%list_elem_of_omap.
  unfold worker_identity. cbn [fst snd] in He |- *. by rewrite Nat2Z.id, Hi, He.
Qed.

Lemma endpoint_ranks p (endpoints : list string) : (∀ e, e ∈ endpoints → is_Some (worker_ids p !! e)) →
  worker_identity p <$> omap (worker_ids p !!.) endpoints = endpoints.
Proof.
  induction endpoints as [|e l IH]; intros Hall; [done|]. csimpl.
  destruct (Hall e) as [r Hr]; [left|]. rewrite Hr. csimpl. rewrite (worker_ids_identity _ _ _ Hr). f_equal.
  apply IH. intros x Hx. apply Hall. by right.
Qed.

(** The plan is over ranks whose workers are the endpoints of the node. *)
Lemma ring_collective_phases_sound p dtype n phs : ring_collective_phases p dtype n = Ok phs →
  ∃ ranks, sound ranks phs ∧ physical_workers n = worker_identity p <$> ranks.
Proof.
  unfold ring_collective_phases. intros H. checked H as _. checked H as He. checked H as _. checked H as _. checked H as _.
  taken H as payload _. taken H as plan Hplan. injection H as <-.
  exists (omap (worker_ids p !!.) (physical_workers n)). split; [by eapply collective_plan_sound|].
  rewrite !andb_true_iff in He. destruct He as [_ He]. rewrite forallb_true in He.
  rewrite endpoint_ranks; [done|]. intros e Hin. specialize (He e Hin). by apply bool_decide_eq_true in He.
Qed.
