(* ===== verification/AfRun.v ===== *)
(** * Running an execution graph
      ([TokenSim/af/execution/iteration.py], [TokenSim/af/execution/transport.py])

    Every node is a process that waits for the events of its predecessors or for the
    failure of another node; the graph is over when its terminal nodes are.  On a
    physical topology a collective that knows which node produces the input of which
    endpoint starts without waiting for these producers: its transport runs the phases
    of a plan, and a phase that follows no other waits for the producers of its own
    participants.  A process or phase is [Waiting] before its work, [Running] during it and
    [Done] once its event is set; how long the work takes is not modelled, so any order
    of the steps is a run.  The phases of any other transfer are part of its node's work.  The cancellation of the whole block from outside is left out. *)

From stdpp Require Import gmap list strings relations.
From Stdlib Require Import ZArith Lia.
From S2P Require Import Prelude.
From S2P Require Import AfNodes.
From S2P Require Import AfDag.
From S2P Require Import AfGraph.
From S2P Require Import AfTraffic.

Open Scope nat_scope.

(** ** Indices *)

(** [indices[id]] *)
Definition index_of (nodes : list ExecutionNode) (id : string) : outcome nat :=
  match list_find (λ n, node_id n = id) nodes with
  | Some (i, _) => Ok i
  | None => Raise KeyError
  end.

Definition predecessor_indices (nodes : list ExecutionNode) : outcome (list (list nat)) :=
  mapM (λ n, mapM (index_of nodes) (predecessor_ids n)) nodes.

Definition terminal_indices (d : AFExecutionDAG) : outcome (list nat) :=
  mapM (index_of (dag_nodes d)) (terminal_node_ids d).

(** ** What a process waits for *)

(** A phase waits for phases of its plan and for nodes. *)
Record phase_job := mkPhaseJob {
  ph_after : list nat;
  ph_inputs : list nat;
}.

(** A process waits for nodes before it starts; then it runs its phases, if it has any.
    A phase whose dependencies cannot be looked up raises. *)
Record job := mkJob {
  awaits : list nat;
  job_phases : list (option phase_job);
}.

Section Jobs.
(** [transfer_topology_mode] is ["physical"] and the transfer provider has plans *)
Variable physical : bool.
(** The phases of the plan of a collective *)
Variable plan : ExecutionNode → list TrafficPhase.
(** [resources.worker(rank).physical_worker_ref.identity] *)
Variable identity : Z → string.

(** [subgroup_inputs is not None] *)
Definition has_subgroup_inputs (n : ExecutionNode) : bool :=
  negb (bool_decide (input_producer_ids n = [])) && physical.

(** [events_by_id], with the index of a node for its event *)
Definition events_by_id (n : ExecutionNode) (preds : list nat) : gmap string nat :=
  dict_of (zip (predecessor_ids n) preds).

(** The events a process waits for before it starts *)
Definition awaited (n : ExecutionNode) (preds : list nat) : list nat :=
  if has_subgroup_inputs n then
    (filter (λ e, e.1 ∉ (input_producer_ids n).*2) (zip (predecessor_ids n) preds)).*2
  else preds.

(** [bindings[identity][1]] *)
Definition input_event (n : ExecutionNode) (preds : list nat) (endpoint : string) : option nat :=
  producer ← dict_of (input_producer_ids n) !! endpoint;
  events_by_id n preds !! producer.

(** [completed[id]] *)
Definition phase_event (phs : list TrafficPhase) (id : string) : option nat :=
  fst <$> list_find (λ ph, phase_id ph = id) phs.

(** [dependencies] of [run_phase] *)
Definition phase_dependencies (n : ExecutionNode) (preds : list nat) (ph : TrafficPhase) : option phase_job :=
  after ← mapM (phase_event (plan n)) (ph_predecessor_ids ph);
  inputs ← (if bool_decide (ph_predecessor_ids ph = [])
            then mapM (λ rank, input_event n preds (identity rank)) (participants ph) else Some []);
  Some (mkPhaseJob after inputs).

Definition job_of (n : ExecutionNode) (preds : list nat) : job :=
  mkJob (awaited n preds) (if has_subgroup_inputs n then phase_dependencies n preds <$> plan n else []).

(** The arguments of [_run_dag_node_guarded] for every node *)
Definition jobs (nodes : list ExecutionNode) (preds : list (list nat)) : list job := zip_with job_of nodes preds.
End Jobs.

(** ** Steps *)

Inductive process := Waiting | Running | Done.

#[global] Instance process_eq_dec : EqDecision process.
Proof. solve_decision. Defined.

Record dag_state := mkState {
  processes : list process;
  parts : list (list process);       (* the phases of every process *)
  failed : bool;                     (* [failure_event.triggered] *)
}.

(** All events of a job's phases are set, or will never matter again. *)
Definition all_done (phs : list process) : list process := (λ _, Done) <$> phs.

(** What [_run_dag] has come to, once it has: the first failure is raised after every
    process has set its event, and without one the terminal events are awaited. *)
Definition dag_result (terminals : list nat) (st : dag_state) : option (outcome unit) :=
  if failed st then
    if bool_decide (Forall (.= Done) (processes st)) then Some (Raise SimulationStateError) else None
  else
    if bool_decide (Forall (λ t, processes st !! t = Some Done) terminals) then Some (Ok tt) else None.

Section Steps.
Variable js : list job.

Definition start_dag : dag_state :=
  mkState ((λ _, Waiting) <$> js) ((λ j, (λ _, Waiting) <$> job_phases j) <$> js) false.

(** [_run_dag_node_guarded] of process [i], with [run_phase] of its phase [k].  A process that
    fails interrupts its phases; once one has failed [_run_dag] interrupts the others. *)
Inductive dag_step : dag_state → dag_state → Prop :=
  | step_start st i j :
      processes st !! i = Some Waiting → js !! i = Some j →
      (∀ p, p ∈ awaits j → processes st !! p = Some Done) → failed st = false →
      dag_step st (mkState (<[i := Running]> (processes st)) (parts st) false)
  | step_phase st i j k d phs :
      processes st !! i = Some Running → js !! i = Some j → job_phases j !! k = Some (Some d) →
      parts st !! i = Some phs → phs !! k = Some Waiting →
      (∀ q, q ∈ ph_after d → phs !! q = Some Done) →
      (∀ p, p ∈ ph_inputs d → processes st !! p = Some Done) → failed st = false →
      dag_step st (mkState (processes st) (<[i := <[k := Running]> phs]> (parts st)) false)
  | step_phase_done st i k phs :
      processes st !! i = Some Running → parts st !! i = Some phs → phs !! k = Some Running →
      dag_step st (mkState (processes st) (<[i := <[k := Done]> phs]> (parts st)) (failed st))
  | step_finish st i phs :
      processes st !! i = Some Running → parts st !! i = Some phs → Forall (.= Done) phs →
      dag_step st (mkState (<[i := Done]> (processes st)) (parts st) (failed st))
  | step_fail st i phs :
      processes st !! i = Some Running → parts st !! i = Some phs →
      dag_step st (mkState (<[i := Done]> (processes st)) (<[i := all_done phs]> (parts st)) true)
  | step_skip st i :
      processes st !! i = Some Waiting → failed st = true →
      dag_step st (mkState (<[i := Done]> (processes st)) (parts st) true).

(** What a process or a phase still has to do *)
Definition work_left (p : process) : nat := match p with Waiting => 2 | Running => 1 | Done => 0 end.

Definition work (l : list process) : nat := sum_list (work_left <$> l).

(** All phases of all processes *)
Definition phase_count : nat := sum_list ((λ j, length (job_phases j)) <$> js).

Definition steps_left (st : dag_state) : nat := work (processes st) + sum_list (work <$> parts st).

Lemma sum_insert {A} (f : A → nat) (l : list A) i x y :
  l !! i = Some x → sum_list (f <$> <[i := y]> l) + f x = sum_list (f <$> l) + f y.
Proof.
  revert i. induction l as [|z l IH]; intros [|i]; try done.
  - intros [= ->]. csimpl. lia.
  - intros Hi. specialize (IH i Hi). csimpl. lia.
Qed.

Lemma work_all_done phs : work (all_done phs) = 0.
Proof. unfold work, all_done. by induction phs. Qed.

Lemma dag_step_left st st' : dag_step st st' → steps_left st' + 1 ≤ steps_left st.
Proof.
  unfold steps_left.
  intros Hstep; destruct Hstep as [st i j Hi _ _ _|st i j k d phs _ _ _ Hi Hk _ _ _|st i k phs _ Hi Hk|st i phs Hi _ _|st i phs Hi Hp|st i Hi _];
    cbn [processes parts failed].
  - pose proof (sum_insert work_left _ _ _ Running Hi) as Hs. unfold work at 1 3. cbn [work_left] in Hs. lia.
  - pose proof (sum_insert work _ _ _ (<[k:=Running]> phs) Hi) as Hs.
    pose proof (sum_insert work_left _ _ _ Running Hk) as Hs'. unfold work in Hs at 2 4. cbn [work_left] in Hs'. lia.
  - pose proof (sum_insert work _ _ _ (<[k:=Done]> phs) Hi) as Hs.
    pose proof (sum_insert work_left _ _ _ Done Hk) as Hs'. unfold work in Hs at 2 4. cbn [work_left] in Hs'. lia.
  - pose proof (sum_insert work_left _ _ _ Done Hi) as Hs. unfold work at 1 3. cbn [work_left] in Hs. lia.
  - pose proof (sum_insert work_left _ _ _ Done Hi) as Hs. pose proof (sum_insert work _ _ _ (all_done phs) Hp) as Hs'.
    rewrite work_all_done in Hs'. unfold work at 1 3. cbn [work_left] in Hs. lia.
  - pose proof (sum_insert work_left _ _ _ Done Hi) as Hs. unfold work at 1 3. cbn [work_left] in Hs. lia.
Qed.

Lemma dag_steps_bound k st st' : nsteps dag_step k st st' → k + steps_left st' ≤ steps_left st.
Proof.
  induction 1 as [st|k st st1 st2 Hstep _ IH]; [lia|]. apply dag_step_left in Hstep. lia.
Qed.

(** ** Invariant *)

Definition is_done (st : dag_state) (p : nat) : Prop := processes st !! p = Some Done.
Definition part_is (st : dag_state) (i k : nat) (x : process) : Prop :=
  ∃ phs, parts st !! i = Some phs ∧ phs !! k = Some x.

(** Has begun, and was not cut short by a failure *)
Definition active (st : dag_state) (i : nat) : Prop :=
  processes st !! i = Some Running ∨ is_done st i ∧ failed st = false.
Definition part_active (st : dag_state) (i k : nat) : Prop :=
  part_is st i k Running ∨ part_is st i k Done ∧ failed st = false.

Record run_inv (st : dag_state) : Prop := {
  ri_length : length (processes st) = length js;
  ri_parts i j : js !! i = Some j → ∃ phs, parts st !! i = Some phs ∧ length phs = length (job_phases j);
  ri_waits i j p : active st i → js !! i = Some j → p ∈ awaits j → is_done st p;
  ri_inputs i j k d p : part_active st i k → js !! i = Some j → job_phases j !! k = Some (Some d) →
    p ∈ ph_inputs d → is_done st p;
  ri_after i j k d q : part_active st i k → js !! i = Some j → job_phases j !! k = Some (Some d) →
    q ∈ ph_after d → part_is st i q Done;
  ri_complete i phs : failed st = false → is_done st i → parts st !! i = Some phs → Forall (.= Done) phs;
}.

Lemma lookup_insert_cases {A} (l : list A) i j x y : <[i := x]> l !! j = Some y → i = j ∧ y = x ∨ l !! j = Some y.
Proof. intros [(-> & -> & _)|[_ Hl]]%list_lookup_insert_Some; auto. Qed.

Lemma done_stays (l : list process) i p q : l !! i ≠ Some Done → l !! p = Some Done → <[i := q]> l !! p = Some Done.
Proof. intros Hi Hp. rewrite list_lookup_insert_ne; [done|]. by intros ->. Qed.

Lemma step_keeps_done st st' p : dag_step st st' → is_done st p → is_done st' p.
Proof. unfold is_done. destruct 1 as [st i j Hi| | |st i phs Hi|st i phs Hi|st i Hi]; cbn; try done; apply done_stays; by rewrite Hi. Qed.

Lemma step_keeps_failed st st' : dag_step st st' → failed st' = false → failed st = false.
Proof. by destruct 1. Qed.

(** A phase list in which phase [k] changed and was not done *)
Lemma part_done_stays st i k phs x q j : parts st !! i = Some phs → phs !! k ≠ Some Done → part_is st j q Done →
  ∃ phs', <[i := <[k := x]> phs]> (parts st) !! j = Some phs' ∧ phs' !! q = Some Done.
Proof.
  intros Hi Hk (phs' & Hj & Hq). destruct (decide (i = j)) as [<-|Hne].
  - exists (<[k := x]> phs). rewrite list_lookup_insert_eq by (by eapply lookup_lt_Some). split; [done|].
    assert (phs' = phs) as -> by congruence. by apply done_stays.
  - exists phs'. by rewrite list_lookup_insert_ne.
Qed.

Lemma step_keeps_part st st' j q : dag_step st st' → part_is st j q Done → part_is st' j q Done.
Proof.
  destruct 1 as [| st i j' k d phs _ _ _ Hi Hk|st i k phs _ Hi Hk| |st i phs _ Hi|]; try done;
    [apply part_done_stays; [done|by rewrite Hk]..|].
  intros (phs' & Hj & Hq). unfold part_is. cbn. destruct (decide (i = j)) as [<-|Hne].
  - exists (all_done phs). rewrite list_lookup_insert_eq by (by eapply lookup_lt_Some). split; [done|].
    unfold all_done. assert (phs' = phs) as -> by congruence. by rewrite list_lookup_fmap, Hq.
  - exists phs'. by rewrite list_lookup_insert_ne.
Qed.

(** What begins has what it waits for. *)
Lemma step_active st st' i : dag_step st st' → active st' i →
  active st i ∨ ∃ j, js !! i = Some j ∧ ∀ p, p ∈ awaits j → is_done st p.
Proof.
  unfold active, is_done.
  destruct 1 as [st i' j Hi Hj Ha Hf| |st i' k phs Hi _ _|st i' phs Hi _ _|st i' phs Hi _|st i' Hi Hf]; cbn; try tauto.
  - intros [H|[H _]]; apply lookup_insert_cases in H as [[<- [=]]|H]; [right; by exists j|left; by left|left; by right].
  - intros [H|[H Hf]]; apply lookup_insert_cases in H as [[<- [=]]|H]; left; [by left|by left|by right].
  - intros [H|[_ [=]]]. apply lookup_insert_cases in H as [[<- [=]]|H]. left; by left.
  - intros [H|[_ [=]]]. apply lookup_insert_cases in H as [[<- [=]]|H]. left; by left.
Qed.

Lemma part_insert_cases st i k phs x j q y : parts st !! i = Some phs →
  (∃ phs', <[i := <[k := x]> phs]> (parts st) !! j = Some phs' ∧ phs' !! q = Some y) →
  i = j ∧ k = q ∧ y = x ∨ part_is st j q y.
Proof.
  intros Hi (phs' & [[<- ->]|Hj]%lookup_insert_cases & Hq); [|right; by exists phs'].
  apply lookup_insert_cases in Hq as [[<- ->]|Hq]; [by left|right; by exists phs].
Qed.

Lemma step_part_active st st' i k : dag_step st st' → part_active st' i k →
  part_active st i k ∨ ∃ j d, js !! i = Some j ∧ job_phases j !! k = Some (Some d) ∧
    (∀ p, p ∈ ph_inputs d → is_done st p) ∧ ∀ q, q ∈ ph_after d → part_is st i q Done.
Proof.
  unfold part_active. destruct 1 as [st i' j Hi Hj Ha Hf|st i' j k' d phs Hr Hj Hd Hi Hk Ha Hin Hf|st i' k' phs Hr Hi Hk|
    st i' phs Hi _ _|st i' phs Hi Hp|st i' Hi Hf]; cbn [failed].
  - intros [H|[H _]]; left; [by left|by right].
  - intros [H|[H _]]; apply part_insert_cases in H as [(<- & <- & [=])|H]; try done.
    + right. exists j, d. repeat (split; [done|]). intros q Hq. exists phs. auto.
    + left; by left.
    + left; by right.
  - intros [H|[H Hf]]; apply part_insert_cases in H as [(<- & <- & [=])|H]; try done; left; [by left| |by right].
    left. by exists phs.
  - intros [H|[H Hf]]; left; [by left|by right].
  - intros [(phs' & H & Hk)|[_ [=]]]. left. left. cbn in H. apply lookup_insert_cases in H as [[<- ->]|H]; [|by exists phs'].
    unfold all_done in Hk. by apply list_lookup_fmap_Some in Hk as (? & [=] & _).
  - intros [H|[_ [=]]]. left. by left.
Qed.

Lemma step_parts st st' i j : dag_step st st' →
  (∃ phs, parts st !! i = Some phs ∧ length phs = length (job_phases j)) →
  ∃ phs, parts st' !! i = Some phs ∧ length phs = length (job_phases j).
Proof.
  assert (∀ i' phs phs', parts st !! i' = Some phs → length phs' = length phs →
    (∃ x, parts st !! i = Some x ∧ length x = length (job_phases j)) →
    ∃ x, <[i' := phs']> (parts st) !! i = Some x ∧ length x = length (job_phases j)) as Hins.
  { intros i' phs phs' Hi' Hl (x & Hx & Hlx). destruct (decide (i' = i)) as [<-|Hne].
    - exists phs'. rewrite list_lookup_insert_eq by (by eapply lookup_lt_Some). split; [done|]. congruence.
    - exists x. by rewrite list_lookup_insert_ne. }
  destruct 1 as [|st i' j' k d phs _ _ _ Hi|st i' k phs _ Hi| |st i' phs _ Hi|]; try done; cbn; (eapply Hins; [exact Hi|]).
  - by rewrite length_insert.
  - by rewrite length_insert.
  - unfold all_done. by rewrite length_fmap.
Qed.

Lemma step_length st st' : dag_step st st' → length (processes st') = length (processes st).
Proof. destruct 1; cbn; by rewrite ?length_insert. Qed.

Lemma step_complete st st' i phs : dag_step st st' → run_inv st → failed st' = false → is_done st' i →
  parts st' !! i = Some phs → Forall (.= Done) phs.
Proof.
  unfold is_done. intros Hstep Hinv Hf. pose proof (step_keeps_failed _ _ Hstep Hf) as Hf0. pose proof (ri_complete _ Hinv i phs Hf0) as Hc.
  destruct Hstep as [st i' j Hi _ _ _|st i' j k d phs' Hi _ _ _ _ _ _ _|st i' k phs' Hi _ _|st i' phs' Hi Hp Hall| |]; cbn in *; try done.
  - intros [[_ [=]]|H]%lookup_insert_cases. by apply Hc.
  - intros Hd [[<- _]|Hph]%lookup_insert_cases; [congruence|by apply Hc].
  - intros Hd [[<- _]|Hph]%lookup_insert_cases; [congruence|by apply Hc].
  - intros [[<- _]|H]%lookup_insert_cases Hph; [|by apply Hc]. congruence.
Qed.

Lemma dag_step_inv st st' : run_inv st → dag_step st st' → run_inv st'.
Proof.
  intros Hinv Hstep. pose proof (λ p, step_keeps_done st st' p Hstep) as Hd. split.
  - rewrite (step_length _ _ Hstep). apply Hinv.
  - intros i j Hj. by eapply step_parts, ri_parts.
  - intros i j p Ha Hj Hp. apply Hd.
    destruct (step_active _ _ _ Hstep Ha) as [Ha'|(j' & Hj' & Hall)]; [by eapply ri_waits|].
    apply Hall. congruence.
  - intros i j k d p Ha Hj Hk Hp. apply Hd.
    destruct (step_part_active _ _ _ _ Hstep Ha) as [Ha'|(j' & d' & Hj' & Hk' & Hall & _)]; [by eapply ri_inputs|].
    apply Hall. congruence.
  - intros i j k d q Ha Hj Hk Hq. apply (step_keeps_part _ _ _ _ Hstep).
    destruct (step_part_active _ _ _ _ Hstep Ha) as [Ha'|(j' & d' & Hj' & Hk' & _ & Hall)]; [by eapply ri_after|].
    apply Hall. congruence.
  - intros i phs. by apply (step_complete st).
Qed.

Lemma start_inv : run_inv start_dag.
Proof.
  assert (∀ i, ¬ active start_dag i) as Hno.
  { intros i [H|[H _]]; unfold start_dag, is_done in H; cbn in H; by apply list_lookup_fmap_Some in H as (? & [=] & _). }
  assert (∀ i k x, part_is start_dag i k x → x = Waiting) as Hnop.
  { intros i k x (phs & H & Hk). unfold start_dag in H. cbn in H. apply list_lookup_fmap_Some in H as (j & -> & _).
    by apply list_lookup_fmap_Some in Hk as (? & -> & _). }
  assert (∀ i k, ¬ part_active start_dag i k) as Hnopart by (intros i k [H|[H _]]; by apply Hnop in H).
  split.
  - cbn. by rewrite length_fmap.
  - intros i j Hj. cbn. rewrite list_lookup_fmap, Hj. eexists. split; [done|]. by rewrite length_fmap.
  - intros i j p Ha. by destruct (Hno i).
  - intros i j k d p Ha. by destruct (Hnopart i k).
  - intros i j k d p Ha. by destruct (Hnopart i k).
  - intros i phs _ Hd. destruct (Hno i). by right.
Qed.

Lemma run_invariant k st : nsteps dag_step k start_dag st → run_inv st.
Proof.
  intros Hrun. pose proof start_inv as Hinv. revert Hinv.
  induction Hrun as [|k st st1 st2 Hstep _ IH]; [done|]. intros Hinv. apply IH. by eapply dag_step_inv.
Qed.

(** ** Progress *)

(** What a process waits for, before it starts or in a phase *)
Definition depends_on (j : job) (p : nat) : Prop :=
  p ∈ awaits j ∨ ∃ k d, job_phases j !! k = Some (Some d) ∧ p ∈ ph_inputs d.

Definition dependencies (j : job) : list nat :=
  awaits j ++ mjoin ((λ d, from_option ph_inputs [] d) <$> job_phases j).

Lemma elem_of_dependencies j p : p ∈ dependencies j ↔ depends_on j p.
Proof.
  unfold dependencies, depends_on. rewrite elem_of_app, list_elem_of_join. f_equiv. split.
  - intros (l & Hp & (d & -> & [k Hk]%list_elem_of_lookup)%list_elem_of_fmap).
    destruct d as [d|]; [by exists k, d|by apply elem_of_nil in Hp].
  - intros (k & d & Hk & Hp). exists (ph_inputs d). split; [done|]. apply list_elem_of_fmap. exists (Some d).
    split; [done|by eapply list_elem_of_lookup_2].
Qed.

(** Some process waits for [p], or none does. *)
Lemma depends_dec p : (∃ i j, js !! i = Some j ∧ depends_on j p) ∨ ∀ i j, js !! i = Some j → ¬ depends_on j p.
Proof.
  destruct (decide (Exists (λ j, p ∈ dependencies j) js)) as [(j & [i Hi]%list_elem_of_lookup & Hp)%Exists_exists|Hno].
  - left. exists i, j. by rewrite <- elem_of_dependencies.
  - right. intros i j Hi Hp. apply Hno, Exists_exists. exists j. rewrite elem_of_dependencies.
    split; [by eapply list_elem_of_lookup_2|done].
Qed.

(** Dependencies come earlier, and all of them can be looked up. *)
Record well_ordered : Prop := {
  wo_node i j p : js !! i = Some j → depends_on j p → p < i;
  wo_phase i j k : js !! i = Some j → k < length (job_phases j) →
    ∃ d, job_phases j !! k = Some (Some d) ∧ ∀ q, q ∈ ph_after d → q < k;
}.

Lemma least_undone (l : list process) :
  Forall (.= Done) l ∨ ∃ i, (∃ p, l !! i = Some p ∧ p ≠ Done) ∧ ∀ j, j < i → l !! j = Some Done.
Proof.
  induction l as [|x l IH]; [by left|]. destruct (decide (x = Done)) as [->|Hx].
  - destruct IH as [Hall|(i & Hi & Hlt)]; [left; by constructor|]. right. exists (S i). split; [done|].
    intros [|j] Hj; [done|]. apply Hlt. lia.
  - right. exists 0. split; [by exists x|]. lia.
Qed.

(** A process whose dependencies are done can go on. *)
Lemma running_progress st i j : well_ordered → run_inv st → processes st !! i = Some Running → js !! i = Some j →
  (∀ p, p < i → is_done st p) → ∃ st', dag_step st st' ∧ failed st' = failed st.
Proof.
  intros Hwo Hinv Hi Hj Hlt. destruct (ri_parts _ Hinv i j Hj) as (phs & Hphs & Hlen).
  destruct (failed st) eqn:Hf; [by eexists; split; [eapply step_fail|]|].
  destruct (least_undone phs) as [Hall|(k & (x & Hk & Hx) & Hbefore)].
  { eexists. split; [by eapply step_finish|done]. }
  destruct (wo_phase Hwo i j k Hj) as (d & Hd & Hafter); [rewrite <- Hlen; by eapply lookup_lt_Some|].
  destruct x; [|by eexists; split; [eapply step_phase_done|]|done].
  eexists. split; [eapply step_phase; try done|done].
  - intros q Hq. by apply Hbefore, Hafter.
  - intros p Hp. apply Hlt. eapply wo_node; [done..|]. right. by exists k, d.
Qed.

Lemma dag_progress st : well_ordered → run_inv st →
  Forall (.= Done) (processes st) ∨ ∃ st', dag_step st st' ∧ failed st' = failed st.
Proof.
  intros Hwo Hinv. destruct (least_undone (processes st)) as [|(i & (p & Hi & Hp) & Hlt)]; [by left|]. right.
  destruct (lookup_lt_is_Some_2 js i) as [j Hj]; [rewrite <- (ri_length _ Hinv); by eapply lookup_lt_Some|].
  destruct p; [|by eapply running_progress|done].
  destruct (failed st) eqn:Hf; [by eexists; split; [eapply step_skip|]|].
  eexists. split; [eapply step_start; try done|done]. intros q Hq. apply Hlt. eapply wo_node; [done..|]. by left.
Qed.

(** Without a failure a process that is done had everything it waits for. *)
Lemma done_depends st i j p : well_ordered → run_inv st → failed st = false → is_done st i → js !! i = Some j →
  depends_on j p → is_done st p.
Proof.
  intros Hwo Hinv Hf Hi Hj [Hp|(k & d & Hk & Hp)]; [eapply ri_waits; [done|by right|done..]|].
  destruct (ri_parts _ Hinv i j Hj) as (phs & Hphs & Hlen).
  pose proof (ri_complete _ Hinv i phs Hf Hi Hphs) as Hall.
  destruct (lookup_lt_is_Some_2 phs k) as [x Hx]; [rewrite Hlen; by eapply lookup_lt_Some|].
  eapply ri_inputs; [done| |done..]. right. split; [|done]. exists phs. split; [done|].
  rewrite Hx. f_equal. exact (Forall_lookup_1 _ _ _ _ Hall Hx).
Qed.

(** Without a failure the graph is done when every process without a successor is. *)
Lemma terminals_done st :
  well_ordered → run_inv st → failed st = false →
  (∀ i, i < length js → (∀ i' j, js !! i' = Some j → ¬ depends_on j i) → is_done st i) →
  Forall (.= Done) (processes st).
Proof.
  intros Hwo Hinv Hf Hterm. apply Forall_lookup. intros i p Hi.
  pose proof (lookup_lt_Some _ _ _ Hi) as Hlt. rewrite (ri_length _ Hinv) in Hlt.
  assert (is_done st i) as ?; [|unfold is_done in *; congruence]. clear p Hi.
  remember (length js - i) as k eqn:Hk. revert i Hlt Hk.
  induction k as [k IH] using lt_wf_ind. intros i Hlt ->.
  destruct (depends_dec i) as [(i' & j & Hj & Hdep)|Hno].
  - pose proof (wo_node Hwo _ _ _ Hj Hdep). pose proof (lookup_lt_Some _ _ _ Hj).
    eapply done_depends; [done..| |exact Hj|exact Hdep]. eapply (IH (length js - i')); lia.
  - apply Hterm; [done|]. eauto.
Qed.
End Steps.

(** ** Accepted graphs *)

Section Accepted.
Variable nodes : list ExecutionNode.
Hypothesis Hwf : well_formed nodes.

Lemma index_of_Ok id i : index_of nodes id = Ok i ↔ ∃ n, nodes !! i = Some n ∧ node_id n = id.
Proof.
  unfold index_of. destruct (list_find _ nodes) as [[j m]|] eqn:Hfind.
  - apply list_find_Some in Hfind as (Hj & Hid & _). split.
    + intros [= <-]. by exists m.
    + intros (n & Hn & Hnid). f_equal.
      eapply NoDup_lookup; [apply (wf_ids _ Hwf)|rewrite list_lookup_fmap, Hj; cbn; reflexivity|].
      rewrite list_lookup_fmap, Hn. cbn. congruence.
  - split; [done|]. intros (n & Hn & Hid). exfalso. apply list_find_None in Hfind.
    rewrite Forall_forall in Hfind. eapply Hfind; [by eapply list_elem_of_lookup_2|done].
Qed.

Lemma index_of_known id : id ∈ node_id <$> nodes → ∃ i, index_of nodes id = Ok i.
Proof.
  intros (n & -> & [i Hi]%list_elem_of_lookup)%list_elem_of_fmap. exists i. apply index_of_Ok. by exists n.
Qed.

Lemma predecessor_indices_Ok : ∃ preds, predecessor_indices nodes = Ok preds ∧ length preds = length nodes ∧
  ∀ i n ps, nodes !! i = Some n → preds !! i = Some ps → ∀ p, p ∈ ps ↔ ∃ m, nodes !! p = Some m ∧ node_id m ∈ predecessor_ids n.
Proof.
  destruct (mapM_total (λ n, mapM (index_of nodes) (predecessor_ids n)) nodes) as [preds Hp].
  { intros n Hn. apply mapM_total. intros id Hid. apply index_of_known.
    eapply depends_known; [done|]. by exists n. }
  exists preds. split; [done|]. apply mapM_Ok in Hp as Hall. split; [by eapply eq_sym, Forall2_length|].
  intros i n ps Hn Hps p. destruct (Forall2_lookup_l _ _ _ _ _ Hall Hn) as (ps' & Hps' & Hm).
  assert (ps' = ps) as -> by congruence. apply mapM_Ok in Hm. split.
  - intros [j Hj]%list_elem_of_lookup. destruct (Forall2_lookup_r _ _ _ _ _ Hm Hj) as (id & Hid & Hix).
    apply index_of_Ok in Hix as (m & Hpm & <-). exists m. split; [done|]. by eapply list_elem_of_lookup_2.
  - intros (m & Hpm & [j Hj]%list_elem_of_lookup). destruct (Forall2_lookup_l _ _ _ _ _ Hm Hj) as (p' & Hp' & Hix).
    assert (index_of nodes (node_id m) = Ok p) as Hix' by (apply index_of_Ok; by exists m).
    assert (p' = p) as -> by congruence. by eapply list_elem_of_lookup_2.
Qed.

Lemma preds_earlier preds i ps p :
  predecessor_indices nodes = Ok preds → preds !! i = Some ps → p ∈ ps → p < i.
Proof.
  intros Heq Hps Hp. destruct predecessor_indices_Ok as (preds' & Heq' & Hl & Hspec).
  assert (preds' = preds) as -> by congruence.
  destruct (lookup_lt_is_Some_2 nodes i) as [n Hn]; [rewrite <- Hl; by eapply lookup_lt_Some|].
  apply (Hspec i n ps Hn Hps) in Hp as (m & Hm & Hid).
  destruct (proj2 (wf_ordered _ Hwf i n Hn) _ Hid) as (j & m' & Hj & Hm' & Hid').
  assert (j = p) as <-; [|done].
  assert (index_of nodes (node_id m) = Ok j) as H1 by (apply index_of_Ok; by exists m').
  assert (index_of nodes (node_id m) = Ok p) as H2 by (apply index_of_Ok; by exists m). congruence.
Qed.

Lemma sink_index preds i n : predecessor_indices nodes = Ok preds → nodes !! i = Some n →
  (∀ j ps, preds !! j = Some ps → i ∉ ps) → node_id n ∈ sinks nodes.
Proof.
  intros Heq Hn Hno. destruct predecessor_indices_Ok as (preds' & Heq' & Hl & Hspec).
  assert (preds' = preds) as -> by congruence. apply list_elem_of_filter. split.
  - unfold referenced. intros (m & Hid & [j Hj]%list_elem_of_lookup)%list_elem_of_bind.
    destruct (lookup_lt_is_Some_2 preds j) as [ps Hps]; [rewrite Hl; by eapply lookup_lt_Some|].
    apply (Hno j ps Hps), (Hspec j m ps Hj Hps). by exists n.
  - apply list_elem_of_fmap. exists n. split; [done|]. by eapply list_elem_of_lookup_2.
Qed.

Lemma terminal_indices_Ok : ∃ ts, terminal_indices (mkDag nodes (sinks nodes)) = Ok ts ∧
  ∀ t, t ∈ ts ↔ ∃ n, nodes !! t = Some n ∧ node_id n ∈ sinks nodes.
Proof.
  destruct (mapM_total (index_of nodes) (sinks nodes)) as [ts Hts].
  { intros id [_ Hid]%list_elem_of_filter. by apply index_of_known. }
  exists ts. split; [done|]. apply mapM_Ok in Hts. intros t. split.
  - intros [j Hj]%list_elem_of_lookup. destruct (Forall2_lookup_r _ _ _ _ _ Hts Hj) as (id & Hid & Hix).
    apply index_of_Ok in Hix as (n & Hn & <-). exists n. split; [done|]. by eapply list_elem_of_lookup_2.
  - intros (n & Hn & [j Hj]%list_elem_of_lookup). destruct (Forall2_lookup_l _ _ _ _ _ Hts Hj) as (t' & Ht' & Hix).
    assert (index_of nodes (node_id n) = Ok t) as Hix' by (apply index_of_Ok; by exists n).
    assert (t' = t) as -> by congruence. by eapply list_elem_of_lookup_2.
Qed.

(** ** The jobs of an accepted graph *)

Lemma predecessor_index preds i n ps : predecessor_indices nodes = Ok preds → nodes !! i = Some n → preds !! i = Some ps →
  Forall2 (λ id p, index_of nodes id = Ok p) (predecessor_ids n) ps.
Proof.
  intros Hall%mapM_Ok Hn Hps. destruct (Forall2_lookup_l _ _ _ _ _ Hall Hn) as (ps' & Hps' & Hm).
  assert (ps' = ps) as -> by congruence. by apply mapM_Ok.
Qed.

Lemma elem_of_zip_preds n ps id p : Forall2 (λ id p, index_of nodes id = Ok p) (predecessor_ids n) ps →
  (id, p) ∈ zip (predecessor_ids n) ps ↔ id ∈ predecessor_ids n ∧ index_of nodes id = Ok p.
Proof.
  induction 1 as [|x y l k Hxy _ IH]; cbn; [rewrite !elem_of_nil; tauto|].
  rewrite !elem_of_cons, IH. split.
  - intros [[= -> ->]|[? ?]]; auto.
  - intros [[->|?] Hp]; [left; congruence|auto].
Qed.

Lemma zip_fst_preds {A B} (R : A → B → Prop) (l : list A) (k : list B) : Forall2 R l k → (zip l k).*1 = l.
Proof. induction 1; csimpl; congruence. Qed.

(** What the run needs of the phases of a node's plan: they follow earlier phases, and the
    ones that follow no other have exactly the endpoints of the node. *)
Record plan_ok (identity : Z → string) (endpoints : list string) (phs : list TrafficPhase) : Prop := {
  pl_ordered : ordered_phases phs;
  pl_known ph r : ph ∈ phs → ph_predecessor_ids ph = [] → r ∈ participants ph → identity r ∈ endpoints;
  pl_covered e : e ∈ endpoints → ∃ ph r, ph ∈ phs ∧ ph_predecessor_ids ph = [] ∧ r ∈ participants ph ∧ identity r = e;
}.

Lemma sound_plan_ok identity ranks phs : sound ranks phs → plan_ok identity (identity <$> ranks) phs.
Proof.
  intros (Ho & Hc & Hw). split; [done| |].
  - intros ph r Hph _ Hr. apply list_elem_of_fmap_2. by apply (Hw ph).
  - intros e (r & -> & Hr)%list_elem_of_fmap. destruct (Hc r Hr) as (ph & ? & ? & ?). by exists ph, r.
Qed.

(** [communication_plan(query).phases] of a collective whose query is accepted *)
Definition planned (p : TransferProvider) (dtype_of : ExecutionNode → DType) (n : ExecutionNode) : list TrafficPhase :=
  match ring_collective_phases p (dtype_of n) n with Ok phs => phs | Raise _ => [] end.

Lemma planned_ok p dtype_of n phs : ring_collective_phases p (dtype_of n) n = Ok phs →
  plan_ok (worker_identity p) (physical_workers n) (planned p dtype_of n).
Proof.
  unfold planned. intros Hp. rewrite Hp. apply ring_collective_phases_sound in Hp as (ranks & Hs & ->). by apply sound_plan_ok.
Qed.

Lemma phase_event_ordered phs k ph id : ordered_phases phs → phs !! k = Some ph → id ∈ ph_predecessor_ids ph →
  ∃ j ph', phase_event phs id = Some j ∧ j < k ∧ phs !! j = Some ph' ∧ phase_id ph' = id.
Proof.
  intros Ho Hk Hid. destruct (Ho k ph id Hk Hid) as (j & ph' & Hj & Hph' & Heq). unfold phase_event.
  destruct (list_find (λ ph, phase_id ph = id) phs) as [[i x]|] eqn:Hfind.
  - apply list_find_Some in Hfind as (Hi & Hx & Hfirst). exists i, x. split; [done|]. split; [|done].
    destruct (decide (i ≤ j)); [lia|]. destruct (Hfirst j ph' Hph'); [lia|done].
  - apply list_find_None in Hfind. rewrite Forall_forall in Hfind. destruct (Hfind ph'); [by eapply list_elem_of_lookup_2|done].
Qed.

Section Physical.
Variables (physical : bool) (plan : ExecutionNode → list TrafficPhase) (identity : Z → string).
Hypothesis Hvalid : ∀ n, n ∈ nodes → valid_node n = true.
Hypothesis Hplans : ∀ n, n ∈ nodes → has_subgroup_inputs physical n = true → plan_ok identity (physical_workers n) (plan n).

Variable preds : list (list nat).
Hypothesis Hpreds : predecessor_indices nodes = Ok preds.

Abbreviation js := (jobs physical plan identity nodes preds).
Abbreviation subgroup := (has_subgroup_inputs physical).

(** Inputs of a collective: the endpoints are its workers, the producers its predecessors. *)
Lemma valid_inputs n : n ∈ nodes → subgroup n = true →
  (input_producer_ids n).*1 = physical_workers n ∧ NoDup (input_producer_ids n).*1 ∧
  ∀ b, b ∈ input_producer_ids n → b.2 ∈ predecessor_ids n.
Proof.
  intros Hn Hs. pose proof (Hvalid n Hn) as Hv. unfold valid_node in Hv. rewrite !andb_true_iff in Hv. destruct Hv as [_ Hv].
  unfold has_subgroup_inputs in Hs. destruct (input_producer_ids n) as [|b l]; [done|].
  rewrite !andb_true_iff, !bool_decide_eq_true in Hv. destruct Hv as [[[_ H1] H2] H3].
  split; [done|]. split; [by apply distinct_true|]. rewrite forallb_true in H3.
  intros x Hx. by apply H3, bool_decide_eq_true in Hx.
Qed.

Lemma jobs_lookup i j : js !! i = Some j ↔
  ∃ n ps, nodes !! i = Some n ∧ preds !! i = Some ps ∧ j = job_of physical plan identity n ps.
Proof.
  unfold jobs. rewrite lookup_zip_with_Some. naive_solver.
Qed.

Lemma jobs_length : length js = length nodes.
Proof.
  unfold jobs. rewrite length_zip_with. destruct predecessor_indices_Ok as (preds' & Heq & Hl & _). assert (preds' = preds) as -> by congruence. lia.
Qed.

Lemma input_event_Some n ps e p : n ∈ nodes → subgroup n = true →
  Forall2 (λ id p, index_of nodes id = Ok p) (predecessor_ids n) ps →
  input_event n ps e = Some p ↔ ∃ id, (e, id) ∈ input_producer_ids n ∧ index_of nodes id = Ok p.
Proof.
  intros Hn Hs Hall. destruct (valid_inputs n Hn Hs) as (_ & Hnd & Hpre). unfold input_event. split.
  - intros (id & Hid%dict_of_Some & Hp%dict_of_Some)%bind_Some. exists id. split; [done|].
    by apply (elem_of_zip_preds n ps id p Hall) in Hp as [_ Hp].
  - intros (id & Hid & Hp). rewrite (dict_of_nodup _ _ _ Hnd Hid). cbn. unfold events_by_id.
    destruct (dict_of_is_Some (zip (predecessor_ids n) ps) id) as [p' Hp'].
    { rewrite (zip_fst_preds _ _ _ Hall). exact (Hpre (e, id) Hid). }
    rewrite Hp'. apply dict_of_Some, (elem_of_zip_preds n ps id p' Hall) in Hp' as [_ Hp']. congruence.
Qed.

Lemma input_event_total n ps e : n ∈ nodes → subgroup n = true →
  Forall2 (λ id p, index_of nodes id = Ok p) (predecessor_ids n) ps → e ∈ physical_workers n → is_Some (input_event n ps e).
Proof.
  intros Hn Hs Hall He. destruct (valid_inputs n Hn Hs) as (Hw & _ & Hpre). rewrite <- Hw in He.
  apply list_elem_of_fmap in He as ([e' id] & -> & Hb). specialize (Hpre _ Hb).
  destruct (index_of_known id) as [p Hp].
  { apply list_elem_of_lookup in Hn as [i Hi]. destruct (proj2 (wf_ordered _ Hwf i n Hi) id Hpre) as (j & m & _ & Hm & <-).
    apply list_elem_of_fmap_2. by eapply list_elem_of_lookup_2. }
  exists p. apply input_event_Some; [done..|]. by exists id.
Qed.

(** What a phase waits for *)
Lemma phase_dependencies_Some n ps k ph : n ∈ nodes → subgroup n = true →
  Forall2 (λ id p, index_of nodes id = Ok p) (predecessor_ids n) ps → plan n !! k = Some ph →
  ∃ d, phase_dependencies plan identity n ps ph = Some d ∧
    (∀ q, q ∈ ph_after d → q < k) ∧
    (∀ id, id ∈ ph_predecessor_ids ph → ∃ q ph', q ∈ ph_after d ∧ plan n !! q = Some ph' ∧ phase_id ph' = id) ∧
    ∀ p, p ∈ ph_inputs d ↔ ph_predecessor_ids ph = [] ∧
      ∃ r id, r ∈ participants ph ∧ (identity r, id) ∈ input_producer_ids n ∧ index_of nodes id = Ok p.
Proof.
  intros Hn Hs Hall Hk. pose proof (Hplans n Hn Hs) as [Ho Hknown _].
  assert (ph ∈ plan n) as Hin by by eapply list_elem_of_lookup_2.
  destruct (mapM_is_Some_2 (phase_event (plan n)) (ph_predecessor_ids ph)) as [after Hafter].
  { apply Forall_forall. intros id Hid. destruct (phase_event_ordered _ _ _ _ Ho Hk Hid) as (j & ph' & Hj & _). by exists j. }
  assert (∃ inputs, (if bool_decide (ph_predecessor_ids ph = [])
      then mapM (λ rank, input_event n ps (identity rank)) (participants ph) else Some []) = Some inputs) as [inputs Hinputs].
  { case_bool_decide as Hroot; [|by eexists]. apply mapM_is_Some_2, Forall_forall. intros r Hr.
    apply input_event_total; try done. by eapply Hknown. }
  exists (mkPhaseJob after inputs). unfold phase_dependencies. rewrite Hafter. cbn [mbind option_bind]. rewrite Hinputs.
  cbn [mbind option_bind]. split; [done|]. cbn [ph_after ph_inputs]. apply mapM_Some in Hafter. split; [|split].
  - intros q [l Hl]%list_elem_of_lookup. destruct (Forall2_lookup_r _ _ _ _ _ Hafter Hl) as (id & Hid & Hq).
    destruct (phase_event_ordered _ _ _ id Ho Hk) as (j & ph' & Hj & Hlt & _); [by eapply list_elem_of_lookup_2|]. congruence.
  - intros id Hid. destruct (phase_event_ordered _ _ _ id Ho Hk Hid) as (j & ph' & Hj & _ & Hph' & Heq).
    apply list_elem_of_lookup in Hid as [l Hl]. destruct (Forall2_lookup_l _ _ _ _ _ Hafter Hl) as (q & Hq & Hqe).
    exists j, ph'. split; [|done]. assert (q = j) as <- by congruence. by eapply list_elem_of_lookup_2.
  - intros p. case_bool_decide as Hroot; [|injection Hinputs as <-; rewrite elem_of_nil; tauto].
    apply mapM_Some in Hinputs. split.
    + intros [l Hl]%list_elem_of_lookup. destruct (Forall2_lookup_r _ _ _ _ _ Hinputs Hl) as (r & Hr & Hp).
      apply (input_event_Some n ps) in Hp as (id & Hid & Hp); try done. split; [done|]. exists r, id.
      split; [by eapply list_elem_of_lookup_2|done].
    + intros (_ & r & id & [l Hl]%list_elem_of_lookup & Hid & Hp).
      destruct (Forall2_lookup_l _ _ _ _ _ Hinputs Hl) as (p' & Hp' & Hr).
      assert (input_event n ps (identity r) = Some p) as Heq by (apply input_event_Some; [done..|by exists id]).
      assert (p' = p) as -> by congruence. by eapply list_elem_of_lookup_2.
Qed.

Lemma zip_index n ps p : Forall2 (λ id p, index_of nodes id = Ok p) (predecessor_ids n) ps →
  p ∈ ps ↔ ∃ id, id ∈ predecessor_ids n ∧ index_of nodes id = Ok p.
Proof.
  intros Hall. split.
  - intros [l Hl]%list_elem_of_lookup. destruct (Forall2_lookup_r _ _ _ _ _ Hall Hl) as (id & Hid & Hp).
    exists id. split; [by eapply list_elem_of_lookup_2|done].
  - intros (id & [l Hl]%list_elem_of_lookup & Hp). destruct (Forall2_lookup_l _ _ _ _ _ Hall Hl) as (p' & Hp' & Heq).
    assert (p' = p) as -> by congruence. by eapply list_elem_of_lookup_2.
Qed.

Lemma elem_of_awaited n ps p : Forall2 (λ id p, index_of nodes id = Ok p) (predecessor_ids n) ps →
  p ∈ awaited physical n ps ↔ ∃ id, id ∈ predecessor_ids n ∧ index_of nodes id = Ok p ∧
    (subgroup n = true → id ∉ (input_producer_ids n).*2).
Proof.
  intros Hall. unfold awaited. destruct (subgroup n).
  - split.
    + intros ([id p'] & -> & [Hno [Hid Hp]%(elem_of_zip_preds n ps)]%list_elem_of_filter)%list_elem_of_fmap; [|done].
      exists id. auto.
    + intros (id & Hid & Hp & Hno). apply list_elem_of_fmap. exists (id, p). split; [done|].
      apply list_elem_of_filter. split; [by apply Hno|]. by apply elem_of_zip_preds.
  - rewrite (zip_index n ps p Hall). naive_solver.
Qed.

(** A process depends on exactly its predecessors: on the producers of a collective's inputs
    through its phases, on the others before it starts. *)
Lemma job_depends i n ps p : nodes !! i = Some n → preds !! i = Some ps →
  depends_on (job_of physical plan identity n ps) p ↔ p ∈ ps.
Proof.
  intros Hi Hps. pose proof (predecessor_index preds i n ps Hpreds Hi Hps) as Hall.
  assert (n ∈ nodes) as Hn by by eapply list_elem_of_lookup_2.
  unfold depends_on, job_of. cbn [awaits job_phases]. rewrite elem_of_awaited, (zip_index n ps p) by done.
  destruct (subgroup n) eqn:Hs.
  2: { split; [|naive_solver]. intros [?|(k & d & Hk & _)]; [naive_solver|]. by rewrite lookup_nil in Hk. }
  destruct (valid_inputs n Hn Hs) as (Hw & _ & Hpre). split.
  - intros [(id & ? & ? & _)|(k & d & Hk & Hp)]; [by exists id|].
    apply list_lookup_fmap_Some in Hk as (ph & Heq & Hph).
    destruct (phase_dependencies_Some n ps k ph Hn Hs Hall Hph) as (d' & Hd' & _ & _ & Hin).
    assert (d' = d) as -> by congruence. apply Hin in Hp as (_ & r & id & _ & Hb & Hp). exists id. split; [exact (Hpre _ Hb)|done].
  - intros (id & Hid & Hp). destruct (decide (id ∈ (input_producer_ids n).*2)) as [Hdata|]; [right|left; by exists id].
    apply list_elem_of_fmap in Hdata as ([e id'] & -> & Hb). destruct (Hplans n Hn Hs) as [_ _ Hcov].
    destruct (Hcov e) as (ph & r & [k Hk]%list_elem_of_lookup & Hroot & Hr & He).
    { rewrite <- Hw. apply list_elem_of_fmap. by exists (e, id'). }
    destruct (phase_dependencies_Some n ps k ph Hn Hs Hall Hk) as (d & Hd & _ & _ & Hin).
    exists k, d. rewrite list_lookup_fmap, Hk. cbn. split; [by rewrite Hd|]. apply Hin. split; [done|].
    exists r, id'. by rewrite He.
Qed.

Lemma jobs_ordered : well_ordered js.
Proof.
  split.
  - intros i j p (n & ps & Hi & Hps & ->)%jobs_lookup Hp%(job_depends i); [|done..].
    by eapply (preds_earlier preds i ps).
  - intros i j k (n & ps & Hi & Hps & ->)%jobs_lookup. unfold job_of. cbn [job_phases].
    assert (n ∈ nodes) as Hn by by eapply list_elem_of_lookup_2.
    destruct (subgroup n) eqn:Hs; [|cbn; lia]. rewrite length_fmap. intros [ph Hph]%lookup_lt_is_Some_2.
    destruct (phase_dependencies_Some n ps k ph Hn Hs) as (d & Hd & Hlt & _); [by eapply predecessor_index|done|].
    exists d. rewrite list_lookup_fmap, Hph. cbn. by rewrite Hd.
Qed.

Lemma work_waiting {A} (l : list A) : work ((λ _, Waiting) <$> l) = 2 * length l.
Proof. unfold work. induction l as [|x l IH]; [done|]. csimpl. lia. Qed.

Lemma steps_left_start : steps_left (start_dag js) = 2 * (length nodes + phase_count js).
Proof.
  unfold steps_left, start_dag, phase_count. cbn [processes parts]. rewrite work_waiting, jobs_length.
  assert (∀ l : list job, sum_list (work <$> ((λ j, (λ _, Waiting) <$> job_phases j) <$> l)) =
    2 * sum_list ((λ j, length (job_phases j)) <$> l)) as ->; [|lia].
  induction l as [|j l IH]; [done|]. csimpl. rewrite work_waiting, IH. lia.
Qed.

(** ** What a run respects *)

Section Reached.
Variable st : dag_state.
Hypothesis Hinv : run_inv js st.

Variables (i : nat) (n : ExecutionNode).
Hypothesis Hi : nodes !! i = Some n.

Lemma job_at : ∃ ps, preds !! i = Some ps ∧ js !! i = Some (job_of physical plan identity n ps) ∧
  Forall2 (λ id p, index_of nodes id = Ok p) (predecessor_ids n) ps.
Proof.
  destruct (lookup_lt_is_Some_2 preds i) as [ps Hps].
  { destruct predecessor_indices_Ok as (preds' & Heq & Hl & _). assert (preds' = preds) as -> by congruence.
    rewrite Hl. by eapply lookup_lt_Some. }
  exists ps. split; [done|]. split; [apply jobs_lookup; eauto|by eapply predecessor_index].
Qed.

Lemma index_of_node j m : nodes !! j = Some m → index_of nodes (node_id m) = Ok j.
Proof. intros Hj. apply index_of_Ok. by exists m. Qed.

Lemma active_waits j m : active st i → nodes !! j = Some m → node_id m ∈ predecessor_ids n →
  is_done st j ∨ subgroup n = true ∧ node_id m ∈ (input_producer_ids n).*2.
Proof.
  intros Ha Hj Hin. destruct job_at as (ps & Hps & Hjs & Hall).
  destruct (decide (subgroup n = true ∧ node_id m ∈ (input_producer_ids n).*2)) as [|Hno]; [by right|]. left.
  eapply (ri_waits _ _ Hinv); [exact Ha|exact Hjs|]. cbn [awaits job_of]. apply elem_of_awaited; [done|].
  exists (node_id m). split; [done|]. split; [by apply index_of_node|]. tauto.
Qed.

Lemma part_phase q x : part_is st i q x → subgroup n = true ∧ ∃ ps ph d, js !! i = Some (job_of physical plan identity n ps) ∧
  plan n !! q = Some ph ∧ job_phases (job_of physical plan identity n ps) !! q = Some (Some d) ∧
  (∀ id, id ∈ ph_predecessor_ids ph → ∃ q' ph', q' ∈ ph_after d ∧ plan n !! q' = Some ph' ∧ phase_id ph' = id) ∧
  ∀ p, p ∈ ph_inputs d ↔ ph_predecessor_ids ph = [] ∧
    ∃ r id, r ∈ participants ph ∧ (identity r, id) ∈ input_producer_ids n ∧ index_of nodes id = Ok p.
Proof.
  intros (phs & Hphs & Hq). destruct job_at as (ps & Hps & Hjs & Hall).
  destruct (ri_parts _ _ Hinv _ _ Hjs) as (phs' & Hphs' & Hlen). assert (phs' = phs) as -> by congruence.
  apply lookup_lt_Some in Hq. rewrite Hlen in Hq. unfold job_of in Hq. cbn [job_phases] in Hq.
  destruct (subgroup n) eqn:Hs; [|cbn in Hq; lia]. rewrite length_fmap in Hq. apply lookup_lt_is_Some_2 in Hq as [ph Hph].
  split; [done|]. destruct (phase_dependencies_Some n ps q ph) as (d & Hd & _ & Hafter & Hin); try done.
  { by eapply list_elem_of_lookup_2. }
  exists ps, ph, d. split; [done|]. split; [done|]. split; [|done]. unfold job_of. cbn [job_phases].
  by rewrite Hs, list_lookup_fmap, Hph; cbn; rewrite Hd.
Qed.

Lemma phase_waits q ph r j m : part_is st i q Running → plan n !! q = Some ph → ph_predecessor_ids ph = [] →
  r ∈ participants ph → (identity r, node_id m) ∈ input_producer_ids n → nodes !! j = Some m → is_done st j.
Proof.
  intros Hq Hph Hroot Hr Hb Hj. destruct (part_phase q _ Hq) as (_ & ps & ph' & d & Hjs & Hph' & Hd & _ & Hin).
  assert (ph' = ph) as -> by congruence. eapply (ri_inputs _ _ Hinv); [left; exact Hq|exact Hjs|exact Hd|].
  apply Hin. split; [done|]. exists r, (node_id m). split; [done|]. split; [done|]. by apply index_of_node.
Qed.

Lemma phase_follows q ph id : part_is st i q Running → plan n !! q = Some ph → id ∈ ph_predecessor_ids ph →
  ∃ q' ph', plan n !! q' = Some ph' ∧ phase_id ph' = id ∧ part_is st i q' Done.
Proof.
  intros Hq Hph Hid. destruct (part_phase q _ Hq) as (_ & ps & ph' & d & Hjs & Hph' & Hd & Hafter & _).
  assert (ph' = ph) as -> by congruence. destruct (Hafter id Hid) as (q' & x & Hq' & Hx & Hxid). exists q', x.
  split; [done|]. split; [done|]. by eapply (ri_after _ _ Hinv); [left; exact Hq|exact Hjs|exact Hd|].
Qed.

Lemma done_predecessors j m : failed st = false → is_done st i → nodes !! j = Some m → node_id m ∈ predecessor_ids n →
  is_done st j.
Proof.
  intros Hf Hd Hj Hin. destruct job_at as (ps & Hps & Hjs & Hall).
  eapply (done_depends _ st i); [exact jobs_ordered|done|done|done|exact Hjs|].
  apply (job_depends i n ps j Hi Hps), (zip_index n ps j Hall). exists (node_id m). split; [done|by apply index_of_node].
Qed.
End Reached.

(** Without a failure everything is done once the terminal nodes are. *)
Lemma sinks_done st : run_inv js st → failed st = false →
  (∀ i n, nodes !! i = Some n → node_id n ∈ sinks nodes → is_done st i) → Forall (.= Done) (processes st).
Proof.
  intros Hinv Hf Hterm. apply (terminals_done js); [exact jobs_ordered|done|done|].
  intros i Hi Hno. rewrite jobs_length in Hi. destruct (lookup_lt_is_Some_2 nodes i Hi) as [n Hn].
  apply (Hterm i n Hn). apply (sink_index preds i n Hpreds Hn). intros j ps Hps Hin.
  destruct predecessor_indices_Ok as (preds' & Heq & Hl & _). assert (preds' = preds) as -> by congruence.
  destruct (lookup_lt_is_Some_2 nodes j) as [m Hm]; [rewrite <- Hl; by eapply lookup_lt_Some|].
  apply (Hno j (job_of physical plan identity m ps)); [apply jobs_lookup; eauto|]. by apply (job_depends j).
Qed.
End Physical.
End Accepted.
