(* ===== verification/AfMerge.v ===== *)
(** * What merging does to a graph

    [merge_nodes] contracts a well-formed graph: every group of equal transfers is
    represented by its first node, and the result is the list of representatives with
    the dependencies of all the nodes they stand for. *)

From stdpp Require Import gmap list strings relations.
From Stdlib Require Import ZArith Lia.
From S2P Require Import Prelude.
From S2P Require Import Buckets.
From S2P Require Import AfNodes.
From S2P Require Import AfDag.
From S2P Require Import AfGraph.
From S2P Require Import AfCoalesce.

Open Scope Z_scope.

(** ** Contractions *)

(** The bytes all nodes of an operation carry *)
Definition payload_of (op : string) (nodes : list ExecutionNode) : Z :=
  zsum ((λ n, if decide (operation n = op) then default 0 (payload_bytes n) else 0) <$> nodes).

Record contracts (al : string → string) (nodes nodes' : list ExecutionNode) : Prop := {
  ct_wf : well_formed nodes';
  ct_valid n : n ∈ nodes' → valid_node n = true;
  ct_ids x : x ∈ node_id <$> nodes' ↔ ∃ y, y ∈ node_id <$> nodes ∧ al y = x;
  ct_depends a b : depends nodes' a b ↔ ∃ a0 b0, depends nodes a0 b0 ∧ al a0 = a ∧ al b0 = b;
  ct_payload op : payload_of op nodes' = payload_of op nodes;
  ct_slices : nodes' ≫= tensor_slices ≡ₚ nodes ≫= tensor_slices;
  ct_edges e : e ∈ nodes' ≫= routing_edges ↔ e ∈ nodes ≫= routing_edges;
}.

Lemma contracts_trans f g nodes nodes1 nodes2 :
  contracts f nodes nodes1 → contracts g nodes1 nodes2 → contracts (g ∘ f) nodes nodes2.
Proof.
  intros C1 C2. split.
  - apply (ct_wf _ _ _ C2).
  - apply (ct_valid _ _ _ C2).
  - intros x. rewrite (ct_ids _ _ _ C2). setoid_rewrite (ct_ids _ _ _ C1). naive_solver.
  - intros a b. rewrite (ct_depends _ _ _ C2). setoid_rewrite (ct_depends _ _ _ C1). naive_solver.
  - intros op. by rewrite (ct_payload _ _ _ C2), (ct_payload _ _ _ C1).
  - by rewrite (ct_slices _ _ _ C2), (ct_slices _ _ _ C1).
  - intros e. by rewrite (ct_edges _ _ _ C2), (ct_edges _ _ _ C1).
Qed.

(** Order by prefixes instead of indices *)
Lemma ordered_split nodes :
  ordered nodes ↔ ∀ l1 n l2, nodes = l1 ++ n :: l2 →
    NoDup (predecessor_ids n) ∧ ∀ p, p ∈ predecessor_ids n → p ∈ node_id <$> l1.
Proof.
  split.
  - intros Ho l1 n l2 ->. destruct (Ho (length l1) n) as [Hnd Hp]; [by apply list_lookup_middle|].
    split; [done|]. intros p (j & m & Hj & Hm & <-)%Hp. rewrite lookup_app_l in Hm by done.
    apply list_elem_of_fmap. exists m. split; [done|]. by eapply list_elem_of_lookup_2.
  - intros Hs i n Hi. destruct (Hs (take i nodes) n (drop (S i) nodes)) as [Hnd Hp].
    { symmetry. by apply take_drop_middle. }
    split; [done|]. intros p (m & -> & [j Hj]%list_elem_of_lookup)%Hp%list_elem_of_fmap.
    apply lookup_take_Some in Hj as [Hj Hlt]. by exists j, m.
Qed.

Lemma fmap_filter_split {A B} (f : A → B) (P : A → Prop) `{∀ x, Decision (P x)} (l : list A) k1 y k2 :
  f <$> filter P l = k1 ++ y :: k2 →
  ∃ l1 x l2, l = l1 ++ x :: l2 ∧ k1 = f <$> filter P l1 ∧ y = f x ∧ P x.
Proof.
  revert k1. induction l as [|x l IH]; intros k1; [by destruct k1|].
  rewrite filter_cons. destruct (decide (P x)) as [Hx|Hx].
  - destruct k1 as [|z k1]; cbn; intros [= Hy Hrest].
    + by exists [], x, l.
    + destruct (IH _ Hrest) as (l1 & x' & l2 & -> & -> & -> & ?).
      exists (x :: l1), x', l2. split; [done|]. split; [|done]. rewrite filter_cons_True by done. cbn. by f_equal.
  - intros Heq. destruct (IH _ Heq) as (l1 & x' & l2 & -> & -> & -> & ?).
    exists (x :: l1), x', l2. split; [done|]. by rewrite filter_cons_False by done.
Qed.

Lemma omap_if {A B} (f : A → B) (P : A → Prop) `{∀ x, Decision (P x)} (g : A → option B) (l : list A) :
  (∀ x, x ∈ l → g x = if decide (P x) then Some (f x) else None) → omap g l = f <$> filter P l.
Proof.
  induction l as [|x l IH]; intros Hg; [done|]. rewrite filter_cons. cbn.
  rewrite (Hg x (list_elem_of_here _ _)), IH by set_solver. by destruct (decide (P x)).
Qed.

Lemma string_length_app a b : String.length (a +:+ b) = (String.length a + String.length b)%nat.
Proof. induction a as [|x a IH]; [done|]. exact (f_equal S IH). Qed.

Lemma batch_id_inj a b : batch_id a = batch_id b → a = b.
Proof.
  unfold batch_id. revert b. induction a as [|x a IH]; intros [|y b] Heq; try done.
  1, 2: apply (f_equal String.length) in Heq; rewrite !string_length_app in Heq; cbn in Heq; lia.
  injection Heq as -> Heq. f_equal. by apply IH.
Qed.

Lemma bind_bind {A B C} (f : A → list B) (g : B → list C) l : (l ≫= f) ≫= g = l ≫= λ x, f x ≫= g.
Proof. induction l as [|x l IH]; [done|]. csimpl. by rewrite bind_app, IH. Qed.

Lemma bind_ext_in {A B} (f g : A → list B) l : (∀ x, x ∈ l → f x = g x) → l ≫= f = l ≫= g.
Proof.
  induction l as [|x l IH]; intros Hfg; [done|]. csimpl. rewrite (Hfg x (list_elem_of_here _ _)), IH; [done|].
  intros y Hy. apply Hfg. by right.
Qed.

Lemma fmap_bind {A B C} (f : A → B) (g : B → list C) l : (f <$> l) ≫= g = l ≫= λ x, g (f x).
Proof. induction l as [|x l IH]; [done|]. csimpl. by rewrite IH. Qed.

(** ** Groups *)

Section Merge.
Variables (nodes : list ExecutionNode) (ops : list string).
Hypothesis Hwf : well_formed nodes.
Hypothesis Hvalid : ∀ n, n ∈ nodes → valid_node n = true.
Hypothesis Hfresh : ∀ n m, n ∈ nodes → m ∈ nodes → node_id m ≠ batch_id (node_id n).
Implicit Types (n m : ExecutionNode).

Definition sel : list ExecutionNode := with_operation ops nodes.

Definition group n : list ExecutionNode := filter (λ m, merge_key m = merge_key n) sel.

Definition big n : Prop := n ∈ sel ∧ (2 <= length (group n))%nat.

#[local] Instance big_dec n : Decision (big n).
Proof. unfold big. apply _. Defined.

(** The node that stands for [n] *)
Definition rep n : ExecutionNode := if decide (big n) then default n (head (group n)) else n.

Lemma elem_of_sel n : n ∈ sel ↔ operation n ∈ ops ∧ n ∈ nodes.
Proof. unfold sel, with_operation. by rewrite list_elem_of_filter. Qed.

Lemma elem_of_group n m : m ∈ group n ↔ merge_key m = merge_key n ∧ m ∈ sel.
Proof. unfold group. by rewrite list_elem_of_filter. Qed.

Lemma group_key n m : merge_key m = merge_key n → group m = group n.
Proof. intros Hk. unfold group. by rewrite Hk. Qed.

Lemma big_key n m : m ∈ sel → merge_key m = merge_key n → big n → big m.
Proof. intros Hm Hk [_ Hl]. split; [done|]. by rewrite (group_key n m). Qed.

Lemma big_group n : big n → ∃ f rest, group n = f :: rest ∧ rep n = f ∧ f ∈ sel ∧ merge_key f = merge_key n ∧
  big f ∧ rep f = f ∧ group f = group n.
Proof.
  intros Hbig. pose proof Hbig as [Hn Hl].
  destruct (group n) as [|f rest] eqn:Hg; cbn in Hl; [lia|].
  assert (f ∈ group n) as [Hk Hf]%elem_of_group by (rewrite Hg; left).
  assert (big f) as Hbf by (by eapply big_key). exists f, rest. split; [done|].
  assert (group f = group n) as Hgf by (by apply group_key).
  unfold rep. rewrite !decide_True by done. rewrite Hgf, Hg. done.
Qed.

Lemma rep_small n : ¬ big n → rep n = n.
Proof. intros Hb. unfold rep. by rewrite decide_False. Qed.

Lemma rep_key n m : m ∈ sel → big n → merge_key m = merge_key n → rep m = rep n.
Proof.
  intros Hm Hb Hk. pose proof (big_key n m Hm Hk Hb) as Hbm.
  destruct (big_group n Hb) as (f & r & Hg & -> & _). destruct (big_group m Hbm) as (f' & r' & Hg' & -> & _).
  rewrite (group_key n m Hk), Hg in Hg'. by injection Hg'.
Qed.

Lemma rep_rep n : rep (rep n) = rep n.
Proof.
  destruct (decide (big n)) as [Hb|Hb].
  - by destruct (big_group n Hb) as (f & r & _ & -> & _ & _ & _ & ? & _).
  - by rewrite !(rep_small n Hb).
Qed.

Lemma rep_nodes n : n ∈ nodes → rep n ∈ nodes.
Proof.
  intros Hn. destruct (decide (big n)) as [Hb|Hb]; [|by rewrite (rep_small n Hb)].
  destruct (big_group n Hb) as (f & r & _ & -> & Hf%elem_of_sel & _). by destruct Hf.
Qed.

Lemma big_rep n : big (rep n) ↔ big n.
Proof.
  destruct (decide (big n)) as [Hb|Hb]; [|by rewrite (rep_small n Hb)].
  destruct (big_group n Hb) as (f & r & _ & -> & _ & _ & Hbf & _). tauto.
Qed.

Lemma rep_merge_key n : merge_key (rep n) = merge_key n.
Proof.
  destruct (decide (big n)) as [Hb|Hb]; [|by rewrite (rep_small n Hb)].
  by destruct (big_group n Hb) as (f & r & _ & -> & _ & ? & _).
Qed.

Lemma rep_predecessors n : predecessor_ids (rep n) = predecessor_ids n.
Proof. by injection (rep_merge_key n) as ??. Qed.

Lemma elem_of_batches g : g ∈ batches ops nodes ↔ ∃ n, big n ∧ g = group n.
Proof.
  unfold batches. fold sel. destruct (group_by_spec merge_key sel) as [_ Hb Hne Hkey].
  rewrite list_elem_of_filter, list_elem_of_fmap. split.
  - intros (Hl & [k b] & -> & Hin). cbn in Hl |- *. pose proof (Hb _ _ Hin) as Heq.
    destruct b as [|n b']; [cbn in Hl; lia|].
    assert (n ∈ filter (λ x, merge_key x = k) sel) as [<- Hn]%list_elem_of_filter by (rewrite <- Heq; left).
    exists n. split; [split; [done|]|done]. unfold group. by rewrite <- Heq.
  - intros (n & [Hn Hl] & ->). split; [done|].
    apply Hkey, list_elem_of_fmap in Hn as ([k b] & Hk & Hin). cbn in Hk. subst k.
    exists (merge_key n, b). split; [|done]. cbn. by rewrite (Hb _ _ Hin).
Qed.

(** ** The two dictionaries *)

Definition aliases : gmap string string := list_to_map (reverse (batches ops nodes ≫= alias_pairs)).

Lemma elem_of_alias_pairs id b : (id, b) ∈ batches ops nodes ≫= alias_pairs ↔
  ∃ n, big n ∧ id = node_id n ∧ b = batch_id (node_id (rep n)).
Proof.
  rewrite list_elem_of_bind. split.
  - intros (g & Hin & (n & Hb & ->)%elem_of_batches). destruct (big_group n Hb) as (f & r & Hg & Hrep & _).
    rewrite Hg in Hin. unfold alias_pairs in Hin. rewrite <- Hg in Hin.
    apply list_elem_of_fmap in Hin as (m & [= -> ->] & [Hk Hm]%elem_of_group).
    exists m. split; [by eapply big_key|]. split; [done|]. rewrite (rep_key n m) by done. by rewrite Hrep.
  - intros (n & Hb & -> & ->). exists (group n). split; [|apply elem_of_batches; by exists n].
    destruct (big_group n Hb) as (f & r & Hg & Hrep & _). unfold alias_pairs. rewrite Hg, Hrep, <- Hg.
    apply list_elem_of_fmap. exists n. split; [done|]. apply elem_of_group. by destruct Hb.
Qed.

Lemma big_nodes n : big n → n ∈ nodes.
Proof. by intros [[_ ?]%elem_of_sel _]. Qed.

(** A dictionary that every pair of a list with this key agrees on *)
Lemma dict_lookup {V} (l : list (string * V)) (k : string) (o : option V) :
  (∀ v, (k, v) ∈ l ↔ o = Some v) → (list_to_map (reverse l) : gmap string V) !! k = o.
Proof.
  intros Hl. destruct o as [v|].
  - apply elem_of_list_to_map_1'; [|rewrite elem_of_reverse; by apply Hl].
    intros v' Hv'. rewrite elem_of_reverse in Hv'. apply Hl in Hv'. congruence.
  - destruct (list_to_map (reverse l) !! k) as [v|] eqn:Hv; [|done].
    apply elem_of_list_to_map_2 in Hv. rewrite elem_of_reverse in Hv. by apply Hl in Hv.
Qed.

Lemma aliases_lookup n : n ∈ nodes →
  aliases !! node_id n = if decide (big n) then Some (batch_id (node_id (rep n))) else None.
Proof.
  intros Hn. apply dict_lookup. intros b. rewrite elem_of_alias_pairs. split.
  - intros (m & Hb & Hid & ->). assert (n = m) as -> by (apply (same_id nodes Hwf); [done|by apply big_nodes|done]).
    by rewrite decide_True.
  - destruct (decide (big n)) as [Hb|]; [|done]. intros [= <-]. by exists n.
Qed.

(** The node in place of [n] *)
Definition update n : ExecutionNode := if decide (big n) then merged (group n) n else n.

Definition al (id : string) : string := alias aliases id.

Lemma al_id n : n ∈ nodes → al (node_id n) = node_id (update (rep n)).
Proof.
  intros Hn. unfold al, alias, update. rewrite aliases_lookup by done.
  destruct (decide (big n)) as [Hb|Hb].
  - by rewrite decide_True by by apply big_rep.
  - by rewrite (rep_small n Hb), decide_False.
Qed.

(** ** The representatives *)

Lemma nonempty_batch id : nonempty (batch_id id) = true.
Proof. unfold nonempty, batch_id. by destruct id. Qed.

Lemma zsum_nonneg (l : list Z) : (∀ x, x ∈ l → 0 <= x) → 0 <= zsum l.
Proof.
  unfold zsum. induction l as [|x l IH]; intros Hl; cbn; [lia|].
  assert (0 <= x) by (apply Hl; left). assert (0 <= foldr Z.add 0 l) by (apply IH; set_solver). lia.
Qed.

Lemma valid_payload n : valid_node n = true → 0 <= default 0 (payload_bytes n).
Proof.
  unfold valid_node. rewrite !andb_true_iff. intros ((_ & Hp) & _). unfold opt_nonneg, nonneg in Hp.
  destruct (payload_bytes n); cbn; [|done]. by apply Z.leb_le.
Qed.

Lemma flagged_merged g n :
  flagged "collective_input_binding_required" (merged g n) = flagged "collective_input_binding_required" n.
Proof. unfold flagged, merged. cbn [metadata update_field eta eta_node]. by rewrite !lookup_insert_ne. Qed.

Lemma merged_fields g n :
  let m := merged g n in
  node_id m = batch_id (node_id n) ∧ operation m = operation n ∧ kind m = kind n ∧
  physical_workers m = physical_workers n ∧ stage m = stage n ∧ logical_stage_id m = logical_stage_id n ∧
  input_producer_ids m = input_producer_ids n ∧ predecessor_ids m = predecessor_ids n ∧
  payload_bytes m = Some (zsum ((λ m, default 0 (payload_bytes m)) <$> g)) ∧ tensor_slices m = g ≫= tensor_slices.
Proof. repeat split. Qed.

Lemma valid_merged n : big n → valid_node n = true → valid_node (merged (group n) n) = true.
Proof.
  intros Hb. unfold valid_node.
  destruct (merged_fields (group n) n) as (-> & -> & -> & -> & -> & -> & -> & -> & -> & _). rewrite flagged_merged.
  rewrite nonempty_batch, !andb_true_iff. intros (((((_ & Hop) & Hk) & Hs) & _) & Hi). split_and!; try done.
  apply Z.leb_le, zsum_nonneg. intros x (m & -> & [_ Hm]%elem_of_group)%list_elem_of_fmap.
  apply valid_payload, Hvalid. by apply elem_of_sel in Hm as [].
Qed.

Lemma replacement_Ok n : big n → rep n = n → replacement (group n) = Ok (node_id n, update n).
Proof.
  intros Hb Hr. destruct (big_group n Hb) as (f & r & Hg & Hrep & _).
  assert (f = n) as -> by congruence. unfold replacement, update. rewrite decide_True by done.
  apply bind_Ok. exists n. split; [by rewrite Hg|]. apply bind_Ok. exists (merged (group n) n).
  split; [|reflexivity]. unfold replace. rewrite valid_merged; [reflexivity|done|]. by apply Hvalid, big_nodes.
Qed.

Lemma replacements_Ok : ∃ pairs, mapM replacement (batches ops nodes) = Ok pairs ∧
  ∀ n, n ∈ nodes → (list_to_map (reverse pairs) : gmap string ExecutionNode) !! node_id n =
    if decide (big n ∧ rep n = n) then Some (update n) else None.
Proof.
  assert (∀ g, g ∈ batches ops nodes → ∃ n, big n ∧ rep n = n ∧ g = group n ∧ replacement g = Ok (node_id n, update n)) as Hall.
  { intros g (n & Hb & ->)%elem_of_batches. destruct (big_group n Hb) as (f & r & Hg & _ & _ & _ & Hbf & Hrf & Hgf).
    exists f. split; [done|]. split; [done|]. split; [done|]. rewrite <- Hgf. by apply replacement_Ok. }
  destruct (mapM_total replacement (batches ops nodes)) as [pairs Hp].
  { intros g Hg. destruct (Hall g Hg) as (n & _ & _ & _ & ?). by eexists. }
  exists pairs. split; [done|]. apply mapM_Ok in Hp. intros n Hn. apply dict_lookup. intros v. split.
  - intros [j Hj]%list_elem_of_lookup. destruct (Forall2_lookup_r _ _ _ _ _ Hp Hj) as (g & Hg & Hgr).
    apply list_elem_of_lookup_2 in Hg. destruct (Hall g Hg) as (m & Hb & Hr & _ & Heq).
    rewrite Heq in Hgr. injection Hgr as Hid <-.
    assert (m = n) as -> by (apply (same_id nodes Hwf); [by apply big_nodes|done|done]).
    by rewrite decide_True.
  - destruct (decide (big n ∧ rep n = n)) as [[Hb Hr]|]; [|done]. intros [= <-].
    assert (group n ∈ batches ops nodes) as [i Hi]%list_elem_of_lookup by (apply elem_of_batches; by exists n).
    destruct (Forall2_lookup_l _ _ _ _ _ Hp Hi) as (y & Hy & Hgr).
    rewrite replacement_Ok in Hgr by done. injection Hgr as <-. by eapply list_elem_of_lookup_2.
Qed.

Definition reps : list ExecutionNode := filter (λ n, rep n = n) nodes.

(** A node after its predecessors were renamed *)
Definition renamed n : ExecutionNode :=
  n <| predecessor_ids := from_keys (al <$> predecessor_ids n) |>
    <| input_producer_ids := (λ b, (b.1, al b.2)) <$> input_producer_ids n |>.

Lemma renamed_fields n :
  let m := renamed n in
  node_id m = node_id n ∧ operation m = operation n ∧ kind m = kind n ∧
  physical_workers m = physical_workers n ∧ stage m = stage n ∧ logical_stage_id m = logical_stage_id n ∧
  input_producer_ids m = ((λ b, (b.1, al b.2)) <$> input_producer_ids n) ∧
  predecessor_ids m = from_keys (al <$> predecessor_ids n) ∧
  payload_bytes m = payload_bytes n ∧ tensor_slices m = tensor_slices n ∧ metadata m = metadata n.
Proof. repeat split. Qed.

Lemma valid_renamed n : valid_node n = true → valid_node (renamed n) = true.
Proof.
  unfold valid_node, flagged.
  destruct (renamed_fields n) as (-> & -> & -> & -> & -> & -> & -> & -> & -> & _ & ->).
  rewrite !andb_true_iff. intros (Hrest & Hi). split; [done|].
  destruct (input_producer_ids n) as [|b l]; [done|].
  rewrite !andb_true_iff, forallb_true in Hi. destruct Hi as (((Hk & Hw) & Hd) & Hp).
  remember ((λ b : string * string, (b.1, al b.2)) <$> b :: l) as k eqn:Hkl.
  assert (k.*1 = (b :: l).*1) as Hf by (rewrite Hkl, <- list_fmap_compose; by apply list_fmap_ext).
  assert (∀ x, x ∈ k → x.2 ∈ from_keys (al <$> predecessor_ids n)) as Hin.
  { intros x Hx. rewrite Hkl in Hx. apply list_elem_of_fmap in Hx as (y & -> & Hy). cbn.
    apply elem_of_from_keys, list_elem_of_fmap. exists y.2. split; [done|].
    apply (bool_decide_eq_true_1 _ (Hp y Hy)). }
  clear Hkl. destruct k as [|x k]; [done|]. rewrite Hf, !andb_true_iff, forallb_true. split_and!; try done.
  intros y Hy. by apply bool_decide_eq_true_2, Hin.
Qed.

Lemma rewrite_node_Ok n : valid_node n = true → rewrite_node aliases n = Ok (renamed n).
Proof.
  intros Hv. unfold rewrite_node. destruct (bool_decide _ && bool_decide _) eqn:Heq.
  - apply andb_true_iff in Heq as [H1%bool_decide_eq_true H2%bool_decide_eq_true]. f_equal.
    change (alias aliases) with al in H1. unfold renamed. rewrite H1.
    change (λ b : string * string, (b.1, alias aliases b.2)) with (λ b : string * string, (b.1, al b.2)) in H2.
    rewrite H2. by destruct n.
  - change (replace (renamed n) = Ok (renamed n)). unfold replace. by rewrite (valid_renamed n Hv).
Qed.

Lemma merge_nodes_Ok : merge_nodes nodes ops = Ok (renamed ∘ update <$> reps).
Proof.
  unfold merge_nodes. destruct replacements_Ok as (pairs & Hp & Hlook). rewrite Hp. cbn. fold aliases.
  rewrite (omap_if update (λ n, rep n = n)).
  - unfold rewrite_dependencies. apply mapM_Ok, Forall2_fmap_r, Forall2_fmap_l, Forall_Forall2_diag.
    apply Forall_forall. intros n [Hr Hn]%list_elem_of_filter. cbn. apply rewrite_node_Ok.
    unfold update. destruct (decide (big n)); [apply valid_merged|]; auto.
  - intros n Hn. unfold keep. rewrite aliases_lookup, Hlook by done.
    destruct (decide (big n)) as [Hb|Hb].
    + destruct (decide (rep n = n)) as [Hr|Hr].
      * rewrite decide_True by done. rewrite (bool_decide_eq_true_2 (is_Some _)) by by eexists.
        by rewrite orb_true_r.
      * rewrite decide_False by tauto. rewrite !bool_decide_eq_false_2; [done|by intros []|done].
    + rewrite !decide_False by tauto. rewrite (rep_small n Hb), decide_True by done.
      rewrite bool_decide_eq_true_2 by done. unfold update. by rewrite decide_False.
Qed.

(** ** The result is a contraction *)

Definition new n : ExecutionNode := renamed (update n).

Lemma elem_of_reps n : n ∈ reps ↔ rep n = n ∧ n ∈ nodes.
Proof. unfold reps. by rewrite list_elem_of_filter. Qed.

Lemma rep_reps n : n ∈ nodes → rep n ∈ reps.
Proof. intros Hn. apply elem_of_reps. split; [apply rep_rep|by apply rep_nodes]. Qed.

Lemma new_predecessors n : predecessor_ids (new n) = from_keys (al <$> predecessor_ids n).
Proof. unfold new, update. by destruct (decide (big n)). Qed.

Lemma new_id n : node_id (new n) = if decide (big n) then batch_id (node_id n) else node_id n.
Proof. unfold new, update. by destruct (decide (big n)). Qed.

Lemma new_operation n : operation (new n) = operation n.
Proof. unfold new, update. by destruct (decide (big n)). Qed.

Lemma al_new n : n ∈ nodes → al (node_id n) = node_id (new (rep n)).
Proof. intros Hn. by rewrite al_id. Qed.

Lemma new_id_inj n m : n ∈ nodes → m ∈ nodes → node_id (new n) = node_id (new m) → n = m.
Proof.
  intros Hn Hm. rewrite !new_id. destruct (decide (big n)), (decide (big m)).
  - intros Heq%batch_id_inj. by apply (same_id nodes Hwf).
  - intros Heq. by destruct (Hfresh n m Hn Hm).
  - intros Heq. by destruct (Hfresh m n Hm Hn).
  - by apply (same_id nodes Hwf).
Qed.

Lemma NoDup_reps : NoDup reps.
Proof. apply NoDup_filter. eapply NoDup_fmap_1, (wf_ids _ Hwf). Qed.

Lemma rep_earlier l1 l2 n : nodes = l1 ++ l2 → n ∈ l1 → rep n ∈ l1.
Proof.
  intros Hl Hn. destruct (decide (big n)) as [Hb|Hb]; [|by rewrite (rep_small n Hb)].
  pose proof Hb as [[Hop _]%elem_of_sel _].
  destruct (big_group n Hb) as (f & r & Hg & -> & _). unfold group, sel, with_operation in Hg.
  rewrite Hl, !filter_app in Hg.
  assert (n ∈ filter (λ m, merge_key m = merge_key n) (filter (λ m, operation m ∈ ops) l1)) as Hin
    by by rewrite !list_elem_of_filter.
  destruct (filter (λ m, merge_key m = merge_key n) (filter (λ m, operation m ∈ ops) l1)) as [|f' r'] eqn:Hf;
    [by apply not_elem_of_nil in Hin|].
  injection Hg as -> _. assert (f ∈ f :: r') as Hff by left. rewrite <- Hf, !list_elem_of_filter in Hff. tauto.
Qed.

Lemma new_well_formed : well_formed (new <$> reps).
Proof.
  split.
  - intros Hr%fmap_nil_inv. pose proof (wf_nonempty _ Hwf) as Hne.
    destruct nodes as [|n l] eqn:Hl; [done|]. rewrite <- Hl in *.
    assert (n ∈ nodes) as Hn by (rewrite Hl; left). apply rep_reps in Hn. rewrite Hr in Hn. by apply not_elem_of_nil in Hn.
  - rewrite <- list_fmap_compose. apply NoDup_fmap_2_strong; [|apply NoDup_reps].
    intros n m [_ Hn]%elem_of_reps [_ Hm]%elem_of_reps. by apply new_id_inj.
  - apply ordered_split. intros l1 m l2 Heq. apply fmap_filter_split in Heq as (k1 & n & k2 & Hl & -> & -> & Hr).
    rewrite new_predecessors. split; [apply NoDup_from_keys|].
    intros p Hp. apply elem_of_from_keys, list_elem_of_fmap in Hp as (q & -> & Hq).
    destruct (proj1 (ordered_split nodes) (wf_ordered _ Hwf) k1 n k2 Hl) as [_ Ho].
    apply Ho in Hq as (y & -> & Hy)%list_elem_of_fmap.
    rewrite al_new by (rewrite Hl; apply elem_of_app; by left).
    apply list_elem_of_fmap_2, list_elem_of_fmap_2, list_elem_of_filter. split; [apply rep_rep|].
    by eapply rep_earlier.
Qed.

(** The nodes [n] stands for *)
Definition fiber n : list ExecutionNode := filter (λ m, rep m = n) nodes.

Lemma fiber_big n : n ∈ reps → big n → fiber n = group n.
Proof.
  intros [Hr Hn]%elem_of_reps Hb. unfold fiber, group, sel, with_operation. rewrite list_filter_filter.
  apply filter_ext_in. intros m Hm. split.
  - intros <-. rewrite (rep_merge_key m). split; [done|]. apply (proj1 (big_rep m)) in Hb as [[Hop _]%elem_of_sel _]. done.
  - intros [Hk Hop]. rewrite <- Hr. apply rep_key; [by apply elem_of_sel|done|done].
Qed.

Lemma fiber_small n : n ∈ reps → ¬ big n → fiber n = [n].
Proof.
  intros [Hr Hn]%elem_of_reps Hb.
  assert (∀ m, rep m = n ↔ m = n) as Hiff.
  { intros m. split; [|by intros ->]. intros Hm. rewrite <- Hm, big_rep in Hb. by rewrite (rep_small m Hb) in Hm. }
  unfold fiber. pose proof (NoDup_fmap_1 _ _ (wf_ids _ Hwf)) as Hnd. revert Hn Hnd. clear - Hiff.
  induction nodes as [|m l IH]; [by intros ?%not_elem_of_nil|]. intros Hn [Hm Hnd]%NoDup_cons.
  rewrite filter_cons. destruct (decide (rep m = n)) as [Heq|Hne].
  - apply Hiff in Heq as ->. f_equal. apply elem_of_nil_inv.
    intros x [->%Hiff Hx]%list_elem_of_filter. done.
  - apply elem_of_cons in Hn as [->|Hn]; [|by apply IH]. by destruct Hne; apply Hiff.
Qed.

Lemma fibers : (reps ≫= fiber) ≡ₚ nodes.
Proof. apply concat_fibers; [apply NoDup_reps|]. intros n Hn. by apply rep_reps. Qed.

(** What the node that replaces a group carries *)
Lemma new_slices n : n ∈ reps → tensor_slices (new n) = fiber n ≫= tensor_slices.
Proof.
  intros Hn. unfold new, update. destruct (decide (big n)) as [Hb|Hb].
  - by rewrite fiber_big.
  - rewrite fiber_small by done. cbn. by rewrite app_nil_r.
Qed.

Lemma new_edges n e : n ∈ reps → e ∈ routing_edges (new n) ↔ e ∈ fiber n ≫= routing_edges.
Proof.
  intros Hn. unfold new, update. destruct (decide (big n)) as [Hb|Hb].
  - rewrite fiber_big by done. apply elem_of_from_keys.
  - rewrite fiber_small by done. cbn. by rewrite app_nil_r.
Qed.

Lemma new_payload op n : n ∈ reps →
  (if decide (operation (new n) = op) then default 0 (payload_bytes (new n)) else 0) = payload_of op (fiber n).
Proof.
  intros Hn. rewrite new_operation. unfold new, update, payload_of. destruct (decide (big n)) as [Hb|Hb].
  - rewrite fiber_big by done.
    assert (∀ m, m ∈ group n → operation m = operation n) as Hop.
    { intros m [Hk _]%elem_of_group. by injection Hk. }
    change (payload_bytes (renamed (merged (group n) n)))
      with (Some (zsum ((λ m, default 0 (payload_bytes m)) <$> group n))).
    revert Hop. generalize (group n) as g. intros g Hop. cbn [default from_option].
    unfold zsum. induction g as [|m g IH]; csimpl; [by destruct (decide _)|].
    rewrite (Hop m (list_elem_of_here _ _)). rewrite <- IH by (intros; apply Hop; by right).
    by destruct (decide (operation n = op)).
  - rewrite fiber_small by done. csimpl. unfold zsum. cbn. destruct (decide _); cbn; lia.
Qed.

Lemma payload_of_bind op (f : ExecutionNode → list ExecutionNode) l :
  payload_of op (l ≫= f) = zsum ((λ n, payload_of op (f n)) <$> l).
Proof.
  unfold payload_of. induction l as [|n l IH]; [done|]. csimpl. rewrite fmap_app, zsum_app, IH. done.
Qed.

Lemma new_contracts : contracts al nodes (new <$> reps).
Proof.
  split.
  - apply new_well_formed.
  - intros m (n & -> & [_ Hn]%elem_of_reps)%list_elem_of_fmap. apply valid_renamed.
    unfold update. destruct (decide (big n)); [apply valid_merged|]; auto.
  - intros x. rewrite !list_elem_of_fmap. setoid_rewrite list_elem_of_fmap. split.
    + intros (m & -> & n & -> & [Hr Hn]%elem_of_reps). exists (node_id n). split; [by exists n|].
      by rewrite al_new, Hr.
    + intros (y & (n & -> & Hn) & <-). exists (new (rep n)). split; [by apply al_new|].
      exists (rep n). split; [done|]. by apply rep_reps.
  - intros a b. split.
    + intros (m & (n & -> & [Hr Hn]%elem_of_reps)%list_elem_of_fmap & <- & Hb).
      rewrite new_predecessors in Hb. apply elem_of_from_keys, list_elem_of_fmap in Hb as (q & -> & Hq).
      exists (node_id n), q. split; [by exists n|]. split; [|done]. by rewrite al_new, Hr.
    + intros (a0 & b0 & (n & Hn & <- & Hb) & <- & <-). exists (new (rep n)).
      split; [by apply list_elem_of_fmap_2, rep_reps|]. split; [by rewrite al_new|].
      rewrite new_predecessors, rep_predecessors. apply elem_of_from_keys, list_elem_of_fmap. by exists b0.
  - intros op. transitivity (payload_of op (reps ≫= fiber)).
    + rewrite payload_of_bind. unfold payload_of at 1. rewrite <- list_fmap_compose. f_equal.
      apply list_fmap_ext. intros i n Hi. apply new_payload. by eapply list_elem_of_lookup_2.
    + apply zsum_perm, fmap_Permutation, fibers.
  - transitivity ((reps ≫= fiber) ≫= tensor_slices); [|apply bind_Permutation, fibers].
    rewrite bind_bind, fmap_bind. erewrite bind_ext_in; [reflexivity|]. exact new_slices.
  - intros e. transitivity (e ∈ (reps ≫= fiber) ≫= routing_edges); [|by rewrite fibers].
    rewrite bind_bind, fmap_bind, !list_elem_of_bind.
    split; intros (n & He & Hn); exists n; (split; [|done]); by apply new_edges.
Qed.

(** Two nodes become one exactly when they are selected and have the same key. *)
Lemma rep_eq n m : n ∈ nodes → m ∈ nodes →
  rep n = rep m ↔ n = m ∨ operation n ∈ ops ∧ merge_key n = merge_key m.
Proof.
  intros Hn Hm. split.
  - intros Heq. destruct (decide (big n)) as [Hb|Hb].
    + right. split; [by destruct Hb as [[? _]%elem_of_sel _]|].
      by rewrite <- (rep_merge_key n), Heq, rep_merge_key.
    + assert (¬ big m) as Hbm by by rewrite <- big_rep, <- Heq, big_rep.
      left. by rewrite (rep_small n Hb), (rep_small m Hbm) in Heq.
  - intros [->|[Hop Hk]]; [done|]. destruct (decide (n = m)) as [->|Hne]; [done|].
    assert (operation n = operation m) as Hopm by (by injection Hk).
    assert (n ∈ sel) as Hns by by apply elem_of_sel.
    assert (m ∈ sel) as Hms by (apply elem_of_sel; by rewrite <- Hopm).
    symmetry. apply rep_key; [done| |done]. split; [done|].
    assert (n ∈ group n) as Hg1 by by apply elem_of_group.
    assert (m ∈ group n) as Hg2 by by apply elem_of_group.
    destruct (group n) as [|x [|y l]]; cbn; [by apply not_elem_of_nil in Hg1| |lia].
    apply list_elem_of_singleton in Hg1, Hg2. congruence.
Qed.

Lemma al_eq n m : n ∈ nodes → m ∈ nodes →
  al (node_id n) = al (node_id m) ↔ n = m ∨ operation n ∈ ops ∧ merge_key n = merge_key m.
Proof.
  intros Hn Hm. rewrite <- rep_eq, !al_new by done. split; [|by intros ->].
  apply new_id_inj; by apply rep_nodes.
Qed.

Lemma new_id_cases m : m ∈ new <$> reps → ∃ n, n ∈ nodes ∧ (node_id m = node_id n ∨ node_id m = batch_id (node_id n)).
Proof.
  intros (n & -> & [_ Hn]%elem_of_reps)%list_elem_of_fmap. exists n. split; [done|].
  rewrite new_id. destruct (decide (big n)); auto.
Qed.

(** Ids that are fresh for two rounds are fresh for one round of the result. *)
Lemma new_fresh :
  (∀ n m, n ∈ nodes → m ∈ nodes → node_id m ≠ batch_id (batch_id (node_id n))) →
  ∀ n m, n ∈ new <$> reps → m ∈ new <$> reps → node_id m ≠ batch_id (node_id n).
Proof.
  intros Hfresh2 n' m' (n & -> & [_ Hn]%elem_of_reps)%list_elem_of_fmap
    (m & -> & [_ Hm]%elem_of_reps)%list_elem_of_fmap.
  rewrite !new_id. destruct (decide (big n)) as [Hb|Hb], (decide (big m)) as [Hb'|Hb']; auto.
  - intros Heq%batch_id_inj. by apply (Hfresh n m).
  - intros Heq%batch_id_inj. assert (m = n) as -> by by apply (same_id nodes Hwf). done.
Qed.
End Merge.

(** [al] makes one of two nodes with an operation of [ops] and the same key. *)
Definition merges (ops : list string) (al : string → string) (nodes : list ExecutionNode) : Prop :=
  ∀ n m, n ∈ nodes → m ∈ nodes →
    al (node_id n) = al (node_id m) ↔ n = m ∨ operation n ∈ ops ∧ merge_key n = merge_key m.

(** No id is another one with [k] times [":batch"] appended. *)
Definition fresh_ids (nodes : list ExecutionNode) (k : nat) : Prop :=
  ∀ n m, n ∈ nodes → m ∈ nodes → node_id m ≠ Nat.iter k batch_id (node_id n).

Lemma fresh_ids_true nodes k :
  forallb (λ n, forallb (λ m, bool_decide (node_id m ≠ Nat.iter k batch_id (node_id n))) nodes) nodes = true →
  fresh_ids nodes k.
Proof.
  intros Hall n m Hn Hm. rewrite forallb_true in Hall. specialize (Hall n Hn).
  rewrite forallb_true in Hall. apply (bool_decide_eq_true_1 _ (Hall m Hm)).
Qed.

Lemma merge_nodes_contracts nodes ops :
  well_formed nodes → (∀ n, n ∈ nodes → valid_node n = true) → fresh_ids nodes 1 →
  ∃ al nodes', merge_nodes nodes ops = Ok nodes' ∧ contracts al nodes nodes' ∧ merges ops al nodes ∧
    (fresh_ids nodes 2 → fresh_ids nodes' 1).
Proof.
  intros Hwf Hvalid Hfresh. exists (al nodes ops), (new nodes ops <$> reps nodes ops).
  split; [by apply merge_nodes_Ok|]. split; [by apply new_contracts|].
  split; [intros n m; by apply al_eq|].
  intros Hfresh2 n m. by apply (new_fresh nodes ops).
Qed.
