(* ===== verification/AfTheorems.v ===== *)
(** * Execution graphs: acceptance, merging and running

    The properties of the graphs of attention-FFN disaggregation, and concrete graphs for
    which they hold: a mixture of experts with two ranks in the group of its expert, and
    a graph whose transfers are merged in two rounds. *)

From stdpp Require Import gmap list strings relations.
From Stdlib Require Import ZArith Lia.
From Stdlib Require Import Floats.SpecFloat.
From S2P Require Import Prelude.
From S2P Require Import PyFloat.
From S2P Require Import AfNodes.
From S2P Require Import AfDag.
From S2P Require Import AfGraph.
From S2P Require Import AfTraffic.
From S2P Require Import AfRun.
From S2P Require Import AfCoalesce.
From S2P Require Import AfMerge.

Open Scope Z_scope.

(** ** Concrete graphs *)

Definition no_work : RankLocalWork := mkWork 1 [] [] [] (Some 1) None None (Some 1) [] None None None [] None None.

Definition plain_node (id op : string) (k : NodeKind) (preds : list string) (s : option ExecutionStage)
    (domain : string) (worker : string) (rank : Z) : ExecutionNode :=
  mkNode id op k preds s None domain domain [domain] [rank] [worker] 0 None None [rank] [] (Some no_work)
    None None None None [] [] None None None None None [] [] [] None None ∅ [].

(** One token, routed to expert 5 *)
Definition one_edge : AFRoutingEdge := mkEdge 0 decode 0 0 7 0 0 5 (S754_finite false 1 0) 0 0.

Definition edge_work (experts : list Z) : RankLocalWork :=
  mkWork 1 [] experts [] (Some 1) (Some 1) (Some 1) (Some 1) [] None None None [one_edge] None None.

Definition moe_node (n : ExecutionNode) : ExecutionNode := n <| layer_type := Some moe |>.

Definition expert_node (id worker : string) (rank : Z) : ExecutionNode :=
  moe_node (plain_node id "expert" compute ["router"] (Some routed_expert) "f" worker rank)
    <| tp_group := [0; 1] |> <| local_work := Some (edge_work [5]) |>.

Definition moe_graph : list ExecutionNode :=
  [moe_node (plain_node "attention" "attention" compute [] (Some attention) "a" "a0" 0);
   moe_node (plain_node "to_f" "af_a_to_f" communication ["attention"] None "a" "a0" 0) <| logical_stage_id := Some "out" |>;
   moe_node (plain_node "router" "router" compute ["to_f"] (Some router) "f" "f0" 0) <| local_work := Some (edge_work []) |>;
   expert_node "expert0" "f0" 0;
   expert_node "expert1" "f1" 1;
   moe_node (plain_node "combine" "f_weighted_combine" compute ["expert0"; "expert1"] (Some weighted_combine) "f" "f0" 0)
     <| local_work := Some (edge_work []) |>;
   moe_node (plain_node "to_a" "af_f_to_a" communication ["combine"] None "f" "f0" 0) <| logical_stage_id := Some "back" |>;
   moe_node (plain_node "residual" "residual" compute ["to_a"] (Some residual) "a" "a0" 0)].

Example moe_graph_accepted : make_dag moe_graph [] = Ok (mkDag moe_graph ["residual"]).
Proof. vm_compute. reflexivity. Qed.

(** ** Running *)

(** C18 (termination): an accepted graph of valid nodes can be run, in any order of its processes and of
    the phases of its collectives, when the transfer provider accepts the collectives that
    wait for their own inputs.  The indices exist and every run ends
    after at most two steps per node and phase.  On the way a process runs only after its
    predecessors, except that on a physical topology such a collective does not wait for
    the producers of its inputs: there a phase that follows no other runs only after the
    producers of its participants, and every other phase after the phases it follows.
    Without a failure what is done has all its predecessors done.  Until all is
    done some process can go on without failing.  The layer then ends, with an
    exception if a node failed; and when it returns, every node is done. *)
Theorem dag_run_completes nodes supplied d physical provider dtype_of :
  make_dag nodes supplied = Ok d → (∀ n, n ∈ nodes → valid_node n = true) →
  (∀ n, n ∈ nodes → has_subgroup_inputs physical n = true → ∃ phs, ring_collective_phases provider (dtype_of n) n = Ok phs) →
  ∃ preds terminals, predecessor_indices nodes = Ok preds ∧ terminal_indices d = Ok terminals ∧
    let plan := planned provider dtype_of in
    let js := jobs physical plan (worker_identity provider) nodes preds in
    ∀ k st, nsteps (dag_step js) k (start_dag js) st →
      (k ≤ 2 * (length nodes + phase_count js))%nat ∧
      (∀ i j n m, nodes !! i = Some n → nodes !! j = Some m → node_id m ∈ predecessor_ids n →
        (processes st !! i = Some Running →
           is_done st j ∨ has_subgroup_inputs physical n = true ∧ node_id m ∈ (input_producer_ids n).*2) ∧
        (failed st = false → is_done st i → is_done st j)) ∧
      (∀ i n q ph, nodes !! i = Some n → plan n !! q = Some ph → part_is st i q Running →
        (∀ r j m, ph_predecessor_ids ph = [] → r ∈ participants ph →
           (worker_identity provider r, node_id m) ∈ input_producer_ids n → nodes !! j = Some m → is_done st j) ∧
        ∀ id, id ∈ ph_predecessor_ids ph → ∃ q' ph', plan n !! q' = Some ph' ∧ phase_id ph' = id ∧ part_is st i q' Done) ∧
      (Forall (.= Done) (processes st) ∧ dag_result terminals st = Some (if failed st then Raise SimulationStateError else Ok tt)
        ∨ ∃ st', dag_step js st st' ∧ failed st' = failed st) ∧
      (dag_result terminals st = Some (Ok tt) → Forall (.= Done) (processes st)).
Proof.
  intros (-> & Hwf & _)%make_dag_Ok Hvalid Hplans'.
  set (plan := planned provider dtype_of). set (identity := worker_identity provider).
  assert (∀ n, n ∈ nodes → has_subgroup_inputs physical n = true → plan_ok identity (physical_workers n) (plan n)) as Hplans.
  { intros n Hn Hs. destruct (Hplans' n Hn Hs) as [phs Hphs]. by eapply planned_ok. }
  destruct (predecessor_indices_Ok nodes Hwf) as (preds & Hp & Hl & Hspec).
  destruct (terminal_indices_Ok nodes Hwf) as (ts & Hts & Htspec).
  exists preds, ts. split; [done|]. split; [done|]. cbv zeta. set (js := jobs _ _ _ _ _). intros k st Hrun.
  pose proof (run_invariant js k st Hrun) as Hinv.
  pose proof (jobs_ordered nodes Hwf physical plan identity Hvalid Hplans preds Hp) as Hwo.
  split; [|split; [|split; [|split]]].
  - pose proof (dag_steps_bound js _ _ _ Hrun) as Hb.
    pose proof (steps_left_start nodes Hwf physical plan identity preds Hp) as Hs. fold js in Hs. lia.
  - intros i j n m Hn Hm Hin. split.
    + intros Hi. eapply (active_waits nodes Hwf physical plan identity preds Hp); [exact Hinv|exact Hn|by left|done..].
    + intros Hf Hi. by apply (done_predecessors nodes Hwf physical plan identity Hvalid Hplans preds Hp st Hinv i n Hn j m).
  - intros i n q ph Hn Hph Hq. split.
    + intros r j m Hroot Hr Hb Hj. by apply (phase_waits nodes Hwf physical plan identity Hvalid Hplans preds Hp st Hinv i n Hn q ph r j m).
    + intros id Hid. by apply (phase_follows nodes Hwf physical plan identity Hvalid Hplans preds Hp st Hinv i n Hn q ph id).
  - destruct (dag_progress js st Hwo Hinv) as [Hall|]; [left|by right].
    split; [done|]. unfold dag_result. destruct (failed st); rewrite bool_decide_eq_true_2; try done.
    apply Forall_forall. intros t (n & Hn & _)%Htspec.
    destruct (lookup_lt_is_Some_2 (processes st) t) as [p Hpt].
    { rewrite (ri_length _ _ Hinv). unfold js. rewrite (jobs_length nodes Hwf physical plan identity preds Hp). by eapply lookup_lt_Some. }
    rewrite Hpt. f_equal. by apply (Forall_lookup_1 _ _ _ _ Hall Hpt).
  - unfold dag_result. destruct (failed st) eqn:Hf; [by case_bool_decide|]. case_bool_decide as Hterm; [|done]. intros _.
    apply (sinks_done nodes Hwf physical plan identity Hvalid Hplans preds Hp st Hinv Hf). intros i n Hn Hsink.
    rewrite Forall_forall in Hterm. apply Hterm, Htspec. by exists n.
Qed.

(** The outputs of four workers on two nodes, summed by an all-reduce of six phases *)
Definition reduce_graph : list ExecutionNode :=
  [plain_node "p0" "attention" compute [] (Some attention) "a" "a0" 0;
   plain_node "p1" "attention" compute [] (Some attention) "a" "a1" 1;
   plain_node "p2" "attention" compute [] (Some attention) "a" "a2" 2;
   plain_node "p3" "attention" compute [] (Some attention) "a" "a3" 3;
   plain_node "sum" "all_reduce" communication ["p0"; "p1"; "p2"; "p3"] None "a" "a0" 0
     <| domain_ranks := [0; 1; 2; 3] |> <| physical_workers := ["a0"; "a1"; "a2"; "a3"] |> <| payload_bytes := Some 64 |>
     <| input_producer_ids := [("a0", "p0"); ("a1", "p1"); ("a2", "p2"); ("a3", "p3")] |>;
   plain_node "residual" "residual" compute ["sum"] (Some residual) "a" "a0" 0].

Definition reduce_provider : TransferProvider :=
  mkProvider [Some "a0"; Some "a1"; Some "a2"; Some "a3"]%string {[0 := 0; 1 := 0; 2 := 1; 3 := 1]}.

Lemma reduce_graph_accepted : make_dag reduce_graph [] = Ok (mkDag reduce_graph ["residual"]).
Proof. vm_compute. reflexivity. Qed.

Definition accepts (provider : TransferProvider) (n : ExecutionNode) : bool :=
  match ring_collective_phases provider bf16 n with Ok _ => true | Raise _ => false end.

Lemma dag_run_completes_witness :
  make_dag reduce_graph [] = Ok (mkDag reduce_graph ["residual"]) ∧
  ∃ preds terminals, predecessor_indices reduce_graph = Ok preds ∧
    terminal_indices (mkDag reduce_graph ["residual"]) = Ok terminals ∧
    let js := jobs true (planned reduce_provider (λ _, bf16)) (worker_identity reduce_provider) reduce_graph preds in
    phase_count js = 6%nat ∧
    ∀ k st, nsteps (dag_step js) k (start_dag js) st → (k ≤ 24)%nat ∧
      (dag_result terminals st = Some (Ok tt) → Forall (.= Done) (processes st)).
Proof.
  split; [exact reduce_graph_accepted|].
  destruct (dag_run_completes reduce_graph [] _ true reduce_provider (λ _, bf16) reduce_graph_accepted)
    as (preds & ts & Hp & Ht & Hall).
  - apply forallb_true. vm_compute. reflexivity.
  - intros n Hn Hs.
    assert (forallb (λ n, negb (has_subgroup_inputs true n) || accepts reduce_provider n) reduce_graph = true)
      as Hacc by (vm_compute; reflexivity).
    rewrite forallb_true in Hacc. specialize (Hacc n Hn). rewrite Hs in Hacc. unfold accepts in Hacc. cbn [negb orb] in Hacc.
    destruct (ring_collective_phases reduce_provider bf16 n) as [phs|]; [by exists phs|discriminate].
  - exists preds, ts. split; [exact Hp|]. split; [exact Ht|]. cbv zeta in Hall |- *.
    assert (phase_count (jobs true (planned reduce_provider (λ _, bf16)) (worker_identity reduce_provider) reduce_graph preds) = 6%nat) as Hc.
    { assert (predecessor_indices reduce_graph = Ok [[]; []; []; []; [0; 1; 2; 3]; [4]]%nat) as Heq by (vm_compute; reflexivity).
      rewrite Heq in Hp. injection Hp as <-. vm_compute. reflexivity. }
    split; [exact Hc|]. intros k st Hrun. destruct (Hall k st Hrun) as (Hk & _ & _ & _ & Hd).
    rewrite Hc in Hk. exact (conj Hk Hd).
Defined.

(** ** Routing *)

(** C19 (functional): in an accepted mixture of experts one router decides the
    assignments, each listed once.  Expert nodes process only those, and only experts
    they hold; every assignment is processed by nodes of one tensor-parallel group, by
    exactly one node on every rank of it and on no other.  Every combine consumes all
    assignments, and a combine on the F side is an ancestor of every return of hidden
    states. *)
Theorem moe_routing_exact nodes supplied d :
  make_dag nodes supplied = Ok d → (∃ n, n ∈ nodes ∧ layer_type n = Some moe) →
  ∃ r w, at_stage router nodes = [r] ∧ local_work r = Some w ∧ NoDup (wk_routing_edges w) ∧
    (∀ e n, consumes nodes e n → e ∈ wk_routing_edges w ∧ ∃ w', local_work n = Some w' ∧ ed_expert_id e ∈ wk_expert_ids w') ∧
    (∀ e, e ∈ wk_routing_edges w → ∃ group,
      (∃ n, consumes nodes e n) ∧
      (∀ n, consumes nodes e n → tp_group n = group ∧ ∃ rank, head (domain_ranks n) = Some rank ∧ rank ∈ group) ∧
      ∀ rank, rank ∈ group → ∃ n, consumes nodes e n ∧ head (domain_ranks n) = Some rank ∧
        ∀ m, consumes nodes e m → head (domain_ranks m) = Some rank → m = n) ∧
    (∀ n w' e, n ∈ nodes → stage n = Some weighted_combine → local_work n = Some w' →
      e ∈ wk_routing_edges w' ↔ e ∈ wk_routing_edges w) ∧
    (∀ n t, n ∈ nodes → stage n = Some weighted_combine → operation n = f_combine →
      t ∈ nodes → operation t = "af_f_to_a" → tc (depends nodes) (node_id t) (node_id n)).
Proof.
  intros (-> & Hwf & _ & Hv)%make_dag_Ok Hmoe.
  destruct (accepted_moe nodes _ Hwf Hv Hmoe) as (r & w & [H1 H2 H3 H4 H5 H6 H7]).
  exists r, w. split_and!; try done. intros e (group & Hex & Hg & Hr & Hall)%H5.
  exists group. split; [done|]. split; [|done]. intros n Hn. auto.
Qed.

Lemma moe_routing_exact_witness :
  make_dag moe_graph [] = Ok (mkDag moe_graph ["residual"]) ∧
  ∃ r w, at_stage router moe_graph = [r] ∧ local_work r = Some w ∧ NoDup (wk_routing_edges w) ∧
    ∀ e, e ∈ wk_routing_edges w → ∃ n, consumes moe_graph e n.
Proof.
  split; [exact moe_graph_accepted|].
  destruct (moe_routing_exact moe_graph [] _ moe_graph_accepted) as (r & w & Hr & Hw & Hnd & _ & He & _).
  - eexists. split; [left|reflexivity].
  - exists r, w. split; [exact Hr|]. split; [exact Hw|]. split; [exact Hnd|].
    intros e Hin. destruct (He e Hin) as (group & Hn & _). exact Hn.
Defined.

(** ** Merging *)

(** C20 (functional): merging a well-formed graph returns.  Collectives, and then
    transfers, become one exactly when they agree in operation, predecessors, workers,
    domains, layouts, network, resources and data-parallel rank.  The result is again
    well formed, with valid nodes; its ids and its dependencies are those of the graph
    under the renaming; for every operation it carries the same bytes, and it has the
    same tensor slices and routing assignments.  Assumed is that no id is another one
    followed by the suffix of a merged node. *)
Theorem coalesce_keeps_graph nodes :
  well_formed nodes → (∀ n, n ∈ nodes → valid_node n = true) → fresh_ids nodes 1 → fresh_ids nodes 2 →
  ∃ nodes1 nodes2 al1 al2, coalesce_ready_transfers nodes = Ok nodes2 ∧
    merge_nodes nodes ["all_reduce"; "reduce_scatter"; "all_gather"] = Ok nodes1 ∧
    merges ["all_reduce"; "reduce_scatter"; "all_gather"] al1 nodes ∧
    merges ["af_f_to_a"; "af_a_to_f"] al2 nodes1 ∧
    let al id := al2 (al1 id) in
    well_formed nodes2 ∧ (∀ n, n ∈ nodes2 → valid_node n = true) ∧
    (∀ x, x ∈ node_id <$> nodes2 ↔ ∃ y, y ∈ node_id <$> nodes ∧ al y = x) ∧
    (∀ a b, depends nodes2 a b ↔ ∃ a0 b0, depends nodes a0 b0 ∧ al a0 = a ∧ al b0 = b) ∧
    (∀ op, payload_of op nodes2 = payload_of op nodes) ∧
    nodes2 ≫= tensor_slices ≡ₚ nodes ≫= tensor_slices ∧
    (∀ e, e ∈ nodes2 ≫= routing_edges ↔ e ∈ nodes ≫= routing_edges).
Proof.
  intros Hwf Hvalid H1 H2.
  destruct (merge_nodes_contracts nodes ["all_reduce"; "reduce_scatter"; "all_gather"])
    as (al1 & nodes1 & Hm1 & C1 & M1 & Hf); [done..|].
  destruct (merge_nodes_contracts nodes1 ["af_f_to_a"; "af_a_to_f"]) as (al2 & nodes2 & Hm2 & C2 & M2 & _);
    [apply (ct_wf _ _ _ C1)|apply (ct_valid _ _ _ C1)|by apply Hf|].
  exists nodes1, nodes2, al1, al2. split; [apply bind_Ok; by exists nodes1|].
  split; [done|]. split; [done|]. split; [done|].
  destruct (contracts_trans _ _ _ _ _ C1 C2). by split_and!.
Qed.

(** Two reductions that are ready together; what they reduced is sent by two transfers. *)
Definition comm_node (id op pred : string) (bytes : Z) : ExecutionNode :=
  plain_node id op communication [pred] None "a" "a0" 0 <| payload_bytes := Some bytes |>.

Definition transfer_graph : list ExecutionNode :=
  [plain_node "work" "attention" compute [] (Some attention) "a" "a0" 0;
   comm_node "sum1" "all_reduce" "work" 3; comm_node "sum2" "all_reduce" "work" 4;
   comm_node "send1" "af_a_to_f" "sum1" 3; comm_node "send2" "af_a_to_f" "sum2" 4;
   plain_node "end" "dense" compute ["send1"; "send2"] (Some dense_ffn) "f" "f0" 0].

Definition summary (o : outcome (list ExecutionNode)) : list (string * option Z * list string) :=
  match o with
  | Ok ns => (λ n, (node_id n, payload_bytes n, predecessor_ids n)) <$> ns
  | Raise _ => []
  end.

Example transfer_graph_merged : summary (coalesce_ready_transfers transfer_graph) =
   [("work", None, []); ("sum1:batch", Some 7, ["work"]); ("send1:batch", Some 7, ["sum1:batch"]);
      ("end", None, ["send1:batch"])].
Proof. vm_compute. reflexivity. Qed.

Lemma transfer_graph_ok : well_formed transfer_graph ∧ (∀ n, n ∈ transfer_graph → valid_node n = true) ∧
  fresh_ids transfer_graph 1 ∧ fresh_ids transfer_graph 2.
Proof.
  split; [|split; [|split]].
  - apply (check_structure_Ok transfer_graph [] (sinks transfer_graph)). vm_compute. reflexivity.
  - apply forallb_true. vm_compute. reflexivity.
  - apply fresh_ids_true. vm_compute. reflexivity.
  - apply fresh_ids_true. vm_compute. reflexivity.
Qed.

Lemma coalesce_keeps_graph_witness :
  well_formed transfer_graph ∧
  ∃ nodes2, coalesce_ready_transfers transfer_graph = Ok nodes2 ∧ length nodes2 = 4%nat ∧ well_formed nodes2 ∧
    ∀ op, payload_of op nodes2 = payload_of op transfer_graph.
Proof.
  destruct transfer_graph_ok as (Hwf & Hv & H1 & H2). split; [exact Hwf|].
  destruct (coalesce_keeps_graph transfer_graph Hwf Hv H1 H2)
    as (nodes1 & nodes2 & al1 & al2 & Hc & _ & _ & _ & Hwf2 & _ & _ & _ & Hp & _).
  exists nodes2. split; [exact Hc|]. split; [|exact (conj Hwf2 Hp)].
  pose proof transfer_graph_merged as Hm. rewrite Hc in Hm.
  apply (f_equal length) in Hm. unfold summary in Hm. rewrite length_fmap in Hm. exact Hm.
Defined.
