(* ===== verification/AfPlan.v ===== *)
(** * The compiled plan and the bytes of its KV shards
      ([TokenSim/af/runtime/plan.py], [records.py], [admission.py])

    The records of the plan with the fields the accounting of resident KV reads, the
    lookups in them, the layers of a pipeline stage ([TokenSim/config/cache_config.py])
    and the bytes one rank keeps for a context. *)

From stdpp Require Import gmap list strings sorting pretty.
From Stdlib Require Import ZArith Lia.
From S2P Require Import Prelude.
From S2P Require Import Buckets.
From S2P Require Import AfDag.
From S2P Require Import AfGraph.

Open Scope Z_scope.

(** ** Records *)

Definition RankKey : Type := string * Z.

Inductive AFKVHeadPartition := mkPartition {
  bytes_per_token : Z;
  bytes_per_block : Z;
  layer_partitions : list (Z * AFKVHeadPartition);
}.

Record PhysicalWorkerRef := mkWorkerRef {
  group_name : string;
  worker_index : Z;
}.

Definition identity (w : PhysicalWorkerRef) : string := group_name w +:+ ":" +:+ pretty (worker_index w).

Record AFRankBinding := mkBinding {
  rb_domain : string;
  rb_instance : string;
  rb_domain_rank : Z;
  rb_tp_rank : Z;
  rb_pp_rank : Z;
  rb_ep_rank : Z;
  physical_worker : PhysicalWorkerRef;
  kv_partition : option AFKVHeadPartition;
}.

Definition rank_key (b : AFRankBinding) : RankKey := (rb_domain b, rb_domain_rank b).

Definition physical_identity (b : AFRankBinding) : string := identity (physical_worker b).

Record AFPhysicalRuntimeState := mkPhysical {
  ps_physical_identity : string;
  capacity_bytes : Z;
  model_bytes : Z;
  protocol_buffers : list (string * Z);
}.

Definition protocol_buffer_bytes (s : AFPhysicalRuntimeState) : Z := zsum (protocol_buffers s).*2.

Record AFReplicaRuntime := mkReplica {
  rp_domain : string;
  rp_instance : string;
  local_gpu_blocks : list (RankKey * Z);
}.

Record AFDomainRuntime := mkDomain {
  dm_name : string;
  dm_pipeline_parallel_size : Z;
  pipeline_layer_counts : option (list Z);
}.

Record AFLayerRuntime := mkLayer {
  attention_window : Z;
}.

Record AFRuntimePlan := mkPlan {
  total_layers : Z;
  domains : list AFDomainRuntime;
  rank_bindings : list AFRankBinding;
  replicas : list AFReplicaRuntime;
  physical_states : list AFPhysicalRuntimeState;
  layers : list AFLayerRuntime;
}.

(** ** Lookups *)

(** [x] or the [ConfigurationError] that names what is missing *)
Definition or_missing {A} (x : option A) : outcome A :=
  match x with Some a => Ok a | None => Raise ConfigurationError end.

(** Sorting of the ranks of an instance: pipeline, expert and tensor rank *)
Definition rank_order (a b : AFRankBinding) : Prop :=
  rb_pp_rank a < rb_pp_rank b ∨ rb_pp_rank a = rb_pp_rank b ∧
    (rb_ep_rank a < rb_ep_rank b ∨ rb_ep_rank a = rb_ep_rank b ∧ rb_tp_rank a <= rb_tp_rank b).

#[global] Instance rank_order_dec a b : Decision (rank_order a b).
Proof. unfold rank_order. apply _. Defined.

Section Plan.
Variable plan : AFRuntimePlan.

(** [binding]; of a repeated rank the last one *)
Definition binding (rank : RankKey) : outcome AFRankBinding :=
  or_missing (last (filter (λ b, rank_key b = rank) (rank_bindings plan))).

Definition instance_bindings (domain inst : string) : list AFRankBinding :=
  merge_sort rank_order (filter (λ b, rb_domain b = domain ∧ rb_instance b = inst) (rank_bindings plan)).

Definition bindings_for_instance (domain inst : string) : outcome (list AFRankBinding) :=
  match instance_bindings domain inst with
  | [] => Raise ConfigurationError
  | bs => Ok bs
  end.

Definition replica_for_instance (domain inst : string) : outcome AFReplicaRuntime :=
  or_missing (head (filter (λ r, rp_domain r = domain ∧ rp_instance r = inst) (replicas plan))).

Definition physical_state (physical : string) : outcome AFPhysicalRuntimeState :=
  or_missing (last (filter (λ s, ps_physical_identity s = physical) (physical_states plan))).

Definition domain_runtime (domain : string) : outcome AFDomainRuntime :=
  or_missing (head (filter (λ d, dm_name d = domain) (domains plan))).

(** [self.layers[layer_id]]; a negative index counts from the end *)
Definition layer_plan (layer_id : Z) : outcome AFLayerRuntime :=
  let i := if layer_id <? 0 then Z.of_nat (length (layers plan)) + layer_id else layer_id in
  or_missing (if i <? 0 then None else layers plan !! Z.to_nat i).

(** ** Stages *)

Definition stage_layer_count (total pp_size pp_rank : Z) : Z :=
  total `div` pp_size + (if pp_rank <? total `mod` pp_size then 1 else 0).

Definition stage_layer_range (total pp_size pp_rank : Z) (layer_counts : option (list Z)) : outcome (list Z) :=
  if negb ((1 <=? pp_size) && (pp_size <=? total)) || negb ((0 <=? pp_rank) && (pp_rank <? pp_size))
  then Raise ConfigurationError
  else match layer_counts with
  | Some counts =>
      if negb (Z.of_nat (length counts) =? pp_size) || existsb (λ c, c <? 1) counts ||
         negb (zsum counts =? total)
      then Raise ConfigurationError
      else
        let start := zsum (take (Z.to_nat pp_rank) counts) in
        count ← (match counts !! Z.to_nat pp_rank with Some c => Ok c | None => Raise IndexError end);
        Ok (zrange start (start + count))
  | None =>
      let start := pp_rank * (total `div` pp_size) + Z.min pp_rank (total `mod` pp_size) in
      Ok (zrange start (start + stage_layer_count total pp_size pp_rank))
  end.

(** ** Bytes of a context *)

Definition for_layer (p : AFKVHeadPartition) (layer_id : Z) : outcome AFKVHeadPartition :=
  match layer_partitions p with
  | [] => Ok p
  | ps => match (list_to_map (reverse ps) : gmap Z AFKVHeadPartition) !! layer_id with
          | Some q => Ok q
          | None => Raise KeyError
          end
  end.

(** [min(context, window or context)] *)
Definition visible (context window : Z) : Z := Z.min context (if window =? 0 then context else window).

Definition layer_bytes (p : AFKVHeadPartition) (per_layer context layer : Z) : outcome (Z * Z) :=
  size ← (match layer_partitions p with
          | [] => Ok per_layer
          | _ => q ← for_layer p layer; Ok (bytes_per_token q)
          end);
  lp ← layer_plan layer;
  Ok (layer, size * visible context (attention_window lp)).

Definition rank_layer_kv_bytes (b : AFRankBinding) (context : Z) : outcome (list (Z * Z)) :=
  expect (0 <=? context) ;;
  match kv_partition b with
  | None => Ok []
  | Some p =>
      d ← domain_runtime (rb_domain b);
      stage ← stage_layer_range (total_layers plan) (dm_pipeline_parallel_size d) (rb_pp_rank b) (pipeline_layer_counts d);
      per_layer ← (match stage with
                   | [] => Raise ZeroDivisionError
                   | _ => Ok (bytes_per_token p `div` Z.of_nat (length stage))
                   end);
      mapM (layer_bytes p per_layer context) stage
  end.

Definition rank_kv_bytes (b : AFRankBinding) (context : Z) : outcome Z :=
  sizes ← rank_layer_kv_bytes b context;
  Ok (zsum (dict_items sizes).*2).

(** [ResidentKV._rank_bytes] and [_bytes] *)
Definition rank_bytes (domain inst : string) (context : Z) : outcome (list (RankKey * Z)) :=
  bs ← bindings_for_instance domain inst;
  sizes ← mapM (λ b, s ← rank_kv_bytes b context; Ok (rank_key b, s)) bs;
  Ok (dict_items sizes).

Definition physical_bytes (domain inst : string) (context : Z) : outcome (gmap string Z) :=
  ranks ← rank_bytes domain inst context;
  sizes ← mapM (λ x, b ← binding x.1; Ok (physical_identity b, x.2)) ranks;
  Ok (foldl add_to (∅ : gmap string Z) sizes).
End Plan.

(** ** Larger contexts take more bytes *)

(** Partitions and windows are not negative and no rank is bound twice. *)
Definition valid_partition (p : AFKVHeadPartition) : bool :=
  (0 <=? bytes_per_token p) && forallb (λ x : Z * AFKVHeadPartition, 0 <=? bytes_per_token x.2) (layer_partitions p).

Definition valid_plan (plan : AFRuntimePlan) : bool :=
  forallb (λ b, match kv_partition b with Some p => valid_partition p | None => true end) (rank_bindings plan) &&
  forallb (λ l, 0 <=? attention_window l) (layers plan) &&
  bool_decide (NoDup (rank_key <$> rank_bindings plan)).

(** Item by item at most as large *)
Definition item_le {K} (x y : K * Z) : Prop := x.1 = y.1 ∧ 0 <= x.2 <= y.2.

Lemma item_le_keys {K} (l l' : list (K * Z)) : Forall2 item_le l l' → l.*1 = l'.*1.
Proof. induction 1 as [|x y l l' [Hk _] _ IH]; [done|]. csimpl. congruence. Qed.

Lemma item_le_sum {K} (l l' : list (K * Z)) : Forall2 item_le l l' → 0 <= zsum l.*2 <= zsum l'.*2.
Proof. unfold zsum. induction 1 as [|x y l l' [_ Hv] _ IH]; csimpl; lia. Qed.

(** Two traversals of one list whose bodies are related *)
Lemma mapM_related {A B} (R : B → B → Prop) (f f' : A → outcome B) l k' :
  (∀ x y', x ∈ l → f' x = Ok y' → ∃ y, f x = Ok y ∧ R y y') →
  mapM f' l = Ok k' → ∃ k, mapM f l = Ok k ∧ Forall2 R k k'.
Proof.
  revert k'. induction l as [|x l IH]; intros k' Hf.
  { intros [= <-]. by exists []. }
  intros (y' & Hy' & (ys' & Hys' & [= <-])%bind_Ok)%bind_Ok.
  destruct (Hf x y') as (y & Hy & HR); [left|done|]. destruct (IH ys') as (ys & Hys & HRs); [|done|].
  { intros z z' Hz. apply Hf. by right. }
  exists (y :: ys). split; [|by constructor]. cbn. rewrite Hy. cbn. by rewrite Hys.
Qed.

Lemma visible_mono c c' w : 0 <= c <= c' → 0 <= w → 0 <= visible c w <= visible c' w.
Proof. unfold visible. destruct (Z.eqb_spec w 0); lia. Qed.

Section Mono.
Variable plan : AFRuntimePlan.
Hypothesis Hplan : valid_plan plan = true.

Lemma valid_bindings b p : b ∈ rank_bindings plan → kv_partition b = Some p → valid_partition p = true.
Proof.
  intros Hb Hp. unfold valid_plan in Hplan. rewrite !andb_true_iff, forallb_true in Hplan.
  destruct Hplan as ((H1 & _) & _). specialize (H1 b Hb). by rewrite Hp in H1.
Qed.

Lemma valid_windows layer lp : layer_plan plan layer = Ok lp → 0 <= attention_window lp.
Proof.
  unfold valid_plan in Hplan. rewrite !andb_true_iff, (forallb_true _ (layers plan)) in Hplan.
  destruct Hplan as ((_ & H2) & _). unfold layer_plan, or_missing.
  destruct (_ <? 0); [done|]. destruct (layers plan !! _) as [lp'|] eqn:Hl; [|done]. intros [= ->].
  apply Z.leb_le, H2. by eapply list_elem_of_lookup_2.
Qed.

Lemma valid_ranks : NoDup (rank_key <$> rank_bindings plan).
Proof. unfold valid_plan in Hplan. rewrite !andb_true_iff in Hplan. by destruct Hplan as (_ & ?%bool_decide_eq_true). Qed.

Lemma for_layer_nonneg p layer q : valid_partition p = true → for_layer p layer = Ok q → 0 <= bytes_per_token q.
Proof.
  unfold valid_partition, for_layer. rewrite andb_true_iff, forallb_true. intros [Hp Hq].
  destruct (layer_partitions p) as [|x ps]; [intros [= <-]; lia|].
  destruct (list_to_map _ !! layer) as [q'|] eqn:Hl; [|done]. intros [= <-].
  apply elem_of_list_to_map_2 in Hl. rewrite elem_of_reverse in Hl. apply Z.leb_le, (Hq _ Hl).
Qed.

Lemma layer_bytes_mono p per c c' layer x' :
  valid_partition p = true → 0 <= per → 0 <= c <= c' → layer_bytes plan p per c' layer = Ok x' →
  ∃ x, layer_bytes plan p per c layer = Ok x ∧ item_le x x'.
Proof.
  intros Hp Hper Hc H. unfold layer_bytes in *. taken H as size Hsize. rewrite Hsize. cbn.
  taken H as lp Hlp. rewrite Hlp. cbn. injection H as <-.
  pose proof (visible_mono c c' (attention_window lp) Hc (valid_windows _ _ Hlp)).
  eexists. split; [reflexivity|]. split; [done|]. cbn.
  assert (0 <= size); [|nia].
  destruct (layer_partitions p) eqn:Hps; [by injection Hsize as <-|].
  taken Hsize as q Hq. injection Hsize as <-. by eapply for_layer_nonneg.
Qed.

Lemma stage_NoDup total pp_size pp_rank counts stage :
  stage_layer_range total pp_size pp_rank counts = Ok stage → NoDup stage.
Proof.
  unfold stage_layer_range. destruct (_ || _); [done|]. destruct counts as [counts|].
  - destruct (_ || _); [done|]. intros (n & _ & [= <-])%bind_Ok. apply NoDup_zrange.
  - intros [= <-]. apply NoDup_zrange.
Qed.

Lemma rank_kv_bytes_mono b c c' n' :
  b ∈ rank_bindings plan → 0 <= c <= c' → rank_kv_bytes plan b c' = Ok n' →
  ∃ n, rank_kv_bytes plan b c = Ok n ∧ 0 <= n <= n'.
Proof.
  intros Hb Hc H. unfold rank_kv_bytes in *. taken H as sizes' Hs'. injection H as <-.
  unfold rank_layer_kv_bytes in *. checked Hs' as _. rewrite (proj2 (Z.leb_le _ _)) by lia. cbn [expect].
  change (Ok tt ≫= ?k) with (k tt). cbv beta.
  destruct (kv_partition b) as [p|] eqn:Hp; [|injection Hs' as <-; by exists 0].
  taken Hs' as d Hd. rewrite Hd. cbn. taken Hs' as stage Hst. rewrite Hst. cbn.
  taken Hs' as per Hper. rewrite Hper. cbn.
  pose proof (valid_bindings b p Hb Hp) as Hvp.
  assert (0 <= per).
  { destruct stage; [done|]. injection Hper as <-. apply Z.div_pos; [|cbn; lia].
    unfold valid_partition in Hvp. rewrite andb_true_iff in Hvp. lia. }
  destruct (mapM_related item_le (layer_bytes plan p per c) (layer_bytes plan p per c') stage sizes') as (sizes & Hs & Hle);
    [intros x y' _; by apply layer_bytes_mono|done|].
  exists (zsum (dict_items sizes).*2). split; [apply bind_Ok; by exists sizes|].
  assert (sizes.*1 = stage) as Hk.
  { apply mapM_Ok in Hs. clear -Hs. induction Hs as [|x y l k Hx _ IH]; [done|]. csimpl. rewrite IH. f_equal.
    unfold layer_bytes in Hx. taken Hx as z _. taken Hx as lp _. by injection Hx as <-. }
  apply stage_NoDup in Hst. rewrite !dict_items_nodup; [by apply item_le_sum| |by rewrite Hk].
  by rewrite <- (item_le_keys _ _ Hle), Hk.
Qed.

Lemma instance_spec domain inst b :
  b ∈ instance_bindings plan domain inst ↔ (rb_domain b = domain ∧ rb_instance b = inst) ∧ b ∈ rank_bindings plan.
Proof. unfold instance_bindings. by rewrite merge_sort_Permutation, list_elem_of_filter. Qed.

Lemma instance_NoDup domain inst : NoDup (rank_key <$> instance_bindings plan domain inst).
Proof.
  unfold instance_bindings. rewrite merge_sort_Permutation.
  eapply sublist_NoDup; [apply valid_ranks|]. apply fmap_sublist, sublist_filter.
Qed.

(** The ranks of an instance with their bytes *)
Lemma rank_bytes_Ok domain inst c sizes :
  rank_bytes plan domain inst c = Ok sizes →
  Forall2 (λ b x, x.1 = rank_key b ∧ rank_kv_bytes plan b c = Ok x.2) (instance_bindings plan domain inst) sizes ∧
  NoDup sizes.*1.
Proof.
  unfold rank_bytes, bindings_for_instance. pose proof (instance_NoDup domain inst) as Hnd.
  destruct (instance_bindings plan domain inst) as [|b0 bs0] eqn:Hbs; [done|]. rewrite <- Hbs in *.
  intros (bs & Heq & H)%bind_Ok. assert (bs = instance_bindings plan domain inst) as -> by (rewrite Hbs in *; congruence).
  taken H as l Hl. injection H as <-. apply mapM_Ok in Hl.
  assert (Forall2 (λ b x, x.1 = rank_key b ∧ rank_kv_bytes plan b c = Ok x.2) (instance_bindings plan domain inst) l) as Hall.
  { eapply Forall2_impl; [exact Hl|]. intros b x (n & Hn & [= <-])%bind_Ok. done. }
  assert (l.*1 = rank_key <$> instance_bindings plan domain inst) as Hk.
  { clear -Hall. induction Hall as [|b x bs l [Hx _] _ IH]; [done|]. csimpl. congruence. }
  assert (NoDup l.*1) as Hndl by by rewrite Hk. by rewrite dict_items_nodup.
Qed.

Lemma rank_bytes_mono domain inst c c' sizes' :
  0 <= c <= c' → rank_bytes plan domain inst c' = Ok sizes' →
  ∃ sizes, rank_bytes plan domain inst c = Ok sizes ∧ Forall2 item_le sizes sizes'.
Proof.
  intros Hc H. pose proof (rank_bytes_Ok _ _ _ _ H) as [_ Hnd]. unfold rank_bytes in *.
  taken H as bs Hbs. rewrite Hbs. cbn. taken H as l' Hl'. injection H as <-.
  assert (∀ b, b ∈ bs → b ∈ rank_bindings plan) as Hin.
  { intros b Hb. unfold bindings_for_instance in Hbs. destruct (instance_bindings _ _ _) eqn:He; [done|].
    injection Hbs as <-. rewrite <- He in Hb. by apply instance_spec in Hb as [_ ?]. }
  destruct (mapM_related item_le (λ b, s ← rank_kv_bytes plan b c; Ok (rank_key b, s))
    (λ b, s ← rank_kv_bytes plan b c'; Ok (rank_key b, s)) bs l') as (l & Hl & Hle); [|done|].
  { intros b y' Hb (n' & Hn' & [= <-])%bind_Ok.
    destruct (rank_kv_bytes_mono b c c' n') as (n & Hn & Hle); [by apply Hin|done|done|].
    exists (rank_key b, n). rewrite Hn. by split. }
  exists (dict_items l). split; [apply bind_Ok; by exists l|].
  assert (l'.*1 = rank_key <$> bs) as Hk.
  { apply mapM_Ok in Hl'. clear -Hl'. induction Hl' as [|b x bs l (n & _ & [= <-])%bind_Ok _ IH]; [done|].
    csimpl. by rewrite IH. }
  assert (NoDup l'.*1) as Hndl.
  { rewrite Hk. unfold bindings_for_instance in Hbs. destruct (instance_bindings _ _ _) eqn:He; [done|].
    injection Hbs as <-. rewrite <- He. apply instance_NoDup. }
  rewrite !dict_items_nodup; [done|done|]. by rewrite (item_le_keys _ _ Hle).
Qed.

Lemma physical_bytes_mono domain inst c c' m' :
  0 <= c <= c' → physical_bytes plan domain inst c' = Ok m' →
  ∃ m, physical_bytes plan domain inst c = Ok m ∧
    ∀ p, 0 <= total m p <= total m' p ∧ (is_Some (m !! p) ↔ is_Some (m' !! p)).
Proof.
  intros Hc H. unfold physical_bytes in *. taken H as ranks' Hr'.
  destruct (rank_bytes_mono _ _ _ _ _ Hc Hr') as (ranks & Hr & Hle). rewrite Hr. cbn.
  taken H as l' Hl'. injection H as <-.
  assert (∃ l, mapM (λ x, b ← binding plan x.1; Ok (physical_identity b, x.2)) ranks = Ok l ∧ Forall2 item_le l l')
    as (l & Hl & Hll).
  { clear Hr Hr'. revert l' Hl'. induction Hle as [|x x' ranks ranks' [Hk Hx] _ IH]; intros l' Hl'.
    - injection Hl' as <-. by exists [].
    - apply bind_Ok in Hl' as (y' & Hy' & Hl'). apply bind_Ok in Hl' as (ys' & Hys' & [= <-]).
      destruct (IH ys' Hys') as (ys & Hys & Hle). apply bind_Ok in Hy' as (b & Hb & [= <-]).
      exists ((physical_identity b, x.2) :: ys). split; [|by constructor].
      cbn. rewrite Hk, Hb. cbn. by rewrite Hys. }
  exists (foldl add_to (∅ : gmap string Z) l). split; [apply bind_Ok; by exists l|]. intros p.
  rewrite !total_add_all, !dom_add_all, (item_le_keys _ _ Hll). split; [|done].
  assert (total (∅ : gmap string Z) p = 0) as -> by (unfold total; by rewrite lookup_empty).
  exact (sum_at_mono p l l' Hll).
Qed.
End Mono.
