(* ===== verification/AfResident.v ===== *)
(** * Resident KV of a fixed cohort ([TokenSim/af/runtime/admission.py])

    [ResidentKV] reserves for every admitted request the KV bytes of its largest context
    on all devices that hold a shard of it.  An admission that returns keeps every device
    and every rank within its capacity, so contexts can grow to their maximum. *)

From stdpp Require Import gmap list strings.
From Stdlib Require Import ZArith Lia.
From S2P Require Import Prelude.
From S2P Require Import Buckets.
From S2P Require Import AfDag.
From S2P Require Import AfGraph.
From S2P Require Import AfPlan.

Open Scope Z_scope.

(** ** State *)

Record KVLease := mkLease {
  kl_request_id : Z;
  kl_domain : string;
  kl_instance : string;
  maximum_context : Z;
  current_context : Z;
}.

#[global] Instance eta_lease : Eta KVLease := λ l,
  mkLease (kl_request_id l) (kl_domain l) (kl_instance l) (maximum_context l) (current_context l).

Record ResidentKV := mkResident {
  leases : gmap Z KVLease;
  reserved : gmap string Z;
  reserved_by_rank : gmap RankKey Z;
}.

#[global] Instance eta_resident : Eta ResidentKV := λ s, mkResident (leases s) (reserved s) (reserved_by_rank s).

Section Ledger.
Variable plan : AFRuntimePlan.
Implicit Types (s : ResidentKV) (l : KVLease).

(** [ResidentKV.__init__] *)
Definition new_resident : ResidentKV :=
  mkResident ∅ (list_to_map ((λ st, (ps_physical_identity st, 0)) <$> physical_states plan)) ∅.

(** [self._bytes(lease.domain, lease.instance, context)] *)
Definition lease_bytes l (context : Z) : outcome (gmap string Z) :=
  physical_bytes plan (kl_domain l) (kl_instance l) context.

Definition lease_rank_bytes l (context : Z) : outcome (list (RankKey * Z)) :=
  rank_bytes plan (kl_domain l) (kl_instance l) context.

(** A computation that reads the plan only *)
Definition reads {A} (o : outcome A) : M ResidentKV A := λ s, (o, s).

(** [self.reserved[physical] += size] *)
Definition add_reserved (x : string * Z) : M ResidentKV unit := λ s,
  match reserved s !! x.1 with
  | Some v => (Ok tt, s <| reserved := <[x.1 := v + x.2]> (reserved s) |>)
  | None => (Raise KeyError, s)
  end.

(** [self.reserved_by_rank[rank] = self.reserved_by_rank.get(rank, 0) + size] *)
Definition add_rank (x : RankKey * Z) : M ResidentKV unit :=
  modify (λ s, s <| reserved_by_rank ::= λ m, add_to m x |>).

(** [self.reserved_by_rank[rank] -= size] *)
Definition subtract_rank (x : RankKey * Z) : M ResidentKV unit := λ s,
  match reserved_by_rank s !! x.1 with
  | Some v => (Ok tt, s <| reserved_by_rank := <[x.1 := v - x.2]> (reserved_by_rank s) |>)
  | None => (Raise KeyError, s)
  end.

(** ** [admit] *)

(** The budget of one rank of the replica *)
Definition check_rank s (rank_sizes : list (RankKey * Z)) (x : RankKey * Z) : outcome unit :=
  b ← binding plan x.1;
  let budget := match kv_partition b with Some p => x.2 * bytes_per_block p | None => 0 end in
  size ← (match (list_to_map rank_sizes : gmap RankKey Z) !! x.1 with
          | Some size => Ok size
          | None => Raise KeyError
          end);
  expect (default 0 (reserved_by_rank s !! x.1) + size <=? budget).

(** The memory of one device *)
Definition check_device s (x : string * Z) : outcome unit :=
  st ← physical_state plan x.1;
  held ← (match reserved s !! x.1 with Some v => Ok v | None => Raise KeyError end);
  expect (model_bytes st + protocol_buffer_bytes st + held + x.2 <=? capacity_bytes st).

(** All checks of [admit]: the bytes on every device and on every rank *)
Definition check_admit s l : outcome (gmap string Z * list (RankKey * Z)) :=
  expect (0 <=? kl_request_id l) ;;
  expect (1 <=? maximum_context l) ;;
  expect (0 <=? current_context l) ;;
  expect (bool_decide (leases s !! kl_request_id l = None) && (current_context l <=? maximum_context l)) ;;
  sizes ← lease_bytes l (maximum_context l);
  rank_sizes ← lease_rank_bytes l (maximum_context l);
  replica ← replica_for_instance plan (kl_domain l) (kl_instance l);
  each (local_gpu_blocks replica) (check_rank s rank_sizes) ;;
  each (map_to_list sizes) (check_device s) ;;
  Ok (sizes, rank_sizes).

Definition admit_lease l : M ResidentKV unit := λ s,
  ('(sizes, rank_sizes) ← reads (check_admit s l);
   modify (λ s, s <| leases ::= <[kl_request_id l := l]> |>) ;;
   for_ (map_to_list sizes) add_reserved ;;
   for_ rank_sizes add_rank) s.

(** ** [commit] and [release] *)

Definition commit (request_id context : Z) : M ResidentKV unit := λ s,
  (reads (expect (0 <=? context)) ;;
   l ← reads (match leases s !! request_id with Some l => Ok l | None => Raise KeyError end);
   if maximum_context l <? context then raise SimulationStateError
   else modify (λ s, s <| leases ::= <[request_id := l <| current_context := context |>]> |>)) s.

Definition release (request_id : Z) : M ResidentKV unit := λ s,
  match leases s !! request_id with
  | None => (Raise KeyError, s)
  | Some l =>
      (modify (λ s, s <| leases ::= delete request_id |>) ;;
       sizes ← reads (lease_bytes l (maximum_context l));
       for_ (map_to_list sizes) (λ x, add_reserved (x.1, - x.2)) ;;
       rank_sizes ← reads (lease_rank_bytes l (maximum_context l));
       for_ rank_sizes subtract_rank) s
  end.

(** ** [summary] *)

Definition add_current (current : gmap string Z) l : outcome (gmap string Z) :=
  sizes ← lease_bytes l (current_context l);
  foldl (λ acc x, m ← acc;
      match m !! x.1 with Some v => Ok (<[x.1 := v + x.2]> m) | None => Raise KeyError end)
    (Ok current) (map_to_list sizes).

(** [resident_current_kv_bytes]; the leases in any order give the same sums *)
Definition resident_current s : outcome (gmap string Z) :=
  foldl (λ acc x, m ← acc; add_current m x.2) (Ok ((λ _, 0) <$> reserved s)) (map_to_list (leases s)).
End Ledger.

(** ** Loops over the ledger *)

Section Loops.
Implicit Types (s : ResidentKV).

Lemma add_reserved_loop (l : list (string * Z)) s :
  (∀ x, x ∈ l → is_Some (reserved s !! x.1)) →
  for_ l add_reserved s = (Ok tt, s <| reserved := foldl add_to (reserved s) l |>).
Proof.
  revert s. induction l as [|x l IH]; intros [ls r rr] Hl; [done|]. cbn [for_].
  destruct (Hl x) as [v Hv]; [left|]. cbn [reserved] in Hv.
  unfold mbind, M_bind. unfold add_reserved at 1. cbn [reserved]. rewrite Hv.
  rewrite IH; cbn.
  - unfold add_to. by rewrite Hv.
  - intros y Hy. destruct (Hl y) as [w Hw]; [by right|]. cbn in Hw.
    destruct (decide (x.1 = y.1)) as [->|Hne]; [rewrite lookup_insert_eq; by eexists|].
    rewrite lookup_insert_ne by done. by eexists.
Qed.

Lemma add_rank_loop (l : list (RankKey * Z)) s :
  for_ l add_rank s = (Ok tt, s <| reserved_by_rank := foldl add_to (reserved_by_rank s) l |>).
Proof.
  revert s. induction l as [|x l IH]; intros [ls r rr]; [done|]. cbn [for_].
  unfold mbind, M_bind. unfold add_rank at 1, modify. rewrite IH. done.
Qed.

Lemma subtract_rank_loop (l : list (RankKey * Z)) s :
  (∀ x, x ∈ l → is_Some (reserved_by_rank s !! x.1)) →
  for_ l subtract_rank s =
    (Ok tt, s <| reserved_by_rank := foldl add_to (reserved_by_rank s) ((λ x, (x.1, - x.2)) <$> l) |>).
Proof.
  revert s. induction l as [|x l IH]; intros [ls r rr] Hl; [done|]. cbn [for_].
  destruct (Hl x) as [v Hv]; [left|]. cbn [reserved_by_rank] in Hv.
  unfold mbind, M_bind. unfold subtract_rank at 1. cbn [reserved_by_rank]. rewrite Hv.
  rewrite IH; cbn.
  - unfold add_to. cbn. rewrite Hv. cbn. by rewrite Z.add_opp_r.
  - intros y Hy. destruct (Hl y) as [w Hw]; [by right|]. cbn in Hw.
    destruct (decide (x.1 = y.1)) as [->|Hne]; [rewrite lookup_insert_eq; by eexists|].
    rewrite lookup_insert_ne by done. by eexists.
Qed.
End Loops.

(** ** Sums over the leases *)

Definition lease_sum (size : KVLease → Z) (m : gmap Z KVLease) : Z :=
  zsum ((λ x, size x.2) <$> map_to_list m).

Lemma lease_sum_insert size m i l : m !! i = None → lease_sum size (<[i := l]> m) = size l + lease_sum size m.
Proof.
  intros Hi. unfold lease_sum.
  by rewrite (zsum_perm _ ((λ x : Z * KVLease, size x.2) <$> (i, l) :: map_to_list m)) by by rewrite map_to_list_insert.
Qed.

Lemma lease_sum_delete size m i l : m !! i = Some l → lease_sum size m = size l + lease_sum size (delete i m).
Proof.
  intros Hi. rewrite <- (insert_delete_id m i l Hi) at 1. by rewrite lease_sum_insert by apply lookup_delete_eq.
Qed.

Lemma lease_sum_nonneg size m : (∀ i l, m !! i = Some l → 0 <= size l) → 0 <= lease_sum size m.
Proof.
  intros Hm. unfold lease_sum. assert (∀ x, x ∈ map_to_list m → 0 <= size x.2) as Hl
    by (intros [i l] Hx%elem_of_map_to_list; by eapply Hm).
  revert Hl. generalize (map_to_list m) as l. unfold zsum. induction l as [|x l IH]; intros Hl; csimpl; [lia|].
  assert (0 <= size x.2) by (apply Hl; left). assert (∀ y, y ∈ l → 0 <= size y.2) by (intros; apply Hl; by right).
  specialize (IH H0). lia.
Qed.

Lemma lease_sum_mono size size' m :
  (∀ i l, m !! i = Some l → size l <= size' l) → lease_sum size m <= lease_sum size' m.
Proof.
  intros Hm. unfold lease_sum. assert (∀ x, x ∈ map_to_list m → size x.2 <= size' x.2) as Hl
    by (intros [i l] Hx%elem_of_map_to_list; by eapply Hm).
  revert Hl. generalize (map_to_list m) as l. unfold zsum. induction l as [|x l IH]; intros Hl; csimpl; [lia|].
  assert (size x.2 <= size' x.2) by (apply Hl; left).
  assert (∀ y, y ∈ l → size y.2 <= size' y.2) as Hl' by (intros; apply Hl; by right). specialize (IH Hl'). lia.
Qed.

Lemma for_fmap {S A B} (f : A → B) l (body : B → M S unit) s : for_ (f <$> l) body s = for_ l (λ x, body (f x)) s.
Proof.
  revert s. induction l as [|x l IH]; intros s; [done|]. csimpl. cbn [for_]. unfold mbind, M_bind.
  destruct (body (f x) s) as [[[]|e] s']; [apply IH|done].
Qed.

(** ** The invariant *)

Section Invariant.
Variable plan : AFRuntimePlan.
Hypothesis Hplan : valid_plan plan = true.
Implicit Types (s : ResidentKV) (l : KVLease) (p : string) (r : RankKey).

(** What a lease reserves on a device and on a rank *)
Definition held p l : Z :=
  match lease_bytes plan l (maximum_context l) with Ok m => total m p | Raise _ => 0 end.

Definition held_rank r l : Z :=
  match lease_rank_bytes plan l (maximum_context l) with Ok ls => sum_at r ls | Raise _ => 0 end.

Definition budget (b : AFRankBinding) (blocks : Z) : Z :=
  match kv_partition b with Some q => blocks * bytes_per_block q | None => 0 end.

(** The ranks of the replica of a lease are within their blocks. *)
Definition within_budget s l : Prop :=
  ∃ replica, replica_for_instance plan (kl_domain l) (kl_instance l) = Ok replica ∧
    ∀ r blocks, (r, blocks) ∈ local_gpu_blocks replica →
      ∃ b, binding plan r = Ok b ∧ total (reserved_by_rank s) r <= budget b blocks.

Definition fits s p : Prop := ∃ st, physical_state plan p = Ok st ∧
  model_bytes st + protocol_buffer_bytes st + total (reserved s) p <= capacity_bytes st.

Record lease_ok s (id : Z) l : Prop := {
  lo_id : kl_request_id l = id;
  lo_context : 0 <= current_context l <= maximum_context l;
  lo_sizes : ∃ sizes, lease_bytes plan l (maximum_context l) = Ok sizes ∧
    ∀ p, is_Some (sizes !! p) → is_Some (reserved s !! p);
  lo_ranks : ∃ ranks, lease_rank_bytes plan l (maximum_context l) = Ok ranks ∧
    (∀ x, x ∈ ranks → is_Some (reserved_by_rank s !! x.1)) ∧
    ∀ replica x, replica_for_instance plan (kl_domain l) (kl_instance l) = Ok replica →
      x ∈ local_gpu_blocks replica → x.1 ∈ ranks.*1;
  lo_budget : within_budget s l;
}.

Record resident_inv s : Prop := {
  rv_lease id l : leases s !! id = Some l → lease_ok s id l;
  rv_reserved p : total (reserved s) p = lease_sum (held p) (leases s);
  rv_rank r : total (reserved_by_rank s) r = lease_sum (held_rank r) (leases s);
  rv_fits p : total (reserved s) p ≠ 0 → fits s p;
}.

Lemma held_nonneg p l : 0 <= maximum_context l → 0 <= held p l.
Proof.
  intros Hm. unfold held, lease_bytes. destruct (physical_bytes _ _ _ _) as [m|] eqn:Hb; [|done].
  destruct (physical_bytes_mono plan Hplan _ _ (maximum_context l) _ _ (conj Hm (Z.le_refl _)) Hb) as (m' & Hm' & Hall).
  assert (m' = m) as -> by congruence. by destruct (Hall p) as [[? _] _].
Qed.

Lemma held_rank_nonneg r l : 0 <= maximum_context l → 0 <= held_rank r l.
Proof.
  intros Hm. unfold held_rank, lease_rank_bytes. destruct (rank_bytes _ _ _ _) as [ls|] eqn:Hb; [|done].
  destruct (rank_bytes_mono plan Hplan _ _ (maximum_context l) _ _ (conj Hm (Z.le_refl _)) Hb) as (ls' & Hls' & Hall).
  assert (ls' = ls) as -> by congruence. by destruct (sum_at_mono r ls ls Hall).
Qed.

Lemma new_resident_inv : resident_inv (new_resident plan).
Proof.
  assert (∀ p, total (reserved (new_resident plan)) p = 0) as H0.
  { intros p. unfold total, new_resident. cbn [reserved]. destruct (list_to_map _ !! p) as [v|] eqn:Hp; [|done].
    apply elem_of_list_to_map_2, list_elem_of_fmap in Hp as (st & [= _ ->] & _). done. }
  split.
  - intros id l Hl. cbn in Hl. by rewrite lookup_empty in Hl.
  - intros p. rewrite H0. unfold lease_sum. cbn. by rewrite map_to_list_empty.
  - intros r. unfold lease_sum, total. cbn. by rewrite map_to_list_empty, lookup_empty.
  - intros p Hp. by rewrite H0 in Hp.
Qed.

(** ** Admission *)

Lemma check_rank_Ok s ranks x : NoDup ranks.*1 → check_rank plan s ranks x = Ok tt →
  x.1 ∈ ranks.*1 ∧ ∃ b, binding plan x.1 = Ok b ∧ total (reserved_by_rank s) x.1 + sum_at x.1 ranks <= budget b x.2.
Proof.
  intros Hnd H. unfold check_rank in H. taken H as b Hb. taken H as size Hs.
  apply expect_Ok, Z.leb_le in H. destruct (list_to_map ranks !! x.1) as [v|] eqn:Hv; [|done].
  injection Hs as ->. apply elem_of_list_to_map_2 in Hv.
  split; [apply list_elem_of_fmap; by exists (x.1, size)|]. exists b. split; [done|].
  by rewrite (sum_at_unique _ _ _ Hnd Hv).
Qed.

Lemma check_device_Ok s x : check_device plan s x = Ok tt →
  is_Some (reserved s !! x.1) ∧ ∃ st, physical_state plan x.1 = Ok st ∧
    model_bytes st + protocol_buffer_bytes st + (total (reserved s) x.1 + x.2) <= capacity_bytes st.
Proof.
  unfold check_device. intros H. taken H as st Hst. taken H as v Hv. apply expect_Ok, Z.leb_le in H.
  destruct (reserved s !! x.1) as [w|] eqn:Hw; [|done]. injection Hv as ->. split; [by eexists|].
  exists st. split; [done|]. unfold total. rewrite Hw. cbn. lia.
Qed.

Record admitted s l (sizes : gmap string Z) (ranks : list (RankKey * Z)) : Prop := {
  ad_fresh : leases s !! kl_request_id l = None;
  ad_context : 0 <= current_context l <= maximum_context l;
  ad_sizes : lease_bytes plan l (maximum_context l) = Ok sizes;
  ad_ranks : lease_rank_bytes plan l (maximum_context l) = Ok ranks;
  ad_nodup : NoDup ranks.*1;
  ad_devices p v : sizes !! p = Some v → is_Some (reserved s !! p) ∧ ∃ st, physical_state plan p = Ok st ∧
    model_bytes st + protocol_buffer_bytes st + (total (reserved s) p + v) <= capacity_bytes st;
  ad_budget : ∃ replica, replica_for_instance plan (kl_domain l) (kl_instance l) = Ok replica ∧
    ∀ x, x ∈ local_gpu_blocks replica → x.1 ∈ ranks.*1 ∧ ∃ b, binding plan x.1 = Ok b ∧
      total (reserved_by_rank s) x.1 + sum_at x.1 ranks <= budget b x.2;
}.

Lemma check_admit_Ok s l sizes ranks : check_admit plan s l = Ok (sizes, ranks) → admitted s l sizes ranks.
Proof.
  unfold check_admit. intros H. checked H as _. checked H as _. checked H as Hc. checked H as Hf.
  taken H as sz Hsz. taken H as rk Hrk. taken H as replica Hrep. taken H as [] Hloc. taken H as [] Hdev.
  injection H as -> ->. apply andb_true_iff in Hf as [Hf%bool_decide_eq_true Hm]. rewrite each_Ok in Hloc.
  rewrite each_Ok in Hdev. apply Z.leb_le in Hc, Hm.
  pose proof (rank_bytes_Ok plan Hplan _ _ _ _ Hrk) as [_ Hnd].
  split; [done|done|done|done|done| |].
  - intros p v Hv. apply elem_of_map_to_list in Hv. apply (check_device_Ok s (p, v)), (Hdev _ Hv).
  - exists replica. split; [done|]. intros x Hx. apply (check_rank_Ok s); [done|]. by apply Hloc.
Qed.

Definition after_admit s l (sizes : gmap string Z) (ranks : list (RankKey * Z)) : ResidentKV :=
  mkResident (<[kl_request_id l := l]> (leases s)) (foldl add_to (reserved s) (map_to_list sizes))
    (foldl add_to (reserved_by_rank s) ranks).

Lemma admit_lease_spec s l :
  match check_admit plan s l with
  | Ok (sizes, ranks) => admit_lease plan l s = (Ok tt, after_admit s l sizes ranks)
  | Raise e => admit_lease plan l s = (Raise e, s)
  end.
Proof.
  unfold admit_lease, reads, mbind, M_bind. destruct (check_admit plan s l) as [[sizes ranks]|e] eqn:Hc; [|done].
  apply check_admit_Ok in Hc. unfold modify. rewrite add_reserved_loop.
  - rewrite add_rank_loop. by destruct s.
  - intros [p v] Hx%elem_of_map_to_list. by destruct (ad_devices _ _ _ _ Hc p v Hx) as [? _].
Qed.

(** The ranks of an instance are the ranks of no other one. *)
Lemma rank_of_instance l l' ranks ranks' r :
  lease_rank_bytes plan l (maximum_context l) = Ok ranks → lease_rank_bytes plan l' (maximum_context l') = Ok ranks' →
  r ∈ ranks.*1 → r ∈ ranks'.*1 → kl_domain l = kl_domain l' ∧ kl_instance l = kl_instance l'.
Proof.
  assert (∀ l ranks, lease_rank_bytes plan l (maximum_context l) = Ok ranks → r ∈ ranks.*1 →
    ∃ b, b ∈ rank_bindings plan ∧ rank_key b = r ∧ rb_domain b = kl_domain l ∧ rb_instance b = kl_instance l) as Hb.
  { intros l0 rs (Hall & _)%(rank_bytes_Ok plan Hplan) (x & -> & [i Hi]%list_elem_of_lookup)%list_elem_of_fmap.
    destruct (Forall2_lookup_r _ _ _ _ _ Hall Hi) as (b & Hb & Hk & _). exists b.
    apply list_elem_of_lookup_2, instance_spec in Hb as ((? & ?) & ?). done. }
  intros Hl Hl' Hr Hr'. destruct (Hb l ranks Hl Hr) as (b & Hin & Hk & <- & <-).
  destruct (Hb l' ranks' Hl' Hr') as (b' & Hin' & Hk' & <- & <-).
  assert (b = b') as ->; [|done]. apply list_elem_of_lookup in Hin as [i Hi]. apply list_elem_of_lookup in Hin' as [j Hj].
  assert (i = j) as ->; [|congruence].
  eapply NoDup_lookup; [apply (valid_ranks plan Hplan)|rewrite list_lookup_fmap, Hi; cbn; reflexivity|].
  rewrite list_lookup_fmap, Hj. cbn. congruence.
Qed.

Lemma admit_inv s l sizes ranks : resident_inv s → admitted s l sizes ranks → resident_inv (after_admit s l sizes ranks).
Proof.
  intros [Hlease Hres Hrank Hfits] [Hf Hc Hs Hr Hnd Hdev (replica & Hrep & Hbud)].
  assert (∀ p, total (reserved (after_admit s l sizes ranks)) p = total (reserved s) p + total sizes p) as Ht.
  { intros p. cbn. by rewrite total_add_all, sum_at_map_to_list. }
  assert (∀ r, total (reserved_by_rank (after_admit s l sizes ranks)) r = total (reserved_by_rank s) r + sum_at r ranks) as Htr.
  { intros r. cbn. by rewrite total_add_all. }
  assert (∀ x, x ∈ local_gpu_blocks replica → x.1 ∈ ranks.*1 ∧ ∃ b, binding plan x.1 = Ok b ∧
    total (reserved_by_rank (after_admit s l sizes ranks)) x.1 <= budget b x.2) as Hbud'.
  { intros x Hx. destruct (Hbud x Hx) as (Hin & b & Hb & Hle). split; [done|]. exists b. by rewrite Htr. }
  split.
  - intros id l0. cbn [leases after_admit]. destruct (decide (id = kl_request_id l)) as [->|Hne].
    + rewrite lookup_insert_eq. intros [= <-]. split; [done|done| | |].
      * exists sizes. split; [done|]. intros p [v Hv]. apply dom_add_all. left. by destruct (Hdev p v Hv).
      * exists ranks. split; [done|]. split.
        -- intros x Hx. apply dom_add_all. right. apply list_elem_of_fmap. by exists x.
        -- intros rep x Hrep' Hx. assert (rep = replica) as -> by congruence. by destruct (Hbud x Hx).
      * exists replica. split; [done|]. intros r blocks Hx. by destruct (Hbud' _ Hx).
    + rewrite lookup_insert_ne by done. intros [Hid Hc0 (sz & Hsz & Hszr) (rk & Hrk & Hrkr & Hrkl) (rep & Hrep0 & Hb0)]%Hlease.
      split; [done|done| | |].
      * exists sz. split; [done|]. intros p Hp. apply dom_add_all. left. by apply Hszr.
      * exists rk. split; [done|]. split; [|done]. intros x Hx. apply dom_add_all. left. by apply Hrkr.
      * exists rep. split; [done|]. intros r blocks Hx. destruct (decide (r ∈ ranks.*1)) as [Hin|Hout].
        -- destruct (rank_of_instance l0 l rk ranks r Hrk Hr (Hrkl _ _ Hrep0 Hx) Hin) as [Hd Hi].
           rewrite Hd, Hi in Hrep0. assert (rep = replica) as -> by congruence. by destruct (Hbud' _ Hx).
        -- destruct (Hb0 r blocks Hx) as (b & Hb & Hle). exists b. split; [done|].
           rewrite Htr, (sum_at_absent r ranks Hout). lia.
  - intros p. rewrite Ht, Hres. cbn [leases after_admit]. rewrite lease_sum_insert by done.
    unfold held at 2. rewrite Hs. lia.
  - intros r. rewrite Htr, Hrank. cbn [leases after_admit]. rewrite lease_sum_insert by done.
    unfold held_rank at 2. rewrite Hr. lia.
  - intros p. unfold fits. rewrite Ht. unfold total at 2 4. destruct (sizes !! p) as [v|] eqn:Hv; cbn [default from_option].
    + intros _. by destruct (Hdev p v Hv) as [_ ?].
    + rewrite Z.add_0_r. apply Hfits.
Qed.

(** ** Commits and releases *)

Lemma commit_spec id c s :
  (commit id c s = (Ok tt, s <| leases ::= alter (λ l, l <| current_context := c |>) id |>) ∧
    ∃ l, leases s !! id = Some l ∧ 0 <= c <= maximum_context l) ∨
  ∃ e, commit id c s = (Raise e, s).
Proof.
  unfold commit, reads, mbind, M_bind. destruct (0 <=? c) eqn:Hc; [cbn [expect]|right; by eexists].
  destruct (leases s !! id) as [l|] eqn:Hl; [|right; by eexists].
  destruct (maximum_context l <? c) eqn:Hm; [right; by eexists|]. left. split.
  - unfold modify. destruct s as [ls r rr]. cbn in *. do 2 f_equal. apply map_eq. intros j.
    destruct (decide (id = j)) as [<-|Hne].
    + by rewrite lookup_insert_eq, lookup_alter_eq, Hl.
    + by rewrite lookup_insert_ne, lookup_alter_ne.
  - exists l. split; [done|]. lia.
Qed.

Lemma lease_sum_alter size m i (f : KVLease → KVLease) :
  (∀ l, size (f l) = size l) → lease_sum size (alter f i m) = lease_sum size m.
Proof.
  intros Hf. destruct (m !! i) as [l|] eqn:Hi.
  - rewrite (lease_sum_delete size (alter f i m) i (f l)) by by rewrite lookup_alter_eq, Hi.
    rewrite (lease_sum_delete size m i l Hi), Hf, delete_alter_eq. done.
  - by rewrite alter_id by (intros l Hl; congruence).
Qed.

Lemma commit_inv id c l s : resident_inv s → leases s !! id = Some l → 0 <= c <= maximum_context l →
  resident_inv (s <| leases ::= alter (λ l, l <| current_context := c |>) id |>).
Proof.
  intros [Hlease Hres Hrank Hfits] Hl Hc. split.
  - intros j l' Hj. cbn in Hj. destruct (decide (id = j)) as [<-|Hne].
    + rewrite lookup_alter_eq, Hl in Hj. injection Hj as <-. destruct (Hlease id l Hl) as [H1 H2 H3 H4 H5]. by split.
    + rewrite lookup_alter_ne in Hj by done. destruct (Hlease j l' Hj) as [H1 H2 H3 H4 H5]. by split.
  - intros p. cbn. rewrite lease_sum_alter; [apply Hres|done].
  - intros r. cbn. rewrite lease_sum_alter; [apply Hrank|done].
  - exact Hfits.
Qed.

Definition after_release s id (sizes : gmap string Z) (ranks : list (RankKey * Z)) : ResidentKV :=
  mkResident (delete id (leases s)) (foldl add_to (reserved s) ((λ x, (x.1, - x.2)) <$> map_to_list sizes))
    (foldl add_to (reserved_by_rank s) ((λ x, (x.1, - x.2)) <$> ranks)).

Lemma release_spec id s l : resident_inv s → leases s !! id = Some l →
  ∃ sizes ranks, lease_bytes plan l (maximum_context l) = Ok sizes ∧ lease_rank_bytes plan l (maximum_context l) = Ok ranks ∧
    release plan id s = (Ok tt, after_release s id sizes ranks).
Proof.
  intros Hinv Hl. destruct (rv_lease _ Hinv id l Hl) as [_ _ (sizes & Hs & Hsr) (ranks & Hr & Hrr & _) _].
  exists sizes, ranks. split; [done|]. split; [done|]. unfold release, reads, mbind, M_bind. rewrite Hl.
  unfold modify. rewrite Hs. rewrite <- (for_fmap (λ x : string * Z, (x.1, - x.2)) _ add_reserved).
  rewrite add_reserved_loop.
  - rewrite Hr, subtract_rank_loop; [by destruct s|]. intros x Hx. destruct s; cbn in *. by apply Hrr.
  - intros x (y & -> & Hy)%list_elem_of_fmap. destruct y as [p v]. apply elem_of_map_to_list in Hy.
    destruct s; cbn in *. apply Hsr. by eexists.
Qed.

Lemma release_inv id s l sizes ranks : resident_inv s → leases s !! id = Some l →
  lease_bytes plan l (maximum_context l) = Ok sizes → lease_rank_bytes plan l (maximum_context l) = Ok ranks →
  resident_inv (after_release s id sizes ranks).
Proof.
  intros [Hlease Hres Hrank Hfits] Hl Hs Hr.
  assert (0 <= maximum_context l) as Hmax by (destruct (lo_context _ _ _ (Hlease id l Hl)); lia).
  assert (∀ p, held p l = total sizes p) as Hh by (intros p; unfold held; by rewrite Hs).
  assert (∀ r, held_rank r l = sum_at r ranks) as Hhr by (intros r; unfold held_rank; by rewrite Hr).
  assert (∀ p, total (reserved (after_release s id sizes ranks)) p = total (reserved s) p - held p l) as Ht.
  { intros p. cbn. rewrite total_add_all, sum_at_opp, sum_at_map_to_list, Hh. lia. }
  assert (∀ r, total (reserved_by_rank (after_release s id sizes ranks)) r = total (reserved_by_rank s) r - held_rank r l) as Htr.
  { intros r. cbn. rewrite total_add_all, sum_at_opp, Hhr. lia. }
  split.
  - intros j l0 Hj. cbn in Hj. apply lookup_delete_Some in Hj as [Hne Hj].
    destruct (Hlease j l0 Hj) as [H1 H2 (sz & Hsz & Hszr) (rk & Hrk & Hrkr & Hrkl) (rep & Hrep & Hb)].
    split; [done|done| | |].
    + exists sz. split; [done|]. intros p Hp. apply dom_add_all. left. by apply Hszr.
    + exists rk. split; [done|]. split; [|done]. intros x Hx. apply dom_add_all. left. by apply Hrkr.
    + exists rep. split; [done|]. intros r blocks Hx. destruct (Hb r blocks Hx) as (b & Hbb & Hle).
      exists b. split; [done|]. rewrite Htr. pose proof (held_rank_nonneg r l Hmax). lia.
  - intros p. rewrite Ht, Hres, (lease_sum_delete (held p) _ id l Hl). cbn [leases after_release]. lia.
  - intros r. rewrite Htr, Hrank, (lease_sum_delete (held_rank r) _ id l Hl). cbn [leases after_release]. lia.
  - intros p. unfold fits. rewrite Ht. intros Hne. pose proof (held_nonneg p l Hmax).
    assert (0 <= lease_sum (held p) (delete id (leases s))) as Hpos.
    { apply lease_sum_nonneg. intros i l0 [_ Hi]%lookup_delete_Some. apply held_nonneg.
      destruct (lo_context _ _ _ (Hlease i l0 Hi)). lia. }
    pose proof (lease_sum_delete (held p) _ id l Hl) as Hd. rewrite <- Hres in Hd.
    destruct (Hfits p) as (st & Hst & Hle); [lia|]. exists st. split; [done|]. lia.
Qed.

(** ** The summary *)

Lemma add_loop (l : list (string * Z)) (m : gmap string Z) :
  (∀ x, x ∈ l → is_Some (m !! x.1)) →
  foldl (λ acc x, m ← acc;
      match m !! x.1 with Some v => Ok (<[x.1 := v + x.2]> m) | None => Raise KeyError end) (Ok m) l =
  Ok (foldl add_to m l).
Proof.
  revert m. induction l as [|x l IH]; intros m Hl; [done|]. cbn [foldl].
  destruct (Hl x) as [v Hv]; [left|]. cbn. rewrite Hv, IH.
  - unfold add_to. by rewrite Hv.
  - intros y Hy. apply lookup_insert_is_Some. destruct (decide (x.1 = y.1)); [by left|right]. split; [done|].
    apply Hl. by right.
Qed.

(** What a lease has in use on a device *)
Definition used p l : Z :=
  match lease_bytes plan l (current_context l) with Ok m => total m p | Raise _ => 0 end.

(** The bytes in use are known and within those reserved. *)
Lemma used_held s id l : lease_ok s id l →
  ∃ m, lease_bytes plan l (current_context l) = Ok m ∧
    ∀ p, (is_Some (m !! p) → is_Some (reserved s !! p)) ∧ 0 <= used p l <= held p l.
Proof.
  intros [_ Hc (sizes & Hs & Hsr) _ _].
  destruct (physical_bytes_mono plan Hplan _ _ _ _ _ Hc Hs) as (m & Hm & Hall). exists m. split; [done|].
  intros p. destruct (Hall p) as [Hle Hdom]. split; [intros ?%Hdom; by apply Hsr|].
  unfold used, held. rewrite Hs. unfold lease_bytes. by rewrite Hm.
Qed.

Lemma current_loop s (ls : list (Z * KVLease)) (m : gmap string Z) :
  (∀ x, x ∈ ls → lease_ok s x.1 x.2) → (∀ p, is_Some (reserved s !! p) → is_Some (m !! p)) →
  ∃ m', foldl (λ acc x, m ← acc; add_current plan m x.2) (Ok m) ls = Ok m' ∧
    ∀ p, total m' p = total m p + zsum ((λ x, used p x.2) <$> ls).
Proof.
  revert m. induction ls as [|[id l] ls IH]; intros m Hl Hm.
  { exists m. split; [done|]. intros p. unfold zsum. cbn. lia. }
  destruct (used_held s id l) as (sizes & Hs & Hu); [apply (Hl (id, l)); left|].
  assert (add_current plan m l = Ok (foldl add_to m (map_to_list sizes))) as Ha.
  { unfold add_current. rewrite Hs. cbn. apply add_loop. intros [p v] Hx%elem_of_map_to_list.
    apply Hm. apply (proj1 (Hu p)). by eexists. }
  destruct (IH (foldl add_to m (map_to_list sizes))) as (m' & Hm' & Ht).
  { intros x Hx. apply Hl. by right. }
  { intros p Hp. apply dom_add_all. left. by apply Hm. }
  exists m'. split; [cbn [foldl snd]; change (Ok m ≫= ?k) with (k m); cbv beta; by rewrite Ha|].
  intros p. rewrite Ht, total_add_all, sum_at_map_to_list. csimpl.
  change (zsum (?x :: ?l)) with (x + zsum l). unfold used at 2. rewrite Hs. lia.
Qed.

Lemma resident_current_Ok s : resident_inv s →
  ∃ m, resident_current plan s = Ok m ∧ ∀ p, total m p = lease_sum (used p) (leases s).
Proof.
  intros Hinv. unfold resident_current, lease_sum.
  destruct (current_loop s (map_to_list (leases s)) ((λ _, 0) <$> reserved s)) as (m & Hm & Ht).
  - intros [id l] Hx%elem_of_map_to_list. by apply (rv_lease _ Hinv).
  - intros p ?. by rewrite lookup_fmap, fmap_is_Some.
  - exists m. split; [done|]. intros p. rewrite Ht.
    assert (total ((λ _, 0) <$> reserved s) p = 0) as ->; [|lia].
    unfold total. rewrite lookup_fmap. by destruct (reserved s !! p).
Qed.

(** ** Histories *)

Inductive ledger_op := OpAdmit (l : KVLease) | OpCommit (id context : Z) | OpRelease (id : Z).

Definition run_op (o : ledger_op) : M ResidentKV unit :=
  match o with
  | OpAdmit l => admit_lease plan l
  | OpCommit id c => commit id c
  | OpRelease id => release plan id
  end.

(** The ledger after operations that return or raise *)
Definition run_ops (os : list ledger_op) s : ResidentKV := foldl (λ s o, (run_op o s).2) s os.

Lemma run_op_inv o s : resident_inv s → resident_inv (run_op o s).2.
Proof.
  intros Hinv. destruct o as [l|id c|id]; cbn [run_op].
  - pose proof (admit_lease_spec s l) as Ha. destruct (check_admit plan s l) as [[sizes ranks]|e] eqn:Hc; rewrite Ha; [|done].
    by apply admit_inv, check_admit_Ok.
  - destruct (commit_spec id c s) as [(-> & l & Hl & Hc)|[e ->]]; [|done]. by eapply commit_inv.
  - destruct (leases s !! id) as [l|] eqn:Hl.
    + destruct (release_spec id s l Hinv Hl) as (sizes & ranks & Hs & Hr & ->). by eapply release_inv.
    + unfold release. by rewrite Hl.
Qed.

Lemma run_ops_inv os s : resident_inv s → resident_inv (run_ops os s).
Proof. revert s. induction os as [|o os IH]; intros s Hinv; [done|]. apply IH. by apply run_op_inv. Qed.
End Invariant.

(** ** Properties *)

(** C21 (bounds): for a plan without negative sizes, after any operations, the failed
    ones included, the summary can be computed.  On every device the bytes in use are
    within the bytes reserved, which are the sum over the leases of the bytes of their
    largest contexts and fit into the device beside the model and the protocol buffers;
    every rank is within its blocks, and no context has outgrown its lease. *)
Theorem resident_kv_fits plan os :
  valid_plan plan = true →
  let s := run_ops plan os (new_resident plan) in
  ∃ current, resident_current plan s = Ok current ∧
    (∀ p, 0 <= total current p <= total (reserved s) p ∧
      total (reserved s) p = lease_sum (held plan p) (leases s) ∧
      (total (reserved s) p ≠ 0 → ∃ st, physical_state plan p = Ok st ∧
        model_bytes st + protocol_buffer_bytes st + total (reserved s) p <= capacity_bytes st)) ∧
    ∀ id l, leases s !! id = Some l →
      kl_request_id l = id ∧ 0 <= current_context l <= maximum_context l ∧ within_budget plan s l.
Proof.
  intros Hplan s. pose proof (run_ops_inv plan Hplan os _ (new_resident_inv plan)) as Hinv. fold s in Hinv.
  destruct (resident_current_Ok plan Hplan s Hinv) as (current & Hc & Ht). exists current. split; [done|]. split.
  - intros p. split; [|split; [apply (rv_reserved _ _ Hinv)|apply (rv_fits _ _ Hinv)]].
    rewrite Ht, (rv_reserved _ _ Hinv).
    assert (∀ id l, leases s !! id = Some l → 0 <= used plan p l <= held plan p l) as Hu.
    { intros id l Hl. destruct (used_held plan Hplan s id l (rv_lease _ _ Hinv id l Hl)) as (m & _ & Hm).
      by destruct (Hm p). }
    split; [apply lease_sum_nonneg|apply lease_sum_mono]; intros id l Hl; by destruct (Hu id l Hl).
  - intros id l Hl. by destruct (rv_lease _ _ Hinv id l Hl).
Qed.

(** C22 (roundtrip): in every reachable ledger an admission that raises changes nothing,
    and after one that returns the release of the request returns and restores the
    leases and all reservations. *)
Theorem admit_then_release plan os l :
  valid_plan plan = true →
  let s := run_ops plan os (new_resident plan) in
  match admit_lease plan l s with
  | (Raise _, s') => s' = s
  | (Ok _, s') => ∃ s2, release plan (kl_request_id l) s' = (Ok tt, s2) ∧ leases s2 = leases s ∧
      (∀ p, total (reserved s2) p = total (reserved s) p) ∧
      ∀ r, total (reserved_by_rank s2) r = total (reserved_by_rank s) r
  end.
Proof.
  intros Hplan s. pose proof (run_ops_inv plan Hplan os _ (new_resident_inv plan)) as Hinv. fold s in Hinv.
  pose proof (admit_lease_spec plan Hplan s l) as Ha.
  destruct (check_admit plan s l) as [[sizes ranks]|e] eqn:Hc; rewrite Ha; [|done].
  apply (check_admit_Ok plan Hplan) in Hc. pose proof (admit_inv plan Hplan s l _ _ Hinv Hc) as Hinv'.
  destruct (release_spec plan (kl_request_id l) _ l Hinv') as (sz & rk & Hsz & Hrk & Hrel);
    [apply lookup_insert_eq|].
  assert (sz = sizes) as -> by (pose proof (ad_sizes _ _ _ _ _ Hc); congruence).
  assert (rk = ranks) as -> by (pose proof (ad_ranks _ _ _ _ _ Hc); congruence).
  eexists. split; [exact Hrel|]. split; [|split].
  - cbn. rewrite delete_insert_eq. apply delete_id, (ad_fresh _ _ _ _ _ Hc).
  - intros p. cbn. rewrite !total_add_all, sum_at_opp. lia.
  - intros r. cbn. rewrite !total_add_all, sum_at_opp. lia.
Qed.

(** A plan with two tensor ranks on two devices, a layer with a window of four tokens
    and a layer without one *)
Definition small_rank (rank : Z) : AFRankBinding :=
  mkBinding "a" "a0" rank rank 0 0 (mkWorkerRef "gpu" rank) (Some (mkPartition 16 64 [])).

Definition small_plan : AFRuntimePlan :=
  mkPlan 2 [mkDomain "a" 1 None] [small_rank 0; small_rank 1]
    [mkReplica "a" "a0" [(("a", 0), 10); (("a", 1), 10)]]
    [mkPhysical "gpu:0" 1000 400 [("send", 8)]; mkPhysical "gpu:1" 1000 400 []]
    [mkLayer 4; mkLayer 0].

Definition small_lease (id context : Z) : KVLease := mkLease id "a" "a0" context 2.

(** Sixteen tokens take 4 * 8 + 16 * 8 bytes on each device; the fourth request does
    not fit. *)
Definition small_ops : list ledger_op :=
  [OpAdmit (small_lease 1 16); OpAdmit (small_lease 2 16); OpAdmit (small_lease 3 16); OpAdmit (small_lease 4 16);
   OpCommit 1 10; OpRelease 2].

Example small_run :
  (λ s : ResidentKV, (map_to_list (reserved s), (map_to_list (leases s)).*1)) (run_ops small_plan small_ops (new_resident small_plan)) =
  ([("gpu:1", 320); ("gpu:0", 320)], [3; 1]).
Proof. vm_compute. reflexivity. Qed.

Lemma resident_kv_fits_witness :
  valid_plan small_plan = true ∧
  let s := run_ops small_plan small_ops (new_resident small_plan) in
  ∃ current, resident_current small_plan s = Ok current ∧ ∀ p, 0 <= total current p <= total (reserved s) p.
Proof.
  assert (valid_plan small_plan = true) as Hv by (vm_compute; reflexivity).
  split; [exact Hv|]. destruct (resident_kv_fits small_plan small_ops Hv) as (current & Hc & Hp & _).
  exists current. split; [exact Hc|]. intros p. exact (proj1 (Hp p)).
Defined.

Lemma admit_then_release_witness :
  valid_plan small_plan = true ∧
  let s := run_ops small_plan small_ops (new_resident small_plan) in
  match admit_lease small_plan (small_lease 5 16) s with
  | (Raise _, s') => s' = s
  | (Ok _, s') => ∃ s2, release small_plan 5 s' = (Ok tt, s2) ∧ leases s2 = leases s ∧
      (∀ p, total (reserved s2) p = total (reserved s) p) ∧
      ∀ r, total (reserved_by_rank s2) r = total (reserved_by_rank s) r
  end.
Proof.
  assert (valid_plan small_plan = true) as Hv by (vm_compute; reflexivity).
  split; [exact Hv|]. exact (admit_then_release small_plan small_ops (small_lease 5 16) Hv).
Defined.
