(* ===== verification/DpCoordinator.v ===== *)
(** * Data-parallel lockstep ([TokenSim/llm/dp_coordinator.py], [TokenSim/llm/engine/worker.py])

    The coordinator runs the workers of all data-parallel ranks in passes: every worker
    schedules, all compute for as long as the slowest, and all finish.  A wave of passes
    ends when a check, made on the first pass and every [sync_interval], finds no work.
    Messages arrive whenever the coordinator is suspended; cancellations that arrive
    during a pass wait for its end.

    A state of the coroutine [run] is the point it is suspended at.  It is suspended at the
    loads and saves of every pass, also at those that take no time, so messages may arrive
    at more points than in the code.  Every worker has the objects of the requests that
    were dispatched to it.  Latencies, among them the estimate of a batch, come from
    outside; with them the shapes handed to the latency models, the trace, the completion
    records of the engine and the time statistics are left out. *)

From stdpp Require Import gmap list strings relations.
From Stdlib Require Import ZArith Lia.
From S2P Require Import Prelude.
From S2P Require Import PyFloat.
From S2P Require Import Buckets.
From S2P Require Import Request.
From S2P Require Import Acceptance.
From S2P Require Import SchedulerState.
From S2P Require Import Scheduler.

Open Scope Z_scope.

(** ** Workers *)

Inductive WorkerStatus := WorkerWaiting | WorkerRunning | WorkerStopped.

(** The attributes of an engine's configuration that a worker reads *)
Record dp_config := mkDpConfig {
  data_parallel_size : Z;
  prefill_schedule_interval : Z;
  sync_interval : Z;
}.

Section Coordinator.
Context {W : Type} `{!BlockManagerOps W} `{!ConnectorOps W} `{!Blake2b}.
Variables (cfg : SchedulerConfig) (dp : dp_config).

Record dp_worker := mkWorker {
  wk_id : Z;
  wk_dp_rank : Z;
  wk_sched : sched W;
  wk_status : WorkerStatus;
  dp_step_counter : Z;
  preempted_cnt : Z;
  wk_hybrid : bool;          (* [role == 'hybrid'] *)
}.

#[global] Instance eta_worker : Eta dp_worker := λ w,
  mkWorker (wk_id w) (wk_dp_rank w) (wk_sched w) (wk_status w) (dp_step_counter w) (preempted_cnt w)
    (wk_hybrid w).

Definition on_sched {A} (m : M (sched W) A) : M dp_worker A := λ w,
  let '(res, s) := m (wk_sched w) in (res, w <| wk_sched := s |>).

(** [prepare_step]: schedule, without the requests that are being cancelled.  What the
    connector does with the step on its own side (metadata, preemptions, loads) is not the
    worker's state; nothing with the no-op connector. *)
Definition prepare_step : M dp_worker (list Z) :=
  w ← gets id;
  let throttle := (1 <? data_parallel_size dp) && (1 <? prefill_schedule_interval dp) &&
    negb (dp_step_counter w `mod` prefill_schedule_interval dp =? 0) in
  '(scheduled, preempted) ← on_sched (schedule cfg throttle);
  modify (λ w, w <| preempted_cnt ::= Z.add (Z.of_nat (length preempted)) |>) ;;
  w ← gets id;
  mret (filter (λ r, cancel_requested (request (wk_sched w) r) = false) scheduled).

(** [step] *)
Definition compute_request (now latency : pyfloat) (batch r : Z) : M (sched W) unit :=
  q ← get_req r;
  if cancel_requested q then mret tt
  else
    when (mtp_enabled cfg && negb (is_context_build q)) (record_mtp_execution r) ;;
    when (is_prefill q && negb (bool_decide (is_Some (first_prefill_source q))))
      (on_req r (record_prefill_admission (gpu_cached_prefill_tokens q) (external_cached_prefill_tokens q))) ;;
    edit r (λ q, (advance now latency batch q).2) ;;
    on_tokens_computed r.

Definition worker_step (now latency : pyfloat) (requests : list Z) : M (sched W) unit :=
  for_ requests (compute_request now latency (Z.of_nat (length requests))).

(** [complete_step] *)
Definition complete_step (now latency : pyfloat) (requests : list Z) : M dp_worker unit :=
  on_sched (worker_step now latency requests ;; update requests ;; mret tt).

(** [finalize_connector_step], with nothing to report *)
Definition finalize_connector_step : M dp_worker unit := on_sched (update_connector_output ∅).

Definition idle_status (w : dp_worker) : WorkerStatus :=
  if bool_decide (running (wk_sched w) = [] ∧ waiting (wk_sched w) = []) then WorkerWaiting else WorkerRunning.

(** ** The coordinator *)

(** Where [run] is suspended: at the step boundary of its loop, waiting for [changed],
    loading, computing, saving, or at the step boundary that ends a pass *)
Inductive point :=
  | AtTop
  | Idle
  | Loading (batches : gmap Z (list Z))
  | Computing (batches : gmap Z (list Z)) (duration : pyfloat)
  | Saving
  | AtEnd
  | Returned.

Record coordinator := mkCoordinator {
  workers : list dp_worker;
  busy : bool;
  step_counter : Z;
  wave : Z;
  wave_running : bool;
  steps : Z;
  waves_started : Z;
  waves_finished : Z;
  finish_consensus_checks : Z;
  real_batches : gmap Z Z;
  dummy_batches : gmap Z Z;
  pending_cancels : gmap Z (list Z);
  releasing : list (nat * Z);      (* processes [_wait_for_cancel_release]: worker and request *)
  engine_failed : bool;            (* [engine.failure is not None] *)
  at_point : point;
}.

#[global] Instance eta_coordinator : Eta coordinator := λ s,
  mkCoordinator (workers s) (busy s) (step_counter s) (wave s) (wave_running s) (steps s) (waves_started s)
    (waves_finished s) (finish_consensus_checks s) (real_batches s) (dummy_batches s) (pending_cancels s)
    (releasing s) (engine_failed s) (at_point s).

(** [__init__] *)
Definition new_coordinator (ws : list dp_worker) : outcome coordinator :=
  if (sync_interval dp <? 1) || existsb (λ w, negb (wk_hybrid w)) ws then Raise ConfigurationError
  else Ok (mkCoordinator ws false 0 0 false 0 0 0 0 ∅ ∅ ∅ [] false AtTop).

Implicit Types (s : coordinator) (w : dp_worker).

Definition worker_has_work w : bool :=
  negb (bool_decide (running (wk_sched w) = [])) || negb (bool_decide (waiting (wk_sched w) = [])) ||
  negb (bool_decide (loading (wk_sched w) = ∅)) || negb (bool_decide (loaded_waiting (wk_sched w) = [])).

Definition has_work s : bool := existsb worker_has_work (workers s).

(** A method of worker [i] *)
Definition on_worker {A} (i : nat) (m : M dp_worker A) : M coordinator A := λ s,
  match workers s !! i with
  | Some w => let '(res, w) := m w in (res, s <| workers ::= <[i := w]> |>)
  | None => (Raise IndexError, s)
  end.

(** [for worker in self.workers] *)
Definition for_workers (body : nat → M coordinator unit) : M coordinator unit :=
  s ← gets id; for_ (seq 0 (length (workers s))) body.

Definition suspend (p : point) : M coordinator unit := modify (λ s, s <| at_point := p |>).

(** [notify]: wakes a coordinator that waits for [changed]. *)
Definition notify : M coordinator unit :=
  modify (λ s, s <| at_point ::= λ p, match p with Idle => AtTop | p => p end |>).

(** [engine.record_worker_failure] *)
Definition record_worker_failure : M coordinator unit := modify (λ s, s <| engine_failed := true |>).

(** [request.acknowledge_cancel(self.env, worker.id)] *)
Definition acknowledge (now : pyfloat) (i : nat) (r : Z) : M coordinator unit :=
  w ← on_worker i (gets id);
  on_worker i (on_sched (edit r (acknowledge_cancel now (Some (wk_id w))))).

(** [manager.block_table.get_blocks(req.id)] as a condition *)
Definition holds_blocks w (r : Z) : bool :=
  negb (bool_decide (bm_block_numbers (world_of (wk_sched w)) r = [])).

(** [cancel_at_boundary] *)
Definition cancel_at_boundary (now : pyfloat) (i : nat) (r : Z) : M coordinator unit :=
  released ← on_worker i (on_sched (cancel_request r));
  if (released : bool) then acknowledge now i r
  else modify (λ s, s <| releasing ::= λ l, l ++ [(i, r)] |>).

(** One turn of [_wait_for_cancel_release] *)
Definition poll_release (now : pyfloat) (k : nat) : M coordinator unit :=
  s ← gets id;
  match releasing s !! k with
  | None => mret tt
  | Some (i, r) =>
      w ← on_worker i (gets id);
      when (holds_blocks w r) (on_worker i finalize_connector_step) ;;
      w ← on_worker i (gets id);
      when (negb (holds_blocks w r))
        (acknowledge now i r ;; modify (λ s, s <| releasing ::= delete k |>))
  end.

(** ** [run] *)

(** [except Exception] of a pass *)
Definition in_pass (m : M coordinator unit) : M coordinator unit :=
  catch m (λ _, modify (λ s, s <| busy := false |>) ;; record_worker_failure ;; suspend Returned).

Definition prepare_worker (i : nat) : M coordinator unit :=
  s ← gets id;
  on_worker i (modify (λ w, w <| dp_step_counter := step_counter s |>)) ;;
  w ← on_worker i (gets id);
  batch ← on_worker i prepare_step;
  modify (λ s, s <| at_point ::= λ p,
    match p with Loading batches => Loading (<[wk_id w := batch]> batches) | p => p end |>).

(** From the step boundary to the end of the loads *)
Definition run_top : M coordinator unit :=
  s ← gets id;
  if engine_failed s then suspend Returned
  else if negb (wave_running s) && negb (has_work s) then suspend Idle
  else
    when (negb (wave_running s))
      (modify (λ s, s <| wave_running := true |> <| step_counter := 0 |> <| waves_started ::= Z.succ |>)) ;;
    modify (λ s, s <| busy := true |>) ;;
    in_pass (suspend (Loading ∅) ;; for_workers prepare_worker).

(** One estimate per worker: a real pass, or a dummy one *)
Definition count_batch (batches : gmap Z (list Z)) (i : nat) : M coordinator unit :=
  w ← on_worker i (gets id);
  match default [] (batches !! wk_id w) with
  | [] => modify (λ s, s <| dummy_batches ::= λ m, add_to m (wk_dp_rank w, 1) |>)
  | _ => modify (λ s, s <| real_batches ::= λ m, add_to m (wk_dp_rank w, 1) |>)
  end.

(** The pass takes as long as the slowest worker. *)
Definition run_loaded (batches : gmap Z (list Z)) (estimates : list pyfloat) : M coordinator unit :=
  in_pass (
    for_workers (count_batch batches) ;;
    duration ← (match estimates with [] => raise ValueError | e :: l => mret (foldl fmax e l) end);
    if fleb duration f0 then raise SimulationStateError else suspend (Computing batches duration)).

Definition finish_worker (now duration : pyfloat) (batches : gmap Z (list Z)) (i : nat) : M coordinator unit :=
  w ← on_worker i (gets id);
  (match default [] (batches !! wk_id w) with
   | [] => mret tt
   | batch => on_worker i (complete_step now duration batch) ;; on_worker i finalize_connector_step
   end) ;;
  s ← gets id;
  modify (λ s, s <| pending_cancels ::= delete (wk_id w) |>) ;;
  for_ (default [] (pending_cancels s !! wk_id w)) (cancel_at_boundary now i) ;;
  on_worker i (modify (λ w, w <| wk_status := idle_status w |>)).

Definition run_computed (now duration : pyfloat) (batches : gmap Z (list Z)) : M coordinator unit :=
  in_pass (for_workers (finish_worker now duration batches) ;; suspend Saving).

Definition run_saved : M coordinator unit :=
  modify (λ s, s <| steps ::= Z.succ |> <| step_counter ::= Z.succ |> <| busy := false |>) ;;
  suspend AtEnd.

(** The finished-state check *)
Definition run_end : M coordinator unit :=
  s ← gets id;
  when ((step_counter s =? 1) || (step_counter s `mod` sync_interval dp =? 0))
    (modify (λ s, s <| finish_consensus_checks ::= Z.succ |>) ;;
     when (negb (has_work s))
       (modify (λ s, s <| wave_running := false |> <| wave ::= Z.succ |> <| step_counter := 0 |>
                       <| waves_finished ::= Z.succ |>))) ;;
  s ← gets id;
  for_workers (λ i, on_worker i (modify (λ w, w <| dp_step_counter := step_counter s |>))) ;;
  suspend AtTop.

(** The next resumption of [run], with the time and the estimates it sees *)
Definition resume (now : pyfloat) (estimates : list pyfloat) s : coordinator :=
  match at_point s with
  | AtTop => (run_top s).2
  | Idle | Returned => s
  | Loading batches => (run_loaded batches estimates s).2
  | Computing batches duration => (run_computed now duration batches s).2
  | Saving => (run_saved s).2
  | AtEnd => (run_end s).2
  end.

(** A whole turn of the loop: one resumption per point of a pass *)
Definition pass (inputs : pyfloat * list pyfloat) s : coordinator :=
  Nat.iter 5 (resume inputs.1 inputs.2) s.

(** ** [consume_messages] *)

(** [except Exception] of a message *)
Definition in_message (m : M coordinator unit) : M coordinator unit :=
  catch m (λ _, record_worker_failure ;; notify).

Definition message_add (i : nat) (requests : list Z) : M coordinator unit :=
  in_message (
    on_worker i (on_sched (add_requests cfg requests)) ;;
    on_worker i (modify (λ w, w <| wk_status := idle_status w |>)) ;;
    notify).

Definition message_cancel (now : pyfloat) (i : nat) (requests : list Z) : M coordinator unit :=
  in_message (
    for_ requests (λ r,
      s ← gets id;
      if busy s then
        w ← on_worker i (gets id);
        modify (λ s, s <| pending_cancels ::= λ m,
          <[wk_id w := let l := default [] (m !! wk_id w) in if bool_decide (r ∈ l) then l else l ++ [r]]> m |>)
      else cancel_at_boundary now i r) ;;
    notify).

Definition message_stop (i : nat) : M coordinator unit :=
  on_worker i (modify (λ w, w <| wk_status := WorkerStopped |>)) ;; notify.

(** ** Steps *)

(** What can happen next: a resumption of [run], a message, or the request objects
    change: they arrive or ask to be cancelled. *)
Inductive coordinator_step : coordinator → coordinator → Prop :=
  | step_top s : at_point s = AtTop → coordinator_step s (run_top s).2
  | step_loaded s batches estimates :
      at_point s = Loading batches → length estimates = length (workers s) →
      coordinator_step s (run_loaded batches estimates s).2
  | step_computed s now batches duration :
      at_point s = Computing batches duration → coordinator_step s (run_computed now duration batches s).2
  | step_saved s : at_point s = Saving → coordinator_step s (run_saved s).2
  | step_end s : at_point s = AtEnd → coordinator_step s (run_end s).2
  | step_cancel s now i requests : coordinator_step s (message_cancel now i requests s).2
  | step_stop s i : coordinator_step s (message_stop i s).2
  | step_poll s now k : coordinator_step s (poll_release now k s).2
  | step_arrive s i now r :
      coordinator_step s (on_worker i (on_sched (edit r (arrive now))) s).2
  | step_request_cancel s i now r :
      coordinator_step s (on_worker i (on_sched (edit r (request_cancel now))) s).2.

Lemma resume_step now estimates s :
  at_point s ≠ Idle → at_point s ≠ Returned → length estimates = length (workers s) →
  coordinator_step s (resume now estimates s).
Proof.
  unfold resume. intros Hi Hr Hl. destruct (at_point s) eqn:Hp; try done.
  - by apply step_top.
  - by apply step_loaded.
  - by apply step_computed.
  - by apply step_saved.
  - by apply step_end.
Qed.
End Coordinator.
Arguments dp_worker : clear implicits.
Arguments coordinator : clear implicits.
