(* ===== verification/DpLockstep.v ===== *)
(** * The coordinator over the paged scheduler

    Data-parallel workers with the block manager and the no-op connector.  Whatever the
    order of passes, messages and cancellations, until a failure the ranks stay in
    lockstep, and a batch that was scheduled is still running when it is completed. *)

From stdpp Require Import gmap list strings relations.
From Stdlib Require Import ZArith Lia.
From S2P Require Import Prelude.
From S2P Require Import PyFloat.
From S2P Require Import Buckets.
From S2P Require Import Block.
From S2P Require Import FreeQueue.
From S2P Require Import PrefixKeys.
From S2P Require Import Request.
From S2P Require Import Acceptance.
From S2P Require Import World.
From S2P Require Import BlockPool.
From S2P Require Import KVCacheManager.
From S2P Require Import BlockManager.
From S2P Require Import BlockInv.
From S2P Require Import SchedulerState.
From S2P Require Import Scheduler.
From S2P Require Import SchedulerSpec.
From S2P Require Import UniformScheduler.
From S2P Require Import SchedulerLife.
From S2P Require Import DpCoordinator.

Open Scope Z_scope.

Section Lockstep.
Context `{Digest, Blake2b}.
Variables (cfg : SchedulerConfig) (dp : dp_config).
Hypothesis Hcfg : uniform_config cfg.

Abbreviation worker := (dp_worker world).
Abbreviation state := (coordinator world).
Implicit Types (w : worker) (s : state).

(** ** Workers *)

Lemma wp_on_sched {A} (m : M (sched world) A) (Q : A → worker → Prop) E w :
  wp m (λ a x, Q a (w <| wk_sched := x |>)) (λ e x, E e (w <| wk_sched := x |>)) (wk_sched w) →
  wp (on_sched m) Q E w.
Proof. unfold wp, on_sched. by destruct (m (wk_sched w)) as [[?|?] ?]. Qed.

(** The batch can be completed: its requests run and have tokens. *)
Definition batch_ok (batch : list Z) w : Prop :=
  NoDup batch ∧ ∀ r, r ∈ batch → r ∈ running (wk_sched w) ∧ 1 <= scheduled_tokens (request (wk_sched w) r).

(** A method changed the scheduler of a worker only. *)
Definition same_id w w' : Prop := wk_id w' = wk_id w ∧ wk_dp_rank w' = wk_dp_rank w.

Definition same_worker w w' : Prop := same_id w w' ∧ dp_step_counter w' = dp_step_counter w.

Lemma prepare_step_spec w : Ready (wk_sched w) →
  wp (prepare_step cfg dp) (λ batch w', same_worker w w' ∧ Ready (wk_sched w') ∧ batch_ok batch w') no_raise w.
Proof.
  intros HR. unfold prepare_step. do 2 wp_step. unfold id. apply wp_bind, wp_on_sched.
  set (throttle := _ && _).
  destruct (schedule_returns cfg Hcfg throttle (wk_sched w) HR) as (sch & pre & x & Heq & Hs).
  unfold wp at 1. rewrite Heq. wp_steps. unid. split; [done|]. split; [by eapply (scheduled_ready cfg)|].
  destruct Hs as [[] Hres _ _]. injection Hres as -> ->. split; [by apply NoDup_filter|].
  intros r [_ Hr]%list_elem_of_filter. split; [by apply si_sub|]. by apply si_tokens.
Qed.

(** What a method that edits one request leaves alone *)
Lemma progress_admission gpu cpu q : progress q (record_prefill_admission gpu cpu q).2.
Proof.
  unfold record_prefill_admission, mbind, M_bind, gets, id. destruct (_ || _); [done|].
  by destruct (first_prefill_source q).
Qed.

Lemma progress_cancel now q : progress q (request_cancel now q).
Proof.
  unfold request_cancel. destruct (cancellation_event q); cbn zeta; destruct (is_done _); try done; by destruct (cancel_requested _).
Qed.

Lemma progress_acknowledge now id q : progress q (acknowledge_cancel now id q).
Proof.
  unfold acknowledge_cancel. destruct (negb _); [done|]. destruct id; cbn zeta; by destruct (_ || _).
Qed.

(** One request of a pass; [running] and [waiting] keep their requests. *)
Lemma compute_request_spec now lat batch r (x : sched world) : Ready x →
  wp (compute_request cfg now lat batch r) (λ _ y, Ready y) (λ _ _, True) x.
Proof.
  intros HR. destruct (uniform_config_spec cfg Hcfg) as (Hmtp & _).
  unfold compute_request, get_req. do 2 wp_step. destruct (cancel_requested _); [by wp_step|].
  rewrite Hmtp. cbn [andb when]. do 2 wp_step. wp_step.
  assert (∀ y, Ready y → wp (edit r (λ q, (advance now lat batch q).2) ;; on_tokens_computed r)
    (λ _ y, Ready y) (λ _ _, True) y) as Hrest.
  { intros y Hy. unfold edit. wp_steps. unfold on_tokens_computed.
    change (when grouped_cache ?m) with (mret (M := M (sched world)) tt). wp_step.
    exact (progress_ready r _ y Hy (λ q, progress_advance now lat batch q)). }
  destruct (is_prefill _ && _); cbn [when]; [|wp_step; by apply Hrest].
  set (gpu := gpu_cached_prefill_tokens _). set (cpu := external_cached_prefill_tokens _).
  unfold wp at 1, on_req. pose proof (progress_ready r (λ q, (record_prefill_admission gpu cpu q).2) x HR) as Hp.
  specialize (Hp (progress_admission gpu cpu)).
  destruct (record_prefill_admission gpu cpu (request x r)) as [[[]|e] q'] eqn:Hq; [|done].
  apply Hrest.
  assert (x <| world_of ::= put_request r (λ _, q') |> =
    x <| world_of ::= put_request r (λ q, (record_prefill_admission gpu cpu q).2) |>) as ->; [|done].
  change q' with ((Ok tt, q').2). rewrite <- Hq. done.
Qed.

Lemma complete_step_spec now lat batch w : Ready (wk_sched w) →
  wp (complete_step cfg now lat batch) (λ _ w', same_worker w w' ∧ Ready (wk_sched w')) (λ _ _, True) w.
Proof.
  intros HR. apply wp_on_sched. wp_step. unfold worker_step.
  eapply wp_mono; [apply (wp_for (λ _ y, Ready y)); [done|]| |done].
  { intros _ r _ y _ Hy. by apply compute_request_spec. }
  intros u y Hy. cbv beta. wp_step. eapply wp_mono; [by apply update_spec| |done].
  intros rs z (Hz & _). wp_step. done.
Qed.

Lemma finalize_spec w : wp finalize_connector_step (λ _ w', w' = w) no_raise w.
Proof.
  apply wp_on_sched. unfold update_connector_output. wp_step. apply wp_in_world.
  change (conn_update_output ∅) with (mret (M := M world) tt). wp_step.
  rewrite bool_decide_eq_true_2 by done. cbn [negb when]. wp_step. destruct w as [? ? [] ? ? ?]. done.
Qed.

Lemma cancel_worker_spec r w : Ready (wk_sched w) →
  wp (on_sched (cancel_request r)) (λ ok w', ok = true ∧ same_worker w w' ∧ Ready (wk_sched w')) no_raise w.
Proof.
  intros HR. apply wp_on_sched. eapply wp_mono; [by apply cancel_spec| |done].
  intros ok x (Hx & -> & _). done.
Qed.

(** Editing a request: arrival, the wish to cancel, its acknowledgement *)
Lemma edit_worker_spec r f w : Ready (wk_sched w) → (∀ q, progress q (f q)) →
  wp (on_sched (edit r f)) (λ _ w', same_worker w w' ∧ Ready (wk_sched w') ∧
    running (wk_sched w') = running (wk_sched w) ∧
    ∀ x, request (wk_sched w') x = if decide (r = x) then f (request (wk_sched w) r) else request (wk_sched w) x) no_raise w.
Proof.
  intros HR Hf. apply wp_on_sched. unfold edit. wp_step. split; [done|].
  split; [exact (progress_ready r f _ HR Hf)|]. split; [done|]. intros x. exact (request_edit r f x (wk_sched w)).
Qed.

(** ** Loops over the workers *)

Lemma wp_on_worker {A} i (m : M worker A) (Q : A → state → Prop) E s w :
  workers s !! i = Some w →
  wp m (λ a w', Q a (s <| workers ::= <[i := w']> |>)) (λ e w', E e (s <| workers ::= <[i := w']> |>)) w →
  wp (on_worker i m) Q E s.
Proof. intros Hi. unfold wp, on_worker. rewrite Hi. by destruct (m w) as [[?|?] ?]. Qed.

Lemma wp_for_workers (I : nat → state → Prop) body E s :
  I 0%nat s →
  (∀ k s', (k < length (workers s))%nat → I k s' → wp (body k) (λ _ s'', I (S k) s'') E s') →
  wp (for_workers body) (λ _ s', I (length (workers s)) s') E s.
Proof.
  intros Hz Hstep. unfold for_workers. do 2 wp_step. unfold id.
  eapply wp_mono; [apply (wp_for (λ done_ s', I (length done_) s') (seq 0 (length (workers s))) body E)| |done].
  - done.
  - intros done_ k todo s' Heq Hk. rewrite length_app. cbn. rewrite Nat.add_1_r.
    assert (seq 0 (length (workers s)) !! length done_ = Some k) as Hl by (rewrite Heq; by apply list_lookup_middle).
    apply lookup_seq in Hl as [-> Hlt]. by apply Hstep.
  - intros u s'. cbv beta. by rewrite length_seq.
Qed.

(** ** The invariant *)

Variable ids : list (Z * Z).
Hypothesis Hids : NoDup ids.*1.
Hypothesis Hranks : NoDup ids.*2.

Definition in_flight (p : point) : option (gmap Z (list Z)) :=
  match p with Loading b | Computing b _ => Some b | _ => None end.

Definition passing (p : point) : bool :=
  match p with Loading _ | Computing _ _ | Saving => true | _ => false end.

(** Passes counted as started but not as completed *)
Definition counted (p : point) : Z := match p with Computing _ _ | Saving => 1 | _ => 0 end.

Definition workers_ok (ws : list worker) : Prop :=
  (λ w, (wk_id w, wk_dp_rank w)) <$> ws = ids ∧ ∀ i w, ws !! i = Some w → Ready (wk_sched w).

Definition counters (n : Z) (ws : list worker) : Prop := ∀ i w, ws !! i = Some w → dp_step_counter w = n.

Definition batches_ok (b : gmap Z (list Z)) (ws : list worker) : Prop :=
  ∀ i w, ws !! i = Some w → ∃ batch, b !! wk_id w = Some batch ∧ batch_ok batch w.

(** The counter the workers were told: a pass that ends is counted before it is announced. *)
Definition announced s : Z := match at_point s with AtEnd => step_counter s - 1 | _ => step_counter s end.

Record Synced s : Prop := {
  sy_workers : workers_ok (workers s);
  sy_batches b : in_flight (at_point s) = Some b → batches_ok b (workers s);
  sy_busy : busy s = passing (at_point s);
  sy_counts r : r ∈ ids.*2 → total (real_batches s) r + total (dummy_batches s) r = steps s + counted (at_point s);
  sy_waves : waves_started s = waves_finished s + (if wave_running s then 1 else 0);
  sy_wave : wave s = waves_finished s;
  sy_running : passing (at_point s) = true ∨ at_point s = AtEnd → wave_running s = true;
  sy_idle : wave_running s = false → step_counter s = 0;
  sy_counter : counters (announced s) (workers s);
  sy_releasing : releasing s = [];
}.

Lemma same_worker_refl w : same_worker w w.
Proof. done. Qed.

Lemma workers_ok_insert ws i w w' :
  workers_ok ws → ws !! i = Some w → same_id w w' → Ready (wk_sched w') → workers_ok (<[i := w']> ws).
Proof.
  intros [Hs Hr] Hi (H1 & H2) HR. split.
  - rewrite list_fmap_insert, list_insert_id; [done|]. by rewrite list_lookup_fmap, Hi, H1, H2.
  - intros j x. destruct (decide (i = j)) as [<-|Hne].
    + rewrite list_lookup_insert_eq by (by eapply lookup_lt_Some). by intros [= <-].
    + rewrite list_lookup_insert_ne by done. apply Hr.
Qed.

Lemma counters_insert n ws i w w' :
  counters n ws → ws !! i = Some w → same_worker w w' → counters n (<[i := w']> ws).
Proof.
  intros Hc Hi (_ & H3) j x. destruct (decide (i = j)) as [<-|Hne].
  - rewrite list_lookup_insert_eq by (by eapply lookup_lt_Some). intros [= <-]. rewrite H3. by eapply Hc.
  - rewrite list_lookup_insert_ne by done. apply Hc.
Qed.

Lemma worker_lookup ws k : workers_ok ws → (k < length ids)%nat → ∃ w, ws !! k = Some w ∧ Ready (wk_sched w).
Proof.
  intros [Hs Hr] Hk. destruct (lookup_lt_is_Some_2 ws k) as [w Hw]; [by rewrite <- (length_fmap (λ w, (wk_id w, wk_dp_rank w))), Hs|].
  exists w. split; [done|]. by eapply Hr.
Qed.

Lemma ids_length ws : workers_ok ws → length ws = length ids.
Proof. intros [Hs _]. by rewrite <- Hs, length_fmap. Qed.

Lemma worker_id_inj ws i j w w' : workers_ok ws → ws !! i = Some w → ws !! j = Some w' → wk_id w = wk_id w' → i = j.
Proof.
  intros [Hs _] Hi Hj Heq. rewrite <- Hs, <- list_fmap_compose in Hids.
  eapply NoDup_lookup; [exact Hids|rewrite list_lookup_fmap, Hi; reflexivity|].
  rewrite list_lookup_fmap, Hj. cbn. by rewrite Heq.
Qed.

(** ** Preparing *)

Definition prepared s0 (k : nat) s : Prop := ∃ b ws,
  s = s0 <| workers := ws |> <| at_point := Loading b |> ∧ workers_ok ws ∧
  ∀ i w, ws !! i = Some w → (i < k)%nat →
    dp_step_counter w = step_counter s0 ∧ ∃ batch, b !! wk_id w = Some batch ∧ batch_ok batch w.

Lemma prepare_worker_spec s0 k s : (k < length ids)%nat → prepared s0 k s →
  wp (prepare_worker cfg dp k) (λ _ s', prepared s0 (S k) s') (λ _ _, True) s.
Proof.
  intros Hk (b & ws & -> & Hws & Hdone). destruct (worker_lookup ws k Hws Hk) as (w & Hw & HR).
  pose proof (lookup_lt_Some _ _ _ Hw) as Hlt.
  unfold prepare_worker. do 2 wp_step. unfold id. wp_step.
  eapply (wp_on_worker k _ _ _ _ w); [done|]. wp_step. cbn [step_counter update_field].
  set (w1 := w <| dp_step_counter := step_counter s0 |>). wp_step.
  eapply (wp_on_worker k _ _ _ _ w1); [by apply list_lookup_insert_eq|]. wp_step. unid. wp_step.
  eapply (wp_on_worker k _ _ _ _ w1); [cbn; by rewrite list_insert_insert_eq, list_lookup_insert_eq|].
  eapply wp_mono; [apply (prepare_step_spec w1 HR)| |done].
  intros batch w2 (Hsame & HR2 & Hb). cbv beta. wp_step.
  exists (<[wk_id w1 := batch]> b), (<[k := w2]> ws). split; [|split].
  - destruct s0; cbn. by rewrite !list_insert_insert_eq.
  - eapply workers_ok_insert; [done|done| |done]. by destruct Hsame as ((H1 & H2) & _).
  - destruct Hsame as ((H1 & H2) & H3). intros j x Hj Hjk. destruct (decide (k = j)) as [<-|Hne].
    + rewrite list_lookup_insert_eq in Hj by done. injection Hj as <-. split; [by rewrite H3|].
      exists batch. split; [|done]. by rewrite H1, lookup_insert_eq.
    + rewrite list_lookup_insert_ne in Hj by done. destruct (Hdone j x Hj) as (Hc & bt & Hbt & Hok); [lia|].
      split; [done|]. exists bt. split; [|done]. rewrite lookup_insert_ne; [done|].
      intros Heq. apply Hne. eapply worker_id_inj; [exact Hws|exact Hw|exact Hj|exact Heq].
Qed.

(** ** The resumptions keep the invariant *)

Definition Inv s : Prop := engine_failed s = true ∨ Synced s.

Lemma wp_snd {A} (m : M state A) (P : state → Prop) s : wp m (λ _, P) (λ _, P) s → P (m s).2.
Proof. unfold wp. by destruct (m s) as [[?|?] ?]. Qed.

Lemma in_pass_inv (m : M state unit) s :
  wp m (λ _ s', Synced s') (λ _ _, True) s → wp (in_pass m) (λ _, Inv) (λ _, Inv) s.
Proof. unfold wp, in_pass, catch, Inv. destruct (m s) as [[[]|e] s']; [by right|]. intros _. by left. Qed.

Lemma prepared_start s0 b : workers_ok (workers s0) → prepared s0 0 (s0 <| at_point := Loading b |>).
Proof.
  intros Hws. exists b, (workers s0). split; [by destruct s0|]. split; [done|]. intros i w _ Hi. lia.
Qed.

Lemma pass_inv s : Synced s → wave_running s = true → at_point s = AtTop →
  wp (modify (λ s : state, s <| busy := true |>) ;; in_pass (suspend (Loading ∅) ;; for_workers (prepare_worker cfg dp)))
    (λ _, Inv) (λ _, Inv) s.
Proof.
  intros Hs Hw Hp. do 2 wp_step. set (s2 := s <| busy := true |>). apply in_pass_inv. unfold suspend. do 2 wp_step.
  pose proof (sy_workers _ Hs) as Hws. pose proof (ids_length _ Hws) as Hlen.
  eapply wp_mono; [apply (wp_for_workers (prepared s2))| |done].
  - by apply (prepared_start s2).
  - intros k s' Hk. cbn in Hk. rewrite Hlen in Hk. by apply prepare_worker_spec.
  - intros _ s' (b & ws & -> & Hws' & Hall). cbn [workers update_field] in Hall. pose proof (ids_length _ Hws') as Hlen'.
    assert (∀ i w, ws !! i = Some w → dp_step_counter w = step_counter s ∧ ∃ batch, b !! wk_id w = Some batch ∧ batch_ok batch w) as Hb.
    { intros i w Hi. apply (Hall i w Hi). apply lookup_lt_Some in Hi. change (workers s2) with (workers s). lia. }
    destruct Hs. unfold announced in *. rewrite Hp in *. split; try done.
    + intros b' [= <-] i w Hi. by destruct (Hb i w Hi).
    + intros i w Hi. by destruct (Hb i w Hi).
Qed.

Lemma run_top_inv s : Synced s → at_point s = AtTop → Inv (run_top cfg dp s).2.
Proof.
  intros Hs Hp. apply wp_snd. unfold run_top. do 2 wp_step. unfold id.
  destruct (engine_failed s) eqn:Hf; [by left|].
  destruct (negb (wave_running s) && negb (has_work s)) eqn:Hi.
  { right. destruct Hs. unfold announced in *. rewrite Hp in *. split; try done. by intros [|]. }
  clear Hf Hi. wp_step.
  assert (∀ s, Synced s → wave_running s = true → at_point s = AtTop →
    wp (modify (λ s : state, s <| busy := true |>) ;; in_pass (suspend (Loading ∅) ;; for_workers (prepare_worker cfg dp)))
      (λ _, Inv) (λ _, Inv) s) as Hpass.
  { clear s Hs Hp. intros s Hs Hw Hp. by apply pass_inv. }
  destruct (wave_running s) eqn:Hw; cbn [negb when]; [wp_step; by apply Hpass|]. wp_step.
  apply Hpass; [|done|done]. destruct Hs. unfold announced in *. rewrite Hw in *. specialize (sy_idle0 eq_refl). split; cbn; try done.
  - lia.
  - rewrite <- sy_idle0. by apply sy_counter0.
Qed.

(** ** Computing *)

Definition counted_to (s0 : state) (k : nat) s : Prop := ∃ real dummy,
  s = s0 <| real_batches := real |> <| dummy_batches := dummy |> ∧
  ∀ r, total real r + total dummy r =
    total (real_batches s0) r + total (dummy_batches s0) r + (if decide (r ∈ take k ids.*2) then 1 else 0).

Lemma total_add_to (m : gmap Z Z) r x : total (add_to m x) r = total m r + (if decide (x.1 = r) then x.2 else 0).
Proof. exact (eq_trans (total_add_all [x] m r) (f_equal (Z.add _) (Z.add_0_r _))). Qed.

Lemma count_batch_spec s0 b k s : (k < length ids)%nat → workers_ok (workers s0) → counted_to s0 k s →
  wp (count_batch b k) (λ _ s', counted_to s0 (S k) s') no_raise s.
Proof.
  intros Hk Hws (real & dummy & -> & Hc). destruct (worker_lookup _ k Hws Hk) as (w & Hw & _).
  assert (ids.*2 !! k = Some (wk_dp_rank w)) as Hrk.
  { destruct Hws as [Hs _]. rewrite <- Hs, <- list_fmap_compose, list_lookup_fmap, Hw. done. }
  assert (∀ r, (if decide (r ∈ take (S k) ids.*2) then 1 else 0) =
    (if decide (r ∈ take k ids.*2) then 1 else 0) + (if decide (wk_dp_rank w = r) then 1 else 0)) as Htake.
  { intros r. rewrite (take_S_r _ _ _ Hrk). destruct (decide (wk_dp_rank w = r)) as [<-|Hne].
    - rewrite decide_True by set_solver. rewrite decide_False; [lia|].
      intros [j [Hj Hlt]%lookup_take_Some]%list_elem_of_lookup.
      assert (j = k) by (eapply NoDup_lookup; [exact Hranks|done|done]). lia.
    - rewrite Z.add_0_r. apply decide_ext. rewrite elem_of_app, list_elem_of_singleton. naive_solver. }
  unfold count_batch. wp_step. eapply (wp_on_worker k _ _ _ _ w); [done|]. wp_step. cbv beta.
  unid. destruct (default [] (b !! wk_id w)); wp_step.
  - exists real, (add_to dummy (wk_dp_rank w, 1)). split; [destruct s0; cbn; by rewrite list_insert_id|].
    intros r. rewrite total_add_to, Htake. cbn. specialize (Hc r). lia.
  - exists (add_to real (wk_dp_rank w, 1)), dummy. split; [destruct s0; cbn; by rewrite list_insert_id|].
    intros r. rewrite total_add_to, Htake. cbn. specialize (Hc r). lia.
Qed.

Lemma run_loaded_inv s b estimates : Synced s → at_point s = Loading b → Inv (run_loaded b estimates s).2.
Proof.
  intros Hs Hp. apply wp_snd, in_pass_inv. wp_step.
  pose proof (sy_workers _ Hs) as Hws. pose proof (ids_length _ Hws) as Hlen.
  eapply wp_mono; [apply (wp_for_workers (counted_to s) _ (λ _ _, True))| |done].
  - exists (real_batches s), (dummy_batches s). split; [by destruct s|]. intros r. rewrite take_0, decide_False by set_solver. lia.
  - intros k s' Hk. rewrite Hlen in Hk. intros Hc.
    eapply wp_mono; [by apply (count_batch_spec s)|done|by intros ? ? []].
  - intros u s' (real & dummy & -> & Hc). cbv beta. rewrite Hlen, <- (length_fmap snd ids), take_ge in Hc by done.
    wp_step. assert (∀ d, Synced (s <| real_batches := real |> <| dummy_batches := dummy |> <| at_point := Computing b d |>)) as Hend.
    { intros d. destruct Hs. unfold announced in *. rewrite Hp in *. split; try done.
      - intros r Hr. cbn. rewrite Hc, decide_True by done. specialize (sy_counts0 r Hr). cbn in sy_counts0. lia.
      - intros _. apply sy_running0. by left.
}
    destruct estimates as [|e l]; [by wp_step|]. wp_step. destruct (fleb _ f0); [by wp_step|].
    unfold suspend. wp_step. apply Hend.
Qed.

(** ** Finishing *)

(** Methods of the workers were called; no cancellation waits for its blocks. *)
Definition served s0 s : Prop := ∃ ws pending,
  s = s0 <| workers := ws |> <| pending_cancels := pending |> ∧ workers_ok ws ∧ counters (announced s0) ws.

Lemma served_refl s : workers_ok (workers s) → counters (announced s) (workers s) → served s s.
Proof. intros Hw Hc. exists (workers s), (pending_cancels s). split; [by destruct s|done]. Qed.

(** A method of worker [k] that keeps the scheduler ready *)
Lemma served_worker {A} s0 s k (m : M worker A) (Q : A → worker → Prop) E :
  (k < length ids)%nat → served s0 s →
  (∀ w, Ready (wk_sched w) → wp m (λ a w', same_worker w w' ∧ Ready (wk_sched w') ∧ Q a w') (λ _ _, True) w) →
  (∀ e s', E e s') →
  wp (on_worker k m) (λ a s', served s0 s' ∧ ∃ w', Q a w') E s.
Proof.
  intros Hk (ws & pending & -> & Hws & Hc) Hm HE. destruct (worker_lookup ws k Hws Hk) as (w & Hw & HR).
  eapply (wp_on_worker k _ _ _ _ w); [done|]. eapply wp_mono; [by apply Hm| |by intros].
  intros a w' (Hsame & HR' & HQ). split; [|by exists w'].
  exists (<[k := w']> ws), pending. split; [by destruct s0|]. split.
  - eapply workers_ok_insert; [done..| |done]. by destruct Hsame.
  - by eapply counters_insert.
Qed.

Lemma served_call {A} s0 s k (m : M worker A) :
  (k < length ids)%nat → served s0 s →
  (∀ w, Ready (wk_sched w) → wp m (λ _ w', same_worker w w' ∧ Ready (wk_sched w')) (λ _ _, True) w) →
  wp (on_worker k m) (λ _ s', served s0 s') (λ _ _, True) s.
Proof.
  intros Hk Hs Hm. eapply wp_mono; [apply (served_worker s0 s k m (λ _ _, True) (λ _ _, True)); [done|done| |done]| |done].
  - intros w HR. eapply wp_mono; [by apply Hm| |done]. by intros a w' [? ?].
  - by intros a s' [? _].
Qed.

Lemma cancel_at_boundary_spec now i r s0 s : (i < length ids)%nat → served s0 s →
  wp (cancel_at_boundary now i r) (λ _ s', served s0 s') (λ _ _, True) s.
Proof.
  intros Hi Hs. unfold cancel_at_boundary. wp_step.
  eapply wp_mono; [apply (served_worker s0 s i _ (λ ok _, ok = true) (λ _ _, True)); [done|done| |done]| |done].
  { intros w HR. eapply wp_mono; [by apply cancel_worker_spec| |done]. by intros ok w' (-> & ? & ?). }
  intros ok s1 (Hs1 & _ & ->). unfold acknowledge. wp_step.
  eapply wp_mono; [apply (served_call s0 s1 i); [done|done|]| |done]; [intros w HR; by wp_step|].
  intros w s2 Hs2. cbv beta. apply served_call; [done|done|]. intros w' HR.
  eapply wp_mono; [apply edit_worker_spec; [done|intros q; apply progress_acknowledge]| |done].
  by intros u w2 (? & ? & _).
Qed.

Lemma finish_worker_spec now d b k s0 s : (k < length ids)%nat → served s0 s →
  wp (finish_worker cfg now d b k) (λ _ s', served s0 s') (λ _ _, True) s.
Proof.
  intros Hk Hs. unfold finish_worker. wp_step.
  eapply wp_mono; [apply (served_call s0 s k); [done|done|]| |done]; [intros w HR; by wp_step|].
  intros w s1 Hs1. cbv beta. wp_step.
  assert (wp (match default [] (b !! wk_id w) with
    | [] => mret tt
    | batch => on_worker k (complete_step cfg now d batch) ;; on_worker k finalize_connector_step
    end) (λ _ s', served s0 s') (λ _ _, True) s1) as Hcomplete.
  { destruct (default [] (b !! wk_id w)) as [|x l]; [by wp_step|]. wp_step.
    eapply wp_mono; [apply (served_call s0 s1 k); [done|done|]| |done]; [intros w' HR; by apply complete_step_spec|].
    intros u s2 Hs2. cbv beta. apply served_call; [done|done|]. intros w' HR.
    eapply wp_mono; [apply finalize_spec|by intros ? ? ->|by intros]. }
  eapply wp_mono; [exact Hcomplete| |done]. intros u s2 Hs2. cbv beta. do 4 wp_step. unid.
  assert (served s0 (s2 <| pending_cancels ::= delete (wk_id w) |>)) as Hs3.
  { destruct Hs2 as (ws & pending & -> & Hws & Hc). exists ws, (delete (wk_id w) pending). split; [by destruct s0|done]. }
  wp_step. eapply wp_mono; [apply (wp_for (λ _ s', served s0 s')); [exact Hs3|]| |done].
  - intros _ r _ s' _ Hs'. by apply cancel_at_boundary_spec.
  - intros v s4 Hs4. cbv beta. apply served_call; [done|done|]. intros w' HR. by wp_step.
Qed.

Lemma run_computed_inv now d b s : Synced s → at_point s = Computing b d → Inv (run_computed cfg now d b s).2.
Proof.
  intros Hs Hp. apply wp_snd, in_pass_inv. wp_step.
  pose proof (sy_workers _ Hs) as Hws. pose proof (ids_length _ Hws) as Hlen.
  eapply wp_mono; [apply (wp_for_workers (λ _ s', served s s') _ (λ _ _, True))| |done].
  - by apply served_refl, Hs.
  - intros k s' Hk Hs'. rewrite Hlen in Hk. by apply finish_worker_spec.
  - intros u s' (ws & pending & -> & Hws' & Hc'). unfold suspend. wp_step.
    destruct Hs. unfold announced in *. rewrite Hp in *. split; try done. intros _. apply sy_running0. by left.
Qed.

(** ** The end of a pass *)

Lemma run_saved_inv s : Synced s → at_point s = Saving → Inv (run_saved s).2.
Proof.
  intros Hs Hp. right. unfold run_saved. destruct Hs. unfold announced in *. rewrite Hp in *. split; try done; cbn.
  - intros r Hr. specialize (sy_counts0 r Hr). cbn -[total] in sy_counts0.
    change (total (real_batches s) r + total (dummy_batches s) r = Z.succ (steps s) + 0). lia.
  - intros _. apply sy_running0. by left.
  - intros Hf. change (wave_running s = false) in Hf. by rewrite sy_running0 in Hf by by left.
  - change (counters (Z.succ (step_counter s) - 1) (workers s)).
    assert (Z.succ (step_counter s) - 1 = step_counter s) as -> by lia. done.
Qed.

Lemma set_counters_spec n s : workers_ok (workers s) →
  wp (for_workers (λ i, on_worker i (modify (λ w : worker, w <| dp_step_counter := n |>))))
    (λ _ s', ∃ ws, s' = s <| workers := ws |> ∧ workers_ok ws ∧ counters n ws) no_raise s.
Proof.
  intros Hws. pose proof (ids_length _ Hws) as Hlen.
  eapply wp_mono; [apply (wp_for_workers (λ k s', ∃ ws, s' = s <| workers := ws |> ∧ workers_ok ws ∧
    ∀ i w, ws !! i = Some w → (i < k)%nat → dp_step_counter w = n))| |done].
  - exists (workers s). split; [by destruct s|]. split; [done|]. intros i w _ Hi. lia.
  - intros k s' Hk (ws & -> & Hws' & Hc). rewrite Hlen in Hk.
    destruct (worker_lookup ws k Hws' Hk) as (w & Hw & HR).
    eapply (wp_on_worker k _ _ _ _ w); [done|]. wp_step.
    exists (<[k := w <| dp_step_counter := n |>]> ws). split; [by destruct s|]. split.
    + by eapply workers_ok_insert.
    + intros i x Hi Hlt. destruct (decide (k = i)) as [<-|Hne].
      * rewrite list_lookup_insert_eq in Hi by (by eapply lookup_lt_Some). by injection Hi as <-.
      * rewrite list_lookup_insert_ne in Hi by done. apply (Hc i x Hi). lia.
  - intros u s' (ws & -> & Hws' & Hc). exists ws. split; [done|]. split; [done|]. intros i w Hi.
    apply (Hc i w Hi). apply lookup_lt_Some in Hi. rewrite (ids_length _ Hws') in Hi. lia.
Qed.

(** The state can go on at the top of the loop. *)
Definition can_go_on s : Prop := workers_ok (workers s) ∧
  ∀ ws, workers_ok ws → counters (step_counter s) ws → Synced (s <| workers := ws |> <| at_point := AtTop |>).

Lemma run_end_inv s : Synced s → at_point s = AtEnd → Inv (run_end dp s).2.
Proof.
  intros Hs Hp. apply wp_snd. unfold run_end. do 2 wp_step. unid.
  pose proof (sy_running _ Hs (or_intror Hp)) as Hw.
  wp_step. eapply wp_mono with (Q := λ _ s1, can_go_on s1) (E := no_raise); [|intros u s1 [Hok Hgo]|by intros ? ? []].
  - assert (can_go_on s) as Hgo.
    { destruct Hs. unfold announced in *. rewrite Hw, Hp in *. split; [done|]. intros ws Hws Hc. split; try done.
      - change (waves_started s = waves_finished s + (if wave_running s then 1 else 0)). by rewrite Hw.
      - change (wave_running s = false → step_counter s = 0). by rewrite Hw. }
    destruct (_ || _); cbn [when]; [|by wp_step]. do 2 wp_step.
    destruct (has_work s); cbn [negb when]; wp_step; (split; [exact (proj1 Hgo)|intros ws Hws Hc]).
    + destruct Hgo as [_ Hgo]. destruct (Hgo ws Hws Hc). by split.
    + destruct Hs. unfold announced in *. rewrite Hw, Hp in *. split; try done.
      * change (waves_started s = Z.succ (waves_finished s) + 0). lia.
      * change (Z.succ (wave s) = Z.succ (waves_finished s)). lia.
      * by intros [|].
  - cbv beta. do 2 wp_step. unid. wp_step.
    eapply wp_mono; [by apply set_counters_spec| |by intros ? ? []].
    intros v s' (ws & -> & Hws & Hc). unfold suspend. wp_step. right. by apply Hgo.
Qed.
(** ** Messages *)

Lemma notify_synced s : Synced s → Synced (notify s).2.
Proof.
  intros Hs. change (notify s).2 with (s <| at_point ::= λ p, match p with Idle => AtTop | p => p end |>).
  destruct (at_point s) eqn:Hp;
    try (assert (s <| at_point ::= λ p, match p with Idle => AtTop | p => p end |> = s) as -> by
           (destruct s; cbn in *; by rewrite Hp); exact Hs).
  assert (s <| at_point ::= λ p, match p with Idle => AtTop | p => p end |> = s <| at_point := AtTop |>) as ->
    by (destruct s; cbn in *; by rewrite Hp).
  destruct Hs. unfold announced in *. rewrite Hp in *. split; try done. by intros [|].
Qed.

Lemma in_message_inv (m : M state unit) s :
  wp m (λ _ s', Synced s') (λ _ _, True) s → Inv (in_message m s).2.
Proof.
  unfold wp, in_message, catch, Inv. destruct (m s) as [[[]|e] s']; [by right|]. intros _. by left.
Qed.

(** Between passes no batch is in flight, so the workers may change freely. *)
Lemma served_synced s s' : Synced s → busy s = false → served s s' → Synced s'.
Proof.
  intros Hs Hb (ws & pending & -> & Hws & Hc). destruct Hs. split; try done.
  intros b Hf. change (in_flight (at_point s) = Some b) in Hf. rewrite sy_busy0 in Hb. by destruct (at_point s).
Qed.

Lemma wp_no_worker {A} i (m : M worker A) (Q : A → state → Prop) (E : _ → state → Prop) s :
  workers s !! i = None → E IndexError s → wp (on_worker i m) Q E s.
Proof. intros Hi HE. unfold wp, on_worker. by rewrite Hi. Qed.

Lemma cancel_between_passes now i r s : Synced s → busy s = false →
  wp (cancel_at_boundary now i r) (λ _ s', Synced s' ∧ busy s' = false) (λ _ _, True) s.
Proof.
  intros Hs Hb. pose proof (ids_length _ (sy_workers _ Hs)) as Hlen.
  destruct (workers s !! i) as [w|] eqn:Hi.
  - eapply wp_mono; [apply (cancel_at_boundary_spec now i r s s)| |done].
    + rewrite <- Hlen. by eapply lookup_lt_Some.
    + apply served_refl; apply Hs.
    + intros u s' Hs'. split; [by eapply served_synced|]. by destruct Hs' as (ws & pending & -> & _).
  - unfold cancel_at_boundary. wp_step. by apply wp_no_worker.
Qed.

Lemma worker_same s i w : workers s !! i = Some w → s <| workers ::= <[i := w]> |> = s.
Proof. intros Hi. destruct s. cbn in *. by rewrite list_insert_id. Qed.

Lemma message_cancel_inv now i rs s : Synced s → Inv (message_cancel now i rs s).2.
Proof.
  intros Hs. apply in_message_inv. wp_step.
  eapply wp_mono; [apply (wp_for (λ _ s', Synced s') _ _ (λ _ _, True)); [done|]| |done].
  - intros _ r _ s' _ Hs'. do 2 wp_step. unid. destruct (busy s') eqn:Hb.
    + wp_step. destruct (workers s' !! i) as [w|] eqn:Hi; [|by apply wp_no_worker].
      eapply (wp_on_worker i _ _ _ _ w); [done|]. wp_step. cbv beta. wp_step.
      rewrite (worker_same s' i w Hi). destruct Hs'. by split.
    + eapply wp_mono; [by apply cancel_between_passes| |done]. by intros u s2 [? _].
  - intros u s' Hs'. cbv beta. unfold notify. wp_step. by apply notify_synced.
Qed.

(** A change of one worker that keeps what runs there *)
Lemma synced_insert s i w w' : Synced s → workers s !! i = Some w → same_worker w w' → Ready (wk_sched w') →
  (∀ batch, batch_ok batch w → batch_ok batch w') → Synced (s <| workers ::= <[i := w']> |>).
Proof.
  intros Hs Hi Hsame HR Hb. destruct Hs. split; try done.
  - eapply workers_ok_insert; [done..| |done]. by destruct Hsame.
  - intros b Hf j x. cbn [workers update_field]. destruct (decide (i = j)) as [<-|Hne].
    + rewrite list_lookup_insert_eq by (by eapply lookup_lt_Some). intros [= <-].
      destruct (sy_batches0 b Hf i w Hi) as (batch & Hbt & Hok). destruct Hsame as ((-> & _) & _).
      exists batch. split; [done|by apply Hb].
    + rewrite list_lookup_insert_ne by done. by apply sy_batches0.
  - by eapply counters_insert.
Qed.

Lemma on_worker_inv {A} i (m : M worker A) s : Synced s →
  (∀ w, workers s !! i = Some w → wp m (λ _ w', same_worker w w' ∧ Ready (wk_sched w') ∧
     ∀ batch, batch_ok batch w → batch_ok batch w') no_raise w) →
  wp (on_worker i m) (λ _ s', Synced s') (λ _ s', Synced s') s.
Proof.
  intros Hs Hm. destruct (workers s !! i) as [w|] eqn:Hi; [|by apply wp_no_worker].
  eapply (wp_on_worker i _ _ _ _ w); [done|]. eapply wp_mono; [by apply Hm| |by intros ? ? []].
  intros a w' (H1 & H2 & H3). by eapply synced_insert.
Qed.

Lemma synced_ready s i w : Synced s → workers s !! i = Some w → Ready (wk_sched w).
Proof. intros Hs. apply (sy_workers _ Hs). Qed.

Lemma edit_inv s i r f : Synced s → (∀ q, progress q (f q)) → (∀ q, scheduled_tokens (f q) = scheduled_tokens q) →
  Inv (on_worker i (on_sched (edit r f)) s).2.
Proof.
  intros Hs Hf Ht. right. apply wp_snd, on_worker_inv; [done|]. intros w Hi.
  eapply wp_mono; [apply edit_worker_spec; [by eapply synced_ready|done]| |done].
  intros u w' (Hsame & HR & Hr & Hq). split; [done|]. split; [done|]. intros batch [Hnd Hb]. split; [done|].
  intros x Hx. destruct (Hb x Hx) as [H1 H2]. rewrite Hr, Hq. split; [done|]. case_decide; [subst; by rewrite Ht|done].
Qed.

Lemma status_spec (f : worker → WorkerStatus) w : Ready (wk_sched w) →
  wp (modify (λ w : worker, w <| wk_status := f w |>)) (λ _ w', same_worker w w' ∧ Ready (wk_sched w') ∧
    ∀ batch, batch_ok batch w → batch_ok batch w') no_raise w.
Proof. intros HR. by wp_step. Qed.

Lemma message_stop_inv i s : Synced s → Inv (message_stop i s).2.
Proof.
  intros Hs. right. apply wp_snd. unfold message_stop. wp_step.
  eapply wp_mono; [apply on_worker_inv; [done|]| |done].
  - intros w Hi. apply (status_spec (λ _, WorkerStopped)). by eapply synced_ready.
  - intros u s' Hs'. cbv beta. unfold notify. wp_step. by apply notify_synced.
Qed.

(** New requests wait, also those that arrive during a pass. *)
Lemma message_add_inv i rs s w : Synced s → workers s !! i = Some w → NoDup rs →
  (∀ r, r ∈ rs → fresh_request (wk_sched w) r) → Inv (message_add cfg i rs s).2.
Proof.
  intros Hs Hi Hnd Hfresh. apply in_message_inv. wp_step.
  eapply wp_mono; [apply on_worker_inv; [done|]| |done].
  - intros w0 Hi0. assert (w0 = w) as -> by congruence. apply wp_on_sched.
    eapply wp_mono; [by apply (add_requests_spec cfg Hcfg); [eapply synced_ready| |]| |done].
    intros u x (HR & ->). done.
  - intros u s1 Hs1. cbv beta. wp_step. eapply wp_mono; [apply on_worker_inv; [done|]| |done].
    + intros w1 Hi1. apply (status_spec idle_status). by eapply synced_ready.
    + intros v s2 Hs2. cbv beta. unfold notify. wp_step. by apply notify_synced.
Qed.

(** ** Every step keeps the invariant *)

(** What can happen to the coordinator: [message_add] brings fresh requests. *)
Inductive dp_step : state → state → Prop :=
  | dp_run s s' : engine_failed s = false → coordinator_step cfg dp s s' → dp_step s s'
  | dp_add s i w rs :
      engine_failed s = false → workers s !! i = Some w → NoDup rs →
      (∀ r, r ∈ rs → fresh_request (wk_sched w) r) → dp_step s (message_add cfg i rs s).2.

Lemma poll_nothing now k s : releasing s = [] → poll_release now k s = (Ok tt, s).
Proof. intros Hr. unfold poll_release, mbind, M_bind, gets. unid. by rewrite Hr. Qed.

Lemma coordinator_step_inv s s' : coordinator_step cfg dp s s' → Synced s → Inv s'.
Proof.
  destruct 1 as [s Hp|s b es Hp _|s now b d Hp|s Hp|s Hp|s now i rs|s i|s now k|s i now r|s i now r]; intros Hs.
  - by apply run_top_inv.
  - by apply run_loaded_inv.
  - by apply run_computed_inv.
  - by apply run_saved_inv.
  - by apply run_end_inv.
  - by apply message_cancel_inv.
  - by apply message_stop_inv.
  - rewrite poll_nothing by apply Hs. by right.
  - apply edit_inv; [done|intros q; apply progress_arrive|]. intros q. unfold arrive. by destruct (cancel_requested q).
  - apply edit_inv; [done|intros q; apply progress_cancel|]. intros q. unfold request_cancel.
    destruct (cancellation_event q); cbn zeta; destruct (is_done _); try done; by destruct (cancel_requested _).
Qed.

Lemma dp_step_inv s s' : dp_step s s' → Inv s → Inv s'.
Proof.
  destruct 1 as [s s' Hf Hstep|s i w rs Hf Hi Hnd Hfresh]; (intros [Ht|Hs]; [congruence|]).
  - by eapply coordinator_step_inv.
  - by eapply message_add_inv.
Qed.

Lemma dp_steps_inv s s' : rtc dp_step s s' → Inv s → Inv s'.
Proof. induction 1; eauto using dp_step_inv. Qed.

Lemma new_coordinator_synced ws s :
  new_coordinator dp ws = Ok s → workers_ok ws → counters 0 ws → Synced s.
Proof.
  intros Hn Hws Hc. unfold new_coordinator in Hn. destruct (_ || _); [done|]. injection Hn as <-.
  split; try done. by intros [|].
Qed.

Lemma reachable_synced ws s0 s :
  new_coordinator dp ws = Ok s0 → workers_ok ws → counters 0 ws → rtc dp_step s0 s → engine_failed s = false → Synced s.
Proof.
  intros Hn Hws Hc Hsteps Hf. assert (Inv s) as [Ht|Hs]; [|congruence|done].
  apply (dp_steps_inv s0); [done|]. right. by eapply new_coordinator_synced.
Qed.
End Lockstep.
