(* ===== verification/DpIdle.v ===== *)
(** * Passes without work

    While no worker has work every pass is a dummy one: nothing raises, no request appears,
    and the passes only count up to the check that ends the wave. *)

From stdpp Require Import gmap list strings relations.
From Stdlib Require Import ZArith Lia.
From S2P Require Import Prelude.
From S2P Require Import PyFloat.
From S2P Require Import Buckets.
From S2P Require Import PrefixKeys.
From S2P Require Import Request.
From S2P Require Import Acceptance.
From S2P Require Import World.
From S2P Require Import BlockManager.
From S2P Require Import SchedulerState.
From S2P Require Import Scheduler.
From S2P Require Import SchedulerSpec.
From S2P Require Import UniformScheduler.
From S2P Require Import SchedulerLife.
From S2P Require Import DpCoordinator.
From S2P Require Import DpLockstep.

Open Scope Z_scope.

Section Idle.
Context `{Digest, Blake2b}.
Variables (cfg : SchedulerConfig) (dp : dp_config).
Hypothesis Hcfg : uniform_config cfg.

Abbreviation worker := (dp_worker world).
Abbreviation state := (coordinator world).
Implicit Types (w : worker) (s : state).

(** ** Schedulers without requests *)

Definition empty_queues (x : sched world) : Prop :=
  running x = [] ∧ waiting x = [] ∧ loading x = ∅ ∧ loaded_waiting x = [].

Lemma worker_idle w : worker_has_work w = false ↔ empty_queues (wk_sched w).
Proof.
  unfold worker_has_work, empty_queues. rewrite !orb_false_iff, !negb_false_iff, !bool_decide_eq_true. tauto.
Qed.

(** A step in which nothing was scheduled yet *)
Definition nothing_yet (x : sched world) : Prop :=
  empty_queues x ∧ scheduled (step_of x) = [] ∧ preempted (step_of x) = [].

Lemma begin_nothing throttle budget x : nothing_yet x →
  wp (begin_step cfg throttle budget) (λ _ y, nothing_yet y) no_raise x.
Proof. intros Hx. unfold begin_step. by wp_steps. Qed.

Lemma running_nothing x : nothing_yet x → wp (schedule_running cfg) (λ _ y, nothing_yet y) no_raise x.
Proof.
  intros ((Hr & Hq) & Hs). unfold schedule_running, sorted_running. do 3 wp_step. unid. rewrite Hr. cbn.
  by wp_steps.
Qed.

Lemma waiting_nothing x : nothing_yet x → wp (schedule_waiting cfg) (λ _ y, nothing_yet y) no_raise x.
Proof.
  intros ((Hr & Hw & Hl & Hlw) & Hs). unfold schedule_waiting. do 2 wp_step. unid.
  rewrite Hw, Hlw. cbn. by wp_step.
Qed.

Lemma schedule_nothing throttle x : empty_queues x →
  wp (schedule cfg throttle) (λ res y, res = ([], []) ∧ empty_queues y) no_raise x.
Proof.
  intros Hx. unfold schedule, bump, on_step. do 4 wp_step. wp_step.
  eapply wp_mono; [by apply begin_nothing| |done]. intros u1 x1 Hx1. cbv beta. wp_step.
  eapply wp_mono; [by apply running_nothing| |done]. intros u2 x2 Hx2. cbv beta. do 5 wp_step. unid.
  set (x3 := x2 <| step_of ::= _ |>). assert (nothing_yet x3) as Hx3 by done. clearbody x3.
  rewrite bool_decide_eq_true_2 by apply Hx3. cbn [when].
  eapply wp_mono; [by apply waiting_nothing| |done]. intros u4 x4 Hx4. cbv beta. do 3 wp_step. unid.
  eapply (wp_mono _ (λ _ y, nothing_yet y) _ no_raise); [| |done].
  { destruct (_ && _); cbn [when]; by wp_step. }
  intros u5 x5 Hx5. cbv beta. do 3 wp_step. unid.
  eapply (wp_mono _ (λ _ y, nothing_yet y) _ no_raise); [| |done].
  { destruct (prefill_capacity_bound x5); cbn [when]; by wp_step. }
  intros u6 x6 (Hq & Hs & Hp). cbv beta. do 2 wp_step. unid. rewrite Hs, Hp. wp_step. by wp_steps.
Qed.

(** Methods that touch the manager only *)
Lemma in_world_queues {A} (m : M world A) x : empty_queues x →
  wp (in_world m) (λ _ y, empty_queues y) (λ _ y, empty_queues y) x.
Proof. intros Hx. unfold wp, in_world. by destruct (m (world_of x)) as [[?|?] ?]. Qed.

Lemma cancel_queues r x : empty_queues x → wp (cancel_request r) (λ _ y, empty_queues y) (λ _ _, True) x.
Proof.
  intros (Hr & Hw & Hl & Hlw). unfold cancel_request. do 2 wp_step.
  match goal with |- wp _ _ _ ?y => assert (empty_queues y) as Hy end.
  { unfold empty_queues. cbn. rewrite Hr, Hw, Hl, Hlw. cbn. repeat split. set_solver. }
  do 3 wp_step. eapply wp_mono; [by apply in_world_queues| |done]. intros d x1 Hx1. cbv beta. wp_step.
  eapply (wp_mono _ (λ _ y, empty_queues y) _ (λ _ _, True)); [| |done].
  - destruct (negb d); cbn [when]; [|by wp_step]. wp_step.
    eapply (wp_mono _ (λ _ y, empty_queues y) _ (λ _ _, True)); [| |done].
    + destruct (_ || _); cbn [when]; [|by wp_step]. eapply wp_mono; [by apply in_world_queues|done|done].
    + intros u x2 Hx2. cbv beta. eapply wp_mono; [by apply in_world_queues|done|done].
  - intros u x2 Hx2. cbv beta. by wp_step.
Qed.

(** ** Workers without requests *)

Definition resting w : Prop := Ready (wk_sched w) ∧ empty_queues (wk_sched w).

Lemma prepare_resting w : resting w →
  wp (prepare_step cfg dp) (λ batch w', wk_id w' = wk_id w ∧ resting w') no_raise w.
Proof.
  intros [HR Hq].
  assert (wp (prepare_step cfg dp) (λ _ w', empty_queues (wk_sched w')) no_raise w) as Hm.
  { unfold prepare_step. do 2 wp_step. unid. apply wp_bind, wp_on_sched.
    eapply wp_mono; [by apply schedule_nothing| |by intros ? ? []]. intros res y [-> Hy]. cbv beta. by wp_steps. }
  eapply wp_mono; [exact (wp_and _ _ _ _ _ _ (prepare_step_spec cfg dp Hcfg w HR) Hm)| |by intros ? ? [[] _]].
  intros batch w' ((((Hid & _) & _) & HR' & _) & Hq'). done.
Qed.

Lemma cancel_resting r w : resting w →
  wp (on_sched (cancel_request r)) (λ ok w', wk_id w' = wk_id w ∧ resting w' ∧ ok = true) no_raise w.
Proof.
  intros [HR Hq].
  assert (wp (on_sched (cancel_request r)) (λ _ w', empty_queues (wk_sched w')) (λ _ _, True) w) as Hm.
  { apply wp_on_sched. eapply wp_mono; [by apply cancel_queues|done|done]. }
  eapply wp_mono; [exact (wp_and _ _ _ _ _ _ (cancel_worker_spec r w HR) Hm)| |by intros ? ? [[] _]].
  intros ok w' ((-> & ((Hid & _) & _) & HR') & Hq'). done.
Qed.

Lemma acknowledge_resting now id r w : resting w →
  wp (on_sched (edit r (acknowledge_cancel now id))) (λ _ w', wk_id w' = wk_id w ∧ resting w') no_raise w.
Proof.
  intros [HR Hq]. apply wp_on_sched. unfold edit. wp_step. split; [done|]. split; [|exact Hq].
  exact (progress_ready r _ _ HR (progress_acknowledge now id)).
Qed.

(** ** The coordinator between two requests *)

Definition frame s := (wave_running s, step_counter s, steps s, waves_finished s, engine_failed s).

Record rests (s0 s : state) : Prop := {
  rs_ids : wk_id <$> workers s = wk_id <$> workers s0;
  rs_rest i w : workers s !! i = Some w → resting w;
  rs_frame : frame s = frame s0;
  rs_real : real_batches s = real_batches s0;
}.

Lemma rests_length s0 s : rests s0 s → length (workers s) = length (workers s0).
Proof. intros [Hi _ _ _]. by rewrite <- (length_fmap wk_id), Hi, length_fmap. Qed.

Lemma rests_worker {A} s0 s k (m : M worker A) (Q : A → worker → Prop) :
  (k < length (workers s0))%nat → rests s0 s →
  (∀ w, workers s !! k = Some w → resting w → wp m (λ a w', wk_id w' = wk_id w ∧ resting w' ∧ Q a w') no_raise w) →
  wp (on_worker k m) (λ a s', rests s0 s' ∧ at_point s' = at_point s ∧ ∃ w, workers s' !! k = Some w ∧ Q a w) no_raise s.
Proof.
  intros Hk Hs Hm. rewrite <- (rests_length _ _ Hs) in Hk. destruct (lookup_lt_is_Some_2 _ _ Hk) as [w Hw].
  destruct Hs. eapply (wp_on_worker k _ _ _ _ w); [done|].
  eapply wp_mono; [by apply Hm; [|by eapply rs_rest0]| |by intros ? ? []].
  intros a w' (Hid & Hr & HQ). split; [|split; [done|]].
  - split; [| |done|done].
    + cbn. rewrite list_fmap_insert, list_insert_id; [done|]. by rewrite list_lookup_fmap, Hw, Hid.
    + intros j x. cbn. destruct (decide (k = j)) as [<-|Hne].
      * rewrite list_lookup_insert_eq by done. by intros [= <-].
      * rewrite list_lookup_insert_ne by done. apply rs_rest0.
  - exists w'. split; [|done]. by apply list_lookup_insert_eq.
Qed.

(** A method whose result does not matter *)
Lemma rests_call {A} s0 s k (m : M worker A) :
  (k < length (workers s0))%nat → rests s0 s →
  (∀ w, resting w → wp m (λ _ w', wk_id w' = wk_id w ∧ resting w') no_raise w) →
  wp (on_worker k m) (λ _ s', rests s0 s' ∧ at_point s' = at_point s) no_raise s.
Proof.
  intros Hk Hs Hm. eapply wp_mono; [apply (rests_worker s0 s k m (λ _ _, True)); [done|done|]| |done].
  - intros w _ Hw. eapply wp_mono; [by apply Hm|by intros ? ? [? ?]|done].
  - by intros a s' (? & ? & _).
Qed.

(** Looking at a worker *)
Lemma rests_look s0 s k : (k < length (workers s0))%nat → rests s0 s →
  wp (on_worker k (gets id)) (λ w s', rests s0 s' ∧ at_point s' = at_point s ∧ workers s' !! k = Some w) no_raise s.
Proof.
  intros Hk Hs. eapply wp_mono; [apply (rests_worker s0 s k (gets id) (λ a w, a = w)); [done|done|]| |done].
  - intros w _ Hw. by wp_step.
  - by intros a s' (? & ? & w & ? & ->).
Qed.

Lemma in_pass_ok (m : M state unit) Q s : wp m Q no_raise s → wp (in_pass m) Q no_raise s.
Proof. unfold wp, in_pass, catch. by destruct (m s) as [[[]|e] s']. Qed.

Lemma wp_ok_snd {A} (m : M state A) (P : state → Prop) s : wp m (λ _, P) no_raise s → P (m s).2.
Proof. unfold wp. by destruct (m s) as [[?|?] ?]. Qed.

Lemma prepare_rests s0 k s : (k < length (workers s0))%nat → rests s0 s ∧ (∃ b, at_point s = Loading b) →
  wp (prepare_worker cfg dp k) (λ _ s', rests s0 s' ∧ ∃ b, at_point s' = Loading b) no_raise s.
Proof.
  intros Hk [Hs (b & Hb)]. unfold prepare_worker. do 3 wp_step. unid.
  eapply wp_mono; [apply (rests_call s0 s k); [done|done|]| |done]; [intros w Hw; by wp_step|].
  intros u1 s1 [Hs1 E1]. cbv beta. wp_step.
  eapply wp_mono; [by apply (rests_look s0 s1 k)| |done]. intros w s2 (Hs2 & E2 & _). cbv beta. wp_step.
  eapply wp_mono; [apply (rests_call s0 s2 k); [done|done|by apply prepare_resting]| |done].
  intros batch s3 [Hs3 E3]. cbv beta. wp_step. split; [by destruct Hs3|].
  exists (<[wk_id w := batch]> b). cbn. by rewrite E3, E2, E1, Hb.
Qed.

Lemma count_rests s0 b k s :
  (∀ i, i ∈ wk_id <$> workers s0 → default [] (b !! i) = []) → (k < length (workers s0))%nat → rests s0 s →
  wp (count_batch b k) (λ _ s', rests s0 s') no_raise s.
Proof.
  intros Hb Hk Hs. unfold count_batch. wp_step.
  eapply wp_mono; [by apply (rests_look s0 s k)| |done]. intros w s1 (Hs1 & _ & Hw). cbv beta.
  rewrite Hb by (rewrite <- (rs_ids _ _ Hs1); by eapply list_elem_of_fmap_2, list_elem_of_lookup_2).
  wp_step. by destruct Hs1.
Qed.

Lemma cancel_rests now i r s0 s : (i < length (workers s0))%nat → rests s0 s →
  wp (cancel_at_boundary now i r) (λ _ s', rests s0 s') no_raise s.
Proof.
  intros Hi Hs. unfold cancel_at_boundary. wp_step.
  eapply wp_mono; [apply (rests_worker s0 s i _ (λ ok _, ok = true)); [done|done|]| |done].
  { intros w _ Hw. by apply cancel_resting. }
  intros ok s1 (Hs1 & _ & w1 & _ & ->). unfold acknowledge. wp_step.
  eapply wp_mono; [by apply (rests_look s0 s1 i)| |done]. intros w s2 (Hs2 & _). cbv beta.
  eapply wp_mono; [apply (rests_call s0 s2 i); [done|done|by apply acknowledge_resting]|by intros ? ? [? _]|done].
Qed.

Lemma finish_rests now d b k s0 s :
  (∀ i, i ∈ wk_id <$> workers s0 → default [] (b !! i) = []) → (k < length (workers s0))%nat → rests s0 s →
  wp (finish_worker cfg now d b k) (λ _ s', rests s0 s') no_raise s.
Proof.
  intros Hb Hk Hs. unfold finish_worker. wp_step.
  eapply wp_mono; [by apply (rests_look s0 s k)| |done]. intros w s1 (Hs1 & _ & Hw). cbv beta.
  rewrite Hb by (rewrite <- (rs_ids _ _ Hs1); by eapply list_elem_of_fmap_2, list_elem_of_lookup_2).
  do 7 wp_step. unid.
  assert (rests s0 (s1 <| pending_cancels ::= delete (wk_id w) |>)) as Hs2 by by destruct Hs1.
  eapply wp_mono; [apply (wp_for (λ _ s', rests s0 s')); [exact Hs2|]| |done].
  - intros _ r _ s' _ Hs'. by apply cancel_rests.
  - intros u s3 Hs3. cbv beta.
    eapply wp_mono; [apply (rests_call s0 s3 k); [done|done|]|by intros ? ? [? _]|done]. intros w' Hw'. by wp_step.
Qed.

(** ** A dummy pass *)

Definition positive (estimates : list pyfloat) : Prop :=
  estimates ≠ [] ∧ ∀ e, e ∈ estimates → fleb e f0 = false.

Lemma fmax_positive l e : fleb e f0 = false → (∀ x, x ∈ l → fleb x f0 = false) → fleb (foldl fmax e l) f0 = false.
Proof.
  revert e. induction l as [|x l IH]; intros e He Hl; [done|]. cbn. apply IH; [|set_solver].
  unfold fmax. destruct (fltb e x); [|done]. apply Hl. set_solver.
Qed.

Lemma rests_start s : (∀ i w, workers s !! i = Some w → resting w) → rests s s.
Proof. intros Hr. by split. Qed.

Lemma top_rests s : rests s s → engine_failed s = false → wave_running s = true →
  rests s (run_top cfg dp s).2 ∧ ∃ b, at_point (run_top cfg dp s).2 = Loading b.
Proof.
  intros Hs Hf Hw. apply (wp_ok_snd (run_top cfg dp) (λ s', rests s s' ∧ ∃ b, at_point s' = Loading b)).
  unfold run_top. do 2 wp_step. unid. rewrite Hf, Hw. cbn [negb andb when]. do 4 wp_step.
  apply in_pass_ok. unfold suspend. do 2 wp_step.
  eapply wp_mono; [apply (wp_for_workers (λ _ s', rests s s' ∧ ∃ b, at_point s' = Loading b))| |done].
  - split; [by destruct Hs|]. by eexists.
  - intros k s' Hk. by apply prepare_rests.
  - done.
Qed.

Lemma loaded_rests s b estimates : rests s s → (∀ i, i ∈ wk_id <$> workers s → default [] (b !! i) = []) → positive estimates →
  rests s (run_loaded b estimates s).2 ∧ ∃ d, at_point (run_loaded b estimates s).2 = Computing b d.
Proof.
  intros Hs Hb (Hne & Hpos).
  apply (wp_ok_snd (run_loaded b estimates) (λ s', rests s s' ∧ ∃ d, at_point s' = Computing b d)).
  apply in_pass_ok. wp_step. eapply wp_mono; [apply (wp_for_workers (λ _ s', rests s s') _ no_raise); [done|]| |done].
  - intros k s' Hk. by apply count_rests.
  - intros u s1 Hs1. cbv beta. wp_step. destruct estimates as [|e l]; [done|]. wp_step.
    rewrite fmax_positive by set_solver. unfold suspend. wp_step. split; [by destruct Hs1|]. by eexists.
Qed.

Lemma computed_rests now d b s : rests s s → (∀ i, i ∈ wk_id <$> workers s → default [] (b !! i) = []) →
  rests s (run_computed cfg now d b s).2 ∧ at_point (run_computed cfg now d b s).2 = Saving.
Proof.
  intros Hs Hb. apply (wp_ok_snd (run_computed cfg now d b) (λ s', rests s s' ∧ at_point s' = Saving)).
  apply in_pass_ok. wp_step. eapply wp_mono; [apply (wp_for_workers (λ _ s', rests s s') _ no_raise); [done|]| |done].
  - intros k s' Hk. by apply finish_rests.
  - intros u s1 Hs1. unfold suspend. wp_step. split; [by destruct Hs1|done].
Qed.

Definition ending s : bool := (step_counter s =? 1) || (step_counter s `mod` sync_interval dp =? 0).

(** What the check that ends a wave does to the counters *)
Definition end_wave s : state :=
  s <| wave_running := false |> <| wave ::= Z.succ |> <| step_counter := 0 |> <| waves_finished ::= Z.succ |>.

Lemma resting_no_work s : (∀ i w, workers s !! i = Some w → resting w) → has_work s = false.
Proof.
  intros Hr. unfold has_work. destruct (existsb _ _) eqn:He; [|done].
  apply existsb_exists in He as (w & [i Hi]%list_elem_of_In%list_elem_of_lookup & Hw).
  destruct (Hr i w Hi) as [_ Hq%worker_idle]. congruence.
Qed.

Lemma end_rests s : (∀ i w, workers s !! i = Some w → resting w) →
  rests (if ending s then end_wave s else s) (run_end dp s).2 ∧ at_point (run_end dp s).2 = AtTop.
Proof.
  intros Hr. pose proof (resting_no_work s Hr) as Hn. set (s0 := if ending s then end_wave s else s).
  apply (wp_ok_snd (run_end dp) (λ s', rests s0 s' ∧ at_point s' = AtTop)).
  unfold run_end. do 2 wp_step. unid. fold (ending s). wp_step.
  eapply (wp_mono _ (λ _ s', rests s0 s')); [| |done].
  - unfold s0. destruct (ending s); cbn [when]; [|wp_step; by apply rests_start].
    do 2 wp_step. change (has_work (s <| finish_consensus_checks ::= Z.succ |>)) with (has_work s). rewrite Hn.
    cbn [negb when]. wp_step. by split.
  - intros u s1 Hs1. cbv beta. do 3 wp_step. unid.
    eapply wp_mono; [apply (wp_for_workers (λ _ s', rests s0 s') _ no_raise); [done|]| |done].
    + intros k s' Hk Hs'. rewrite (rests_length _ _ Hs1) in Hk.
      eapply wp_mono; [apply (rests_call s0 s' k); [done|done|]|by intros ? ? [? _]|done]. intros w Hw. by wp_step.
    + intros v s2 Hs2. unfold suspend. wp_step. split; [by destruct Hs2|done].
Qed.

Variable ids : list (Z * Z).
Hypothesis Hids : NoDup ids.*1.
Hypothesis Hranks : NoDup ids.*2.

Lemma inv_synced s : Inv ids s → engine_failed s = false → Synced ids s.
Proof. intros [Ht|Hs] Hf; [congruence|done]. Qed.

Lemma frame_failed s s' : frame s' = frame s → engine_failed s' = engine_failed s.
Proof. by intros [= _ _ _ _ ?]. Qed.

(** Resting workers have nothing to complete. *)
Lemma empty_batches s b : Synced ids s → in_flight (at_point s) = Some b → (∀ i w, workers s !! i = Some w → resting w) →
  ∀ i, i ∈ wk_id <$> workers s → default [] (b !! i) = [].
Proof.
  intros Hs Hf Hr i (w & -> & [k Hk]%list_elem_of_lookup)%list_elem_of_fmap.
  destruct (sy_batches _ _ Hs b Hf k w Hk) as (batch & -> & _ & Hb). cbn.
  destruct (Hr k w Hk) as [_ (Hrun & _)]. destruct batch as [|r l]; [done|].
  destruct (Hb r) as [Hin _]; [set_solver|]. rewrite Hrun in Hin. set_solver.
Qed.

(** A running wave without work, at the top of the loop *)
Record Workless s : Prop := {
  wl_synced : Synced ids s;
  wl_rest i w : workers s !! i = Some w → resting w;
  wl_top : at_point s = AtTop;
  wl_alive : engine_failed s = false;
}.

(** The first half of a pass: no batch has requests. *)
Lemma dummy_batches_pass now es s : Workless s → wave_running s = true → positive es →
  let s' := Nat.iter 3 (resume cfg dp now es) s in rests s s' ∧ at_point s' = Saving ∧ Synced ids s'.
Proof.
  intros [Hs Hr Hp Hf] Hw He. cbn [Nat.iter nat_rect].
  destruct (top_rests s (rests_start s Hr) Hf Hw) as [H1 (b & P1)].
  assert (resume cfg dp now es s = (run_top cfg dp s).2) as -> by (unfold resume; by rewrite Hp).
  assert (Synced ids (run_top cfg dp s).2) as S1.
  { apply inv_synced; [by apply run_top_inv|]. by rewrite (frame_failed _ _ (rs_frame _ _ H1)). }
  revert H1 P1 S1. generalize (run_top cfg dp s).2. intros s1 H1 P1 S1.
  destruct (loaded_rests s1 b es (rests_start _ (rs_rest _ _ H1))) as [H2 (d & P2)]; [|done|].
  { apply (empty_batches s1 b S1); [by rewrite P1|apply (rs_rest _ _ H1)]. }
  assert (resume cfg dp now es s1 = (run_loaded b es s1).2) as -> by (unfold resume; by rewrite P1).
  assert (Synced ids (run_loaded b es s1).2) as S2.
  { apply inv_synced; [by apply (run_loaded_inv cfg Hcfg)|]. by rewrite (frame_failed _ _ (rs_frame _ _ H2)), (frame_failed _ _ (rs_frame _ _ H1)). }
  revert H2 P2 S2. generalize (run_loaded b es s1).2. intros s2 H2 P2 S2.
  destruct (computed_rests now d b s2 (rests_start _ (rs_rest _ _ H2))) as [H3 P3].
  { apply (empty_batches s2 b S2); [by rewrite P2|apply (rs_rest _ _ H2)]. }
  assert (resume cfg dp now es s2 = (run_computed cfg now d b s2).2) as -> by (unfold resume; by rewrite P2).
  assert (frame (run_computed cfg now d b s2).2 = frame s) as F3.
  { by rewrite (rs_frame _ _ H3), (rs_frame _ _ H2), (rs_frame _ _ H1). }
  split; [|split; [done|]].
  - split; [|apply (rs_rest _ _ H3)|done|]; [by rewrite (rs_ids _ _ H3), (rs_ids _ _ H2), (rs_ids _ _ H1)|].
    by rewrite (rs_real _ _ H3), (rs_real _ _ H2), (rs_real _ _ H1).
  - apply inv_synced; [by apply run_computed_inv|]. by rewrite (frame_failed _ _ F3).
Qed.

Lemma dummy_pass now es s : Workless s → wave_running s = true → positive es →
  let s' := pass cfg dp (now, es) s in let c := step_counter s + 1 in
  Workless s' ∧ real_batches s' = real_batches s ∧
  frame s' = (if (c =? 1) || (c `mod` sync_interval dp =? 0)
    then (false, 0, Z.succ (steps s), Z.succ (waves_finished s), false)
    else (true, c, Z.succ (steps s), waves_finished s, false)).
Proof.
  intros Hs Hw He. destruct (dummy_batches_pass now es s Hs Hw He) as (H3 & P3 & S3).
  unfold pass. cbn [fst snd]. change (Nat.iter 5 ?f s) with (f (f (Nat.iter 3 f s))).
  revert H3 P3 S3. generalize (Nat.iter 3 (resume cfg dp now es) s). intros s3 H3 P3 S3.
  assert (resume cfg dp now es s3 = (run_saved s3).2) as -> by (unfold resume; by rewrite P3).
  assert (engine_failed (run_saved s3).2 = false) as F4.
  { change (engine_failed s3 = false). rewrite (frame_failed _ _ (rs_frame _ _ H3)). apply Hs. }
  pose proof (inv_synced _ (run_saved_inv ids s3 S3 P3) F4) as S4.
  set (s4 := (run_saved s3).2) in *.
  assert (at_point s4 = AtEnd) as P4 by done.
  assert (resume cfg dp now es s4 = (run_end dp s4).2) as -> by (unfold resume; by rewrite P4).
  destruct (end_rests s4 (rs_rest _ _ H3)) as [H5 P5].
  pose proof (rs_frame _ _ H3) as [= E1 E2 E3 E4 E5]. pose proof (wl_alive _ Hs) as Ha.
  assert (frame (if ending s4 then end_wave s4 else s4) = (if ending s4
    then (false, 0, Z.succ (steps s), Z.succ (waves_finished s), false)
    else (true, step_counter s + 1, Z.succ (steps s), waves_finished s, false))) as F5.
  { destruct (ending s4).
    - change (frame (end_wave s4)) with (false, 0, Z.succ (steps s3), Z.succ (waves_finished s3), engine_failed s3).
      by rewrite E3, E4, E5, Ha.
    - change (frame s4) with (wave_running s3, step_counter s3 + 1, Z.succ (steps s3), waves_finished s3, engine_failed s3).
      by rewrite E1, E2, E3, E4, E5, Ha, Hw. }
  assert (ending s4 = (step_counter s + 1 =? 1) || ((step_counter s + 1) `mod` sync_interval dp =? 0)) as <-.
  { change (ending s4) with ((step_counter s3 + 1 =? 1) || ((step_counter s3 + 1) `mod` sync_interval dp =? 0)). by rewrite E2. }
  rewrite <- (rs_frame _ _ H5) in F5.
  assert (real_batches (run_end dp s4).2 = real_batches s) as R5.
  { rewrite (rs_real _ _ H5), <- (rs_real _ _ H3). by destruct (ending s4). }
  split; [|done].
  assert (engine_failed (run_end dp s4).2 = false) as F6 by (destruct (ending s4); by injection F5).
  split; [|apply (rs_rest _ _ H5)|done|done]. apply inv_synced; [by apply run_end_inv|done].
Qed.

(** Passes with given times and estimates *)
Definition passes (inputs : list (pyfloat * list pyfloat)) s : state :=
  foldl (λ s p, pass cfg dp p s) s inputs.

(** The check comes within a period of the interval. *)
Lemma wave_ends inputs s : Workless s → wave_running s = true → 0 < sync_interval dp →
  (∀ p, p ∈ inputs → positive p.2) →
  sync_interval dp - step_counter s `mod` sync_interval dp <= Z.of_nat (length inputs) →
  ∃ l1 l2, inputs = l1 ++ l2 ∧ l1 ≠ [] ∧ Workless (passes l1 s) ∧ real_batches (passes l1 s) = real_batches s ∧
    frame (passes l1 s) = (false, 0, steps s + Z.of_nat (length l1), Z.succ (waves_finished s), false).
Proof.
  revert s. induction inputs as [|[now es] inputs IH]; intros s Hs Hw Hpos Hin Hlen.
  - pose proof (Z.mod_pos_bound (step_counter s) _ Hpos). cbn in Hlen. lia.
  - destruct (dummy_pass now es s Hs Hw) as (Hs' & Hreal & Hf); [apply (Hin (now, es)); set_solver|].
    destruct ((step_counter s + 1 =? 1) || _) eqn:Hend.
    { exists [(now, es)], inputs. split; [done|]. split; [done|]. split; [exact Hs'|]. split; [exact Hreal|exact Hf]. }
    apply orb_false_iff in Hend as [_ Hend%Z.eqb_neq]. unfold frame in Hf. injection Hf as Hw' Hc Hst Hwf Hfail.
    assert ((step_counter s + 1) `mod` sync_interval dp = step_counter s `mod` sync_interval dp + 1) as Hmod.
    { pose proof (Z.mod_pos_bound (step_counter s) _ Hpos) as Hb. pose proof (Z.div_mod (step_counter s) (sync_interval dp)) as Hd.
      set (m := step_counter s `mod` sync_interval dp) in *. set (q := step_counter s / sync_interval dp) in *.
      destruct (Z.eq_dec (m + 1) (sync_interval dp)) as [He|Hn].
      - exfalso. apply Hend. assert (step_counter s + 1 = (q + 1) * sync_interval dp) as -> by nia. apply Z.mod_mul. lia.
      - symmetry. apply (Z.mod_unique_pos _ _ q); lia. }
    destruct (IH (pass cfg dp (now, es) s)) as (l1 & l2 & -> & Hne & Hl & Hrl & Hframe); try done.
    + intros p Hp. apply Hin. set_solver.
    + rewrite Hc, Hmod. cbn [length] in Hlen. lia.
    + exists ((now, es) :: l1), l2. split; [done|]. split; [done|]. split; [exact Hl|].
      split; [by etransitivity; [exact Hrl|]|].
      change (passes ((now, es) :: l1) s) with (passes l1 (pass cfg dp (now, es) s)). rewrite Hframe, Hst, Hwf.
      cbn [length]. f_equal. f_equal. f_equal. lia.
Qed.
End Idle.
