(* ===== verification/DpTheorems.v ===== *)
(** * Theorems of the coordinator

    For data-parallel workers with the paged scheduler, the block manager and the no-op
    connector: the ranks stay in lockstep, batches in flight stay intact, and a wave
    without work ends. *)

From stdpp Require Import gmap list strings relations.
From Stdlib Require Import ZArith Lia.
From S2P Require Import Prelude.
From S2P Require Import PyFloat.
From S2P Require Import Buckets.
From S2P Require Import PrefixKeys.
From S2P Require Import Request.
From S2P Require Import Acceptance.
From S2P Require Import World.
From S2P Require Import BlockManager.
From S2P Require Import ManagerTheorems.
From S2P Require Import SchedulerState.
From S2P Require Import Scheduler.
From S2P Require Import SchedulerSpec.
From S2P Require Import UniformScheduler.
From S2P Require Import SchedulerLife.
From S2P Require Import SchedulerWitness.
From S2P Require Import DpCoordinator.
From S2P Require Import DpLockstep.
From S2P Require Import DpIdle.

Open Scope Z_scope.

Section Theorems.
Context `{Digest, Blake2b}.
Variables (cfg : SchedulerConfig) (dp : dp_config).
Hypothesis Hcfg : uniform_config cfg.

(** New workers: distinct ids and ranks, schedulers that are ready, no pass counted *)
Definition new_workers (ws : list (dp_worker world)) : Prop :=
  NoDup (wk_id <$> ws) ∧ NoDup (wk_dp_rank <$> ws) ∧
  ∀ w, w ∈ ws → Ready (wk_sched w) ∧ dp_step_counter w = 0.

(** The coordinator over new workers, after any steps *)
Definition dp_reachable (ws : list (dp_worker world)) (s : coordinator world) : Prop :=
  ∃ s0, new_coordinator dp ws = Ok s0 ∧ rtc (dp_step cfg dp) s0 s.

Definition identities (ws : list (dp_worker world)) : list (Z * Z) := (λ w, (wk_id w, wk_dp_rank w)) <$> ws.

Lemma dp_reachable_synced ws s : new_workers ws → dp_reachable ws s → engine_failed s = false → Synced (identities ws) s.
Proof.
  intros (Hi & Hr & Hw) (s0 & Hn & Hsteps) Hf. eapply (reachable_synced cfg dp Hcfg); try done.
  - unfold identities. by rewrite <- list_fmap_compose.
  - unfold identities. by rewrite <- list_fmap_compose.
  - split; [done|]. intros i w Hl%list_elem_of_lookup_2. by apply Hw.
  - intros i w Hl%list_elem_of_lookup_2. by apply Hw.
Qed.

Lemma reachable_rank ws s i w : Synced (identities ws) s → workers s !! i = Some w → wk_dp_rank w ∈ (identities ws).*2.
Proof.
  intros Hs Hi. destruct (sy_workers _ _ Hs) as [<- _]. rewrite <- list_fmap_compose.
  change (snd ∘ (λ w : dp_worker world, (wk_id w, wk_dp_rank w))) with (@wk_dp_rank world). by eapply list_elem_of_lookup_2, list_lookup_fmap_Some_2.
Qed.

(** C15 (invariant).  However passes, arrivals, additions and cancellations interleave, until
    a failure every rank has run as many passes, real or dummy, as the coordinator counts;
    all workers were told the same counter; every wave that started has finished, but for
    the running one. *)
Theorem ranks_in_lockstep ws s :
  new_workers ws → dp_reachable ws s → engine_failed s = false →
  (∀ i w, workers s !! i = Some w →
     total (real_batches s) (wk_dp_rank w) + total (dummy_batches s) (wk_dp_rank w) = steps s + counted (at_point s) ∧
     dp_step_counter w = announced s) ∧
  waves_started s = waves_finished s + (if wave_running s then 1 else 0) ∧
  wave s = waves_finished s ∧ busy s = passing (at_point s).
Proof.
  intros Hws Hreach Hf. pose proof (dp_reachable_synced ws s Hws Hreach Hf) as Hs. split; [|by destruct Hs].
  intros i w Hi. split; [|by eapply sy_counter]. apply (sy_counts _ _ Hs). by eapply reachable_rank.
Qed.

(** C16 (safety).  The batch a worker scheduled for the pass under way stays intact until the
    pass completes it: its requests are distinct, still run there and have tokens, whatever
    arrives, is added or cancelled meanwhile. *)
Theorem batch_in_flight_intact ws s b :
  new_workers ws → dp_reachable ws s → engine_failed s = false → in_flight (at_point s) = Some b →
  ∀ i w, workers s !! i = Some w → ∃ batch, b !! wk_id w = Some batch ∧ NoDup batch ∧
    ∀ r, r ∈ batch → r ∈ running (wk_sched w) ∧ 1 <= scheduled_tokens (request (wk_sched w) r).
Proof.
  intros Hws Hreach Hf Hb. pose proof (dp_reachable_synced ws s Hws Hreach Hf) as Hs. exact (sy_batches _ _ Hs b Hb).
Qed.

Lemma reachable_interval ws s : dp_reachable ws s → 0 < sync_interval dp.
Proof. intros (s0 & Hn & _). unfold new_coordinator in Hn. destruct (Z.ltb_spec (sync_interval dp) 1); [done|lia]. Qed.

(** Without work, every worker rests. *)
Lemma no_work_rests ws s : Synced (identities ws) s → has_work s = false → ∀ i w, workers s !! i = Some w → resting w.
Proof.
  intros Hs Hn i w Hl. split; [by apply (proj2 (sy_workers _ _ Hs) i)|]. apply worker_idle.
  unfold has_work in Hn. destruct (worker_has_work w) eqn:E; [|done].
  assert (existsb worker_has_work (workers s) = true) as Ht; [|congruence].
  apply existsb_exists. exists w. split; [|done]. by eapply list_elem_of_In, list_elem_of_lookup_2.
Qed.

(** C17 (liveness).  A wave without work ends.  Let passes follow each other without a message
    in between, with a positive estimate for every worker in each: within [sync_interval] of
    them, none raising, the check finds every worker finished, and the coordinator then waits.
    All are dummy passes: no rank has one more real batch, and each has as many more dummy
    ones as passes ran. *)
Theorem idle_wave_ends ws s inputs :
  new_workers ws → dp_reachable ws s → engine_failed s = false → at_point s = AtTop → wave_running s = true →
  has_work s = false → Z.of_nat (length inputs) = sync_interval dp → (∀ p, p ∈ inputs → positive p.2) →
  ∃ l1 l2, inputs = l1 ++ l2 ∧ l1 ≠ [] ∧
    let s' := passes cfg dp l1 s in
    engine_failed s' = false ∧ wave_running s' = false ∧ waves_finished s' = Z.succ (waves_finished s) ∧
    steps s' = steps s + Z.of_nat (length l1) ∧ has_work s' = false ∧
    real_batches s' = real_batches s ∧
    (∀ i w, workers s' !! i = Some w →
      total (dummy_batches s') (wk_dp_rank w) = total (dummy_batches s) (wk_dp_rank w) + Z.of_nat (length l1)) ∧
    ∀ now estimates, at_point (resume cfg dp now estimates s') = Idle.
Proof.
  intros Hws Hreach Hf Hp Hw Hn Hlen Hin. pose proof (dp_reachable_synced ws s Hws Hreach Hf) as Hs.
  pose proof (reachable_interval ws s Hreach) as Hpos. destruct Hws as (Hi & Hr & _).
  assert (Workless (identities ws) s) as Hwl by (split; [done|by apply (no_work_rests ws)|done|done]).
  destruct (wave_ends cfg dp Hcfg (identities ws)) with (inputs := inputs) (s := s)
    as (l1 & l2 & Hl & Hne & [Hs' Hr' Hp' Hf'] & Hreal & Hframe); try done.
  - unfold identities. by rewrite <- list_fmap_compose.
  - unfold identities. by rewrite <- list_fmap_compose.
  - pose proof (Z.mod_pos_bound (step_counter s) _ Hpos). lia.
  - exists l1, l2. split; [done|]. split; [done|]. cbv zeta. unfold frame in Hframe.
    injection Hframe as H1 H2 H3 H4 H5. pose proof (resting_no_work _ Hr') as Hnw. repeat (split; [done|]). split.
    + intros i w Hk. pose proof (reachable_rank ws _ i w Hs' Hk) as Hrank.
      pose proof (sy_counts _ _ Hs _ Hrank) as C1. pose proof (sy_counts _ _ Hs' _ Hrank) as C2.
      rewrite Hp in C1. rewrite Hp', Hreal in C2. cbn [counted] in C1, C2. lia.
    + intros now es. unfold resume, run_top, mbind, M_bind, gets. unid. by rewrite Hp', Hf', H1, Hnw.
Qed.
End Theorems.

(** ** A concrete run *)

(** Two ranks; the first has two requests. *)
Section Demo.
#[local] Existing Instance id_digest.
#[local] Instance zero_hash : Blake2b := λ _, 0.

Definition demo_dp : dp_config := mkDpConfig 2 1 4.

Definition demo_workers : list (dp_worker world) :=
  [mkWorker 0 0 (demo_added 8 1) WorkerRunning 0 0 true; mkWorker 1 1 (demo_start 8 1) WorkerWaiting 0 0 true].

Definition demo_coordinator : coordinator world :=
  mkCoordinator demo_workers false 0 0 false 0 0 0 0 ∅ ∅ ∅ [] false AtTop.

Lemma demo_new_workers : new_workers demo_workers.
Proof.
  split; [|split].
  - apply (bool_decide_unpack _). vm_compute. exact I.
  - apply (bool_decide_unpack _). vm_compute. exact I.
  - intros w. unfold demo_workers. rewrite !elem_of_cons, elem_of_nil. intros [-> | [-> | []]]; (split; [|done]).
    + by apply demo_ready.
    + apply new_sched_ready; try lia; [constructor|apply demo_reqs_empty].
Qed.

Definition can_resume {W} (estimates : list pyfloat) (s : coordinator W) : bool :=
  match at_point s with Idle | Returned => false | _ => true end && negb (engine_failed s) &&
  (length estimates =? length (workers s))%nat.

Fixpoint resumable (now : pyfloat) (estimates : list pyfloat) (n : nat) (s : coordinator world) : bool :=
  match n with
  | O => true
  | S n => can_resume estimates s && resumable now estimates n (resume demo_config demo_dp now estimates s)
  end.

Lemma resumable_steps now estimates n s : resumable now estimates n s = true →
  rtc (dp_step demo_config demo_dp) s (Nat.iter n (resume demo_config demo_dp now estimates) s).
Proof.
  revert s. induction n as [|n IH]; intros s; [done|]. cbn [resumable]. unfold can_resume. rewrite !andb_true_iff.
  intros [[[Hp Hf%negb_true_iff] Hl%Nat.eqb_eq] Hn]. rewrite Nat.iter_succ_r. eapply rtc_l; [|by apply IH].
  apply dp_run; [done|]. apply resume_step; [by destruct (at_point s)..|done].
Qed.

Definition demo_estimates : list pyfloat := [fof 2; fof 1].

(** The first pass, up to its batches; completed; and the requests cancelled after it *)
Definition demo_loading : coordinator world := Nat.iter 1 (resume demo_config demo_dp (fof 3) demo_estimates) demo_coordinator.
Definition demo_passed : coordinator world := Nat.iter 5 (resume demo_config demo_dp (fof 3) demo_estimates) demo_coordinator.
Definition demo_cancelled : coordinator world := (message_cancel (fof 4) 0 [1; 2] demo_passed).2.

Lemma demo_reaches n s : resumable (fof 3) demo_estimates n demo_coordinator = true →
  s = Nat.iter n (resume demo_config demo_dp (fof 3) demo_estimates) demo_coordinator →
  dp_reachable demo_config demo_dp demo_workers s.
Proof. intros Hn ->. exists demo_coordinator. split; [done|by apply resumable_steps]. Qed.

Lemma demo_cancel_reaches : dp_reachable demo_config demo_dp demo_workers demo_cancelled.
Proof.
  destruct (demo_reaches 5 demo_passed) as (s0 & Hn & Hs); [vm_compute; reflexivity|reflexivity|].
  exists s0. split; [done|]. eapply rtc_r; [exact Hs|]. apply dp_run; [vm_compute; reflexivity|]. apply step_cancel.
Qed.

Lemma ranks_in_lockstep_witness :
  total (real_batches demo_passed) 0 = 1 ∧ total (dummy_batches demo_passed) 1 = 1 ∧ waves_started demo_passed = 1 ∧
  wave demo_passed = waves_finished demo_passed.
Proof.
  destruct (ranks_in_lockstep demo_config demo_dp demo_uniform demo_workers demo_passed) as (_ & _ & Hwave & _).
  - exact demo_new_workers.
  - apply (demo_reaches 5); [vm_compute; reflexivity|reflexivity].
  - vm_compute. reflexivity.
  - split; [vm_compute; reflexivity|]. split; [vm_compute; reflexivity|]. split; [vm_compute; reflexivity|]. exact Hwave.
Defined.

Lemma batch_in_flight_intact_witness :
  ∃ b w batch, in_flight (at_point demo_loading) = Some b ∧ workers demo_loading !! 0%nat = Some w ∧
    b !! wk_id w = Some batch ∧ batch ≠ [] ∧ ∀ r, r ∈ batch → r ∈ running (wk_sched w).
Proof.
  destruct (in_flight (at_point demo_loading)) as [b|] eqn:Hb; [|vm_compute in Hb; discriminate].
  destruct (workers demo_loading !! 0%nat) as [w|] eqn:Hw; [|vm_compute in Hw; discriminate].
  destruct (batch_in_flight_intact demo_config demo_dp demo_uniform demo_workers demo_loading b) with (i := 0%nat) (w := w)
    as (batch & Hl & _ & Hr); [exact demo_new_workers|apply (demo_reaches 1); [vm_compute; reflexivity|reflexivity]|
    vm_compute; reflexivity|exact Hb|exact Hw|].
  exists b, w, batch. split; [done|]. split; [done|]. split; [done|]. split; [|intros r Hi; by apply Hr].
  intros ->.
  assert ((b ← in_flight (at_point demo_loading); w ← workers demo_loading !! 0%nat; b !! wk_id w) = Some [1; 2]) as He
    by (vm_compute; reflexivity).
  rewrite Hb, Hw in He. cbn in He. rewrite Hl in He. discriminate.
Defined.

Lemma idle_wave_ends_witness :
  ∃ n, wave_running demo_cancelled = true ∧ (n <= 4)%nat ∧
    let s := passes demo_config demo_dp (replicate n (fof 5, demo_estimates)) demo_cancelled in
    wave_running s = false ∧ real_batches s = real_batches demo_cancelled ∧
    at_point (resume demo_config demo_dp (fof 6) [] s) = Idle.
Proof.
  destruct (idle_wave_ends demo_config demo_dp demo_uniform demo_workers demo_cancelled
    (replicate 4 (fof 5, demo_estimates))) as (l1 & l2 & Hl & _ & Hend).
  - exact demo_new_workers.
  - exact demo_cancel_reaches.
  - vm_compute. reflexivity.
  - vm_compute. reflexivity.
  - vm_compute. reflexivity.
  - vm_compute. reflexivity.
  - reflexivity.
  - intros p Hp%elem_of_replicate_inv. subst p. split; [discriminate|]. intros e. unfold demo_estimates.
    cbn [snd]. rewrite !elem_of_cons, elem_of_nil. intros [-> | [-> | []]]; vm_compute; reflexivity.
  - cbv zeta in Hend. destruct Hend as (_ & Hw & _ & _ & _ & Hreal & _ & Hidle).
    assert (length l1 <= 4)%nat as Hle by (apply (f_equal length) in Hl; rewrite length_app in Hl; cbn in Hl; lia).
    assert (l1 = replicate (length l1) (fof 5, demo_estimates)) as Heq.
    { symmetry. apply replicate_as_elem_of. split; [done|].
      intros x Hx. apply (elem_of_replicate_inv x 4 (fof 5, demo_estimates)). rewrite Hl, elem_of_app. by left. }
    exists (length l1). split; [vm_compute; reflexivity|]. split; [exact Hle|]. cbv zeta. rewrite <- Heq.
    split; [exact Hw|]. split; [exact Hreal|apply Hidle].
Defined.
End Demo.
